(* ===== verification/_CoqProject ===== *)
-Q . S2P
Prelude.v
Codec.v
Framing.v
Netip.v
Ids.v
Sid.v
SubTLV.v
Entries.v
Locator.v
Tlv.v
Checksum.v
Pdu.v
Auth.v
PacketSpec.v
Circuit.v
Policy.v
Lsdb.v
Dis.v
Restart.v
EdgeLog.v
Server.v
Lifetime.v
Flooding.v
Transmit.v
Origination.v
HelloBuild.v
Hello.v
HelloFrame.v
Ranges.v
UpdateSpec.v
NodeSpec.v
TransmitSpec.v
SnpSpec.v
OriginationSpec.v
HelloSpec.v
RxSpec.v
FlexAlgo.v
Heap.v
Tent.v
Topology.v
Spf.v
SpfPaths.v
SpfSpec.v
RouteSpec.v
TopologySpec.v
Rib.v
RibSpec.v
RibSelect.v
EndX.v
EndXSpec.v
NodeLsp.v
Loop.v
Mutate.v
Serve.v
Text.v
Netlink.v
Query.v
Metrics.v
Watch.v
Options.v
Config.v
Reload.v
Connect.v
IfWatch.v
Settings.v
TextSpec.v
SummarySpec.v
NodeLspSpec.v
ServeSpec.v
SettingsSpec.v
ConfigSpec.v
ReloadSpec.v
ReloadRun.v
ReloadServe.v
WatchFrame.v
WatchSpec.v
WatchHub.v
ConnectSpec.v
IfWatchSpec.v
NetlinkSpec.v
