(* ===== verification/Prelude.v ===== *)
(** * goisis: a verification development

    goisis is an IS-IS router written in Go: src/pkg/packet encodes and decodes
    the protocol's PDUs, src/pkg/server runs the protocol (adjacencies, the
    link-state database and its flooding, origination, SPF, the RIB), src/pkg/fib
    and src/pkg/datalink are interfaces to the kernel, and src/pkg/config and
    src/cmd drive a server from a file or an RPC client.  The whole server runs
    on one goroutine, the loop of [IsisServer.Serve]: it selects one of a
    received frame, a tick, the end of an SPF hold or a management operation,
    handles it to its end, drains a pending LSP regeneration and recomputes the
    routes.  This development is a shallow embedding of that program: every
    function is a Rocq function over explicit state.

    ** Conventions (this file)

    [outcome] is what a Go function returning an error does: [Ok], [Err] with one
    of the error values of errors.go, or [Panic] (an index or slice out of range,
    a nil map or pointer).  Octets are [Z] in [0, 256), slices lists of them;
    [u8], [u16], [u32], [u64] and [s64] write the wrap-around of the machine
    widths out.  Loops over a slice that consume it ([loop]) take the length of
    the slice as fuel; [loop_fuel_enough] shows that it is enough as every
    step consumes an octet or fails.

    ** pkg/packet

    - Netip.v: the part of net/netip the program uses (addresses, prefixes,
      masking, comparison, classes).  Ids.v: identifiers and PDU types of
      packet.go.
    - Codec.v: the interfaces [Value] (a body and its decoder) and [Stream] (an
      element repeated in an area), with the laws lists inherit.  Framing.v: the
      type-length-value framing.
    - Sid.v, SubTLV.v, Entries.v, Locator.v, Tlv.v: the bodies of tlv_*.go and
      the three registries, instance by instance of those interfaces.
    - Checksum.v (checksum.go), Pdu.v (packet.go, hello.go, lsp.go, snp.go),
      Auth.v (auth.go; the HMAC is a parameter).
    - PacketSpec.v: decoding never panics and never loops; decoding what was
      encoded gives it back; the checksum verifies exactly the octet strings
      whose two sums vanish modulo 255; authentication.

    ** pkg/server: state

    - Circuit.v (adjacency.go, circuit.go, the accessors of config.go), Policy.v
      (policy.go), Lsdb.v (lsdb.go), Dis.v (dis.go), Restart.v (restart.go),
      EdgeLog.v (edgelog.go).
    - Server.v (server.go, auth.go, metrics.go): [Server], the fields of
      [IsisServer] the protocol handlers own, and the trace of its effects
      (frames sent, metrics, warnings).  Rib.v: [RIB], the fields the routes own.
      EndX.v: [Node], both together with the rest.  A [*circuit] is the position
      of the circuit in [circuits]; a circuit that may have been deleted
      meanwhile is named by its extended circuit ID.

    ** pkg/server: operations

    - Lifetime.v (lifetime.go), Flooding.v and Transmit.v (flooding.go),
      Origination.v and NodeLsp.v (origination.go), HelloBuild.v and Hello.v
      (hello.go), FlexAlgo.v (flexalgo.go), Heap.v (container/heap), Tent.v,
      Topology.v and Spf.v (spf.go), Rib.v (rib.go), EndX.v (srv6_endx.go),
      Mutate.v (mutate.go, circuit_events.go), Options.v (the options of
      config.go), Loop.v (housekeeping, start, shutdown) and Serve.v (the loop,
      the readers, [NewIsisServer]; the packet socket of pkg/datalink).
    - Query.v (the reads of server.go, tlvsummary.go), Metrics.v (metrics.go and
      pkg/metrics), Watch.v (watch.go), Connect.v (connect.go, the management
      operations of server.go and AddCircuit, which wait for the loop).
    - Where the program is written against an interface the model is too: [Heap]
      and [TentativeSet] (Dijkstra's loop is proved against the laws of the
      second, which [tentSet] over the first satisfies), [FIB] (whose laws,
      [FIBLaws], say what a forwarding table keeps; Noop, a table that can fail
      and, without those laws, the Linux one are instances), [Api] (what a caller can ask of a server,
      with [ApiLaws]; a node is one, and so is the loop with turns between two
      calls), [Views] (what a server shows), [Vectors] (the metrics library).

    ** Around the server

    - Text.v: the texts the program reads and writes.  Config.v (config.go),
      Reload.v (reload.go and the SIGHUP loop of src/cmd/goisisd), IfWatch.v
      (ifwatch_linux.go), Netlink.v (pkg/fib/netlink_linux.go).  The daemon's guard
      on the address it listens on and the client of src/cmd/goisis are at the end
      of Connect.v.

    What Go leaves open is a parameter: the order a loop visits a map in, the
    jitter of [rand.N], whether a transport sends.  At the loop they are gathered
    in [Loop.Oracle], one for each turn; theorems hold for every one ([fair]: an
    order is a permutation of the entries).  Within a handler the clock is read
    once; the loop reads it three times a turn ([Serve.moment]).  So is what a
    library or the host answers: HMACs, durations, the interfaces and addresses of
    the host, the netlink library with its kernel ([Kernel]), the vectors of the
    metrics library, whether a message of a stream is sent.

    ** What the theorems show

    - UpdateSpec.v, SnpSpec.v, TransmitSpec.v, RxSpec.v: the update process: what
      a received LSP does to the database (its sequence numbers only grow, own
      LSPs are reclaimed, the entry limit holds), what is flooded, acknowledged
      and paced, the ranges a CSNP burst covers, and the adjacency gate in front.
    - OriginationSpec.v, NodeLspSpec.v: sequence numbers advance exactly when the
      content changes or a refresh is forced; what the node LSP says.
    - HelloSpec.v (with HelloFrame.v): the broadcast and the three-way state
      machines, restart holds, padding, expiry.  NodeSpec.v: aging, the lifetime
      window, DIS election, policies, logs.
    - SpfPaths.v, SpfSpec.v, RouteSpec.v, TopologySpec.v: distances are shortest
      paths, first hops are those of shortest paths (all of them on point-to-point
      topologies), which routes are kept, what prunes a link, which Flex-Algo
      definition wins.
    - RibSpec.v, RibSelect.v: the forwarding table is the RIB, but for the
      prefixes pending a retry; which route is selected; what is exchanged
      between the levels.  EndXSpec.v: End.X SIDs are reconciled with the
      adjacencies.  NetlinkSpec.v: what each method of the Linux table does to the
      kernel's routes, and that it leaves those of others alone.
    - ServeSpec.v: over any number of turns from the node [NewIsisServer] builds,
      the forwarding table, the SIDs and the recomputation stay in step; what a
      link carries is what the loop is handed.
    - Settings.v, SettingsSpec.v: the runtime configuration in the abstract, which
      the operations and the loop refine.  ConfigSpec.v, ReloadSpec.v, ReloadRun.v,
      ReloadServe.v: a reload, with turns of the loop between its calls, leaves the
      settings a restart on the same file would; when its retries cannot.
    - WatchFrame.v, WatchSpec.v, WatchHub.v: until its subscription ends a subscriber
      sees no gap, and why one ends.
      TextSpec.v, SummarySpec.v: the parsers, and what a listing may show.
      ConnectSpec.v: requests, listings, streams and the transport of an added
      circuit.  Metrics.v: what is exposed is what was reported.  IfWatchSpec.v: a
      re-read of the host repairs whatever events were lost.

    Fuel: [chunk_fuel], [pack_loop], [isreach_fuel], [pad_fuel], [up_fuel],
    [down_fuel] and the loop of [computeSPF] take the number of elements (or
    octets, or the depth of the heap) as fuel and are shown not to run out, and so
    does the loop over what a socket reports ([receipts]: [receipts_unrolled]).
    The loops over texts ([valid_from], [map_runes]) take the length of the text, of
    which each step takes an octet; [v6_loop] takes the eight groups of an address
    and [digits] the 20 digits of a 64-bit number.  The other recursions are
    structural.

    ** Not modelled

    Goroutines and channels as such: their deliveries are the turns, the events and
    the calls of the model; a select takes whichever case the model is given.  The
    YAML decoder and the texts of errors; the deadlines of a reload; log messages
    below a warning; the values of the durations of SPF; the system calls of
    sockets, signals and listeners; the flags, the layout of tables and the JSON of
    the client, which are its libraries'; generated code; the in-memory transport
    of the tests.  [time.Time] is a number of nanoseconds; a nil and an empty slice
    are one value. *)

From stdpp Require Export base list list_numbers option fin_maps gmap.
From Stdlib Require Export ZArith Lia ZifyBool.

#[export] Set Default Goal Selector "!".

(** ** Go values *)

(** An octet is a [Z] in [[0, 256)]; a byte slice (or a fixed-size byte
    array) is a list of octets. *)
Abbreviation bytes := (list Z).

Definition byte_ok (x : Z) : Prop := (0 <= x < 256)%Z.

Definition bytes_ok (b : bytes) : Prop := Forall byte_ok b.

(** ** Outcomes *)

(** The sentinel errors of errors.go.  [fmt.Errorf] with [%w] keeps the
    sentinel, so an error is modelled by the sentinel it wraps; [errAuth] stands
    for the errors of auth.go, which wrap none. *)
Inductive error : Set :=
  | ErrTruncated
  | ErrUnknownPDUType
  | ErrTooLong
  | errBadDiscriminator
  | errBadVersion
  | errBadIDLength
  | errBadFixedHeader
  | errBadTLV
  | errAuth.

#[export] Instance error_eq_dec : EqDecision error.
Proof. solve_decision. Defined.

(** What a Go function returning [(A, error)] does: return a value, return an
    error, or panic (an index or a slice bound out of range).  A loop that
    would not terminate is a [Panic] as well. *)
Inductive outcome (A : Type) : Type :=
  | Ok (a : A)
  | Err (e : error)
  | Panic.
Arguments Ok {A} a.
Arguments Err {A} e.
Arguments Panic {A}.

#[export] Instance outcome_ret : MRet outcome := fun A a => Ok a.
#[export] Instance outcome_bind : MBind outcome := fun A B f m =>
  match m with
  | Ok a => f a
  | Err e => Err e
  | Panic => Panic
  end.

(** Go's [if err == nil] test. *)
Definition is_ok {A} (m : outcome A) : bool :=
  match m with Ok _ => true | _ => false end.

Lemma bind_Ok {A B} (f : A -> outcome B) (m : outcome A) (b : B) :
  m ≫= f = Ok b <-> exists a, m = Ok a /\ f a = Ok b.
Proof. destruct m; simpl; naive_solver. Qed.

Lemma bind_Panic {A B} (f : A -> outcome B) (m : outcome A) :
  m <> Panic -> (forall a, m = Ok a -> f a <> Panic) -> m ≫= f <> Panic.
Proof. destruct m; simpl; naive_solver. Qed.

(** ** Slices

    Indices and lengths are [nat].  Go bounds a slice expression by the
    capacity; the model bounds it by the length, so a definition that never
    reaches [Panic] here never reads past the slice it was given either. *)

(** [b[i]] *)
Definition idx (b : bytes) (i : nat) : outcome Z :=
  match b !! i with Some x => Ok x | None => Panic end.

(** [b[i:]] *)
Definition from (b : bytes) (i : nat) : outcome bytes :=
  if i <=? length b then Ok (drop i b) else Panic.

(** [b[i:j]] *)
Definition slice (b : bytes) (i j : nat) : outcome bytes :=
  if (i <=? j) && (j <=? length b) then Ok (take (j - i) (drop i b)) else Panic.

(** The conversion [[n]byte(s)]: the first [n] octets. *)
Definition array (n : nat) (s : bytes) : outcome bytes :=
  if n <=? length s then Ok (take n s) else Panic.

(** [copy(full[:], sig)] into a zeroed array of [n] octets. *)
Definition copy_into (n : nat) (s : bytes) : bytes :=
  take n (s ++ replicate n 0%Z).

(** ** Machine integers *)

Definition u8 (x : Z) : Z := (x mod 256)%Z.
Definition u16 (x : Z) : Z := (x mod 65536)%Z.
Definition u32 (x : Z) : Z := (x mod 4294967296)%Z.
Definition u64 (x : Z) : Z := (x mod 18446744073709551616)%Z.

Definition u8_ok (x : Z) : Prop := (0 <= x < 256)%Z.
Definition u16_ok (x : Z) : Prop := (0 <= x < 65536)%Z.
Definition u32_ok (x : Z) : Prop := (0 <= x < 4294967296)%Z.

(** [binary.BigEndian.PutUint16] and [AppendUint16]. *)
Definition put16 (x : Z) : bytes := [u8 (Z.shiftr x 8); u8 x].
(** [binary.BigEndian.PutUint32] and [AppendUint32]. *)
Definition put32 (x : Z) : bytes :=
  [u8 (Z.shiftr x 24); u8 (Z.shiftr x 16); u8 (Z.shiftr x 8); u8 x].

(** [uint16(a)<<8 | uint16(b)] *)
Definition join16 (a b : Z) : Z := Z.lor (Z.shiftl a 8) b.
Definition join32 (a b c d : Z) : Z :=
  Z.lor (Z.lor (Z.lor (Z.shiftl a 24) (Z.shiftl b 16)) (Z.shiftl c 8)) d.

(** [binary.BigEndian.Uint16]: panics on a slice shorter than two octets. *)
Definition be16 (s : bytes) : outcome Z :=
  a ← idx s 0; b ← idx s 1; mret (join16 a b).
Definition be32 (s : bytes) : outcome Z :=
  a ← idx s 0; b ← idx s 1; c ← idx s 2; d ← idx s 3; mret (join32 a b c d).

(** A flag test [x & bit != 0] and a flag word. *)
Definition flag (x bit : Z) : bool := negb (Z.land x bit =? 0)%Z.
Definition flag_if (c : bool) (bit : Z) : Z := if c then bit else 0%Z.

(** ** Loops over a slice

    [for len(b) > 0 { a, n := step(b); out = append(out, a); b = b[n:] }].
    The step returns the element and the rest of the slice; the fuel is the
    length, which is enough as soon as a step consumes at least one octet
    (see [loop_unfold]). *)
Fixpoint loop_fuel {A} (step : bytes -> outcome (A * bytes)) (n : nat) (b : bytes)
  : outcome (list A) :=
  match b with
  | [] => Ok []
  | _ :: _ =>
      match n with
      | O => Panic
      | S n' =>
          '(a, rest) ← step b;
          out ← loop_fuel step n' rest;
          mret (a :: out)
      end
  end.

Definition loop {A} (step : bytes -> outcome (A * bytes)) (b : bytes) : outcome (list A) :=
  loop_fuel step (length b) b.

(** [for _, x := range xs { e, err := enc(x); ...; out = append(out, e...) }] *)
Definition concatM {A} (enc : A -> outcome bytes) : list A -> outcome bytes :=
  fix go xs :=
    match xs with
    | [] => Ok []
    | x :: r => e ← enc x; es ← go r; mret (e ++ es)
    end.

(** ** Arithmetic of the wire integers *)

Create HintDb bytes.
Create Rewrite HintDb wire.

Lemma lor_shiftl (a b k : Z) :
  (0 <= k)%Z -> (0 <= b < 2 ^ k)%Z -> Z.lor (Z.shiftl a k) b = (a * 2 ^ k + b)%Z.
Proof.
  intros Hk Hb. rewrite <- Z.shiftl_mul_pow2 by lia. symmetry. apply Z.add_nocarry_lor.
  apply Z.bits_inj'. intros n Hn. rewrite Z.land_spec, Z.bits_0.
  destruct (Z.ltb_spec n k) as [Hlt|Hge].
  - rewrite Z.shiftl_spec_low by lia. reflexivity.
  - destruct (Z.eq_dec b 0) as [->|Hb0]; [rewrite Z.bits_0; apply andb_false_r|].
    rewrite (Z.bits_above_log2 b n); [apply andb_false_r|lia|].
    apply Z.lt_le_trans with k; [apply Z.log2_lt_pow2; lia|lia].
Qed.

Lemma u8_byte (x : Z) : byte_ok (u8 x).
Proof. unfold byte_ok, u8. apply Z.mod_pos_bound. lia. Qed.

Lemma u8_id (x : Z) : byte_ok x -> u8 x = x.
Proof. unfold byte_ok, u8. intros H. apply Z.mod_small. lia. Qed.

Lemma join16_eq (a b : Z) : byte_ok b -> join16 a b = (a * 256 + b)%Z.
Proof. unfold byte_ok, join16. intros H. rewrite lor_shiftl by lia. lia. Qed.

Lemma join32_eq (a b c d : Z) :
  byte_ok b -> byte_ok c -> byte_ok d ->
  join32 a b c d = (a * 16777216 + b * 65536 + c * 256 + d)%Z.
Proof.
  unfold byte_ok, join32. intros Hb Hc Hd.
  rewrite <- !Z.lor_assoc.
  rewrite (lor_shiftl c d) by lia.
  rewrite (lor_shiftl b) by lia. rewrite lor_shiftl by lia. lia.
Qed.

Lemma put16_ok (x : Z) : bytes_ok (put16 x).
Proof. repeat constructor; apply u8_byte. Qed.

Lemma put32_ok (x : Z) : bytes_ok (put32 x).
Proof. repeat constructor; apply u8_byte. Qed.

Lemma join16_put (x : Z) : u16_ok x -> join16 (u8 (Z.shiftr x 8)) (u8 x) = x.
Proof.
  unfold u16_ok. intros H. rewrite join16_eq by apply u8_byte.
  unfold u8. rewrite Z.shiftr_div_pow2 by lia. change (2 ^ 8)%Z with 256%Z.
  Z.to_euclidean_division_equations. lia.
Qed.

Lemma join32_put (x : Z) :
  u32_ok x -> join32 (u8 (Z.shiftr x 24)) (u8 (Z.shiftr x 16)) (u8 (Z.shiftr x 8)) (u8 x) = x.
Proof.
  unfold u32_ok. intros H. rewrite join32_eq by apply u8_byte.
  unfold u8. rewrite !Z.shiftr_div_pow2 by lia.
  change (2 ^ 8)%Z with 256%Z. change (2 ^ 16)%Z with 65536%Z. change (2 ^ 24)%Z with 16777216%Z.
  Z.to_euclidean_division_equations. lia.
Qed.

Lemma put16_join (a b : Z) : byte_ok a -> byte_ok b -> put16 (join16 a b) = [a; b].
Proof.
  intros Ha Hb. unfold put16. rewrite join16_eq by done. unfold byte_ok, u8 in *.
  rewrite Z.shiftr_div_pow2 by lia. change (2 ^ 8)%Z with 256%Z.
  repeat f_equal; Z.to_euclidean_division_equations; lia.
Qed.

Lemma put32_join (a b c d : Z) :
  byte_ok a -> byte_ok b -> byte_ok c -> byte_ok d -> put32 (join32 a b c d) = [a; b; c; d].
Proof.
  intros Ha Hb Hc Hd. unfold put32. rewrite join32_eq by done. unfold byte_ok, u8 in *.
  rewrite !Z.shiftr_div_pow2 by lia.
  change (2 ^ 8)%Z with 256%Z. change (2 ^ 16)%Z with 65536%Z. change (2 ^ 24)%Z with 16777216%Z.
  repeat f_equal; Z.to_euclidean_division_equations; lia.
Qed.

Lemma join16_ok (a b : Z) : byte_ok a -> byte_ok b -> u16_ok (join16 a b).
Proof. intros Ha Hb. rewrite join16_eq by done. unfold byte_ok, u16_ok in *. lia. Qed.

Lemma join32_ok (a b c d : Z) :
  byte_ok a -> byte_ok b -> byte_ok c -> byte_ok d -> u32_ok (join32 a b c d).
Proof. intros. rewrite join32_eq by done. unfold byte_ok, u32_ok in *. lia. Qed.

#[export] Hint Resolve u8_byte put16_ok put32_ok join16_ok join32_ok : bytes.

(** [bytes_ok] is preserved by every slice operation. *)
Lemma bytes_ok_app (a b : bytes) : bytes_ok (a ++ b) <-> bytes_ok a /\ bytes_ok b.
Proof. apply Forall_app. Qed.

Lemma bytes_ok_cons (x : Z) (b : bytes) : bytes_ok (x :: b) <-> byte_ok x /\ bytes_ok b.
Proof. apply Forall_cons. Qed.

Lemma bytes_ok_take (n : nat) (b : bytes) : bytes_ok b -> bytes_ok (take n b).
Proof. apply Forall_take. Qed.

Lemma bytes_ok_drop (n : nat) (b : bytes) : bytes_ok b -> bytes_ok (drop n b).
Proof. apply Forall_drop. Qed.

Lemma bytes_ok_lookup (b : bytes) (i : nat) (x : Z) : bytes_ok b -> b !! i = Some x -> byte_ok x.
Proof. intros H Hi. eapply Forall_lookup_1; eauto. Qed.

#[export] Hint Resolve bytes_ok_take bytes_ok_drop : bytes.

Lemma bytes_ok_replicate (n : nat) : bytes_ok (replicate n 0%Z).
Proof. apply Forall_replicate. unfold byte_ok. lia. Qed.

Lemma bytes_ok_copy_into (n : nat) (s : bytes) : bytes_ok s -> bytes_ok (copy_into n s).
Proof.
  intros H. unfold copy_into. apply bytes_ok_take, bytes_ok_app. split; [done|].
  apply bytes_ok_replicate.
Qed.

Lemma length_copy_into (n : nat) (s : bytes) : length (copy_into n s) = n.
Proof. unfold copy_into. rewrite length_take, length_app, length_replicate. lia. Qed.

#[export] Hint Resolve bytes_ok_replicate bytes_ok_copy_into : bytes.

(** ** Evaluating slice expressions *)

Lemma idx_Ok (b : bytes) (i : nat) (x : Z) : idx b i = Ok x <-> b !! i = Some x.
Proof. unfold idx. destruct (b !! i); naive_solver. Qed.

Lemma idx_nopanic (b : bytes) (i : nat) : i < length b -> idx b i <> Panic.
Proof. intros H. unfold idx. destruct (lookup_lt_is_Some_2 b i H) as [x ->]. done. Qed.

Lemma from_Ok (b : bytes) (i : nat) : i <= length b -> from b i = Ok (drop i b).
Proof. intros H. unfold from. rewrite (proj2 (Nat.leb_le _ _)) by done. done. Qed.

Lemma from_inv (b s : bytes) (i : nat) : from b i = Ok s -> i <= length b /\ s = drop i b.
Proof. unfold from. destruct (Nat.leb_spec i (length b)); naive_solver. Qed.

Lemma slice_Ok (b : bytes) (i j : nat) :
  i <= j <= length b -> slice b i j = Ok (take (j - i) (drop i b)).
Proof.
  intros [H1 H2]. unfold slice. rewrite !(proj2 (Nat.leb_le _ _)) by done. done.
Qed.

Lemma slice_inv (b s : bytes) (i j : nat) :
  slice b i j = Ok s -> i <= j <= length b /\ s = take (j - i) (drop i b).
Proof.
  unfold slice. destruct (Nat.leb_spec i j), (Nat.leb_spec j (length b)); naive_solver.
Qed.

Lemma array_Ok (n : nat) (s : bytes) : n <= length s -> array n s = Ok (take n s).
Proof. intros H. unfold array. rewrite (proj2 (Nat.leb_le _ _)) by done. done. Qed.

Lemma from_cons (x : Z) (b : bytes) (i : nat) : from (x :: b) (S i) = from b i.
Proof. reflexivity. Qed.

Lemma from_0 (b : bytes) : from b 0 = Ok b.
Proof. reflexivity. Qed.

Lemma slice_cons (x : Z) (b : bytes) (i j : nat) : slice (x :: b) (S i) (S j) = slice b i j.
Proof. reflexivity. Qed.

Lemma slice_0 (b : bytes) (j : nat) : j <= length b -> slice b 0 j = Ok (take j b).
Proof. intros H. rewrite slice_Ok by lia. rewrite drop_0, Nat.sub_0_r. done. Qed.

Lemma from_app (a b : bytes) : from (a ++ b) (length a) = Ok b.
Proof. rewrite from_Ok by (rewrite length_app; lia). rewrite drop_app_length. done. Qed.

Lemma slice_app (a b : bytes) : slice (a ++ b) 0 (length a) = Ok a.
Proof. rewrite slice_0 by (rewrite length_app; lia). rewrite take_app_length. done. Qed.

Lemma idx_0 (x : Z) (b : bytes) : idx (x :: b) 0 = Ok x.
Proof. reflexivity. Qed.

Lemma idx_S (x : Z) (b : bytes) (i : nat) : idx (x :: b) (S i) = idx b i.
Proof. reflexivity. Qed.

Lemma bind_ret_l {A B} (a : A) (f : A -> outcome B) : Ok a ≫= f = f a.
Proof. reflexivity. Qed.

#[export] Hint Rewrite idx_0 idx_S from_cons from_0 slice_cons @bind_ret_l : wire.

(** ** Loops *)

Section Loop.
Context {A : Type} (step : bytes -> outcome (A * bytes)).

(** Every step that returns consumes at least one octet. *)
Definition consuming : Prop :=
  forall b a rest, step b = Ok (a, rest) -> length rest < length b.

Lemma loop_fuel_enough (n m : nat) (b : bytes) :
  consuming -> length b <= n -> length b <= m -> loop_fuel step n b = loop_fuel step m b.
Proof.
  intros Hc. revert m b. induction n as [|n IH]; intros m b Hn Hm.
  - destruct b; simpl in *; [by destruct m|lia].
  - destruct b as [|x b]; [by destruct m|]. destruct m as [|m]; [simpl in *; lia|].
    simpl. destruct (step (x :: b)) as [[a rest]| |] eqn:E; [|done..].
    simpl. apply Hc in E. simpl in *. rewrite (IH m rest) by lia. done.
Qed.

(** The loop unfolds as the Go loop does: the fuel is never the reason it
    stops. *)
Lemma loop_unfold (b : bytes) :
  consuming ->
  loop step b =
    match b with
    | [] => Ok []
    | _ :: _ => '(a, rest) ← step b; out ← loop step rest; mret (a :: out)
    end.
Proof.
  intros Hc. unfold loop at 1. destruct b as [|x b]; [done|]. simpl.
  destruct (step (x :: b)) as [[a rest]| |] eqn:E; [|done..].
  simpl. apply Hc in E. simpl in *. unfold loop.
  rewrite (loop_fuel_enough (length b) (length rest)) by (done || lia). done.
Qed.
End Loop.

(** Induction on the length of a slice. *)
Lemma bytes_ind_length (P : bytes -> Prop) :
  (forall b, (forall b', length b' < length b -> P b') -> P b) -> forall b, P b.
Proof.
  intros H b. remember (length b) as n eqn:Hn. revert b Hn.
  induction n as [n IH] using lt_wf_ind. intros b ->. apply H. intros b' Hb'.
  eapply IH; eauto.
Qed.

(** ** Tactics *)

(** Split a slice known to be long enough into its first [n] octets and the
    rest. *)
Tactic Notation "split_bytes" int_or_var(n) ident(b) :=
  do n (destruct b as [|? b]; [exfalso; simpl in *; first [discriminate | lia]|]).

(** Invert [m = Ok x] through the binds and the tests of a decoder. *)
Ltac ok_inv H :=
  repeat match type of H with
    | _ ≫= _ = Ok _ =>
        let x := fresh "x" in let Hx := fresh "Hx" in
        apply bind_Ok in H; destruct H as (x & Hx & H)
    | (let '(_, _) := ?p in _) = Ok _ => destruct p
    | (if ?c then _ else _) = Ok _ => destruct c eqn:?; simpl in H; try discriminate H
    | Ok _ = Ok _ => injection H as H
    | mret _ = Ok _ => injection H as H
    | Err _ = Ok _ => discriminate H
    | Panic = Ok _ => discriminate H
    end.

(** Evaluate index and slice expressions on a slice with known leading
    octets, and the binds over their results. *)
Ltac wire_reduce := autorewrite with wire; cbn beta iota delta [Nat.add].
Tactic Notation "wire" := wire_reduce.
Tactic Notation "wire" "in" hyp(H) := autorewrite with wire in H; cbn beta iota delta [Nat.add] in H.

(** Octets: split the hypotheses that say a slice holds octets, and prove that
    one does. *)
Ltac octets_in :=
  repeat match goal with
    | H : bytes_ok (_ :: _) |- _ => apply bytes_ok_cons in H; destruct H
    | H : bytes_ok (_ ++ _) |- _ => apply bytes_ok_app in H; destruct H
    end.
Ltac octets_step :=
  match goal with
  | |- _ /\ _ => split
  | |- bytes_ok [] => constructor
  | |- bytes_ok (_ :: _) => apply bytes_ok_cons
  | |- bytes_ok (_ ++ _) => apply bytes_ok_app
  | |- bytes_ok (put16 _) => apply put16_ok
  | |- bytes_ok (put32 _) => apply put32_ok
  | |- bytes_ok (take _ _) => apply bytes_ok_take
  | |- bytes_ok (drop _ _) => apply bytes_ok_drop
  | |- byte_ok (u8 _) => apply u8_byte
  | |- u16_ok (join16 _ _) => apply join16_ok
  | |- u32_ok (join32 _ _ _ _) => apply join32_ok
  | |- _ => assumption
  | |- _ => unfold byte_ok, u8_ok, u16_ok, u32_ok in *; simpl in *; lia
  end.
Ltac octets := octets_in; repeat octets_step.

(** One step of a proof that a decoder does not panic. *)
Ltac nopanic_step :=
  match goal with
  | |- Ok _ <> Panic => discriminate
  | |- mret _ <> Panic => discriminate
  | |- Err _ <> Panic => discriminate
  | |- _ ≫= _ <> Panic => apply bind_Panic; [|intros ? ?]
  | |- (if ?c then _ else _) <> Panic => destruct c eqn:?
  | |- (let '(_, _) := ?p in _) <> Panic => destruct p
  | |- idx _ _ <> Panic => apply idx_nopanic; simpl in *; lia
  end.
Ltac nopanic := repeat nopanic_step.

(** ** Fixed-size arrays *)

(** A [[n]byte]. *)
Definition arr (n : nat) (b : bytes) : Prop := length b = n /\ bytes_ok b.

Lemma arr_take (n : nat) (b : bytes) : bytes_ok b -> n <= length b -> arr n (take n b).
Proof. intros Hb Hn. split; [rewrite length_take; lia|by apply bytes_ok_take]. Qed.

#[export] Hint Resolve arr_take : bytes.

(** Lexicographic comparison of octet strings: [bytes.Compare]. *)
Fixpoint bytes_compare (a b : bytes) : comparison :=
  match a, b with
  | [], [] => Eq
  | [], _ :: _ => Lt
  | _ :: _, [] => Gt
  | x :: a', y :: b' =>
      match (x ?= y)%Z with Eq => bytes_compare a' b' | c => c end
  end.

Lemma bytes_compare_refl (a : bytes) : bytes_compare a a = Eq.
Proof. induction a as [|x a IH]; simpl; [done|]. rewrite Z.compare_refl. done. Qed.

Lemma bytes_compare_eq (a b : bytes) : bytes_compare a b = Eq -> a = b.
Proof.
  revert b. induction a as [|x a IH]; intros [|y b]; simpl; try done.
  destruct (Z.compare_spec x y) as [->|?|?]; try done. intros H. f_equal. by apply IH.
Qed.

Lemma bytes_compare_antisym (a b : bytes) : bytes_compare b a = CompOpp (bytes_compare a b).
Proof.
  revert b. induction a as [|x a IH]; intros [|y b]; simpl; try done.
  rewrite Z.compare_antisym. destruct (x ?= y)%Z; simpl; [apply IH|done|done].
Qed.

Lemma bytes_compare_trans (a b c : bytes) (o : comparison) :
  bytes_compare a b = o -> bytes_compare b c = o -> bytes_compare a c = o.
Proof.
  revert b c. induction a as [|x a IH]; intros [|y b] [|z c]; simpl; try congruence.
  destruct (Z.compare_spec x y), (Z.compare_spec y z), (Z.compare_spec x z);
    subst; try lia; try congruence; eauto.
Qed.

Lemma bytes_compare_not_Gt_trans (a b c : bytes) :
  bytes_compare a b <> Gt -> bytes_compare b c <> Gt -> bytes_compare a c <> Gt.
Proof.
  intros Hab Hbc Hac. destruct (bytes_compare a b) eqn:E1; [| |done].
  - apply bytes_compare_eq in E1 as ->. done.
  - destruct (bytes_compare b c) eqn:E2; [| |done].
    + apply bytes_compare_eq in E2 as ->. congruence.
    + rewrite (bytes_compare_trans a b c Lt E1 E2) in Hac. done.
Qed.

(** [bytes_ok] of octets that evaluate. *)
Definition octetsb (b : bytes) : bool := forallb (fun x => (0 <=? x)%Z && (x <? 256)%Z) b.

Lemma octetsb_ok (b : bytes) : octetsb b = true -> bytes_ok b.
Proof.
  unfold octetsb. rewrite forallb_forall. intros H. apply List.Forall_forall. intros x Hx.
  specialize (H x Hx). unfold byte_ok. lia.
Qed.

Ltac eval_octets := apply octetsb_ok; vm_compute; reflexivity.
