(* ===== verification/Codec.v ===== *)
(** Codec interfaces: what a value codec and a streamed element codec of
    pkg/packet promise, and the laws that follow for lists of elements.

    [Value] is the contract of a TLV or sub-TLV value (a body and its decoder);
    [Stream] is the contract of one element of a repeated area (the body of a
    [for len(b) > 0] loop and the octets appended for it).  Each has three laws:
    the decoder never panics, it reads back what the encoder wrote, and what it
    accepts re-encodes to no more octets than it was given (the fixed-point
    contract FuzzDecodeTLVs holds the codec to). *)

From S2P Require Import Prelude.

(** A value: [enc] renders the value octets, [dec] reads them.  A value sits
    behind a one-octet length, so only values of up to 255 octets are read. *)
Class Value {A : Type} (enc : A -> outcome bytes) (dec : bytes -> outcome A) (wf : A -> Prop) := {
  value_nopanic : forall v, dec v <> Panic;
  value_rt : forall a v, wf a -> enc a = Ok v -> bytes_ok v /\ dec v = Ok a;
  value_fix : forall v a, bytes_ok v -> length v <= 255 -> dec v = Ok a ->
    wf a /\ exists e, enc a = Ok e /\ length e <= length v
}.

(** One element of a repeated area.  [dom] is the invariant of the slice the
    loop is entered with (a length divisible by the element size, say). *)
Class Stream {A : Type} (enc : A -> outcome bytes) (step : bytes -> outcome (A * bytes))
    (wf : A -> Prop) (dom : bytes -> Prop) := {
  stream_nopanic : forall b, dom b -> b <> [] -> step b <> Panic;
  stream_consuming : consuming step;
  stream_dom : forall b a rest, dom b -> step b = Ok (a, rest) -> dom rest;
  stream_rt : forall a e rest, wf a -> enc a = Ok e ->
    bytes_ok e /\ e <> [] /\ step (e ++ rest) = Ok (a, rest);
  stream_fix : forall b a rest, bytes_ok b -> step b = Ok (a, rest) ->
    bytes_ok rest /\ wf a /\ exists e, enc a = Ok e /\ length e + length rest <= length b
}.

(** Any slice. *)
Definition anywhere (b : bytes) : Prop := True.

Section StreamList.
Context {A : Type} {enc : A -> outcome bytes} {step : bytes -> outcome (A * bytes)}
  {wf : A -> Prop} {dom : bytes -> Prop} `{S : !Stream enc step wf dom}.

Lemma loop_nopanic (b : bytes) : dom b -> loop step b <> Panic.
Proof.
  induction b as [b IH] using bytes_ind_length. intros Hd.
  rewrite loop_unfold by apply stream_consuming.
  destruct b as [|x b]; [done|].
  apply bind_Panic; [by apply stream_nopanic|]. intros [a rest] E.
  apply bind_Panic; [|done]. apply IH.
  - eapply stream_consuming; eauto.
  - eapply stream_dom; eauto.
Qed.

Lemma loop_rt (xs : list A) (v : bytes) :
  Forall wf xs -> concatM enc xs = Ok v -> bytes_ok v /\ loop step v = Ok xs.
Proof.
  intros Hwf. revert v. induction Hwf as [|x xs Hx Hxs IH]; intros v Hv.
  - injection Hv as <-. split; [constructor|done].
  - apply bind_Ok in Hv as (e & He & Hv). apply bind_Ok in Hv as (es & Hes & Hv).
    injection Hv as <-.
    destruct (IH es Hes) as [Hok Hl].
    destruct (stream_rt x e es Hx He) as (Hoke & Hne & Hstep).
    split; [by apply bytes_ok_app|].
    rewrite loop_unfold by apply stream_consuming.
    destruct e as [|y e]; [done|]. simpl in *. rewrite Hstep. simpl. rewrite Hl. done.
Qed.

Lemma loop_fix (b : bytes) (xs : list A) :
  bytes_ok b -> loop step b = Ok xs ->
  Forall wf xs /\ exists e, concatM enc xs = Ok e /\ length e <= length b.
Proof.
  revert xs. induction b as [b IH] using bytes_ind_length. intros xs Hb H.
  rewrite loop_unfold in H by apply stream_consuming.
  destruct b as [|x b].
  - injection H as <-. split; [constructor|]. exists []. done.
  - apply bind_Ok in H as ([a rest] & Hstep & H). apply bind_Ok in H as (out & Hout & H).
    injection H as <-.
    destruct (stream_fix _ _ _ Hb Hstep) as (Hrest & Ha & e & He & Hlen).
    pose proof (stream_consuming _ _ _ Hstep) as Hc.
    destruct (IH rest Hc _ Hrest Hout) as (Has & es & Hes & Hles).
    split; [by constructor|]. exists (e ++ es). simpl. rewrite He. simpl. rewrite Hes.
    split; [done|]. rewrite length_app. simpl in *. lia.
Qed.
End StreamList.

(** A repeated area whose elements may start anywhere is itself a value. *)
#[export] Instance stream_value {A enc step wf} `{S : !@Stream A enc step wf anywhere} :
  Value (concatM enc) (loop step) (Forall wf).
Proof.
  split.
  - intros v. by apply loop_nopanic.
  - intros. by apply loop_rt.
  - intros v xs Hb _. by apply loop_fix.
Qed.

(** ** Areas of fixed-size elements

    [if len(value)%k != 0 { return errBadTLV }] in front of the loop. *)
Definition loop_chunks {A} (k : nat) (step : bytes -> outcome (A * bytes)) (v : bytes)
  : outcome (list A) :=
  if negb (length v mod k =? 0) then Err errBadTLV else loop step v.

(** The slice still holds a whole number of elements. *)
Definition whole (k : nat) (b : bytes) : Prop := length b mod k = 0.

Lemma whole_nonempty (k : nat) (b : bytes) : 0 < k -> whole k b -> b <> [] -> k <= length b.
Proof.
  unfold whole. intros Hk Hw Hb. destruct b as [|x b]; [done|].
  destruct (Nat.le_gt_cases k (length (x :: b))); [done|].
  rewrite Nat.mod_small in Hw by done. simpl in Hw. lia.
Qed.

Lemma whole_drop (k : nat) (b : bytes) : 0 < k -> k <= length b -> whole k b -> whole k (drop k b).
Proof.
  unfold whole. intros Hk Hle Hw. rewrite length_drop.
  pose proof (Nat.div_mod_eq (length b) k) as E. rewrite Hw in E.
  replace (length b - k) with ((length b / k - 1) * k); [apply Nat.Div0.mod_mul|].
  assert (1 <= length b / k) by (apply Nat.div_le_lower_bound; lia). nia.
Qed.

Lemma concatM_app {A} (enc : A -> outcome bytes) (xs ys : list A) (v w : bytes) :
  concatM enc xs = Ok v -> concatM enc ys = Ok w -> concatM enc (xs ++ ys) = Ok (v ++ w).
Proof.
  revert v. induction xs as [|x xs IH]; intros v Hv Hw.
  - injection Hv as <-. done.
  - apply bind_Ok in Hv as (e & He & Hv). apply bind_Ok in Hv as (es & Hes & Hv).
    injection Hv as <-. simpl. rewrite He. simpl. rewrite (IH _ Hes Hw). simpl.
    by rewrite app_assoc.
Qed.

Lemma concatM_map {A B} (enc : B -> outcome bytes) (f : A -> B) (xs : list A) :
  concatM enc (map f xs) = concatM (fun x => enc (f x)) xs.
Proof. induction xs as [|x xs IH]; simpl; [done|]. by rewrite IH. Qed.

(** An element of exactly [k] octets. *)
Section Chunk.
Context {A : Type} (k : nat) (enc : A -> outcome bytes) (step : bytes -> outcome (A * bytes))
  (wf : A -> Prop).
Context (k_pos : 0 < k).
Context (step_long : forall b, k <= length b ->
  exists a, step b = Ok (a, drop k b) /\
    (bytes_ok b -> wf a /\ exists e, enc a = Ok e /\ length e = k)).
Context (step_short : forall b x, step b = Ok x -> k <= length b).
Context (step_rt : forall a e rest, wf a -> enc a = Ok e ->
  length e = k /\ bytes_ok e /\ step (e ++ rest) = Ok (a, rest)).

Lemma chunk_stream : Stream enc step wf (whole k).
Proof using k_pos step_long step_short step_rt.
  split.
  - intros b Hw Hne. destruct (step_long b) as (a & -> & _); [|done].
    by apply whole_nonempty.
  - intros b a rest H. pose proof (step_short _ _ H) as Hl.
    destruct (step_long b Hl) as (a' & E & _). rewrite E in H. injection H as -> <-.
    rewrite length_drop. lia.
  - intros b a rest Hw H. pose proof (step_short _ _ H) as Hl.
    destruct (step_long b Hl) as (a' & E & _). rewrite E in H. injection H as -> <-.
    by apply whole_drop.
  - intros a e rest Hwf He. destruct (step_rt a e rest Hwf He) as (Hl & Hb & Hs).
    split; [done|]. split; [|done]. intros ->. simpl in Hl. lia.
  - intros b a rest Hb H. pose proof (step_short _ _ H) as Hl.
    destruct (step_long b Hl) as (a' & E & Hok). rewrite E in H. injection H as -> <-.
    destruct (Hok Hb) as (Hwf & e & He & Hel). split; [by apply bytes_ok_drop|].
    split; [done|]. exists e. split; [done|]. rewrite length_drop. lia.
Qed.

Lemma chunk_value : Value (concatM enc) (loop_chunks k step) (Forall wf).
Proof using k_pos step_long step_short step_rt.
  pose proof chunk_stream as S. split.
  - intros v. unfold loop_chunks. destruct (length v mod k =? 0) eqn:E; [|done]. simpl.
    apply (loop_nopanic (S := S)). unfold whole. lia.
  - intros xs v Hwf Hv. unfold loop_chunks.
    assert (Hl : length v = length xs * k).
    { clear S. revert v Hv. induction Hwf as [|x xs Hx Hxs IH]; intros v Hv.
      - injection Hv as <-. done.
      - apply bind_Ok in Hv as (e & He & Hv). apply bind_Ok in Hv as (es & Hes & Hv).
        injection Hv as <-. destruct (step_rt x e [] Hx He) as [Hl _].
        rewrite length_app, Hl, (IH _ Hes). simpl. lia. }
    rewrite Hl, Nat.Div0.mod_mul. simpl. by apply (loop_rt (S := S)).
  - intros v xs Hb _ H. unfold loop_chunks in H.
    destruct (length v mod k =? 0); [|done]. simpl in H. by apply (loop_fix (S := S)).
Qed.
End Chunk.
