(* ===== verification/Framing.v ===== *)
(** The type-length-value framing shared by the TLV area (tlv.go), the sub-TLV
    areas (subtlv.go) and the sub-sub-TLV areas (tlv_srv6.go, tlv_flexalgo.go):
    [encodeTLV] and [encodeSubTLV] on the way out, one header-and-value step of
    the area loops on the way in. *)

From S2P Require Import Prelude.
From S2P Require Import Codec.
Local Open Scope Z_scope.

(** tlv.go: [encodeTLV] wraps a value in a type+length header. *)
Definition encodeTLV (t : Z) (value : bytes) : outcome bytes :=
  if (255 <? length value)%nat then Err ErrTooLong
  else mret (t :: Z.of_nat (length value) :: value).

(** subtlv.go: [encodeSubTLV], its sub-TLV counterpart. *)
Definition encodeSubTLV (t : Z) (value : bytes) : outcome bytes :=
  if (255 <? length value)%nat then Err ErrTooLong
  else mret (t :: Z.of_nat (length value) :: value).

(** One turn of an area loop: check the header, check the value, return the
    type, the value and what follows. *)
Definition next_frame (b : bytes) : outcome ((Z * bytes) * bytes) :=
  if (length b <? 2)%nat then Err ErrTruncated else
  typ ← idx b 0;
  l ← idx b 1;
  if (length b <? 2 + Z.to_nat l)%nat then Err ErrTruncated else
  value ← slice b 2 (2 + Z.to_nat l);
  rest ← from b (2 + Z.to_nat l);
  mret ((typ, value), rest).

(** The turn with the value handed to a decoder. *)
Definition framed {A} (dec : Z -> bytes -> outcome A) (b : bytes) : outcome (A * bytes) :=
  '((typ, value), rest) ← next_frame b;
  a ← dec typ value;
  mret (a, rest).

(** Its encoder: a type and a value under a header. *)
Definition encode_framed {A} (hdr : A -> outcome (Z * bytes)) (a : A) : outcome bytes :=
  '(t, v) ← hdr a; encodeSubTLV t v.

Lemma encodeTLV_Ok (t : Z) (v e : bytes) :
  encodeTLV t v = Ok e <-> (length v <= 255)%nat /\ e = t :: Z.of_nat (length v) :: v.
Proof.
  unfold encodeTLV. destruct (Nat.ltb_spec 255 (length v)).
  - split; [done|]. intros [? _]. lia.
  - split; [|by intros [_ ->]]. intros [= <-]. split; [lia|done].
Qed.

Lemma encodeSubTLV_Ok (t : Z) (v e : bytes) :
  encodeSubTLV t v = Ok e <-> (length v <= 255)%nat /\ e = t :: Z.of_nat (length v) :: v.
Proof. apply encodeTLV_Ok. Qed.

Lemma next_frame_nopanic (b : bytes) : next_frame b <> Panic.
Proof.
  unfold next_frame. destruct (length b <? 2)%nat eqn:E1; [done|].
  split_bytes 2 b. wire.
  case_match eqn:E2; [done|].
  rewrite slice_Ok, from_Ok by (simpl in *; lia). done.
Qed.

Lemma next_frame_app (t : Z) (v rest : bytes) :
  next_frame (t :: Z.of_nat (length v) :: v ++ rest) = Ok ((t, v), rest).
Proof.
  unfold next_frame. case_match eqn:E; [done|]. wire. rewrite Nat2Z.id.
  case_match eqn:E2; [simpl in E2; rewrite length_app in E2; lia|].
  wire. rewrite slice_app, from_app. done.
Qed.

Lemma next_frame_inv (b : bytes) (t : Z) (v rest : bytes) :
  next_frame b = Ok ((t, v), rest) ->
  exists l, b = t :: l :: v ++ rest /\ Z.to_nat l = length v.
Proof.
  unfold next_frame. intros H. destruct (length b <? 2)%nat eqn:E1; [done|].
  split_bytes 2 b. wire in H.
  case_match eqn:E2; [done|].
  wire in H. rewrite slice_0, from_Ok in H by (simpl in *; lia). injection H as <- <- <-.
  exists z0. rewrite take_drop. split; [done|]. rewrite length_take. simpl in *. lia.
Qed.

Lemma next_frame_consuming (b : bytes) (f : Z * bytes) (rest : bytes) :
  next_frame b = Ok (f, rest) -> (length rest < length b)%nat.
Proof.
  destruct f as [t v]. intros (l & -> & Hl)%next_frame_inv. simpl. rewrite length_app. lia.
Qed.

Lemma framed_nopanic {A} (dec : Z -> bytes -> outcome A) (b : bytes) :
  (forall t v, dec t v <> Panic) -> framed dec b <> Panic.
Proof.
  intros Hd. unfold framed. apply bind_Panic; [apply next_frame_nopanic|].
  intros [[t v] rest] _. apply bind_Panic; [apply Hd|done].
Qed.

Lemma framed_inv {A} (dec : Z -> bytes -> outcome A) (b : bytes) (a : A) (rest : bytes) :
  framed dec b = Ok (a, rest) ->
  exists t l v, b = t :: l :: v ++ rest /\ Z.to_nat l = length v /\ dec t v = Ok a.
Proof.
  intros H. unfold framed in H. apply bind_Ok in H as ([[t v] r] & Hf & H).
  apply bind_Ok in H as (a' & Hd & H). injection H as -> ->.
  destruct (next_frame_inv _ _ _ _ Hf) as (l & -> & Hl). eauto 10.
Qed.

Lemma framed_consuming {A} (dec : Z -> bytes -> outcome A) : consuming (framed dec).
Proof.
  intros b a rest (t & l & v & -> & Hl & _)%framed_inv. simpl. rewrite length_app. lia.
Qed.

(** The octets of a frame. *)
Lemma frame_bytes_ok (t l : Z) (v rest : bytes) :
  bytes_ok (t :: l :: v ++ rest) <->
  byte_ok t /\ byte_ok l /\ bytes_ok v /\ bytes_ok rest.
Proof. unfold bytes_ok. rewrite !Forall_cons, Forall_app. tauto. Qed.

Section Framed.
Context {A : Type} (hdr : A -> outcome (Z * bytes)) (dec : Z -> bytes -> outcome A)
  (wf : A -> Prop).
Context (dec_nopanic : forall t v, dec t v <> Panic).
Context (dec_rt : forall a t v, wf a -> hdr a = Ok (t, v) ->
  byte_ok t /\ bytes_ok v /\ dec t v = Ok a).
Context (dec_fix : forall t v a, byte_ok t -> bytes_ok v -> (length v <= 255)%nat ->
  dec t v = Ok a ->
  wf a /\ exists t' v', hdr a = Ok (t', v') /\ (length v' <= length v)%nat).

(** A framed decoder is a stream codec as soon as the decoder of the values
    has the three laws. *)
Lemma framed_stream : Stream (encode_framed hdr) (framed dec) wf anywhere.
Proof using dec_nopanic dec_rt dec_fix.
  split.
  - intros b _ _. by apply framed_nopanic.
  - apply framed_consuming.
  - done.
  - intros a e rest Hwf He. unfold encode_framed in He.
    apply bind_Ok in He as ([t v] & Hh & He). apply encodeSubTLV_Ok in He as [Hlen ->].
    destruct (dec_rt a t v Hwf Hh) as (Ht & Hv & Hd).
    split_and!; [|done|].
    + apply Forall_cons. split; [done|]. apply Forall_cons. split; [|done].
      unfold byte_ok. lia.
    + unfold framed. simpl app. rewrite next_frame_app. simpl. rewrite Hd. done.
  - intros b a rest Hb (t & l & v & -> & Hl & Hd)%framed_inv.
    apply frame_bytes_ok in Hb as (Ht & Hlb & Hv & Hr).
    assert (Hmax : (length v <= 255)%nat) by (unfold byte_ok in Hlb; lia).
    destruct (dec_fix t v a Ht Hv Hmax Hd) as (Hwf & t' & v' & Hh & Hle).
    split_and!; [done..|]. exists (t' :: Z.of_nat (length v') :: v').
    split.
    + unfold encode_framed. rewrite Hh. simpl. apply encodeSubTLV_Ok.
      split; [|done]. unfold byte_ok in Hlb. lia.
    + simpl. rewrite length_app. lia.
Qed.
End Framed.
