(* ===== verification/Netip.v ===== *)
(** net/netip, the standard-library address and prefix types pkg/packet and
    pkg/server use: [Addr], [Prefix] and the operations the source calls.
    Zones are not modelled (nothing decoded or configured here has one). *)

From S2P Require Import Prelude.
Local Open Scope Z_scope.

(** The zero [Addr], an IPv4 address, an IPv6 address (octets in network
    order). *)
Inductive Addr : Set :=
  | AddrZero
  | Addr4 (b : list Z)
  | Addr6 (b : list Z).

#[export] Instance Addr_eq_dec : EqDecision Addr.
Proof. solve_decision. Defined.

Definition IsValid (a : Addr) : bool := match a with AddrZero => false | _ => true end.
Definition Is4 (a : Addr) : bool := match a with Addr4 _ => true | _ => false end.
Definition Is6 (a : Addr) : bool := match a with Addr6 _ => true | _ => false end.
Definition BitLen (a : Addr) : Z :=
  match a with AddrZero => 0 | Addr4 _ => 32 | Addr6 _ => 128 end.

(** The ::ffff:0:0/96 prefix of an IPv4-mapped IPv6 address. *)
Definition v4in6 : bytes := [0; 0; 0; 0; 0; 0; 0; 0; 0; 0; 255; 255].
Definition Is4In6 (a : Addr) : bool :=
  match a with Addr6 b => bool_decide (take 12 b = v4in6) | _ => false end.

Definition As4 (a : Addr) : outcome bytes :=
  match a with
  | Addr4 b => Ok b
  | Addr6 b => if Is4In6 a then Ok (drop 12 b) else Panic
  | AddrZero => Panic
  end.

Definition As16 (a : Addr) : bytes :=
  match a with
  | AddrZero => replicate 16 0
  | Addr4 b => v4in6 ++ b
  | Addr6 b => b
  end.

Definition addr_ok (a : Addr) : Prop :=
  match a with AddrZero => True | Addr4 b => arr 4 b | Addr6 b => arr 16 b end.

(** fe80::/10 and 169.254.0.0/16. *)
Definition IsLinkLocalUnicast (a : Addr) : bool :=
  match a with
  | AddrZero => false
  | Addr4 b => bool_decide (take 2 b = [169; 254])
  | Addr6 b =>
      if Is4In6 a then bool_decide (take 2 (drop 12 b) = [169; 254])
      else match b with x :: y :: _ => (x =? 254) && (Z.land y 192 =? 128) | _ => false end
  end.

Record Prefix : Set := mkPrefix { p_addr : Addr; p_bits : Z }.

#[export] Instance Prefix_eq_dec : EqDecision Prefix.
Proof. solve_decision. Defined.

#[export] Instance Addr_countable : Countable Addr.
Proof.
  refine (inj_countable'
    (fun a => match a with AddrZero => (0, []) | Addr4 b => (1, b) | Addr6 b => (2, b) end)
    (fun '(k, b) => if k =? 0 then AddrZero else if k =? 1 then Addr4 b else Addr6 b) _).
  by intros [].
Defined.

#[export] Instance Prefix_countable : Countable Prefix.
Proof.
  refine (inj_countable' (fun p => (p_addr p, p_bits p)) (fun '(a, n) => mkPrefix a n) _).
  by intros [].
Defined.

(** [PrefixFrom] does not mask; a length out of range yields [Bits() = -1]. *)
Definition PrefixFrom (a : Addr) (bits : Z) : Prefix :=
  mkPrefix a (if IsValid a && (0 <=? bits) && (bits <=? BitLen a) then bits else -1).

(** One octet with all but its first [n] bits cleared. *)
Definition mask_octet (n : Z) (x : Z) : Z :=
  if n <=? 0 then 0 else if 8 <=? n then x else Z.shiftl (Z.shiftr x (8 - n)) (8 - n).

Fixpoint mask_bytes (n : Z) (b : bytes) : bytes :=
  match b with [] => [] | x :: b' => mask_octet n x :: mask_bytes (n - 8) b' end.

Definition mask_addr (n : Z) (a : Addr) : Addr :=
  match a with
  | AddrZero => AddrZero
  | Addr4 b => Addr4 (mask_bytes n b)
  | Addr6 b => Addr6 (mask_bytes n b)
  end.

Definition Masked (p : Prefix) : Prefix :=
  if (p_bits p <? 0) || (BitLen (p_addr p) <? p_bits p) || negb (IsValid (p_addr p))
  then mkPrefix AddrZero (-1)
  else mkPrefix (mask_addr (p_bits p) (p_addr p)) (p_bits p).

Definition PrefixIsValid (p : Prefix) : bool := 0 <=? p_bits p.

Definition addr_bytes (a : Addr) : bytes :=
  match a with AddrZero => [] | Addr4 b => b | Addr6 b => b end.

Definition Contains (p : Prefix) (a : Addr) : bool :=
  PrefixIsValid p && negb (BitLen (p_addr p) =? 0) && (BitLen (p_addr p) =? BitLen a) &&
  bool_decide (mask_bytes (p_bits p) (addr_bytes (p_addr p)) =
               mask_bytes (p_bits p) (addr_bytes a)).

(** The classes of addresses [IsGlobalUnicast] leaves out; an IPv4-mapped address
    is judged as the IPv4 address it carries. *)
Definition Unmap (a : Addr) : Addr :=
  match a with Addr6 b => if Is4In6 a then Addr4 (drop 12 b) else a | _ => a end.

Definition IsLoopback (a : Addr) : bool :=
  match Unmap a with
  | Addr4 b => nth 0 b 0 =? 127
  | Addr6 b => bool_decide (b = replicate 15 0 ++ [1])
  | AddrZero => false
  end.

Definition IsMulticast (a : Addr) : bool :=
  match Unmap a with
  | Addr4 b => Z.land (nth 0 b 0) 240 =? 224
  | Addr6 b => nth 0 b 0 =? 255
  | AddrZero => false
  end.

Definition IsGlobalUnicast (a : Addr) : bool :=
  match a with
  | AddrZero => false
  | Addr4 b => negb (bool_decide (b = [0; 0; 0; 0]) || bool_decide (b = [255; 255; 255; 255])) &&
      negb (IsLoopback a) && negb (IsMulticast a) && negb (IsLinkLocalUnicast a)
  | Addr6 b => negb (bool_decide (b = replicate 16 0)) &&
      negb (IsLoopback a) && negb (IsMulticast a) && negb (IsLinkLocalUnicast a)
  end.

(** [Addr.Compare]: by family, then by value. *)
Definition Addr_Compare (a b : Addr) : comparison :=
  match BitLen a ?= BitLen b with Eq => bytes_compare (addr_bytes a) (addr_bytes b) | c => c end.

(** [Prefix.Compare]: by the masked address, the length, the address. *)
Definition Prefix_Compare (p q : Prefix) : comparison :=
  match Addr_Compare (p_addr (Masked p)) (p_addr (Masked q)) with
  | Eq => match p_bits p ?= p_bits q with Eq => Addr_Compare (p_addr p) (p_addr q) | c => c end
  | c => c
  end.

(** ** Masking *)

Lemma length_mask_bytes (n : Z) (b : bytes) : length (mask_bytes n b) = length b.
Proof. revert n. induction b as [|x b IH]; intros n; simpl; [done|]. by rewrite IH. Qed.

Lemma mask_octet_ok (n x : Z) : byte_ok x -> byte_ok (mask_octet n x).
Proof.
  unfold byte_ok, mask_octet. intros H. destruct (Z.leb_spec n 0); [lia|].
  destruct (Z.leb_spec 8 n); [lia|].
  rewrite Z.shiftl_mul_pow2, Z.shiftr_div_pow2 by lia.
  assert (HP : 0 < 2 ^ (8 - n)) by (apply Z.pow_pos_nonneg; lia).
  pose proof (Z.div_mod x (2 ^ (8 - n)) ltac:(lia)).
  pose proof (Z.mod_pos_bound x (2 ^ (8 - n)) HP).
  pose proof (Z.div_pos x (2 ^ (8 - n)) ltac:(lia) HP). nia.
Qed.

Lemma mask_octet_min (n m x : Z) : mask_octet n (mask_octet m x) = mask_octet (Z.min n m) x.
Proof.
  assert (Hz : forall k, mask_octet k 0 = 0).
  { intros k. unfold mask_octet. rewrite Z.shiftr_0_l, Z.shiftl_0_l. by repeat case_match. }
  destruct (Z.leb_spec m 0) as [Hm|Hm].
  { assert (Hmin : forall k, k <= 0 -> mask_octet k x = 0).
    { intros k Hk. unfold mask_octet. rewrite (proj2 (Z.leb_le k 0)) by lia. done. }
    rewrite (Hmin m), (Hmin (Z.min n m)), Hz by lia. done. }
  unfold mask_octet. rewrite (proj2 (Z.leb_gt m 0)) by lia.
  destruct (Z.min_spec n m) as [[Hlt ->]|[Hle ->]];
    destruct (Z.leb_spec n 0), (Z.leb_spec 8 n), (Z.leb_spec 8 m); try lia; try done;
    rewrite ?(proj2 (Z.leb_gt m 0)) by lia; try done.
  all: apply Z.bits_inj'; intros i Hi; rewrite !Z.shiftl_spec by lia.
  all: destruct (Z.ltb_spec i (8 - n)); [rewrite !(Z.testbit_neg_r _ (i - (8 - n))) by lia|].
  all: rewrite ?Z.shiftr_spec, ?Z.shiftl_spec by lia.
  all: try (destruct (Z.ltb_spec i (8 - m)); [rewrite !Z.testbit_neg_r by lia; done|]).
  all: rewrite ?Z.shiftr_spec by lia; try done; try (f_equal; lia); try lia.
Qed.

Lemma mask_bytes_min (n m : Z) (b : bytes) :
  mask_bytes n (mask_bytes m b) = mask_bytes (Z.min n m) b.
Proof.
  revert n m. induction b as [|x b IH]; intros n m; simpl; [done|].
  rewrite mask_octet_min, IH. do 2 f_equal. lia.
Qed.

Lemma mask_bytes_idem (n : Z) (b : bytes) : mask_bytes n (mask_bytes n b) = mask_bytes n b.
Proof. rewrite mask_bytes_min. f_equal. lia. Qed.

Lemma mask_bytes_ok (n : Z) (b : bytes) : bytes_ok b -> bytes_ok (mask_bytes n b).
Proof.
  intros H. revert n. induction H as [|x b Hx Hb IH]; intros n; simpl; constructor;
    [by apply mask_octet_ok|apply IH].
Qed.

Lemma mask_bytes_nonpos (n : Z) (b : bytes) : n <= 0 -> mask_bytes n b = replicate (length b) 0.
Proof.
  revert n. induction b as [|x b IH]; intros n H; simpl; [done|].
  rewrite IH by lia. unfold mask_octet. rewrite (proj2 (Z.leb_le n 0)) by lia. done.
Qed.

Lemma Masked_idem (p : Prefix) : Masked (Masked p) = Masked p.
Proof.
  destruct p as [a n]. unfold Masked at 2 3. simpl.
  destruct (_ || _ || _) eqn:E; [done|].
  unfold Masked. simpl. destruct a as [|b|b]; simpl in *; rewrite ?E; try done;
    rewrite mask_bytes_idem; done.
Qed.

(** Only a whole octet can be kept at 255. *)
Lemma mask_octet_255 (n x : Z) : mask_octet n x = 255 -> 8 <= n.
Proof.
  unfold mask_octet. destruct (Z.leb_spec n 0), (Z.leb_spec 8 n); try lia. intros E.
  assert (Hb : Z.testbit (Z.shiftl (Z.shiftr x (8 - n)) (8 - n)) 0 = true) by (rewrite E; done).
  rewrite Z.shiftl_spec_low in Hb by lia. done.
Qed.

Lemma mask_bytes_take (k : nat) (n : Z) (b : bytes) : 8 * Z.of_nat k <= n -> take k (mask_bytes n b) = take k b.
Proof.
  revert n b. induction k as [|k IH]; intros n [|x b] Hn; cbn [take mask_bytes]; [done..|]. rewrite IH by lia.
  unfold mask_octet. rewrite (proj2 (Z.leb_gt n 0)), (proj2 (Z.leb_le 8 n)) by lia. done.
Qed.

Lemma mask_bytes_nth (k : nat) (n : Z) (b : bytes) : mask_bytes n b !! k = mask_octet (n - 8 * Z.of_nat k) <$> b !! k.
Proof.
  revert n b. induction k as [|k IH]; intros n [|x b]; try done.
  - cbn. do 2 f_equal. lia.
  - cbn [mask_bytes]. rewrite !lookup_cons_ne_0 by done. cbn [Nat.pred]. rewrite IH. do 2 f_equal. lia.
Qed.

(** Masking makes no address IPv4-mapped. *)
Lemma Masked_4in6 (p : Prefix) : Is4In6 (p_addr (Masked p)) = true -> Is4In6 (p_addr p) = true.
Proof.
  destruct p as [a n]. unfold Masked. cbn [p_addr p_bits]. destruct (_ || _ || _); [done|]. destruct a as [|b|b]; try done.
  cbn [mask_addr p_addr Is4In6]. rewrite !bool_decide_eq_true. intros E.
  assert (E11 : take 12 (mask_bytes n b) !! 11%nat = Some 255) by (rewrite E; done).
  apply lookup_take_Some in E11 as [E11 _]. rewrite mask_bytes_nth in E11. apply fmap_Some in E11 as (x & _ & Hx). symmetry in Hx.
  apply mask_octet_255 in Hx.
  rewrite <- E. symmetry. apply mask_bytes_take. lia.
Qed.
