(* ===== verification/Ids.v ===== *)
(** pkg/packet/packet.go: PDU type codes, levels, circuit types, and the
    identifiers (System ID, node ID, LSP ID) with their accessors. *)

From S2P Require Import Prelude.
Local Open Scope Z_scope.

Definition ReceiveLSPBufferSize : nat := 1492.
Definition idrpDiscriminator : Z := 131. (* 0x83 *)
Definition protocolVersion : Z := 1.
Definition systemIDLen : nat := 6.
Definition commonHeaderLen : nat := 8.

(** [type PDUType uint8] *)
Definition PDUTypeL1LANHello : Z := 15.
Definition PDUTypeL2LANHello : Z := 16.
Definition PDUTypeP2PHello : Z := 17.
Definition PDUTypeL1LSP : Z := 18.
Definition PDUTypeL2LSP : Z := 20.
Definition PDUTypeL1CSNP : Z := 24.
Definition PDUTypeL2CSNP : Z := 25.
Definition PDUTypeL1PSNP : Z := 26.
Definition PDUTypeL2PSNP : Z := 27.

(** [type Level uint8]; only the two named values occur. *)
Inductive Level : Set := Level1 | Level2.

#[export] Instance Level_eq_dec : EqDecision Level.
Proof. solve_decision. Defined.

#[export] Instance Level_countable : Countable Level.
Proof.
  refine (inj_countable' (fun l => match l with Level1 => true | Level2 => false end)
    (fun b => if (b : bool) then Level1 else Level2) _). by intros [].
Defined.

(** [type CircuitType uint8] *)
Definition CircuitTypeLevel1 : Z := 1.
Definition CircuitTypeLevel2 : Z := 2.
Definition CircuitTypeLevel12 : Z := 3.

(** [type SystemID [6]byte], [type NodeID [7]byte], [type LSPID [8]byte],
    [type SNPA [6]byte]. *)
Abbreviation SystemID := bytes.
Abbreviation NodeID := bytes.
Abbreviation LSPID := bytes.
Abbreviation SNPA := bytes.

Definition NodeID_SystemID (n : NodeID) : SystemID := take 6 n.
Definition NodeID_PseudonodeID (n : NodeID) : Z := nth 6 n 0.
Definition LSPID_NodeID (l : LSPID) : NodeID := take 7 l.
Definition LSPID_FragmentID (l : LSPID) : Z := nth 7 l 0.
Definition IsNodeLSP (l : LSPID) : bool := NodeID_PseudonodeID (LSPID_NodeID l) =? 0.

(** dis.go: [nodeID]; origination.go: [lspID] and [lspIDFrag]. *)
Definition nodeID (id : SystemID) (pseudonode : Z) : NodeID := take 6 id ++ [pseudonode].
Definition lspIDFrag (id : SystemID) (pseudonode fragment : Z) : LSPID :=
  nodeID id pseudonode ++ [fragment].
Definition lspID (id : SystemID) (pseudonode : Z) : LSPID := lspIDFrag id pseudonode 0.

Lemma nodeID_SystemID (id : SystemID) (pn : Z) :
  length id = 6%nat -> NodeID_SystemID (nodeID id pn) = id.
Proof.
  intros H. unfold NodeID_SystemID, nodeID. rewrite <- H, firstn_all. apply take_app_length.
Qed.

Lemma nodeID_PseudonodeID (id : SystemID) (pn : Z) :
  length id = 6%nat -> NodeID_PseudonodeID (nodeID id pn) = pn.
Proof. intros H. unfold NodeID_PseudonodeID, nodeID. split_bytes 6 id. done. Qed.

Lemma nodeID_arr (id : SystemID) (pn : Z) : arr 6 id -> byte_ok pn -> arr 7 (nodeID id pn).
Proof.
  intros [Hl Hb] Hp. unfold nodeID. split.
  - rewrite length_app, length_take. change (length [pn]) with 1%nat. lia.
  - apply bytes_ok_app. split; [by apply bytes_ok_take|by constructor].
Qed.

(** Every PDU type the codec names is a 5-bit code. *)
Lemma lspID_NodeID (id : SystemID) (pn fr : Z) :
  length id = 6%nat -> LSPID_NodeID (lspIDFrag id pn fr) = nodeID id pn.
Proof. intros H. unfold LSPID_NodeID, lspIDFrag, nodeID. split_bytes 6 id. destruct id; done. Qed.
