(* ===== verification/Sid.v ===== *)
(** pkg/packet/tlv_srv6.go and tlv_srv6_endx.go: the sub-sub-TLV area every
    SRv6 SID sub-TLV shares, the End SID, and the body the End.X and LAN End.X
    SIDs share, with the laws of their codecs. *)

From S2P Require Import Prelude.
From S2P Require Import Codec.
From S2P Require Import Framing.
From S2P Require Import Netip.
Local Open Scope Z_scope.

Definition subTLVSRv6EndSID : Z := 5.
Definition subSubTLVSIDStruct : Z := 1.
Definition srv6EndSIDFixedLen : nat := 20.
Definition sidStructureLen : Z := 4.
Definition srv6EndXSIDFixedLen : nat := 22.

(** subtlv.go: [UnknownSubTLV]. *)
Record UnknownSubTLV : Set := mkUnknown {
  SubTLVType : Z;
  UnknownValue : list Z;
  Refused : bool
}.

#[export] Instance UnknownSubTLV_eq_dec : EqDecision UnknownSubTLV.
Proof. solve_decision. Defined.

Definition UnknownSubTLV_Serialize (u : UnknownSubTLV) : outcome bytes :=
  encodeSubTLV (SubTLVType u) (UnknownValue u).

Record SIDStructure : Set := mkSIDStructure {
  LocatorBlock : Z; LocatorNode : Z; Function_ : Z; Argument : Z
}.

#[export] Instance SIDStructure_eq_dec : EqDecision SIDStructure.
Proof. solve_decision. Defined.

Definition encodeSIDSubSubTLVs (st : option SIDStructure) (unknown : list UnknownSubTLV)
  : outcome bytes :=
  let sub :=
    match st with
    | Some st => [subSubTLVSIDStruct; sidStructureLen;
                  LocatorBlock st; LocatorNode st; Function_ st; Argument st]
    | None => []
    end in
  rest ← concatM UnknownSubTLV_Serialize unknown;
  mret (sub ++ rest).

(** One decoded sub-sub-TLV: the first well-sized SID Structure is taken,
    everything else is preserved opaquely. *)
Definition sid_step (acc : option SIDStructure * list UnknownSubTLV) (f : Z * bytes)
  : option SIDStructure * list UnknownSubTLV :=
  let '(st, unknown) := acc in
  let '(t, v) := f in
  match st, v with
  | None, [a; b; c; d] =>
      if t =? subSubTLVSIDStruct then (Some (mkSIDStructure a b c d), unknown)
      else (st, unknown ++ [mkUnknown t v false])
  | _, _ => (st, unknown ++ [mkUnknown t v false])
  end.

Arguments sid_step : simpl never.

Definition decodeSIDSubSubTLVs (sub : bytes) : outcome (option SIDStructure * list UnknownSubTLV) :=
  frames ← loop (framed (fun t v => mret (t, v))) sub;
  mret (fold_left sid_step frames (None, [])).

(** [SRv6EndpointBehavior] is a uint16. *)
Record SRv6EndSID : Set := mkSRv6EndSID {
  EndSID_Flags : Z;
  EndSID_Behavior : Z;
  EndSID_SID : Addr;
  EndSID_Structure : option SIDStructure;
  EndSID_Unknown : list UnknownSubTLV
}.

Definition SRv6EndSID_encode (e : SRv6EndSID) : outcome bytes :=
  sub ← encodeSIDSubSubTLVs (EndSID_Structure e) (EndSID_Unknown e);
  if (255 - srv6EndSIDFixedLen <? length sub)%nat then Err ErrTooLong else
  mret ([EndSID_Flags e; u8 (Z.shiftr (EndSID_Behavior e) 8); u8 (EndSID_Behavior e)]
        ++ As16 (EndSID_SID e) ++ [Z.of_nat (length sub)] ++ sub).

Definition decodeEndSID (v : bytes) : outcome SRv6EndSID :=
  if (length v <? srv6EndSIDFixedLen)%nat then Err ErrTruncated else
  flags ← idx v 0;
  b1 ← idx v 1;
  b2 ← idx v 2;
  s ← slice v 3 19;
  sid ← array 16 s;
  subLen ← idx v 19;
  if (length v <? srv6EndSIDFixedLen + Z.to_nat subLen)%nat then Err ErrTruncated else
  sub ← slice v srv6EndSIDFixedLen (srv6EndSIDFixedLen + Z.to_nat subLen);
  '(st, unknown) ← decodeSIDSubSubTLVs sub;
  mret (mkSRv6EndSID flags (join16 b1 b2) (Addr6 sid) st unknown).

(** The fields the End.X and LAN End.X sub-TLVs share. *)
Record SRv6EndXSIDSubTLV : Set := mkEndX {
  EndX_Flags : Z;
  EndX_Algorithm : Z;
  EndX_Weight : Z;
  EndX_Behavior : Z;
  EndX_SID : Addr;
  EndX_Structure : option SIDStructure;
  EndX_Unknown : list UnknownSubTLV
}.

Definition EndX_body (s : SRv6EndXSIDSubTLV) : outcome bytes :=
  sub ← encodeSIDSubSubTLVs (EndX_Structure s) (EndX_Unknown s);
  if (255 - srv6EndXSIDFixedLen <? length sub)%nat then Err ErrTooLong else
  mret ([EndX_Flags s; EndX_Algorithm s; EndX_Weight s;
         u8 (Z.shiftr (EndX_Behavior s) 8); u8 (EndX_Behavior s)]
        ++ As16 (EndX_SID s) ++ [Z.of_nat (length sub)] ++ sub).

Definition decodeEndXSIDBody (v : bytes) : outcome SRv6EndXSIDSubTLV :=
  if (length v <? srv6EndXSIDFixedLen)%nat then Err ErrTruncated else
  flags ← idx v 0;
  algorithm ← idx v 1;
  weight ← idx v 2;
  b3 ← idx v 3;
  b4 ← idx v 4;
  s ← slice v 5 21;
  sid ← array 16 s;
  subLen ← idx v 21;
  if (length v <? srv6EndXSIDFixedLen + Z.to_nat subLen)%nat then Err ErrTruncated else
  sub ← slice v srv6EndXSIDFixedLen (srv6EndXSIDFixedLen + Z.to_nat subLen);
  '(st, unknown) ← decodeSIDSubSubTLVs sub;
  mret (mkEndX flags algorithm weight (join16 b3 b4) (Addr6 sid) st unknown).

(** ** Raw frames *)

Definition raw_frame (f : Z * bytes) : outcome (Z * bytes) := mret f.
Definition frame_ok (f : Z * bytes) : Prop := byte_ok f.1 /\ bytes_ok f.2.
Definition frames_len (fs : list (Z * bytes)) : nat :=
  list_sum (map (fun f => 2 + length f.2)%nat fs).

Lemma frames_len_cons (f : Z * bytes) (fs : list (Z * bytes)) :
  frames_len (f :: fs) = (2 + length f.2 + frames_len fs)%nat.
Proof. reflexivity. Qed.

Lemma frames_len_app (fs gs : list (Z * bytes)) :
  frames_len (fs ++ gs) = (frames_len fs + frames_len gs)%nat.
Proof. unfold frames_len. by rewrite map_app, list_sum_app. Qed.

#[export] Instance raw_frames :
  Stream (encode_framed raw_frame) (framed (fun t v => mret (t, v))) frame_ok anywhere.
Proof.
  apply framed_stream.
  - done.
  - intros f t v [Ht Hv] [= ->]. done.
  - intros t v f Ht Hv _ [= <-]. split; [done|]. exists t, v. done.
Qed.

Lemma encode_raw (t : Z) (v : bytes) : encode_framed raw_frame (t, v) = encodeSubTLV t v.
Proof. reflexivity. Qed.

(** Frames encode exactly when every value fits its length octet. *)
Lemma frames_encode (fs : list (Z * bytes)) :
  Forall (fun f => (length f.2 <= 255)%nat) fs ->
  exists e, concatM (encode_framed raw_frame) fs = Ok e /\ length e = frames_len fs.
Proof.
  induction 1 as [|[t v] fs Hv Hfs (e & He & Hl)]; [by exists []|].
  exists ((t :: Z.of_nat (length v) :: v) ++ e). simpl concatM. simpl in Hv.
  rewrite encode_raw, (proj2 (encodeSubTLV_Ok t v _) (conj Hv eq_refl)). simpl. rewrite He. simpl.
  split; [done|]. rewrite length_app, frames_len_cons. simpl. lia.
Qed.

Lemma frames_encode_inv (fs : list (Z * bytes)) (e : bytes) :
  concatM (encode_framed raw_frame) fs = Ok e ->
  Forall (fun f => (length f.2 <= 255)%nat) fs /\ length e = frames_len fs.
Proof.
  revert e. induction fs as [|[t v] fs IH]; intros e He.
  - injection He as <-. done.
  - simpl in He. rewrite encode_raw in He.
    apply bind_Ok in He as (e1 & [Hv ->]%encodeSubTLV_Ok & He).
    apply bind_Ok in He as (e2 & He2 & He). injection He as <-.
    destruct (IH _ He2) as [Hf Hl]. split; [by constructor|].
    rewrite frames_len_cons, <- Hl. simpl. rewrite length_app. lia.
Qed.

(** ** The sub-sub-TLV area *)

(** The frames an area is written as. *)
Definition struct_frames (st : option SIDStructure) : list (Z * bytes) :=
  match st with
  | Some s => [(subSubTLVSIDStruct, [LocatorBlock s; LocatorNode s; Function_ s; Argument s])]
  | None => []
  end.
Definition unknown_frame (u : UnknownSubTLV) : Z * bytes := (SubTLVType u, UnknownValue u).
Definition sid_frames (st : option SIDStructure) (unknown : list UnknownSubTLV) :=
  struct_frames st ++ map unknown_frame unknown.

Lemma concatM_unknown (us : list UnknownSubTLV) :
  concatM UnknownSubTLV_Serialize us = concatM (encode_framed raw_frame) (map unknown_frame us).
Proof. induction us as [|u us IH]; [done|]. simpl. rewrite IH. done. Qed.

Lemma encodeSID_frames (st : option SIDStructure) (us : list UnknownSubTLV) :
  encodeSIDSubSubTLVs st us = concatM (encode_framed raw_frame) (sid_frames st us).
Proof.
  unfold encodeSIDSubSubTLVs, sid_frames. rewrite concatM_unknown.
  destruct st; simpl; [done|]. by destruct (concatM _ _).
Qed.

Definition structure_ok (s : SIDStructure) : Prop :=
  byte_ok (LocatorBlock s) /\ byte_ok (LocatorNode s) /\ byte_ok (Function_ s) /\
  byte_ok (Argument s).

(** A sub-sub-TLV that would itself be read as a SID Structure. *)
Definition is_structure (f : Z * bytes) : bool :=
  (f.1 =? subSubTLVSIDStruct) && (length f.2 =? 4)%nat.

(** Canonical form: a preserved sub-sub-TLV is not refused (only decodeSubTLVs
    refuses), and one that reads as a SID Structure only ever follows one. *)
Definition unknown_raw_ok (u : UnknownSubTLV) : Prop :=
  byte_ok (SubTLVType u) /\ bytes_ok (UnknownValue u) /\ Refused u = false.

Definition subsub_ok (st : option SIDStructure) (us : list UnknownSubTLV) : Prop :=
  match st with Some s => structure_ok s | None => True end /\
  Forall unknown_raw_ok us /\
  (st = None -> Forall (fun u => is_structure (unknown_frame u) = false) us).

Lemma sid_step_some (s : SIDStructure) (us : list UnknownSubTLV) (f : Z * bytes) :
  sid_step (Some s, us) f = (Some s, us ++ [mkUnknown f.1 f.2 false]).
Proof. by destruct f. Qed.

Lemma sid_step_none (us : list UnknownSubTLV) (f : Z * bytes) :
  is_structure f = false -> sid_step (None, us) f = (None, us ++ [mkUnknown f.1 f.2 false]).
Proof.
  destruct f as [t v]. unfold is_structure, sid_step. simpl. intros H.
  destruct v as [|a [|b [|c [|d [|? ?]]]]]; try done. simpl in H.
  destruct (t =? _); done.
Qed.

Lemma fold_unknown (st : option SIDStructure) (us acc : list UnknownSubTLV) :
  Forall unknown_raw_ok us ->
  (st = None -> Forall (fun u => is_structure (unknown_frame u) = false) us) ->
  fold_left sid_step (map unknown_frame us) (st, acc) = (st, acc ++ us).
Proof.
  intros Hok. revert acc. induction Hok as [|u us Hu Hus IH]; intros acc Hn; simpl.
  - by rewrite app_nil_r.
  - assert (Hstep : sid_step (st, acc) (unknown_frame u) = (st, acc ++ [u])).
    { destruct Hu as (_ & _ & Hr). destruct u as [t v r]. simpl in *. subst r.
      destruct st; [done|]. apply (sid_step_none acc (t, v)).
      specialize (Hn eq_refl). by apply Forall_inv in Hn. }
    rewrite Hstep, IH.
    + by rewrite <- app_assoc.
    + intros E. specialize (Hn E). by apply Forall_inv_tail in Hn.
Qed.

Lemma fold_sid_frames (st : option SIDStructure) (us : list UnknownSubTLV) :
  subsub_ok st us -> fold_left sid_step (sid_frames st us) (None, []) = (st, us).
Proof.
  intros (Hst & Hus & Hn). unfold sid_frames. rewrite fold_left_app.
  assert (Hone : fold_left sid_step (struct_frames st) (None, []) = (st, [])).
  { by destruct st as [[]|]. }
  by rewrite Hone, fold_unknown.
Qed.

(** Folding any frames keeps their octets and reaches a canonical area. *)
Lemma fold_sid_step (fs : list (Z * bytes)) (st st' : option SIDStructure)
    (us us' : list UnknownSubTLV) :
  Forall frame_ok fs -> Forall (fun f => (length f.2 <= 255)%nat) fs ->
  subsub_ok st us -> Forall (fun u => (length (UnknownValue u) <= 255)%nat) us ->
  fold_left sid_step fs (st, us) = (st', us') ->
  subsub_ok st' us' /\ Forall (fun u => (length (UnknownValue u) <= 255)%nat) us' /\
  frames_len (sid_frames st' us') = (frames_len (sid_frames st us) + frames_len fs)%nat.
Proof.
  intros Hf. revert st us. induction Hf as [|f fs Hfo Hfs IH]; intros st us Hlen Hok Hul H.
  { injection H as <- <-. split_and!; [done..|]. change (frames_len []) with 0%nat. lia. }
  apply Forall_cons in Hlen as [Hlf Hlen]. simpl in H.
  destruct (sid_step (st, us) f) as [st1 us1] eqn:Hs.
  assert (Hone : subsub_ok st1 us1 /\ Forall (fun u => (length (UnknownValue u) <= 255)%nat) us1 /\
    frames_len (sid_frames st1 us1) = (frames_len (sid_frames st us) + (2 + length f.2))%nat).
  { destruct f as [t v]. destruct Hfo as [Ht Hv]. simpl in *.
    destruct Hok as (Hst & Hus & Hn).
    assert (Hpush : (st = None -> is_structure (t, v) = false) ->
      subsub_ok st (us ++ [mkUnknown t v false]) /\
      Forall (fun u => (length (UnknownValue u) <= 255)%nat) (us ++ [mkUnknown t v false]) /\
      frames_len (sid_frames st (us ++ [mkUnknown t v false])) =
        (frames_len (sid_frames st us) + (2 + length v))%nat).
    { intros Hns. split; [|split].
      - split; [done|split]; [apply Forall_app; split; [done|by apply Forall_singleton]|].
        intros E. apply Forall_app; split; [by apply Hn|]. apply Forall_singleton. by apply Hns.
      - apply Forall_app. split; [done|]. by apply Forall_singleton.
      - unfold sid_frames. rewrite map_app, !frames_len_app. simpl map.
        rewrite frames_len_cons. change (frames_len []) with 0%nat. simpl. lia. }
    destruct st as [s|].
    { rewrite sid_step_some in Hs. injection Hs as <- <-. by apply Hpush. }
    destruct (is_structure (t, v)) eqn:Ei.
    - unfold is_structure in Ei. simpl in Ei.
      destruct v as [|a [|b [|c [|d [|? ?]]]]]; simpl in Ei; try lia.
      destruct (t =? subSubTLVSIDStruct) eqn:Et; [|done].
      unfold sid_step in Hs. rewrite Et in Hs. injection Hs as <- <-.
      unfold bytes_ok in Hv. rewrite !Forall_cons in Hv.
      split; [|split; [done|]]; [by (split; [unfold structure_ok; simpl; tauto|done])|].
      unfold sid_frames. simpl. rewrite frames_len_cons. simpl. lia.
    - pose proof (sid_step_none us (t, v) Ei) as E. simpl in E. rewrite E in Hs.
      injection Hs as <- <-. by apply Hpush. }
  destruct Hone as (Hok1 & Hul1 & Hl1).
  destruct (IH st1 us1 Hlen Hok1 Hul1 H) as (Hok' & Hul' & Hl').
  split_and!; [done..|]. rewrite Hl', Hl1, frames_len_cons. lia.
Qed.

#[export] Instance subsub_value :
  Value (fun '(st, us) => encodeSIDSubSubTLVs st us) decodeSIDSubSubTLVs
    (fun '(st, us) => subsub_ok st us).
Proof.
  split.
  - intros v. apply bind_Panic; [by apply loop_nopanic|done].
  - intros [st us] v Hok He. rewrite encodeSID_frames in He.
    assert (Hf : Forall frame_ok (sid_frames st us)).
    { destruct Hok as (Hst & Hus & _). apply Forall_app. split.
      - destruct st as [[a b c d]|]; [|constructor]. destruct Hst as (? & ? & ? & ?).
        apply Forall_singleton. split; [done|]. simpl. unfold bytes_ok. by rewrite !Forall_cons.
      - apply Forall_map. eapply Forall_impl; [exact Hus|]. intros u (? & ? & _). done. }
    destruct (loop_rt _ _ Hf He) as [Hb Hl]. split; [done|].
    unfold decodeSIDSubSubTLVs. rewrite Hl. simpl. f_equal. by apply fold_sid_frames.
  - intros v [st us] Hb _ H. apply bind_Ok in H as (fs & Hl & H). injection H as H.
    destruct (loop_fix _ _ Hb Hl) as (Hf & e & He & Hle).
    destruct (frames_encode_inv _ _ He) as [Hlen Hel].
    destruct (fold_sid_step fs None st [] us Hf Hlen) as (Hok & Hul & Hlen'); [done|done|done|].
    split; [done|].
    destruct (frames_encode (sid_frames st us)) as (e' & He' & Hel').
    { apply Forall_app. split.
      - destruct st as [[]|]; [apply Forall_singleton; simpl; lia|constructor].
      - apply Forall_map. done. }
    exists e'. rewrite encodeSID_frames. split; [done|].
    change (frames_len (sid_frames None [])) with 0%nat in Hlen'. lia.
Qed.

(** ** The End SID *)

Definition v6_ok (a : Addr) : Prop := exists b, a = Addr6 b /\ arr 16 b.

Definition EndSID_ok (e : SRv6EndSID) : Prop :=
  byte_ok (EndSID_Flags e) /\ u16_ok (EndSID_Behavior e) /\ v6_ok (EndSID_SID e) /\
  subsub_ok (EndSID_Structure e) (EndSID_Unknown e).

(** The octets of a sub-sub-TLV area behind its length octet. *)
Lemma sub_area (n : nat) (b sub : bytes) :
  drop n b = sub -> length b = (n + length sub)%nat ->
  (length b <? n + Z.to_nat (Z.of_nat (length sub)))%nat = false /\
  slice b n (n + Z.to_nat (Z.of_nat (length sub))) = Ok sub.
Proof.
  intros Hd Hl. rewrite Nat2Z.id. split; [lia|]. rewrite slice_Ok by lia. f_equal.
  rewrite Hd. apply firstn_all2. lia.
Qed.

#[export] Instance EndSID_value : Value SRv6EndSID_encode decodeEndSID EndSID_ok.
Proof.
  split.
  - intros v. unfold decodeEndSID. case_match eqn:E; [done|].
    split_bytes 20 v. wire. rewrite slice_0 by (simpl; lia).
    cbn [mbind outcome_bind array length Nat.leb take]. case_match eqn:E2; [done|].
    unfold srv6EndSIDFixedLen in *. rewrite slice_Ok by (simpl in *; lia).
    cbn [mbind outcome_bind].
    apply bind_Panic; [apply (value_nopanic (Value := subsub_value))|by intros []].
  - intros [fl bh sid st us] v (Hfl & Hbh & (b & E0 & Hlb & Hb) & Hsub) He. simpl in *. subst sid.
    unfold SRv6EndSID_encode in He. simpl in He.
    apply bind_Ok in He as (sub & Hs & He). case_match eqn:E; [done|]. injection He as <-.
    destruct (value_rt (Value := subsub_value) (st, us) sub Hsub Hs) as [Hsb Hd].
    unfold srv6EndSIDFixedLen in E.
    split.
    { octets. }
    split_bytes 16 b. destruct b; [|done].
    unfold decodeEndSID. case_match eqn:E2; [done|]. wire. cbn [app]. wire.
    rewrite slice_0 by (simpl; lia). cbn [mbind outcome_bind array length Nat.leb take]. wire.
    unfold srv6EndSIDFixedLen. cbn [mbind outcome_bind].
    edestruct sub_area as [Hg Hsl]; [| |rewrite Hsl; cbn [length] in Hg; rewrite Hg];
      [reflexivity..|].
    simpl. rewrite Hd, join16_put by done. done.
  - intros v e Hb Hmax H. unfold decodeEndSID in H. case_match eqn:E; [done|].
    split_bytes 20 v. wire in H. rewrite slice_0 in H by (simpl; lia).
    cbn [mbind outcome_bind array length Nat.leb take] in H. wire in H.
    unfold srv6EndSIDFixedLen in *. case_match eqn:E2; [done|].
    apply bind_Ok in H as (sub & [Hl Es]%slice_inv & H).
    apply bind_Ok in H as ([st us] & Hd & H). injection H as <-.
    octets_in. cbn [length drop] in *.
    assert (Hsl : (length sub <= length v)%nat) by (subst sub; rewrite length_take; lia).
    destruct (value_fix (Value := subsub_value) sub (st, us)) as (Hok & e & He & Hle);
      [subst sub; by apply bytes_ok_take|lia|done|].
    split.
    { split; [tauto|]. split; [by apply join16_ok|]. split; [|done].
      eexists. split; [done|]. split; [done|]. octets. }
    unfold SRv6EndSID_encode, srv6EndSIDFixedLen. simpl. rewrite He. simpl. case_match; [lia|].
    eexists. split; [done|]. simpl. lia.
Qed.

(** ** The End.X body *)

Definition EndX_ok (s : SRv6EndXSIDSubTLV) : Prop :=
  byte_ok (EndX_Flags s) /\ byte_ok (EndX_Algorithm s) /\ byte_ok (EndX_Weight s) /\
  u16_ok (EndX_Behavior s) /\ v6_ok (EndX_SID s) /\
  subsub_ok (EndX_Structure s) (EndX_Unknown s).

#[export] Instance EndX_value : Value EndX_body decodeEndXSIDBody EndX_ok.
Proof.
  split.
  - intros v. unfold decodeEndXSIDBody. case_match eqn:E; [done|].
    split_bytes 22 v. wire. rewrite slice_0 by (simpl; lia).
    cbn [mbind outcome_bind array length Nat.leb take]. case_match eqn:E2; [done|].
    unfold srv6EndXSIDFixedLen in *. rewrite slice_Ok by (simpl in *; lia).
    cbn [mbind outcome_bind].
    apply bind_Panic; [apply (value_nopanic (Value := subsub_value))|by intros []].
  - intros [fl al wt bh sid st us] v (Hfl & Hal & Hwt & Hbh & (b & E0 & Hlb & Hb) & Hsub) He.
    simpl in *. subst sid.
    unfold EndX_body in He. simpl in He.
    apply bind_Ok in He as (sub & Hs & He). case_match eqn:E; [done|]. injection He as <-.
    destruct (value_rt (Value := subsub_value) (st, us) sub Hsub Hs) as [Hsb Hd].
    unfold srv6EndXSIDFixedLen in E.
    split.
    { octets. }
    split_bytes 16 b. destruct b; [|done].
    unfold decodeEndXSIDBody. case_match eqn:E2; [done|]. wire. cbn [app]. wire.
    rewrite slice_0 by (simpl; lia). cbn [mbind outcome_bind array length Nat.leb take]. wire.
    unfold srv6EndXSIDFixedLen. cbn [mbind outcome_bind].
    edestruct sub_area as [Hg Hsl]; [| |rewrite Hsl; cbn [length] in Hg; rewrite Hg];
      [reflexivity..|].
    simpl. rewrite Hd, join16_put by done. done.
  - intros v e Hb Hmax H. unfold decodeEndXSIDBody in H. case_match eqn:E; [done|].
    split_bytes 22 v. wire in H. rewrite slice_0 in H by (simpl; lia).
    cbn [mbind outcome_bind array length Nat.leb take] in H. wire in H.
    unfold srv6EndXSIDFixedLen in *. case_match eqn:E2; [done|].
    apply bind_Ok in H as (sub & [Hl Es]%slice_inv & H).
    apply bind_Ok in H as ([st us] & Hd & H). injection H as <-.
    octets_in. cbn [length drop] in *.
    assert (Hsl : (length sub <= length v)%nat) by (subst sub; rewrite length_take; lia).
    destruct (value_fix (Value := subsub_value) sub (st, us)) as (Hok & e & He & Hle);
      [subst sub; by apply bytes_ok_take|lia|done|].
    split.
    { do 3 (split; [tauto|]). split; [by apply join16_ok|]. split; [|done].
      eexists. split; [done|]. split; [done|]. octets. }
    unfold EndX_body, srv6EndXSIDFixedLen. simpl. rewrite He. simpl. case_match; [lia|].
    eexists. split; [done|]. simpl. lia.
Qed.
