(* ===== verification/SubTLV.v ===== *)
(** pkg/packet/subtlv.go, tlv_asla.go, tlv_flexalgo.go, tlv_srv6_endx.go and the
    sub-TLV of tlv_router_capability.go: the sub-TLV values, the per-context
    registries, and the area codec whose decoders may refuse a value without
    failing the area. *)

From S2P Require Import Prelude.
From S2P Require Import Codec.
From S2P Require Import Framing.
From S2P Require Import Netip.
From S2P Require Import Ids.
From S2P Require Import Sid.
Local Open Scope Z_scope.

(** [type SubTLVContext uint8] *)
Inductive SubTLVContext : Set :=
  | SubTLVContextISReachability
  | SubTLVContextIPReachability
  | SubTLVContextRouterCapability
  | SubTLVContextASLA.

#[export] Instance SubTLVContext_eq_dec : EqDecision SubTLVContext.
Proof. solve_decision. Defined.

Definition subTLVAdminGroup : Z := 3.
Definition subTLVExtendedAdminGroup : Z := 14.
Definition subTLVASLA : Z := 16.
Definition subTLVSRAlgorithm : Z := 19.
Definition subTLVSRv6Capabilities : Z := 25.
Definition subTLVFlexAlgoDef : Z := 26.
Definition subTLVSRv6EndXSID : Z := 43.
Definition subTLVSRv6LANEndXSID : Z := 44.

Definition aslaMaxMaskLen : nat := 8.
Definition aslaLegacyFlag : Z := 128. (* 0x80 *)
Definition aslaMaskLenMask : Z := 127. (* 0x7f *)
Definition ASLAAppFlexAlgo : Z := 16. (* 0x10 *)
Definition flexAlgoDefFixedLen : nat := 4.

Record FlexAlgoSubSubTLV : Set := mkFlexAlgoSubSub {
  SubSubTLVType : Z;
  SubSubValue : list Z
}.

Record FlexAlgoDefinition : Set := mkFAD {
  FAD_FlexAlgo : Z;
  FAD_MetricType : Z;
  FAD_CalcType : Z;
  FAD_Priority : Z;
  FAD_SubSubTLVs : list FlexAlgoSubSubTLV
}.

(** The types that implement the [SubTLV] interface. *)
#[warnings="-register-all"]
Inductive SubTLV : Set :=
  | SubUnknown (u : UnknownSubTLV)
  | SubEndX (s : SRv6EndXSIDSubTLV)
  | SubLANEndX (Neighbor : list Z) (s : SRv6EndXSIDSubTLV)
  | SubASLA (Legacy : bool) (SABM UDABM : list Z) (SubSubTLVs : list SubTLV)
  | SubAdminGroup (Extended : bool) (Groups : list Z)
  | SubSRAlgorithm (Algorithms : list Z)
  | SubFlexAlgoDef (f : FlexAlgoDefinition)
  | SubSRv6Capabilities (Flags : Z) (SubSub : list Z).

(** ** Encoding *)

Definition SubTLV_Type (s : SubTLV) : Z :=
  match s with
  | SubUnknown u => SubTLVType u
  | SubEndX _ => subTLVSRv6EndXSID
  | SubLANEndX _ _ => subTLVSRv6LANEndXSID
  | SubASLA _ _ _ _ => subTLVASLA
  | SubAdminGroup ext _ => if ext then subTLVExtendedAdminGroup else subTLVAdminGroup
  | SubSRAlgorithm _ => subTLVSRAlgorithm
  | SubFlexAlgoDef _ => subTLVFlexAlgoDef
  | SubSRv6Capabilities _ _ => subTLVSRv6Capabilities
  end.

(** [ASLASubTLV.Serialize] up to the header, the attributes rendered by
    [serializeSubTLVs]. *)
Definition ASLA_value (legacy : bool) (sabm udabm : bytes) (attrs : outcome bytes) : outcome bytes :=
  if (aslaMaxMaskLen <? length sabm)%nat || (aslaMaxMaskLen <? length udabm)%nat
  then Err ErrTooLong else
  attrs ← attrs;
  let first := Z.lor (Z.of_nat (length sabm)) (flag_if legacy aslaLegacyFlag) in
  mret ([first; Z.of_nat (length udabm)] ++ sabm ++ udabm ++ attrs).

(** [AdminGroupSubTLV.Serialize] up to the header. *)
Definition AdminGroup_value (ext : bool) (groups : list Z) : outcome bytes :=
  if negb ext && negb (length groups =? 1)%nat then Err errBadTLV
  else mret (flat_map put32 groups).

(** One sub-sub-TLV of [FlexAlgoDefinitionSubTLV.Serialize]. *)
Definition FADSubSub_encode (ss : FlexAlgoSubSubTLV) : outcome bytes :=
  if (255 <? length (SubSubValue ss))%nat then Err ErrTooLong
  else mret (SubSubTLVType ss :: Z.of_nat (length (SubSubValue ss)) :: SubSubValue ss).

Definition FAD_value (f : FlexAlgoDefinition) : outcome bytes :=
  ss ← concatM FADSubSub_encode (FAD_SubSubTLVs f);
  mret ([FAD_FlexAlgo f; FAD_MetricType f; FAD_CalcType f; FAD_Priority f] ++ ss).

(** The value each [Serialize] hands to [encodeSubTLV]; [serializeSubTLVs] of
    the attributes of an ASLA is the nested [concatM]. *)
Fixpoint SubTLV_value (s : SubTLV) : outcome bytes :=
  match s with
  | SubUnknown u => mret (UnknownValue u)
  | SubEndX s => EndX_body s
  | SubLANEndX neighbor s => body ← EndX_body s; mret (neighbor ++ body)
  | SubASLA legacy sabm udabm subs =>
      ASLA_value legacy sabm udabm
        (concatM (fun s => v ← SubTLV_value s; encodeSubTLV (SubTLV_Type s) v) subs)
  | SubAdminGroup ext groups => AdminGroup_value ext groups
  | SubSRAlgorithm algs => mret algs
  | SubFlexAlgoDef f => FAD_value f
  | SubSRv6Capabilities fl sub => mret ([u8 (Z.shiftr fl 8); u8 fl] ++ sub)
  end.

Definition SubTLV_Serialize (s : SubTLV) : outcome bytes :=
  v ← SubTLV_value s; encodeSubTLV (SubTLV_Type s) v.

Definition serializeSubTLVs (subs : list SubTLV) : outcome bytes := concatM SubTLV_Serialize subs.

(** ** Decoding *)

Definition subTLVDecoder : Type := bytes -> outcome SubTLV.

Definition decodeAdminGroup : subTLVDecoder := fun value =>
  if negb (length value =? 4)%nat then Err errBadTLV
  else w ← be32 value; mret (SubAdminGroup false [w]).

(** One 4-octet unit of the loop of [decodeExtendedAdminGroup]. *)
Definition admin_unit (b : bytes) : outcome (Z * bytes) :=
  u ← slice b 0 4; w ← be32 u; rest ← from b 4; mret (w, rest).

Definition decodeExtendedAdminGroup : subTLVDecoder := fun value =>
  groups ← loop_chunks 4 admin_unit value; mret (SubAdminGroup true groups).

Definition decodeSRAlgorithm : subTLVDecoder := fun value => mret (SubSRAlgorithm value).

Definition decodeFlexAlgoDefinition : subTLVDecoder := fun value =>
  if (length value <? flexAlgoDefFixedLen)%nat then Err ErrTruncated else
  a ← idx value 0; m ← idx value 1; c ← idx value 2; p ← idx value 3;
  rest ← from value flexAlgoDefFixedLen;
  ss ← loop (framed (fun t v => mret (mkFlexAlgoSubSub t v))) rest;
  mret (SubFlexAlgoDef (mkFAD a m c p ss)).

Definition decodeSRv6Capabilities : subTLVDecoder := fun value =>
  if (length value <? 2)%nat then Err ErrTruncated else
  a ← idx value 0; b ← idx value 1;
  sub ← from value 2;
  mret (SubSRv6Capabilities (join16 a b) sub).

Definition decodeEndXSID : subTLVDecoder := fun v =>
  s ← decodeEndXSIDBody v; mret (SubEndX s).

Definition decodeLANEndXSID : subTLVDecoder := fun v =>
  if (length v <? systemIDLen)%nat then Err ErrTruncated else
  body ← from v systemIDLen;
  s ← decodeEndXSIDBody body;
  n ← slice v 0 systemIDLen;
  n ← array systemIDLen n;
  mret (SubLANEndX n s).

(** [map[uint8]subTLVDecoder]: one row of [subTLVDecoders]. *)
Definition registry : Type := Z -> option subTLVDecoder.

(** [decodeSubTLV] with the row of its context: a registered decoder that
    refuses the value leaves the opaque form, marked [Refused]. *)
Definition decodeSubTLV_in (reg : registry) (typ : Z) (value : bytes) : outcome SubTLV :=
  match reg typ with
  | Some dec =>
      match dec value with
      | Ok sub => Ok sub
      | Err _ => mret (SubUnknown (mkUnknown typ value true))
      | Panic => Panic
      end
  | None => mret (SubUnknown (mkUnknown typ value false))
  end.

Definition decodeSubTLVs_in (reg : registry) (b : bytes) : outcome (list SubTLV) :=
  loop (framed (decodeSubTLV_in reg)) b.

(** The row of [SubTLVContextASLA]. *)
Definition aslaDecoders : registry := fun t =>
  if t =? subTLVAdminGroup then Some decodeAdminGroup
  else if t =? subTLVExtendedAdminGroup then Some decodeExtendedAdminGroup
  else None.

Definition decodeASLA : subTLVDecoder := fun value =>
  if (length value <? 2)%nat then Err ErrTruncated else
  first ← idx value 0;
  second ← idx value 1;
  let sabmLen := Z.to_nat (Z.land first aslaMaskLenMask) in
  let udabmLen := Z.to_nat (Z.land second aslaMaskLenMask) in
  if (aslaMaxMaskLen <? sabmLen)%nat || (aslaMaxMaskLen <? udabmLen)%nat then Err ErrTooLong else
  if (length value <? 2 + sabmLen + udabmLen)%nat then Err ErrTruncated else
  rest ← from value (2 + sabmLen + udabmLen);
  attrs ← decodeSubTLVs_in aslaDecoders rest;
  sabm ← slice value 2 (2 + sabmLen);
  udabm ← slice value (2 + sabmLen) (2 + sabmLen + udabmLen);
  mret (SubASLA (flag first aslaLegacyFlag) sabm udabm attrs).

(** [subTLVDecoders] as the init functions leave it. *)
Definition subTLVDecoders (ctx : SubTLVContext) : registry :=
  match ctx with
  | SubTLVContextISReachability => fun t =>
      if t =? subTLVASLA then Some decodeASLA
      else if t =? subTLVAdminGroup then Some decodeAdminGroup
      else if t =? subTLVExtendedAdminGroup then Some decodeExtendedAdminGroup
      else if t =? subTLVSRv6EndXSID then Some decodeEndXSID
      else if t =? subTLVSRv6LANEndXSID then Some decodeLANEndXSID
      else None
  | SubTLVContextIPReachability => fun _ => None
  | SubTLVContextRouterCapability => fun t =>
      if t =? subTLVSRAlgorithm then Some decodeSRAlgorithm
      else if t =? subTLVFlexAlgoDef then Some decodeFlexAlgoDefinition
      else if t =? subTLVSRv6Capabilities then Some decodeSRv6Capabilities
      else None
  | SubTLVContextASLA => aslaDecoders
  end.

Definition decodeSubTLV (ctx : SubTLVContext) (typ : Z) (value : bytes) : outcome SubTLV :=
  decodeSubTLV_in (subTLVDecoders ctx) typ value.

Definition decodeSubTLVs (ctx : SubTLVContext) (b : bytes) : outcome (list SubTLV) :=
  decodeSubTLVs_in (subTLVDecoders ctx) b.

(** ** Application-specific link attributes *)

(** [ASLASubTLV.Apps] and [AnyApp]. *)
Definition ASLA_Apps (sabm : bytes) (app : Z) : bool :=
  match sabm with x :: _ => flag x app | [] => false end.
Definition ASLA_AnyApp (sabm udabm : bytes) : bool :=
  (length sabm =? 0)%nat && (length udabm =? 0)%nat.

(** ** Refused sub-TLVs *)

(** The first element [f] finds something in. *)
Definition first_found {A B} (f : A -> option B) : list A -> option B :=
  fix go xs := match xs with [] => None | x :: r => match f x with Some y => Some y | None => go r end end.

Fixpoint refused_in (s : SubTLV) : option UnknownSubTLV :=
  match s with
  | SubUnknown u => if Refused u then Some u else None
  | SubASLA _ _ _ subs => first_found refused_in subs
  | _ => None
  end.

Definition refusedInSubTLVs (subs : list SubTLV) : option UnknownSubTLV := first_found refused_in subs.

(** ** Value codecs of the registered types *)

Lemma concatM_pure {A} (f : A -> bytes) (xs : list A) :
  concatM (fun x => Ok (f x)) xs = Ok (flat_map f xs).
Proof. induction xs as [|x xs IH]; simpl; [done|]. rewrite IH. done. Qed.

Lemma admin_units_chunks :
  Value (concatM (fun w => Ok (put32 w))) (loop_chunks 4 admin_unit) (Forall u32_ok).
Proof.
  apply chunk_value; [lia|..].
  - intros b Hl. split_bytes 4 b. eexists. split; [reflexivity|]. intros Hb. octets_in.
    split; [octets|]. by eexists.
  - intros b x H. apply bind_Ok in H as (u & [Hl _]%slice_inv & _). lia.
  - intros w e rest Hw [= <-]. split; [done|]. split; [octets|].
    unfold admin_unit. simpl. by rewrite join32_put.
Qed.

#[export] Instance admin_units_value :
  Value (fun ws => Ok (flat_map put32 ws)) (loop_chunks 4 admin_unit) (Forall u32_ok).
Proof.
  destruct admin_units_chunks as [N R F]. split; [done|..].
  - intros ws v Hw Hv. apply R; [done|]. by rewrite concatM_pure.
  - intros v ws Hb Hl H. destruct (F v ws Hb Hl H) as (Hw & e & He & Hle).
    rewrite concatM_pure in He. eauto.
Qed.

Definition fad_frame_ok (ss : FlexAlgoSubSubTLV) : Prop :=
  byte_ok (SubSubTLVType ss) /\ bytes_ok (SubSubValue ss).

#[export] Instance fad_frames :
  Stream FADSubSub_encode (framed (fun t v => mret (mkFlexAlgoSubSub t v))) fad_frame_ok anywhere.
Proof.
  change FADSubSub_encode with (encode_framed (fun ss => mret (SubSubTLVType ss, SubSubValue ss))).
  apply framed_stream.
  - done.
  - intros [t v] t' v' [Ht Hv] [= <- <-]. done.
  - intros t v a Ht Hv _ [= <-]. split; [done|]. exists t, v. done.
Qed.

Definition FAD_ok (f : FlexAlgoDefinition) : Prop :=
  byte_ok (FAD_FlexAlgo f) /\ byte_ok (FAD_MetricType f) /\ byte_ok (FAD_CalcType f) /\
  byte_ok (FAD_Priority f) /\ Forall fad_frame_ok (FAD_SubSubTLVs f).

(** ** Canonical sub-TLVs

    What a decoder can return, and what therefore survives a re-encode. *)

Definition leaf_ok (s : SubTLV) : Prop :=
  match s with
  | SubUnknown _ | SubASLA _ _ _ _ => False
  | SubEndX s => EndX_ok s
  | SubLANEndX n s => arr 6 n /\ EndX_ok s
  | SubAdminGroup _ groups => Forall u32_ok groups
  | SubSRAlgorithm algs => bytes_ok algs
  | SubFlexAlgoDef f => FAD_ok f
  | SubSRv6Capabilities fl sub => u16_ok fl /\ bytes_ok sub
  end.

Definition is_unknown (s : SubTLV) : bool :=
  match s with SubUnknown _ => true | _ => false end.

(** An opaque sub-TLV is one the registry has no decoder for, or one its
    decoder refuses, and is marked accordingly. *)
Definition unknown_ok (reg : registry) (u : UnknownSubTLV) : Prop :=
  byte_ok (SubTLVType u) /\ bytes_ok (UnknownValue u) /\
  match reg (SubTLVType u) with
  | Some dec => is_ok (dec (UnknownValue u)) = false /\ Refused u = true
  | None => Refused u = false
  end.

Definition entry_ok (reg : registry) (typed_ok : SubTLV -> Prop) (s : SubTLV) : Prop :=
  match s with
  | SubUnknown u => unknown_ok reg u
  | _ => typed_ok s /\ is_Some (reg (SubTLV_Type s))
  end.

Definition typed_ok (s : SubTLV) : Prop :=
  match s with
  | SubASLA _ sabm udabm subs =>
      bytes_ok sabm /\ bytes_ok udabm /\ Forall (entry_ok aslaDecoders leaf_ok) subs
  | _ => leaf_ok s
  end.

Definition sub_ok (ctx : SubTLVContext) : SubTLV -> Prop := entry_ok (subTLVDecoders ctx) typed_ok.

(** ** The area codec over any registry *)

(** A registered decoder: it reads back the values of its type and accepts
    nothing it cannot re-encode. *)
Record decoder_laws (body_ok : SubTLV -> Prop) (t : Z) (dec : subTLVDecoder) : Prop := {
  dl_type : byte_ok t;
  dl_nopanic : forall v, dec v <> Panic;
  dl_rt : forall s v, body_ok s -> SubTLV_Type s = t -> is_unknown s = false ->
    SubTLV_value s = Ok v -> bytes_ok v /\ dec v = Ok s;
  dl_fix : forall v s, bytes_ok v -> (length v <= 255)%nat -> dec v = Ok s ->
    body_ok s /\ SubTLV_Type s = t /\ is_unknown s = false /\
    exists v', SubTLV_value s = Ok v' /\ (length v' <= length v)%nat
}.

Definition SubTLV_hdr (s : SubTLV) : outcome (Z * bytes) :=
  v ← SubTLV_value s; mret (SubTLV_Type s, v).

Lemma SubTLV_Serialize_framed (s : SubTLV) : SubTLV_Serialize s = encode_framed SubTLV_hdr s.
Proof. unfold SubTLV_Serialize, encode_framed, SubTLV_hdr. by destruct (SubTLV_value s). Qed.

Section Registry.
Context (reg : registry) (body_ok : SubTLV -> Prop).
Context (laws : forall t dec, reg t = Some dec -> decoder_laws body_ok t dec).

Lemma decodeSubTLV_in_nopanic (t : Z) (v : bytes) : decodeSubTLV_in reg t v <> Panic.
Proof using laws.
  unfold decodeSubTLV_in. destruct (reg t) as [dec|] eqn:E; [|done].
  pose proof (dl_nopanic _ _ _ (laws t dec E) v). by destruct (dec v).
Qed.

Lemma decodeSubTLV_in_rt (s : SubTLV) (t : Z) (v : bytes) :
  entry_ok reg body_ok s -> SubTLV_hdr s = Ok (t, v) ->
  byte_ok t /\ bytes_ok v /\ decodeSubTLV_in reg t v = Ok s.
Proof using laws.
  intros Hok Hh. apply bind_Ok in Hh as (v' & Hv & [= <- <-]).
  destruct (is_unknown s) eqn:Eu.
  - destruct s; try done. destruct Hok as (Ht & Hb & Hr). injection Hv as <-.
    destruct u as [t v r]. simpl in *. unfold decodeSubTLV_in.
    destruct (reg t) as [dec|] eqn:E; simpl in *; [|by subst].
    destruct Hr as [Hr ->]. pose proof (dl_nopanic _ _ _ (laws t dec E) v).
    by destruct (dec v).
  - assert (body_ok s /\ is_Some (reg (SubTLV_Type s))) as [Hbody [dec E]] by by destruct s.
    destruct (laws _ _ E) as [Hty _ Hrt _]. destruct (Hrt s v' Hbody eq_refl Eu Hv) as [Hb Hd].
    unfold decodeSubTLV_in. rewrite E, Hd. done.
Qed.

Lemma decodeSubTLV_in_fix (t : Z) (v : bytes) (s : SubTLV) :
  byte_ok t -> bytes_ok v -> (length v <= 255)%nat -> decodeSubTLV_in reg t v = Ok s ->
  entry_ok reg body_ok s /\
  exists t' v', SubTLV_hdr s = Ok (t', v') /\ (length v' <= length v)%nat.
Proof using laws.
  intros Ht Hb Hl H. unfold decodeSubTLV_in in H. destruct (reg t) as [dec|] eqn:E.
  - destruct (dec v) as [s'|e|] eqn:Ed; [|injection H as <-|done].
    + injection H as ->.
      destruct (dl_fix _ _ _ (laws t dec E) v s Hb Hl Ed) as (Hbody & Hty & Hu & v' & Hv & Hle).
      split.
      * subst t. destruct s; try done; (split; [done|by exists dec]).
      * exists t, v'. unfold SubTLV_hdr. rewrite Hv, <- Hty. done.
    + split; [|by exists t, v]. split; [done|]. split; [done|]. simpl. rewrite E, Ed. done.
  - injection H as <-. split; [|by exists t, v]. split; [done|]. split; [done|]. simpl. by rewrite E.
Qed.

Lemma registry_stream :
  Stream SubTLV_Serialize (framed (decodeSubTLV_in reg)) (entry_ok reg body_ok) anywhere.
Proof using laws.
  destruct (framed_stream SubTLV_hdr (decodeSubTLV_in reg) (entry_ok reg body_ok)
    decodeSubTLV_in_nopanic decodeSubTLV_in_rt decodeSubTLV_in_fix) as [P C D R F].
  split; [done..| |].
  - intros s e rest Hok He. rewrite SubTLV_Serialize_framed in He. by apply R.
  - intros b s rest Hb H. destruct (F b s rest Hb H) as (Hr & Hok & e & He & Hle).
    split; [done|]. split; [done|]. exists e. by rewrite SubTLV_Serialize_framed.
Qed.
End Registry.

(** ** The registered decoders *)

Lemma decodeAdminGroup_laws : decoder_laws leaf_ok subTLVAdminGroup decodeAdminGroup.
Proof.
  split; [done|..].
  - intros v. unfold decodeAdminGroup. case_match eqn:E; [done|]. split_bytes 4 v. done.
  - intros s v Hok Ht Hu Hv. destruct s as [|?|? ?|? ? ? ?|[] gs|?|?|? ?]; try done.
    simpl in Hv. unfold AdminGroup_value in Hv. simpl in Hv. case_match eqn:E; [done|].
    injection Hv as <-. destruct gs as [|w [|? ?]]; try done. apply Forall_inv in Hok. simpl.
    split; [octets|]. unfold decodeAdminGroup. simpl. by rewrite join32_put.
  - intros v s Hb _ H. unfold decodeAdminGroup in H. case_match eqn:E; [done|]. split_bytes 4 v.
    destruct v; [|done]. simpl in H. injection H as <-. octets_in.
    split; [apply Forall_singleton; octets|]. do 2 (split; [done|]). eexists. split; [done|]. done.
Qed.

Lemma decodeExtendedAdminGroup_laws :
  decoder_laws leaf_ok subTLVExtendedAdminGroup decodeExtendedAdminGroup.
Proof.
  split; [done|..].
  - intros v. unfold decodeExtendedAdminGroup. apply bind_Panic; [|done].
    apply (value_nopanic (Value := admin_units_value)).
  - intros s v Hok Ht Hu Hv. destruct s as [|?|? ?|? ? ? ?|[] gs|?|?|? ?]; try done.
    destruct (value_rt (Value := admin_units_value) gs v Hok Hv) as [Hb Hd]. split; [done|].
    unfold decodeExtendedAdminGroup. by rewrite Hd.
  - intros v s Hb Hl H. apply bind_Ok in H as (gs & Hd & H). injection H as <-.
    destruct (value_fix (Value := admin_units_value) v gs Hb Hl Hd) as (Hok & e & He & Hle).
    split; [done|]. do 2 (split; [done|]). by exists e.
Qed.

Lemma aslaDecoders_laws (t : Z) (dec : subTLVDecoder) :
  aslaDecoders t = Some dec -> decoder_laws leaf_ok t dec.
Proof.
  unfold aslaDecoders. intros H.
  destruct (Z.eqb_spec t subTLVAdminGroup) as [->|_].
  { injection H as <-. apply decodeAdminGroup_laws. }
  destruct (Z.eqb_spec t subTLVExtendedAdminGroup) as [->|_]; [|done].
  injection H as <-. apply decodeExtendedAdminGroup_laws.
Qed.

#[export] Instance asla_stream :
  Stream SubTLV_Serialize (framed (decodeSubTLV_in aslaDecoders)) (entry_ok aslaDecoders leaf_ok)
    anywhere := registry_stream _ _ aslaDecoders_laws.

(** Laws of a decoder carry over to a larger notion of well-formed value that
    agrees on the type. *)
Lemma decoder_laws_typed (t : Z) (dec : subTLVDecoder) :
  t <> subTLVASLA -> decoder_laws leaf_ok t dec -> decoder_laws typed_ok t dec.
Proof.
  intros Ht [Hty Hn Hr Hf]. split; [done|done| |].
  - intros s v Hok Hst. apply Hr; [|done]. by destruct s.
  - intros v s Hb Hl H. destruct (Hf v s Hb Hl H) as (Hok & Hrest).
    split; [|done]. by destruct s.
Qed.

Lemma decodeSRAlgorithm_laws : decoder_laws leaf_ok subTLVSRAlgorithm decodeSRAlgorithm.
Proof.
  split; [done|done|..].
  - intros s v Hok Ht Hu Hv. destruct s as [|?|? ?|? ? ? ?|[] gs|?|?|? ?]; try done.
    injection Hv as <-. done.
  - intros v s Hb Hl [= <-]. split; [done|]. do 2 (split; [done|]). by exists v.
Qed.

Lemma decodeFlexAlgoDefinition_laws :
  decoder_laws leaf_ok subTLVFlexAlgoDef decodeFlexAlgoDefinition.
Proof.
  split; [done|..].
  - intros v. unfold decodeFlexAlgoDefinition, flexAlgoDefFixedLen. case_match eqn:E; [done|]. split_bytes 4 v. wire.
    apply bind_Panic; [by apply loop_nopanic|done].
  - intros s v Hok Ht Hu Hv. destruct s as [|?|? ?|? ? ? ?|[] gs|?|[a m c p ss]|? ?]; try done.
    destruct Hok as (Ha & Hm & Hc & Hp & Hss). simpl in *.
    apply bind_Ok in Hv as (e & He & [= <-]). simpl in He.
    destruct (loop_rt ss e Hss He) as [Hb Hd]. split; [octets|].
    unfold decodeFlexAlgoDefinition. simpl. rewrite drop_0, Hd. done.
  - intros v s Hb Hl H. unfold decodeFlexAlgoDefinition, flexAlgoDefFixedLen in H. case_match eqn:E; [done|].
    split_bytes 4 v. wire in H. apply bind_Ok in H as (ss & Hd & [= <-]). octets_in.
    destruct (loop_fix v ss) as (Hok & e & He & Hle); [done..|].
    split; [done|]. do 2 (split; [done|]). simpl. unfold FAD_value. simpl. rewrite He.
    eexists. split; [done|]. simpl. lia.
Qed.

Lemma decodeSRv6Capabilities_laws :
  decoder_laws leaf_ok subTLVSRv6Capabilities decodeSRv6Capabilities.
Proof.
  split; [done|..].
  - intros v. unfold decodeSRv6Capabilities. case_match eqn:E; [done|]. split_bytes 2 v. done.
  - intros s v Hok Ht Hu Hv. destruct s as [|?|? ?|? ? ? ?|[] gs|?|?|fl sub]; try done.
    destruct Hok as [Hfl Hsub]. injection Hv as <-. split; [octets|].
    unfold decodeSRv6Capabilities. simpl. by rewrite drop_0, join16_put.
  - intros v s Hb Hl H. unfold decodeSRv6Capabilities in H. case_match eqn:E; [done|].
    split_bytes 2 v. wire in H. injection H as <-. octets_in.
    split; [split; [octets|done]|]. do 2 (split; [done|]). eexists. split; [done|]. done.
Qed.

Lemma decodeEndXSID_laws : decoder_laws leaf_ok subTLVSRv6EndXSID decodeEndXSID.
Proof.
  split; [done|..].
  - intros v. apply bind_Panic; [apply (value_nopanic (Value := EndX_value))|done].
  - intros s v Hok Ht Hu Hv. destruct s as [|s|? ?|? ? ? ?|[] gs|?|?|? ?]; try done.
    destruct (value_rt (Value := EndX_value) s v Hok Hv) as [Hb Hd]. split; [done|].
    unfold decodeEndXSID. by rewrite Hd.
  - intros v s Hb Hl H. apply bind_Ok in H as (x & Hd & [= <-]).
    destruct (value_fix (Value := EndX_value) v x Hb Hl Hd) as (Hok & e & He & Hle).
    split; [done|]. do 2 (split; [done|]). by exists e.
Qed.

Lemma decodeLANEndXSID_laws : decoder_laws leaf_ok subTLVSRv6LANEndXSID decodeLANEndXSID.
Proof.
  split; [done|..].
  - intros v. unfold decodeLANEndXSID. case_match eqn:E; [done|]. unfold systemIDLen in *.
    rewrite from_Ok by lia. simpl. apply bind_Panic; [apply (value_nopanic (Value := EndX_value))|].
    intros x _. rewrite slice_0 by lia. simpl. rewrite array_Ok; [done|]. rewrite length_take. lia.
  - intros s v Hok Ht Hu Hv. destruct s as [|?|n s|? ? ? ?|[] gs|?|?|? ?]; try done.
    destruct Hok as [[Hn Hnb] Hok]. apply bind_Ok in Hv as (body & Hv & [= <-]).
    destruct (value_rt (Value := EndX_value) s body Hok Hv) as [Hb Hd]. split; [octets|].
    split_bytes 6 n. destruct n; [|done]. unfold decodeLANEndXSID. simpl. rewrite drop_0.
    by rewrite Hd.
  - intros v s Hb Hl H. unfold decodeLANEndXSID in H. case_match eqn:E; [done|].
    split_bytes 6 v. simpl in H. rewrite drop_0 in H. apply bind_Ok in H as (x & Hd & H).
    simpl in H. injection H as <-. octets_in. simpl in Hl.
    destruct (value_fix (Value := EndX_value) v x) as (Hok & e & He & Hle); [done|lia|done|].
    split; [split; [split; [done|octets]|done]|]. do 2 (split; [done|]). simpl. rewrite He.
    eexists. split; [done|]. simpl. lia.
Qed.

(** The first length octet of an ASLA holds the L-flag and a length up to 8. *)
Lemma asla_first (n : nat) (legacy : bool) :
  (n <= 8)%nat ->
  let first := Z.lor (Z.of_nat n) (flag_if legacy aslaLegacyFlag) in
  byte_ok first /\ Z.to_nat (Z.land first aslaMaskLenMask) = n /\
  flag first aslaLegacyFlag = legacy.
Proof.
  intros H. do 9 (destruct n as [|n]; [destruct legacy; (split; [by vm_compute|done])|]).
  lia.
Qed.

Lemma decodeASLA_laws : decoder_laws typed_ok subTLVASLA decodeASLA.
Proof.
  split; [done|..].
  - intros v. unfold decodeASLA. case_match eqn:E; [done|]. split_bytes 2 v. wire.
    do 2 (case_match; [done|]). rewrite from_Ok by (simpl in *; lia). simpl.
    apply bind_Panic; [by apply loop_nopanic|]. intros attrs _.
    rewrite !slice_Ok by (simpl in *; lia). done.
  - intros s v Hok Ht Hu Hv. destruct s as [|?|? ?|legacy sabm udabm subs|[] gs|?|?|? ?]; try done.
    destruct Hok as (Hs & Hud & Hsubs). cbn [SubTLV_value] in Hv. unfold ASLA_value in Hv.
    case_match eqn:E; [done|]. unfold aslaMaxMaskLen in E. apply bind_Ok in Hv as (attrs & Ha & [= <-]).
    change (concatM SubTLV_Serialize subs = Ok attrs) in Ha.
    destruct (loop_rt subs attrs Hsubs Ha) as [Hab Hd].
    destruct (asla_first (length sabm) legacy) as (Hf1 & Hf2 & Hf3); [lia|].
    destruct (asla_first (length udabm) false) as (_ & Hg & _); [lia|].
    cbn [flag_if] in Hg. rewrite Z.lor_0_r in Hg.
    split; [octets|].
    unfold decodeASLA. case_match eqn:E1; [done|]. cbn [app]. wire. rewrite Hf2, Hf3, Hg.
    unfold aslaMaxMaskLen. rewrite E. case_match eqn:E2.
    { simpl in E2. rewrite !length_app in E2. lia. }
    wire. rewrite from_Ok, !slice_Ok by (rewrite !length_app; lia).
    cbn [mbind outcome_bind].
    assert (Hrest : drop (length sabm + length udabm) (sabm ++ udabm ++ attrs) = attrs).
    { rewrite app_assoc, drop_app_length'; [done|]. rewrite length_app. lia. }
    rewrite Hrest, Nat.sub_0_r, drop_0, take_app_length, drop_app_length.
    unfold decodeSubTLVs_in. rewrite Hd. cbn [mbind outcome_bind].
    rewrite take_app_length'; [done|lia].
  - intros v s Hb Hl H. unfold decodeASLA in H. case_match eqn:E; [done|].
    split_bytes 2 v. wire in H. do 2 (case_match; [done|]).
    remember (Z.to_nat (Z.land z aslaMaskLenMask)) as n.
    remember (Z.to_nat (Z.land z0 aslaMaskLenMask)) as m.
    unfold aslaMaxMaskLen in *. octets_in.
    apply bind_Ok in H as (rest & [Hr ->]%from_inv & H).
    apply bind_Ok in H as (attrs & Ha & H).
    apply bind_Ok in H as (sabm & [Hs ->]%slice_inv & H).
    apply bind_Ok in H as (udabm & [Hud ->]%slice_inv & [= <-]).
    cbn [length drop plus Nat.add] in *.
    destruct (loop_fix _ attrs (bytes_ok_drop (n + m) v ltac:(done)) Ha) as (Hok & e & He & Hle).
    change (drop (S (S (n + m))) (z :: z0 :: v)) with (drop (n + m) v) in *.
    change (drop (S (S n)) (z :: z0 :: v)) with (drop n v).
    rewrite Nat.sub_0_r. replace (n + m - n)%nat with m by lia.
    assert (Hln : length (take n (drop 0 v)) = n) by (rewrite drop_0, length_take; lia).
    assert (Hlm : length (take m (drop n v)) = m) by (rewrite length_take, length_drop; lia).
    split; [split; [octets|split; [octets|done]]|]. do 2 (split; [done|]).
    cbn [SubTLV_value]. unfold ASLA_value.
    case_match eqn:E1; [unfold aslaMaxMaskLen in E1; lia|].
    change (concatM _ attrs) with (concatM SubTLV_Serialize attrs). rewrite He.
    eexists. split; [done|]. rewrite !length_app, length_drop in *. simpl. lia.
Qed.

Create HintDb decoder.
#[export] Hint Resolve decodeAdminGroup_laws decodeExtendedAdminGroup_laws decodeSRAlgorithm_laws
  decodeFlexAlgoDefinition_laws decodeSRv6Capabilities_laws decodeEndXSID_laws
  decodeLANEndXSID_laws : decoder.

Lemma subTLVDecoders_laws (ctx : SubTLVContext) (t : Z) (dec : subTLVDecoder) :
  subTLVDecoders ctx t = Some dec -> decoder_laws typed_ok t dec.
Proof.
  destruct ctx; cbn [subTLVDecoders]; unfold aslaDecoders; intros H; try done.
  all: repeat match type of H with
    | (if ?x =? ?k then _ else _) = _ => destruct (Z.eqb_spec x k) as [->|_];
        [injection H as <-;
         first [apply decodeASLA_laws | apply decoder_laws_typed; [done|solve [auto with decoder]]]|]
    end.
  all: done.
Qed.

#[export] Instance subTLV_stream (ctx : SubTLVContext) :
  Stream SubTLV_Serialize (framed (decodeSubTLV ctx)) (sub_ok ctx) anywhere :=
  registry_stream _ _ (subTLVDecoders_laws ctx).

(** The sub-TLV area of a context is a value codec. *)
#[export] Instance subTLVs_value (ctx : SubTLVContext) :
  Value serializeSubTLVs (decodeSubTLVs ctx) (Forall (sub_ok ctx)) :=
  stream_value (S := subTLV_stream ctx).
