(* ===== verification/Entries.v ===== *)
(** pkg/packet: the elements repeated inside TLV values and their codecs: area
    addresses (tlv_area_addresses.go), LSP entries (tlv_lsp_entries.go), LAN
    neighbors (tlv_misc.go), interface addresses and prefix reachability
    entries (tlv_ip.go), topology entries (tlv_mt.go) and IS reachability
    entries (tlv_neighbor_reach.go). *)

From S2P Require Import Prelude.
From S2P Require Import Codec.
From S2P Require Import Framing.
From S2P Require Import Netip.
From S2P Require Import Ids.
From S2P Require Import Sid.
From S2P Require Import SubTLV.
Local Open Scope Z_scope.

(** ** Area addresses *)

Definition maxAreaAddressLen : nat := 13.

Definition area_encode (a : bytes) : outcome bytes :=
  if (length a =? 0)%nat || (maxAreaAddressLen <? length a)%nat then Err errBadTLV
  else mret (Z.of_nat (length a) :: a).

Definition area_step (value : bytes) : outcome (bytes * bytes) :=
  n ← idx value 0;
  let addrLen := Z.to_nat n in
  if (addrLen =? 0)%nat || (maxAreaAddressLen <? addrLen)%nat then Err errBadTLV else
  if (length value <? 1 + addrLen)%nat then Err ErrTruncated else
  a ← slice value 1 (1 + addrLen);
  rest ← from value (1 + addrLen);
  mret (a, rest).

#[export] Instance area_stream : Stream area_encode area_step bytes_ok anywhere.
Proof.
  split.
  - intros b _ Hne. destruct b as [|n b]; [done|]. unfold area_step. wire.
    do 2 (case_match; [done|]). rewrite slice_Ok, from_Ok by (simpl in *; lia). done.
  - intros b a rest H. unfold area_step in H. apply bind_Ok in H as (n & _ & H).
    do 2 (case_match; [done|]). apply bind_Ok in H as (x & [Hl _]%slice_inv & H).
    apply bind_Ok in H as (r & [_ ->]%from_inv & [= _ <-]). rewrite length_drop. lia.
  - done.
  - intros a e rest Ha He. unfold area_encode in He. case_match eqn:E; [done|]. injection He as <-.
    unfold maxAreaAddressLen in E. split; [octets|]. split; [done|].
    unfold area_step. cbn [app]. wire. rewrite Nat2Z.id. unfold maxAreaAddressLen. rewrite E.
    case_match eqn:E2; [simpl in E2; rewrite length_app in E2; lia|]. cbn [Nat.add]. wire.
    by rewrite slice_app, from_app.
  - intros b a rest Hb H. unfold area_step in H. apply bind_Ok in H as (n & Hn & H).
    destruct b as [|n' b]; [done|]. injection Hn as ->.
    do 2 (case_match; [done|]). unfold maxAreaAddressLen in *.
    apply bind_Ok in H as (x & [Hl ->]%slice_inv & H).
    apply bind_Ok in H as (r & [Hr ->]%from_inv & [= <- <-]). octets_in.
    cbn [length drop Nat.add Nat.sub] in *.
    rewrite Nat.sub_0_r, drop_0. cbn [drop].
    assert (Ha : length (take (Z.to_nat n) b) = Z.to_nat n) by (rewrite length_take; lia).
    split; [octets|]. split; [octets|]. unfold area_encode. rewrite Ha.
    case_match; [unfold maxAreaAddressLen in *; lia|]. eexists. split; [done|].
    cbn [length]. rewrite Ha, length_drop. lia.
Qed.

(** ** LSP entries *)

Definition lspEntrySize : nat := 16.
Definition MaxLSPEntriesPerTLV : nat := 255 / lspEntrySize.

Record LSPEntry : Set := mkLSPEntry {
  LE_RemainingTime : Z;
  LE_LSPID : list Z;
  LE_SequenceNumber : Z;
  LE_Checksum : Z
}.

#[export] Instance LSPEntry_eq_dec : EqDecision LSPEntry.
Proof. solve_decision. Defined.

Definition lspEntry_encode (e : LSPEntry) : outcome bytes :=
  mret (put16 (LE_RemainingTime e) ++ LE_LSPID e ++ put32 (LE_SequenceNumber e) ++
        put16 (LE_Checksum e)).

Definition lspEntry_step (value : bytes) : outcome (LSPEntry * bytes) :=
  a ← slice value 0 2; rt ← be16 a;
  b ← slice value 2 10; id ← array 8 b;
  c ← slice value 10 14; seq ← be32 c;
  d ← slice value 14 16; ck ← be16 d;
  rest ← from value lspEntrySize;
  mret (mkLSPEntry rt id seq ck, rest).

Definition LSPEntry_ok (e : LSPEntry) : Prop :=
  u16_ok (LE_RemainingTime e) /\ arr 8 (LE_LSPID e) /\ u32_ok (LE_SequenceNumber e) /\
  u16_ok (LE_Checksum e).

#[export] Instance lspEntries_value :
  Value (concatM lspEntry_encode) (loop_chunks lspEntrySize lspEntry_step) (Forall LSPEntry_ok).
Proof.
  apply chunk_value; [unfold lspEntrySize; lia|..]; unfold lspEntrySize.
  - intros b Hl. split_bytes 16 b. eexists. split; [reflexivity|]. intros Hb. octets_in.
    split; [|by eexists]. unfold LSPEntry_ok, arr. simpl. octets.
  - intros b x H. unfold lspEntry_step in H. ok_inv H.
    match goal with E : slice b 14 16 = _ |- _ => apply slice_inv in E as [? _] end. lia.
  - intros [rt id seq ck] e rest (H1 & [Hl Hb] & H2 & H3) [= <-]. simpl in *.
    split_bytes 8 id. destruct id; [|done]. split; [done|]. split; [octets|].
    unfold lspEntry_step. simpl. by rewrite !join16_put, join32_put.
Qed.

(** ** LAN neighbors *)

Definition snpa_encode (n : SNPA) : outcome bytes := mret n.
Definition snpa_step (value : bytes) : outcome (SNPA * bytes) :=
  s ← slice value 0 6; n ← array 6 s; rest ← from value 6; mret (n, rest).

#[export] Instance snpas_value :
  Value (concatM snpa_encode) (loop_chunks 6 snpa_step) (Forall (arr 6)).
Proof.
  apply chunk_value; [lia|..].
  - intros b Hl. split_bytes 6 b. eexists. split; [reflexivity|]. intros Hb. octets_in.
    split; [split; [done|octets]|by eexists].
  - intros b x H. apply bind_Ok in H as (s & [Hl _]%slice_inv & _). lia.
  - intros n e rest [Hl Hb] [= <-]. split; [done|]. split; [done|].
    split_bytes 6 n. by destruct n.
Qed.

(** ** Interface addresses *)

Definition ipv4AddrLen : nat := 4.
Definition ipv6AddrLen : nat := 16.

Definition ip4_encode (a : Addr) : outcome bytes :=
  if negb (Is4 a) then Err errBadTLV else As4 a.
Definition ip4_step (value : bytes) : outcome (Addr * bytes) :=
  s ← slice value 0 ipv4AddrLen; a ← array 4 s; rest ← from value ipv4AddrLen;
  mret (Addr4 a, rest).

Definition ip6_encode (a : Addr) : outcome bytes :=
  if negb (Is6 a) then Err errBadTLV else mret (As16 a).
Definition ip6_step (value : bytes) : outcome (Addr * bytes) :=
  s ← slice value 0 ipv6AddrLen; a ← array 16 s; rest ← from value ipv6AddrLen;
  mret (Addr6 a, rest).

#[export] Instance ip4s_value :
  Value (concatM ip4_encode) (loop_chunks ipv4AddrLen ip4_step) (Forall addr_ok).
Proof.
  apply chunk_value; [unfold ipv4AddrLen; lia|..]; unfold ipv4AddrLen.
  - intros b Hl. split_bytes 4 b. eexists. split; [reflexivity|]. intros Hb. octets_in.
    split; [split; [done|octets]|by eexists].
  - intros b x H. apply bind_Ok in H as (s & [Hl _]%slice_inv & _). unfold ipv4AddrLen in Hl. lia.
  - intros [|n|n] e rest Hok He; try done. destruct Hok as [Hl Hb]. injection He as <-.
    split; [done|]. split; [done|]. split_bytes 4 n. by destruct n.
Qed.

#[export] Instance ip6s_value :
  Value (concatM ip6_encode) (loop_chunks ipv6AddrLen ip6_step) (Forall addr_ok).
Proof.
  apply chunk_value; [unfold ipv6AddrLen; lia|..]; unfold ipv6AddrLen.
  - intros b Hl. split_bytes 16 b. eexists. split; [reflexivity|]. intros Hb. octets_in.
    split; [split; [done|octets]|by eexists].
  - intros b x H. apply bind_Ok in H as (s & [Hl _]%slice_inv & _). unfold ipv6AddrLen in Hl. lia.
  - intros [|n|n] e rest Hok He; try done. destruct Hok as [Hl Hb]. injection He as <-.
    split; [done|]. split; [done|]. split_bytes 16 n. by destruct n.
Qed.

(** ** Topology entries *)

Definition mtIDLen : nat := 2.
Definition mtFlagOverload : Z := 128.
Definition mtFlagAttached : Z := 64.

(** A multi-topology identifier: 12 bits. *)
Definition mtid_ok (m : Z) : Prop := 0 <= m < 4096.

(** [byte(m >> 8 & 0x0f)] and [uint16(hi&0x0f)<<8 | uint16(lo)]. *)
Definition mtid_hi (m : Z) : Z := Z.land (Z.shiftr m 8) 15.
Definition mtid_join (hi lo : Z) : Z := join16 (Z.land hi 15) lo.

Record MTopologyEntry : Set := mkMTopology {
  MT_MTID : Z; MT_Overload : bool; MT_Attached : bool
}.

Definition mtopology_encode (e : MTopologyEntry) : outcome bytes :=
  let hi := mtid_hi (MT_MTID e) in
  let hi := Z.lor hi (flag_if (MT_Overload e) mtFlagOverload) in
  let hi := Z.lor hi (flag_if (MT_Attached e) mtFlagAttached) in
  mret [hi; u8 (MT_MTID e)].

Definition mtopology_step (value : bytes) : outcome (MTopologyEntry * bytes) :=
  hi ← idx value 0;
  lo ← idx value 1;
  rest ← from value mtIDLen;
  mret (mkMTopology (mtid_join hi lo) (flag hi mtFlagOverload) (flag hi mtFlagAttached), rest).

(** A four-bit value, case by case. *)
Lemma nibble_cases (P : Z -> Prop) :
  P 0 -> P 1 -> P 2 -> P 3 -> P 4 -> P 5 -> P 6 -> P 7 -> P 8 -> P 9 -> P 10 -> P 11 -> P 12 ->
  P 13 -> P 14 -> P 15 -> forall h, 0 <= h < 16 -> P h.
Proof.
  intros. assert (h = 0 \/ h = 1 \/ h = 2 \/ h = 3 \/ h = 4 \/ h = 5 \/ h = 6 \/ h = 7 \/ h = 8 \/
    h = 9 \/ h = 10 \/ h = 11 \/ h = 12 \/ h = 13 \/ h = 14 \/ h = 15) by lia.
  naive_solver.
Qed.

Lemma land15_range (x : Z) : 0 <= Z.land x 15 < 16.
Proof. change 15 with (Z.ones 4). rewrite Z.land_ones by lia. apply Z.mod_pos_bound. lia. Qed.

Lemma mtid_hi_eq (m : Z) : mtid_ok m -> mtid_hi m = m / 256.
Proof.
  unfold mtid_ok, mtid_hi. intros H. change 15 with (Z.ones 4).
  rewrite Z.land_ones, Z.shiftr_div_pow2 by lia. change (2 ^ 8) with 256. change (2 ^ 4) with 16.
  apply Z.mod_small. split; [apply Z.div_pos; lia|apply Z.div_lt_upper_bound; lia].
Qed.

Lemma mtid_join_put (m : Z) : mtid_ok m -> join16 (m / 256) (u8 m) = m.
Proof. intros _. rewrite join16_eq by apply u8_byte. unfold u8. Z.to_euclidean_division_equations. lia. Qed.

Lemma mtid_join_ok (hi lo : Z) : byte_ok lo -> mtid_ok (mtid_join hi lo).
Proof.
  intros H. unfold mtid_join. rewrite join16_eq by done. pose proof (land15_range hi).
  unfold byte_ok, mtid_ok in *. lia.
Qed.

Lemma mtopology_flags (h : Z) (o a : bool) :
  0 <= h < 16 ->
  let hi := Z.lor (Z.lor h (flag_if o mtFlagOverload)) (flag_if a mtFlagAttached) in
  byte_ok hi /\ Z.land hi 15 = h /\ flag hi mtFlagOverload = o /\ flag hi mtFlagAttached = a.
Proof.
  intros Hh. pattern h. revert h Hh.
  apply nibble_cases; destruct o, a; vm_compute; intuition congruence.
Qed.

#[export] Instance mtopologies_value :
  Value (concatM mtopology_encode) (loop_chunks mtIDLen mtopology_step)
    (Forall (fun e => mtid_ok (MT_MTID e))).
Proof.
  apply chunk_value; [unfold mtIDLen; lia|..]; unfold mtIDLen.
  - intros b Hl. split_bytes 2 b. eexists. split; [reflexivity|]. intros Hb. octets_in.
    split; [by apply mtid_join_ok|by eexists].
  - intros b x H. apply bind_Ok in H as (? & _ & H). apply bind_Ok in H as (? & _ & H).
    apply bind_Ok in H as (? & [Hl _]%from_inv & _). done.
  - intros [m o a] e rest Hok [= <-]. cbn [MT_MTID MT_Overload MT_Attached] in *.
    pose proof (mtid_hi_eq m Hok) as Hh.
    destruct (mtopology_flags (mtid_hi m) o a) as (Hb & H1 & H2 & H3).
    { rewrite Hh. unfold mtid_ok in Hok. split; [apply Z.div_pos; lia|apply Z.div_lt_upper_bound; lia]. }
    split; [done|]. split; [octets|]. unfold mtopology_step. simpl. rewrite drop_0. unfold mtid_join.
    rewrite H1, H2, H3, Hh, mtid_join_put by done. done.
Qed.

(** ** IS reachability entries *)

Definition maxWideMetric : Z := 16777215. (* 0xffffff *)

Record ExtendedISReachEntry : Set := mkISReach {
  IR_NeighborID : list Z;
  IR_Metric : Z;
  IR_SubTLVs : list SubTLV
}.

Definition join24 (a b c : Z) : Z := Z.lor (Z.lor (Z.shiftl a 16) (Z.shiftl b 8)) c.
Definition put24 (m : Z) : bytes := [u8 (Z.shiftr m 16); u8 (Z.shiftr m 8); u8 m].

(** The body of the loop of [serializeISReachEntries]. *)
Definition isReach_encode (n : ExtendedISReachEntry) : outcome bytes :=
  if maxWideMetric <? IR_Metric n then Err errBadTLV else
  sub ← serializeSubTLVs (IR_SubTLVs n);
  if (255 <? length sub)%nat then Err ErrTooLong else
  mret (IR_NeighborID n ++ put24 (IR_Metric n) ++ [Z.of_nat (length sub)] ++ sub).

Definition serializeISReachEntries (neighbors : list ExtendedISReachEntry) : outcome bytes :=
  concatM isReach_encode neighbors.

(** The body of the loop of [decodeISReachEntries]. *)
Definition isReach_step (value : bytes) : outcome (ExtendedISReachEntry * bytes) :=
  if (length value <? 11)%nat then Err ErrTruncated else
  s ← slice value 0 7; id ← array 7 s;
  m7 ← idx value 7; m8 ← idx value 8; m9 ← idx value 9;
  l ← idx value 10;
  let subLen := Z.to_nat l in
  if (length value <? 11 + subLen)%nat then Err ErrTruncated else
  subs ← (if (0 <? subLen)%nat
          then sub ← slice value 11 (11 + subLen);
               decodeSubTLVs SubTLVContextISReachability sub
          else mret []);
  rest ← from value (11 + subLen);
  mret (mkISReach id (join24 m7 m8 m9) subs, rest).

Definition decodeISReachEntries (value : bytes) : outcome (list ExtendedISReachEntry) :=
  loop isReach_step value.

Definition ISReach_ok (e : ExtendedISReachEntry) : Prop :=
  arr 7 (IR_NeighborID e) /\ 0 <= IR_Metric e <= maxWideMetric /\
  Forall (sub_ok SubTLVContextISReachability) (IR_SubTLVs e).

Lemma join24_eq (a b c : Z) : byte_ok b -> byte_ok c -> join24 a b c = a * 65536 + b * 256 + c.
Proof.
  unfold byte_ok, join24. intros Hb Hc. rewrite <- Z.lor_assoc.
  rewrite (lor_shiftl b c) by lia. rewrite lor_shiftl by lia. lia.
Qed.

Lemma join24_put (m : Z) :
  0 <= m <= maxWideMetric -> join24 (u8 (Z.shiftr m 16)) (u8 (Z.shiftr m 8)) (u8 m) = m.
Proof.
  unfold maxWideMetric. intros H. rewrite join24_eq by apply u8_byte.
  unfold u8. rewrite !Z.shiftr_div_pow2 by lia. change (2 ^ 8) with 256. change (2 ^ 16) with 65536.
  Z.to_euclidean_division_equations. lia.
Qed.

Lemma join24_ok (a b c : Z) :
  byte_ok a -> byte_ok b -> byte_ok c -> 0 <= join24 a b c <= maxWideMetric.
Proof. intros. rewrite join24_eq by done. unfold byte_ok, maxWideMetric in *. lia. Qed.

(** An area behind a length octet, decoded only when it is not empty. *)
Lemma decodeSubTLVs_nil (ctx : SubTLVContext) : decodeSubTLVs ctx [] = Ok [].
Proof. reflexivity. Qed.

Lemma serializeSubTLVs_nil (ctx : SubTLVContext) (subs : list SubTLV) :
  Forall (sub_ok ctx) subs -> serializeSubTLVs subs = Ok [] -> subs = [].
Proof.
  intros Hok H. destruct (value_rt (Value := subTLVs_value ctx) subs [] Hok H) as [_ Hd].
  rewrite decodeSubTLVs_nil in Hd. by injection Hd as <-.
Qed.

#[export] Instance isReach_stream : Stream isReach_encode isReach_step ISReach_ok anywhere.
Proof.
  split.
  - intros b _ _. unfold isReach_step. case_match; [done|]. split_bytes 11 b.
    rewrite slice_0 by (simpl; lia). simpl. case_match; [done|].
    apply bind_Panic.
    + case_match; [|done]. rewrite slice_Ok by (simpl in *; lia). simpl.
      apply (value_nopanic (Value := subTLVs_value _)).
    + intros subs _. rewrite from_Ok by (simpl in *; lia). done.
  - intros b a rest H. unfold isReach_step in H. case_match eqn:E; [done|]. ok_inv H. subst.
    match goal with E : from _ _ = Ok _ |- _ => apply from_inv in E as [? ->] end.
    rewrite length_drop. lia.
  - done.
  - intros [id m subs] e rest ([Hl Hb] & Hm & Hsubs) He. simpl in *. unfold isReach_encode in He.
    simpl in He. case_match; [done|]. apply bind_Ok in He as (sub & Hs & He).
    case_match; [done|]. injection He as <-.
    destruct (value_rt (Value := subTLVs_value _) subs sub Hsubs Hs) as [Hsb Hd].
    split; [octets|]. split; [by destruct id|].
    split_bytes 7 id. destruct id; [|done]. cbn [app].
    unfold isReach_step. case_match eqn:E; [done|]. cbn [app put24] in *.
    wire. rewrite slice_0 by (simpl; lia). cbn [array length Nat.leb take mbind outcome_bind].
    wire. rewrite Nat2Z.id. case_match eqn:E2; [simpl in E2; rewrite length_app in E2; lia|].
    rewrite join24_put by done. wire.
    assert (Hsub : (if (0 <? length sub)%nat
      then sub ← slice (sub ++ rest) 0 (length sub); decodeSubTLVs SubTLVContextISReachability sub
      else mret []) = Ok subs).
    { rewrite slice_app. simpl. destruct sub as [|x sub]; [|done].
      by rewrite (serializeSubTLVs_nil _ _ Hsubs Hs). }
    rewrite Hsub. cbn [mbind outcome_bind]. by rewrite from_app.
  - intros b a rest Hb H. unfold isReach_step in H. case_match eqn:E; [done|]. split_bytes 11 b.
    wire in H. rewrite slice_0 in H by (simpl; lia).
    cbn [array length Nat.leb take mbind outcome_bind] in H. wire in H.
    case_match eqn:E2; [done|]. wire in H.
    apply bind_Ok in H as (subs & Hsubs & H). apply bind_Ok in H as (r & [Hr ->]%from_inv & [= <- <-]).
    octets_in. simpl in E2.
    destruct (value_fix (Value := subTLVs_value SubTLVContextISReachability)
      (take (Z.to_nat z9) b) subs) as (Hok & e & He & Hle).
    { octets. } { rewrite length_take. unfold byte_ok in *. lia. }
    { destruct (0 <? Z.to_nat z9)%nat eqn:E3; [by rewrite slice_0 in Hsubs by lia|].
      injection Hsubs as <-. replace (Z.to_nat z9) with 0%nat by lia. done. }
    clear Hsubs.
    split; [octets|]. split.
    { split; [split; [done|simpl; octets]|]. split; [by apply join24_ok|done]. }
    unfold isReach_encode. simpl. pose proof (join24_ok z6 z7 z8 ltac:(done) ltac:(done) ltac:(done)).
    rewrite (proj2 (Z.ltb_ge _ _)) by lia. rewrite He. simpl. rewrite length_take in Hle.
    unfold byte_ok in *. case_match; [lia|]. eexists. split; [done|]. simpl. rewrite length_drop. lia.
Qed.

(** ** Prefix reachability entries *)

Definition prefixFlagDown : Z := 128.
Definition prefixFlagSubTLV : Z := 64.
Definition prefixFlagExternal : Z := 64.
Definition prefixFlagSubTLV6 : Z := 32.
Definition prefixLenMask : Z := 63.

Record ExtendedIPReachEntry : Set := mkIPReach {
  IP_Metric : Z; IP_Down : bool; IP_Prefix : Prefix; IP_SubTLVs : list SubTLV
}.

Record IPv6ReachEntry : Set := mkIPv6Reach {
  IP6_Metric : Z; IP6_Down : bool; IP6_External : bool; IP6_Prefix : Prefix;
  IP6_SubTLVs : list SubTLV
}.

(** The number of octets that hold [bits] bits: [(bits + 7) / 8]. *)
Definition sig_len (bits : Z) : nat := Z.to_nat ((bits + 7) / 8).

Definition packPrefix (p : Prefix) (full : bytes) : outcome bytes :=
  slice full 0 (sig_len (p_bits p)).

Definition unpackPrefix (sig : bytes) (bits : Z) (v6 : bool) : Prefix :=
  if v6 then PrefixFrom (Addr6 (copy_into 16 sig)) bits
  else PrefixFrom (Addr4 (copy_into 4 sig)) bits.

(** [if len(sub) > 0 { append(byte(len(sub))); append(sub...) }] *)
Definition reach_tail (sub : bytes) : bytes :=
  if (0 <? length sub)%nat then Z.of_nat (length sub) :: sub else [].

(** The body of the loop of [serializeIPReachEntries]. *)
Definition ipReach_encode (e : ExtendedIPReachEntry) : outcome bytes :=
  let p := IP_Prefix e in
  if negb (Is4 (p_addr p)) || (p_bits p <? 0) || (32 <? p_bits p) then Err errBadTLV else
  sub ← serializeSubTLVs (IP_SubTLVs e);
  if (255 <? length sub)%nat then Err ErrTooLong else
  let ctrl := p_bits p in
  let ctrl := Z.lor ctrl (flag_if (IP_Down e) prefixFlagDown) in
  let ctrl := Z.lor ctrl (flag_if (0 <? length sub)%nat prefixFlagSubTLV) in
  full ← As4 (p_addr p);
  sig ← packPrefix p full;
  mret (put32 (IP_Metric e) ++ [ctrl] ++ sig ++ reach_tail sub).

Definition serializeIPReachEntries (prefixes : list ExtendedIPReachEntry) : outcome bytes :=
  concatM ipReach_encode prefixes.

(** The body of the loop of [serializeIPv6ReachEntries]. *)
Definition ipv6Reach_encode (e : IPv6ReachEntry) : outcome bytes :=
  let p := IP6_Prefix e in
  if negb (Is6 (p_addr p)) || (p_bits p <? 0) || (128 <? p_bits p) then Err errBadTLV else
  sub ← serializeSubTLVs (IP6_SubTLVs e);
  if (255 <? length sub)%nat then Err ErrTooLong else
  let flags := flag_if (IP6_Down e) prefixFlagDown in
  let flags := Z.lor flags (flag_if (IP6_External e) prefixFlagExternal) in
  let flags := Z.lor flags (flag_if (0 <? length sub)%nat prefixFlagSubTLV6) in
  sig ← packPrefix p (As16 (p_addr p));
  mret (put32 (IP6_Metric e) ++ [flags; p_bits p] ++ sig ++ reach_tail sub).

Definition serializeIPv6ReachEntries (prefixes : list IPv6ReachEntry) : outcome bytes :=
  concatM ipv6Reach_encode prefixes.

Record prefixReachEntry : Set := mkPrefixReach {
  pr_metric : Z; pr_down : bool; pr_external : bool; pr_prefix : Prefix;
  pr_subTLVs : list SubTLV
}.

(** The sub-TLVs of an entry, when its flag says they are there: the area and
    the offset behind it. *)
Definition prefix_subTLVs (value : bytes) (off : nat) (hasSub : bool)
  : outcome (list SubTLV * nat) :=
  if hasSub then
    if (length value <? off + 1)%nat then Err ErrTruncated else
    l ← idx value off;
    let off := (off + 1)%nat in
    let subLen := Z.to_nat l in
    if (length value <? off + subLen)%nat then Err ErrTruncated else
    sub ← slice value off (off + subLen);
    subs ← decodeSubTLVs SubTLVContextIPReachability sub;
    mret (subs, (off + subLen)%nat)
  else mret ([], off).

(** The fixed part of an entry: metric, down, external, sub-TLVs present, prefix
    length. *)
Definition headLen (v6 : bool) : nat := if v6 then 6 else 5.
Definition maxBits (v6 : bool) : Z := if v6 then 128 else 32.

Definition prefix_head (v6 : bool) (value : bytes) : outcome (Z * bool * bool * bool * Z) :=
  if (length value <? headLen v6)%nat then Err ErrTruncated else
  m ← slice value 0 4; metric ← be32 m;
  if v6 then
    flags ← idx value 4;
    bits ← idx value 5;
    mret (metric, flag flags prefixFlagDown, flag flags prefixFlagExternal,
          flag flags prefixFlagSubTLV6, bits)
  else
    ctrl ← idx value 4;
    mret (metric, flag ctrl prefixFlagDown, false, flag ctrl prefixFlagSubTLV,
          Z.land ctrl prefixLenMask).

(** The body of the loop of [decodePrefixReach]. *)
Definition prefix_step (v6 : bool) (value : bytes) : outcome (prefixReachEntry * bytes) :=
  '(metric, down, external, hasSub, bits) ← prefix_head v6 value;
  if maxBits v6 <? bits then Err errBadTLV else
  let off := (headLen v6 + sig_len bits)%nat in
  if (length value <? off)%nat then Err ErrTruncated else
  sig ← slice value (headLen v6) off;
  '(subs, off) ← prefix_subTLVs value off hasSub;
  rest ← from value off;
  mret (mkPrefixReach metric down external (unpackPrefix sig bits v6) subs, rest).

Definition decodePrefixReach (value : bytes) (v6 : bool) : outcome (list prefixReachEntry) :=
  loop (prefix_step v6) value.

(** What the [emit] callbacks append. *)
Definition ip_entry (e : prefixReachEntry) : ExtendedIPReachEntry :=
  mkIPReach (pr_metric e) (pr_down e) (pr_prefix e) (pr_subTLVs e).
Definition ip6_entry (e : prefixReachEntry) : IPv6ReachEntry :=
  mkIPv6Reach (pr_metric e) (pr_down e) (pr_external e) (pr_prefix e) (pr_subTLVs e).

Definition decodeIPReachEntries (value : bytes) : outcome (list ExtendedIPReachEntry) :=
  es ← decodePrefixReach value false; mret (map ip_entry es).
Definition decodeIPv6ReachEntries (value : bytes) : outcome (list IPv6ReachEntry) :=
  es ← decodePrefixReach value true; mret (map ip6_entry es).

(** *** Prefixes on the wire *)

(** An address of [n] octets whose octets past the [bits]-bit prefix are zero. *)
Definition sig_ok (n : nat) (full : bytes) (bits : Z) : Prop :=
  arr n full /\ 0 <= bits <= 8 * Z.of_nat n /\
  drop (sig_len bits) full = replicate (n - sig_len bits) 0.

Definition prefix4_ok (p : Prefix) : Prop :=
  exists full, p_addr p = Addr4 full /\ sig_ok 4 full (p_bits p).
Definition prefix6_ok (p : Prefix) : Prop :=
  exists full, p_addr p = Addr6 full /\ sig_ok 16 full (p_bits p).

Lemma sig_len_le (bits : Z) (n : nat) : 0 <= bits <= 8 * Z.of_nat n -> (sig_len bits <= n)%nat.
Proof.
  unfold sig_len. intros H.
  assert ((bits + 7) / 8 < Z.of_nat n + 1) by (apply Z.div_lt_upper_bound; lia). lia.
Qed.

Lemma copy_into_short (n : nat) (s : bytes) :
  (length s <= n)%nat -> copy_into n s = s ++ replicate (n - length s) 0.
Proof.
  intros H. unfold copy_into. rewrite firstn_app, firstn_all2 by done. f_equal.
  rewrite take_replicate. f_equal. lia.
Qed.

Lemma sig_ok_copy (n : nat) (sig : bytes) (bits : Z) :
  bytes_ok sig -> 0 <= bits <= 8 * Z.of_nat n -> length sig = sig_len bits ->
  sig_ok n (copy_into n sig) bits /\ take (sig_len bits) (copy_into n sig) = sig.
Proof.
  intros Hb Hr Hl. pose proof (sig_len_le bits n Hr) as Hle.
  rewrite copy_into_short by lia. rewrite <- Hl. split; [|by rewrite take_app_length].
  split; [|split]; [|done|].
  - split; [rewrite length_app, length_replicate; lia|]. octets. apply bytes_ok_replicate.
  - by rewrite <- Hl, drop_app_length.
Qed.

Lemma sig_ok_take (n : nat) (full : bytes) (bits : Z) :
  sig_ok n full bits ->
  length (take (sig_len bits) full) = sig_len bits /\ bytes_ok (take (sig_len bits) full) /\
  copy_into n (take (sig_len bits) full) = full.
Proof.
  intros ([Hl Hb] & Hr & Hd). pose proof (sig_len_le bits n Hr) as Hle.
  assert (Ht : length (take (sig_len bits) full) = sig_len bits) by (rewrite length_take; lia).
  split; [done|]. split; [octets|]. rewrite copy_into_short by lia.
  rewrite Ht, <- Hd, take_drop. done.
Qed.

Lemma packPrefix_Ok (n : nat) (p : Prefix) (full : bytes) :
  sig_ok n full (p_bits p) -> packPrefix p full = Ok (take (sig_len (p_bits p)) full).
Proof.
  intros ([Hl _] & Hr & _). unfold packPrefix. rewrite slice_0; [done|].
  rewrite Hl. by apply sig_len_le.
Qed.

Lemma PrefixFrom_valid (a : Addr) (bits : Z) :
  IsValid a = true -> 0 <= bits <= BitLen a -> PrefixFrom a bits = mkPrefix a bits.
Proof. intros Hv Hr. unfold PrefixFrom. rewrite Hv. repeat case_match; f_equal; lia. Qed.

Lemma ctrl_flags (bits : Z) (down sub : bool) :
  0 <= bits <= 32 ->
  let ctrl := Z.lor (Z.lor bits (flag_if down prefixFlagDown)) (flag_if sub prefixFlagSubTLV) in
  byte_ok ctrl /\ flag ctrl prefixFlagDown = down /\ flag ctrl prefixFlagSubTLV = sub /\
  Z.land ctrl prefixLenMask = bits.
Proof.
  intros H. replace bits with (Z.of_nat (Z.to_nat bits)) by lia.
  assert (Hn : (Z.to_nat bits <= 32)%nat) by lia. revert Hn. generalize (Z.to_nat bits). clear.
  intros n Hn. do 33 (destruct n as [|n]; [destruct down, sub; by vm_compute|]). lia.
Qed.

Lemma flags6 (down ext sub : bool) :
  let flags := Z.lor (Z.lor (flag_if down prefixFlagDown) (flag_if ext prefixFlagExternal))
                     (flag_if sub prefixFlagSubTLV6) in
  byte_ok flags /\ flag flags prefixFlagDown = down /\ flag flags prefixFlagExternal = ext /\
  flag flags prefixFlagSubTLV6 = sub.
Proof. destruct down, ext, sub; by vm_compute. Qed.

(** *** The sub-TLVs behind a prefix *)

Lemma prefix_subTLVs_nopanic (value : bytes) (off : nat) (hasSub : bool) :
  prefix_subTLVs value off hasSub <> Panic.
Proof.
  unfold prefix_subTLVs. destruct hasSub; [|done]. case_match; [done|].
  apply bind_Panic; [apply idx_nopanic; lia|]. intros l _. case_match; [done|].
  rewrite slice_Ok by lia. simpl. apply bind_Panic; [|done].
  apply (value_nopanic (Value := subTLVs_value _)).
Qed.

Lemma prefix_subTLVs_range (value : bytes) (off off' : nat) (hasSub : bool) (subs : list SubTLV) :
  (off <= length value)%nat -> prefix_subTLVs value off hasSub = Ok (subs, off') ->
  (off <= off' <= length value)%nat.
Proof.
  intros Hoff H. unfold prefix_subTLVs in H. destruct hasSub; [|injection H as <- <-; lia].
  case_match; [done|]. apply bind_Ok in H as (l & _ & H). case_match; [done|].
  apply bind_Ok in H as (? & _ & H). apply bind_Ok in H as (? & _ & [= _ <-]). lia.
Qed.

Lemma prefix_subTLVs_rt (h sub rest : bytes) (subs : list SubTLV) :
  Forall (sub_ok SubTLVContextIPReachability) subs -> serializeSubTLVs subs = Ok sub ->
  bytes_ok sub /\
  prefix_subTLVs (h ++ reach_tail sub ++ rest) (length h) (0 <? length sub)%nat =
    Ok (subs, (length h + length (reach_tail sub))%nat).
Proof.
  intros Hok Hs. destruct (value_rt (Value := subTLVs_value _) subs sub Hok Hs) as [Hb Hd].
  split; [done|]. unfold prefix_subTLVs, reach_tail. destruct (0 <? length sub)%nat eqn:E.
  - rewrite !length_app. cbn [length]. case_match; [lia|].
    unfold idx. rewrite lookup_app_r, Nat.sub_diag by lia. cbn [app lookup list_lookup].
    cbn [mbind outcome_bind]. rewrite Nat2Z.id. case_match; [lia|].
    rewrite slice_Ok by (rewrite !length_app; cbn [length]; rewrite length_app; lia).
    cbn [mbind outcome_bind]. rewrite <- drop_drop, drop_app_length. cbn [drop].
    replace (length h + 1 + length sub - (length h + 1))%nat with (length sub) by lia.
    rewrite drop_0, take_app_length, Hd. cbn [mbind outcome_bind]. do 2 f_equal. lia.
  - destruct sub as [|? ?]; [|done]. rewrite (serializeSubTLVs_nil _ _ Hok Hs).
    by rewrite Nat.add_0_r.
Qed.

Lemma prefix_subTLVs_fix (value : bytes) (off off' : nat) (hasSub : bool) (subs : list SubTLV) :
  bytes_ok value -> (off <= length value)%nat -> prefix_subTLVs value off hasSub = Ok (subs, off') ->
  Forall (sub_ok SubTLVContextIPReachability) subs /\
  exists sub, serializeSubTLVs subs = Ok sub /\ bytes_ok sub /\ (length sub <= 255)%nat /\
    (off + length (reach_tail sub) <= off')%nat.
Proof.
  intros Hb Hoff H. unfold prefix_subTLVs in H. destruct hasSub.
  - case_match; [done|]. apply bind_Ok in H as (l & Hl & H). case_match; [done|].
    apply idx_Ok in Hl. pose proof (bytes_ok_lookup _ _ _ Hb Hl) as Hlb.
    apply bind_Ok in H as (sub & [Hs ->]%slice_inv & H). apply bind_Ok in H as (subs' & Hd & [= <- <-]).
    set (area := take _ _) in Hd.
    assert (Hlen : length area = Z.to_nat l).
    { subst area. rewrite length_take, length_drop. lia. }
    unfold byte_ok in Hlb.
    destruct (value_fix (Value := subTLVs_value SubTLVContextIPReachability) area subs') as (Hok & e & He & Hle).
    { subst area. octets. } { lia. } { done. }
    split; [done|]. exists e. split; [done|].
    split; [by apply (value_rt (Value := subTLVs_value SubTLVContextIPReachability) subs' e)|].
    split; [lia|]. unfold reach_tail. case_match; simpl; lia.
  - injection H as <- <-. split; [constructor|]. exists []. simpl. split; [done|].
    split; [constructor|]. split; lia.
Qed.

(** *** The entry codecs *)

Definition IPReach_ok (e : ExtendedIPReachEntry) : Prop :=
  u32_ok (IP_Metric e) /\ prefix4_ok (IP_Prefix e) /\
  Forall (sub_ok SubTLVContextIPReachability) (IP_SubTLVs e).
Definition IPv6Reach_ok (e : IPv6ReachEntry) : Prop :=
  u32_ok (IP6_Metric e) /\ prefix6_ok (IP6_Prefix e) /\
  Forall (sub_ok SubTLVContextIPReachability) (IP6_SubTLVs e).

Definition prefix_ok (v6 : bool) (p : Prefix) : Prop :=
  if v6 then prefix6_ok p else prefix4_ok p.

Definition prefixReach_ok (v6 : bool) (e : prefixReachEntry) : Prop :=
  u32_ok (pr_metric e) /\ (v6 = false -> pr_external e = false) /\
  prefix_ok v6 (pr_prefix e) /\ Forall (sub_ok SubTLVContextIPReachability) (pr_subTLVs e).

(** Either encoder, on what the shared decoder returns. *)
Definition prefix_encode (v6 : bool) (e : prefixReachEntry) : outcome bytes :=
  if v6 then ipv6Reach_encode (ip6_entry e) else ipReach_encode (ip_entry e).

Lemma prefix_head_long (v6 : bool) (value : bytes) :
  (headLen v6 <= length value)%nat ->
  exists m d x s bits, prefix_head v6 value = Ok (m, d, x, s, bits) /\
    (v6 = false -> x = false) /\ (bytes_ok value -> u32_ok m /\ 0 <= bits).
Proof.
  intros H. unfold prefix_head. destruct (Nat.ltb_spec (length value) (headLen v6)); [lia|]. destruct v6; unfold headLen in H.
  - split_bytes 6 value. simpl. do 5 eexists. split; [reflexivity|]. split; [done|].
    intros Hb. octets_in. split; [octets|]. unfold byte_ok in *. lia.
  - split_bytes 5 value. simpl. do 5 eexists. split; [reflexivity|]. split; [done|].
    intros Hb. octets_in. split; [octets|]. apply Z.land_nonneg. right. done.
Qed.

Lemma prefix_head_short (v6 : bool) (value : bytes) x :
  prefix_head v6 value = Ok x -> (headLen v6 <= length value)%nat.
Proof. unfold prefix_head. destruct (Nat.ltb_spec (length value) (headLen v6)); done. Qed.

Lemma prefix_head_nopanic (v6 : bool) (value : bytes) : prefix_head v6 value <> Panic.
Proof.
  destruct (Nat.leb_spec (headLen v6) (length value)) as [H|H].
  - destruct (prefix_head_long v6 value H) as (m & d & x & s & bits & -> & _). done.
  - unfold prefix_head. by rewrite (proj2 (Nat.ltb_lt _ _)).
Qed.

Lemma prefix_step_nopanic (v6 : bool) (value : bytes) : prefix_step v6 value <> Panic.
Proof.
  unfold prefix_step. apply bind_Panic; [apply prefix_head_nopanic|].
  intros [[[[m d] x] s] bits] _. do 2 (case_match; [done|]).
  rewrite slice_Ok by lia. cbn [mbind outcome_bind].
  apply bind_Panic; [apply prefix_subTLVs_nopanic|]. intros [subs off] Ho.
  apply prefix_subTLVs_range in Ho; [|lia]. rewrite from_Ok by lia. done.
Qed.

(** What a successful step read: the head, the octets of the prefix and the
    sub-TLVs behind them. *)
Lemma prefix_step_inv (v6 : bool) (value : bytes) (e : prefixReachEntry) (rest : bytes) :
  prefix_step v6 value = Ok (e, rest) ->
  exists d x s bits off,
    prefix_head v6 value = Ok (pr_metric e, d, x, s, bits) /\ bits <= maxBits v6 /\
    (headLen v6 + sig_len bits <= length value)%nat /\
    prefix_subTLVs value (headLen v6 + sig_len bits) s = Ok (pr_subTLVs e, off) /\
    (headLen v6 + sig_len bits <= off <= length value)%nat /\
    pr_down e = d /\ pr_external e = x /\
    pr_prefix e = unpackPrefix (take (sig_len bits) (drop (headLen v6) value)) bits v6 /\
    rest = drop off value.
Proof.
  unfold prefix_step. intros H. apply bind_Ok in H as ([[[[m d] x] s] bits] & Hh & H).
  case_match eqn:E1; [done|]. case_match eqn:E2; [done|].
  apply bind_Ok in H as (sig & [Hs ->]%slice_inv & H).
  apply bind_Ok in H as ([subs off] & Hsub & H). apply bind_Ok in H as (r & [Hr ->]%from_inv & [= <- <-]).
  apply prefix_subTLVs_range in Hsub as Hrange; [|lia].
  exists d, x, s, bits, off.
  cbn [pr_metric pr_down pr_external pr_prefix pr_subTLVs]. split; [done|]. split; [lia|]. split; [lia|]. split; [done|].
  split; [lia|]. do 2 (split; [done|]). split; [|done]. do 2 f_equal. lia.
Qed.

(** The head a v4 or v6 entry is written with reads back. *)
Lemma prefix_head4_rt (m bits : Z) (down sub : bool) (r : bytes) :
  u32_ok m -> 0 <= bits <= 32 ->
  let ctrl := Z.lor (Z.lor bits (flag_if down prefixFlagDown)) (flag_if sub prefixFlagSubTLV) in
  prefix_head false (put32 m ++ [ctrl] ++ r) = Ok (m, down, false, sub, bits).
Proof.
  intros Hm Hb. destruct (ctrl_flags bits down sub Hb) as (_ & H1 & H2 & H3). simpl in *.
  unfold prefix_head. simpl. by rewrite H1, H2, H3, join32_put.
Qed.

Lemma prefix_head6_rt (m bits : Z) (down ext sub : bool) (r : bytes) :
  u32_ok m ->
  let flags := Z.lor (Z.lor (flag_if down prefixFlagDown) (flag_if ext prefixFlagExternal))
                     (flag_if sub prefixFlagSubTLV6) in
  prefix_head true (put32 m ++ [flags; bits] ++ r) = Ok (m, down, ext, sub, bits).
Proof.
  intros Hm. destruct (flags6 down ext sub) as (_ & H1 & H2 & H3). cbn zeta in *.
  unfold prefix_head. cbn [app put32 length headLen Nat.ltb Nat.leb]. wire.
  rewrite slice_0 by (simpl; lia). simpl. by rewrite H1, H2, H3, join32_put.
Qed.

Definition addr_octets (v6 : bool) : nat := if v6 then 16 else 4.
Definition addr_of (v6 : bool) (full : bytes) : Addr := if v6 then Addr6 full else Addr4 full.

Lemma prefix_ok_inv (v6 : bool) (p : Prefix) :
  prefix_ok v6 p <-> exists full, p_addr p = addr_of v6 full /\ sig_ok (addr_octets v6) full (p_bits p).
Proof. destruct v6; reflexivity. Qed.

Lemma maxBits_octets (v6 : bool) : maxBits v6 = 8 * Z.of_nat (addr_octets v6).
Proof. by destruct v6. Qed.

(** The octets of an entry: head, prefix, sub-TLVs. *)
Lemma prefix_encode_Ok (v6 : bool) (e : prefixReachEntry) (sub : bytes) :
  prefixReach_ok v6 e -> serializeSubTLVs (pr_subTLVs e) = Ok sub -> (length sub <= 255)%nat ->
  exists hd full, p_addr (pr_prefix e) = addr_of v6 full /\
    sig_ok (addr_octets v6) full (p_bits (pr_prefix e)) /\
    prefix_encode v6 e = Ok (hd ++ take (sig_len (p_bits (pr_prefix e))) full ++ reach_tail sub) /\
    length hd = headLen v6 /\ bytes_ok hd /\
    forall r, prefix_head v6 (hd ++ r) =
      Ok (pr_metric e, pr_down e, pr_external e, (0 <? length sub)%nat, p_bits (pr_prefix e)).
Proof.
  destruct e as [m d x [a bits] subs]. intros (Hm & Hx & Hp & Hsubs) Hs Hl. simpl in *.
  apply prefix_ok_inv in Hp as (full & Ha & Hsig). simpl in *. subst a.
  pose proof Hsig as (_ & Hr & _). pose proof (packPrefix_Ok _ (mkPrefix (addr_of v6 full) bits) _ Hsig) as Hpk.
  destruct v6; simpl in *.
  - set (fl := Z.lor (Z.lor (flag_if d prefixFlagDown) (flag_if x prefixFlagExternal))
      (flag_if (0 <? length sub)%nat prefixFlagSubTLV6)).
    exists (put32 m ++ [fl; bits]), full. do 2 (split; [done|]). split.
    { unfold ipv6Reach_encode. simpl. rewrite (proj2 (Z.ltb_ge bits 0)), (proj2 (Z.ltb_ge 128 bits)) by lia.
      rewrite Hs. simpl. rewrite (proj2 (Nat.ltb_ge _ _)) by lia. rewrite Hpk. done. }
    split; [done|]. split.
    { destruct (flags6 d x (0 <? length sub)%nat) as [Hb _]. octets. }
    intros r. rewrite <- app_assoc. by apply prefix_head6_rt.
  - set (ct := Z.lor (Z.lor bits (flag_if d prefixFlagDown))
      (flag_if (0 <? length sub)%nat prefixFlagSubTLV)).
    exists (put32 m ++ [ct]), full. do 2 (split; [done|]). split.
    { unfold ipReach_encode. simpl. rewrite (proj2 (Z.ltb_ge bits 0)), (proj2 (Z.ltb_ge 32 bits)) by lia.
      rewrite Hs. simpl. rewrite (proj2 (Nat.ltb_ge _ _)) by lia. rewrite Hpk. done. }
    split; [done|]. split.
    { destruct (ctrl_flags bits d (0 <? length sub)%nat Hr) as [Hb _]. octets. }
    intros r. rewrite <- app_assoc, (Hx eq_refl). by apply prefix_head4_rt.
Qed.

Lemma prefix_encode_inv (v6 : bool) (e : prefixReachEntry) (out : bytes) :
  prefix_encode v6 e = Ok out ->
  exists sub, serializeSubTLVs (pr_subTLVs e) = Ok sub /\ (length sub <= 255)%nat.
Proof.
  intros H. destruct v6; simpl in H.
  - unfold ipv6Reach_encode in H. case_match; [done|]. apply bind_Ok in H as (sub & Hs & H).
    case_match; [done|]. exists sub. split; [done|lia].
  - unfold ipReach_encode in H. case_match; [done|]. apply bind_Ok in H as (sub & Hs & H).
    case_match; [done|]. exists sub. split; [done|lia].
Qed.

Lemma prefix_step_rt (v6 : bool) (e : prefixReachEntry) (out rest : bytes) :
  prefixReach_ok v6 e -> prefix_encode v6 e = Ok out ->
  bytes_ok out /\ out <> [] /\ prefix_step v6 (out ++ rest) = Ok (e, rest).
Proof.
  intros Hok He. destruct (prefix_encode_inv v6 e out He) as (sub & Hs & Hl).
  destruct (prefix_encode_Ok v6 e sub Hok Hs Hl) as (hd & full & Ha & Hsig & He' & Hlh & Hbh & Hh).
  rewrite He in He'. injection He' as ->.
  destruct e as [m d x [a bits] subs]. destruct Hok as (_ & _ & _ & Hsubs). simpl in *. subst a.
  destruct (sig_ok_take _ _ _ Hsig) as (Hls & Hbs & Hcopy). destruct Hsig as (_ & Hr & _).
  set (sig := take (sig_len bits) full) in *.
  destruct (prefix_subTLVs_rt (hd ++ sig) sub rest subs Hsubs Hs) as [Hbsub Hd].
  assert (Hbt : bytes_ok (reach_tail sub)).
  { unfold reach_tail. case_match; octets. }
  split; [octets|]. split; [destruct hd; [by destruct v6|done]|].
  unfold prefix_step. rewrite <- !app_assoc, Hh. cbn [mbind outcome_bind].
  rewrite (proj2 (Z.ltb_ge _ _)) by (rewrite maxBits_octets; lia).
  rewrite (proj2 (Nat.ltb_ge _ _)) by (rewrite !length_app; lia).
  rewrite <- app_assoc in Hd. rewrite length_app, Hlh, Hls in Hd.
  rewrite slice_Ok by (rewrite !length_app; lia). cbn [mbind outcome_bind].
  rewrite Hd. cbn [mbind outcome_bind].
  rewrite from_Ok by (rewrite !length_app; lia). cbn [mbind outcome_bind]. unfold mret, outcome_ret.
  assert (Hsig : take (headLen v6 + sig_len bits - headLen v6)
    (drop (headLen v6) (hd ++ sig ++ reach_tail sub ++ rest)) = sig).
  { rewrite drop_app_length' by done. rewrite take_app_length' by lia. done. }
  assert (Hrest : drop (headLen v6 + sig_len bits + length (reach_tail sub))
    (hd ++ sig ++ reach_tail sub ++ rest) = rest).
  { rewrite !app_assoc, drop_app_length'; [done|]. rewrite !length_app. lia. }
  rewrite Hsig, Hrest. unfold unpackPrefix. unfold addr_octets in *.
  by destruct v6; rewrite Hcopy, PrefixFrom_valid by (simpl; lia || done).
Qed.

Lemma prefix_step_fix (v6 : bool) (b : bytes) (e : prefixReachEntry) (rest : bytes) :
  bytes_ok b -> prefix_step v6 b = Ok (e, rest) ->
  bytes_ok rest /\ prefixReach_ok v6 e /\
  exists out, prefix_encode v6 e = Ok out /\ (length out + length rest <= length b)%nat.
Proof.
  intros Hb H.
  destruct (prefix_step_inv v6 b e rest H) as
    (d & x & s & bits & off & Hh & Hmax & Hlen & Hsub & Hoff & Hd & Hx & Hp & ->).
  destruct (prefix_head_long v6 b ltac:(lia)) as (m' & d' & x' & s' & bits' & Hh' & Hx' & Hm').
  rewrite Hh in Hh'. injection Hh' as <- <- <- <- <-. destruct (Hm' Hb) as [Hm Hbits].
  rewrite maxBits_octets in Hmax.
  set (sig := take (sig_len bits) (drop (headLen v6) b)) in *.
  assert (Hlsig : length sig = sig_len bits).
  { subst sig. rewrite length_take, length_drop. lia. }
  assert (Hbsig : bytes_ok sig) by (subst sig; octets).
  destruct (sig_ok_copy (addr_octets v6) sig bits Hbsig ltac:(lia) Hlsig) as [Hsok Htake].
  destruct (prefix_subTLVs_fix b (headLen v6 + sig_len bits) off s (pr_subTLVs e))
    as (Hsubs & sub & Hs & Hbs & Hls & Hlt); [done|lia|done|].
  assert (Hpv : pr_prefix e = mkPrefix (addr_of v6 (copy_into (addr_octets v6) sig)) bits).
  { rewrite Hp. unfold unpackPrefix. destruct v6; rewrite PrefixFrom_valid; done || simpl in *; lia. }
  assert (Hok : prefixReach_ok v6 e).
  { split; [done|]. split; [intros Hv; rewrite Hx; auto|]. split; [|done].
    apply prefix_ok_inv. rewrite Hpv. eexists. split; [done|]. done. }
  split; [octets|]. split; [done|].
  destruct (prefix_encode_Ok v6 e sub Hok Hs Hls) as (hd & full & Ha & Hsig & He & Hlh & _).
  eexists. split; [exact He|]. destruct (sig_ok_take _ _ _ Hsig) as (Hlt' & _).
  rewrite !length_app, Hlt', Hlh, Hpv, length_drop. cbn [p_bits]. lia.
Qed.

#[export] Instance prefix_stream (v6 : bool) :
  Stream (prefix_encode v6) (prefix_step v6) (prefixReach_ok v6) anywhere.
Proof.
  split.
  - intros b _ _. apply prefix_step_nopanic.
  - intros b e rest H. destruct (prefix_step_inv v6 b e rest H) as
      (d & x & s & bits & off & _ & _ & _ & _ & Hoff & _ & _ & _ & ->).
    rewrite length_drop. destruct v6; unfold headLen in Hoff; lia.
  - done.
  - intros e out rest. apply prefix_step_rt.
  - intros b e rest. apply prefix_step_fix.
Qed.

#[export] Instance ipReach_value :
  Value serializeIPReachEntries decodeIPReachEntries (Forall IPReach_ok).
Proof.
  split.
  - intros v. apply bind_Panic; [by apply loop_nopanic|done].
  - intros es v Hok Hv.
    set (f := fun e => mkPrefixReach (IP_Metric e) (IP_Down e) false (IP_Prefix e) (IP_SubTLVs e)).
    assert (Hmap : map ip_entry (map f es) = es).
    { rewrite map_map. rewrite <- (map_id es) at 2. apply map_ext. by intros []. }
    rewrite <- Hmap in Hv. unfold serializeIPReachEntries in Hv. rewrite concatM_map in Hv.
    change (concatM (prefix_encode false) (map f es) = Ok v) in Hv.
    destruct (loop_rt (step := prefix_step false) (map f es) v) as [Hb Hd]; [|done|].
    { apply Forall_map. eapply Forall_impl; [exact Hok|]. intros e (H1 & H2 & H3). done. }
    split; [done|]. unfold decodeIPReachEntries, decodePrefixReach. rewrite Hd. simpl. by rewrite Hmap.
  - intros v es Hb _ H. apply bind_Ok in H as (ps & Hd & [= <-]).
    destruct (loop_fix v ps Hb Hd) as (Hok & e & He & Hle). split.
    + apply Forall_map. eapply Forall_impl; [exact Hok|]. intros p (H1 & _ & H3 & H4). done.
    + exists e. split; [|done]. unfold serializeIPReachEntries. by rewrite concatM_map.
Qed.

#[export] Instance ip6Reach_value :
  Value serializeIPv6ReachEntries decodeIPv6ReachEntries (Forall IPv6Reach_ok).
Proof.
  split.
  - intros v. apply bind_Panic; [by apply loop_nopanic|done].
  - intros es v Hok Hv.
    set (f := fun e => mkPrefixReach (IP6_Metric e) (IP6_Down e) (IP6_External e) (IP6_Prefix e)
                         (IP6_SubTLVs e)).
    assert (Hmap : map ip6_entry (map f es) = es).
    { rewrite map_map. rewrite <- (map_id es) at 2. apply map_ext. by intros []. }
    rewrite <- Hmap in Hv. unfold serializeIPv6ReachEntries in Hv. rewrite concatM_map in Hv.
    change (concatM (prefix_encode true) (map f es) = Ok v) in Hv.
    destruct (loop_rt (step := prefix_step true) (map f es) v) as [Hb Hd]; [|done|].
    { apply Forall_map. eapply Forall_impl; [exact Hok|]. intros e (H1 & H2 & H3). done. }
    split; [done|]. unfold decodeIPv6ReachEntries, decodePrefixReach. rewrite Hd. simpl. by rewrite Hmap.
  - intros v es Hb _ H. apply bind_Ok in H as (ps & Hd & [= <-]).
    destruct (loop_fix v ps Hb Hd) as (Hok & e & He & Hle). split.
    + apply Forall_map. eapply Forall_impl; [exact Hok|]. intros p (H1 & _ & H3 & H4). done.
    + exists e. split; [|done]. unfold serializeIPv6ReachEntries. by rewrite concatM_map.
Qed.
