(* ===== verification/Locator.v ===== *)
(** pkg/packet/tlv_srv6.go: the SRv6 locator entry: its prefix, its End SIDs and
    the sub-TLVs it preserves, with the laws of its codec. *)

From S2P Require Import Prelude.
From S2P Require Import Codec.
From S2P Require Import Framing.
From S2P Require Import Netip.
From S2P Require Import Ids.
From S2P Require Import Sid.
From S2P Require Import SubTLV.
From S2P Require Import Entries.
Local Open Scope Z_scope.

Record SRv6Locator : Set := mkLocator {
  Loc_Metric : Z;
  Loc_Flags : Z;
  Loc_Algorithm : Z;
  Loc_Locator : Prefix;
  Loc_EndSIDs : list SRv6EndSID;
  Loc_Unknown : list UnknownSubTLV
}.

(** One End SID wrapped as a sub-TLV. *)
Definition endSID_encode (e : SRv6EndSID) : outcome bytes :=
  enc ← SRv6EndSID_encode e; encodeSubTLV subTLVSRv6EndSID enc.

(** The body of the loop of [SRv6LocatorTLV.Serialize]. *)
Definition locator_encode (l : SRv6Locator) : outcome bytes :=
  let p := Loc_Locator l in
  if negb (Is6 (p_addr p)) then Err errBadTLV else
  if (p_bits p <? 0) || (128 <? p_bits p) then Err errBadTLV else
  sub1 ← concatM endSID_encode (Loc_EndSIDs l);
  sub2 ← concatM UnknownSubTLV_Serialize (Loc_Unknown l);
  let sub := sub1 ++ sub2 in
  if (255 <? length sub)%nat then Err ErrTooLong else
  sig ← slice (As16 (p_addr p)) 0 (sig_len (p_bits p));
  mret (put32 (Loc_Metric l) ++ [Loc_Flags l; Loc_Algorithm l; p_bits p] ++ sig ++
        [Z.of_nat (length sub)] ++ sub).

(** One sub-TLV of a locator: an End SID or anything else, preserved. *)
Definition locator_sub (t : Z) (v : bytes) : outcome (SRv6EndSID + UnknownSubTLV) :=
  if t =? subTLVSRv6EndSID then e ← decodeEndSID v; mret (inl e)
  else mret (inr (mkUnknown t v false)).

Definition lefts {A B} (xs : list (A + B)) : list A :=
  omap (fun x => match x with inl a => Some a | inr _ => None end) xs.
Definition rights {A B} (xs : list (A + B)) : list B :=
  omap (fun x => match x with inl _ => None | inr b => Some b end) xs.

(** The body of the loop of [decodeSRv6LocatorTLV]. *)
Definition locator_step (value : bytes) : outcome (SRv6Locator * bytes) :=
  if (length value <? 8)%nat then Err ErrTruncated else
  m0 ← idx value 0; m1 ← idx value 1; m2 ← idx value 2; m3 ← idx value 3;
  flags ← idx value 4;
  algorithm ← idx value 5;
  bits ← idx value 6;
  if 128 <? bits then Err errBadTLV else
  let off := (7 + sig_len bits)%nat in
  if (length value <? off + 1)%nat then Err ErrTruncated else
  sig ← slice value 7 off;
  let prefix := Masked (PrefixFrom (Addr6 (copy_into 16 sig)) bits) in
  l ← idx value off;
  let off := S off in
  let subLen := Z.to_nat l in
  if (length value <? off + subLen)%nat then Err ErrTruncated else
  sub ← slice value off (off + subLen);
  subs ← loop (framed locator_sub) sub;
  rest ← from value (off + subLen);
  mret (mkLocator (join32 m0 m1 m2 m3) flags algorithm prefix (lefts subs) (rights subs), rest).

(** ** The sub-TLVs of a locator *)

Definition locator_sub_encode (x : SRv6EndSID + UnknownSubTLV) : outcome bytes :=
  match x with inl e => endSID_encode e | inr u => UnknownSubTLV_Serialize u end.

Definition loc_unknown_ok (u : UnknownSubTLV) : Prop :=
  unknown_raw_ok u /\ SubTLVType u <> subTLVSRv6EndSID.

Definition locator_sub_ok (x : SRv6EndSID + UnknownSubTLV) : Prop :=
  match x with inl e => EndSID_ok e | inr u => loc_unknown_ok u end.

Definition locator_sub_hdr (x : SRv6EndSID + UnknownSubTLV) : outcome (Z * bytes) :=
  match x with
  | inl e => v ← SRv6EndSID_encode e; mret (subTLVSRv6EndSID, v)
  | inr u => mret (SubTLVType u, UnknownValue u)
  end.

Lemma locator_sub_framed (x : SRv6EndSID + UnknownSubTLV) :
  locator_sub_encode x = encode_framed locator_sub_hdr x.
Proof.
  destruct x as [e|u]; [|done]. unfold encode_framed. simpl. unfold endSID_encode.
  by destruct (SRv6EndSID_encode e).
Qed.

#[export] Instance locator_subs :
  Stream (encode_framed locator_sub_hdr) (framed locator_sub) locator_sub_ok anywhere.
Proof.
  apply framed_stream.
  - intros t v. unfold locator_sub. case_match; [|done]. apply bind_Panic; [|done].
    apply (value_nopanic (Value := EndSID_value)).
  - intros [e|u] t v Hok Hh.
    + apply bind_Ok in Hh as (v' & He & [= <- <-]).
      destruct (value_rt (Value := EndSID_value) e v' Hok He) as [Hb Hd].
      split; [done|]. split; [done|]. unfold locator_sub. rewrite Z.eqb_refl, Hd. done.
    + injection Hh as <- <-. destruct Hok as ((Ht & Hv & Hr) & Hne). split; [done|]. split; [done|].
      unfold locator_sub. rewrite (proj2 (Z.eqb_neq _ _)) by done. destruct u. simpl in *. by subst.
  - intros t v x Ht Hv Hl H. unfold locator_sub in H. destruct (Z.eqb_spec t subTLVSRv6EndSID).
    + apply bind_Ok in H as (s & Hd & [= <-]).
      destruct (value_fix (Value := EndSID_value) v s Hv Hl Hd) as (Hok & o & Ho & Hle).
      split; [done|]. exists subTLVSRv6EndSID, o. simpl. by rewrite Ho.
    + injection H as <-. split; [done|]. by exists t, v.
Qed.

Lemma concatM_ext {A} (f g : A -> outcome bytes) (xs : list A) :
  (forall x, f x = g x) -> concatM f xs = concatM g xs.
Proof. intros H. induction xs as [|x xs IH]; simpl; [done|]. by rewrite H, IH. Qed.

(** Grouping the sub-TLVs keeps their octets. *)
Lemma concatM_partition {A B} (f : A -> outcome bytes) (g : B -> outcome bytes)
    (xs : list (A + B)) (v : bytes) :
  concatM (fun x => match x with inl a => f a | inr b => g b end) xs = Ok v ->
  exists v1 v2, concatM f (lefts xs) = Ok v1 /\ concatM g (rights xs) = Ok v2 /\
    (length v1 + length v2 = length v)%nat.
Proof.
  revert v. induction xs as [|x xs IH]; intros v H; [injection H as <-; by exists [], []|].
  apply bind_Ok in H as (e & He & H). apply bind_Ok in H as (es & Hes & [= <-]).
  destruct (IH es Hes) as (v1 & v2 & H1 & H2 & Hl). destruct x as [a|b].
  - exists (e ++ v1), v2. change (lefts (inl a :: xs)) with (a :: lefts xs).
    change (rights (inl a :: xs)) with (rights xs). simpl. rewrite He. simpl. rewrite H1. simpl.
    split; [done|]. split; [done|]. rewrite !length_app. lia.
  - exists v1, (e ++ v2). change (lefts (inr b :: xs)) with (lefts xs).
    change (rights (inr b :: xs)) with (b :: rights xs). simpl. rewrite He. simpl. rewrite H2. simpl.
    split; [done|]. split; [done|]. rewrite !length_app. lia.
Qed.

Lemma lefts_rights {A B} (xs : list A) (ys : list B) :
  lefts (map inl xs ++ map inr ys) = xs /\ rights (map inl xs ++ map inr ys) = ys.
Proof.
  assert (Hr : lefts (map (@inr A B) ys) = [] /\ rights (map (@inr A B) ys) = ys).
  { induction ys as [|y ys [IH1 IH2]]; [done|]. split; [exact IH1|].
    change (y :: rights (map (@inr A B) ys) = y :: ys). by rewrite IH2. }
  induction xs as [|x xs [IH1 IH2]]; [exact Hr|]. split; [|exact IH2].
  change (x :: lefts (map inl xs ++ map inr ys) = x :: xs). by rewrite IH1.
Qed.

Lemma lefts_ok {A B} (P : A -> Prop) (Q : B -> Prop) (xs : list (A + B)) :
  Forall (fun x => match x with inl a => P a | inr b => Q b end) xs ->
  Forall P (lefts xs) /\ Forall Q (rights xs).
Proof.
  induction 1 as [|[a|b] xs Hx Hxs [IH1 IH2]].
  - split; constructor.
  - split; [by constructor|done].
  - split; [done|by constructor].
Qed.

(** ** The entry *)

(** A masked IPv6 prefix. *)
Definition locator_prefix_ok (p : Prefix) : Prop :=
  exists full, p_addr p = Addr6 full /\ arr 16 full /\ 0 <= p_bits p <= 128 /\
    mask_bytes (p_bits p) full = full.

Definition Locator_ok (l : SRv6Locator) : Prop :=
  u32_ok (Loc_Metric l) /\ byte_ok (Loc_Flags l) /\ byte_ok (Loc_Algorithm l) /\
  locator_prefix_ok (Loc_Locator l) /\ Forall EndSID_ok (Loc_EndSIDs l) /\
  Forall loc_unknown_ok (Loc_Unknown l).

Lemma sig_len_nonpos (n : Z) : n <= 0 -> sig_len n = 0%nat.
Proof.
  unfold sig_len. intros H. assert ((n + 7) / 8 < 1) by (apply Z.div_lt_upper_bound; lia). lia.
Qed.

Lemma sig_len_pos (n : Z) : 0 < n -> sig_len n = S (sig_len (n - 8)).
Proof.
  unfold sig_len. intros H. replace (n + 7) with ((n - 8 + 7) + 1 * 8) by lia.
  rewrite Z.div_add by lia. pose proof (Z.div_pos (n - 8 + 7) 8 ltac:(lia) ltac:(lia)). lia.
Qed.

(** The octets past the prefix of a masked address are zero. *)
Lemma mask_bytes_drop (n : Z) (b : bytes) :
  drop (sig_len n) (mask_bytes n b) = replicate (length b - sig_len n) 0.
Proof.
  revert n. induction b as [|x b IH]; intros n.
  - simpl. by rewrite drop_nil.
  - destruct (Z.leb_spec n 0) as [Hn|Hn].
    + rewrite mask_bytes_nonpos, sig_len_nonpos by done. rewrite drop_0, Nat.sub_0_r. done.
    + rewrite sig_len_pos by done. cbn [mask_bytes drop length Nat.sub]. apply IH.
Qed.

Lemma locator_prefix_sig (p : Prefix) (full : bytes) :
  p_addr p = Addr6 full -> arr 16 full -> 0 <= p_bits p <= 128 ->
  mask_bytes (p_bits p) full = full -> sig_ok 16 full (p_bits p).
Proof.
  intros Ha [Hl Hb] Hr Hm. split; [done|]. split; [lia|]. rewrite <- Hm, mask_bytes_drop, Hl. done.
Qed.

Lemma Masked_6 (full : bytes) (bits : Z) :
  0 <= bits <= 128 ->
  Masked (PrefixFrom (Addr6 full) bits) = mkPrefix (Addr6 (mask_bytes bits full)) bits.
Proof.
  intros H. rewrite PrefixFrom_valid by (simpl; lia || done). unfold Masked. cbn [p_bits p_addr BitLen IsValid].
  by rewrite (proj2 (Z.ltb_ge bits 0)), (proj2 (Z.ltb_ge 128 bits)) by lia.
Qed.

Lemma locator_subs_encode (es : list SRv6EndSID) (us : list UnknownSubTLV) (s1 s2 : bytes) :
  concatM endSID_encode es = Ok s1 -> concatM UnknownSubTLV_Serialize us = Ok s2 ->
  concatM (encode_framed locator_sub_hdr) (map inl es ++ map inr us) = Ok (s1 ++ s2).
Proof.
  intros H1 H2. erewrite concatM_ext by (intros x; symmetry; apply locator_sub_framed).
  apply concatM_app; by rewrite concatM_map.
Qed.

Lemma locator_nopanic (b : bytes) : locator_step b <> Panic.
Proof.
  unfold locator_step. case_match eqn:E; [done|]. split_bytes 7 b. wire.
  case_match; [done|]. case_match eqn:E2; [done|]. cbn [Nat.add].
  rewrite slice_Ok by (simpl in *; lia). cbn [mbind outcome_bind]. apply bind_Panic.
  { apply idx_nopanic. simpl in *. lia. }
  intros l _. case_match eqn:E3; [done|]. rewrite slice_Ok by (simpl in *; lia). cbn [mbind outcome_bind].
  apply bind_Panic; [by apply loop_nopanic|]. intros subs _.
  rewrite from_Ok by (simpl in *; lia). done.
Qed.

(** What a successful step read. *)
Lemma locator_step_inv (b : bytes) (l : SRv6Locator) (rest : bytes) :
  bytes_ok b -> locator_step b = Ok (l, rest) ->
  exists bits sig sub subs,
    u32_ok (Loc_Metric l) /\ byte_ok (Loc_Flags l) /\ byte_ok (Loc_Algorithm l) /\
    0 <= bits <= 128 /\ length sig = sig_len bits /\ bytes_ok sig /\
    Loc_Locator l = Masked (PrefixFrom (Addr6 (copy_into 16 sig)) bits) /\
    bytes_ok sub /\ (length sub <= 255)%nat /\ loop (framed locator_sub) sub = Ok subs /\
    Loc_EndSIDs l = lefts subs /\ Loc_Unknown l = rights subs /\
    length b = (8 + sig_len bits + length sub + length rest)%nat /\ bytes_ok rest.
Proof.
  intros Hb H. unfold locator_step in H. case_match eqn:E; [done|]. split_bytes 7 b. wire in H.
  case_match; [done|]. case_match eqn:E2; [done|]. cbn [Nat.add] in H.
  apply bind_Ok in H as (sig & [Hs ->]%slice_inv & H).
  apply bind_Ok in H as (n & Hn%idx_Ok & H). pose proof (bytes_ok_lookup _ _ _ Hb Hn) as Hnb.
  case_match eqn:E3; [done|].
  apply bind_Ok in H as (sub & [Hsub ->]%slice_inv & H).
  apply bind_Ok in H as (subs & Hsubs & H).
  apply bind_Ok in H as (r & [Hr ->]%from_inv & [= <- <-]).
  pose proof (Hb) as Hb'. octets_in. unfold byte_ok in Hnb. 
  exists z5, (take (S (S (S (S (S (S (S (sig_len z5))))))) - 7) (drop 7 (z :: z0 :: z1 :: z2 :: z3 :: z4 :: z5 :: b))).
  eexists _, subs. cbn [Loc_Metric Loc_Flags Loc_Algorithm Loc_Locator Loc_EndSIDs Loc_Unknown].
  split; [octets|]. do 2 (split; [done|]). split; [unfold byte_ok in *; lia|].
  split; [rewrite length_take, length_drop; simpl in *; lia|]. split; [octets|]. split; [done|].
  split; [|split; [|split; [exact Hsubs|]]].
  - octets.
  - rewrite length_take, length_drop. simpl in *. lia.
  - do 2 (split; [done|]). split; [|octets].
    rewrite length_take, !length_drop. simpl in *. lia.
Qed.

Lemma locator_fix (b : bytes) (l : SRv6Locator) (rest : bytes) :
  bytes_ok b -> locator_step b = Ok (l, rest) ->
  bytes_ok rest /\ Locator_ok l /\
  exists e, locator_encode l = Ok e /\ (length e + length rest <= length b)%nat.
Proof.
  intros Hb H. destruct (locator_step_inv b l rest Hb H) as
    (bits & sig & sub & subs & Hm & Hf & Ha & Hr & Hls & Hbs & Hp & Hbsub & Hlsub & Hsubs & HE & HU &
     Hlen & Hrest).
  destruct (loop_fix sub subs Hbsub Hsubs) as (Hok & e & He & Hle).
  destruct (lefts_ok EndSID_ok loc_unknown_ok subs Hok) as [HokE HokU].
  assert (He' : concatM (fun x => match x with inl e => endSID_encode e
    | inr u => UnknownSubTLV_Serialize u end) subs = Ok e).
  { rewrite <- He. apply concatM_ext. apply locator_sub_framed. }
  destruct (concatM_partition _ _ _ _ He') as (v1 & v2 & H1 & H2 & Hl12).
  rewrite Masked_6 in Hp by done.
  destruct (sig_ok_copy 16 sig bits Hbs ltac:(lia) Hls) as [((Hlf & Hbf) & _) _].
  assert (Hlm : length (mask_bytes bits (copy_into 16 sig)) = 16%nat) by by rewrite length_mask_bytes.
  pose proof (sig_len_le bits 16 ltac:(lia)) as Hsl.
  split; [done|]. split.
  - split; [done|]. do 2 (split; [done|]). rewrite HE, HU. split; [|done].
    exists (mask_bytes bits (copy_into 16 sig)). rewrite Hp. split; [done|].
    split; [split; [done|by apply mask_bytes_ok]|]. split; [done|]. apply mask_bytes_idem.
  - unfold locator_encode. rewrite Hp, HE, HU. cbn [p_addr p_bits Is6 negb As16].
    rewrite (proj2 (Z.ltb_ge bits 0)), (proj2 (Z.ltb_ge 128 bits)) by lia. cbn [orb].
    rewrite H1, H2. cbn [mbind outcome_bind].
    rewrite (proj2 (Nat.ltb_ge _ _)) by (rewrite length_app; lia).
    rewrite slice_0 by lia. eexists. split; [reflexivity|].
    rewrite !length_app, length_take, Hlm. simpl. lia.
Qed.

Lemma locator_rt (l : SRv6Locator) (e rest : bytes) :
  Locator_ok l -> locator_encode l = Ok e ->
  bytes_ok e /\ e <> [] /\ locator_step (e ++ rest) = Ok (l, rest).
Proof.
  destruct l as [m fl al [a bits] es us].
  intros (Hm & Hf & Ha & (full & Hpa & Hfull & Hr & Hmask) & HE & HU) H.
  pose proof (locator_prefix_sig _ full Hpa Hfull Hr Hmask) as Hsig.
  cbn [Loc_Metric Loc_Flags Loc_Algorithm Loc_Locator Loc_EndSIDs Loc_Unknown p_addr p_bits] in *.
  subst a. destruct (sig_ok_take _ _ _ Hsig) as (Hls & Hbs & Hcopy).
  pose proof (sig_len_le bits 16 ltac:(lia)) as Hsl. destruct Hfull as [Hlf Hbf].
  unfold locator_encode in H.
  cbn [Loc_Metric Loc_Flags Loc_Algorithm Loc_Locator Loc_EndSIDs Loc_Unknown p_addr p_bits Is6
    negb As16] in H.
  rewrite (proj2 (Z.ltb_ge bits 0)), (proj2 (Z.ltb_ge 128 bits)) in H by lia. cbn [orb] in H.
  apply bind_Ok in H as (s1 & H1 & H). apply bind_Ok in H as (s2 & H2 & H).
  case_match eqn:Elen; [done|]. rewrite slice_0 in H by lia. injection H as <-.
  set (sig := take (sig_len bits) full) in *.
  destruct (loop_rt (map inl es ++ map inr us) (s1 ++ s2)) as [Hbsub Hd].
  { apply Forall_app. split; apply Forall_map; done. }
  { by apply locator_subs_encode. }
  set (sub := s1 ++ s2) in *.
  split; [octets|]. split; [done|].
  unfold locator_step. case_match eqn:E; [simpl in E; rewrite !length_app in E; simpl in E; lia|].
  cbn [put32 app]. rewrite <- !app_assoc. wire.
  rewrite (proj2 (Z.ltb_ge 128 bits)) by lia. cbn [app].
  case_match eqn:E2; [simpl in E2; rewrite !length_app in E2; simpl in E2; lia|].
  rewrite slice_Ok by (simpl; rewrite !length_app; simpl; lia).
  cbn [mbind outcome_bind]. cbn [Nat.add drop].
  assert (Hsg : take (S (S (S (S (S (S (S (sig_len bits))))))) - 7)
    (drop 0 (sig ++ Z.of_nat (length sub) :: sub ++ rest)) = sig).
  { rewrite drop_0. rewrite take_app_length'; [done|lia]. }
  rewrite Hsg. wire. unfold idx. rewrite lookup_app_r by lia. rewrite Hls, Nat.sub_diag.
  cbn [lookup list_lookup mbind outcome_bind]. rewrite Nat2Z.id.
  case_match eqn:E3; [simpl in E3; rewrite !length_app in E3; simpl in E3; rewrite length_app in E3; lia|].
  wire. rewrite slice_Ok, from_Ok by (rewrite length_app; simpl; rewrite length_app; lia).
  cbn [mbind outcome_bind].
  assert (Hdrop : drop (S (sig_len bits)) (sig ++ Z.of_nat (length sub) :: sub ++ rest) = sub ++ rest).
  { rewrite <- Hls. replace (S (length sig)) with (length sig + 1)%nat by lia.
    rewrite <- drop_drop, drop_app_length. done. }
  change (S (sig_len bits + length sub)) with (S (sig_len bits) + length sub)%nat.
  rewrite <- drop_drop, Hdrop, drop_app_length, take_app_length' by lia.
  rewrite Hd. cbn [mbind outcome_bind]. destruct (lefts_rights es us) as [-> ->].
  rewrite join32_put, Hcopy, Masked_6, Hmask by done. done.
Qed.

#[export] Instance locator_stream : Stream locator_encode locator_step Locator_ok anywhere.
Proof.
  split.
  - intros b _ _. apply locator_nopanic.
  - intros b l rest H. unfold locator_step in H. case_match eqn:E; [done|]. ok_inv H. subst.
    match goal with E : from _ _ = Ok _ |- _ => apply from_inv in E as [? ->] end.
    rewrite length_drop. lia.
  - done.
  - apply locator_rt.
  - apply locator_fix.
Qed.
