(* ===== verification/Tlv.v ===== *)
(** pkg/packet/tlv.go and the TLV types of tlv_*.go: the TLV values, the decoder
    registry, and the TLV area codec every PDU body shares. *)

From S2P Require Import Prelude.
From S2P Require Import Codec.
From S2P Require Import Framing.
From S2P Require Import Netip.
From S2P Require Import Ids.
From S2P Require Import Sid.
From S2P Require Import SubTLV.
From S2P Require Import Entries.
From S2P Require Import Locator.
Local Open Scope Z_scope.

(** [type TLVType uint8] *)
Definition TLVTypeAreaAddresses : Z := 1.
Definition TLVTypeISNeighbors : Z := 6.
Definition TLVTypePadding : Z := 8.
Definition TLVTypeLSPEntries : Z := 9.
Definition TLVTypeAuthentication : Z := 10.
Definition TLVTypePurgeOriginatorID : Z := 13.
Definition TLVTypeExtendedISReachability : Z := 22.
Definition TLVTypeSRv6Locator : Z := 27.
Definition TLVTypeProtocolsSupported : Z := 129.
Definition TLVTypeIPInterfaceAddresses : Z := 132.
Definition TLVTypeExtendedIPReachability : Z := 135.
Definition TLVTypeDynamicHostname : Z := 137.
Definition TLVTypeRestart : Z := 211.
Definition TLVTypeMTISReachability : Z := 222.
Definition TLVTypeMTopologies : Z := 229.
Definition TLVTypeIPv6InterfaceAddresses : Z := 232.
Definition TLVTypeMTIPReachability : Z := 235.
Definition TLVTypeIPv6Reachability : Z := 236.
Definition TLVTypeMTIPv6Reachability : Z := 237.
Definition TLVTypeP2PThreeWayAdjacency : Z := 240.
Definition TLVTypeRouterCapability : Z := 242.

Definition AuthTypeCleartext : Z := 1.
Definition AuthTypeGeneric : Z := 3.
Definition AuthTypeHMACMD5 : Z := 54.

Definition NLPIDIPv4 : Z := 204.
Definition NLPIDIPv6 : Z := 142.
Definition MTIDStandard : Z := 0.
Definition MTIDIPv6Unicast : Z := 2.

Definition P2PAdjStateUp : Z := 0.
Definition P2PAdjStateInitializing : Z := 1.
Definition P2PAdjStateDown : Z := 2.

Definition restartFlagRR : Z := 1.
Definition restartFlagRA : Z := 2.
Definition restartFlagSA : Z := 4.

Definition routerCapFlagSBit : Z := 1.

Record Authentication : Set := mkAuthentication { AuthType : Z; AuthValue : list Z }.

Record P2PThreeWayAdjacency : Set := mkP2PAdj {
  Adj_State : Z;
  Adj_HasLocal : bool;
  Adj_ExtLocalCircuitID : Z;
  Adj_HasNeighbor : bool;
  Adj_NeighborSystemID : list Z;
  Adj_NeighborExtLocalCircuitID : Z
}.

Record Restart : Set := mkRestart {
  RestartRequest : bool;
  RestartAck : bool;
  SuppressAdjacency : bool;
  HasRemaining : bool;
  RestartRemainingTime : Z;
  HasNeighbor : bool;
  RestartNeighborSystemID : list Z
}.

Record RouterCapability : Set := mkRouterCapability {
  RouterID : Addr; RouterCap_Flags : Z; RouterCap_SubTLVs : list SubTLV
}.

(** The types that implement the [TLV] interface. *)
Inductive TLV : Set :=
  | UnknownTLV (TLVType : Z) (Value : list Z)
  | AreaAddressesTLV (Addresses : list (list Z))
  | ISNeighborsTLV (Neighbors : list (list Z))
  | PaddingTLV (Length : Z)
  | LSPEntriesTLV (Entries : list LSPEntry)
  | AuthenticationTLV (a : Authentication)
  | ExtendedISReachabilityTLV (Neighbors : list ExtendedISReachEntry)
  | SRv6LocatorTLV (m : Z * list SRv6Locator)
  | ProtocolsSupportedTLV (NLPIDs : list Z)
  | IPInterfaceAddressesTLV (Addresses : list Addr)
  | IPv6InterfaceAddressesTLV (Addresses : list Addr)
  | ExtendedIPReachabilityTLV (Prefixes : list ExtendedIPReachEntry)
  | IPv6ReachabilityTLV (Prefixes : list IPv6ReachEntry)
  | DynamicHostnameTLV (Hostname : list Z)
  | RestartTLV (r : Restart)
  | MTISReachabilityTLV (m : Z * list ExtendedISReachEntry)
  | MTopologiesTLV (Topologies : list MTopologyEntry)
  | MTIPReachabilityTLV (m : Z * list ExtendedIPReachEntry)
  | MTIPv6ReachabilityTLV (m : Z * list IPv6ReachEntry)
  | P2PThreeWayAdjacencyTLV (a : P2PThreeWayAdjacency)
  | RouterCapabilityTLV (r : RouterCapability).

Definition TLV_Type (t : TLV) : Z :=
  match t with
  | UnknownTLV ty _ => ty
  | AreaAddressesTLV _ => TLVTypeAreaAddresses
  | ISNeighborsTLV _ => TLVTypeISNeighbors
  | PaddingTLV _ => TLVTypePadding
  | LSPEntriesTLV _ => TLVTypeLSPEntries
  | AuthenticationTLV _ => TLVTypeAuthentication
  | ExtendedISReachabilityTLV _ => TLVTypeExtendedISReachability
  | SRv6LocatorTLV _ => TLVTypeSRv6Locator
  | ProtocolsSupportedTLV _ => TLVTypeProtocolsSupported
  | IPInterfaceAddressesTLV _ => TLVTypeIPInterfaceAddresses
  | IPv6InterfaceAddressesTLV _ => TLVTypeIPv6InterfaceAddresses
  | ExtendedIPReachabilityTLV _ => TLVTypeExtendedIPReachability
  | IPv6ReachabilityTLV _ => TLVTypeIPv6Reachability
  | DynamicHostnameTLV _ => TLVTypeDynamicHostname
  | RestartTLV _ => TLVTypeRestart
  | MTISReachabilityTLV _ => TLVTypeMTISReachability
  | MTopologiesTLV _ => TLVTypeMTopologies
  | MTIPReachabilityTLV _ => TLVTypeMTIPReachability
  | MTIPv6ReachabilityTLV _ => TLVTypeMTIPv6Reachability
  | P2PThreeWayAdjacencyTLV _ => TLVTypeP2PThreeWayAdjacency
  | RouterCapabilityTLV _ => TLVTypeRouterCapability
  end.

(** ** The value of each type: what its [Serialize] hands to [encodeTLV], and
    what its decoder reads *)

Definition AreaAddresses_value : list bytes -> outcome bytes := concatM area_encode.
Definition decodeAreaAddresses (value : bytes) : outcome (list bytes) := loop area_step value.

Definition ISNeighbors_value : list SNPA -> outcome bytes := concatM snpa_encode.
Definition decodeISNeighbors (value : bytes) : outcome (list SNPA) := loop_chunks 6 snpa_step value.

Definition Padding_value (n : Z) : outcome bytes :=
  if (n <? 0) || (255 <? n) then Err ErrTooLong else mret (replicate (Z.to_nat n) 0).
Definition decodePadding (value : bytes) : outcome Z := mret (Z.of_nat (length value)).

Definition LSPEntries_value (es : list LSPEntry) : outcome bytes :=
  if (MaxLSPEntriesPerTLV <? length es)%nat then Err ErrTooLong
  else concatM lspEntry_encode es.
Definition decodeLSPEntries (value : bytes) : outcome (list LSPEntry) :=
  loop_chunks lspEntrySize lspEntry_step value.

Definition Authentication_value (a : Authentication) : outcome bytes :=
  mret (AuthType a :: AuthValue a).
Definition decodeAuthentication (value : bytes) : outcome Authentication :=
  if (length value <? 1)%nat then Err ErrTruncated else
  t ← idx value 0; v ← from value 1; mret (mkAuthentication t v).

Definition ProtocolsSupported_value (nlpids : bytes) : outcome bytes := mret nlpids.
Definition decodeProtocolsSupported (value : bytes) : outcome bytes := mret value.

Definition DynamicHostname_value (h : bytes) : outcome bytes :=
  if (length h <? 1)%nat then Err errBadTLV else mret h.
Definition decodeDynamicHostname (value : bytes) : outcome bytes :=
  if (length value <? 1)%nat then Err ErrTruncated else mret value.

(** [encodeMTID] and [decodeMTID]. *)
Definition encodeMTID (mtid : Z) : bytes := [mtid_hi mtid; u8 mtid].
Definition decodeMTID (value : bytes) : outcome (Z * bytes) :=
  if (length value <? mtIDLen)%nat then Err ErrTruncated else
  hi ← idx value 0; lo ← idx value 1; rest ← from value mtIDLen;
  mret (mtid_join hi lo, rest).

(** A value behind a multi-topology identifier. *)
Definition mt_value {A} (enc : A -> outcome bytes) (m : Z * A) : outcome bytes :=
  e ← enc m.2; mret (encodeMTID m.1 ++ e).
Definition mt_decode {A} (dec : bytes -> outcome A) (value : bytes) : outcome (Z * A) :=
  '(mtid, rest) ← decodeMTID value; a ← dec rest; mret (mtid, a).

Definition SRv6Locator_value : Z * list SRv6Locator -> outcome bytes :=
  mt_value (concatM locator_encode).
Definition decodeSRv6Locator : bytes -> outcome (Z * list SRv6Locator) :=
  mt_decode (loop locator_step).

Definition Restart_value (r : Restart) : outcome bytes :=
  if HasNeighbor r && negb (HasRemaining r) then Err errBadTLV else
  let flags := flag_if (RestartRequest r) restartFlagRR in
  let flags := Z.lor flags (flag_if (RestartAck r) restartFlagRA) in
  let flags := Z.lor flags (flag_if (SuppressAdjacency r) restartFlagSA) in
  mret ([flags] ++ (if HasRemaining r then put16 (RestartRemainingTime r) else [])
                ++ (if HasNeighbor r then RestartNeighborSystemID r else [])).

Definition decodeRestart (value : bytes) : outcome Restart :=
  let n := length value in
  if negb ((n =? 1)%nat || (n =? 3)%nat || (n =? 3 + systemIDLen)%nat) then Err errBadTLV else
  f ← idx value 0;
  '(hasRem, rem) ← (if (3 <=? n)%nat then s ← slice value 1 3; t ← be16 s; mret (true, t)
                    else mret (false, 0));
  '(hasNbr, nbr) ← (if (3 <? n)%nat then s ← from value 3; id ← array 6 s; mret (true, id)
                    else mret (false, replicate 6 0));
  mret (mkRestart (flag f restartFlagRR) (flag f restartFlagRA) (flag f restartFlagSA)
          hasRem rem hasNbr nbr).

Definition P2PAdj_value (a : P2PThreeWayAdjacency) : outcome bytes :=
  if Adj_HasNeighbor a && negb (Adj_HasLocal a) then Err errBadTLV else
  mret ([Adj_State a]
        ++ (if Adj_HasLocal a then put32 (Adj_ExtLocalCircuitID a) else [])
        ++ (if Adj_HasNeighbor a
            then Adj_NeighborSystemID a ++ put32 (Adj_NeighborExtLocalCircuitID a) else [])).

Definition decodeP2PAdj (value : bytes) : outcome P2PThreeWayAdjacency :=
  let n := length value in
  if negb ((n =? 1)%nat || (n =? 5)%nat || (n =? 15)%nat) then Err errBadTLV else
  st ← idx value 0;
  '(hasLocal, local) ← (if (5 <=? n)%nat then s ← slice value 1 5; x ← be32 s; mret (true, x)
                        else mret (false, 0));
  '(hasNbr, nbr, nbrID) ←
    (if (n =? 15)%nat then
       s ← slice value 5 11; id ← array 6 s;
       s ← slice value 11 15; x ← be32 s;
       mret (true, id, x)
     else mret (false, replicate 6 0, 0));
  mret (mkP2PAdj st hasLocal local hasNbr nbr nbrID).

Definition RouterCapability_value (r : RouterCapability) : outcome bytes :=
  rid ← (if Is4 (RouterID r) then As4 (RouterID r) else mret (replicate 4 0));
  sub ← serializeSubTLVs (RouterCap_SubTLVs r);
  mret (rid ++ [RouterCap_Flags r] ++ sub).

Definition decodeRouterCapability (value : bytes) : outcome RouterCapability :=
  if (length value <? 5)%nat then Err ErrTruncated else
  s ← slice value 0 4; rid ← array 4 s;
  fl ← idx value 4;
  rest ← from value 5;
  subs ← decodeSubTLVs SubTLVContextRouterCapability rest;
  mret (mkRouterCapability (Addr4 rid) fl subs).

(** ** The TLV area *)

Definition TLV_value (t : TLV) : outcome bytes :=
  match t with
  | UnknownTLV _ v => mret v
  | AreaAddressesTLV xs => AreaAddresses_value xs
  | ISNeighborsTLV xs => ISNeighbors_value xs
  | PaddingTLV n => Padding_value n
  | LSPEntriesTLV es => LSPEntries_value es
  | AuthenticationTLV a => Authentication_value a
  | ExtendedISReachabilityTLV ns => serializeISReachEntries ns
  | SRv6LocatorTLV m => SRv6Locator_value m
  | ProtocolsSupportedTLV v => ProtocolsSupported_value v
  | IPInterfaceAddressesTLV xs => concatM ip4_encode xs
  | IPv6InterfaceAddressesTLV xs => concatM ip6_encode xs
  | ExtendedIPReachabilityTLV ps => serializeIPReachEntries ps
  | IPv6ReachabilityTLV ps => serializeIPv6ReachEntries ps
  | DynamicHostnameTLV h => DynamicHostname_value h
  | RestartTLV r => Restart_value r
  | MTISReachabilityTLV m => mt_value serializeISReachEntries m
  | MTopologiesTLV ts => concatM mtopology_encode ts
  | MTIPReachabilityTLV m => mt_value serializeIPReachEntries m
  | MTIPv6ReachabilityTLV m => mt_value serializeIPv6ReachEntries m
  | P2PThreeWayAdjacencyTLV a => P2PAdj_value a
  | RouterCapabilityTLV r => RouterCapability_value r
  end.

Definition TLV_Serialize (t : TLV) : outcome bytes :=
  v ← TLV_value t; encodeTLV (TLV_Type t) v.

Definition serializeTLVs (tlvs : list TLV) : outcome bytes := concatM TLV_Serialize tlvs.
Definition MarshalTLVs (tlvs : list TLV) : outcome bytes := serializeTLVs tlvs.

Definition tlvDecoder : Type := bytes -> outcome TLV.

(** A decoder that builds its TLV from the value it read. *)
Definition building {A} (mk : A -> TLV) (dec : bytes -> outcome A) : tlvDecoder :=
  fun value => a ← dec value; mret (mk a).

(** [tlvDecoders] as the init functions leave it. *)
Definition tlvTable : list (Z * tlvDecoder) := [
  (TLVTypeAreaAddresses, building AreaAddressesTLV decodeAreaAddresses);
  (TLVTypeISNeighbors, building ISNeighborsTLV decodeISNeighbors);
  (TLVTypePadding, building PaddingTLV decodePadding);
  (TLVTypeLSPEntries, building LSPEntriesTLV decodeLSPEntries);
  (TLVTypeAuthentication, building AuthenticationTLV decodeAuthentication);
  (TLVTypeExtendedISReachability, building ExtendedISReachabilityTLV decodeISReachEntries);
  (TLVTypeSRv6Locator, building SRv6LocatorTLV decodeSRv6Locator);
  (TLVTypeProtocolsSupported, building ProtocolsSupportedTLV decodeProtocolsSupported);
  (TLVTypeIPInterfaceAddresses, building IPInterfaceAddressesTLV (loop_chunks ipv4AddrLen ip4_step));
  (TLVTypeIPv6InterfaceAddresses, building IPv6InterfaceAddressesTLV (loop_chunks ipv6AddrLen ip6_step));
  (TLVTypeExtendedIPReachability, building ExtendedIPReachabilityTLV decodeIPReachEntries);
  (TLVTypeIPv6Reachability, building IPv6ReachabilityTLV decodeIPv6ReachEntries);
  (TLVTypeDynamicHostname, building DynamicHostnameTLV decodeDynamicHostname);
  (TLVTypeRestart, building RestartTLV decodeRestart);
  (TLVTypeMTISReachability, building MTISReachabilityTLV (mt_decode decodeISReachEntries));
  (TLVTypeMTopologies, building MTopologiesTLV (loop_chunks mtIDLen mtopology_step));
  (TLVTypeMTIPReachability, building MTIPReachabilityTLV (mt_decode decodeIPReachEntries));
  (TLVTypeMTIPv6Reachability, building MTIPv6ReachabilityTLV (mt_decode decodeIPv6ReachEntries));
  (TLVTypeP2PThreeWayAdjacency, building P2PThreeWayAdjacencyTLV decodeP2PAdj);
  (TLVTypeRouterCapability, building RouterCapabilityTLV decodeRouterCapability)
].

Definition tlvDecoders (t : Z) : option tlvDecoder :=
  snd <$> List.find (fun e => e.1 =? t) tlvTable.

(** One turn of [decodeTLVs]: the registered decoder's error is the area's. *)
Definition decodeTLV (typ : Z) (value : bytes) : outcome TLV :=
  match tlvDecoders typ with
  | Some dec => dec value
  | None => mret (UnknownTLV typ value)
  end.

Definition decodeTLVs (b : bytes) : outcome (list TLV) := loop (framed decodeTLV) b.

(** subtlv.go: [RefusedSubTLV], the first sub-TLV a registered decoder refused. *)
Definition refusedInISReach (neighbors : list ExtendedISReachEntry) : option UnknownSubTLV :=
  first_found (fun n => refusedInSubTLVs (IR_SubTLVs n)) neighbors.
Definition RefusedSubTLV (tlvs : list TLV) : option UnknownSubTLV :=
  first_found (fun t =>
    match t with
    | ExtendedISReachabilityTLV ns => refusedInISReach ns
    | MTISReachabilityTLV m => refusedInISReach m.2
    | RouterCapabilityTLV r => refusedInSubTLVs (RouterCap_SubTLVs r)
    | _ => None
    end) tlvs.

(** ** Value codecs *)

#[export] Instance areas_value : Value AreaAddresses_value decodeAreaAddresses (Forall bytes_ok).
Proof. apply stream_value. Qed.

#[export] Instance isReaches_value :
  Value serializeISReachEntries decodeISReachEntries (Forall ISReach_ok).
Proof. apply stream_value. Qed.

#[export] Instance padding_value : Value Padding_value decodePadding (fun _ => True).
Proof.
  split; [done|..].
  - intros n v _ H. unfold Padding_value in H. case_match eqn:E; [done|]. injection H as <-.
    split; [apply bytes_ok_replicate|]. unfold decodePadding. rewrite length_replicate.
    unfold mret, outcome_ret. f_equal. lia.
  - intros v n _ Hl [= <-]. split; [done|]. unfold Padding_value.
    rewrite (proj2 (Z.ltb_ge _ 0)), (proj2 (Z.ltb_ge 255 _)) by lia. eexists. split; [done|].
    rewrite length_replicate. lia.
Qed.

Lemma concatM_length {A} (enc : A -> outcome bytes) (k : nat) (xs : list A) (v : bytes) :
  (forall a e, enc a = Ok e -> (k <= length e)%nat) -> concatM enc xs = Ok v ->
  (length xs * k <= length v)%nat.
Proof.
  intros Hk. revert v. induction xs as [|x xs IH]; intros v Hv; simpl; [lia|].
  apply bind_Ok in Hv as (e & He & Hv). apply bind_Ok in Hv as (es & Hes & [= <-]).
  rewrite length_app. apply Hk in He. apply IH in Hes. lia.
Qed.

#[export] Instance lspEntriesTLV_value :
  Value LSPEntries_value decodeLSPEntries (Forall LSPEntry_ok).
Proof.
  destruct lspEntries_value as [N R F]. split; [done|..].
  - intros es v Hok H. unfold LSPEntries_value in H. case_match; [done|]. by apply R.
  - intros v es Hb Hl H. destruct (F v es Hb Hl H) as (Hok & e & He & Hle). split; [done|].
    exists e. split; [|done]. unfold LSPEntries_value. case_match eqn:E; [|done]. exfalso.
    unfold decodeLSPEntries, loop_chunks in H.
    assert (Hc : forall xs v, loop lspEntry_step v = Ok xs -> (length xs * 16 <= length v)%nat).
    { clear. intros xs v. revert xs. induction v as [v IH] using bytes_ind_length. intros xs H.
      rewrite loop_unfold in H.
      2:{ intros b x rest Hs. unfold lspEntry_step in Hs. ok_inv Hs. subst.
          match goal with E : from _ _ = Ok _ |- _ => apply from_inv in E as [? ->] end.
          rewrite length_drop. unfold lspEntrySize in *. lia. }
      destruct v as [|x v]; [injection H as <-; simpl; lia|].
      apply bind_Ok in H as ([a rest] & Hs & H). apply bind_Ok in H as (out & Hout & [= <-]).
      unfold lspEntry_step in Hs. ok_inv Hs. subst.
      match goal with E : from _ _ = Ok _ |- _ => apply from_inv in E as [Hr ->] end.
      unfold lspEntrySize in *.
      apply IH in Hout; [|rewrite length_drop; simpl in *; lia].
      rewrite length_drop in Hout. simpl length in *. lia. }
    case_match; [done|]. apply Hc in H. change MaxLSPEntriesPerTLV with 15%nat in E. lia.
Qed.

Definition Authentication_ok (a : Authentication) : Prop :=
  byte_ok (AuthType a) /\ bytes_ok (AuthValue a).

#[export] Instance authentication_value :
  Value Authentication_value decodeAuthentication Authentication_ok.
Proof.
  split.
  - intros v. unfold decodeAuthentication. case_match eqn:E; [done|]. by split_bytes 1 v.
  - intros [t b] v [Ht Hb] [= <-]. simpl in *. split; [octets|].
    unfold decodeAuthentication. simpl. by rewrite drop_0.
  - intros v a Hb _ H. unfold decodeAuthentication in H. case_match eqn:E; [done|].
    split_bytes 1 v. wire in H. injection H as <-. octets_in. split; [done|]. by eexists.
Qed.

#[export] Instance protocols_value :
  Value ProtocolsSupported_value decodeProtocolsSupported bytes_ok.
Proof.
  split; [done|by intros a v Ha [= <-]|]. intros v a Hb _ [= <-]. split; [done|]. by exists v.
Qed.

#[export] Instance hostname_value : Value DynamicHostname_value decodeDynamicHostname bytes_ok.
Proof.
  split.
  - intros v. unfold decodeDynamicHostname. by case_match.
  - intros h v Hh H. unfold DynamicHostname_value in H. case_match eqn:E; [done|]. injection H as <-.
    unfold decodeDynamicHostname. by rewrite E.
  - intros v h Hb _ H. unfold decodeDynamicHostname in H. case_match eqn:E; [done|]. injection H as <-.
    split; [done|]. exists v. unfold DynamicHostname_value. by rewrite E.
Qed.

Lemma MTID_rt (m : Z) (rest : bytes) :
  mtid_ok m -> bytes_ok (encodeMTID m) /\ decodeMTID (encodeMTID m ++ rest) = Ok (m, rest).
Proof.
  intros Hm. pose proof (mtid_hi_eq m Hm) as Hh.
  assert (Hr : 0 <= mtid_hi m < 16) by apply land15_range.
  split; [unfold encodeMTID; octets|].
  unfold decodeMTID, encodeMTID, mtIDLen. simpl. rewrite drop_0. unfold mtid_join.
  replace (Z.land (mtid_hi m) 15) with (mtid_hi m).
  - by rewrite Hh, mtid_join_put.
  - symmetry. change 15 with (Z.ones 4). rewrite Z.land_ones by lia. by apply Z.mod_small.
Qed.

Section MT.
Context {A : Type} {enc : A -> outcome bytes} {dec : bytes -> outcome A} {wf : A -> Prop}
  `{V : !Value enc dec wf}.

#[export] Instance mt_codec :
  Value (mt_value enc) (mt_decode dec) (fun m => mtid_ok m.1 /\ wf m.2).
Proof using V.
  split.
  - intros v. unfold mt_decode, decodeMTID, mtIDLen. case_match eqn:E; [done|]. split_bytes 2 v.
    simpl. apply bind_Panic; [apply value_nopanic|done].
  - intros [m a] v [Hm Ha] H. apply bind_Ok in H as (e & He & [= <-]). simpl in *.
    destruct (value_rt a e Ha He) as [Hb Hd]. destruct (MTID_rt m e Hm) as [Hmb Hmd].
    split; [apply (bytes_ok_app (encodeMTID m)); done|]. change (mtid_hi m :: u8 m :: e) with (encodeMTID m ++ e). unfold mt_decode. rewrite Hmd. simpl. by rewrite Hd.
  - intros v [m a] Hb Hl H. unfold mt_decode, decodeMTID, mtIDLen in H. case_match eqn:E; [done|].
    split_bytes 2 v. simpl in H. rewrite drop_0 in H. apply bind_Ok in H as (a' & Hd & [= <- ->]).
    octets_in. simpl in Hl.
    destruct (value_fix v a) as (Hok & e & He & Hle); [done|lia|done|].
    split; [split; [by apply mtid_join_ok|done]|]. unfold mt_value. simpl. rewrite He.
    eexists. split; [done|]. simpl. lia.
Qed.
End MT.

Definition Restart_ok (r : Restart) : Prop :=
  (if HasRemaining r then u16_ok (RestartRemainingTime r) else RestartRemainingTime r = 0) /\
  (if HasNeighbor r then arr 6 (RestartNeighborSystemID r)
   else RestartNeighborSystemID r = replicate 6 0).

Lemma restart_flags (rr ra sa : bool) :
  let f := Z.lor (Z.lor (flag_if rr restartFlagRR) (flag_if ra restartFlagRA)) (flag_if sa restartFlagSA) in
  byte_ok f /\ flag f restartFlagRR = rr /\ flag f restartFlagRA = ra /\ flag f restartFlagSA = sa.
Proof. destruct rr, ra, sa; by vm_compute. Qed.

#[export] Instance restart_value : Value Restart_value decodeRestart Restart_ok.
Proof.
  split.
  - intros v. unfold decodeRestart. case_match eqn:E; [done|]. unfold systemIDLen in E.
    destruct v as [|a v]; [done|].
    destruct v as [|b [|c v]]; [done|done|]. do 6 (destruct v as [|? v]; [try done|]).
    destruct v; done.
  - intros [rr ra sa hr rem hn nbr] v [Hrem Hnbr] H. simpl in *. unfold Restart_value in H. simpl in H.
    destruct (restart_flags rr ra sa) as (Hf & H1 & H2 & H3). cbn zeta in *.
    remember (Z.lor _ _) as f eqn:Ef.
    destruct hr, hn; simpl in *; try done; injection H as <-.
    + destruct Hnbr as [Hl Hb]. split_bytes 6 nbr. destruct nbr; [|done].
      split; [octets|]. unfold decodeRestart. simpl. rewrite H1, H2, H3, join16_put by done. done.
    + subst nbr. split; [octets|]. unfold decodeRestart. simpl. by rewrite H1, H2, H3, join16_put.
    + subst nbr rem. split; [octets|]. unfold decodeRestart. simpl. by rewrite H1, H2, H3.
  - intros v r Hb Hl H. unfold decodeRestart in H. case_match eqn:E; [done|].
    destruct v as [|f v]; [done|].
    destruct v as [|b [|c v]]; [| done |].
    + simpl in H. injection H as <-. split; [done|]. by eexists.
    + destruct v as [|d v].
      * simpl in H. injection H as <-. octets_in. split; [split; simpl; [octets|done]|].
        by eexists.
      * do 5 (destruct v as [|? v]; [done|]). destruct v; [|done].
        simpl in H. injection H as <-. octets_in.
        split; [split; simpl; [octets|split; [done|octets]]|]. by eexists.
Qed.

Definition P2PAdj_ok (a : P2PThreeWayAdjacency) : Prop :=
  byte_ok (Adj_State a) /\
  (if Adj_HasLocal a then u32_ok (Adj_ExtLocalCircuitID a) else Adj_ExtLocalCircuitID a = 0) /\
  (if Adj_HasNeighbor a
   then arr 6 (Adj_NeighborSystemID a) /\ u32_ok (Adj_NeighborExtLocalCircuitID a)
   else Adj_NeighborSystemID a = replicate 6 0 /\ Adj_NeighborExtLocalCircuitID a = 0).

#[export] Instance p2pAdj_value : Value P2PAdj_value decodeP2PAdj P2PAdj_ok.
Proof.
  split.
  - intros v. unfold decodeP2PAdj. case_match eqn:E; [done|].
    destruct v as [|? v]; [done|]. destruct v as [|? v]; [done|].
    do 3 (destruct v as [|? v]; [done|]). destruct v as [|? v]; [done|].
    do 9 (destruct v as [|? v]; [done|]). by destruct v.
  - intros [st hl lc hn nbr nid] v (Hst & Hlc & Hnbr) H. simpl in *. unfold P2PAdj_value in H. simpl in H.
    destruct hl, hn; simpl in *; try done; injection H as <-.
    + destruct Hnbr as [[Hl Hb] Hid]. split_bytes 6 nbr. destruct nbr; [|done].
      split; [octets|]. unfold decodeP2PAdj. simpl. by rewrite !join32_put.
    + destruct Hnbr as [-> ->]. split; [octets|]. unfold decodeP2PAdj. simpl. by rewrite join32_put.
    + destruct Hnbr as [-> ->]. subst lc. split; [octets|]. done.
  - intros v a Hb Hl H. unfold decodeP2PAdj in H. case_match eqn:E; [done|].
    destruct v as [|st v]; [done|]. destruct v as [|? v].
    { simpl in H. injection H as <-. octets_in. split; [done|]. by eexists. }
    do 3 (destruct v as [|? v]; [done|]). destruct v as [|? v].
    { simpl in H. injection H as <-. octets_in. split; [split; [done|split; simpl; [octets|done]]|].
      by eexists. }
    do 9 (destruct v as [|? v]; [done|]). destruct v; [|done]. simpl in H. injection H as <-.
    octets_in. split; [split; [done|split; simpl; [octets|split; [split; [done|octets]|octets]]]|].
    by eexists.
Qed.

Definition RouterCapability_ok (r : RouterCapability) : Prop :=
  (exists b, RouterID r = Addr4 b /\ arr 4 b) /\ byte_ok (RouterCap_Flags r) /\
  Forall (sub_ok SubTLVContextRouterCapability) (RouterCap_SubTLVs r).

#[export] Instance routerCapability_value :
  Value RouterCapability_value decodeRouterCapability RouterCapability_ok.
Proof.
  split.
  - intros v. unfold decodeRouterCapability. case_match eqn:E; [done|]. split_bytes 5 v.
    simpl. apply bind_Panic; [apply (value_nopanic (Value := subTLVs_value _))|done].
  - intros [rid fl subs] v ((b & Hr & Hlb & Hb) & Hf & Hs) H. simpl in *. subst rid.
    unfold RouterCapability_value in H. simpl in H. apply bind_Ok in H as (sub & He & [= <-]).
    destruct (value_rt (Value := subTLVs_value _) subs sub Hs He) as [Hsb Hd].
    split_bytes 4 b. destruct b; [|done]. split; [octets|].
    unfold decodeRouterCapability. simpl. rewrite drop_0, Hd. done.
  - intros v r Hb Hl H. unfold decodeRouterCapability in H. case_match eqn:E; [done|].
    split_bytes 5 v. simpl in H. rewrite drop_0 in H. apply bind_Ok in H as (subs & Hd & [= <-]).
    octets_in. simpl in Hl.
    destruct (value_fix (Value := subTLVs_value SubTLVContextRouterCapability) v subs)
      as (Hok & e & He & Hle); [done|lia|done|].
    split; [split; [eexists; split; [done|]; split; [done|octets]|done]|].
    unfold RouterCapability_value. simpl. rewrite He. eexists. split; [done|]. simpl. lia.
Qed.

(** ** Canonical TLVs *)

Definition tlv_body_ok (t : TLV) : Prop :=
  match t with
  | UnknownTLV ty v => byte_ok ty /\ bytes_ok v /\ tlvDecoders ty = None
  | AreaAddressesTLV xs => Forall bytes_ok xs
  | ISNeighborsTLV xs => Forall (arr 6) xs
  | PaddingTLV _ => True
  | LSPEntriesTLV es => Forall LSPEntry_ok es
  | AuthenticationTLV a => Authentication_ok a
  | ExtendedISReachabilityTLV ns => Forall ISReach_ok ns
  | SRv6LocatorTLV m => mtid_ok m.1 /\ Forall Locator_ok m.2
  | ProtocolsSupportedTLV v => bytes_ok v
  | IPInterfaceAddressesTLV xs => Forall addr_ok xs
  | IPv6InterfaceAddressesTLV xs => Forall addr_ok xs
  | ExtendedIPReachabilityTLV ps => Forall IPReach_ok ps
  | IPv6ReachabilityTLV ps => Forall IPv6Reach_ok ps
  | DynamicHostnameTLV h => bytes_ok h
  | RestartTLV r => Restart_ok r
  | MTISReachabilityTLV m => mtid_ok m.1 /\ Forall ISReach_ok m.2
  | MTopologiesTLV ts => Forall (fun e => mtid_ok (MT_MTID e)) ts
  | MTIPReachabilityTLV m => mtid_ok m.1 /\ Forall IPReach_ok m.2
  | MTIPv6ReachabilityTLV m => mtid_ok m.1 /\ Forall IPv6Reach_ok m.2
  | P2PThreeWayAdjacencyTLV a => P2PAdj_ok a
  | RouterCapabilityTLV r => RouterCapability_ok r
  end.

Definition is_unknown_tlv (t : TLV) : bool :=
  match t with UnknownTLV _ _ => true | _ => false end.

(** ** The registered decoders *)

Record tlv_laws (t : Z) (dec : tlvDecoder) : Prop := {
  tl_type : byte_ok t;
  tl_nopanic : forall v, dec v <> Panic;
  tl_rt : forall x v, tlv_body_ok x -> TLV_Type x = t -> is_unknown_tlv x = false ->
    TLV_value x = Ok v -> bytes_ok v /\ dec v = Ok x;
  tl_fix : forall v x, bytes_ok v -> (length v <= 255)%nat -> dec v = Ok x ->
    tlv_body_ok x /\ TLV_Type x = t /\ exists v', TLV_value x = Ok v' /\ (length v' <= length v)%nat
}.

(** A value codec, the constructor its decoder applies, and the type octet. *)
Lemma building_laws {A enc dec wf} `{V : !@Value A enc dec wf} (t : Z) (mk : A -> TLV) :
  byte_ok t ->
  (forall x, TLV_Type x = t -> is_unknown_tlv x = false -> exists a, x = mk a) ->
  (forall a, TLV_Type (mk a) = t) -> (forall a, TLV_value (mk a) = enc a) ->
  (forall a, tlv_body_ok (mk a) <-> wf a) ->
  tlv_laws t (building mk dec).
Proof.
  intros Ht Hmk Hty Hval Hok. split; [done|..].
  - intros v. apply bind_Panic; [apply value_nopanic|done].
  - intros x v Hx Hxt Hu Hv. destruct (Hmk x Hxt Hu) as [a ->].
    rewrite Hval in Hv. apply Hok in Hx. destruct (value_rt a v Hx Hv) as [Hb Hd].
    split; [done|]. unfold building. by rewrite Hd.
  - intros v x Hb Hl H. apply bind_Ok in H as (a & Hd & [= <-]).
    destruct (value_fix v a Hb Hl Hd) as (Ha & e & He & Hle).
    split; [by apply Hok|]. split; [done|]. exists e. by rewrite Hval.
Qed.

Ltac building_tac :=
  eapply building_laws; [done| |done|done|done];
  intros [] E U; try (exfalso; vm_compute in E; congruence); try discriminate U; eexists; reflexivity.

Lemma tlvTable_laws : Forall (fun e => tlv_laws e.1 e.2) tlvTable.
Proof.
  unfold tlvTable. repeat (apply Forall_cons; split; [cbn [fst snd]|]); [..|constructor].
  all: building_tac.
Qed.

Lemma tlvDecoders_laws (t : Z) (dec : tlvDecoder) : tlvDecoders t = Some dec -> tlv_laws t dec.
Proof.
  unfold tlvDecoders. intros H. apply fmap_Some in H as ([t' d] & Hf & ->).
  apply List.find_some in Hf as [Hin Ht]. simpl in Ht. apply Z.eqb_eq in Ht as ->.
  pose proof tlvTable_laws as Hall. rewrite List.Forall_forall in Hall. apply (Hall _ Hin).
Qed.

(** ** The TLV area *)

Definition TLV_hdr (t : TLV) : outcome (Z * bytes) := v ← TLV_value t; mret (TLV_Type t, v).

Lemma TLV_Serialize_framed (t : TLV) : TLV_Serialize t = encode_framed TLV_hdr t.
Proof. unfold TLV_Serialize, encode_framed, TLV_hdr. by destruct (TLV_value t). Qed.

Lemma decodeTLV_nopanic (t : Z) (v : bytes) : decodeTLV t v <> Panic.
Proof.
  unfold decodeTLV. destruct (tlvDecoders t) as [dec|] eqn:E; [|done].
  apply (tl_nopanic t dec (tlvDecoders_laws t dec E)).
Qed.

Lemma tlvDecoders_typed (x : TLV) :
  is_unknown_tlv x = false -> exists dec, tlvDecoders (TLV_Type x) = Some dec.
Proof. destruct x; intros H; try discriminate H; eexists; reflexivity. Qed.

Lemma decodeTLV_rt (x : TLV) (t : Z) (v : bytes) :
  tlv_body_ok x -> TLV_hdr x = Ok (t, v) -> byte_ok t /\ bytes_ok v /\ decodeTLV t v = Ok x.
Proof.
  intros Hok Hh. apply bind_Ok in Hh as (v' & Hv & [= <- <-]).
  destruct (is_unknown_tlv x) eqn:Eu.
  - destruct x; try done. destruct Hok as (Ht & Hb & Hr). injection Hv as <-.
    split; [done|]. split; [done|]. unfold decodeTLV. simpl. by rewrite Hr.
  - destruct (tlvDecoders_typed x Eu) as [dec E].
    destruct (tlvDecoders_laws _ _ E) as [Ht _ Hrt _].
    destruct (Hrt x v' Hok eq_refl Eu Hv) as [Hb Hd]. split; [done|]. split; [done|].
    unfold decodeTLV. by rewrite E.
Qed.

Lemma decodeTLV_fix (t : Z) (v : bytes) (x : TLV) :
  byte_ok t -> bytes_ok v -> (length v <= 255)%nat -> decodeTLV t v = Ok x ->
  tlv_body_ok x /\ exists t' v', TLV_hdr x = Ok (t', v') /\ (length v' <= length v)%nat.
Proof.
  intros Ht Hb Hl H. unfold decodeTLV in H. destruct (tlvDecoders t) as [dec|] eqn:E.
  - destruct (tlvDecoders_laws t dec E) as [_ _ _ Hf].
    destruct (Hf v x Hb Hl H) as (Hok & Hty & v' & Hv & Hle). split; [done|].
    exists t, v'. unfold TLV_hdr. by rewrite Hv, Hty.
  - injection H as <-. split; [done|]. by exists t, v.
Qed.

#[export] Instance tlv_stream : Stream TLV_Serialize (framed decodeTLV) tlv_body_ok anywhere.
Proof.
  destruct (framed_stream TLV_hdr decodeTLV tlv_body_ok
    decodeTLV_nopanic decodeTLV_rt decodeTLV_fix) as [P C D R F].
  split; [done..| |].
  - intros s e rest Hok He. rewrite TLV_Serialize_framed in He. by apply R.
  - intros b s rest Hb H. destruct (F b s rest Hb H) as (Hr & Hok & e & He & Hle).
    split; [done|]. split; [done|]. exists e. by rewrite TLV_Serialize_framed.
Qed.

Lemma decodeTLVs_nopanic (b : bytes) : decodeTLVs b <> Panic.
Proof. by apply loop_nopanic. Qed.

Lemma decodeTLVs_rt (ts : list TLV) (v : bytes) :
  Forall tlv_body_ok ts -> serializeTLVs ts = Ok v -> bytes_ok v /\ decodeTLVs v = Ok ts.
Proof. apply loop_rt. Qed.

Lemma decodeTLVs_fix (b : bytes) (ts : list TLV) :
  bytes_ok b -> decodeTLVs b = Ok ts ->
  Forall tlv_body_ok ts /\ exists v, serializeTLVs ts = Ok v /\ (length v <= length b)%nat.
Proof. apply loop_fix. Qed.

(** The loop of the area, one TLV at a time. *)
Lemma decodeTLVs_unfold (b : bytes) :
  decodeTLVs b =
    match b with
    | [] => Ok []
    | _ :: _ => '(t, rest) ← framed decodeTLV b; ts ← decodeTLVs rest; mret (t :: ts)
    end.
Proof. apply loop_unfold, framed_consuming. Qed.
