(* ===== verification/Checksum.v ===== *)
(** pkg/packet/checksum.go: the ISO 8473 Fletcher checksum, against its
    definition as two congruences modulo 255. *)

From S2P Require Import Prelude.
Local Open Scope Z_scope.

(** Go's [%] truncates towards zero: [Z.rem]. *)

(** One turn of the summing loop: index, octet, running sums. *)
Definition fletcher_step (i : nat) (b c0 c1 : Z) : Z * Z :=
  let c0 := c0 + b in
  let c1 := c1 + c0 in
  if (i mod 4096 =? 4095)%nat then (Z.rem c0 255, Z.rem c1 255) else (c0, c1).

(** [for i, b := range data { ... }] *)
Fixpoint fletcher_loop (i : nat) (data : bytes) (c0 c1 : Z) : Z * Z :=
  match data with
  | [] => (c0, c1)
  | b :: data' =>
      let '(c0, c1) := fletcher_step i b c0 c1 in fletcher_loop (S i) data' c0 c1
  end.

Definition fletcherChecksum (data : bytes) (checksumOffset : nat) : Z :=
  let '(c0, c1) := fletcher_loop 0 data 0 0 in
  let c0 := Z.rem c0 255 in
  let c1 := Z.rem c1 255 in
  let x := Z.rem ((Z.of_nat (length data) - Z.of_nat checksumOffset - 1) * c0 - c1) 255 in
  let x := if x <=? 0 then x + 255 else x in
  let y := 510 - c0 - x in
  let y := if 255 <? y then y - 255 else y in
  join16 (u16 x) (u16 y).

Definition fletcherValid (data : bytes) : bool :=
  let '(c0, c1) := fletcher_loop 0 data 0 0 in
  (Z.rem c0 255 =? 0) && (Z.rem c1 255 =? 0).

(** ** The sums the loop reduces *)

Fixpoint sum0 (data : bytes) : Z :=
  match data with [] => 0 | b :: d => b + sum0 d end.

(** Each octet weighted by its distance from the end. *)
Fixpoint sum1 (data : bytes) : Z :=
  match data with [] => 0 | b :: d => Z.of_nat (length (b :: d)) * b + sum1 d end.

Definition modeq (a b : Z) : Prop := a mod 255 = b mod 255.

Lemma modeq_iff (a b : Z) : modeq a b <-> exists k, a = b + k * 255.
Proof.
  unfold modeq. split.
  - intros H. exists (a / 255 - b / 255).
    pose proof (Z.div_mod a 255 ltac:(lia)). pose proof (Z.div_mod b 255 ltac:(lia)). lia.
  - intros [k ->]. by rewrite Z.mod_add.
Qed.

Lemma modeq_0 (a : Z) : 0 <= a -> modeq a 0 <-> Z.rem a 255 = 0.
Proof. intros H. unfold modeq. rewrite Z.rem_mod_nonneg by lia. done. Qed.

Lemma modeq_rem (a : Z) : 0 <= a -> exists k, Z.rem a 255 = a + k * 255.
Proof.
  intros H. exists (- (a ÷ 255)). pose proof (Z.quot_rem' a 255). lia.
Qed.

(** The loop computes both sums up to a multiple of 255, and keeps them
    non-negative. *)
Lemma fletcher_loop_sums (data : bytes) (i : nat) (c0 c1 c0' c1' : Z) :
  bytes_ok data -> 0 <= c0 -> 0 <= c1 -> fletcher_loop i data c0 c1 = (c0', c1') ->
  0 <= c0' /\ 0 <= c1' /\ modeq c0' (c0 + sum0 data) /\
  modeq c1' (c1 + Z.of_nat (length data) * c0 + sum1 data).
Proof.
  intros Hb. revert i c0 c1. induction Hb as [|b data Hb Hbs IH]; intros i c0 c1 H0 H1 H.
  - injection H as <- <-. simpl. split; [done|]. split; [done|].
    split; apply modeq_iff; exists 0; lia.
  - simpl in H. unfold fletcher_step in H. unfold byte_ok in Hb.
    destruct (modeq_rem (c0 + b)) as [k0 Hk0]; [lia|].
    destruct (modeq_rem (c1 + (c0 + b))) as [k1 Hk1]; [lia|].
    pose proof (Z.rem_nonneg (c0 + b) 255 ltac:(lia) ltac:(lia)).
    pose proof (Z.rem_nonneg (c1 + (c0 + b)) 255 ltac:(lia) ltac:(lia)).
    destruct (i mod 4096 =? 4095)%nat.
    + destruct (IH _ _ _ H2 H3 H) as (Ha & Hc & [m0 Hm0]%modeq_iff & [m1 Hm1]%modeq_iff).
      do 2 (split; [done|]). split; apply modeq_iff.
      * exists (m0 + k0). simpl. lia.
      * exists (m1 + k1 + Z.of_nat (length data) * k0). rewrite Hm1, Hk0, Hk1. cbn [length sum1]. lia.
    + destruct (IH _ (c0 + b) (c1 + (c0 + b)) ltac:(lia) ltac:(lia) H)
        as (Ha & Hc & [m0 Hm0]%modeq_iff & [m1 Hm1]%modeq_iff).
      do 2 (split; [done|]). split; apply modeq_iff.
      * exists m0. simpl. lia.
      * exists m1. cbn [length sum1]. lia.
Qed.

(** Validity, as the two congruences. *)
Lemma fletcherValid_spec (data : bytes) :
  bytes_ok data -> fletcherValid data = true <-> modeq (sum0 data) 0 /\ modeq (sum1 data) 0.
Proof.
  intros Hb. unfold fletcherValid. destruct (fletcher_loop 0 data 0 0) as [c0 c1] eqn:E.
  destruct (fletcher_loop_sums data 0 0 0 c0 c1 Hb ltac:(lia) ltac:(lia) E) as (H0 & H1 & E0 & E1).
  rewrite Z.add_0_l in E0. replace (0 + Z.of_nat (length data) * 0 + sum1 data) with (sum1 data) in E1 by lia.
  rewrite andb_true_iff, !Z.eqb_eq, <- !modeq_0 by done. unfold modeq in *. by rewrite E0, E1.
Qed.

(** The two octets the generator returns. *)
Lemma fletcherChecksum_octets (data : bytes) (off : nat) :
  bytes_ok data ->
  exists x y, fletcherChecksum data off = join16 x y /\ 1 <= x <= 255 /\ 1 <= y <= 255 /\
    modeq x ((Z.of_nat (length data) - Z.of_nat off - 1) * sum0 data - sum1 data) /\
    modeq (x + y) (- sum0 data).
Proof.
  intros Hb. unfold fletcherChecksum. destruct (fletcher_loop 0 data 0 0) as [c0 c1] eqn:E.
  destruct (fletcher_loop_sums data 0 0 0 c0 c1 Hb ltac:(lia) ltac:(lia) E) as (H0 & H1 & E0 & E1).
  rewrite Z.add_0_l in E0. replace (0 + Z.of_nat (length data) * 0 + sum1 data) with (sum1 data) in E1 by lia.
  apply modeq_iff in E0 as [m0 E0]. apply modeq_iff in E1 as [m1 E1].
  destruct (modeq_rem c0 H0) as [k0 Hk0]. destruct (modeq_rem c1 H1) as [k1 Hk1].
  pose proof (Z.rem_bound_pos c0 255 H0 ltac:(lia)). pose proof (Z.rem_bound_pos c1 255 H1 ltac:(lia)).
  set (d0 := Z.rem c0 255) in *. set (d1 := Z.rem c1 255) in *.
  set (w := Z.of_nat (length data) - Z.of_nat off - 1).
  pose proof (Z.quot_rem' (w * d0 - d1) 255) as Hq.
  assert (Hr : -255 < Z.rem (w * d0 - d1) 255 < 255).
  { pose proof (Z.rem_bound_abs (w * d0 - d1) 255 ltac:(lia)). lia. }
  set (r := Z.rem (w * d0 - d1) 255) in *. set (q := (w * d0 - d1) ÷ 255) in *.
  set (x := if r <=? 0 then r + 255 else r).
  set (y := if 255 <? 510 - d0 - x then 510 - d0 - x - 255 else 510 - d0 - x).
  assert (Hx : 1 <= x <= 255) by (subst x; destruct (Z.leb_spec r 0); lia).
  assert (Hy : 1 <= y <= 255) by (subst y; destruct (Z.ltb_spec 255 (510 - d0 - x)); lia).
  exists x, y. split.
  { unfold u16. rewrite !Z.mod_small by lia. done. }
  do 2 (split; [lia|]). split; apply modeq_iff.
  - assert (exists e, x = r + e * 255) as [e He].
    { subst x. destruct (r <=? 0); [exists 1|exists 0]; lia. }
    exists (e - q + w * (m0 + k0) - m1 - k1). rewrite He. nia.
  - assert (exists e, y = - d0 - x + e * 255) as [e He].
    { subst y. destruct (255 <? 510 - d0 - x); [exists 1|exists 2]; lia. }
    exists (e - m0 - k0). lia.
Qed.

Lemma sum0_app (a b : bytes) : sum0 (a ++ b) = sum0 a + sum0 b.
Proof. induction a as [|x a IH]; simpl; [done|]. rewrite IH. lia. Qed.

Lemma sum1_app (a b : bytes) : sum1 (a ++ b) = sum1 a + Z.of_nat (length b) * sum0 a + sum1 b.
Proof.
  induction a as [|x a IH]; [simpl; lia|].
  change ((x :: a) ++ b) with (x :: (a ++ b)). cbn [sum1 sum0 length]. rewrite IH, length_app. lia.
Qed.

(** Stored at its offset over zeroed octets, the checksum makes the data
    valid. *)
Lemma fletcher_store_valid (pre post : bytes) :
  bytes_ok pre -> bytes_ok post ->
  fletcherValid
    (pre ++ put16 (fletcherChecksum (pre ++ [0; 0] ++ post) (length pre)) ++ post) = true.
Proof.
  intros Hpre Hpost.
  assert (Hz : bytes_ok (pre ++ [0; 0] ++ post)) by (octets).
  destruct (fletcherChecksum_octets _ (length pre) Hz) as (x & y & -> & Hx & Hy & Ex & Exy).
  rewrite put16_join by (unfold byte_ok; lia).
  apply fletcherValid_spec; [octets|].
  rewrite !sum0_app in *. rewrite !sum1_app in *. rewrite !length_app in *.
  cbn [sum0 sum1 length] in *.
  apply modeq_iff in Ex as [kx Ex]. apply modeq_iff in Exy as [ky Exy].
  split; apply modeq_iff.
  - exists ky. lia.
  - exists (kx + (1 + Z.of_nat (length post)) * ky). nia.
Qed.

(** ** No overflow

    The reduction every 4096 octets keeps both sums far below the 63-bit range
    of a Go [int]. *)
Definition fletcher_bound (i : nat) (c0 c1 : Z) : Prop :=
  let k := Z.of_nat (i mod 4096) in
  0 <= c0 <= 254 + 255 * k /\ 0 <= c1 <= 254 + k * (254 + 255 * k).

Lemma fletcher_step_bound (i : nat) (b c0 c1 : Z) :
  byte_ok b -> fletcher_bound i c0 c1 ->
  let '(c0', c1') := fletcher_step i b c0 c1 in fletcher_bound (S i) c0' c1'.
Proof.
  unfold byte_ok, fletcher_bound, fletcher_step. intros Hb [H0 H1].
  destruct (Nat.eqb_spec (i mod 4096) 4095) as [E|E].
  - assert (Hs : (S i mod 4096 = 0)%nat).
    { rewrite <- Nat.add_1_r, Nat.Div0.add_mod, E. done. }
    rewrite Hs. pose proof (Z.rem_bound_pos (c0 + b) 255 ltac:(lia) ltac:(lia)).
    pose proof (Z.rem_bound_pos (c1 + (c0 + b)) 255 ltac:(lia) ltac:(lia)). lia.
  - pose proof (Nat.mod_upper_bound i 4096 ltac:(lia)).
    assert (Hs : (S i mod 4096 = S (i mod 4096))%nat).
    { rewrite <- Nat.add_1_r, Nat.Div0.add_mod. change (1 mod 4096)%nat with 1%nat.
      rewrite Nat.mod_small by lia. lia. }
    rewrite Hs. nia.
Qed.

Lemma fletcher_bound_int (i : nat) (c0 c1 : Z) :
  fletcher_bound i c0 c1 -> 0 <= c0 < 2 ^ 31 /\ 0 <= c1 < 2 ^ 33.
Proof.
  unfold fletcher_bound. intros [H0 H1]. pose proof (Nat.mod_upper_bound i 4096 ltac:(lia)). nia.
Qed.
