(* ===== verification/Pdu.v ===== *)
(** pkg/packet/packet.go, hello.go, lsp.go and snp.go: the common and fixed
    headers, the PDU types and their codecs, and the trimming of data-link
    padding. *)

From S2P Require Import Prelude.
From S2P Require Import Codec.
From S2P Require Import Framing.
From S2P Require Import Ids.
From S2P Require Import Tlv.
From S2P Require Import Checksum.
Local Open Scope Z_scope.

Definition lanHelloHeaderLen : nat := 27.
Definition p2pHelloHeaderLen : nat := 20.
Definition lspHeaderLen : nat := 27.
Definition csnpHeaderLen : nat := 33.
Definition psnpHeaderLen : nat := 17.

(** ** The common header *)

Record commonHeader : Set := mkCommonHeader {
  LengthIndicator : Z;
  PDUType : Z;
  MaxAreaAddresses : Z
}.

Definition decodeCommonHeader (b : bytes) : outcome commonHeader :=
  if (length b <? commonHeaderLen)%nat then Err ErrTruncated else
  b0 ← idx b 0;
  if negb (b0 =? idrpDiscriminator) then Err errBadDiscriminator else
  b2 ← idx b 2;
  if negb (b2 =? protocolVersion) then Err errBadVersion else
  b3 ← idx b 3;
  if negb (b3 =? 0) && negb (b3 =? Z.of_nat systemIDLen) then Err errBadIDLength else
  b5 ← idx b 5;
  if negb (b5 =? protocolVersion) then Err errBadVersion else
  b1 ← idx b 1;
  b4 ← idx b 4;
  b7 ← idx b 7;
  mret (mkCommonHeader b1 (Z.land b4 31) b7).

(** [putCommonHeader]: the eight octets it writes. *)
Definition putCommonHeader (t lengthIndicator : Z) : bytes :=
  [idrpDiscriminator; lengthIndicator; protocolVersion; 0; t; protocolVersion; 0; 0].

Definition pduLenOffset (t : Z) : option nat :=
  if (t =? PDUTypeL1LANHello) || (t =? PDUTypeL2LANHello) || (t =? PDUTypeP2PHello) then Some 17%nat
  else if (t =? PDUTypeL1LSP) || (t =? PDUTypeL2LSP) || (t =? PDUTypeL1CSNP) ||
          (t =? PDUTypeL2CSNP) || (t =? PDUTypeL1PSNP) || (t =? PDUTypeL2PSNP) then Some 8%nat
  else None.

(** auth.go: [HeaderLen]. *)
Definition HeaderLen (t : Z) : nat :=
  if (t =? PDUTypeL1LANHello) || (t =? PDUTypeL2LANHello) then lanHelloHeaderLen
  else if t =? PDUTypeP2PHello then p2pHelloHeaderLen
  else if (t =? PDUTypeL1LSP) || (t =? PDUTypeL2LSP) then lspHeaderLen
  else if (t =? PDUTypeL1CSNP) || (t =? PDUTypeL2CSNP) then csnpHeaderLen
  else if (t =? PDUTypeL1PSNP) || (t =? PDUTypeL2PSNP) then psnpHeaderLen
  else 0.

Definition checkFixedHeader (h : commonHeader) (b : bytes) (minLen : nat) : outcome bytes :=
  if negb (LengthIndicator h =? Z.of_nat minLen) then Err errBadFixedHeader else
  if (length b <? minLen)%nat then Err ErrTruncated else
  match pduLenOffset (PDUType h) with
  | None => Err errBadFixedHeader
  | Some off =>
      s ← from b off;
      n ← be16 s;
      let pduLen := Z.to_nat n in
      if (pduLen <? minLen)%nat then Err errBadFixedHeader else
      if (length b <? pduLen)%nat then Err ErrTruncated else
      slice b 0 pduLen
  end.

Definition TrimToPDULength (b : bytes) : outcome bytes :=
  match decodeCommonHeader b with
  | Err _ => mret b
  | Panic => Panic
  | Ok h =>
      match pduLenOffset (PDUType h) with
      | None => mret b
      | Some off =>
          if (length b <? off + 2)%nat then mret b else
          s ← slice b off (off + 2);
          n ← be16 s;
          let n := Z.to_nat n in
          if (n <? commonHeaderLen)%nat || (length b <? n)%nat then mret b else slice b 0 n
      end
  end.

(** ** PDUs *)

Record LANHello : Set := mkLANHello {
  LH_Level : Level; LH_CircuitType : Z; LH_SourceID : list Z; LH_HoldingTime : Z;
  LH_Priority : Z; LH_LANID : list Z; LH_TLVs : list TLV
}.

Record P2PHello : Set := mkP2PHello {
  PH_CircuitType : Z; PH_SourceID : list Z; PH_HoldingTime : Z; PH_LocalCircuitID : Z;
  PH_TLVs : list TLV
}.

Record LSP : Set := mkLSP {
  LSP_Level : Level;
  RemainingTime : Z;
  LSP_LSPID : list Z;
  SequenceNumber : Z;
  checksum : Z;
  Partition : bool;
  AttError : bool;
  AttExpense : bool;
  AttDelay : bool;
  AttDefault : bool;
  Overload : bool;
  ISType : Z;
  LSP_TLVs : list TLV
}.

Record CSNP : Set := mkCSNP {
  CS_Level : Level; CS_SourceID : list Z; StartLSP : list Z; EndLSP : list Z; CS_TLVs : list TLV
}.

Record PSNP : Set := mkPSNP {
  PS_Level : Level; PS_SourceID : list Z; PS_TLVs : list TLV
}.

Inductive PDU : Set :=
  | PDULANHello (p : LANHello)
  | PDUP2PHello (p : P2PHello)
  | PDULSP (p : LSP)
  | PDUCSNP (p : CSNP)
  | PDUPSNP (p : PSNP).

Definition by_level (l : Level) (t1 t2 : Z) : Z := match l with Level2 => t2 | Level1 => t1 end.

Definition LANHello_PDUType (p : LANHello) : Z := by_level (LH_Level p) PDUTypeL1LANHello PDUTypeL2LANHello.
Definition LSP_PDUType (p : LSP) : Z := by_level (LSP_Level p) PDUTypeL1LSP PDUTypeL2LSP.
Definition CSNP_PDUType (p : CSNP) : Z := by_level (CS_Level p) PDUTypeL1CSNP PDUTypeL2CSNP.
Definition PSNP_PDUType (p : PSNP) : Z := by_level (PS_Level p) PDUTypeL1PSNP PDUTypeL2PSNP.

(** ** Hellos *)

(** The length field is [uint16(len(b))] of the whole PDU. *)
Definition len_field (header : nat) (tlvs : bytes) : bytes :=
  put16 (u16 (Z.of_nat (header + length tlvs))).

Definition LANHello_Serialize (p : LANHello) : outcome bytes :=
  tlvs ← serializeTLVs (LH_TLVs p);
  mret (putCommonHeader (LANHello_PDUType p) (Z.of_nat lanHelloHeaderLen)
        ++ [Z.land (LH_CircuitType p) 3] ++ LH_SourceID p ++ put16 (LH_HoldingTime p)
        ++ len_field lanHelloHeaderLen tlvs ++ [Z.land (LH_Priority p) 127] ++ LH_LANID p ++ tlvs).

Definition decodeLANHello (level : Level) (h : commonHeader) (b : bytes) : outcome PDU :=
  b ← checkFixedHeader h b lanHelloHeaderLen;
  ct ← idx b 8;
  s ← slice b 9 15; src ← array 6 s;
  s ← slice b 15 17; hold ← be16 s;
  prio ← idx b 19;
  s ← slice b 20 27; lanid ← array 7 s;
  area ← from b lanHelloHeaderLen;
  tlvs ← decodeTLVs area;
  mret (PDULANHello (mkLANHello level (Z.land ct 3) src hold (Z.land prio 127) lanid tlvs)).

Definition P2PHello_Serialize (p : P2PHello) : outcome bytes :=
  tlvs ← serializeTLVs (PH_TLVs p);
  mret (putCommonHeader PDUTypeP2PHello (Z.of_nat p2pHelloHeaderLen)
        ++ [Z.land (PH_CircuitType p) 3] ++ PH_SourceID p ++ put16 (PH_HoldingTime p)
        ++ len_field p2pHelloHeaderLen tlvs ++ [PH_LocalCircuitID p] ++ tlvs).

Definition decodeP2PHello (h : commonHeader) (b : bytes) : outcome PDU :=
  b ← checkFixedHeader h b p2pHelloHeaderLen;
  ct ← idx b 8;
  s ← slice b 9 15; src ← array 6 s;
  s ← slice b 15 17; hold ← be16 s;
  cid ← idx b 19;
  area ← from b p2pHelloHeaderLen;
  tlvs ← decodeTLVs area;
  mret (PDUP2PHello (mkP2PHello (Z.land ct 3) src hold cid tlvs)).

(** ** LSPs *)

Definition lspFlagPartition : Z := 128.
Definition lspFlagAttError : Z := 64.
Definition lspFlagAttExpense : Z := 32.
Definition lspFlagAttDelay : Z := 16.
Definition lspFlagAttDefault : Z := 8.
Definition lspFlagOverload : Z := 4.
Definition lspISTypeMask : Z := 3.

Definition flagsOctet (p : LSP) : Z :=
  let f := flag_if (Partition p) lspFlagPartition in
  let f := Z.lor f (flag_if (AttError p) lspFlagAttError) in
  let f := Z.lor f (flag_if (AttExpense p) lspFlagAttExpense) in
  let f := Z.lor f (flag_if (AttDelay p) lspFlagAttDelay) in
  let f := Z.lor f (flag_if (AttDefault p) lspFlagAttDefault) in
  let f := Z.lor f (flag_if (Overload p) lspFlagOverload) in
  Z.lor f (Z.land (ISType p) lspISTypeMask).

(** [LSP.serializeWithChecksum]: the LSP with the given checksum octets. *)
Definition serializeWithChecksum (p : LSP) (sum : Z) : outcome bytes :=
  tlvs ← serializeTLVs (LSP_TLVs p);
  mret (putCommonHeader (LSP_PDUType p) (Z.of_nat lspHeaderLen)
        ++ len_field lspHeaderLen tlvs ++ put16 (RemainingTime p) ++ LSP_LSPID p
        ++ put32 (SequenceNumber p) ++ put16 sum ++ [flagsOctet p] ++ tlvs).

(** [copy(b[i:], s)] inside a slice that holds it: the stores of
    [PutUint16] and of a digest. *)
Definition store (b : bytes) (i : nat) (s : bytes) : bytes :=
  take i b ++ s ++ drop (i + length s) b.

Definition set_checksum (p : LSP) (sum : Z) : LSP :=
  mkLSP (LSP_Level p) (RemainingTime p) (LSP_LSPID p) (SequenceNumber p) sum (Partition p)
    (AttError p) (AttExpense p) (AttDelay p) (AttDefault p) (Overload p) (ISType p) (LSP_TLVs p).

(** [LSP.Serialize]: the octets, and the receiver with its checksum field
    updated. *)
Definition LSP_Serialize (p : LSP) : outcome (bytes * LSP) :=
  b ← serializeWithChecksum p 0;
  body ← from b 12;
  let sum := fletcherChecksum body 12 in
  mret (store b 24 (put16 sum), set_checksum p sum).

Definition decodeLSP (level : Level) (h : commonHeader) (b : bytes) : outcome PDU :=
  b ← checkFixedHeader h b lspHeaderLen;
  flags ← idx b 26;
  s ← slice b 10 12; rt ← be16 s;
  s ← slice b 12 20; id ← array 8 s;
  s ← slice b 20 24; seq ← be32 s;
  s ← slice b 24 26; ck ← be16 s;
  area ← from b lspHeaderLen;
  tlvs ← decodeTLVs area;
  mret (PDULSP (mkLSP level rt id seq ck
    (flag flags lspFlagPartition) (flag flags lspFlagAttError) (flag flags lspFlagAttExpense)
    (flag flags lspFlagAttDelay) (flag flags lspFlagAttDefault) (flag flags lspFlagOverload)
    (Z.land flags lspISTypeMask) tlvs)).

Definition LSPChecksumValidRaw (raw : bytes) : outcome bool :=
  if (length raw <? lspHeaderLen)%nat then mret false else
  body ← from raw 12; mret (fletcherValid body).

(** [LSP.ChecksumValid]. *)
Definition ChecksumValid (p : LSP) : outcome bool :=
  b ← serializeWithChecksum p (checksum p); body ← from b 12; mret (fletcherValid body).

(** ** Sequence number PDUs *)

Definition CSNP_Serialize (p : CSNP) : outcome bytes :=
  tlvs ← serializeTLVs (CS_TLVs p);
  mret (putCommonHeader (CSNP_PDUType p) (Z.of_nat csnpHeaderLen)
        ++ len_field csnpHeaderLen tlvs ++ CS_SourceID p ++ StartLSP p ++ EndLSP p ++ tlvs).

Definition decodeCSNP (level : Level) (h : commonHeader) (b : bytes) : outcome PDU :=
  b ← checkFixedHeader h b csnpHeaderLen;
  s ← slice b 10 17; src ← array 7 s;
  s ← slice b 17 25; st ← array 8 s;
  s ← slice b 25 33; en ← array 8 s;
  area ← from b csnpHeaderLen;
  tlvs ← decodeTLVs area;
  mret (PDUCSNP (mkCSNP level src st en tlvs)).

Definition PSNP_Serialize (p : PSNP) : outcome bytes :=
  tlvs ← serializeTLVs (PS_TLVs p);
  mret (putCommonHeader (PSNP_PDUType p) (Z.of_nat psnpHeaderLen)
        ++ len_field psnpHeaderLen tlvs ++ PS_SourceID p ++ tlvs).

Definition decodePSNP (level : Level) (h : commonHeader) (b : bytes) : outcome PDU :=
  b ← checkFixedHeader h b psnpHeaderLen;
  s ← slice b 10 17; src ← array 7 s;
  area ← from b psnpHeaderLen;
  tlvs ← decodeTLVs area;
  mret (PDUPSNP (mkPSNP level src tlvs)).

(** ** Dispatch *)

(** [pduDecoders] as the init functions leave it. *)
Definition pduDecoders (t : Z) : option (commonHeader -> bytes -> outcome PDU) :=
  if t =? PDUTypeL1LANHello then Some (decodeLANHello Level1)
  else if t =? PDUTypeL2LANHello then Some (decodeLANHello Level2)
  else if t =? PDUTypeP2PHello then Some decodeP2PHello
  else if t =? PDUTypeL1LSP then Some (decodeLSP Level1)
  else if t =? PDUTypeL2LSP then Some (decodeLSP Level2)
  else if t =? PDUTypeL1CSNP then Some (decodeCSNP Level1)
  else if t =? PDUTypeL2CSNP then Some (decodeCSNP Level2)
  else if t =? PDUTypeL1PSNP then Some (decodePSNP Level1)
  else if t =? PDUTypeL2PSNP then Some (decodePSNP Level2)
  else None.

Definition DecodePDU (b : bytes) : outcome PDU :=
  h ← decodeCommonHeader b;
  match pduDecoders (PDUType h) with
  | None => Err ErrUnknownPDUType
  | Some dec => dec h b
  end.

(** The [Serialize] method of the [PDU] interface: the octets, and the receiver
    after the call. *)
Definition PDU_Serialize (p : PDU) : outcome (bytes * PDU) :=
  match p with
  | PDULANHello q => b ← LANHello_Serialize q; mret (b, p)
  | PDUP2PHello q => b ← P2PHello_Serialize q; mret (b, p)
  | PDULSP q => '(b, q') ← LSP_Serialize q; mret (b, PDULSP q')
  | PDUCSNP q => b ← CSNP_Serialize q; mret (b, p)
  | PDUPSNP q => b ← PSNP_Serialize q; mret (b, p)
  end.

(** ** Headers *)

Lemma decodeCommonHeader_nopanic (b : bytes) : decodeCommonHeader b <> Panic.
Proof.
  unfold decodeCommonHeader, commonHeaderLen. case_match eqn:E; [done|]. split_bytes 8 b. wire.
  repeat (case_match; [done|]). done.
Qed.

Lemma decodeCommonHeader_put (t li : Z) (rest : bytes) :
  0 <= t < 32 -> decodeCommonHeader (putCommonHeader t li ++ rest) = Ok (mkCommonHeader li t 0).
Proof.
  intros H. unfold decodeCommonHeader, putCommonHeader. simpl.
  change 31 with (Z.ones 5). rewrite Z.land_ones by lia. by rewrite Z.mod_small.
Qed.

(** The header reads only the first eight octets. *)
Lemma decodeCommonHeader_take (n : nat) (b : bytes) :
  (8 <= n)%nat -> (8 <= length b)%nat -> decodeCommonHeader (take n b) = decodeCommonHeader b.
Proof.
  intros Hn Hb. split_bytes 8 b. do 8 (destruct n as [|n]; [lia|]). reflexivity.
Qed.

Lemma checkFixedHeader_nopanic (h : commonHeader) (b : bytes) (minLen off : nat) :
  pduLenOffset (PDUType h) = Some off -> (off + 2 <= minLen)%nat ->
  checkFixedHeader h b minLen <> Panic.
Proof.
  intros Ho Hm. unfold checkFixedHeader. case_match; [done|]. case_match eqn:E; [done|].
  rewrite Ho, from_Ok by lia. cbn [mbind outcome_bind]. apply bind_Panic.
  { assert (length (drop off b) >= 2)%nat by (rewrite length_drop; lia).
    destruct (drop off b) as [|? [|? ?]]; simpl in *; try lia. done. }
  intros n _. case_match; [done|]. case_match; [done|]. by rewrite slice_0 by lia.
Qed.

(** What a successful check returns: a prefix of the PDU of the length its
    length field says. *)
Lemma checkFixedHeader_inv (h : commonHeader) (b b' : bytes) (minLen : nat) :
  checkFixedHeader h b minLen = Ok b' ->
  LengthIndicator h = Z.of_nat minLen /\ (minLen <= length b' <= length b)%nat /\
  b' = take (length b') b /\
  exists off, pduLenOffset (PDUType h) = Some off /\
    be16 (drop off b) ≫= (fun n => mret (Z.to_nat n)) = Ok (length b').
Proof.
  intros H. unfold checkFixedHeader in H. case_match eqn:E1; [done|]. case_match eqn:E2; [done|].
  destruct (pduLenOffset (PDUType h)) as [off|]; [|done].
  apply bind_Ok in H as (s & [Hs ->]%from_inv & H). apply bind_Ok in H as (n & Hn & H).
  case_match eqn:E3; [done|]. case_match eqn:E4; [done|]. apply slice_inv in H as [Hl ->].
  rewrite drop_0, Nat.sub_0_r.
  assert (Hlen : length (take (Z.to_nat n) b) = Z.to_nat n) by (rewrite length_take; lia).
  rewrite Hlen. split; [lia|]. split; [lia|]. split; [done|]. exists off. split; [done|]. by rewrite Hn.
Qed.

Lemma checkFixedHeader_whole (h : commonHeader) (b : bytes) (minLen off : nat) (hi lo : Z) :
  LengthIndicator h = Z.of_nat minLen -> pduLenOffset (PDUType h) = Some off ->
  (minLen <= length b)%nat -> drop off b = hi :: lo :: drop (off + 2) b ->
  (off <= length b)%nat -> join16 hi lo = Z.of_nat (length b) ->
  checkFixedHeader h b minLen = Ok b.
Proof.
  intros Hli Ho Hm Hd Hoff Hj. unfold checkFixedHeader. rewrite Hli, Z.eqb_refl. cbn [negb].
  rewrite (proj2 (Nat.ltb_ge _ _)) by lia. rewrite Ho, from_Ok, Hd by lia. simpl.
  rewrite Hj, Nat2Z.id. rewrite !(proj2 (Nat.ltb_ge _ _)) by lia.
  rewrite slice_0, firstn_all by lia. done.
Qed.

(** The length field reads back when the PDU fits it. *)
Lemma len_field_join (n : nat) :
  (Z.of_nat n <= 65535) ->
  join16 (u8 (Z.shiftr (u16 (Z.of_nat n)) 8)) (u8 (u16 (Z.of_nat n))) = Z.of_nat n.
Proof.
  intros H. unfold u16. rewrite Z.mod_small by lia. apply join16_put. unfold u16_ok. lia.
Qed.

(** ** Well-formed PDUs *)

Definition LANHello_ok (p : LANHello) : Prop :=
  0 <= LH_CircuitType p < 4 /\ arr 6 (LH_SourceID p) /\ u16_ok (LH_HoldingTime p) /\
  0 <= LH_Priority p < 128 /\ arr 7 (LH_LANID p) /\ Forall tlv_body_ok (LH_TLVs p).
Definition P2PHello_ok (p : P2PHello) : Prop :=
  0 <= PH_CircuitType p < 4 /\ arr 6 (PH_SourceID p) /\ u16_ok (PH_HoldingTime p) /\
  byte_ok (PH_LocalCircuitID p) /\ Forall tlv_body_ok (PH_TLVs p).
Definition LSP_ok (p : LSP) : Prop :=
  u16_ok (RemainingTime p) /\ arr 8 (LSP_LSPID p) /\ u32_ok (SequenceNumber p) /\
  0 <= ISType p < 4 /\ Forall tlv_body_ok (LSP_TLVs p).
Definition CSNP_ok (p : CSNP) : Prop :=
  arr 7 (CS_SourceID p) /\ arr 8 (StartLSP p) /\ arr 8 (EndLSP p) /\ Forall tlv_body_ok (CS_TLVs p).
Definition PSNP_ok (p : PSNP) : Prop :=
  arr 7 (PS_SourceID p) /\ Forall tlv_body_ok (PS_TLVs p).

Definition PDU_ok (p : PDU) : Prop :=
  match p with
  | PDULANHello p => LANHello_ok p
  | PDUP2PHello p => P2PHello_ok p
  | PDULSP p => LSP_ok p
  | PDUCSNP p => CSNP_ok p
  | PDUPSNP p => PSNP_ok p
  end.

Lemma land_ones_id (x k : Z) : 0 <= k -> 0 <= x < 2 ^ k -> Z.land x (Z.ones k) = x.
Proof. intros Hk Hx. rewrite Z.land_ones by done. by apply Z.mod_small. Qed.

Lemma land_3 (x : Z) : 0 <= Z.land x 3 < 4.
Proof. change 3 with (Z.ones 2). rewrite Z.land_ones by lia. apply Z.mod_pos_bound. lia. Qed.
Lemma land_127 (x : Z) : 0 <= Z.land x 127 < 128.
Proof. change 127 with (Z.ones 7). rewrite Z.land_ones by lia. apply Z.mod_pos_bound. lia. Qed.
Lemma land_3_id (x : Z) : 0 <= x < 4 -> Z.land x 3 = x.
Proof. intros H. by apply (land_ones_id x 2). Qed.
Lemma land_127_id (x : Z) : 0 <= x < 128 -> Z.land x 127 = x.
Proof. intros H. by apply (land_ones_id x 7). Qed.

Lemma flagsOctet_rt (p : LSP) :
  0 <= ISType p < 4 ->
  let f := flagsOctet p in
  byte_ok f /\ flag f lspFlagPartition = Partition p /\ flag f lspFlagAttError = AttError p /\
  flag f lspFlagAttExpense = AttExpense p /\ flag f lspFlagAttDelay = AttDelay p /\
  flag f lspFlagAttDefault = AttDefault p /\ flag f lspFlagOverload = Overload p /\
  Z.land f lspISTypeMask = ISType p.
Proof.
  destruct p as [l rt id seq ck [] [] [] [] [] [] ty tlvs]; simpl; intros H;
    (assert (ty = 0 \/ ty = 1 \/ ty = 2 \/ ty = 3) as [->|[->|[->| ->]]] by lia); by vm_compute.
Qed.

(** ** The laws of a PDU decoder *)

Lemma checkFixedHeader_fix (h : commonHeader) (b b' : bytes) (minLen : nat) :
  bytes_ok b -> checkFixedHeader h b minLen = Ok b' ->
  bytes_ok b' /\ (minLen <= length b' <= length b)%nat /\ Z.of_nat (length b') <= 65535.
Proof.
  intros Hb H. destruct (checkFixedHeader_inv h b b' minLen H) as (_ & Hl & Eb & off & _ & Hn).
  split; [rewrite Eb; octets|]. split; [done|].
  apply bind_Ok in Hn as (n & Hn & [= <-]).
  assert (Hd : bytes_ok (drop off b)) by octets.
  destruct (drop off b) as [|x [|y r]]; try done. injection Hn as <-. octets_in.
  pose proof (join16_ok x y ltac:(done) ltac:(done)). unfold u16_ok in *. lia.
Qed.

(** Checking twice is checking once. *)
Lemma checkFixedHeader_again (h : commonHeader) (b b' : bytes) (minLen : nat) :
  checkFixedHeader h b minLen = Ok b' ->
  (forall off, pduLenOffset (PDUType h) = Some off -> (off + 2 <= minLen)%nat) ->
  checkFixedHeader h b' minLen = Ok b'.
Proof.
  intros H Hoff. destruct (checkFixedHeader_inv h b b' minLen H) as (Hli & Hl & Eb & off & Ho & Hn).
  specialize (Hoff off Ho).
  apply bind_Ok in Hn as (n & Hn & [= Hnl]).
  assert (Hd : be16 (drop off b') = Ok n).
  { rewrite Eb, <- Hn. rewrite skipn_firstn_comm.
    destruct (drop off b) as [|x [|y r]] eqn:Ed.
    - done.
    - simpl in Hn. done.
    - assert (Hlen : (2 <= length b' - off)%nat) by lia.
      destruct (length b' - off)%nat as [|[|k]]; [lia|lia|done]. }
  unfold checkFixedHeader. rewrite Hli, Z.eqb_refl. cbn [negb].
  rewrite (proj2 (Nat.ltb_ge _ _)) by lia. rewrite Ho, from_Ok by lia. cbn [mbind outcome_bind].
  rewrite Hd. cbn [mbind outcome_bind]. rewrite Hnl.
  rewrite !(proj2 (Nat.ltb_ge _ _)) by lia. by rewrite slice_0, firstn_all by lia.
Qed.

(** A decoder that starts with the check may as well be given its result. *)
Lemma checked_twice (h : commonHeader) (b : bytes) (minLen off : nat) (body : bytes -> outcome PDU) :
  pduLenOffset (PDUType h) = Some off -> (off + 2 <= minLen)%nat ->
  checkFixedHeader h b minLen ≫= body =
  (b' ← checkFixedHeader h b minLen; checkFixedHeader h b' minLen ≫= body).
Proof.
  intros Ho Hm. destruct (checkFixedHeader h b minLen) as [b'| |] eqn:E; [|done..].
  cbn [mbind outcome_bind]. rewrite (checkFixedHeader_again h b b' minLen E); [done|]. congruence.
Qed.

(** A decoder body does not panic on a PDU of its fixed length or more. *)
Tactic Notation "decode_nopanic" int_or_var(n) :=
  apply bind_Panic; [eapply checkFixedHeader_nopanic; [eassumption|lia]|];
  let b' := fresh "b'" in let Hc := fresh "Hc" in let Hl := fresh "Hl" in
  intros b' Hc; apply checkFixedHeader_inv in Hc as (_ & [Hl _] & _);
  split_bytes n b'; simpl; apply bind_Panic; [apply decodeTLVs_nopanic|done].

(** A decoder body on a PDU whose length field counts all of it. *)
Ltac decode_whole o :=
  erewrite checkFixedHeader_whole with (off := o);
    [|reflexivity|reflexivity|apply Nat.leb_le; reflexivity|reflexivity|apply Nat.leb_le; reflexivity
     |simpl length in *; rewrite len_field_join; [reflexivity|assumption]].

Ltac unfold_lens :=
  unfold lanHelloHeaderLen, p2pHelloHeaderLen, lspHeaderLen, csnpHeaderLen, psnpHeaderLen,
    len_field in *.

(** ** Hellos *)

Lemma LANHello_nopanic (level : Level) (h : commonHeader) (b : bytes) :
  pduLenOffset (PDUType h) = Some 17%nat -> decodeLANHello level h b <> Panic.
Proof. intros Ho. unfold decodeLANHello. unfold_lens. decode_nopanic 27. Qed.

Lemma LANHello_fix (level : Level) (h : commonHeader) (b : bytes) (p : PDU) :
  bytes_ok b -> decodeLANHello level h b = Ok p ->
  PDU_ok p /\ exists b' p', PDU_Serialize p = Ok (b', p') /\
    (length b' <= length b)%nat /\ Z.of_nat (length b') <= 65535.
Proof.
  intros Hb H. apply bind_Ok in H as (b' & Hc & H).
  destruct (checkFixedHeader_fix _ _ _ _ Hb Hc) as (Hb' & [Hl Hlb] & Hmax). clear Hc Hb.
  unfold_lens. split_bytes 27 b'. simpl in H. rewrite drop_0 in H.
  apply bind_Ok in H as (tlvs & Ht & [= <-]). octets_in.
  destruct (decodeTLVs_fix b' tlvs ltac:(done) Ht) as (Hok & v & Hv & Hle). split.
  - split; [apply land_3|]. split; [split; [done|simpl; octets]|]. split; [simpl; octets|].
    split; [apply land_127|]. split; [split; [done|simpl; octets]|done].
  - simpl. unfold LANHello_Serialize. simpl. rewrite Hv. simpl. do 2 eexists. split; [done|].
    simpl in *. lia.
Qed.

Lemma LANHello_rt (q : LANHello) (b : bytes) :
  LANHello_ok q -> LANHello_Serialize q = Ok b -> Z.of_nat (length b) <= 65535 ->
  (exists r, b = putCommonHeader (LANHello_PDUType q) 27 ++ r) /\
  decodeLANHello (LH_Level q) (mkCommonHeader 27 (LANHello_PDUType q) 0) b = Ok (PDULANHello q).
Proof.
  intros (Hct & [Hls Hbs] & Hh & Hp & [Hln Hbn] & Ht) H Hlen.
  apply bind_Ok in H as (tlvs & Hs & [= <-]).
  destruct (decodeTLVs_rt _ _ Ht Hs) as [_ Hd].
  destruct q as [lv ct src hold prio lan ts]. simpl in *.
  split_bytes 6 src. destruct src; [|done]. split_bytes 7 lan. destruct lan; [|done].
  split; [by eexists|]. unfold decodeLANHello. unfold_lens.
  destruct lv; decode_whole 17%nat; simpl; rewrite drop_0, Hd; simpl;
    rewrite !land_3_id, !land_127_id, join16_put; auto using land_3, land_127.
Qed.

Lemma P2PHello_nopanic (h : commonHeader) (b : bytes) :
  pduLenOffset (PDUType h) = Some 17%nat -> decodeP2PHello h b <> Panic.
Proof. intros Ho. unfold decodeP2PHello. unfold_lens. decode_nopanic 20. Qed.

Lemma P2PHello_fix (h : commonHeader) (b : bytes) (p : PDU) :
  bytes_ok b -> decodeP2PHello h b = Ok p ->
  PDU_ok p /\ exists b' p', PDU_Serialize p = Ok (b', p') /\
    (length b' <= length b)%nat /\ Z.of_nat (length b') <= 65535.
Proof.
  intros Hb H. apply bind_Ok in H as (b' & Hc & H).
  destruct (checkFixedHeader_fix _ _ _ _ Hb Hc) as (Hb' & [Hl Hlb] & Hmax). clear Hc Hb.
  unfold_lens. split_bytes 20 b'. simpl in H. rewrite drop_0 in H.
  apply bind_Ok in H as (tlvs & Ht & [= <-]). octets_in.
  destruct (decodeTLVs_fix b' tlvs ltac:(done) Ht) as (Hok & v & Hv & Hle). split.
  - split; [apply land_3|]. split; [split; [done|simpl; octets]|]. split; [simpl; octets|done].
  - simpl. unfold P2PHello_Serialize. simpl. rewrite Hv. simpl. do 2 eexists. split; [done|].
    simpl in *. lia.
Qed.

Lemma P2PHello_rt (q : P2PHello) (b : bytes) :
  P2PHello_ok q -> P2PHello_Serialize q = Ok b -> Z.of_nat (length b) <= 65535 ->
  (exists r, b = putCommonHeader PDUTypeP2PHello 20 ++ r) /\
  decodeP2PHello (mkCommonHeader 20 PDUTypeP2PHello 0) b = Ok (PDUP2PHello q).
Proof.
  intros (Hct & [Hls Hbs] & Hh & Hp & Ht) H Hlen.
  apply bind_Ok in H as (tlvs & Hs & [= <-]).
  destruct (decodeTLVs_rt _ _ Ht Hs) as [_ Hd].
  destruct q as [ct src hold cid ts]. simpl in *. split_bytes 6 src. destruct src; [|done].
  split; [by eexists|]. unfold decodeP2PHello. unfold_lens.
  decode_whole 17%nat; simpl; rewrite drop_0, Hd; simpl.
  rewrite !land_3_id, join16_put; auto using land_3.
Qed.

(** ** Sequence number PDUs *)

Lemma CSNP_nopanic (level : Level) (h : commonHeader) (b : bytes) :
  pduLenOffset (PDUType h) = Some 8%nat -> decodeCSNP level h b <> Panic.
Proof. intros Ho. unfold decodeCSNP. unfold_lens. decode_nopanic 33. Qed.

Lemma CSNP_fix (level : Level) (h : commonHeader) (b : bytes) (p : PDU) :
  bytes_ok b -> decodeCSNP level h b = Ok p ->
  PDU_ok p /\ exists b' p', PDU_Serialize p = Ok (b', p') /\
    (length b' <= length b)%nat /\ Z.of_nat (length b') <= 65535.
Proof.
  intros Hb H. apply bind_Ok in H as (b' & Hc & H).
  destruct (checkFixedHeader_fix _ _ _ _ Hb Hc) as (Hb' & [Hl Hlb] & Hmax). clear Hc Hb.
  unfold_lens. split_bytes 33 b'. simpl in H. rewrite drop_0 in H.
  apply bind_Ok in H as (tlvs & Ht & [= <-]). octets_in.
  destruct (decodeTLVs_fix b' tlvs ltac:(done) Ht) as (Hok & v & Hv & Hle). split.
  - split; [split; [done|simpl; octets]|]. split; [split; [done|simpl; octets]|].
    split; [split; [done|simpl; octets]|done].
  - simpl. unfold CSNP_Serialize. simpl. rewrite Hv. simpl. do 2 eexists. split; [done|].
    simpl in *. lia.
Qed.

Lemma CSNP_rt (q : CSNP) (b : bytes) :
  CSNP_ok q -> CSNP_Serialize q = Ok b -> Z.of_nat (length b) <= 65535 ->
  (exists r, b = putCommonHeader (CSNP_PDUType q) 33 ++ r) /\
  decodeCSNP (CS_Level q) (mkCommonHeader 33 (CSNP_PDUType q) 0) b = Ok (PDUCSNP q).
Proof.
  intros ([Hl1 Hb1] & [Hl2 Hb2] & [Hl3 Hb3] & Ht) H Hlen.
  apply bind_Ok in H as (tlvs & Hs & [= <-]).
  destruct (decodeTLVs_rt _ _ Ht Hs) as [_ Hd].
  destruct q as [lv src st en ts]. simpl in *. split_bytes 7 src. destruct src; [|done].
  split_bytes 8 st. destruct st; [|done]. split_bytes 8 en. destruct en; [|done].
  split; [by eexists|]. unfold decodeCSNP. unfold_lens.
  destruct lv; decode_whole 8%nat; simpl; by rewrite drop_0, Hd.
Qed.

Lemma PSNP_nopanic (level : Level) (h : commonHeader) (b : bytes) :
  pduLenOffset (PDUType h) = Some 8%nat -> decodePSNP level h b <> Panic.
Proof. intros Ho. unfold decodePSNP. unfold_lens. decode_nopanic 17. Qed.

Lemma PSNP_fix (level : Level) (h : commonHeader) (b : bytes) (p : PDU) :
  bytes_ok b -> decodePSNP level h b = Ok p ->
  PDU_ok p /\ exists b' p', PDU_Serialize p = Ok (b', p') /\
    (length b' <= length b)%nat /\ Z.of_nat (length b') <= 65535.
Proof.
  intros Hb H. apply bind_Ok in H as (b' & Hc & H).
  destruct (checkFixedHeader_fix _ _ _ _ Hb Hc) as (Hb' & [Hl Hlb] & Hmax). clear Hc Hb.
  unfold_lens. split_bytes 17 b'. simpl in H. rewrite drop_0 in H.
  apply bind_Ok in H as (tlvs & Ht & [= <-]). octets_in.
  destruct (decodeTLVs_fix b' tlvs ltac:(done) Ht) as (Hok & v & Hv & Hle). split.
  - split; [split; [done|simpl; octets]|done].
  - simpl. unfold PSNP_Serialize. simpl. rewrite Hv. simpl. do 2 eexists. split; [done|].
    simpl in *. lia.
Qed.

Lemma PSNP_rt (q : PSNP) (b : bytes) :
  PSNP_ok q -> PSNP_Serialize q = Ok b -> Z.of_nat (length b) <= 65535 ->
  (exists r, b = putCommonHeader (PSNP_PDUType q) 17 ++ r) /\
  decodePSNP (PS_Level q) (mkCommonHeader 17 (PSNP_PDUType q) 0) b = Ok (PDUPSNP q).
Proof.
  intros ([Hl1 Hb1] & Ht) H Hlen.
  apply bind_Ok in H as (tlvs & Hs & [= <-]).
  destruct (decodeTLVs_rt _ _ Ht Hs) as [_ Hd].
  destruct q as [lv src ts]. simpl in *. split_bytes 7 src. destruct src; [|done].
  split; [by eexists|]. unfold decodePSNP. unfold_lens.
  destruct lv; decode_whole 8%nat; simpl; by rewrite drop_0, Hd.
Qed.

(** ** LSPs *)

(** The octets of a serialized LSP around its checksum. *)
Definition lsp_head (p : LSP) (tlvs : bytes) : bytes :=
  putCommonHeader (LSP_PDUType p) 27 ++ len_field 27 tlvs ++ put16 (RemainingTime p).
Definition lsp_ident (p : LSP) : bytes := LSP_LSPID p ++ put32 (SequenceNumber p).
Definition lsp_tail (p : LSP) (tlvs : bytes) : bytes := flagsOctet p :: tlvs.
Definition lsp_sum (p : LSP) (tlvs : bytes) : Z :=
  fletcherChecksum (lsp_ident p ++ [0; 0] ++ lsp_tail p tlvs) 12.

Lemma fletcherChecksum_u16 (data : bytes) (off : nat) :
  bytes_ok data -> u16_ok (fletcherChecksum data off).
Proof.
  intros Hb. destruct (fletcherChecksum_octets data off Hb) as (x & y & -> & Hx & Hy & _).
  apply join16_ok; unfold byte_ok; lia.
Qed.

Lemma LSP_Serialize_Ok (p : LSP) (tlvs : bytes) :
  LSP_ok p -> serializeTLVs (LSP_TLVs p) = Ok tlvs ->
  LSP_Serialize p = Ok (lsp_head p tlvs ++ lsp_ident p ++ put16 (lsp_sum p tlvs) ++ lsp_tail p tlvs,
                        set_checksum p (lsp_sum p tlvs)).
Proof.
  intros (Hrt & [Hl Hb] & Hseq & Hty & Ht) Hs.
  destruct p as [lv rt id seq ck f1 f2 f3 f4 f5 f6 ty ts]. simpl in *.
  split_bytes 8 id. destruct id; [|done].
  unfold LSP_Serialize, serializeWithChecksum. simpl. rewrite Hs. cbn [mbind outcome_bind].
  reflexivity.
Qed.

Lemma LSP_Serialize_inv (p p' : LSP) (b : bytes) :
  LSP_ok p -> LSP_Serialize p = Ok (b, p') ->
  exists tlvs, serializeTLVs (LSP_TLVs p) = Ok tlvs /\ bytes_ok tlvs /\
    decodeTLVs tlvs = Ok (LSP_TLVs p) /\
    b = lsp_head p tlvs ++ lsp_ident p ++ put16 (lsp_sum p tlvs) ++ lsp_tail p tlvs /\
    p' = set_checksum p (lsp_sum p tlvs).
Proof.
  intros Hok H. pose proof H as H'. apply bind_Ok in H as (b0 & H0 & _).
  apply bind_Ok in H0 as (tlvs & Hs & _).
  rewrite (LSP_Serialize_Ok p tlvs Hok Hs) in H'. injection H' as <- <-.
  destruct Hok as (_ & _ & _ & _ & Ht). destruct (decodeTLVs_rt _ _ Ht Hs) as [Hb Hd].
  exists tlvs. done.
Qed.

Lemma lsp_ident_ok (p : LSP) : LSP_ok p -> bytes_ok (lsp_ident p) /\ length (lsp_ident p) = 12%nat.
Proof.
  intros (_ & [Hl Hb] & _). unfold lsp_ident. split; [octets|]. rewrite length_app, Hl. done.
Qed.

Lemma lsp_tail_ok (p : LSP) (tlvs : bytes) :
  LSP_ok p -> bytes_ok tlvs -> bytes_ok (lsp_tail p tlvs).
Proof.
  intros (_ & _ & _ & Hty & _) Hb. destruct (flagsOctet_rt p Hty) as [Hf _]. unfold lsp_tail. octets.
Qed.

Lemma LSP_nopanic (level : Level) (h : commonHeader) (b : bytes) :
  pduLenOffset (PDUType h) = Some 8%nat -> decodeLSP level h b <> Panic.
Proof. intros Ho. unfold decodeLSP. unfold_lens. decode_nopanic 27. Qed.

Lemma LSP_fix (level : Level) (h : commonHeader) (b : bytes) (p : PDU) :
  bytes_ok b -> decodeLSP level h b = Ok p ->
  PDU_ok p /\ exists b' p', PDU_Serialize p = Ok (b', p') /\
    (length b' <= length b)%nat /\ Z.of_nat (length b') <= 65535.
Proof.
  intros Hb H. apply bind_Ok in H as (b' & Hc & H).
  destruct (checkFixedHeader_fix _ _ _ _ Hb Hc) as (Hb' & [Hl Hlb] & Hmax). clear Hc Hb.
  unfold_lens. split_bytes 27 b'. simpl in H. rewrite drop_0 in H.
  apply bind_Ok in H as (tlvs & Ht & [= <-]). octets_in.
  destruct (decodeTLVs_fix b' tlvs ltac:(done) Ht) as (Hok & v & Hv & Hle).
  set (q := mkLSP _ _ _ _ _ _ _ _ _ _ _ _ _).
  assert (Hq : LSP_ok q).
  { split; [simpl; octets|]. split; [split; [done|simpl; octets]|]. split; [simpl; octets|].
    split; [apply land_3|done]. }
  split; [exact Hq|]. unfold PDU_Serialize. rewrite (LSP_Serialize_Ok q v Hq Hv). simpl.
  do 2 eexists. split; [done|]. simpl in *. lia.
Qed.

Lemma LSP_rt (q q' : LSP) (b : bytes) :
  LSP_ok q -> LSP_Serialize q = Ok (b, q') -> Z.of_nat (length b) <= 65535 ->
  (exists r, b = putCommonHeader (LSP_PDUType q) 27 ++ r) /\
  decodeLSP (LSP_Level q) (mkCommonHeader 27 (LSP_PDUType q) 0) b = Ok (PDULSP q').
Proof.
  intros Hok H Hlen. destruct (LSP_Serialize_inv q q' b Hok H) as (tlvs & Hs & Hb & Hd & -> & ->).
  assert (Hsum : u16_ok (lsp_sum q tlvs)).
  { apply fletcherChecksum_u16. pose proof (lsp_ident_ok q Hok) as [? _].
    pose proof (lsp_tail_ok q tlvs Hok Hb). octets. }
  clear H. set (sum := lsp_sum q tlvs) in *. clearbody sum.
  destruct Hok as (Hrt & [Hl Hbi] & Hseq & Hty & Ht).
  destruct (flagsOctet_rt q Hty) as (_ & H1 & H2 & H3 & H4 & H5 & H6 & H7). cbn zeta in *.
  unfold lsp_head, lsp_ident, lsp_tail, set_checksum in *. set (fl := flagsOctet q) in *. clearbody fl.
  destruct q as [lv rt id seq ck f1 f2 f3 f4 f5 f6 ty ts]. simpl in *.
  split_bytes 8 id. destruct id; [|done].
  split; [by eexists|]. unfold decodeLSP. unfold_lens.
  destruct lv; decode_whole 8%nat.
  all: simpl; rewrite drop_0, Hd; cbn [mbind outcome_bind].
  all: rewrite (join16_put rt), (join16_put sum), (join32_put seq), H1, H2, H3, H4, H5, H6, H7 by done.
  all: reflexivity.
Qed.

Lemma LSP_Serialize_valid (p p' : LSP) (b : bytes) :
  LSP_ok p -> LSP_Serialize p = Ok (b, p') -> LSPChecksumValidRaw b = Ok true.
Proof.
  intros Hok H. destruct (LSP_Serialize_inv p p' b Hok H) as (tlvs & Hs & Hb & Hd & -> & _).
  destruct (lsp_ident_ok p Hok) as [Hib Hil]. pose proof (lsp_tail_ok p tlvs Hok Hb) as Htb.
  unfold LSPChecksumValidRaw, lspHeaderLen. rewrite (proj2 (Nat.ltb_ge _ _)).
  2:{ rewrite !length_app, Hil. simpl. lia. }
  rewrite from_Ok by (rewrite !length_app; simpl; lia). cbn [mbind outcome_bind].
  rewrite drop_app_length' by done. unfold lsp_sum. rewrite <- Hil.
  by rewrite fletcher_store_valid.
Qed.

(** ** Dispatch *)

(** What dispatching to a registered decoder promises. *)
Record pdu_laws (t : Z) (dec : commonHeader -> bytes -> outcome PDU) : Prop := {
  pl_nopanic : forall h b, PDUType h = t -> dec h b <> Panic;
  pl_fix : forall h b p, bytes_ok b -> dec h b = Ok p ->
    PDU_ok p /\ exists b' p', PDU_Serialize p = Ok (b', p') /\
      (length b' <= length b)%nat /\ Z.of_nat (length b') <= 65535;
  pl_checked : exists minLen off body, pduLenOffset t = Some off /\ (off + 2 <= minLen)%nat /\
    (8 <= minLen)%nat /\ forall h b, dec h b = checkFixedHeader h b minLen ≫= body h
}.

Ltac pdu_laws_tac np fx n o :=
  split; [intros h b Hh; apply np; rewrite Hh; reflexivity
         |intros h b p; apply fx
         |exists n, o; eexists; do 3 (split; [done || lia|]); intros h b; reflexivity].

Lemma pduDecoders_laws (t : Z) (dec : commonHeader -> bytes -> outcome PDU) :
  pduDecoders t = Some dec -> pdu_laws t dec.
Proof.
  unfold pduDecoders. intros H.
  repeat match type of H with
    | (if ?x =? ?k then _ else _) = _ => destruct (Z.eqb_spec x k) as [->|_]; [injection H as <-|]
    end; [..|done].
  - pdu_laws_tac LANHello_nopanic LANHello_fix 27%nat 17%nat.
  - pdu_laws_tac LANHello_nopanic LANHello_fix 27%nat 17%nat.
  - pdu_laws_tac P2PHello_nopanic P2PHello_fix 20%nat 17%nat.
  - pdu_laws_tac LSP_nopanic LSP_fix 27%nat 8%nat.
  - pdu_laws_tac LSP_nopanic LSP_fix 27%nat 8%nat.
  - pdu_laws_tac CSNP_nopanic CSNP_fix 33%nat 8%nat.
  - pdu_laws_tac CSNP_nopanic CSNP_fix 33%nat 8%nat.
  - pdu_laws_tac PSNP_nopanic PSNP_fix 17%nat 8%nat.
  - pdu_laws_tac PSNP_nopanic PSNP_fix 17%nat 8%nat.
Qed.

Lemma DecodePDU_no_panic (b : bytes) : DecodePDU b <> Panic.
Proof.
  apply bind_Panic; [apply decodeCommonHeader_nopanic|]. intros h _.
  destruct (pduDecoders (PDUType h)) as [dec|] eqn:E; [|done].
  by apply (pl_nopanic _ _ (pduDecoders_laws _ _ E)).
Qed.

Lemma DecodePDU_fixpoint (b : bytes) (p : PDU) :
  bytes_ok b -> DecodePDU b = Ok p ->
  PDU_ok p /\ exists b' p', PDU_Serialize p = Ok (b', p') /\
    (length b' <= length b)%nat /\ Z.of_nat (length b') <= 65535.
Proof.
  intros Hb H. apply bind_Ok in H as (h & _ & H).
  destruct (pduDecoders (PDUType h)) as [dec|] eqn:E; [|done].
  by apply (pl_fix _ _ (pduDecoders_laws _ _ E) h).
Qed.

Lemma DecodePDU_put (t li : Z) (r : bytes) (dec : commonHeader -> bytes -> outcome PDU) :
  0 <= t < 32 -> pduDecoders t = Some dec ->
  DecodePDU (putCommonHeader t li ++ r) = dec (mkCommonHeader li t 0) (putCommonHeader t li ++ r).
Proof.
  intros Ht Hd. unfold DecodePDU. rewrite decodeCommonHeader_put by done. simpl. by rewrite Hd.
Qed.

Lemma DecodePDU_Serialize (p p' : PDU) (b : bytes) :
  PDU_ok p -> PDU_Serialize p = Ok (b, p') -> Z.of_nat (length b) <= 65535 ->
  DecodePDU b = Ok p'.
Proof.
  intros Hok H Hlen. destruct p as [q|q|q|q|q]; simpl in H; apply bind_Ok in H as (x & Hx & H).
  - injection H as -> <-. destruct (LANHello_rt q b Hok Hx Hlen) as [[r ->] Hd].
    destruct q as [[] ? ? ? ? ? ?]; by erewrite DecodePDU_put by done.
  - injection H as -> <-. destruct (P2PHello_rt q b Hok Hx Hlen) as [[r ->] Hd].
    by erewrite DecodePDU_put by done.
  - destruct x as [b0 q']. injection H as -> <-. destruct (LSP_rt q q' b Hok Hx Hlen) as [[r ->] Hd].
    destruct q as [[] ? ? ? ? ? ? ? ? ? ? ? ?]; by erewrite DecodePDU_put by done.
  - injection H as -> <-. destruct (CSNP_rt q b Hok Hx Hlen) as [[r ->] Hd].
    destruct q as [[] ? ? ? ?]; by erewrite DecodePDU_put by done.
  - injection H as -> <-. destruct (PSNP_rt q b Hok Hx Hlen) as [[r ->] Hd].
    destruct q as [[] ? ?]; by erewrite DecodePDU_put by done.
Qed.

(** ** Trailing padding *)

Lemma TrimToPDULength_prefix (b : bytes) :
  exists n, (n <= length b)%nat /\ TrimToPDULength b = Ok (take n b).
Proof.
  assert (Hall : exists n, (n <= length b)%nat /\ mret b = Ok (take n b)).
  { exists (length b). split; [done|]. by rewrite firstn_all. }
  unfold TrimToPDULength.
  destruct (decodeCommonHeader b) as [h|e|] eqn:Eh; [|exact Hall|by apply decodeCommonHeader_nopanic in Eh].
  destruct (pduLenOffset (PDUType h)) as [off|]; [|exact Hall].
  destruct (Nat.ltb_spec (length b) (off + 2)) as [_|Hl]; [exact Hall|].
  rewrite slice_Ok by lia. replace (off + 2 - off)%nat with 2%nat by lia. cbn [mbind outcome_bind].
  assert (Hd : (2 <= length (drop off b))%nat) by (rewrite length_drop; lia).
  destruct (drop off b) as [|x [|y r]]; [simpl in Hd; lia..|].
  change (be16 (take 2 (x :: y :: r))) with (Ok (join16 x y)). cbn [mbind outcome_bind].
  destruct ((_ <? _)%nat || _) eqn:E; [exact Hall|].
  apply orb_false_iff in E as [_ E]. rewrite slice_0 by lia.
  exists (Z.to_nat (join16 x y)). split; [lia|done].
Qed.

(** What trimming did, when it did something. *)
Lemma TrimToPDULength_inv (b t : bytes) :
  TrimToPDULength b = Ok t ->
  t = b \/ exists h off n, decodeCommonHeader b = Ok h /\ pduLenOffset (PDUType h) = Some off /\
    be16 (drop off b) = Ok n /\ (8 <= Z.to_nat n <= length b)%nat /\ (off + 2 <= length b)%nat /\
    t = take (Z.to_nat n) b.
Proof.
  unfold TrimToPDULength. destruct (decodeCommonHeader b) as [h|e|] eqn:Eh; [|by intros [= <-]; left|done].
  destruct (pduLenOffset (PDUType h)) as [off|] eqn:Eo; [|by intros [= <-]; left].
  destruct (Nat.ltb_spec (length b) (off + 2)) as [_|Hl]; [by intros [= <-]; left|].
  rewrite slice_Ok by lia. replace (off + 2 - off)%nat with 2%nat by lia. cbn [mbind outcome_bind].
  assert (Hd : (2 <= length (drop off b))%nat) by (rewrite length_drop; lia).
  destruct (drop off b) as [|x [|y r]] eqn:Ed; [simpl in Hd; lia..|].
  change (be16 (take 2 (x :: y :: r))) with (Ok (join16 x y)). cbn [mbind outcome_bind].
  destruct ((_ <? _)%nat || _) eqn:E; [by intros [= <-]; left|].
  apply orb_false_iff in E as [E1 E2]. unfold commonHeaderLen in E1. rewrite slice_0 by lia. intros [= <-].
  right. exists h, off, (join16 x y). rewrite Ed. do 3 (split; [done|]). split; [lia|done].
Qed.

Lemma be16_take (off n : nat) (b : bytes) :
  (off + 2 <= n)%nat -> (n <= length b)%nat -> be16 (drop off (take n b)) = be16 (drop off b).
Proof.
  intros Hn Hb. rewrite skipn_firstn_comm.
  assert (Hd : (2 <= length (drop off b))%nat) by (rewrite length_drop; lia).
  destruct (drop off b) as [|x [|y r]]; [simpl in Hd; lia..|].
  destruct (n - off)%nat as [|[|k]] eqn:E; [lia|lia|done].
Qed.

Lemma checkFixedHeader_trim (h : commonHeader) (b : bytes) (minLen off : nat) (n : Z) :
  pduLenOffset (PDUType h) = Some off -> (off + 2 <= minLen)%nat -> be16 (drop off b) = Ok n ->
  (off + 2 <= length b)%nat -> (Z.to_nat n <= length b)%nat ->
  forall b', checkFixedHeader h (take (Z.to_nat n) b) minLen = Ok b' <->
             checkFixedHeader h b minLen = Ok b'.
Proof.
  intros Ho Hm Hn Hoff Hle b'. unfold checkFixedHeader. rewrite Ho, length_take_le by done.
  destruct (negb _); [done|].
  destruct (Nat.ltb_spec (Z.to_nat n) minLen) as [Hlt|Hge].
  - split; [done|]. destruct (Nat.ltb_spec (length b) minLen); [done|].
    rewrite from_Ok by lia. cbn [mbind outcome_bind]. rewrite Hn. cbn [mbind outcome_bind].
    by rewrite (proj2 (Nat.ltb_lt _ _)).
  - rewrite (proj2 (Nat.ltb_ge (length b) minLen)) by lia.
    rewrite !from_Ok by (rewrite ?length_take_le; lia). cbn [mbind outcome_bind].
    rewrite be16_take, Hn by lia. cbn [mbind outcome_bind].
    rewrite !(proj2 (Nat.ltb_ge _ _)) by lia.
    rewrite !slice_0 by (rewrite ?length_take_le; lia). rewrite firstn_firstn, Nat.min_id. done.
Qed.

Lemma DecodePDU_Trim (b t : bytes) (p : PDU) :
  TrimToPDULength b = Ok t -> DecodePDU t = Ok p <-> DecodePDU b = Ok p.
Proof.
  intros H. destruct (TrimToPDULength_inv b t H) as
    [->|(h & off & n & Hh & Ho & Hn & [H8 Hle] & Hoff & ->)]; [done|].
  unfold DecodePDU. rewrite decodeCommonHeader_take, Hh by lia. cbn [mbind outcome_bind].
  destruct (pduDecoders (PDUType h)) as [dec|] eqn:Ed; [|done].
  destruct (pl_checked _ _ (pduDecoders_laws _ _ Ed)) as (minLen & off' & body & Ho' & Hm & _ & Hdec).
  rewrite Ho in Ho'. injection Ho' as <-. rewrite !Hdec, !bind_Ok.
  split; intros (b' & Hc & Hb); exists b'; (split; [|done]);
    by apply (checkFixedHeader_trim h b minLen off n Ho Hm Hn Hoff Hle).
Qed.

(** Serializing an LSP whose TLVs serialize never reads out of range. *)
Lemma LSP_Serialize_nopanic (p : LSP) : serializeTLVs (LSP_TLVs p) <> Panic -> LSP_Serialize p <> Panic.
Proof.
  intros H. unfold LSP_Serialize, serializeWithChecksum.
  destruct (serializeTLVs (LSP_TLVs p)) as [tlvs| |]; [|done..]. cbn [mbind outcome_bind mret outcome_ret].
  rewrite from_Ok; [done|]. rewrite !length_app. simpl. lia.
Qed.

Lemma LSP_Serialize_fields (p p' : LSP) (b : bytes) :
  LSP_Serialize p = Ok (b, p') -> exists sum, p' = set_checksum p sum.
Proof.
  unfold LSP_Serialize. intros H. apply bind_Ok in H as (b0 & _ & H).
  apply bind_Ok in H as (body & _ & [= _ <-]). by eexists.
Qed.
