(* ===== verification/Auth.v ===== *)
(** pkg/packet/auth.go: locating, filling and verifying the HMAC digest of a
    serialized PDU.  The HMAC itself (crypto/hmac over the standard hashes) is a
    parameter of the definitions that use it. *)

From S2P Require Import Prelude.
From S2P Require Import Codec.
From S2P Require Import Framing.
From S2P Require Import Ids.
From S2P Require Import Tlv.
From S2P Require Import Checksum.
From S2P Require Import Pdu.
Local Open Scope Z_scope.

(** [type AuthAlgorithm uint8]: the five named values, and any other. *)
Inductive AuthAlgorithm : Set :=
  | AuthMD5
  | AuthSHA1
  | AuthSHA256
  | AuthSHA384
  | AuthSHA512
  | AuthOther (n : Z).

#[export] Instance AuthAlgorithm_eq_dec : EqDecision AuthAlgorithm.
Proof. solve_decision. Defined.

Definition is_md5 (a : AuthAlgorithm) : bool := match a with AuthMD5 => true | _ => false end.

(** [newHash]'s second result. *)
Definition newHash_ok (a : AuthAlgorithm) : bool :=
  match a with AuthOther _ => false | _ => true end.

Definition digestLen (a : AuthAlgorithm) : nat :=
  match a with
  | AuthMD5 => 16 | AuthSHA1 => 20 | AuthSHA256 => 32 | AuthSHA384 => 48 | AuthSHA512 => 64
  | AuthOther _ => 0
  end.

Definition authType (a : AuthAlgorithm) : Z :=
  if is_md5 a then AuthTypeHMACMD5 else AuthTypeGeneric.

Definition AuthTLV (algo : AuthAlgorithm) (keyID : Z) : TLV :=
  if is_md5 algo
  then AuthenticationTLV (mkAuthentication AuthTypeHMACMD5 (replicate (digestLen algo) 0))
  else AuthenticationTLV (mkAuthentication AuthTypeGeneric (put16 keyID ++ replicate (digestLen algo) 0)).

(** The digest an Authentication TLV value of [l] octets at [v] holds for the
    algorithm and key: the [switch] of [authDigestRange]. *)
Definition digest_at (pdu : bytes) (algo : AuthAlgorithm) (keyID : Z) (v l : nat)
    (found : option (nat * nat)) : outcome (option (nat * nat)) :=
  let dl := digestLen algo in
  if (l <? 1)%nat then mret found else
  ty ← idx pdu v;
  if negb (ty =? authType algo) then mret found else
  if is_md5 algo then
    if (l =? 1 + dl)%nat then mret (Some (v + 1, v + 1 + dl)%nat) else mret found
  else if (l =? 3 + dl)%nat then
    k1 ← idx pdu (v + 1);
    k2 ← idx pdu (v + 2);
    if join16 k1 k2 =? keyID then mret (Some (v + 3, v + 3 + dl)%nat) else mret found
  else mret found.

(** The loop of [authDigestRange] from index [i]. *)
Fixpoint digest_loop (fuel : nat) (pdu : bytes) (algo : AuthAlgorithm) (keyID : Z)
    (i : nat) (seen : bool) (found : option (nat * nat)) : outcome (option (nat * nat)) :=
  match fuel with
  | O => Panic
  | S fuel =>
      if (length pdu <? i + 2)%nat then Ok found else
      typ ← idx pdu i;
      l ← idx pdu (i + 1);
      let l := Z.to_nat l in
      if (length pdu <? i + 2 + l)%nat then Ok found else
      let next := (i + 2 + l)%nat in
      if negb (typ =? TLVTypeAuthentication) then digest_loop fuel pdu algo keyID next seen found else
      if seen then Ok None else
      found ← digest_at pdu algo keyID (i + 2) l found;
      digest_loop fuel pdu algo keyID next true found
  end.

Definition authDigestRange (pdu : bytes) (tlvOffset : nat) (algo : AuthAlgorithm) (keyID : Z)
  : outcome (option (nat * nat)) :=
  digest_loop (S (length pdu)) pdu algo keyID tlvOffset false None.

Section Auth.
(** crypto/hmac over the algorithm's hash: the digest of a message under a
    key. *)
Context (hmac : AuthAlgorithm -> bytes -> bytes -> bytes).

(** The message [hmacOver] hashes: the PDU with the digest (and an LSP's
    remaining lifetime and checksum) zeroed. *)
Definition zeroed (pdu : bytes) (s e : nat) (isLSP : bool) : outcome bytes :=
  let buf := store pdu s (replicate (e - s) 0) in
  if isLSP then
    if (length buf <? 26)%nat then Panic
    else mret (store (store buf 10 [0; 0]) 24 [0; 0])
  else mret buf.

Definition hmacOver (pdu : bytes) (s e : nat) (isLSP : bool) (key : bytes) (algo : AuthAlgorithm)
  : outcome bytes :=
  buf ← zeroed pdu s e isLSP; mret (hmac algo key buf).

(** [PatchAuth]: the PDU after the call, or [None] for its error. *)
Definition PatchAuth (pdu : bytes) (tlvOffset : nat) (algo : AuthAlgorithm) (keyID : Z)
    (key : bytes) (isLSP : bool) : outcome (option bytes) :=
  if negb (newHash_ok algo) then mret None else
  r ← authDigestRange pdu tlvOffset algo keyID;
  match r with
  | None => mret None
  | Some (s, e) =>
      d ← hmacOver pdu s e isLSP key algo;
      mret (Some (store pdu s (take (e - s) d)))
  end.

Definition VerifyAuth (pdu : bytes) (tlvOffset : nat) (algo : AuthAlgorithm) (keyID : Z)
    (key : bytes) (isLSP : bool) : outcome bool :=
  if negb (newHash_ok algo) then mret false else
  r ← authDigestRange pdu tlvOffset algo keyID;
  match r with
  | None => mret false
  | Some (s, e) =>
      cur ← slice pdu s e;
      d ← hmacOver pdu s e isLSP key algo;
      mret (bool_decide (cur = d))
  end.

Definition FinalizeLSPAuth (pdu : bytes) (algo : AuthAlgorithm) (keyID : Z) (key : bytes)
  : outcome (option bytes) :=
  r ← PatchAuth pdu lspHeaderLen algo keyID key true;
  match r with
  | None => mret None
  | Some pdu =>
      let pdu := store pdu 24 [0; 0] in
      body ← from pdu 12;
      mret (Some (store pdu 24 (put16 (fletcherChecksum body 12))))
  end.

Definition PatchHMACMD5 (pdu : bytes) (tlvOffset : nat) (key : bytes) (isLSP : bool) :=
  PatchAuth pdu tlvOffset AuthMD5 0 key isLSP.
Definition VerifyHMACMD5 (pdu : bytes) (tlvOffset : nat) (key : bytes) (isLSP : bool) :=
  VerifyAuth pdu tlvOffset AuthMD5 0 key isLSP.
End Auth.

(** ** The scan *)

Lemma digest_at_nopanic pdu algo keyID v l found :
  (v + l <= length pdu)%nat -> digest_at pdu algo keyID v l found <> Panic.
Proof.
  intros Hl. unfold digest_at. destruct (Nat.ltb_spec l 1); [done|].
  apply bind_Panic; [apply idx_nopanic; lia|]. intros ty _. destruct (negb _); [done|].
  destruct (is_md5 algo); [by destruct (_ =? _)%nat|].
  destruct (Nat.eqb_spec l (3 + digestLen algo)); [|done].
  apply bind_Panic; [apply idx_nopanic; lia|]. intros k1 _.
  apply bind_Panic; [apply idx_nopanic; lia|]. intros k2 _. by destruct (_ =? _).
Qed.

(** What it found lies inside the value, behind the auth type. *)
Lemma digest_at_inv pdu algo keyID v l s e :
  digest_at pdu algo keyID v l None = Ok (Some (s, e)) ->
  (v < s /\ e = s + digestLen algo /\ e = v + l)%nat.
Proof.
  unfold digest_at. destruct (Nat.ltb_spec l 1) as [|Hl]; [done|]. intros H.
  apply bind_Ok in H as (ty & _ & H). destruct (negb _); [done|].
  destruct (is_md5 algo).
  - destruct (Nat.eqb_spec l (1 + digestLen algo)); [|done]. injection H as <- <-. lia.
  - destruct (Nat.eqb_spec l (3 + digestLen algo)); [|done].
    apply bind_Ok in H as (k1 & _ & H). apply bind_Ok in H as (k2 & _ & H).
    destruct (_ =? _); [|done]. injection H as <- <-. lia.
Qed.

(** One turn of the loop on a well-framed TLV. *)
Lemma digest_loop_step fuel pdu algo keyID i seen found :
  digest_loop (S fuel) pdu algo keyID i seen found =
  (if (length pdu <? i + 2)%nat then Ok found else
   typ ← idx pdu i;
   l ← idx pdu (i + 1);
   if (length pdu <? i + 2 + Z.to_nat l)%nat then Ok found else
   if negb (typ =? TLVTypeAuthentication)
   then digest_loop fuel pdu algo keyID (i + 2 + Z.to_nat l) seen found else
   if seen then Ok None else
   found ← digest_at pdu algo keyID (i + 2) (Z.to_nat l) found;
   digest_loop fuel pdu algo keyID (i + 2 + Z.to_nat l) true found).
Proof. reflexivity. Qed.

Lemma digest_loop_nopanic fuel pdu algo keyID i seen found :
  (0 < fuel)%nat -> (length pdu < i + fuel)%nat ->
  digest_loop fuel pdu algo keyID i seen found <> Panic.
Proof.
  revert i seen found. induction fuel as [|fuel IH]; intros i seen found H0 Hf; [lia|].
  rewrite digest_loop_step. destruct (Nat.ltb_spec (length pdu) (i + 2)); [done|].
  apply bind_Panic; [apply idx_nopanic; lia|]. intros typ _.
  apply bind_Panic; [apply idx_nopanic; lia|]. intros l _.
  destruct (Nat.ltb_spec (length pdu) (i + 2 + Z.to_nat l)); [done|].
  destruct (negb _); [apply IH; lia|]. destruct seen; [done|].
  apply bind_Panic; [apply digest_at_nopanic; lia|]. intros f _. apply IH; lia.
Qed.

Lemma authDigestRange_nopanic pdu off algo keyID : authDigestRange pdu off algo keyID <> Panic.
Proof. apply digest_loop_nopanic; lia. Qed.

(** Once an Authentication TLV was seen the result can only be kept or
    dropped. *)
Lemma digest_loop_seen fuel pdu algo keyID i found r :
  digest_loop fuel pdu algo keyID i true found = Ok r -> r = found \/ r = None.
Proof.
  revert i. induction fuel as [|fuel IH]; intros i H; [done|]. rewrite digest_loop_step in H.
  destruct (_ <? _)%nat; [injection H as <-; by left|].
  apply bind_Ok in H as (typ & _ & H). apply bind_Ok in H as (l & _ & H).
  destruct (_ <? _)%nat; [injection H as <-; by left|].
  destruct (negb _); [by eapply IH|]. injection H as <-. by right.
Qed.

Lemma digest_loop_range fuel pdu algo keyID i s e :
  digest_loop fuel pdu algo keyID i false None = Ok (Some (s, e)) ->
  (i + 2 < s /\ e = s + digestLen algo /\ e <= length pdu)%nat.
Proof.
  revert i. induction fuel as [|fuel IH]; intros i H; [done|]. rewrite digest_loop_step in H.
  destruct (_ <? _)%nat; [done|].
  apply bind_Ok in H as (typ & _ & H). apply bind_Ok in H as (l & _ & H).
  destruct (Nat.ltb_spec (length pdu) (i + 2 + Z.to_nat l)); [done|].
  destruct (negb _); [specialize (IH _ H); lia|].
  apply bind_Ok in H as (f & Hf & H). apply digest_loop_seen in H as [<-|?]; [|done].
  apply digest_at_inv in Hf. lia.
Qed.

(** Two PDUs that agree outside the octets from [s] to [e]. *)
Definition agree (s e : nat) (a b : bytes) : Prop :=
  length a = length b /\ forall j, (j < s \/ e <= j)%nat -> a !! j = b !! j.

Lemma agree_idx s e a b j : agree s e a b -> (j < s \/ e <= j)%nat -> idx a j = idx b j.
Proof. intros [_ H] Hj. unfold idx. by rewrite H. Qed.

Lemma digest_loop_agree_after fuel a b algo keyID s e i found :
  agree s e a b -> (e <= i)%nat ->
  digest_loop fuel a algo keyID i true found = digest_loop fuel b algo keyID i true found.
Proof.
  intros Ha. revert i. induction fuel as [|fuel IH]; intros i Hi; [done|].
  rewrite !digest_loop_step. rewrite !(agree_idx s e a b) by (done || lia).
  destruct Ha as [Hl Hj]. rewrite Hl. destruct (_ <? _)%nat; [done|].
  destruct (idx b i) as [typ| |]; [|done..]. destruct (idx b (i + 1)) as [l| |]; [|done..].
  cbn [mbind outcome_bind]. destruct (_ <? _)%nat; [done|]. destruct (negb _); [|done]. apply IH. lia.
Qed.

(** The scan does not read the digest it finds. *)
Lemma digest_loop_agree fuel a b algo keyID s e i :
  agree s e a b -> digest_loop fuel a algo keyID i false None = Ok (Some (s, e)) ->
  digest_loop fuel b algo keyID i false None = Ok (Some (s, e)).
Proof.
  intros Ha. revert i. induction fuel as [|fuel IH]; intros i H; [done|].
  destruct (digest_loop_range _ _ _ _ _ _ _ H) as (Hs & He & Hle).
  rewrite digest_loop_step in *. rewrite <- !(agree_idx s e a b) by (done || lia).
  rewrite <- (proj1 Ha). destruct (_ <? _)%nat; [done|].
  destruct (idx a i) as [typ| |]; [|done..]. destruct (idx a (i + 1)) as [l| |]; [|done..].
  cbn [mbind outcome_bind] in *. destruct (_ <? _)%nat; [done|].
  destruct (negb _); [by apply IH|].
  apply bind_Ok in H as (f & Hf & H). pose proof (digest_loop_seen _ _ _ _ _ _ _ H) as [<-|?]; [|done].
  destruct (digest_at_inv _ _ _ _ _ _ _ Hf) as (Hvs & _ & Hve).
  assert (Hfb : digest_at b algo keyID (i + 2) (Z.to_nat l) None = Ok (Some (s, e))).
  { unfold digest_at in *. destruct (_ <? _)%nat; [done|].
    rewrite <- (agree_idx s e a b (i + 2)) by (done || lia).
    destruct (idx a (i + 2)) as [ty| |]; [|done..]. cbn [mbind outcome_bind] in *.
    destruct (negb _); [done|]. destruct (is_md5 algo); [done|].
    destruct (Nat.eqb_spec (Z.to_nat l) (3 + digestLen algo)); [|done].
    rewrite <- (agree_idx s e a b (i + 2 + 1)), <- (agree_idx s e a b (i + 2 + 2)) by (done || lia).
    done. }
  rewrite Hfb. cbn [mbind outcome_bind].
  rewrite <- (digest_loop_agree_after fuel a b algo keyID s e); [done|done|lia].
Qed.

Lemma authDigestRange_agree a b off algo keyID s e :
  agree s e a b -> authDigestRange a off algo keyID = Ok (Some (s, e)) ->
  authDigestRange b off algo keyID = Ok (Some (s, e)).
Proof.
  intros Ha H. unfold authDigestRange in *. rewrite <- (proj1 Ha). by apply digest_loop_agree with a.
Qed.

Lemma authDigestRange_range pdu off algo keyID s e :
  authDigestRange pdu off algo keyID = Ok (Some (s, e)) ->
  (off + 2 < s /\ e = s + digestLen algo /\ e <= length pdu)%nat.
Proof. apply digest_loop_range. Qed.

(** ** Stores *)

Lemma length_store b i s : (i + length s <= length b)%nat -> length (store b i s) = length b.
Proof. intros H. unfold store. rewrite !length_app, length_take, length_drop. lia. Qed.

Lemma store_lookup b i s j :
  (i + length s <= length b)%nat ->
  store b i s !! j = if decide (i <= j < i + length s)%nat then s !! (j - i)%nat else b !! j.
Proof.
  intros H. unfold store.
  assert (Ht : length (take i b) = i) by (rewrite length_take; lia).
  case_decide as Hj.
  - rewrite lookup_app_r by lia. rewrite Ht, lookup_app_l by lia. done.
  - destruct (decide (j < i)%nat).
    + rewrite lookup_app_l by lia. by rewrite lookup_take_lt by lia.
    + rewrite lookup_app_r by lia. rewrite Ht, lookup_app_r, lookup_drop by lia. f_equal. lia.
Qed.

Lemma slice_store b i s : (i + length s <= length b)%nat -> slice (store b i s) i (i + length s) = Ok s.
Proof.
  intros H. rewrite slice_Ok by (rewrite length_store; lia). unfold store.
  assert (Ht : length (take i b) = i) by (rewrite length_take; lia).
  rewrite drop_app_length' by done. rewrite take_app_length' by lia. done.
Qed.

Lemma agree_store b i s : (i + length s <= length b)%nat -> agree i (i + length s) b (store b i s).
Proof.
  intros H. split; [by rewrite length_store|]. intros j Hj. rewrite store_lookup by done.
  rewrite decide_False by lia. done.
Qed.

Lemma store_bytes_ok b i s : bytes_ok b -> bytes_ok s -> bytes_ok (store b i s).
Proof. intros Hb Hs. unfold store. octets. Qed.

(** The octets the hash does not cover: the digest, and an LSP's remaining
    lifetime and checksum. *)
Definition unhashed (s e : nat) (isLSP : bool) (j : nat) : Prop :=
  (s <= j < e)%nat \/ (isLSP = true /\ (j = 10 \/ j = 11 \/ j = 24 \/ j = 25)%nat).

Lemma zeroed_ext a b s e isLSP :
  length a = length b -> (s <= e <= length a)%nat ->
  (forall j, ~ unhashed s e isLSP j -> a !! j = b !! j) ->
  zeroed a s e isLSP = zeroed b s e isLSP.
Proof.
  intros Hl Hse Hj. unfold zeroed.
  assert (Hz : length (replicate (e - s) 0) = (e - s)%nat) by apply length_replicate.
  set (z := replicate (e - s) 0) in *. clearbody z.
  assert (Hla : length (store a s z) = length a) by (apply length_store; lia).
  assert (Hlb : length (store b s z) = length b) by (apply length_store; lia).
  rewrite Hla, Hlb, Hl. destruct isLSP.
  - destruct (Nat.ltb_spec (length b) 26); [done|]. f_equal. apply list_eq. intros j.
    rewrite !(store_lookup _ 24) by (rewrite length_store; simpl length; lia).
    rewrite !(store_lookup _ 10) by (simpl length; lia).
    rewrite !(store_lookup _ s) by lia. simpl length. repeat case_decide; try done.
    apply Hj. unfold unhashed. lia.
  - f_equal. apply list_eq. intros j. rewrite !store_lookup by lia.
    case_decide; [done|]. apply Hj. unfold unhashed. intros [?|[? _]]; [lia|done].
Qed.

Lemma digest_at_from a b algo keyID v l found n :
  (forall j, (n <= j)%nat -> a !! j = b !! j) -> (n <= v)%nat ->
  digest_at a algo keyID v l found = digest_at b algo keyID v l found.
Proof.
  intros Hj Hn. unfold digest_at, idx. by rewrite !Hj by lia.
Qed.

Lemma digest_loop_from fuel a b algo keyID i seen found n :
  length a = length b -> (forall j, (n <= j)%nat -> a !! j = b !! j) -> (n <= i)%nat ->
  digest_loop fuel a algo keyID i seen found = digest_loop fuel b algo keyID i seen found.
Proof.
  intros Hl Hj. revert i seen found. induction fuel as [|fuel IH]; intros i seen found Hn; [done|].
  rewrite !digest_loop_step, Hl. unfold idx. rewrite !Hj by lia.
  destruct (_ <? _)%nat; [done|]. destruct (b !! i) as [typ|]; [|done].
  destruct (b !! (i + 1)%nat) as [l|]; [|done]. cbn [mbind outcome_bind].
  destruct (_ <? _)%nat; [done|]. rewrite IH by lia. destruct (negb _); [done|].
  destruct seen; [done|]. rewrite (digest_at_from a b algo keyID _ _ _ n) by (done || lia).
  destruct (digest_at _ _ _ _ _ _); [|done..]. cbn [mbind outcome_bind]. apply IH. lia.
Qed.

Section Laws.
Context (hmac : AuthAlgorithm -> bytes -> bytes -> bytes).
(** HMAC output lengths (crypto/hmac: [Sum] returns the hash's size). *)
Context (hmac_len : forall algo key msg, newHash_ok algo = true ->
  length (hmac algo key msg) = digestLen algo).

Local Notation PatchAuth := (PatchAuth hmac).
Local Notation VerifyAuth := (VerifyAuth hmac).
Local Notation FinalizeLSPAuth := (FinalizeLSPAuth hmac).

Lemma zeroed_nopanic pdu s e isLSP :
  (s <= e <= length pdu)%nat -> (isLSP = true -> 26 <= length pdu)%nat ->
  zeroed pdu s e isLSP <> Panic.
Proof using.
  intros Hse H26. unfold zeroed. destruct isLSP; [|done].
  rewrite length_store by (rewrite length_replicate; lia).
  specialize (H26 eq_refl). by rewrite (proj2 (Nat.ltb_ge _ _)).
Qed.

Lemma VerifyAuth_total pdu off algo keyID key isLSP :
  (27 <= off)%nat \/ isLSP = false -> VerifyAuth pdu off algo keyID key isLSP <> Panic.
Proof using.
  intros Hoff. unfold Auth.VerifyAuth. destruct (negb _); [done|].
  apply bind_Panic; [apply authDigestRange_nopanic|]. intros [[s e]|] Hr; [|done].
  apply authDigestRange_range in Hr as (H1 & H2 & H3).
  rewrite slice_Ok by lia. cbn [mbind outcome_bind]. unfold hmacOver.
  apply bind_Panic; [|done]. apply bind_Panic; [|done].
  apply zeroed_nopanic; [lia|]. intros ->. destruct Hoff; [lia|done].
Qed.

(** A patched PDU verifies, under the key it was patched with. *)
Lemma PatchAuth_Verify pdu pdu' off algo keyID key isLSP :
  PatchAuth pdu off algo keyID key isLSP = Ok (Some pdu') ->
  VerifyAuth pdu' off algo keyID key isLSP = Ok true.
Proof using hmac_len.
  unfold Auth.PatchAuth, Auth.VerifyAuth. destruct (newHash_ok algo) eqn:Ea; [|done]. cbn [negb].
  intros H. apply bind_Ok in H as (r & Hr & H). destruct r as [[s e]|]; [|done].
  apply bind_Ok in H as (d & Hd & H). injection H as <-.
  destruct (authDigestRange_range _ _ _ _ _ _ Hr) as (H1 & H2 & H3).
  apply bind_Ok in Hd as (buf & Hz & [= <-]).
  set (d := hmac algo key buf) in *.
  assert (Hdl : length d = (e - s)%nat) by (subst d; rewrite hmac_len by done; lia).
  rewrite firstn_all2 by lia.
  assert (Hag : agree s e pdu (store pdu s d)).
  { replace e with (s + length d)%nat by lia. apply agree_store. lia. }
  rewrite (authDigestRange_agree _ _ _ _ _ _ _ Hag Hr). cbn [mbind outcome_bind].
  replace e with (s + length d)%nat at 1 by lia. rewrite slice_store by lia. cbn [mbind outcome_bind].
  unfold hmacOver. rewrite <- (zeroed_ext pdu), Hz.
  - cbn [mbind outcome_bind mret outcome_ret]. by rewrite bool_decide_true.
  - apply Hag.
  - lia.
  - intros j Hj. apply Hag. unfold unhashed in Hj. lia.
Qed.

(** Verification ignores an LSP's remaining lifetime and checksum. *)
Lemma VerifyAuth_lsp_ext a b off algo keyID key :
  length a = length b -> (27 <= off)%nat ->
  (forall j, (j <> 10 -> j <> 11 -> j <> 24 -> j <> 25 -> a !! j = b !! j)%nat) ->
  VerifyAuth a off algo keyID key true = VerifyAuth b off algo keyID key true.
Proof using.
  intros Hl Hoff Hj. unfold Auth.VerifyAuth. destruct (negb _); [done|].
  unfold authDigestRange. rewrite <- Hl.
  rewrite (digest_loop_from _ a b algo keyID off false None 26) by (done || lia || (intros; apply Hj; lia)).
  destruct (digest_loop _ _ _ _ _ _ _) as [[[s e]|]| |] eqn:Hr; [|done..].
  apply digest_loop_range in Hr as (H1 & H2 & H3). cbn [mbind outcome_bind].
  rewrite !slice_Ok by lia. cbn [mbind outcome_bind]. unfold hmacOver.
  rewrite (zeroed_ext a b) by (done || lia || (intros j Hu; unfold unhashed in Hu; apply Hj; lia)).
  destruct (zeroed _ _ _ _); [|done..]. cbn [mbind outcome_bind].
  assert (Hs : take (e - s) (drop s a) = take (e - s) (drop s b)).
  { f_equal. apply list_eq. intros j. rewrite !lookup_drop. apply Hj; lia. }
  by rewrite Hs.
Qed.

(** A finalized LSP verifies and its checksum is valid. *)
Lemma FinalizeLSPAuth_valid pdu pdu' algo keyID key :
  (forall algo key msg, bytes_ok (hmac algo key msg)) -> bytes_ok pdu ->
  FinalizeLSPAuth pdu algo keyID key = Ok (Some pdu') ->
  VerifyAuth pdu' lspHeaderLen algo keyID key true = Ok true /\
  LSPChecksumValidRaw pdu' = Ok true /\ length pdu' = length pdu.
Proof using hmac_len.
  intros Hh Hb H. unfold Auth.FinalizeLSPAuth in H. apply bind_Ok in H as (r & Hr & H).
  destruct r as [p1|]; [|done]. pose proof (PatchAuth_Verify _ _ _ _ _ _ _ Hr) as Hv.
  unfold Auth.PatchAuth in Hr. destruct (negb _) eqn:Ea; [done|]. apply bind_Ok in Hr as (r & Hrange & Hr).
  destruct r as [[s e]|]; [|done]. apply bind_Ok in Hr as (d & Hd & [= Hp1]).
  destruct (authDigestRange_range _ _ _ _ _ _ Hrange) as (H1 & H2 & H3).
  unfold lspHeaderLen in H1.
  assert (Hdb : bytes_ok (take (e - s) d)).
  { apply bind_Ok in Hd as (buf & _ & [= <-]). octets. apply Hh. }
  assert (Hl1 : length p1 = length pdu).
  { subst p1. apply length_store. rewrite length_take. lia. }
  assert (Hb1 : bytes_ok p1) by (subst p1; by apply store_bytes_ok).
  clear Hp1. apply bind_Ok in H as (body & Hbody & [= <-]).
  set (p2 := store p1 24 [0; 0]) in *.
  assert (Hl2 : length p2 = length p1) by (apply length_store; simpl; lia).
  assert (Hl3 : length (store p2 24 (put16 (fletcherChecksum body 12))) = length p2).
  { apply length_store. simpl. lia. }
  split; [|split; [|lia]].
  - rewrite <- Hv. apply VerifyAuth_lsp_ext; [lia|unfold lspHeaderLen; lia|].
    intros j _ _ H24 H25. subst p2. rewrite !store_lookup by (rewrite ?length_store; simpl; lia).
    rewrite !decide_False by (simpl; lia). done.
  - apply from_inv in Hbody as [_ ->].
    unfold LSPChecksumValidRaw. rewrite Hl3. unfold lspHeaderLen.
    rewrite (proj2 (Nat.ltb_ge _ _)) by lia. rewrite from_Ok by lia. cbn [mbind outcome_bind].
    assert (Hd2 : drop 12 p2 = take 12 (drop 12 p1) ++ [0; 0] ++ drop 26 p1).
    { subst p2. unfold store. rewrite drop_app_le by (rewrite length_take; lia).
      rewrite skipn_firstn_comm. done. }
    assert (Hd3 : forall x, length x = 2%nat ->
      drop 12 (store p2 24 x) = take 12 (drop 12 p1) ++ x ++ drop 26 p1).
    { intros x Hx. unfold store at 1. rewrite drop_app_le by (rewrite length_take; lia).
      rewrite skipn_firstn_comm, Hx. change (24 - 12)%nat with 12%nat. f_equal.
      - rewrite Hd2, take_app_length'; [done|]. rewrite length_take, length_drop. lia.
      - f_equal. subst p2. unfold store. rewrite drop_app_ge by (rewrite length_take; lia).
        rewrite length_take, Nat.min_l by lia. done. }
    rewrite Hd3 by done. rewrite Hd2.
    assert (Hpre : length (take 12 (drop 12 p1)) = 12%nat) by (rewrite length_take, length_drop; lia).
    pose proof (fletcher_store_valid (take 12 (drop 12 p1)) (drop 26 p1)
      ltac:(octets) ltac:(octets)) as F.
    rewrite Hpre in F. by rewrite F.
Qed.
End Laws.

(** ** The scan and the decoded area *)

Definition isAuthTLV (t : TLV) : bool :=
  match t with AuthenticationTLV _ => true | _ => false end.

(** The Authentication TLVs of an area. *)
Definition auth_count (ts : list TLV) : nat := length (List.filter isAuthTLV ts).

Lemma decodeTLV_auth (t : Z) (v : bytes) (x : TLV) :
  bytes_ok v -> (length v <= 255)%nat -> decodeTLV t v = Ok x ->
  isAuthTLV x = (t =? TLVTypeAuthentication).
Proof.
  intros Hb Hl H. unfold decodeTLV in H. destruct (tlvDecoders t) as [dec|] eqn:E.
  - destruct (tl_fix _ _ (tlvDecoders_laws t dec E) v x Hb Hl H) as (Hok & <- & _).
    destruct x; try reflexivity. destruct Hok as (_ & _ & Hn). simpl. simpl in E. congruence.
  - injection H as <-. simpl. destruct (Z.eqb_spec t TLVTypeAuthentication) as [->|_]; [|done].
    vm_compute in E. done.
Qed.

Lemma digest_loop_count fuel pdu algo keyID i seen found ts r :
  bytes_ok pdu -> (0 < fuel)%nat -> (length pdu < i + fuel)%nat ->
  (seen = false -> found = None) -> decodeTLVs (drop i pdu) = Ok ts ->
  digest_loop fuel pdu algo keyID i seen found = Ok (Some r) ->
  auth_count ts = if seen then 0%nat else 1%nat.
Proof.
  intros Hb. revert i seen found ts. induction fuel as [|fuel IH]; intros i seen found ts H0 Hf Hs Hd H;
    [lia|].
  rewrite decodeTLVs_unfold in Hd. destruct (drop i pdu) as [|x b] eqn:Eb.
  - injection Hd as <-. assert (Hlen : length (drop i pdu) = 0%nat) by by rewrite Eb.
    rewrite length_drop in Hlen. rewrite digest_loop_step in H.
    rewrite (proj2 (Nat.ltb_lt _ _)) in H by lia. injection H as Hfd.
    destruct seen; [done|]. rewrite Hs in Hfd by done. done.
  - apply bind_Ok in Hd as ([t rest] & Ht & Hd). apply bind_Ok in Hd as (ts' & Hts & [= <-]).
    apply framed_inv in Ht as (ty & l & v & E & Hl & Hdec). rewrite E in Eb.
    assert (Hdb : bytes_ok (drop i pdu)) by octets. rewrite Eb in Hdb.
    apply frame_bytes_ok in Hdb as (Hty & Hlb & Hvb & Hrb).
    assert (Hlen : length (drop i pdu) = (2 + length v + length rest)%nat).
    { rewrite Eb. simpl. rewrite length_app. lia. }
    rewrite length_drop in Hlen.
    assert (Hlk : forall k, pdu !! (i + k)%nat = (ty :: l :: v ++ rest) !! k).
    { intros k. by rewrite <- Eb, lookup_drop. }
    assert (Hnext : drop (i + 2 + length v) pdu = rest).
    { rewrite <- Nat.add_assoc, <- drop_drop, Eb. cbn [Nat.add drop]. by rewrite drop_app_length. }
    rewrite digest_loop_step in H. rewrite (proj2 (Nat.ltb_ge _ _)) in H by lia.
    unfold idx in H at 1 2. rewrite (Hlk 1%nat) in H. rewrite <- (Nat.add_0_r i) in H at 1.
    rewrite (Hlk 0%nat) in H. cbn [lookup list_lookup mbind outcome_bind] in H.
    rewrite Hl in H. rewrite (proj2 (Nat.ltb_ge _ _)) in H by lia.
    assert (Hv : (length v <= 255)%nat) by (unfold byte_ok in Hlb; lia).
    pose proof (decodeTLV_auth ty v t Hvb Hv Hdec) as Hauth.
    rewrite <- Hnext in Hts. unfold auth_count. cbn [List.filter]. rewrite Hauth.
    destruct (ty =? TLVTypeAuthentication); cbn [negb] in H.
    + destruct seen; [done|]. apply bind_Ok in H as (f & _ & H). cbn [length]. f_equal.
      eapply (IH _ true); [|..|exact Hts|exact H]; [lia|lia|done].
    + eapply (IH _ seen); [|..|exact Hts|exact H]; [lia|lia|done].
Qed.

(** Only a PDU whose area holds exactly one Authentication TLV has a digest. *)
Lemma authDigestRange_unique pdu off algo keyID ts r :
  bytes_ok pdu -> decodeTLVs (drop off pdu) = Ok ts ->
  authDigestRange pdu off algo keyID = Ok (Some r) -> auth_count ts = 1%nat.
Proof.
  intros Hb Hd H. eapply (digest_loop_count _ pdu _ _ off false None ts r Hb _ _ (fun _ => eq_refl) Hd H).
  Unshelve. all: lia.
Qed.

(** Finalizing never reads out of range. *)
Lemma FinalizeLSPAuth_nopanic hmac pdu algo keyID key : FinalizeLSPAuth hmac pdu algo keyID key <> Panic.
Proof.
  unfold FinalizeLSPAuth, PatchAuth. destruct (negb _); [done|].
  destruct (authDigestRange pdu lspHeaderLen algo keyID) as [[[s e]|]| |] eqn:Hr; [|done..|].
  - destruct (authDigestRange_range _ _ _ _ _ _ Hr) as (H1 & H2 & H3). unfold lspHeaderLen in H1.
    cbn [mbind outcome_bind]. apply bind_Panic.
    + apply bind_Panic; [|done]. unfold hmacOver. apply bind_Panic; [|done].
      apply zeroed_nopanic; lia.
    + intros r Hp. apply bind_Ok in Hp as (d & _ & [= <-]).
      assert (Hl : length (store pdu s (take (e - s) d)) = length pdu).
      { apply length_store. rewrite length_take. lia. }
      rewrite from_Ok; [done|]. rewrite length_store; [lia|simpl; lia].
  - by apply authDigestRange_nopanic in Hr.
Qed.

(** Verification has no error path: it answers. *)
Lemma bind_noerr {A B} (f : A -> outcome B) (m : outcome A) :
  (forall e, m <> Err e) -> (forall a e, f a <> Err e) -> forall e, m ≫= f <> Err e.
Proof. intros Hm Hf e. destruct m as [a|x|]; simpl; [apply Hf|by destruct (Hm x)|done]. Qed.

Lemma idx_noerr b i e : idx b i <> Err e.
Proof. unfold idx. by destruct (b !! i). Qed.

Lemma digest_at_noerr pdu algo keyID v l found e : digest_at pdu algo keyID v l found <> Err e.
Proof.
  revert e. unfold digest_at. destruct (_ <? _)%nat; [done|].
  apply bind_noerr; [apply idx_noerr|]. intros ty. destruct (negb _); [done|].
  destruct (is_md5 algo); destruct (_ =? _)%nat; try done.
  apply bind_noerr; [apply idx_noerr|]. intros k1. apply bind_noerr; [apply idx_noerr|].
  intros k2 e. by destruct (_ =? _).
Qed.

Lemma digest_loop_noerr fuel pdu algo keyID i seen found e :
  digest_loop fuel pdu algo keyID i seen found <> Err e.
Proof.
  revert i seen found e. induction fuel as [|fuel IH]; intros i seen found; [done|].
  rewrite digest_loop_step. destruct (_ <? _)%nat; [done|].
  apply bind_noerr; [apply idx_noerr|]. intros typ. apply bind_noerr; [apply idx_noerr|]. intros l.
  destruct (_ <? _)%nat; [done|]. destruct (negb _); [apply IH|]. destruct seen; [done|].
  apply bind_noerr; [apply digest_at_noerr|]. intros f. apply IH.
Qed.

Lemma VerifyAuth_answers hmac pdu off algo keyID key isLSP :
  (27 <= off)%nat \/ isLSP = false -> exists b, VerifyAuth hmac pdu off algo keyID key isLSP = Ok b.
Proof.
  intros Hoff. pose proof (VerifyAuth_total hmac pdu off algo keyID key isLSP Hoff) as Hp.
  assert (He : forall e, VerifyAuth hmac pdu off algo keyID key isLSP <> Err e).
  { unfold VerifyAuth. destruct (negb _); [done|]. apply bind_noerr; [apply digest_loop_noerr|].
    intros [[s e]|]; [|done]. apply bind_noerr; [unfold slice; by case_match|]. intros cur.
    apply bind_noerr; [|done]. unfold hmacOver. apply bind_noerr; [|done].
    unfold zeroed. destruct isLSP; [by case_match|done]. }
  destruct (VerifyAuth hmac pdu off algo keyID key isLSP) as [b|e|]; [eauto|by destruct (He e)|done].
Qed.
