(* ===== verification/PacketSpec.v ===== *)
(** The properties of pkg/packet: the theorems a reader of the codec relies on,
    each stated over the definitions of the component files and proved from
    their lemmas. *)

From S2P Require Import Prelude.
From S2P Require Import Codec.
From S2P Require Import Framing.
From S2P Require Import Netip.
From S2P Require Import Ids.
From S2P Require Import Sid.
From S2P Require Import SubTLV.
From S2P Require Import Entries.
From S2P Require Import Locator.
From S2P Require Import Tlv.
From S2P Require Import Checksum.
From S2P Require Import Pdu.
From S2P Require Import Auth.
Local Open Scope Z_scope.

(** ** Concrete inputs *)

(** A level-2 LSP with an area, a host name and an IPv4 prefix. *)
Definition sample_lsp : LSP :=
  mkLSP Level2 1200 [2; 0; 0; 0; 0; 1; 0; 0] 7 0 false false false false true false 3
    [AreaAddressesTLV [[73; 0; 1]]; ProtocolsSupportedTLV [204; 142]; DynamicHostnameTLV [114; 49];
     UnknownTLV 250 [1; 2; 3]].

Definition sample_bytes : bytes :=
  match LSP_Serialize sample_lsp with Ok (b, _) => b | _ => [] end.

Definition sample_sum : Z :=
  match LSP_Serialize sample_lsp with Ok (_, p) => checksum p | _ => 0 end.

Lemma sample_ok : LSP_ok sample_lsp.
Proof.
  split; [unfold u16_ok; simpl; lia|]. split; [split; [done|]; simpl; octets; unfold byte_ok; lia|].
  split; [unfold u32_ok; simpl; lia|]. split; [simpl; lia|].
  simpl. repeat (apply Forall_cons; split; [|]); try apply Forall_nil_2; simpl.
  all: repeat first [split | apply Forall_cons_2 | apply Forall_nil_2]; unfold byte_ok; try lia; try done.
Defined.

(** An LSP whose area holds one empty HMAC-MD5 Authentication TLV. *)
Definition authed_lsp : LSP :=
  mkLSP Level2 1200 [2; 0; 0; 0; 0; 1; 0; 0] 7 0 false false false false false false 3
    [AuthTLV AuthMD5 0; ProtocolsSupportedTLV [204]].

Definition authed_bytes : bytes :=
  match LSP_Serialize authed_lsp with Ok (b, _) => b | _ => [] end.

(** A keyed digest good enough to run the definitions: the key and the sum of
    the message, repeated to the digest length. *)
Definition toy_hmac (algo : AuthAlgorithm) (key msg : bytes) : bytes :=
  replicate (digestLen algo) (u8 (sum0 key + sum1 msg)).

Lemma toy_hmac_len algo key msg : newHash_ok algo = true -> length (toy_hmac algo key msg) = digestLen algo.
Proof. intros _. apply length_replicate. Defined.

Lemma toy_hmac_ok algo key msg : bytes_ok (toy_hmac algo key msg).
Proof. apply Forall_replicate, u8_byte. Defined.

Definition patched_bytes : bytes :=
  match PatchAuth toy_hmac authed_bytes lspHeaderLen AuthMD5 0 [1; 2] true with
  | Ok (Some b) => b
  | _ => []
  end.

Definition finalized_bytes : bytes :=
  match FinalizeLSPAuth toy_hmac authed_bytes AuthMD5 0 [1; 2] with
  | Ok (Some b) => b
  | _ => []
  end.

(** ** Shared lemmas *)

(** A loop whose decoder never fails fails exactly where the framing does. *)
Lemma loop_fuel_framed_pure {A} (dec : Z -> bytes -> outcome A) (f : Z * bytes -> A) (n : nat) (b : bytes) :
  (forall t v, dec t v = Ok (f (t, v))) ->
  loop_fuel (framed dec) n b = (fs ← loop_fuel next_frame n b; Ok (List.map f fs)).
Proof.
  intros Hf. revert b. induction n as [|n IH]; intros [|x b]; try done. cbn [loop_fuel].
  assert (E : framed dec (x :: b) = ('(tv, rest) ← next_frame (x :: b); Ok (f tv, rest))).
  { unfold framed. destruct (next_frame (x :: b)) as [[[t v] rest]| |]; [|done..].
    cbn [mbind outcome_bind]. by rewrite Hf. }
  rewrite E. destruct (next_frame (x :: b)) as [[tv rest]| |]; [|done..].
  cbn [mbind outcome_bind]. rewrite IH. by destruct (loop_fuel next_frame n rest).
Qed.

Lemma loop_framed_pure {A} (dec : Z -> bytes -> outcome A) (f : Z * bytes -> A) (b : bytes) :
  (forall t v, dec t v = Ok (f (t, v))) ->
  loop (framed dec) b = (fs ← loop next_frame b; Ok (List.map f fs)).
Proof. apply loop_fuel_framed_pure. Qed.

(** What [decodeSubTLV] makes of a frame. *)
Definition entry_of (ctx : SubTLVContext) (f : Z * bytes) : SubTLV :=
  match subTLVDecoders ctx f.1 with
  | None => SubUnknown (mkUnknown f.1 f.2 false)
  | Some dec => match dec f.2 with Ok s => s | _ => SubUnknown (mkUnknown f.1 f.2 true) end
  end.

Lemma decodeSubTLV_entry (ctx : SubTLVContext) (t : Z) (v : bytes) :
  decodeSubTLV ctx t v = Ok (entry_of ctx (t, v)).
Proof.
  unfold decodeSubTLV, decodeSubTLV_in, entry_of. cbn [fst snd].
  destruct (subTLVDecoders ctx t) as [dec|] eqn:E; [|done].
  pose proof (dl_nopanic _ _ _ (subTLVDecoders_laws ctx t dec E) v). by destruct (dec v).
Qed.

(** ** Decoding arbitrary input *)

(** C1: no octet string makes [DecodePDU] index or slice out of range, or loop
    for ever: every input is decoded or refused with an error. *)
Theorem DecodePDU_total (b : bytes) : DecodePDU b <> Panic.
Proof. apply DecodePDU_no_panic. Qed.

(** C2: a serialized PDU decodes to the PDU that was serialized (an LSP with the
    checksum [Serialize] stored in it), for every PDU whose fields are in their
    wire ranges and whose length fits the 16-bit length field. *)
Theorem PDU_roundtrip (p p' : PDU) (b : bytes) :
  PDU_ok p -> PDU_Serialize p = Ok (b, p') -> Z.of_nat (length b) <= 65535 -> DecodePDU b = Ok p'.
Proof. apply DecodePDU_Serialize. Qed.

Lemma PDU_roundtrip_witness :
  DecodePDU sample_bytes = Ok (PDULSP (set_checksum sample_lsp sample_sum)).
Proof.
  apply (PDU_roundtrip (PDULSP sample_lsp)); [exact sample_ok|by vm_compute|by vm_compute].
Defined.

(** Whatever [DecodePDU] accepts re-encodes without error into no more
    octets than were received, and what it re-encodes to decodes to the same
    PDU again (up to the LSP checksum [Serialize] recomputes): decoding is a
    projection onto a canonical form. *)
Theorem DecodePDU_reencode (b : bytes) (p : PDU) :
  bytes_ok b -> DecodePDU b = Ok p ->
  exists b' p', PDU_Serialize p = Ok (b', p') /\ (length b' <= length b)%nat /\ DecodePDU b' = Ok p'.
Proof.
  intros Hb H. destruct (DecodePDU_fixpoint b p Hb H) as (Hok & b' & p' & Hs & Hl & Hmax).
  exists b', p'. split; [done|]. split; [done|]. by apply DecodePDU_Serialize with p.
Qed.

Lemma DecodePDU_reencode_witness :
  exists b' p', PDU_Serialize (PDULSP (set_checksum sample_lsp sample_sum)) = Ok (b', p') /\
    (length b' <= length (sample_bytes ++ [9; 9]%Z))%nat /\ DecodePDU b' = Ok p'.
Proof.
  apply (DecodePDU_reencode (sample_bytes ++ [9; 9])); [|by vm_compute].
  eval_octets.
Defined.

(** Data-link padding is harmless: [TrimToPDULength] returns a prefix, and a
    PDU decodes from the trimmed octets exactly when it decodes from the padded
    ones. *)
Theorem DecodePDU_padding (b : bytes) :
  exists n, (n <= length b)%nat /\ TrimToPDULength b = Ok (take n b) /\
    forall p, DecodePDU (take n b) = Ok p <-> DecodePDU b = Ok p.
Proof.
  destruct (TrimToPDULength_prefix b) as (n & Hn & Ht). exists n. split; [done|]. split; [done|].
  intros p. by apply DecodePDU_Trim.
Qed.

(** The length field of a serialized PDU counts all of it, so that trimming takes off
    what the data link has added and nothing else. *)
Lemma counted_trim (b pad : bytes) h off :
  decodeCommonHeader b = Ok h -> pduLenOffset (PDUType h) = Some off -> (8 <= length b)%nat -> (off + 2 <= length b)%nat ->
  be16 (drop off b) = Ok (Z.of_nat (length b)) -> TrimToPDULength (b ++ pad) = Ok b.
Proof.
  intros Hh Ho H8 Hl Hn. unfold TrimToPDULength.
  assert (E : decodeCommonHeader (b ++ pad) = Ok h).
  { rewrite <- Hh, <- (decodeCommonHeader_take (length b) (b ++ pad)) by (rewrite ?length_app; lia). by rewrite take_app_length. }
  rewrite E. cbn [mbind outcome_bind]. rewrite Ho, (proj2 (Nat.ltb_ge _ _)) by (rewrite length_app; lia).
  rewrite slice_Ok by (rewrite length_app; lia). replace (off + 2 - off)%nat with 2%nat by lia. cbn [mbind outcome_bind].
  assert (En : be16 (take 2 (drop off (b ++ pad))) = Ok (Z.of_nat (length b))).
  { rewrite <- Hn, drop_app_le by lia. assert (Hd : (2 <= length (drop off b))%nat) by (rewrite length_drop; lia).
    by destruct (drop off b) as [|x [|y r]]; [simpl in Hd; lia..|]. }
  rewrite En. cbn [mbind outcome_bind]. rewrite Nat2Z.id. unfold commonHeaderLen.
  rewrite !(proj2 (Nat.ltb_ge _ _)) by (rewrite ?length_app; lia). cbn [orb]. rewrite slice_0 by (rewrite length_app; lia).
  by rewrite take_app_length.
Qed.

Lemma be16_is b n m : be16 b = Ok n -> n = m -> be16 b = Ok m.
Proof. by intros -> ->. Qed.
Ltac counted o :=
  eexists _, o; split; [reflexivity|]; split; [reflexivity|]; split; [simpl; lia|]; split; [simpl; lia|];
  eapply be16_is; [reflexivity|simpl length in *; rewrite len_field_join; [reflexivity|assumption]].

Lemma Serialize_counted (p p' : PDU) (b : bytes) :
  PDU_ok p -> PDU_Serialize p = Ok (b, p') -> Z.of_nat (length b) <= 65535 ->
  exists h off, decodeCommonHeader b = Ok h /\ pduLenOffset (PDUType h) = Some off /\ (8 <= length b)%nat /\ (off + 2 <= length b)%nat /\
    be16 (drop off b) = Ok (Z.of_nat (length b)).
Proof.
  intros Hok H Hlen. destruct p as [q|q|q|q|q]; simpl in H; apply bind_Ok in H as (x & Hx & H).
  - injection H as -> <-. destruct Hok as (_ & [Hs _] & _ & _ & [Hn _] & _). apply bind_Ok in Hx as (tlvs & _ & [= <-]).
    destruct q as [[] ct src hold prio lan ts]; simpl in Hs, Hn; split_bytes 6 src; (destruct src; [|done]); split_bytes 7 lan; (destruct lan; [|done]);
      unfold_lens; counted 17%nat.
  - injection H as -> <-. destruct Hok as (_ & [Hs _] & _). apply bind_Ok in Hx as (tlvs & _ & [= <-]).
    destruct q as [ct src hold cid ts]; simpl in Hs; split_bytes 6 src; (destruct src; [|done]); unfold_lens; counted 17%nat.
  - destruct x as [b0 q']. injection H as -> <-. destruct (LSP_Serialize_inv _ _ _ Hok Hx) as (tlvs & _ & _ & _ & -> & _).
    destruct Hok as (_ & [Hs _] & _). unfold lsp_head, lsp_ident, lsp_tail in *.
    destruct q as [[] rt id seq ck f1 f2 f3 f4 f5 f6 ty ts]; simpl in Hs; split_bytes 8 id; (destruct id; [|done]); unfold_lens; counted 8%nat.
  - injection H as -> <-. destruct Hok as ([Hs _] & [Ha _] & [Hz _] & _). apply bind_Ok in Hx as (tlvs & _ & [= <-]).
    destruct q as [[] src st en ts]; simpl in Hs, Ha, Hz; split_bytes 7 src; (destruct src; [|done]); split_bytes 8 st; (destruct st; [|done]);
      split_bytes 8 en; (destruct en; [|done]); unfold_lens; counted 8%nat.
  - injection H as -> <-. destruct Hok as ([Hs _] & _). apply bind_Ok in Hx as (tlvs & _ & [= <-]).
    destruct q as [[] src ts]; simpl in Hs; split_bytes 7 src; (destruct src; [|done]); unfold_lens; counted 8%nat.
Qed.

Lemma Serialize_trim p p' b pad :
  PDU_ok p -> PDU_Serialize p = Ok (b, p') -> Z.of_nat (length b) <= 65535 -> TrimToPDULength (b ++ pad) = Ok b.
Proof. intros Hok Hs Hl. destruct (Serialize_counted p p' b Hok Hs Hl) as (h & off & ? & ? & ? & ? & ?). by eapply counted_trim. Qed.

(** A sub-TLV its decoder refuses never costs the area: decoding an area
    fails only where the framing does, and otherwise returns one entry per
    frame, in order, an undecodable frame kept as the octets it arrived as and
    marked refused. *)
Theorem decodeSubTLVs_refusal (ctx : SubTLVContext) (b : bytes) :
  decodeSubTLVs ctx b = (fs ← loop next_frame b; Ok (List.map (entry_of ctx) fs)) /\
  (forall t v, (forall dec s, subTLVDecoders ctx t = Some dec -> dec v <> Ok s) ->
    exists r, entry_of ctx (t, v) = SubUnknown (mkUnknown t v r) /\
      (r = true <-> is_Some (subTLVDecoders ctx t))).
Proof.
  split.
  - apply loop_framed_pure. apply decodeSubTLV_entry.
  - intros t v Hno. unfold entry_of. cbn [fst snd].
    destruct (subTLVDecoders ctx t) as [dec|] eqn:E.
    + exists true. split; [|by split; eauto]. specialize (Hno dec). destruct (dec v) as [s| |]; [|done..].
      by destruct (Hno s).
    + exists false. split; [done|]. split; [done|]. by intros [? ?].
Qed.

(** A TLV area whose TLVs are in their wire ranges round trips, and whatever
    an area decodes to re-encodes, in no more octets, to an area that decodes
    to the same TLVs. *)
Theorem TLVs_roundtrip (ts : list TLV) (b : bytes) :
  (Forall tlv_body_ok ts -> serializeTLVs ts = Ok b -> decodeTLVs b = Ok ts) /\
  (bytes_ok b -> decodeTLVs b = Ok ts ->
    exists v, serializeTLVs ts = Ok v /\ (length v <= length b)%nat /\ decodeTLVs v = Ok ts).
Proof.
  split.
  - intros Hok Hs. by apply decodeTLVs_rt.
  - intros Hb Hd. destruct (decodeTLVs_fix b ts Hb Hd) as (Hok & v & Hv & Hl).
    exists v. split; [done|]. split; [done|]. by apply (decodeTLVs_rt ts v Hok Hv).
Qed.

Lemma TLVs_roundtrip_witness :
  decodeTLVs [137; 2; 114; 49; 250; 1; 7] = Ok [DynamicHostnameTLV [114; 49]; UnknownTLV 250 [7]].
Proof.
  apply (proj1 (TLVs_roundtrip [DynamicHostnameTLV [114; 49]; UnknownTLV 250 [7]] [137; 2; 114; 49; 250; 1; 7]));
    [|by vm_compute].
  repeat apply Forall_cons_2; try apply Forall_nil_2; simpl;
  repeat first [split | apply Forall_cons_2 | apply Forall_nil_2]; unfold byte_ok; try lia; done.
Defined.

(** ** The LSP checksum *)

(** C18: the checksum [Serialize] stores in an LSP is one that
    [LSPChecksumValidRaw] accepts, it is never zero (both its octets are in
    [[1, 255]], as ISO 8473 requires of a computed checksum), and the receiver's
    own checksum field is left equal to it. *)
Theorem LSP_Serialize_checksum (p p' : LSP) (b : bytes) :
  LSP_ok p -> LSP_Serialize p = Ok (b, p') ->
  LSPChecksumValidRaw b = Ok true /\
  exists x y, 1 <= x <= 255 /\ 1 <= y <= 255 /\ slice b 24 26 = Ok [x; y] /\ checksum p' = join16 x y.
Proof.
  intros Hok H. split; [by apply LSP_Serialize_valid with p p'|].
  destruct (LSP_Serialize_inv p p' b Hok H) as (tlvs & _ & Hb & _ & -> & ->).
  destruct (lsp_ident_ok p Hok) as [Hib Hil]. pose proof (lsp_tail_ok p tlvs Hok Hb) as Htb.
  destruct (fletcherChecksum_octets (lsp_ident p ++ [0; 0] ++ lsp_tail p tlvs) 12) as
    (x & y & Hsum & Hx & Hy & _); [octets|].
  exists x, y. split; [done|]. split; [done|].
  change (fletcherChecksum _ 12) with (lsp_sum p tlvs) in Hsum. rewrite Hsum. split; [|done].
  assert (Hput : put16 (join16 x y) = [x; y]) by (apply put16_join; unfold byte_ok; lia).
  rewrite Hput. rewrite slice_Ok by (rewrite !length_app, Hil; simpl; lia).
  rewrite drop_app_ge by (simpl; lia).
  change (24 - length (lsp_head p tlvs))%nat with 12%nat.
  rewrite drop_app_length' by done. done.
Qed.

Lemma LSP_Serialize_checksum_witness :
  LSPChecksumValidRaw sample_bytes = Ok true /\
  exists x y, 1 <= x <= 255 /\ 1 <= y <= 255 /\ slice sample_bytes 24 26 = Ok [x; y] /\
    checksum (set_checksum sample_lsp sample_sum) = join16 x y.
Proof. apply (LSP_Serialize_checksum sample_lsp); [exact sample_ok|by vm_compute]. Defined.

(** [fletcherValid] decides the two ISO 8473 congruences, the octets summing
    to zero and their position-weighted sum being zero modulo 255. *)
Theorem fletcherValid_iff (data : bytes) :
  bytes_ok data ->
  fletcherValid data = true <-> sum0 data mod 255 = 0 /\ sum1 data mod 255 = 0.
Proof. intros Hb. rewrite fletcherValid_spec by done. done. Qed.

Lemma fletcherValid_iff_witness :
  fletcherValid [254; 1; 0; 0] = true <->
  sum0 [254; 1; 0; 0] mod 255 = 0 /\ sum1 [254; 1; 0; 0] mod 255 = 0.
Proof. apply fletcherValid_iff. eval_octets. Defined.

(** Reducing every 4096 octets is enough: from sums in range, the running
    sums stay in range after any octet, so they never leave 33 bits. *)
Theorem fletcher_no_overflow (i : nat) (b c0 c1 : Z) :
  byte_ok b -> fletcher_bound i c0 c1 ->
  let '(c0', c1') := fletcher_step i b c0 c1 in
  fletcher_bound (S i) c0' c1' /\ 0 <= c0' < 2 ^ 31 /\ 0 <= c1' < 2 ^ 33.
Proof.
  intros Hb H. pose proof (fletcher_step_bound i b c0 c1 Hb H) as Hs.
  destruct (fletcher_step i b c0 c1) as [c0' c1']. split; [done|].
  by apply fletcher_bound_int with (S i).
Qed.

Lemma fletcher_no_overflow_witness :
  let '(c0', c1') := fletcher_step 4095 255 1000000 2000000000 in
  fletcher_bound 4096 c0' c1' /\ 0 <= c0' < 2 ^ 31 /\ 0 <= c1' < 2 ^ 33.
Proof.
  apply (fletcher_no_overflow 4095 255 1000000 2000000000); [unfold byte_ok; lia|].
  unfold fletcher_bound. change (Z.of_nat (4095 mod 4096)) with 4095. lia.
Defined.

(** ** Authentication *)

Section Hmac.
Context (hmac : AuthAlgorithm -> bytes -> bytes -> bytes).

(** Verifying a PDU is total: no received octet string makes
    [VerifyAuth] read out of range, given an area that starts behind the LSP
    header or a PDU that is not an LSP. *)
Theorem VerifyAuth_no_panic pdu off algo keyID key isLSP :
  (27 <= off)%nat \/ isLSP = false -> VerifyAuth hmac pdu off algo keyID key isLSP <> Panic.
Proof using. apply VerifyAuth_total. Qed.

(** A PDU [PatchAuth] filled verifies under the same algorithm, key ID
    and key, for any HMAC of the algorithms' digest lengths. *)
Theorem PatchAuth_verifies pdu pdu' off algo keyID key isLSP :
  (forall algo key msg, newHash_ok algo = true -> length (hmac algo key msg) = digestLen algo) ->
  PatchAuth hmac pdu off algo keyID key isLSP = Ok (Some pdu') ->
  VerifyAuth hmac pdu' off algo keyID key isLSP = Ok true.
Proof using. intros Hl. by apply PatchAuth_Verify. Qed.

(** An LSP [FinalizeLSPAuth] signed verifies, carries a valid checksum and
    has kept its length. *)
Theorem FinalizeLSPAuth_verifies pdu pdu' algo keyID key :
  (forall algo key msg, newHash_ok algo = true -> length (hmac algo key msg) = digestLen algo) ->
  (forall algo key msg, bytes_ok (hmac algo key msg)) -> bytes_ok pdu ->
  FinalizeLSPAuth hmac pdu algo keyID key = Ok (Some pdu') ->
  VerifyAuth hmac pdu' lspHeaderLen algo keyID key true = Ok true /\
  LSPChecksumValidRaw pdu' = Ok true /\ length pdu' = length pdu.
Proof using. intros Hl. by apply FinalizeLSPAuth_valid. Qed.

(** An LSP's digest does not cover its remaining lifetime and checksum: a
    router that ages a stored LSP and recomputes its checksum does not
    invalidate the originator's signature. *)
Theorem VerifyAuth_aging pdu algo keyID key (life sum : Z) :
  (27 <= length pdu)%nat ->
  VerifyAuth hmac (store (store pdu 10 (put16 life)) 24 (put16 sum)) lspHeaderLen algo keyID key true =
  VerifyAuth hmac pdu lspHeaderLen algo keyID key true.
Proof using.
  intros Hl. assert (Hs : length (store pdu 10 (put16 life)) = length pdu) by (apply length_store; simpl; lia).
  apply VerifyAuth_lsp_ext; [rewrite length_store, Hs; simpl; lia|unfold lspHeaderLen; lia|].
  intros j H1 H2 H3 H4. rewrite !store_lookup by (rewrite ?length_store; simpl; lia).
  rewrite !decide_False by (simpl; lia). done.
Qed.

(** A PDU that verifies holds exactly one Authentication TLV: a second
    one, which another implementation could read instead, is never accepted. *)
Theorem VerifyAuth_single pdu off algo keyID key isLSP ts :
  bytes_ok pdu -> decodeTLVs (drop off pdu) = Ok ts ->
  VerifyAuth hmac pdu off algo keyID key isLSP = Ok true -> auth_count ts = 1%nat.
Proof using.
  intros Hb Hd H. unfold VerifyAuth in H. destruct (negb _); [done|].
  apply bind_Ok in H as ([[s e]|] & Hr & H); [|done].
  by apply (authDigestRange_unique pdu off algo keyID ts (s, e)).
Qed.
End Hmac.

Lemma VerifyAuth_no_panic_witness :
  VerifyAuth toy_hmac [129; 27; 1; 0] 27 AuthMD5 0 [] true <> Panic.
Proof. apply (VerifyAuth_no_panic toy_hmac). left. lia. Defined.

Lemma PatchAuth_verifies_witness :
  VerifyAuth toy_hmac patched_bytes lspHeaderLen AuthMD5 0 [1; 2] true = Ok true.
Proof.
  apply (PatchAuth_verifies toy_hmac authed_bytes); [exact toy_hmac_len|by vm_compute].
Defined.

Lemma FinalizeLSPAuth_verifies_witness :
  VerifyAuth toy_hmac finalized_bytes lspHeaderLen AuthMD5 0 [1; 2] true = Ok true /\
  LSPChecksumValidRaw finalized_bytes = Ok true /\ length finalized_bytes = length authed_bytes.
Proof.
  apply (FinalizeLSPAuth_verifies toy_hmac authed_bytes); [exact toy_hmac_len|exact toy_hmac_ok| |by vm_compute].
  eval_octets.
Defined.

Lemma VerifyAuth_aging_witness :
  VerifyAuth toy_hmac (store (store patched_bytes 10 (put16 55)) 24 (put16 9)) lspHeaderLen AuthMD5 0 [1; 2] true =
  VerifyAuth toy_hmac patched_bytes lspHeaderLen AuthMD5 0 [1; 2] true.
Proof. apply (VerifyAuth_aging toy_hmac). vm_compute. lia. Defined.

Lemma VerifyAuth_single_witness :
  auth_count [AuthenticationTLV (mkAuthentication 54 (drop 30 (take 46 patched_bytes))); ProtocolsSupportedTLV [204]] = 1%nat.
Proof.
  apply (VerifyAuth_single toy_hmac patched_bytes lspHeaderLen AuthMD5 0 [1; 2] true).
  - eval_octets.
  - by vm_compute.
  - by vm_compute.
Defined.
