(* ===== verification/Circuit.v ===== *)
(** pkg/server/adjacency.go, circuit.go and the methods of [CircuitConfig] in
    config.go: the state of an adjacency and of a circuit, and the flooding
    flags.

    A [time.Time] is a number of nanoseconds since the Unix epoch, a
    [time.Duration] a 64-bit number of nanoseconds; subtracting two instants
    saturates, as [time.Time.Sub] does.  A Go map is a [gmap]; a [range] over one is a fold over an [order], any
    permutation of its bindings, where the order can matter. *)

From stdpp Require Export strings.
From S2P Require Import Prelude.
From S2P Require Import Netip.
From S2P Require Import Ids.
From S2P Require Import SubTLV.
From S2P Require Import Entries.
From S2P Require Import Auth.
Local Open Scope Z_scope.

Definition Second : Z := 1000000000.

(** The zero [time.Time]: 1 January of year 1. *)
Definition zeroTime : Z := -62135596800 * Second.

(** [t.Sub(u)] *)
Definition Sub (t u : Z) : Z := Z.max (- 2 ^ 63) (Z.min (2 ^ 63 - 1) (t - u)).

(** ** Adjacencies *)

Inductive AdjState : Set := AdjDown | AdjInit | AdjUp.

#[export] Instance AdjState_eq_dec : EqDecision AdjState.
Proof. solve_decision. Defined.

Definition is_up (s : AdjState) : bool := match s with AdjUp => true | _ => false end.

(** [type levelSet uint8]; [1 << l] with [Level1 = 1] and [Level2 = 2]. *)
Definition level_bit (l : Level) : Z := match l with Level1 => 2 | Level2 => 4 end.
Definition levelSet_add (s : Z) (l : Level) : Z := Z.lor s (level_bit l).
Definition levelSet_has (s : Z) (l : Level) : bool := flag s (level_bit l).
Definition levelSet_levels (s : Z) : list Level :=
  (if levelSet_has s Level1 then [Level1] else []) ++ (if levelSet_has s Level2 then [Level2] else []).

Record adjacency : Type := mkAdjacency {
  a_systemID : SystemID;
  a_snpa : SNPA;
  a_state : AdjState;
  a_priority : Z;
  a_areaAddrs : list bytes;
  a_lanID : NodeID;
  a_holding : Z;
  a_lastHeard : Z;
  a_syncSince : Z;
  a_upSince : Z;
  a_syncSpent : Z;
  a_syncCharged : Z;
  a_restartCapable : bool;
  a_restartMode : bool;
  a_suppressed : bool;
  a_neighborExtCircID : Z;
  a_levels : Z;
  a_neighborIPv4 : list Addr;
  a_neighborIPv6 : list Addr;
  a_nlpids : option bytes
}.

(** Go's assignments to the fields that change together. *)
Definition adj_set_sync (a : adjacency) (since up spent charged : Z) : adjacency :=
  mkAdjacency (a_systemID a) (a_snpa a) (a_state a) (a_priority a) (a_areaAddrs a) (a_lanID a)
    (a_holding a) (a_lastHeard a) since up spent charged (a_restartCapable a) (a_restartMode a)
    (a_suppressed a) (a_neighborExtCircID a) (a_levels a) (a_neighborIPv4 a) (a_neighborIPv6 a)
    (a_nlpids a).

Definition adj_set_restart (a : adjacency) (capable mode suppressed : bool) : adjacency :=
  mkAdjacency (a_systemID a) (a_snpa a) (a_state a) (a_priority a) (a_areaAddrs a) (a_lanID a)
    (a_holding a) (a_lastHeard a) (a_syncSince a) (a_upSince a) (a_syncSpent a) (a_syncCharged a)
    capable mode suppressed (a_neighborExtCircID a) (a_levels a) (a_neighborIPv4 a)
    (a_neighborIPv6 a) (a_nlpids a).

Definition adj_set_state (a : adjacency) (st : AdjState) : adjacency :=
  mkAdjacency (a_systemID a) (a_snpa a) st (a_priority a) (a_areaAddrs a) (a_lanID a)
    (a_holding a) (a_lastHeard a) (a_syncSince a) (a_upSince a) (a_syncSpent a) (a_syncCharged a)
    (a_restartCapable a) (a_restartMode a) (a_suppressed a) (a_neighborExtCircID a) (a_levels a)
    (a_neighborIPv4 a) (a_neighborIPv6 a) (a_nlpids a).

Definition adj_set_addrs (a : adjacency) (v4 v6 : list Addr) : adjacency :=
  mkAdjacency (a_systemID a) (a_snpa a) (a_state a) (a_priority a) (a_areaAddrs a) (a_lanID a)
    (a_holding a) (a_lastHeard a) (a_syncSince a) (a_upSince a) (a_syncSpent a) (a_syncCharged a)
    (a_restartCapable a) (a_restartMode a) (a_suppressed a) (a_neighborExtCircID a) (a_levels a)
    v4 v6 (a_nlpids a).

Definition adj_set_hold (a : adjacency) (holding lastHeard : Z) : adjacency :=
  mkAdjacency (a_systemID a) (a_snpa a) (a_state a) (a_priority a) (a_areaAddrs a) (a_lanID a)
    holding lastHeard (a_syncSince a) (a_upSince a) (a_syncSpent a) (a_syncCharged a)
    (a_restartCapable a) (a_restartMode a) (a_suppressed a) (a_neighborExtCircID a) (a_levels a)
    (a_neighborIPv4 a) (a_neighborIPv6 a) (a_nlpids a).

(** [setNeighborAddrs]: the adjacency and whether the addresses changed. *)
Definition setNeighborAddrs (a : adjacency) (v4 v6 : list Addr) : adjacency * bool :=
  (adj_set_addrs a v4 v6,
   negb (bool_decide (a_neighborIPv4 a = v4)) || negb (bool_decide (a_neighborIPv6 a = v6))).

(** ** Circuit configuration *)

(** What the code asks a [datalink.Transport] for, [Send] apart. *)
Record Transport : Type := mkTransport { LocalSNPA : SNPA; MTU : Z }.

Record CircuitConfig : Type := mkCircuitConfig {
  Name : string;
  cfg_Transport : Transport;
  P2P : bool;
  cfg_Level1 : bool;
  cfg_Level2 : bool;
  Priority : option Z;
  HelloInterval : Z;
  HoldingMultiplier : Z;
  Metric : Z;
  AdminGroup : list Z;
  IPv4Addrs : list Addr;
  IPv6Addrs : list Addr;
  Padding : option bool;
  AdjacencyLimit : option Z;
  HelloPassword : bytes;
  HelloAuthAlgorithm : AuthAlgorithm;
  HelloKeyID : Z;
  HelloAcceptPasswords : list bytes
}.

Definition DefaultPriority : Z := 64.
Definition MaxPriority : Z := 127.
Definition DefaultAdjacencyLimit : Z := 128.

Definition cfg_levels (c : CircuitConfig) : list Level :=
  (if cfg_Level1 c then [Level1] else []) ++ (if cfg_Level2 c then [Level2] else []).

Definition circuitType (c : CircuitConfig) : Z :=
  if cfg_Level1 c && cfg_Level2 c then CircuitTypeLevel12
  else if cfg_Level2 c then CircuitTypeLevel2
  else CircuitTypeLevel1.

(** A 64-bit signed product: [time.Duration] arithmetic wraps. *)
Definition s64 (x : Z) : Z := (x + 2 ^ 63) mod 2 ^ 64 - 2 ^ 63.

(** [CircuitConfig.holdingTime]; [math.Ceil(hold.Seconds())] is the quotient
    rounded up.  ([Seconds] is exact to the nanosecond below 2^22 seconds, and
    anything above [0xffff] is clamped.) *)
Definition holdingTime (c : CircuitConfig) : Z :=
  let hold := s64 (HelloInterval c * HoldingMultiplier c) in
  let secs := - ((- hold) / Second) in
  let secs := if secs <? 1 then 1 else secs in
  if 65535 <? secs then 65535 else secs.

Definition cfg_priority (c : CircuitConfig) : Z :=
  match Priority c with None => DefaultPriority | Some p => p end.

Definition cfg_adjacencyLimit (c : CircuitConfig) : Z :=
  match AdjacencyLimit c with None => DefaultAdjacencyLimit | Some n => n end.

Definition cfg_padding (c : CircuitConfig) : bool :=
  match Padding c with None => true | Some b => b end.

Definition aslaSubTLVs (c : CircuitConfig) : list SubTLV :=
  match AdminGroup c with
  | [] => []
  | gs => [SubASLA false [ASLAAppFlexAlgo] [] [SubAdminGroup (1 <? length gs)%nat gs]]
  end.

(** ** Circuits *)

Record circuit : Type := mkCircuit {
  cfg : CircuitConfig;
  pseudonodeID : Z;
  extCircID : Z;
  adjs : gmap Level (gmap SystemID adjacency);
  p2pAdj : option adjacency;
  dis : gmap Level NodeID;
  nextHello : Z;
  linkDown : bool;
  detached : bool;
  srm : gmap Level (gmap LSPID Z);
  ssn : gmap Level (gset LSPID);
  ssnAck : gmap Level (gmap LSPID LSPEntry);
  nextCSNP : gmap Level Z;
  syncHold : gmap Level Z;
  syncDeferred : gmap Level bool
}.

(** [for _, l := range cfg.levels() { m[l] = empty }] *)
Definition per_level {A} (c : CircuitConfig) (empty : A) : gmap Level A :=
  list_to_map ((fun l => (l, empty)) <$> cfg_levels c).

Definition newCircuit (c : CircuitConfig) (pseudonode ext : Z) : circuit :=
  mkCircuit c pseudonode ext (per_level c ∅) None ∅ zeroTime false false
    (per_level c ∅) (per_level c ∅) (per_level c ∅) ∅ ∅ ∅.

(** The flooding flags replaced. *)
Definition set_flags (c : circuit) (m : gmap Level (gmap LSPID Z)) (n : gmap Level (gset LSPID))
    (k : gmap Level (gmap LSPID LSPEntry)) : circuit :=
  mkCircuit (cfg c) (pseudonodeID c) (extCircID c) (adjs c) (p2pAdj c) (dis c) (nextHello c)
    (linkDown c) (detached c) m n k (nextCSNP c) (syncHold c) (syncDeferred c).

Definition set_adjs (c : circuit) (m : gmap Level (gmap SystemID adjacency)) : circuit :=
  mkCircuit (cfg c) (pseudonodeID c) (extCircID c) m (p2pAdj c) (dis c) (nextHello c)
    (linkDown c) (detached c) (srm c) (ssn c) (ssnAck c) (nextCSNP c) (syncHold c) (syncDeferred c).

Definition set_p2pAdj (c : circuit) (a : option adjacency) : circuit :=
  mkCircuit (cfg c) (pseudonodeID c) (extCircID c) (adjs c) a (dis c) (nextHello c)
    (linkDown c) (detached c) (srm c) (ssn c) (ssnAck c) (nextCSNP c) (syncHold c) (syncDeferred c).

Definition set_dis (c : circuit) (m : gmap Level NodeID) : circuit :=
  mkCircuit (cfg c) (pseudonodeID c) (extCircID c) (adjs c) (p2pAdj c) m (nextHello c)
    (linkDown c) (detached c) (srm c) (ssn c) (ssnAck c) (nextCSNP c) (syncHold c) (syncDeferred c).

Definition set_sync (c : circuit) (hold : gmap Level Z) (deferred : gmap Level bool) : circuit :=
  mkCircuit (cfg c) (pseudonodeID c) (extCircID c) (adjs c) (p2pAdj c) (dis c) (nextHello c)
    (linkDown c) (detached c) (srm c) (ssn c) (ssnAck c) (nextCSNP c) hold deferred.

Definition set_nextCSNP (c : circuit) (m : gmap Level Z) : circuit :=
  mkCircuit (cfg c) (pseudonodeID c) (extCircID c) (adjs c) (p2pAdj c) (dis c) (nextHello c)
    (linkDown c) (detached c) (srm c) (ssn c) (ssnAck c) m (syncHold c) (syncDeferred c).

(** A write through a map of a level: nothing where the level has no map. *)
Definition at_level {A} (f : A -> A) (l : Level) (m : gmap Level A) : gmap Level A := alter f l m.

Definition setSRM (c : circuit) (l : Level) (id : LSPID) (when : Z) : circuit :=
  set_flags c (at_level (<[id := when]>) l (srm c)) (ssn c) (ssnAck c).

Definition clearSRM (c : circuit) (l : Level) (id : LSPID) : circuit :=
  set_flags c (at_level (delete id) l (srm c)) (ssn c) (ssnAck c).

Definition setSSN (c : circuit) (l : Level) (id : LSPID) : circuit :=
  set_flags c (srm c) (at_level (fun m => {[ id ]} ∪ m) l (ssn c)) (ssnAck c).

Definition setSSNAck (c : circuit) (l : Level) (e : LSPEntry) : circuit :=
  match ssnAck c !! l with
  | None => c
  | Some _ =>
      setSSN (set_flags c (srm c) (ssn c) (at_level (<[LE_LSPID e := e]>) l (ssnAck c))) l (LE_LSPID e)
  end.

Definition clearSSN (c : circuit) (l : Level) (id : LSPID) : circuit :=
  set_flags c (srm c) (at_level (fun m => m ∖ {[ id ]}) l (ssn c)) (at_level (delete id) l (ssnAck c)).

Definition clearFlags (c : circuit) : circuit :=
  let clear {A} (z : A) (m : gmap Level A) := fold_right (fun l m => at_level (fun _ => z) l m) m (cfg_levels (cfg c)) in
  set_flags c (clear ∅ (srm c)) (clear ∅ (ssn c)) (clear ∅ (ssnAck c)).

(** The single neighbor of a p2p circuit, Up and covering the level. *)
Definition p2p_up (c : circuit) (l : Level) : option adjacency :=
  match p2pAdj c with
  | Some a => if is_up (a_state a) && levelSet_has (a_levels a) l then Some a else None
  | None => None
  end.

Definition floodReady (c : circuit) (l : Level) : bool :=
  if negb (P2P (cfg c)) then true else bool_decide (is_Some (p2p_up c l)).

Definition zeroNodeID : NodeID := replicate 7 0.

Definition dis_at (c : circuit) (l : Level) : NodeID := default zeroNodeID (dis c !! l).

Definition isDIS (c : circuit) (l : Level) (self : SystemID) : bool :=
  negb (P2P (cfg c)) && bool_decide (NodeID_SystemID (dis_at c l) = self) &&
  negb (NodeID_PseudonodeID (dis_at c l) =? 0).

(** [c.adjs[level]]: the empty map where the level has none. *)
Definition adjs_at (c : circuit) (l : Level) : gmap SystemID adjacency := default ∅ (adjs c !! l).

(** The Up adjacencies among those of an iteration order. *)
Definition ups (order : list (SystemID * adjacency)) : list adjacency :=
  List.filter (fun a => is_up (a_state a)) order.*2.

Definition upAdjacencies (c : circuit) (l : Level) : list adjacency := ups (map_to_list (adjs_at c l)).

Definition advertisedAdjacencies (c : circuit) (l : Level) : list adjacency :=
  List.filter (fun a => negb (a_suppressed a)) (upAdjacencies c l).

(** [upAdjacencyFrom] over an iteration order of [c.adjs[level]]. *)
Definition upAdjacencyFrom (c : circuit) (l : Level) (src : SNPA) (order : list (SystemID * adjacency))
  : option adjacency :=
  if P2P (cfg c) then
    match p2p_up c l with
    | Some a => if bool_decide (a_snpa a = src) then Some a else None
    | None => None
    end
  else List.find (fun a => bool_decide (a_snpa a = src) && is_up (a_state a)) order.*2.

(** The System IDs the circuit knows at some level. *)
Definition seenIDs (c : circuit) : gset SystemID :=
  ⋃ ((fun l => dom (adjs_at c l)) <$> cfg_levels (cfg c)).

Definition atAdjacencyLimit (c : circuit) (id : SystemID) : bool :=
  let limit := cfg_adjacencyLimit (cfg c) in
  if (limit <=? 0) || P2P (cfg c) then false else
  negb (bool_decide (id ∈ seenIDs c)) && (limit <=? Z.of_nat (size (seenIDs c))).

Definition upAdjacencyCount (c : circuit) (l : Level) : nat :=
  if P2P (cfg c) then (if bool_decide (is_Some (p2p_up c l)) then 1 else 0)%nat
  else length (upAdjacencies c l).

Definition suppressedAdjacencyCount (c : circuit) (l : Level) : nat :=
  if P2P (cfg c) then
    match p2p_up c l with Some a => if a_suppressed a then 1%nat else 0%nat | None => 0%nat end
  else (length (upAdjacencies c l) - length (advertisedAdjacencies c l))%nat.

(** ** Level sets *)

Lemma levelSet_has_add (s : Z) (l k : Level) :
  levelSet_has (levelSet_add s l) k = bool_decide (l = k) || levelSet_has s k.
Proof.
  unfold levelSet_has, levelSet_add, flag.
  assert (Hb : forall x l, (Z.land x (level_bit l) =? 0) = negb (Z.testbit x (match l with Level1 => 1 | Level2 => 2 end))).
  { intros x m. set (n := match m with Level1 => 1 | Level2 => 2 end).
    assert (Hp : level_bit m = 2 ^ n) by (by destruct m).
    assert (Hn : 0 <= n) by (destruct m; simpl; lia).
    rewrite Hp. destruct (Z.testbit x n) eqn:E; cbn [negb].
    - apply Z.eqb_neq. intros H0. assert (F : Z.testbit (Z.land x (2 ^ n)) n = false) by (rewrite H0; apply Z.bits_0).
      rewrite Z.land_spec, E, Z.pow2_bits_true in F by lia. done.
    - apply Z.eqb_eq. apply Z.bits_inj'. intros k' Hk. rewrite Z.land_spec, Z.bits_0.
      destruct (Z.eqb_spec n k') as [<-|Hne]; [by rewrite E|].
      rewrite Z.pow2_bits_false by done. apply andb_false_r. }
  rewrite !Hb, !negb_involutive, Z.lor_spec.
  destruct l, k; cbn; rewrite ?orb_true_r, ?orb_false_r; done.
Qed.

(** ** Flags *)

Lemma lookup_at_level {A} (f : A -> A) (l k : Level) (m : gmap Level A) :
  at_level f l m !! k = if decide (l = k) then f <$> m !! k else m !! k.
Proof.
  unfold at_level. rewrite lookup_alter. by case_decide; subst.
Qed.

(** ** Time *)

Lemma Sub_le (t u d : Z) : d < 2 ^ 63 -> d <= Sub t u <-> d <= Z.max (- 2 ^ 63) (t - u).
Proof. unfold Sub. lia. Qed.

Lemma Sub_nonneg (t u : Z) : u <= t -> 0 <= Sub t u <= t - u.
Proof. unfold Sub. lia. Qed.

Lemma Sub_pos (t u : Z) : 0 < Sub t u <-> u < t.
Proof. unfold Sub. lia. Qed.

(** The time a flag is due, and whether a report is pending. *)
Definition srm_at (c : circuit) (l : Level) (id : LSPID) : option Z := srm c !! l ≫= lookup id.
Definition ssn_has (c : circuit) (l : Level) (id : LSPID) : Prop := id ∈ default ∅ (ssn c !! l).

(** A circuit that runs a level has its flag maps. *)
Definition runs (c : circuit) (l : Level) : Prop := is_Some (srm c !! l) /\ is_Some (ssn c !! l).

Lemma srm_at_set c l id w l' id' :
  is_Some (srm c !! l) ->
  srm_at (setSRM c l id w) l' id' = if decide (l = l' /\ id = id') then Some w else srm_at c l' id'.
Proof.
  intros [m Hm]. unfold srm_at, setSRM. cbn [set_flags srm]. rewrite lookup_at_level.
  destruct (decide (l = l')) as [<-|Hl]; [|rewrite decide_False by tauto; done].
  rewrite Hm. simpl. rewrite lookup_insert. destruct (decide (id = id')) as [<-|Hid].
  - by rewrite decide_True.
  - by rewrite decide_False by tauto.
Qed.

Lemma srm_at_clear c l id l' id' :
  srm_at (clearSRM c l id) l' id' = if decide (l = l' /\ id = id') then None else srm_at c l' id'.
Proof.
  unfold srm_at, clearSRM. cbn [set_flags srm]. rewrite lookup_at_level.
  destruct (decide (l = l')) as [<-|Hl]; [|rewrite decide_False by tauto; done].
  destruct (srm c !! l) as [m|]; simpl; [|by case_decide].
  rewrite lookup_delete. destruct (decide (id = id')) as [<-|Hid].
  - by rewrite decide_True.
  - by rewrite decide_False by tauto.
Qed.

Lemma ssn_has_set c l id l' id' :
  is_Some (ssn c !! l) -> ssn_has (setSSN c l id) l' id' <-> (l = l' /\ id = id') \/ ssn_has c l' id'.
Proof.
  intros [m Hm]. unfold ssn_has, setSSN. cbn [set_flags ssn]. rewrite lookup_at_level.
  destruct (decide (l = l')) as [<-|Hl]; [|naive_solver].
  rewrite Hm. simpl. set_solver.
Qed.

Lemma ssn_has_clear c l id l' id' :
  ssn_has (clearSSN c l id) l' id' <-> ~ (l = l' /\ id = id') /\ ssn_has c l' id'.
Proof.
  unfold ssn_has, clearSSN. cbn [set_flags ssn]. rewrite lookup_at_level.
  destruct (decide (l = l')) as [<-|Hl]; [|naive_solver].
  destruct (ssn c !! l) as [m|]; simpl; set_solver.
Qed.

(** Neither flag operation reads or writes the other flag. *)
Lemma srm_setSSN c l id : srm (setSSN c l id) = srm c. Proof. reflexivity. Qed.
Lemma srm_clearSSN c l id : srm (clearSSN c l id) = srm c. Proof. reflexivity. Qed.
Lemma ssn_setSRM c l id w : ssn (setSRM c l id w) = ssn c. Proof. reflexivity. Qed.
Lemma ssn_clearSRM c l id : ssn (clearSRM c l id) = ssn c. Proof. reflexivity. Qed.

Lemma srm_at_setSSN c l id l' id' : srm_at (setSSN c l id) l' id' = srm_at c l' id'.
Proof. reflexivity. Qed.
Lemma srm_at_clearSSN c l id l' id' : srm_at (clearSSN c l id) l' id' = srm_at c l' id'.
Proof. reflexivity. Qed.
Lemma ssn_has_setSRM c l id w l' id' : ssn_has (setSRM c l id w) l' id' <-> ssn_has c l' id'.
Proof. reflexivity. Qed.
Lemma ssn_has_clearSRM c l id l' id' : ssn_has (clearSRM c l id) l' id' <-> ssn_has c l' id'.
Proof. reflexivity. Qed.

Create Rewrite HintDb flags.
#[export] Hint Rewrite srm_at_setSSN srm_at_clearSSN srm_at_clear ssn_has_setSRM ssn_has_clearSRM
  ssn_has_clear : flags.
