(* ===== verification/Policy.v ===== *)
(** pkg/server/policy.go: prefix lists, as the ordered first-match filters the
    export and FIB policies are built from. *)

From stdpp Require Import strings.
From S2P Require Import Prelude.
From S2P Require Import Netip.
Local Open Scope Z_scope.

(** [type PrefixAction string] *)
Definition Permit : string := "permit".
Definition Deny : string := "deny".

Record PrefixRule : Type := mkPrefixRule {
  Action : string;
  rule_Prefix : Prefix;
  MinLen : Z;
  MaxLen : Z
}.

Record PrefixList : Type := mkPrefixList {
  Rules : list PrefixRule;
  Default : string
}.

Definition matches (r : PrefixRule) (p : Prefix) : bool :=
  let rp := Masked (rule_Prefix r) in
  if negb (Bool.eqb (Is4 (p_addr rp)) (Is4 (p_addr p))) then false else
  if (p_bits p <? p_bits rp) || negb (Contains rp (p_addr p)) then false else
  if (MinLen r =? 0) && (MaxLen r =? 0) then p_bits p =? p_bits rp else
  let lo := if MinLen r =? 0 then p_bits rp else MinLen r in
  let hi := if MaxLen r =? 0 then BitLen (p_addr p) else MaxLen r in
  (lo <=? p_bits p) && (p_bits p <=? hi).

(** The [for] loop of [Allows] over the rules. *)
Fixpoint allows_loop (rules : list PrefixRule) (dflt : string) (p : Prefix) : bool :=
  match rules with
  | [] => bool_decide (dflt = Permit)
  | r :: rules => if matches r p then bool_decide (Action r = Permit) else allows_loop rules dflt p
  end.

Definition Allows (pl : PrefixList) (p : Prefix) : bool :=
  allows_loop (Rules pl) (Default pl) (Masked p).

(** The adapters: the policies read only the prefix. *)
Definition AdvertiseFilter {A} (prefix_of : A -> Prefix) (pl : PrefixList) (a : A) : bool :=
  Allows pl (prefix_of a).

(** ** What a rule matches *)

(** The prefixes a rule selects, spelled out: of the rule's family, inside its
    prefix, of a length in its bounds. *)
Definition selects (r : PrefixRule) (p : Prefix) : Prop :=
  let rp := Masked (rule_Prefix r) in
  Is4 (p_addr rp) = Is4 (p_addr p) /\ Contains rp (p_addr p) = true /\ p_bits rp <= p_bits p /\
  if decide (MinLen r = 0 /\ MaxLen r = 0) then p_bits p = p_bits rp
  else (MinLen r <> 0 -> MinLen r <= p_bits p) /\
       (MaxLen r <> 0 -> p_bits p <= MaxLen r) /\ (MaxLen r = 0 -> p_bits p <= BitLen (p_addr p)).

Lemma matches_selects (r : PrefixRule) (p : Prefix) : matches r p = true <-> selects r p.
Proof.
  unfold matches, selects. cbn zeta. set (rp := Masked (rule_Prefix r)). clearbody rp.
  destruct (Is4 (p_addr rp)), (Is4 (p_addr p)); simpl; try (split; [done|by intros [? _]]).
  all: destruct (Contains rp (p_addr p)); rewrite ?orb_false_r, ?orb_true_r; simpl;
    [|split; [done|by intros (_ & ? & _)]].
  all: destruct (Z.ltb_spec (p_bits p) (p_bits rp)); [split; [done|lia]|].
  all: destruct (Z.eqb_spec (MinLen r) 0), (Z.eqb_spec (MaxLen r) 0); simpl; case_decide; try lia.
Qed.

Lemma allows_loop_first (rules : list PrefixRule) (dflt : string) (p : Prefix) :
  allows_loop rules dflt p =
  match List.find (fun r => matches r p) rules with
  | Some r => bool_decide (Action r = Permit)
  | None => bool_decide (dflt = Permit)
  end.
Proof. induction rules as [|r rules IH]; simpl; [done|]. by destruct (matches r p). Qed.
