(* ===== verification/Lsdb.v ===== *)
(** pkg/server/lsdb.go: the link-state database, the lifetimes its entries age
    by, the RFC 7987 corrupt-lifetime window and its budget. *)

From S2P Require Import Prelude.
From S2P Require Import Netip.
From S2P Require Import Ids.
From S2P Require Import Tlv.
From S2P Require Import Checksum.
From S2P Require Import Pdu.
From S2P Require Import Auth.
From S2P Require Import Circuit.
Local Open Scope Z_scope.

Definition maxAgeSeconds : Z := 1200.
Definition refreshSeconds : Z := 900.
Definition zeroAgeSeconds : Z := 60.

Definition receivedLifetime (remaining : Z) : Z :=
  if remaining =? 0 then 0 else Z.max remaining maxAgeSeconds.

Definition corruptLifetime (adj : option adjacency) (remaining now : Z) : bool :=
  if (remaining =? 0) || (zeroAgeSeconds <=? remaining) then false else
  match adj with
  | Some a => zeroAgeSeconds * Second <=? Sub now (a_syncSince a)
  | None => false
  end.

Definition maxSyncSuppression : Z := 5 * zeroAgeSeconds * Second.
Definition syncRefillDivisor : Z := 10.

Definition resetSyncWindow (a : adjacency) (now : Z) : adjacency := adj_set_sync a now now 0 now.

Definition refillSyncBudget (a : adjacency) (now : Z) : adjacency :=
  let elapsed := Sub now (a_syncCharged a) in
  if elapsed <=? 0 then a else
  let spent := a_syncSpent a - Z.quot elapsed syncRefillDivisor in
  adj_set_sync a (a_syncSince a) (a_upSince a) (if spent <? 0 then 0 else spent) now.

Definition openSyncWindow (a : adjacency) (now : Z) : adjacency :=
  let a := refillSyncBudget a now in
  let add := Sub now (a_syncSince a) in
  if add <=? 0 then a else
  if maxSyncSuppression <=? a_syncSpent a then a else
  adj_set_sync a now (a_upSince a)
    (a_syncSpent a + Z.min add (zeroAgeSeconds * Second)) (a_syncCharged a).

Definition maxLSPSeq : Z := 4294967295.
Definition seqWrapHold : Z := (zeroAgeSeconds + 5) * Second.

(** ** Entries *)

Record lspEntry : Type := mkLspEntry {
  e_lsp : LSP;
  e_raw : bytes;
  e_inserted : Z;
  e_lifetime : Z;
  e_own : bool;
  e_purgedAt : option Z;
  e_refreshAt : Z
}.

(** [int(now.Sub(e.inserted).Seconds())] truncates towards zero. *)
Definition remaining (e : lspEntry) (now : Z) : Z :=
  let elapsed := Z.quot (Sub now (e_inserted e)) Second in
  let rem := e_lifetime e - elapsed in
  if rem <? 0 then 0 else u16 rem.

Definition wire (e : lspEntry) (now : Z) : bytes :=
  let b := e_raw e in
  if (12 <=? length b)%nat then store b 10 (put16 (remaining e now)) else b.

Abbreviation lsdb := (gmap LSPID lspEntry).

Definition newer (candSeq candRemaining : Z) (ex : option lspEntry) (now : Z) : bool :=
  match ex with
  | None => true
  | Some e =>
      if negb (candSeq =? SequenceNumber (e_lsp e)) then SequenceNumber (e_lsp e) <? candSeq else
      let candZero := candRemaining =? 0 in
      let exZero := remaining e now =? 0 in
      if negb (Bool.eqb candZero exZero) then candZero else false
  end.

(** [LSPInfo] without its rendered text, and [snapshot]. *)
Record LSPInfo : Type := mkLSPInfo {
  i_Level : Level; i_LSPID : LSPID; i_SequenceNumber : Z; i_Remaining : Z; i_Checksum : Z;
  i_Own : bool; i_Hostname : bytes; i_tlvs : list TLV
}.

Definition snapshot (level : Level) (db : lsdb) (now : Z) (hostnames : gmap SystemID bytes) : list LSPInfo :=
  (fun '(id, e) =>
    mkLSPInfo level id (SequenceNumber (e_lsp e)) (remaining e now) (checksum (e_lsp e)) (e_own e)
      (default [] (hostnames !! NodeID_SystemID (LSPID_NodeID id))) (LSP_TLVs (e_lsp e)))
  <$> map_to_list db.

(** ** Lemmas *)

(** An entry whose clock has not stepped back since it was inserted. *)
Definition entry_time_ok (e : lspEntry) (now : Z) : Prop :=
  u16_ok (e_lifetime e) /\ e_inserted e <= now.

Lemma elapsed_nonneg (e : lspEntry) (now : Z) :
  e_inserted e <= now -> 0 <= Z.quot (Sub now (e_inserted e)) Second.
Proof. intros H. apply Z.quot_pos; [by apply Sub_nonneg|]. unfold Second. lia. Qed.

Lemma remaining_range (e : lspEntry) (now : Z) : u16_ok (remaining e now).
Proof.
  unfold remaining, u16_ok. cbn zeta. destruct (Z.ltb_spec (e_lifetime e - Z.quot (Sub now (e_inserted e)) Second) 0); [lia|].
  unfold u16. apply Z.mod_pos_bound. lia.
Qed.

Lemma remaining_eq (e : lspEntry) (now : Z) :
  entry_time_ok e now ->
  remaining e now = Z.max 0 (e_lifetime e - (now - e_inserted e) / Second).
Proof.
  intros [Hl Hi]. pose proof (elapsed_nonneg e now Hi) as He. unfold remaining. cbn zeta.
  assert (Hq : Z.quot (Sub now (e_inserted e)) Second = (now - e_inserted e) / Second \/
    (65536 <= Z.quot (Sub now (e_inserted e)) Second /\ 65536 <= (now - e_inserted e) / Second)).
  { unfold Sub. destruct (Z.le_gt_cases (now - e_inserted e) (2 ^ 63 - 1)).
    - left. rewrite Z.min_r, Z.max_r by lia. apply Z.quot_div_nonneg; unfold Second; lia.
    - right. rewrite Z.min_l, Z.max_r by lia. split; [by vm_compute|].
      apply Z.div_le_lower_bound; unfold Second; lia. }
  unfold u16_ok in Hl.
  destruct (Z.ltb_spec (e_lifetime e - Z.quot (Sub now (e_inserted e)) Second) 0); [lia|].
  unfold u16. rewrite Z.mod_small by lia. lia.
Qed.

Lemma newer_seq (s r : Z) (e : lspEntry) (now : Z) :
  newer s r (Some e) now = true ->
  SequenceNumber (e_lsp e) < s \/
  (s = SequenceNumber (e_lsp e) /\ r = 0 /\ remaining e now <> 0).
Proof.
  unfold newer. destruct (Z.eqb_spec s (SequenceNumber (e_lsp e))); cbn [negb]; [|lia].
  destruct (Z.eqb_spec r 0), (Z.eqb_spec (remaining e now) 0); cbn; try done. right. lia.
Qed.

(** The budget never exceeds its cap by more than one window, and the window
    never closes backwards. *)
Definition sync_ok (a : adjacency) : Prop :=
  0 <= a_syncSpent a <= maxSyncSuppression + zeroAgeSeconds * Second.

Lemma refill_spent (a : adjacency) (now : Z) :
  0 <= a_syncSpent a ->
  0 <= a_syncSpent (refillSyncBudget a now) <= a_syncSpent a /\
  a_syncSince (refillSyncBudget a now) = a_syncSince a.
Proof.
  intros H. unfold refillSyncBudget. cbn zeta.
  destruct (Z.leb_spec (Sub now (a_syncCharged a)) 0); [lia|]. cbn [adj_set_sync a_syncSpent a_syncSince].
  assert (0 <= Z.quot (Sub now (a_syncCharged a)) syncRefillDivisor).
  { apply Z.quot_pos; unfold syncRefillDivisor; lia. }
  destruct (Z.ltb_spec (a_syncSpent a - Z.quot (Sub now (a_syncCharged a)) syncRefillDivisor) 0); lia.
Qed.
