(* ===== verification/Dis.v ===== *)
(** pkg/server/dis.go: Designated IS election on a broadcast circuit. *)

From S2P Require Import Prelude.
From S2P Require Import Netip.
From S2P Require Import Ids.
From S2P Require Import Circuit.
Local Open Scope Z_scope.

Definition higherCandidate (p1 : Z) (s1 : SNPA) (p2 : Z) (s2 : SNPA) : bool :=
  if negb (p1 =? p2) then p2 <? p1
  else match bytes_compare s1 s2 with Gt => true | _ => false end.

(** The candidate a scan holds: priority, SNPA, and whether it is this node. *)
Record candidate : Type := mkCandidate { c_priority : Z; c_snpa : SNPA; weAreDIS : bool }.

Definition elect_step (best : candidate) (a : adjacency) : candidate :=
  if higherCandidate (a_priority a) (a_snpa a) (c_priority best) (c_snpa best)
  then mkCandidate (a_priority a) (a_snpa a) false else best.

(** [for _, adj := range c.upAdjacencies(level) { ... }] *)
Definition elect (start : candidate) (adjs : list adjacency) : candidate :=
  fold_left elect_step adjs start.

(** [winningLANID] over an iteration order of [c.adjs[level]]. *)
Definition winningLANID (order : list (SystemID * adjacency)) (snpa : SNPA) : NodeID :=
  match List.find (fun a => bool_decide (a_snpa a = snpa) && is_up (a_state a)) order.*2 with
  | Some a => a_lanID a
  | None => zeroNodeID
  end.

(** [electDIS]: the circuit afterwards.  [order] and [order'] are the iteration
    orders of the two scans. *)
Definition electDIS (self : SystemID) (c : circuit) (l : Level)
    (order order' : list (SystemID * adjacency)) : circuit :=
  if P2P (cfg c) then c else
  let best := elect (mkCandidate (cfg_priority (cfg c)) (LocalSNPA (cfg_Transport (cfg c))) true) (ups order) in
  if weAreDIS best then set_dis c (<[l := nodeID self (pseudonodeID c)]> (dis c))
  else
    let lan := winningLANID order' (c_snpa best) in
    if bool_decide (lan = zeroNodeID) then c else set_dis c (<[l := lan]> (dis c)).

(** ** The order of candidates *)

(** [(p1, s1)] is no better than [(p2, s2)]. *)
Definition no_better (p1 : Z) (s1 : SNPA) (p2 : Z) (s2 : SNPA) : Prop :=
  higherCandidate p1 s1 p2 s2 = false.

Lemma higher_spec (p1 : Z) (s1 : SNPA) (p2 : Z) (s2 : SNPA) :
  higherCandidate p1 s1 p2 s2 = true <-> p2 < p1 \/ (p1 = p2 /\ bytes_compare s1 s2 = Gt).
Proof.
  unfold higherCandidate. destruct (Z.eqb_spec p1 p2) as [->|Hne]; cbn [negb].
  - destruct (bytes_compare s1 s2); split; try done; try lia; try (intros [?|[_ ?]]; [lia|done]).
    by right.
  - rewrite Z.ltb_lt. split; [by left|]. intros [?|[? _]]; [done|lia].
Qed.

Lemma no_better_refl (p : Z) (s : SNPA) : no_better p s p s.
Proof.
  unfold no_better. destruct (higherCandidate p s p s) eqn:E; [|done].
  apply higher_spec in E as [?|[_ E]]; [lia|]. by rewrite bytes_compare_refl in E.
Qed.

Lemma not_higher (p1 : Z) (s1 : SNPA) (p2 : Z) (s2 : SNPA) :
  no_better p1 s1 p2 s2 <-> p1 < p2 \/ (p1 = p2 /\ bytes_compare s1 s2 <> Gt).
Proof.
  unfold no_better. rewrite <- not_true_iff_false, higher_spec.
  destruct (Z.lt_total p1 p2) as [|[->|]]; intuition lia.
Qed.

Lemma no_better_trans p1 s1 p2 s2 p3 s3 :
  no_better p1 s1 p2 s2 -> no_better p2 s2 p3 s3 -> no_better p1 s1 p3 s3.
Proof.
  rewrite !not_higher. intros [?|[-> H1]] [?|[-> H2]]; [left; lia..|].
  right. split; [done|]. by apply bytes_compare_not_Gt_trans with s2.
Qed.

Lemma no_better_antisym p1 s1 p2 s2 :
  no_better p1 s1 p2 s2 -> no_better p2 s2 p1 s1 -> p1 = p2 /\ s1 = s2.
Proof.
  rewrite !not_higher. intros [?|[-> H1]] [?|[? H2]]; [lia..|]. split; [done|].
  rewrite bytes_compare_antisym in H2. apply bytes_compare_eq.
  destruct (bytes_compare s1 s2); simpl in *; done.
Qed.

(** ** The scan *)

Definition best_of (best : candidate) (p : Z) (s : SNPA) : Prop :=
  no_better p s (c_priority best) (c_snpa best).

Lemma elect_step_spec (b : candidate) (a : adjacency) :
  let b' := elect_step b a in
  best_of b' (a_priority a) (a_snpa a) /\ best_of b' (c_priority b) (c_snpa b) /\
  (b' = b \/ b' = mkCandidate (a_priority a) (a_snpa a) false).
Proof.
  unfold elect_step, best_of. destruct (higherCandidate _ _ _ _) eqn:E; simpl.
  - split; [apply no_better_refl|]. split; [|by right].
    apply not_higher. apply higher_spec in E as [?|[-> E]]; [by left|]. right. split; [done|].
    by rewrite bytes_compare_antisym, E.
  - split; [done|]. split; [apply no_better_refl|by left].
Qed.

Lemma elect_spec (adjs : list adjacency) (b : candidate) :
  let b' := elect b adjs in
  best_of b' (c_priority b) (c_snpa b) /\
  Forall (fun a => best_of b' (a_priority a) (a_snpa a)) adjs /\
  (b' = b \/ exists a, a ∈ adjs /\ b' = mkCandidate (a_priority a) (a_snpa a) false /\
    higherCandidate (a_priority a) (a_snpa a) (c_priority b) (c_snpa b) = true).
Proof.
  revert b. induction adjs as [|a adjs IH]; intros b; cbn zeta.
  - split; [apply no_better_refl|]. split; [constructor|by left].
  - change (elect b (a :: adjs)) with (elect (elect_step b a) adjs).
    destruct (elect_step_spec b a) as (Ha & Hb & Hor). destruct (IH (elect_step b a)) as (H1 & H2 & H3).
    assert (Ht : forall p s, best_of (elect_step b a) p s -> best_of (elect (elect_step b a) adjs) p s).
    { intros p s Hp. eapply no_better_trans; [exact Hp|exact H1]. }
    split; [by apply Ht|]. split; [constructor; [by apply Ht|done]|].
    destruct H3 as [H3|(x & Hx & H3 & Hhi)].
    + rewrite H3. unfold elect_step.
      destruct (higherCandidate (a_priority a) _ _ _) eqn:E; [|by left].
      right. exists a. split; [left|]. done.
    + right. exists x. split; [by right|]. split; [done|].
      destruct (higherCandidate (a_priority x) (a_snpa x) (c_priority b) (c_snpa b)) eqn:E; [done|].
      assert (F : no_better (a_priority x) (a_snpa x) (c_priority (elect_step b a)) (c_snpa (elect_step b a))).
      { eapply no_better_trans; [exact E|exact Hb]. }
      unfold no_better in F. congruence.
Qed.
