(* ===== verification/Restart.v ===== *)
(** pkg/server/restart.go: what a neighbor's restart does to its adjacency
    (RFC 5306), with the holding timer it shares with hello.go ([expired]) and
    the adjacency and circuit snapshots of circuit.go. *)

From S2P Require Import Prelude.
From S2P Require Import Netip.
From S2P Require Import Ids.
From S2P Require Import Sid.
From S2P Require Import SubTLV.
From S2P Require Import Entries.
From S2P Require Import Tlv.
From S2P Require Import Circuit.
From S2P Require Import Dis.
Local Open Scope Z_scope.

(** ** The Restart TLV of a hello *)

Fixpoint restartTLVOf (tlvs : list TLV) : option Restart :=
  match tlvs with
  | [] => None
  | RestartTLV r :: _ => Some r
  | _ :: tlvs => restartTLVOf tlvs
  end.

(** [&packet.RestartTLV{}] *)
Definition zeroRestart : Restart := mkRestart false false false false 0 false (replicate 6 0).

Definition helloRestartTLV (ack : option Restart) : TLV :=
  match ack with
  | Some a => RestartTLV a
  | None => RestartTLV zeroRestart
  end.

(** [rt != nil && rt.RestartRequest], and the SA bit likewise. *)
Definition asks_restart (rt : option Restart) : bool :=
  match rt with Some r => RestartRequest r | None => false end.
Definition asks_suppression (rt : option Restart) : bool :=
  match rt with Some r => SuppressAdjacency r | None => false end.

Definition noteRestart (a : adjacency) (rt : option Restart) (held : bool) (holding now : Z) : adjacency :=
  let first := negb (a_restartMode a) in
  let a := adj_set_restart a (bool_decide (is_Some rt)) (asks_restart rt) (asks_suppression rt) in
  if negb held then adj_set_hold a holding now
  else if first then adj_set_hold a (a_holding a) now
  else a.

(** ** The holding timer *)

(** hello.go: [expired]. *)
Definition expired (a : adjacency) (now : Z) : bool :=
  a_holding a * Second <? Sub now (a_lastHeard a).

Definition restartRemainingTime (a : adjacency) (now : Z) : Z :=
  let hold := a_holding a * Second in
  let left := s64 (hold - Sub now (a_lastHeard a)) in
  if left <=? 0 then 0
  else if hold <=? left then a_holding a
  else u16 (Z.quot left Second).

Definition restartAck (c : circuit) (a : adjacency) (now : Z) : Restart :=
  let left := restartRemainingTime a now in
  if P2P (cfg c) then mkRestart false true false true left false (replicate 6 0)
  else mkRestart false true false true left true (a_systemID a).

(** ** Who synchronizes a restarter on a LAN *)

(** [order] is the order in which the loop visits [c.adjs[level]]. *)
Definition restartSyncEligible (c : circuit) (order : list (SystemID * adjacency)) : bool :=
  forallb (fun a =>
    a_restartMode a || negb (a_restartCapable a) ||
    negb (higherCandidate (a_priority a) (a_snpa a) (cfg_priority (cfg c)) (LocalSNPA (cfg_Transport (cfg c)))))
    (ups order).

(** ** Snapshots *)

(** adjacency.go: [AdjacencyInfo]; a listing fills in the host name. *)
Record AdjacencyInfo : Type := mkAdjacencyInfo {
  ai_Interface : string; ai_Level : Level; ai_SystemID : SystemID; ai_SNPA : SNPA; ai_State : AdjState;
  ai_Priority : Z; ai_Holding : Z; ai_HoldingRemaining : Z; ai_Restarting : bool; ai_Suppressed : bool;
  ai_Hostname : bytes
}.

Definition infoFor (c : circuit) (a : adjacency) (l : Level) (now : Z) : AdjacencyInfo :=
  mkAdjacencyInfo (Name (cfg c)) l (a_systemID a) (a_snpa a) (a_state a) (a_priority a) (a_holding a)
    (restartRemainingTime a now) (a_restartMode a) (a_suppressed a) [].

(** [order l] is the order in which the loop visits [c.adjs[l]]. *)
Definition adjacencyInfos (c : circuit) (order : Level -> list (SystemID * adjacency)) (now : Z) : list AdjacencyInfo :=
  if P2P (cfg c) then
    match p2pAdj c with
    | Some a => (fun l => infoFor c a l now) <$> levelSet_levels (a_levels a)
    | None => []
    end
  else cfg_levels (cfg c) ≫= fun l => (fun a => infoFor c a l now) <$> (order l).*2.

Record CircuitInfo : Type := mkCircuitInfo {
  ci_Interface : string; ci_P2P : bool; ci_Level1 : bool; ci_Level2 : bool; ci_Priority : Z; ci_Metric : Z;
  ci_LinkUp : bool
}.

Definition circuit_info (c : circuit) : CircuitInfo :=
  mkCircuitInfo (Name (cfg c)) (P2P (cfg c)) (cfg_Level1 (cfg c)) (cfg_Level2 (cfg c)) (cfg_priority (cfg c))
    (Metric (cfg c)) (negb (linkDown c)).

(** ** The timer as the restarter reads it *)

(** Times and holding times as Go represents them: an instant below 2^62
    nanoseconds of the epoch either way, a 16-bit holding time. *)
Definition timer_ok (a : adjacency) (now : Z) : Prop :=
  u16_ok (a_holding a) /\ - 2 ^ 62 < now - a_lastHeard a < 2 ^ 62.

Lemma restartRemaining_eq (a : adjacency) (now : Z) :
  timer_ok a now ->
  restartRemainingTime a now = Z.min (a_holding a) (Z.max 0 ((a_holding a * Second - (now - a_lastHeard a)) / Second)).
Proof.
  unfold timer_ok, u16_ok, restartRemainingTime, Sub, s64, u16, Second. intros [Hh Ht].
  rewrite (Z.min_r (2 ^ 63 - 1)), (Z.max_r (- 2 ^ 63)) by lia.
  rewrite Z.mod_small by lia. rewrite Z.add_simpl_r.
  set (left := a_holding a * 1000000000 - (now - a_lastHeard a)).
  destruct (Z.leb_spec left 0).
  { assert (left / 1000000000 <= 0) by (Z.to_euclidean_division_equations; lia). lia. }
  destruct (Z.leb_spec (a_holding a * 1000000000) left).
  { assert (a_holding a <= left / 1000000000) by (apply Z.div_le_lower_bound; lia). lia. }
  rewrite Z.quot_div_nonneg by lia.
  assert (0 <= left / 1000000000 <= a_holding a) by (split; [apply Z.div_pos|apply Z.div_le_upper_bound]; lia).
  rewrite Z.mod_small; lia.
Qed.

(** The timer has run out exactly when less than a second of it is left and the
    instant it names has passed. *)
Lemma expired_iff (a : adjacency) (now : Z) :
  timer_ok a now -> expired a now = true <-> a_lastHeard a + a_holding a * Second < now.
Proof.
  unfold timer_ok, expired, Sub. intros [Hh Ht]. lia.
Qed.
