(* ===== verification/EdgeLog.v ===== *)
(** pkg/server/edgelog.go: logging the edge of a persisting condition.  The
    state is the set of fired keys; a call that takes a callback returns
    whether it runs. *)

From S2P Require Import Prelude.

Section EdgeLog.
Context {K : Type} `{Countable K}.

Definition edgeLog : Type := gset K.

Definition edge_warn (key : K) (e : edgeLog) : edgeLog * bool :=
  if decide (key ∈ e) then (e, false) else ({[ key ]} ∪ e, true).

Definition edge_any (e : edgeLog) : bool := negb (bool_decide (e = ∅)).

Definition edge_clear (key : K) (e : edgeLog) : edgeLog := e ∖ {[ key ]}.

Definition edge_clearFunc (pred : K -> bool) (e : edgeLog) : edgeLog :=
  filter (fun k => pred k = false) e.

Definition edge_recovered (key : K) (e : edgeLog) : edgeLog * bool :=
  if decide (key ∈ e) then (e ∖ {[ key ]}, true) else (e, false).

(** A sequence of calls on one log. *)
Inductive edge_op : Type :=
  | OpWarn (key : K)
  | OpClear (key : K)
  | OpClearFunc (pred : K -> bool)
  | OpRecovered (key : K).

(** One call: the state, and the key its callback ran for as a warning. *)
Definition edge_step (e : edgeLog) (op : edge_op) : edgeLog * option K :=
  match op with
  | OpWarn key => let '(e, fired) := edge_warn key e in (e, if fired then Some key else None)
  | OpClear key => (edge_clear key e, None)
  | OpClearFunc pred => (edge_clearFunc pred e, None)
  | OpRecovered key => ((edge_recovered key e).1, None)
  end.

(** The calls of a sequence and what each logged. *)
Fixpoint edge_run (e : edgeLog) (ops : list edge_op) : list (option K) :=
  match ops with
  | [] => []
  | op :: ops => let '(e, w) := edge_step e op in w :: edge_run e ops
  end.

(** Whether a call can re-arm a key. *)
Definition rearms (key : K) (op : edge_op) : bool :=
  match op with
  | OpWarn _ => false
  | OpClear k => bool_decide (k = key)
  | OpClearFunc pred => pred key
  | OpRecovered k => bool_decide (k = key)
  end.

Lemma edge_step_keeps (e : edgeLog) (op : edge_op) (key : K) :
  key ∈ e -> rearms key op = false -> key ∈ (edge_step e op).1 /\ (edge_step e op).2 <> Some key.
Proof.
  intros He Hr. destruct op as [k|k|pred|k]; simpl in *.
  - unfold edge_warn. case_decide; simpl; [done|]. split; [set_solver|]. congruence.
  - apply bool_decide_eq_false in Hr. unfold edge_clear. set_solver.
  - unfold edge_clearFunc. split; [|done]. by apply elem_of_filter.
  - apply bool_decide_eq_false in Hr. unfold edge_recovered. case_decide; simpl; set_solver.
Qed.

Lemma edge_run_quiet (ops : list edge_op) (e : edgeLog) (key : K) :
  key ∈ e -> Forall (fun op => rearms key op = false) ops -> Some key ∉ edge_run e ops.
Proof.
  revert e. induction ops as [|op ops IH]; intros e He Hr; simpl; [apply not_elem_of_nil|].
  inversion Hr as [|? ? Hop Hops]; subst.
  destruct (edge_step_keeps e op key He Hop) as [Hin Hne].
  destruct (edge_step e op) as [e' w]. simpl in *. rewrite not_elem_of_cons. split; [congruence|].
  by apply IH.
Qed.
End EdgeLog.
Arguments edgeLog K {_ _}.
