(* ===== verification/Server.v ===== *)
(** pkg/server/server.go and auth.go: the state the Serve loop owns, the
    effects it has on the outside, authentication scopes, flooding marks and
    the small operations every handler uses.

    The circuits of the server are a list and a [*circuit] is an index into it.
    An observable call out of the state (a PDU handed to a transport, a metric,
    a warning) is appended to the trace. *)

From S2P Require Import Prelude.
From S2P Require Import Netip.
From S2P Require Import Ids.
From S2P Require Import Sid.
From S2P Require Import SubTLV.
From S2P Require Import Entries.
From S2P Require Import Tlv.
From S2P Require Import Checksum.
From S2P Require Import Pdu.
From S2P Require Import Auth.
From S2P Require Import Circuit.
From S2P Require Import Restart.
From S2P Require Import Lsdb.
From S2P Require Import EdgeLog.
Local Open Scope Z_scope.

(** ** Effects *)

(** metrics.go: the reasons of [PDUDrop]. *)
Inductive dropReason : Set :=
  | dropDecode | dropAuth | dropNoAdjacency | dropChecksum | dropLSDBLimit | dropUnknownPurge
  | dropOwnSysIDPurge | dropOwnFragmentPurge | dropOwnLSPReclaimed | dropOwnSeqWrap
  | dropAdjacencyLimit | dropLinkDown | dropHelloInvalid | dropHelloMismatch | dropDuplicateSystemID.

#[export] Instance dropReason_eq_dec : EqDecision dropReason.
Proof. solve_decision. Defined.

(** The reasons of [PDUTxError]. *)
Inductive txErr : Set := txErrSerialize | txErrAuth | txErrSend.

#[export] Instance txErr_eq_dec : EqDecision txErr.
Proof. solve_decision. Defined.

#[export] Instance txErr_countable : Countable txErr.
Proof.
  refine (inj_countable' (fun r => match r with txErrSerialize => 0%nat | txErrAuth => 1%nat | txErrSend => 2%nat end)
    (fun n => match n with O => txErrSerialize | S O => txErrAuth | _ => txErrSend end) _). by intros [].
Defined.

Inductive effect : Type :=
  | PDUDrop (circuit : string) (r : dropReason)
  | LSPLifetimeFloored (circuit : string)
  | LSPLifetimeCorrupt (circuit : string)
  | SubTLVRefused (circuit : string)
  | RestartRequested (circuit : string) (held : bool)
  | AdjacencyTransition (circuit : string) (l : Level) (st : AdjState)
  | AdjacencyEvent (info : AdjacencyInfo)
  | PDURx (circuit : string) (t : Z)
  | FloodTx (circuit : string)
  | FloodDrop (circuit : string)
  | PDUTxError (circuit : string) (r : txErr)
  | Sent (circuit : string) (dst : SNPA) (pdu : bytes)
  | PDURxError (circuit : string)
  | LSDBSize (l : Level) (n : nat)
  | AdjacencyCount (circuit : string) (l : Level) (n : nat)
  | AdjacencySuppressed (circuit : string) (l : Level) (n : nat)
  | EventQueueDepth (n : nat)
  | ForgetCircuit (circuit : string)
  | Warned (what : string).

(** ** Authentication scopes *)

Record authSpec : Type := mkAuthSpec {
  algo : AuthAlgorithm;
  keyID : Z;
  key : bytes;
  spec_acceptKeys : list bytes
}.

Definition zeroSpec : authSpec := mkAuthSpec AuthMD5 0 [] [].

Definition spec_on (a : authSpec) : bool := (0 <? length (key a))%nat.

(** [acceptKeys]: an empty entry is dropped. *)
Definition acceptKeys (passwords : list bytes) : list bytes :=
  List.filter (fun pw => negb (length pw =? 0)%nat) passwords.

(** [requirePrimaryPassword]: whether it returns an error. *)
Definition requirePrimaryPassword (primary : bytes) (accept : list bytes) : bool :=
  (length primary =? 0)%nat && (0 <? length accept)%nat.

Definition authTLVPlaceholder (spec : authSpec) : TLV := AuthTLV (algo spec) (keyID spec).

Definition helloSpec (c : CircuitConfig) : authSpec :=
  if (length (HelloPassword c) =? 0)%nat then zeroSpec
  else mkAuthSpec (HelloAuthAlgorithm c) (HelloKeyID c) (HelloPassword c)
         (acceptKeys (HelloAcceptPasswords c)).

(** ** State *)

Record Server : Type := mkServer {
  systemID : SystemID;
  areaAddrs : list bytes;
  levelCap : Z;
  authKeys : gmap Level authSpec;
  lsdbEntryLimit : Z;
  circuits : list circuit;
  dbs : gmap Level lsdb;
  spfDirty : bool;
  lspGenPending : bool;
  nextLSPGen : Z;
  seqWrapUntil : gmap (Level * LSPID) Z;
  lspBufferSize : Z;
  overloadUntil : Z;
  overloadManual : bool;
  lsdbLimitWarned : gset Level;
  oversizeWarned : gset (string * LSPID);
  refusedWarned : gset (string * Z);
  txFailWarned : gset (string * txErr);
  dupSystemIDWarned : gset string;
  adjLimitWarned : gset string;
  watched : bool;
  trace : list effect
}.

(** The LSDB and what depends on it; the circuits; the logs; the trace. *)
Definition set_circuits (s : Server) (cs : list circuit) : Server :=
  mkServer (systemID s) (areaAddrs s) (levelCap s) (authKeys s) (lsdbEntryLimit s) cs (dbs s)
    (spfDirty s) (lspGenPending s) (nextLSPGen s) (seqWrapUntil s) (lspBufferSize s)
    (overloadUntil s) (overloadManual s) (lsdbLimitWarned s) (oversizeWarned s) (refusedWarned s)
    (txFailWarned s) (dupSystemIDWarned s) (adjLimitWarned s) (watched s) (trace s).

Definition set_dbs (s : Server) (m : gmap Level lsdb) : Server :=
  mkServer (systemID s) (areaAddrs s) (levelCap s) (authKeys s) (lsdbEntryLimit s) (circuits s) m
    (spfDirty s) (lspGenPending s) (nextLSPGen s) (seqWrapUntil s) (lspBufferSize s)
    (overloadUntil s) (overloadManual s) (lsdbLimitWarned s) (oversizeWarned s) (refusedWarned s)
    (txFailWarned s) (dupSystemIDWarned s) (adjLimitWarned s) (watched s) (trace s).

Definition set_gen (s : Server) (dirty pending : bool) (next : Z) : Server :=
  mkServer (systemID s) (areaAddrs s) (levelCap s) (authKeys s) (lsdbEntryLimit s) (circuits s) (dbs s)
    dirty pending next (seqWrapUntil s) (lspBufferSize s)
    (overloadUntil s) (overloadManual s) (lsdbLimitWarned s) (oversizeWarned s) (refusedWarned s)
    (txFailWarned s) (dupSystemIDWarned s) (adjLimitWarned s) (watched s) (trace s).

Definition set_seqWrap (s : Server) (m : gmap (Level * LSPID) Z) : Server :=
  mkServer (systemID s) (areaAddrs s) (levelCap s) (authKeys s) (lsdbEntryLimit s) (circuits s) (dbs s)
    (spfDirty s) (lspGenPending s) (nextLSPGen s) m (lspBufferSize s)
    (overloadUntil s) (overloadManual s) (lsdbLimitWarned s) (oversizeWarned s) (refusedWarned s)
    (txFailWarned s) (dupSystemIDWarned s) (adjLimitWarned s) (watched s) (trace s).

Definition set_warned (s : Server) (w1 : gset Level) (w2 : gset (string * LSPID))
    (w3 : gset (string * Z)) (w4 : gset (string * txErr)) (w5 w6 : gset string) : Server :=
  mkServer (systemID s) (areaAddrs s) (levelCap s) (authKeys s) (lsdbEntryLimit s) (circuits s) (dbs s)
    (spfDirty s) (lspGenPending s) (nextLSPGen s) (seqWrapUntil s) (lspBufferSize s)
    (overloadUntil s) (overloadManual s) w1 w2 w3 w4 w5 w6 (watched s) (trace s).

Definition set_overload (s : Server) (until : Z) (manual : bool) : Server :=
  mkServer (systemID s) (areaAddrs s) (levelCap s) (authKeys s) (lsdbEntryLimit s) (circuits s) (dbs s)
    (spfDirty s) (lspGenPending s) (nextLSPGen s) (seqWrapUntil s) (lspBufferSize s)
    until manual (lsdbLimitWarned s) (oversizeWarned s) (refusedWarned s)
    (txFailWarned s) (dupSystemIDWarned s) (adjLimitWarned s) (watched s) (trace s).

(** The levels the circuits run, and the size of an LSP they can all carry. *)
Definition set_levels (s : Server) (cap buffer : Z) : Server :=
  mkServer (systemID s) (areaAddrs s) cap (authKeys s) (lsdbEntryLimit s) (circuits s) (dbs s)
    (spfDirty s) (lspGenPending s) (nextLSPGen s) (seqWrapUntil s) buffer
    (overloadUntil s) (overloadManual s) (lsdbLimitWarned s) (oversizeWarned s) (refusedWarned s)
    (txFailWarned s) (dupSystemIDWarned s) (adjLimitWarned s) (watched s) (trace s).

Definition set_watched (s : Server) (w : bool) : Server :=
  mkServer (systemID s) (areaAddrs s) (levelCap s) (authKeys s) (lsdbEntryLimit s) (circuits s) (dbs s)
    (spfDirty s) (lspGenPending s) (nextLSPGen s) (seqWrapUntil s) (lspBufferSize s)
    (overloadUntil s) (overloadManual s) (lsdbLimitWarned s) (oversizeWarned s) (refusedWarned s)
    (txFailWarned s) (dupSystemIDWarned s) (adjLimitWarned s) w (trace s).

Definition set_trace (s : Server) (t : list effect) : Server :=
  mkServer (systemID s) (areaAddrs s) (levelCap s) (authKeys s) (lsdbEntryLimit s) (circuits s) (dbs s)
    (spfDirty s) (lspGenPending s) (nextLSPGen s) (seqWrapUntil s) (lspBufferSize s)
    (overloadUntil s) (overloadManual s) (lsdbLimitWarned s) (oversizeWarned s) (refusedWarned s)
    (txFailWarned s) (dupSystemIDWarned s) (adjLimitWarned s) (watched s) t.

Definition emit (s : Server) (e : effect) : Server := set_trace s (trace s ++ [e]).

(** A write through a [*circuit]. *)
Definition upd_circuit (s : Server) (i : nat) (f : circuit -> circuit) : Server :=
  set_circuits s (alter f i (circuits s)).

(** [s.dbs[level].entries[id] = e] and [delete(s.dbs[level].entries, id)]. *)
Definition db_put (s : Server) (l : Level) (id : LSPID) (e : lspEntry) : Server :=
  set_dbs s (alter (<[id := e]>) l (dbs s)).
Definition db_del (s : Server) (l : Level) (id : LSPID) : Server :=
  set_dbs s (alter (delete id) l (dbs s)).
Definition db_get (s : Server) (l : Level) (id : LSPID) : option lspEntry := dbs s !! l ≫= lookup id.

(** [s.dbs[level]] where it is dereferenced: a nil database panics. *)
Definition the_db (s : Server) (l : Level) : outcome lsdb :=
  match dbs s !! l with Some db => Ok db | None => Panic end.

(** ** Operations *)

Definition markDirty (s : Server) : Server := set_gen s true (lspGenPending s) (nextLSPGen s).

Definition requestLSPRegen (s : Server) : Server := markDirty (set_gen s (spfDirty s) true (nextLSPGen s)).

Definition overloaded (s : Server) (now : Z) : bool :=
  overloadManual s || (negb (overloadUntil s =? zeroTime) && (now <? overloadUntil s)).

Definition isType (s : Server) : Z :=
  Z.lor (flag_if (levelSet_has (levelCap s) Level1) 1) (flag_if (levelSet_has (levelCap s) Level2) 2).

Definition authKey (s : Server) (l : Level) : authSpec := default zeroSpec (authKeys s !! l).

(** [floodLSP]: SRM on every circuit of the level but the one it arrived on. *)
Definition flood_one (l : Level) (id : LSPID) (except : option nat) (now : Z) (j : nat) (c : circuit) : circuit :=
  if bool_decide (except = Some j) then c else
  match srm c !! l with
  | None => c
  | Some _ => clearSSN (setSRM c l id now) l id
  end.

Definition floodLSP (s : Server) (l : Level) (id : LSPID) (except : option nat) (now : Z) : Server :=
  set_circuits s (imap (flood_one l id except now) (circuits s)).

(** datalink.go: [DestForLevel]; flooding.go: [circuit.dest]. *)
Definition AllL1ISs : SNPA := [1; 128; 194; 0; 0; 20].
Definition AllL2ISs : SNPA := [1; 128; 194; 0; 0; 21].
Definition AllISs : SNPA := [9; 0; 43; 0; 0; 5].
Definition DestForLevel (l : Level) : SNPA := match l with Level2 => AllL2ISs | Level1 => AllL1ISs end.
Definition circuit_dest (c : circuit) (l : Level) : SNPA :=
  if P2P (cfg c) then AllISs else DestForLevel l.

(** [ownsLSP]: whether this node is the current originator of an LSP ID. *)
Definition ownsLSP (s : Server) (l : Level) (id : LSPID) : bool :=
  if negb (bool_decide (NodeID_SystemID (LSPID_NodeID id) = systemID s)) then false else
  let pn := NodeID_PseudonodeID (LSPID_NodeID id) in
  if pn =? 0 then true
  else existsb (fun c => (pseudonodeID c =? pn) && isDIS c l (systemID s)) (circuits s).

(** rib.go: [findAdjacency], the Up adjacency to a system and its circuit. *)
Definition circuit_adjacency (c : circuit) (id : SystemID) : option adjacency :=
  if P2P (cfg c) then
    match p2pAdj c with
    | Some a => if is_up (a_state a) && bool_decide (a_systemID a = id) then Some a else None
    | None => None
    end
  else
    first_found (fun l =>
      match adjs_at c l !! id with
      | Some a => if is_up (a_state a) then Some a else None
      | None => None
      end) (cfg_levels (cfg c)).

Fixpoint find_in (cs : list circuit) (j : nat) (id : SystemID) : option (adjacency * nat) :=
  match cs with
  | [] => None
  | c :: cs =>
      match circuit_adjacency c id with
      | Some a => Some (a, j)
      | None => find_in cs (S j) id
      end
  end.

Definition findAdjacency (s : Server) (id : SystemID) : option (adjacency * nat) := find_in (circuits s) 0 id.

(** metrics.go: [noteRefusedSubTLV], [txFailed], [txSucceeded]. *)
Definition noteRefusedSubTLV (s : Server) (c : circuit) (lsp : LSP) : Server :=
  match RefusedSubTLV (LSP_TLVs lsp) with
  | None => s
  | Some u =>
      let s := emit s (SubTLVRefused (Name (cfg c))) in
      let '(w, fired) := edge_warn (Name (cfg c), SubTLVType u) (refusedWarned s) in
      let s := set_warned s (lsdbLimitWarned s) (oversizeWarned s) w (txFailWarned s)
                 (dupSystemIDWarned s) (adjLimitWarned s) in
      if fired then emit s (Warned "attribute refused and kept opaque; suppressing repeats") else s
  end.

Definition set_txFail (s : Server) (w : gset (string * txErr)) : Server :=
  set_warned s (lsdbLimitWarned s) (oversizeWarned s) (refusedWarned s) w (dupSystemIDWarned s) (adjLimitWarned s).

Definition txFailed (s : Server) (c : circuit) (r : txErr) : Server :=
  let s := emit s (PDUTxError (Name (cfg c)) r) in
  let '(w, fired) := edge_warn (Name (cfg c), r) (txFailWarned s) in
  let s := set_txFail s w in
  if fired then emit s (Warned "circuit cannot transmit; suppressing repeats") else s.

Definition txSucceeded (s : Server) (c : circuit) : Server :=
  set_txFail s (fold_left (fun w r => edge_clear (Name (cfg c), r) w)
    [txErrSerialize; txErrAuth; txErrSend] (txFailWarned s)).

Section Crypto.
Context (hmac : AuthAlgorithm -> bytes -> bytes -> bytes).

(** [authSpec.verify] *)
Fixpoint verify_any (pdu : bytes) (off : nat) (a : authSpec) (isLSP : bool) (keys : list bytes) : outcome bool :=
  match keys with
  | [] => mret false
  | k :: keys =>
      ok ← VerifyAuth hmac pdu off (algo a) (keyID a) k isLSP;
      if ok : bool then mret true else verify_any pdu off a isLSP keys
  end.

Definition spec_verify (a : authSpec) (pdu : bytes) (off : nat) (isLSP : bool) : outcome bool :=
  verify_any pdu off a isLSP (key a :: spec_acceptKeys a).

(** [serializeLSP]: the octets and the LSP with its checksum set by
    [Serialize]. *)
Definition serializeLSP (s : Server) (lsp : LSP) : outcome (bytes * LSP) :=
  '(raw, lsp) ← LSP_Serialize lsp;
  let spec := authKey s (LSP_Level lsp) in
  if spec_on spec then
    r ← FinalizeLSPAuth hmac raw (algo spec) (keyID spec) (key spec);
    match r with
    | Some raw => mret (raw, lsp)
    | None => Err errAuth
    end
  else mret (raw, lsp).

(** [pduAuthOK] *)
Definition pduAuthOK (s : Server) (c : circuit) (raw : bytes) (pt : Z) (l : Level) (isLSP : bool)
  : outcome (bool * Server) :=
  let spec := authKey s l in
  if negb (spec_on spec) then mret (true, s) else
  ok ← spec_verify spec raw (HeaderLen pt) isLSP;
  if ok : bool then mret (true, s) else mret (false, emit s (PDUDrop (Name (cfg c)) dropAuth)).
End Crypto.

(** ** Flooding an LSP ID *)

Lemma lookup_floodLSP s l id ex now j :
  circuits (floodLSP s l id ex now) !! j = flood_one l id ex now j <$> circuits s !! j.
Proof. unfold floodLSP. cbn [set_circuits circuits]. apply list_lookup_imap. Qed.

(** A circuit that runs the level, other than the one excepted, has the LSP
    flagged for transmission and no acknowledgement of it pending. *)
Lemma flood_one_flags l id ex now j c :
  runs c l -> ex <> Some j ->
  srm_at (flood_one l id ex now j c) l id = Some now /\ ~ ssn_has (flood_one l id ex now j c) l id.
Proof.
  intros [Hr _] Hne. unfold flood_one. rewrite bool_decide_false by done.
  pose proof Hr as [m Hm]. rewrite Hm. split.
  - rewrite srm_at_clearSSN, srm_at_set by done. by rewrite decide_True.
  - rewrite ssn_has_clear. tauto.
Qed.

Lemma flood_one_except l id now j c : flood_one l id (Some j) now j c = c.
Proof. unfold flood_one. by rewrite bool_decide_true. Qed.

Lemma lookup_upd s i f j :
  circuits (upd_circuit s i f) !! j = (if decide (i = j) then f else fun c => c) <$> circuits s !! j.
Proof.
  unfold upd_circuit. cbn [set_circuits circuits]. case_decide as H.
  - subst j. apply list_lookup_alter_eq.
  - rewrite list_lookup_alter_ne by done. by destruct (circuits s !! j).
Qed.
