(* ===== verification/Lifetime.v ===== *)
(** pkg/server/lifetime.go and the own-LSP half of flooding.go: purges,
    sequence-number exhaustion, reclaiming an own LSP, and aging the database.

    [rand] is the jitter [rand.N] returned; the order a loop visits a map in is
    an argument. *)

From S2P Require Import Prelude.
From S2P Require Import Framing.
From S2P Require Import Netip.
From S2P Require Import Ids.
From S2P Require Import Sid.
From S2P Require Import SubTLV.
From S2P Require Import Tlv.
From S2P Require Import Checksum.
From S2P Require Import Pdu.
From S2P Require Import Auth.
From S2P Require Import Circuit.
From S2P Require Import Lsdb.
From S2P Require Import EdgeLog.
From S2P Require Import Server.
Local Open Scope Z_scope.

(** [now.Add(refreshSeconds*time.Second - rand.N(refreshSeconds/4*time.Second))] *)
Definition refreshDeadline (now rand : Z) : Z := now + (refreshSeconds * Second - rand).

(** What [rand.N(refreshSeconds/4*time.Second)] can return. *)
Definition rand_ok (rand : Z) : Prop := 0 <= rand < 225 * Second.

(** Go's [if err != nil { log; return }]: on an error the state is left as it
    is. *)
Definition unless_err {A B} (m : outcome A) (s : B) (k : A -> outcome B) : outcome B :=
  match m with
  | Ok a => k a
  | Err _ => Ok s
  | Panic => Panic
  end.

Section Lifetime.
Context (hmac : AuthAlgorithm -> bytes -> bytes -> bytes).

Definition purgeTLVs (s : Server) (l : Level) : list TLV :=
  UnknownTLV TLVTypePurgeOriginatorID (1 :: systemID s)
  :: (if spec_on (authKey s l) then [authTLVPlaceholder (authKey s l)] else []).

Definition makePurge (s : Server) (l : Level) (id : LSPID) (seq : Z) : outcome (LSP * bytes) :=
  let lsp := mkLSP l 0 id seq 0 false false false false false false (isType s) (purgeTLVs s l) in
  '(raw, lsp) ← serializeLSP hmac s lsp;
  mret (lsp, raw).

Definition purge_entry (lsp : LSP) (raw : bytes) (own : bool) (refreshAt now : Z) : lspEntry :=
  mkLspEntry lsp raw now 0 own (Some now) refreshAt.

Definition exhaustSeq (s : Server) (l : Level) (id : LSPID) (now : Z) : outcome Server :=
  let s := match seqWrapUntil s !! (l, id) with
           | None => emit s (Warned "LSP sequence number space exhausted; purging and holding the ID down")
           | Some _ => s
           end in
  let s := set_seqWrap s (<[(l, id) := now + seqWrapHold]> (seqWrapUntil s)) in
  unless_err (makePurge s l id maxLSPSeq) s (fun '(lsp, raw) =>
  _ ← the_db s l;
  let s := db_put s l id (purge_entry lsp raw true zeroTime now) in
  mret (floodLSP (markDirty s) l id None now)).

Definition purgeOwn (s : Server) (l : Level) (id : LSPID) (now : Z) : outcome Server :=
  let purge seq :=
    unless_err (makePurge s l id seq) s (fun '(lsp, raw) =>
    let s := db_put s l id (purge_entry lsp raw true zeroTime now) in
    mret (floodLSP (markDirty s) l id None now)) in
  db ← the_db s l;
  match db !! id with
  | None => purge 1
  | Some ex =>
      if SequenceNumber (e_lsp ex) =? maxLSPSeq then exhaustSeq s l id now
      else purge (u32 (SequenceNumber (e_lsp ex) + 1))
  end.

(** [expirePurge] on the entry the database holds for [id]. *)
Definition expirePurge (s : Server) (l : Level) (id : LSPID) (e : lspEntry) (now : Z) : outcome Server :=
  unless_err (makePurge s l id (SequenceNumber (e_lsp e))) s (fun '(lsp, raw) =>
  let s := db_put s l id (purge_entry lsp raw (e_own e) (e_refreshAt e) now) in
  mret (floodLSP (markDirty s) l id None now)).

(** flooding.go: the copy [reoriginateOwn] re-sequences. *)
Definition resequenced (p : LSP) (seq : Z) : LSP :=
  mkLSP (LSP_Level p) maxAgeSeconds (LSP_LSPID p) seq (checksum p) (Partition p) (AttError p)
    (AttExpense p) (AttDelay p) (AttDefault p) (Overload p) (ISType p) (LSP_TLVs p).

Definition reoriginateOwn (s : Server) (l : Level) (id : LSPID) (seenSeq now rand : Z) : outcome Server :=
  db ← the_db s l;
  match db !! id with
  | None => mret s
  | Some ex =>
      if seenSeq =? maxLSPSeq then exhaustSeq s l id now else
      unless_err (serializeLSP hmac s (resequenced (e_lsp ex) (u32 (seenSeq + 1)))) s (fun '(raw, lsp) =>
      let s := db_put s l id
        (mkLspEntry lsp raw now maxAgeSeconds true None (refreshDeadline now rand)) in
      mret (floodLSP (markDirty s) l id None now))
  end.

(** [purgeOwnLSPs] (server.go) over an iteration order of the databases. *)
Fixpoint purgeOwnLSPs (s : Server) (order : list (Level * LSPID)) (now : Z) : outcome Server :=
  match order with
  | [] => mret s
  | (l, id) :: order =>
      s ← match db_get s l id with
          | Some e => if e_own e && bool_decide (e_purgedAt e = None) then purgeOwn s l id now else mret s
          | None => mret s
          end;
      purgeOwnLSPs s order now
  end.

(** One visit of the loops of [ageLSPs]. *)
Definition age_one (s : Server) (l : Level) (id : LSPID) (e : lspEntry) (now : Z) : outcome Server :=
  match e_purgedAt e with
  | Some p => if zeroAgeSeconds * Second <=? Sub now p then mret (markDirty (db_del s l id)) else mret s
  | None =>
      if e_own e && (e_refreshAt e <=? now) then mret s
      else if remaining e now =? 0 then
        if e_own e then mret s else expirePurge s l id e now
      else mret s
  end.

Fixpoint ageLSPs (s : Server) (order : list (Level * LSPID)) (now : Z) : outcome Server :=
  match order with
  | [] => mret s
  | (l, id) :: order =>
      s ← match db_get s l id with Some e => age_one s l id e now | None => mret s end;
      ageLSPs s order now
  end.
End Lifetime.

(** ** Reads after writes *)

Lemma floodLSP_dbs s l id ex now : dbs (floodLSP s l id ex now) = dbs s.
Proof. reflexivity. Qed.

Lemma db_get_put s l id e l' id' :
  db_get (db_put s l id e) l' id' =
  if decide (l = l' /\ id = id' /\ is_Some (dbs s !! l)) then Some e else db_get s l' id'.
Proof.
  unfold db_get, db_put. cbn [set_dbs dbs]. rewrite lookup_alter.
  destruct (decide (l = l')) as [<-|Hl].
  - destruct (dbs s !! l) as [db|]; simpl.
    + destruct (decide (id = id')) as [<-|Hid].
      * rewrite lookup_insert_eq. by rewrite decide_True by eauto.
      * rewrite lookup_insert_ne by done. rewrite decide_False by tauto. done.
    + rewrite decide_False; [done|]. intros (_ & _ & ? & ?). done.
  - rewrite decide_False by tauto. done.
Qed.

Lemma db_get_del s l id l' id' :
  db_get (db_del s l id) l' id' = if decide (l = l' /\ id = id') then None else db_get s l' id'.
Proof.
  unfold db_get, db_del. cbn [set_dbs dbs]. rewrite lookup_alter.
  destruct (decide (l = l')) as [<-|Hl].
  - destruct (dbs s !! l) as [db|]; simpl.
    + destruct (decide (id = id')) as [<-|Hid].
      * rewrite lookup_delete_eq. by rewrite decide_True by eauto.
      * rewrite lookup_delete_ne by done. rewrite decide_False by tauto. done.
    + by case_decide.
  - rewrite decide_False by tauto. done.
Qed.

Lemma db_get_flood s l id ex now l' id' :
  db_get (floodLSP (markDirty s) l id ex now) l' id' = db_get s l' id'.
Proof. reflexivity. Qed.

(** ** What serializing changes *)

Lemma serializeLSP_fields hmac s p p' raw :
  serializeLSP hmac s p = Ok (raw, p') -> exists sum, p' = set_checksum p sum.
Proof.
  unfold serializeLSP. intros H. apply bind_Ok in H as ([b q] & Hs & H).
  destruct (LSP_Serialize_fields _ _ _ Hs) as [sum ->]. exists sum.
  destruct (spec_on _); [|by injection H as <- <-].
  apply bind_Ok in H as ([r|] & _ & H); [by injection H as <- <-|done].
Qed.

Lemma serializeLSP_nopanic hmac s p :
  serializeTLVs (LSP_TLVs p) <> Panic -> serializeLSP hmac s p <> Panic.
Proof.
  intros H. unfold serializeLSP. apply bind_Panic; [by apply LSP_Serialize_nopanic|].
  intros [b q] _. destruct (spec_on _); [|done].
  apply bind_Panic; [apply FinalizeLSPAuth_nopanic|]. by intros [r|].
Qed.

Lemma TLV_Serialize_simple (t : TLV) : (exists v, TLV_value t = Ok v) -> TLV_Serialize t <> Panic.
Proof. intros [v Hv]. unfold TLV_Serialize, encodeTLV. rewrite Hv. simpl. by case_match. Qed.

Lemma purgeTLVs_nopanic s l : serializeTLVs (purgeTLVs s l) <> Panic.
Proof.
  assert (Hc : forall (t : TLV) (ts : list TLV),
    TLV_Serialize t <> Panic -> concatM TLV_Serialize ts <> Panic -> concatM TLV_Serialize (t :: ts) <> Panic).
  { intros t ts Ht Hts. simpl. apply bind_Panic; [done|]. intros e _. by apply bind_Panic. }
  unfold serializeTLVs, purgeTLVs. apply Hc; [apply TLV_Serialize_simple; eauto|].
  destruct (spec_on _); [|done]. apply Hc; [|done]. apply TLV_Serialize_simple.
  unfold authTLVPlaceholder, AuthTLV. destruct (is_md5 _); simpl; unfold Authentication_value; eauto.
Qed.

Lemma makePurge_nopanic hmac s l id seq : makePurge hmac s l id seq <> Panic.
Proof.
  unfold makePurge. apply bind_Panic; [apply serializeLSP_nopanic, purgeTLVs_nopanic|]. by intros [].
Qed.

Lemma makePurge_fields hmac s l id seq lsp raw :
  makePurge hmac s l id seq = Ok (lsp, raw) ->
  SequenceNumber lsp = seq /\ RemainingTime lsp = 0 /\ LSP_LSPID lsp = id /\ LSP_Level lsp = l /\
  LSP_TLVs lsp = purgeTLVs s l.
Proof.
  unfold makePurge. intros H. apply bind_Ok in H as ([r q] & Hs & [= <- <-]).
  by destruct (serializeLSP_fields _ _ _ _ _ Hs) as [sum ->].
Qed.

(** ** One entry written

    Every operation that originates or purges an LSP ID writes that entry, marks
    the topology dirty and floods the ID, or fails and writes nothing. *)
Definition writes (l : Level) (id : LSPID) (P : lspEntry -> Prop) (s s' : Server) : Prop :=
  dbs s' = dbs s \/ exists e, dbs s' = alter (<[id := e]>) l (dbs s) /\ P e.

Lemma writes_put l id (P : lspEntry -> Prop) s e now :
  P e -> writes l id P s (floodLSP (markDirty (db_put s l id e)) l id None now).
Proof. intros HP. right. by exists e. Qed.

Lemma writes_from l id P s s0 s' : dbs s0 = dbs s -> writes l id P s0 s' -> writes l id P s s'.
Proof. intros E H. unfold writes in *. by rewrite E in H. Qed.

Lemma writes_mono l id (P Q : lspEntry -> Prop) s s' :
  (forall e, P e -> Q e) -> writes l id P s s' -> writes l id Q s s'.
Proof. intros HPQ [H|(e & H & He)]; [by left|right; eauto]. Qed.

(** A write over a write of the same entry. *)
Lemma writes_over l id P s e0 s' :
  writes l id P (db_put s l id e0) s' -> P e0 -> writes l id P s s'.
Proof.
  intros [H|(e & H & He)] H0; right.
  - by exists e0.
  - exists e. split; [|done]. rewrite H. unfold db_put. cbn [set_dbs dbs].
    apply map_eq. intros k. rewrite !lookup_alter. case_decide; [|done].
    subst. destruct (dbs s !! _); simpl; rewrite ?decide_True by done; simpl; [|done].
    f_equal. apply insert_insert_eq.
Qed.

Section Writes.
Context (hmac : AuthAlgorithm -> bytes -> bytes -> bytes).

Lemma exhaustSeq_writes s l id now s' :
  exhaustSeq hmac s l id now = Ok s' ->
  writes l id (fun e => SequenceNumber (e_lsp e) = maxLSPSeq /\ e_purgedAt e = Some now) s s'.
Proof using.
  unfold exhaustSeq. set (s1 := match _ with None => _ | Some _ => _ end).
  assert (E : dbs s1 = dbs s) by (subst s1; by destruct (seqWrapUntil s !! (l, id))). clearbody s1.
  set (s2 := set_seqWrap s1 _). intros H.
  apply (writes_from _ _ _ _ s2); [done|].
  destruct (makePurge hmac s2 l id maxLSPSeq) as [[lsp raw]| |] eqn:Hm; [|injection H as <-; by left|done].
  apply makePurge_fields in Hm as (Hseq & _). apply bind_Ok in H as (db & _ & [= <-]).
  apply (writes_put l id _ s2 (purge_entry lsp raw true zeroTime now)). done.
Qed.

Lemma expirePurge_writes s l id e now s' :
  expirePurge hmac s l id e now = Ok s' ->
  writes l id (fun e' => SequenceNumber (e_lsp e') = SequenceNumber (e_lsp e) /\
    e_purgedAt e' = Some now /\ e_own e' = e_own e) s s'.
Proof using.
  unfold expirePurge. intros H.
  destruct (makePurge hmac s l id _) as [[lsp raw]| |] eqn:Hm; [|injection H as <-; by left|done].
  apply makePurge_fields in Hm as (Hseq & _). injection H as <-.
  by apply writes_put.
Qed.

Lemma purgeOwn_writes s l id now s' :
  purgeOwn hmac s l id now = Ok s' ->
  (forall e, db_get s l id = Some e -> u32_ok (SequenceNumber (e_lsp e))) ->
  writes l id (fun e' => u32_ok (SequenceNumber (e_lsp e')) /\
    forall e, db_get s l id = Some e -> SequenceNumber (e_lsp e) <= SequenceNumber (e_lsp e')) s s'.
Proof using.
  unfold purgeOwn. intros H Hok. apply bind_Ok in H as (db & Hdb & H).
  assert (Hget : db_get s l id = db !! id).
  { unfold the_db in Hdb. unfold db_get. destruct (dbs s !! l); [by injection Hdb as ->|done]. }
  rewrite Hget in *. unfold maxLSPSeq, u32_ok in *.
  assert (Hp : forall seq, 0 <= seq < 4294967296 -> (forall e, db !! id = Some e -> SequenceNumber (e_lsp e) <= seq) ->
    unless_err (makePurge hmac s l id seq) s (fun '(lsp, raw) =>
      mret (floodLSP (markDirty (db_put s l id (purge_entry lsp raw true zeroTime now))) l id None now)) = Ok s' ->
    writes l id (fun e' => 0 <= SequenceNumber (e_lsp e') < 4294967296 /\
      forall e, db !! id = Some e -> SequenceNumber (e_lsp e) <= SequenceNumber (e_lsp e')) s s').
  { intros seq Hr Hle Hu.
    destruct (makePurge hmac s l id seq) as [[lsp raw]| |] eqn:Hm; [|injection Hu as <-; by left|done].
    apply makePurge_fields in Hm as (Hseq & _). injection Hu as <-. apply writes_put. simpl.
    rewrite Hseq. done. }
  destruct (db !! id) as [ex|] eqn:Hex.
  - specialize (Hok ex eq_refl). destruct (Z.eqb_spec (SequenceNumber (e_lsp ex)) 4294967295) as [Hm|Hm].
    + apply exhaustSeq_writes in H. eapply writes_mono; [|exact H]. intros e [He _].
      unfold maxLSPSeq in He. split; [lia|]. intros ? [= <-]. lia.
    + apply (Hp (u32 (SequenceNumber (e_lsp ex) + 1))); [..|exact H]; (unfold u32; rewrite Z.mod_small by lia); [lia|].
      intros ? [= <-]. lia.
  - apply (Hp 1); [lia|done|exact H].
Qed.

Lemma reoriginateOwn_writes s l id seen now rand s' :
  u32_ok seen -> reoriginateOwn hmac s l id seen now rand = Ok s' ->
  writes l id (fun e => seen <= SequenceNumber (e_lsp e) < 4294967296) s s'.
Proof using.
  unfold reoriginateOwn, u32_ok. intros Hr H. apply bind_Ok in H as (db & _ & H).
  destruct (db !! id) as [ex|]; [|injection H as <-; by left].
  unfold maxLSPSeq in H. destruct (Z.eqb_spec seen 4294967295) as [->|Hm].
  - apply exhaustSeq_writes in H. eapply writes_mono; [|exact H]. intros e [He _].
    unfold maxLSPSeq in He. lia.
  - destruct (serializeLSP hmac s _) as [[raw p]| |] eqn:Hs; [|injection H as <-; by left|done].
    injection H as <-. apply writes_put. destruct (serializeLSP_fields _ _ _ _ _ Hs) as [sum ->].
    cbn [e_lsp set_checksum resequenced SequenceNumber]. unfold u32. rewrite Z.mod_small by lia. lia.
Qed.

Lemma exhaustSeq_nopanic s l id now : is_Some (dbs s !! l) -> exhaustSeq hmac s l id now <> Panic.
Proof using.
  intros [db Hdb]. unfold exhaustSeq. set (s1 := match _ with None => _ | Some _ => _ end).
  assert (E : dbs s1 = dbs s) by (subst s1; by destruct (seqWrapUntil s !! (l, id))). clearbody s1.
  set (s2 := set_seqWrap s1 _). assert (E2 : dbs s2 = dbs s) by done. clearbody s2.
  pose proof (makePurge_nopanic hmac s2 l id maxLSPSeq) as Hp.
  destruct (makePurge hmac s2 l id maxLSPSeq) as [[lsp raw]| |]; [|done..].
  simpl. unfold the_db. by rewrite E2, Hdb.
Qed.

Lemma expirePurge_nopanic s l id e now : expirePurge hmac s l id e now <> Panic.
Proof using.
  unfold expirePurge. pose proof (makePurge_nopanic hmac s l id (SequenceNumber (e_lsp e))).
  by destruct (makePurge hmac s l id _) as [[lsp raw]| |].
Qed.

Lemma reoriginateOwn_nopanic s l id seen now rand :
  is_Some (dbs s !! l) ->
  (forall e, db_get s l id = Some e -> serializeTLVs (LSP_TLVs (e_lsp e)) <> Panic) ->
  reoriginateOwn hmac s l id seen now rand <> Panic.
Proof using.
  intros Hl Hs. pose proof Hl as [db Hdb]. unfold reoriginateOwn, the_db. rewrite Hdb. cbn [mbind outcome_bind].
  destruct (db !! id) as [ex|] eqn:Hex; [|done].
  destruct (_ =? _); [by apply exhaustSeq_nopanic|].
  assert (Hser : serializeLSP hmac s (resequenced (e_lsp ex) (u32 (seen + 1))) <> Panic).
  { apply serializeLSP_nopanic. apply Hs. unfold db_get. rewrite Hdb. done. }
  by destruct (serializeLSP hmac s _) as [[raw p]| |].
Qed.
End Writes.

(** ** Purges always serialize without authentication *)

Lemma makePurge_Ok hmac s l id seq :
  length (systemID s) = 6%nat -> spec_on (authKey s l) = false ->
  exists lsp raw, makePurge hmac s l id seq = Ok (lsp, raw).
Proof.
  intros Hid Hoff. unfold makePurge, serializeLSP, LSP_Serialize, serializeWithChecksum, purgeTLVs.
  rewrite Hoff. cbn [LSP_TLVs LSP_Level].
  unfold serializeTLVs. cbn [concatM]. unfold TLV_Serialize. cbn [TLV_value TLV_Type mbind outcome_bind mret outcome_ret].
  unfold encodeTLV. cbn [length]. rewrite Hid. cbn [Nat.ltb Nat.leb mbind outcome_bind mret outcome_ret].
  rewrite from_Ok by (rewrite !length_app; simpl; lia). cbn [mbind outcome_bind mret outcome_ret].
  cbn [set_checksum LSP_Level]. rewrite Hoff. eauto.
Qed.

(** ** Aging *)

Section Aging.
Context (hmac : AuthAlgorithm -> bytes -> bytes -> bytes).

(** What a visit of [ageLSPs] makes of an entry. *)
Definition aged (s : Server) (l : Level) (now : Z) (old new : option lspEntry) : Prop :=
  match old with
  | None => new = None
  | Some e =>
      match e_purgedAt e with
      | Some p => if zeroAgeSeconds * Second <=? Sub now p then new = None else new = Some e
      | None =>
          if e_own e || negb (remaining e now =? 0) then new = Some e
          else
            (spec_on (authKey s l) = true /\ new = Some e) \/
            exists e', new = Some e' /\ SequenceNumber (e_lsp e') = SequenceNumber (e_lsp e) /\
              RemainingTime (e_lsp e') = 0 /\ LSP_TLVs (e_lsp e') = purgeTLVs s l /\
              e_own e' = false /\ e_lifetime e' = 0 /\ e_purgedAt e' = Some now
      end
  end.

(** What a visit leaves alone. *)
Definition same_scope (s s' : Server) : Prop :=
  systemID s' = systemID s /\ authKeys s' = authKeys s /\
  (forall l, is_Some (dbs s' !! l) <-> is_Some (dbs s !! l)).

Lemma same_scope_refl s : same_scope s s.
Proof using. done. Qed.

Lemma same_scope_put s l id e : same_scope s (db_put s l id e).
Proof using.
  split; [done|]. split; [done|]. intros k. unfold db_put. cbn [set_dbs dbs].
  rewrite lookup_alter. case_decide as H; [subst|done]. by rewrite fmap_is_Some.
Qed.

Lemma same_scope_del s l id : same_scope s (db_del s l id).
Proof using.
  split; [done|]. split; [done|]. intros k. unfold db_del. cbn [set_dbs dbs].
  rewrite lookup_alter. case_decide as H; [subst|done]. by rewrite fmap_is_Some.
Qed.

Lemma same_scope_authKey s s' l : same_scope s s' -> authKey s' l = authKey s l.
Proof using. intros (_ & H & _). unfold authKey. by rewrite H. Qed.

Lemma age_one_spec s l id e now s' :
  length (systemID s) = 6%nat -> db_get s l id = Some e ->
  age_one hmac s l id e now = Ok s' ->
  same_scope s s' /\ aged s l now (Some e) (db_get s' l id) /\
  (forall l' id', (l', id') <> (l, id) -> db_get s' l' id' = db_get s l' id').
Proof using.
  intros Hid He H. unfold age_one in H. unfold aged. destruct (e_purgedAt e) as [p|].
  - destruct (_ <=? _); injection H as <-.
    + split; [apply same_scope_del|]. split; [unfold db_get, markDirty; cbn [set_gen dbs]; fold (db_get (db_del s l id) l id)|].
      * rewrite db_get_del. by rewrite decide_True.
      * intros l' id' Hne. change (db_get (db_del s l id) l' id' = db_get s l' id').
        rewrite db_get_del, decide_False; [done|]. intros [-> ->]. done.
    + done.
  - destruct (e_own e) eqn:Ho; cbn [andb orb] in *.
    + assert (s' = s) as ->; [|done].
      destruct (e_refreshAt e <=? now); [by injection H|]. destruct (remaining e now =? 0); by injection H.
    + destruct (remaining e now =? 0); cbn [negb] in *; [|by injection H as <-].
      unfold expirePurge in H.
      destruct (makePurge hmac s l id _) as [[lsp raw]| |] eqn:Hm; [|injection H as <-|done].
      * apply makePurge_fields in Hm as (H1 & H2 & _ & _ & H5). injection H as <-.
        split; [apply same_scope_put|].
        assert (Hdb : is_Some (dbs s !! l)).
        { unfold db_get in He. destruct (dbs s !! l); [eauto|done]. }
        split.
        -- right. eexists. rewrite db_get_flood, db_get_put, decide_True by done. split; [done|].
           cbn. rewrite Ho. done.
        -- intros l' id' Hne. rewrite db_get_flood, db_get_put, decide_False; [done|].
           intros (-> & -> & _). done.
      * split; [done|]. split; [|done]. left. split; [|done].
        destruct (spec_on (authKey s l)) eqn:Hs; [done|].
        destruct (makePurge_Ok hmac s l id (SequenceNumber (e_lsp e)) Hid Hs) as (? & ? & Hok).
        congruence.
Qed.

Lemma aged_scope s s0 l now old new : same_scope s s0 -> aged s0 l now old new -> aged s l now old new.
Proof using.
  intros Hs. unfold aged. rewrite (same_scope_authKey s s0 l Hs).
  assert (Hp : purgeTLVs s0 l = purgeTLVs s l).
  { unfold purgeTLVs. rewrite (same_scope_authKey s s0 l Hs). by destruct Hs as (-> & _). }
  by rewrite Hp.
Qed.

Lemma ageLSPs_spec s order now s' :
  length (systemID s) = 6%nat -> NoDup order -> ageLSPs hmac s order now = Ok s' ->
  (forall l id, (l, id) ∈ order -> aged s l now (db_get s l id) (db_get s' l id)) /\
  (forall l id, (l, id) ∉ order -> db_get s' l id = db_get s l id).
Proof using.
  revert s. induction order as [|[l id] order IH]; intros s Hid Hnd H.
  - injection H as <-. split; [|done]. intros l id Hin. by apply not_elem_of_nil in Hin.
  - apply bind_Ok in H as (s1 & H1 & H). apply NoDup_cons in Hnd as [Hni Hnd].
    assert (Hone : same_scope s s1 /\ aged s l now (db_get s l id) (db_get s1 l id) /\
      forall l' id', (l', id') <> (l, id) -> db_get s1 l' id' = db_get s l' id').
    { destruct (db_get s l id) as [e|] eqn:He; [by apply (age_one_spec s l id e now s1)|].
      injection H1 as <-. by rewrite He. }
    destruct Hone as (Hsc & Hag & Hfr).
    destruct (IH s1) as [IH1 IH2]; [by destruct Hsc as (-> & _)|done|done|]. split.
    + intros l' id' Hin. apply elem_of_cons in Hin as [[= -> ->]|Hin].
      * by rewrite IH2.
      * rewrite <- (Hfr l' id') by (intros [= -> ->]; done).
        eapply aged_scope; [exact Hsc|]. by apply IH1.
    + intros l' id' Hn. apply not_elem_of_cons in Hn as [Hne Hn]. by rewrite IH2, Hfr.
Qed.
End Aging.
