(* ===== verification/Flooding.v ===== *)
(** pkg/server/flooding.go, receiving half: the update process applied to a
    received LSP, CSNP or PSNP. *)

From S2P Require Import Prelude.
From S2P Require Import Netip.
From S2P Require Import Ids.
From S2P Require Import Sid.
From S2P Require Import SubTLV.
From S2P Require Import Entries.
From S2P Require Import Tlv.
From S2P Require Import Checksum.
From S2P Require Import Pdu.
From S2P Require Import Auth.
From S2P Require Import Circuit.
From S2P Require Import Lsdb.
From S2P Require Import EdgeLog.
From S2P Require Import Server.
From S2P Require Import Lifetime.
Local Open Scope Z_scope.

(** ** Sequence number PDUs *)

Definition inRange (id start end_ : LSPID) : bool :=
  match bytes_compare id start with Lt => false | _ => true end &&
  match bytes_compare id end_ with Gt => false | _ => true end.

(** The entries of the LSP Entries TLVs, in order. *)
Definition listedEntries (tlvs : list TLV) : list LSPEntry :=
  flat_map (fun t => match t with LSPEntriesTLV es => es | _ => [] end) tlvs.

(** The [switch] of [processCSNP] on one listed entry. *)
Definition csnp_entry (l : Level) (db : lsdb) (now : Z) (c : circuit) (e : LSPEntry) : circuit :=
  match db !! LE_LSPID e with
  | None => setSSN c l (LE_LSPID e)
  | Some local =>
      if newer (LE_SequenceNumber e) (LE_RemainingTime e) (Some local) now then setSSN c l (LE_LSPID e)
      else if LE_SequenceNumber e <? SequenceNumber (e_lsp local) then setSRM c l (LE_LSPID e) now
      else if (SequenceNumber (e_lsp local) =? LE_SequenceNumber e) &&
              negb (remaining local now =? 0) && negb (LE_RemainingTime e =? 0) &&
              negb (checksum (e_lsp local) =? LE_Checksum e)
      then setSRM c l (LE_LSPID e) now
      else clearSRM c l (LE_LSPID e)
  end.

(** The loop over the database: what the sender left out of its range. *)
Definition csnp_missing (l : Level) (listed : list LSPID) (start end_ : LSPID) (now : Z)
    (c : circuit) (id : LSPID) : circuit :=
  if bool_decide (id ∈ listed) then c
  else if inRange id start end_ then setSRM c l id now else c.

Definition csnp_circuit (db : lsdb) (p : CSNP) (now : Z) (c : circuit) : circuit :=
  let l := CS_Level p in
  let es := listedEntries (CS_TLVs p) in
  let c := fold_left (csnp_entry l db now) es c in
  fold_left (csnp_missing l (LE_LSPID <$> es) (StartLSP p) (EndLSP p) now) (map_to_list db).*1 c.

Definition processCSNP (s : Server) (i : nat) (p : CSNP) (now : Z) : Server :=
  match dbs s !! CS_Level p with
  | None => s
  | Some db => upd_circuit s i (csnp_circuit db p now)
  end.

Definition psnp_entry (l : Level) (db : lsdb) (now : Z) (c : circuit) (e : LSPEntry) : circuit :=
  match db !! LE_LSPID e with
  | None => c
  | Some local =>
      if P2P (cfg c) then
        if SequenceNumber (e_lsp local) <=? LE_SequenceNumber e then clearSRM c l (LE_LSPID e) else c
      else if (LE_SequenceNumber e <? SequenceNumber (e_lsp local)) ||
              ((SequenceNumber (e_lsp local) =? LE_SequenceNumber e) &&
               negb (remaining local now =? 0) && negb (LE_RemainingTime e =? 0) &&
               negb (checksum (e_lsp local) =? LE_Checksum e))
      then setSRM c l (LE_LSPID e) now else c
  end.

Definition psnp_circuit (self : SystemID) (db : lsdb) (p : PSNP) (now : Z) (c : circuit) : circuit :=
  let l := PS_Level p in
  if negb (P2P (cfg c)) && negb (isDIS c l self) then c
  else fold_left (psnp_entry l db now) (listedEntries (PS_TLVs p)) c.

Definition processPSNP (s : Server) (i : nat) (p : PSNP) (now : Z) : Server :=
  match dbs s !! PS_Level p with
  | None => s
  | Some db => upd_circuit s i (psnp_circuit (systemID s) db p now)
  end.

(** ** Received LSPs *)

Definition set_limitWarned (s : Server) (w : gset Level) : Server :=
  set_warned s w (oversizeWarned s) (refusedWarned s) (txFailWarned s) (dupSystemIDWarned s) (adjLimitWarned s).

(** The arm of the entry limit: the drop and its edge log. *)
Definition drop_at_limit (s : Server) (c : circuit) (l : Level) : Server :=
  let '(w, fired) := edge_warn l (lsdbLimitWarned s) in
  let s := set_limitWarned s w in
  let s := if fired then emit s (Warned "drop LSP: database at entry limit; suppressing repeats") else s in
  emit s (PDUDrop (Name (cfg c)) dropLSDBLimit).

Section Update.
Context (hmac : AuthAlgorithm -> bytes -> bytes -> bytes).
(** The jitter [refreshDeadline] draws when this call re-originates. *)
Context (rand : Z).

(** The [!newer] arm of [processLSP] for an entry [ex] the database holds (or
    does not). *)
Definition not_newer (s : Server) (i : nat) (c : circuit) (lsp : LSP) (ex : option lspEntry) (now : Z)
  : outcome Server :=
  let l := LSP_Level lsp in
  let id := LSP_LSPID lsp in
  let ack := if P2P (cfg c) then upd_circuit s i (fun c => setSSN c l id) else s in
  match ex with
  | None => mret ack
  | Some e =>
      if SequenceNumber lsp <? SequenceNumber (e_lsp e) then
        mret (upd_circuit s i (fun c => clearSSN (setSRM c l id now) l id))
      else if (SequenceNumber lsp =? SequenceNumber (e_lsp e)) && (remaining e now =? 0) &&
              negb (RemainingTime lsp =? 0) then
        mret (upd_circuit s i (fun c => clearSSN (setSRM c l id now) l id))
      else if (SequenceNumber lsp =? SequenceNumber (e_lsp e)) && negb (RemainingTime lsp =? 0) &&
              negb (remaining e now =? 0) && negb (checksum lsp =? checksum (e_lsp e)) then
        if negb (e_own e) then expirePurge hmac s l id e now
        else reoriginateOwn hmac s l id (SequenceNumber lsp) now rand
      else mret ack
  end.

(** [handleOwnSystemID]: whether it consumed the LSP, and the state. *)
Definition handleOwnSystemID (s : Server) (c : circuit) (lsp : LSP) (ex : option lspEntry) (now : Z)
  : outcome (bool * Server) :=
  let l := LSP_Level lsp in
  let id := LSP_LSPID lsp in
  if negb (bool_decide (NodeID_SystemID (LSPID_NodeID id) = systemID s)) then mret (false, s) else
  if ownsLSP s l id &&
     match ex with Some e => e_own e && bool_decide (e_purgedAt e = None) | None => false end
  then
    let s := emit s (PDUDrop (Name (cfg c))
               (if SequenceNumber lsp =? maxLSPSeq then dropOwnSeqWrap else dropOwnLSPReclaimed)) in
    s ← reoriginateOwn hmac s l id (SequenceNumber lsp) now rand;
    mret (true, s)
  else if RemainingTime lsp =? 0 then mret (false, s)
  else
    let s := emit s (PDUDrop (Name (cfg c))
               (if IsNodeLSP id then dropOwnFragmentPurge else dropOwnSysIDPurge)) in
    let e := mkLspEntry lsp [] zeroTime 0 false None zeroTime in
    _ ← the_db s l;
    let s := db_put s l id e in
    s ← expirePurge hmac s l id e now;
    mret (true, s).

(** The entry [processLSP] installs. *)
Definition installed (raw : bytes) (lsp : LSP) (now : Z) : lspEntry :=
  mkLspEntry lsp raw now (receivedLifetime (RemainingTime lsp)) false
    (if RemainingTime lsp =? 0 then Some now else None) zeroTime.

Definition install (s : Server) (i : nat) (c : circuit) (raw : bytes) (lsp : LSP)
    (adj : option adjacency) (now : Z) : Server :=
  let l := LSP_Level lsp in
  let id := LSP_LSPID lsp in
  let s := if receivedLifetime (RemainingTime lsp) =? RemainingTime lsp then s
           else emit s (LSPLifetimeFloored (Name (cfg c))) in
  let s := if corruptLifetime adj (RemainingTime lsp) now
           then emit s (LSPLifetimeCorrupt (Name (cfg c))) else s in
  let s := noteRefusedSubTLV s c lsp in
  let s := markDirty (db_put s l id (installed raw lsp now)) in
  let s := if (LSPID_FragmentID id =? 0) && IsNodeLSP id then
             match findAdjacency s (NodeID_SystemID (LSPID_NodeID id)) with
             | Some _ => requestLSPRegen s
             | None => s
             end
           else s in
  let s := floodLSP s l id (Some i) now in
  let s := upd_circuit s i (fun c => clearSRM c l id) in
  if P2P (cfg c) then upd_circuit s i (fun c => setSSN c l id) else s.

(** [processLSP] on the circuit at index [i]. *)
Definition processLSP (s : Server) (i : nat) (c : circuit) (raw : bytes) (lsp : LSP)
    (adj : option adjacency) (now : Z) : outcome Server :=
  let l := LSP_Level lsp in
  match dbs s !! l with
  | None => mret s
  | Some db =>
      let id := LSP_LSPID lsp in
      corrupt ← (if RemainingTime lsp =? 0 then mret false
                 else valid ← LSPChecksumValidRaw raw; mret (negb valid));
      if corrupt : bool then
        mret (emit s (PDUDrop (Name (cfg c)) dropChecksum))
      else
      let ex := db !! id in
      if negb (newer (SequenceNumber lsp) (RemainingTime lsp) ex now) then not_newer s i c lsp ex now
      else if bool_decide (ex = None) && (RemainingTime lsp =? 0) then
        let s := emit s (PDUDrop (Name (cfg c)) dropUnknownPurge) in
        mret (if P2P (cfg c)
              then upd_circuit s i (fun c => setSSNAck c l (mkLSPEntry 0 id (SequenceNumber lsp) (checksum lsp)))
              else s)
      else if bool_decide (ex = None) && (0 <? lsdbEntryLimit s) &&
              (lsdbEntryLimit s <=? Z.of_nat (size db)) then mret (drop_at_limit s c l)
      else
      let s := if bool_decide (ex = None) then set_limitWarned s (edge_clear l (lsdbLimitWarned s)) else s in
      '(consumed, s) ← handleOwnSystemID s c lsp ex now;
      if consumed : bool then mret s else mret (install s i c raw lsp adj now)
  end.
End Update.

(** ** The database after a received LSP *)

Lemma writes_same l id P s s' : dbs s' = dbs s -> writes l id P s s'.
Proof. by left. Qed.

Lemma dbs_upd s i f : dbs (upd_circuit s i f) = dbs s.
Proof. reflexivity. Qed.

Lemma dbs_noteRefused s c lsp : dbs (noteRefusedSubTLV s c lsp) = dbs s.
Proof.
  unfold noteRefusedSubTLV. destruct (RefusedSubTLV _) as [u|]; [|done].
  destruct (edge_warn _ _) as [w []]; done.
Qed.

Lemma dbs_drop_at_limit s c l : dbs (drop_at_limit s c l) = dbs s.
Proof. unfold drop_at_limit. destruct (edge_warn _ _) as [w []]; done. Qed.

Lemma dbs_install s i c raw lsp adj now :
  dbs (install s i c raw lsp adj now) =
  alter (<[LSP_LSPID lsp := installed raw lsp now]>) (LSP_Level lsp) (dbs s).
Proof.
  unfold install. destruct (_ =? RemainingTime lsp), (corruptLifetime adj (RemainingTime lsp) now);
    (destruct (_ && _); [destruct (findAdjacency _ _)|]); destruct (P2P (cfg c)).
  all: cbn [dbs set_dbs set_circuits upd_circuit floodLSP requestLSPRegen markDirty set_gen db_put].
  all: by rewrite dbs_noteRefused.
Qed.

Section UpdateLemmas.
Context (hmac : AuthAlgorithm -> bytes -> bytes -> bytes).
Context (rand : Z).

(** What an entry written for a received sequence number holds: a sequence
    number no lower than the stored one, in range. *)
Definition supersedes (ex : option lspEntry) (e : lspEntry) : Prop :=
  u32_ok (SequenceNumber (e_lsp e)) /\
  forall x, ex = Some x -> SequenceNumber (e_lsp x) <= SequenceNumber (e_lsp e).

Lemma not_newer_writes s i c lsp e now s' :
  db_get s (LSP_Level lsp) (LSP_LSPID lsp) = Some e ->
  u32_ok (SequenceNumber (e_lsp e)) -> u32_ok (SequenceNumber lsp) ->
  not_newer hmac rand s i c lsp (Some e) now = Ok s' ->
  writes (LSP_Level lsp) (LSP_LSPID lsp) (supersedes (Some e)) s s'.
Proof using.
  intros Hg He Hl H. unfold not_newer in H.
  destruct (_ <? _); [injection H as <-; by left|].
  destruct (_ && _ && _); [injection H as <-; by left|].
  destruct (_ && _) eqn:E4; [|injection H as <-; by left; destruct (P2P (cfg c))].
  apply andb_true_iff in E4 as [E4 _]. apply andb_true_iff in E4 as [E4 _].
  apply andb_true_iff in E4 as [E4 _]. apply Z.eqb_eq in E4.
  destruct (negb (e_own e)).
  - apply expirePurge_writes in H. eapply writes_mono; [|exact H]. intros e' (Hs & _).
    split; [by rewrite Hs|]. intros ? [= <-]. lia.
  - apply reoriginateOwn_writes in H; [|done]. eapply writes_mono; [|exact H]. intros e' Hs.
    unfold supersedes, u32_ok in *. split; [lia|]. intros ? [= <-]. lia.
Qed.

Lemma handleOwn_writes s c lsp ex now b s' :
  u32_ok (SequenceNumber lsp) ->
  (forall x, ex = Some x -> SequenceNumber (e_lsp x) <= SequenceNumber lsp) ->
  handleOwnSystemID hmac rand s c lsp ex now = Ok (b, s') ->
  writes (LSP_Level lsp) (LSP_LSPID lsp) (supersedes ex) s s' /\
  (b = false -> s' = s /\ (RemainingTime lsp = 0 \/ NodeID_SystemID (LSPID_NodeID (LSP_LSPID lsp)) <> systemID s)) /\
  (b = true -> NodeID_SystemID (LSPID_NodeID (LSP_LSPID lsp)) = systemID s).
Proof using.
  intros Hu Hle H. unfold handleOwnSystemID in H. unfold u32_ok in Hu.
  destruct (bool_decide _) eqn:Eid; cbn [negb] in H.
  2:{ injection H as <- <-. apply bool_decide_eq_false in Eid. split; [by left|]. split; [by auto|done]. }
  apply bool_decide_eq_true in Eid. destruct (_ && _).
  - apply bind_Ok in H as (s1 & H & [= <- <-]). apply reoriginateOwn_writes in H; [|exact Hu].
    split; [|done]. eapply writes_from; [|eapply writes_mono; [|exact H]]; [done|].
    intros e He. cbv beta in He. unfold supersedes, u32_ok. split; [lia|]. intros x Hx. specialize (Hle x Hx). lia.
  - destruct (Z.eqb_spec (RemainingTime lsp) 0); [injection H as <- <-; split; [by left|split; [by auto|done]]|].
    apply bind_Ok in H as (db & _ & H). apply bind_Ok in H as (s1 & H & [= <- <-]).
    apply expirePurge_writes in H. split; [|done].
    eapply writes_from; [|eapply writes_over; [eapply writes_mono; [|exact H]|]]; [done|..].
    + intros e (He & _). simpl in He. unfold supersedes, u32_ok. rewrite He. split; [lia|].
      intros x Hx. by apply Hle.
    + unfold supersedes, u32_ok. simpl. split; [lia|]. intros x Hx. by apply Hle.
Qed.

(** The only entry [processLSP] writes is the one of the LSP it was handed,
    with a sequence number that does not go backwards; an entry it adds is a
    live one that fits the limit. *)
Lemma processLSP_writes s i c raw lsp adj now s' :
  u32_ok (SequenceNumber lsp) ->
  (forall x, db_get s (LSP_Level lsp) (LSP_LSPID lsp) = Some x -> u32_ok (SequenceNumber (e_lsp x))) ->
  processLSP hmac rand s i c raw lsp adj now = Ok s' ->
  writes (LSP_Level lsp) (LSP_LSPID lsp) (supersedes (db_get s (LSP_Level lsp) (LSP_LSPID lsp))) s s' /\
  (db_get s (LSP_Level lsp) (LSP_LSPID lsp) = None ->
   dbs s' = dbs s \/
   (RemainingTime lsp <> 0 /\
    (0 < lsdbEntryLimit s -> forall db, dbs s !! LSP_Level lsp = Some db -> Z.of_nat (size db) < lsdbEntryLimit s))).
Proof using.
  intros Hu Hex H. unfold processLSP in H. unfold db_get in Hex |- *.
  destruct (dbs s !! LSP_Level lsp) as [db|] eqn:Hdb; [|injection H as <-; split; [by left|by left]].
  cbn [mbind option_bind] in *. apply bind_Ok in H as (corrupt & _ & H).
  destruct corrupt; [injection H as <-; split; [by left|by left]|].
  set (ex := db !! LSP_LSPID lsp) in *.
  destruct (newer _ _ ex now) eqn:En; cbn [negb] in H.
  2:{ destruct ex as [e|] eqn:Ee; [|done]. split; [|done].
      eapply not_newer_writes; [|by apply Hex|done|exact H].
      unfold db_get. by rewrite Hdb. }
  assert (Hle : forall x, ex = Some x -> SequenceNumber (e_lsp x) <= SequenceNumber lsp).
  { intros x Hx. rewrite Hx in En. apply newer_seq in En. lia. }
  destruct (bool_decide (ex = None) && (RemainingTime lsp =? 0)) eqn:E1.
  { injection H as <-. destruct (P2P (cfg c)); split; by left. }
  destruct (bool_decide (ex = None) && (0 <? lsdbEntryLimit s) && _) eqn:E2.
  { injection H as <-. rewrite !dbs_drop_at_limit. split; [left; apply dbs_drop_at_limit|by left]. }
  set (s1 := if bool_decide (ex = None) then _ else s) in *.
  assert (Hs1 : dbs s1 = dbs s) by (subst s1; by destruct (bool_decide _)).
  apply bind_Ok in H as ([consumed s2] & Hh & H).
  apply handleOwn_writes in Hh as (Hw & Hf & _); [|done..].
  assert (Hwr : writes (LSP_Level lsp) (LSP_LSPID lsp) (supersedes ex) s s').
  { destruct consumed; [injection H as <-; by eapply writes_from|].
    destruct (Hf eq_refl) as [-> _]. injection H as <-. right. eexists.
    rewrite dbs_install, Hs1. split; [done|]. split; [done|exact Hle]. }
  split; [exact Hwr|]. intros Hnone. right. rewrite Hnone in E1, E2.
  rewrite bool_decide_true in E1, E2 by done. simpl in E1, E2. split; [lia|].
  intros Hlim db' [= <-]. lia.
Qed.
End UpdateLemmas.

(** ** Circuits after an install *)

Lemma circuits_noteRefused s c lsp : circuits (noteRefusedSubTLV s c lsp) = circuits s.
Proof.
  unfold noteRefusedSubTLV. destruct (RefusedSubTLV _) as [u|]; [|done].
  destruct (edge_warn _ _) as [w []]; done.
Qed.

Lemma circuits_install s i c raw lsp adj now :
  let l := LSP_Level lsp in
  let id := LSP_LSPID lsp in
  circuits (install s i c raw lsp adj now) =
  let cs := alter (fun c => clearSRM c l id) i (imap (flood_one l id (Some i) now) (circuits s)) in
  if P2P (cfg c) then alter (fun c => setSSN c l id) i cs else cs.
Proof.
  cbn zeta. unfold install. destruct (_ =? RemainingTime lsp), (corruptLifetime adj (RemainingTime lsp) now);
    (destruct (_ && _); [destruct (findAdjacency _ _)|]); destruct (P2P (cfg c)).
  all: unfold upd_circuit, floodLSP.
  all: cbn [circuits set_dbs set_circuits requestLSPRegen markDirty set_gen db_put].
  all: by rewrite circuits_noteRefused.
Qed.

Lemma spfDirty_install s i c raw lsp adj now : spfDirty (install s i c raw lsp adj now) = true.
Proof.
  unfold install. destruct (_ =? RemainingTime lsp), (corruptLifetime adj (RemainingTime lsp) now);
    (destruct (_ && _); [destruct (findAdjacency _ _)|]); destruct (P2P (cfg c)); reflexivity.
Qed.
