(* ===== verification/Transmit.v ===== *)
(** pkg/server/flooding.go, sending half: pending LSPs, PSNPs, the CSNPs of a
    DIS, and the whole-database synchronization of a circuit. *)

From stdpp Require Import sorting.
From S2P Require Import Prelude.
From S2P Require Import Netip.
From S2P Require Import Ids.
From S2P Require Import Sid.
From S2P Require Import SubTLV.
From S2P Require Import Entries.
From S2P Require Import Tlv.
From S2P Require Import Checksum.
From S2P Require Import Pdu.
From S2P Require Import Auth.
From S2P Require Import Circuit.
From S2P Require Import Lsdb.
From S2P Require Import EdgeLog.
From S2P Require Import Server.
From S2P Require Import Flooding.
Local Open Scope Z_scope.

Definition minLSPTransmissionInterval : Z := 5 * Second.
Definition csnpInterval : Z := 10 * Second.
Definition maxLSPSendPerTick : nat := 100.
Definition syncHoldDown : Z := 5 * Second.

(** ** LSP IDs and entries *)

(** [nextLSPID]: add one to the last octet, carrying while it wraps. *)
Fixpoint incr_rev (b : bytes) : bytes :=
  match b with
  | [] => []
  | x :: b' => if u8 (x + 1) =? 0 then u8 (x + 1) :: incr_rev b' else u8 (x + 1) :: b'
  end.
Definition nextLSPID (id : LSPID) : LSPID := rev (incr_rev (rev id)).

(** [chunkEntries], by slices of [MaxLSPEntriesPerTLV]. *)
Fixpoint chunk_fuel {A} (n k : nat) (l : list A) : list (list A) :=
  match n, l with
  | _, [] => []
  | O, _ => []
  | S n', _ => take k l :: chunk_fuel n' k (drop k l)
  end.
Definition chunkEntries (es : list LSPEntry) : list (list LSPEntry) :=
  chunk_fuel (length es) MaxLSPEntriesPerTLV es.

(** origination.go: [tlvLen]. *)
Definition tlvLen (t : TLV) : outcome nat :=
  match TLV_Serialize t with
  | Ok b => Ok (length b)
  | Err _ => Ok ReceiveLSPBufferSize
  | Panic => Panic
  end.

(** The header an LSP is described by in a CSNP or a PSNP. *)
Definition describe (now : Z) (id : LSPID) (e : lspEntry) : LSPEntry :=
  mkLSPEntry (remaining e now) id (SequenceNumber (e_lsp e)) (checksum (e_lsp e)).

(** [sort.Slice] by the octets of the LSP ID. *)
Definition id_le (a b : LSPEntry) : Prop := bytes_compare (LE_LSPID a) (LE_LSPID b) <> Gt.
#[export] Instance id_le_dec (a b : LSPEntry) : Decision (id_le a b).
Proof. unfold id_le. solve_decision. Defined.

Definition dbEntries (db : lsdb) (now : Z) : list LSPEntry :=
  merge_sort id_le ((fun '(id, e) => describe now id e) <$> map_to_list db).

(** ** The ranges of a CSNP burst *)

Definition zeroLSPID : LSPID := replicate 8 0.
Definition onesLSPID : LSPID := replicate 8 255.

(** One CSNP to send: its range and its TLVs. *)
Record piece : Type := mkPiece { pc_start : LSPID; pc_end : LSPID; pc_chunks : list (list LSPEntry) }.

(** The loop variables of [sendCSNP] and the CSNPs it has flushed. *)
Record packing : Type := mkPacking {
  pk_chunks : list (list LSPEntry); pk_size : nat; pk_start : LSPID; pk_last : LSPID; pk_out : list piece
}.

Definition flush (k : packing) (end_ : LSPID) : packing :=
  mkPacking [] 0 (nextLSPID end_) (pk_last k) (pk_out k ++ [mkPiece (pk_start k) end_ (pk_chunks k)]).

Definition last_id (chunk : list LSPEntry) : LSPID :=
  match last chunk with Some e => LE_LSPID e | None => zeroLSPID end.

Definition pack_step (budget : Z) (k : packing) (chunk : list LSPEntry) : outcome packing :=
  n ← tlvLen (LSPEntriesTLV chunk);
  let k := if (budget <? Z.of_nat (pk_size k + n)) && (0 <? length (pk_chunks k))%nat
           then flush k (pk_last k) else k in
  mret (mkPacking (pk_chunks k ++ [chunk]) (pk_size k + n) (pk_start k) (last_id chunk) (pk_out k)).

Fixpoint pack_loop (budget : Z) (k : packing) (chunks : list (list LSPEntry)) : outcome packing :=
  match chunks with
  | [] => mret k
  | chunk :: chunks => k ← pack_step budget k chunk; pack_loop budget k chunks
  end.

Definition csnpPieces (budget : Z) (es : list LSPEntry) : outcome (list piece) :=
  k ← pack_loop budget (mkPacking [] 0 zeroLSPID zeroLSPID []) (chunkEntries es);
  mret (pk_out (flush k onesLSPID)).

Section Transmit.
Context (hmac : AuthAlgorithm -> bytes -> bytes -> bytes).
(** Whether the transport accepts the next frame, given what happened before. *)
Context (send_ok : list effect -> bool).

(** [c.cfg.Transport.Send] and the bookkeeping around it. *)
Definition send (s : Server) (c : circuit) (dst : SNPA) (pdu : bytes) : bool * Server :=
  if send_ok (trace s) then (true, txSucceeded (emit s (Sent (Name (cfg c)) dst pdu)) c)
  else (false, txFailed s c txErrSend).

(** [sendSNP] of a CSNP or PSNP. *)
Definition with_auth (spec : authSpec) (tlvs : list TLV) : list TLV :=
  if spec_on spec then tlvs ++ [authTLVPlaceholder spec] else tlvs.

Definition snp_with_auth (spec : authSpec) (p : PDU) : PDU :=
  match p with
  | PDUCSNP q => PDUCSNP (mkCSNP (CS_Level q) (CS_SourceID q) (StartLSP q) (EndLSP q) (with_auth spec (CS_TLVs q)))
  | PDUPSNP q => PDUPSNP (mkPSNP (PS_Level q) (PS_SourceID q) (with_auth spec (PS_TLVs q)))
  | _ => p
  end.

Definition PDU_PDUType (p : PDU) : Z :=
  match p with
  | PDULANHello q => LANHello_PDUType q
  | PDUP2PHello _ => PDUTypeP2PHello
  | PDULSP q => LSP_PDUType q
  | PDUCSNP q => CSNP_PDUType q
  | PDUPSNP q => PSNP_PDUType q
  end.

Definition sendSNP (s : Server) (c : circuit) (l : Level) (p : PDU) : outcome Server :=
  let spec := authKey s l in
  let p := snp_with_auth spec p in
  match PDU_Serialize p with
  | Panic => Panic
  | Err _ => mret (txFailed s c txErrSerialize)
  | Ok (wire, _) =>
      if spec_on spec then
        r ← PatchAuth hmac wire (HeaderLen (PDU_PDUType p)) (algo spec) (keyID spec) (key spec) false;
        match r with
        | None => mret (txFailed s c txErrAuth)
        | Some wire => mret (send s c (circuit_dest c l) wire).2
        end
      else mret (send s c (circuit_dest c l) wire).2
  end.

Definition set_oversize (s : Server) (w : gset (string * LSPID)) : Server :=
  set_warned s (lsdbLimitWarned s) w (refusedWarned s) (txFailWarned s) (dupSystemIDWarned s) (adjLimitWarned s).

(** ** Pending LSPs *)

(** The body of the loop of [transmitSRM] on a flagged LSP that is due: the
    state, and whether it spent a slot of the tick. *)
Definition transmit_one (s : Server) (i : nat) (c : circuit) (l : Level) (id : LSPID) (now : Z)
  : outcome (bool * Server) :=
  db ← the_db s l;
  mret match db !! id with
  | None => (false, upd_circuit s i (fun c => clearSRM c l id))
  | Some e =>
      let w := wire e now in
      if MTU (cfg_Transport (cfg c)) - 3 <? Z.of_nat (length w) then
        let '(ow, fired) := edge_warn (Name (cfg c), id) (oversizeWarned s) in
        let s := set_oversize s ow in
        let s := if fired then emit s (Warned "LSP exceeds the circuit MTU; not flooded here; suppressing repeats") else s in
        let s := emit s (FloodDrop (Name (cfg c))) in
        (false, upd_circuit s i (fun c => clearSRM c l id))
      else
        let '(ok, s) := send s c (circuit_dest c l) w in
        if negb ok then (true, s) else
        let s := emit s (FloodTx (Name (cfg c))) in
        let s := set_oversize s (edge_clear (Name (cfg c), id) (oversizeWarned s)) in
        (true, upd_circuit s i (fun c =>
           if P2P (cfg c) then setSRM c l id (now + minLSPTransmissionInterval) else clearSRM c l id))
  end.

(** [for id, when := range c.srm[level]]: [order] is the order of the visit. *)
Fixpoint srm_loop (s : Server) (i : nat) (l : Level) (order : list LSPID) (sent : nat) (now : Z)
  : outcome Server :=
  match order with
  | [] => mret s
  | id :: order =>
      if (maxLSPSendPerTick <=? sent)%nat then mret s else
      match circuits s !! i with
      | None => mret s
      | Some c =>
          match srm c !! l ≫= lookup id with
          | None => srm_loop s i l order sent now
          | Some when =>
              if now <? when then srm_loop s i l order sent now else
              '(spent, s) ← transmit_one s i c l id now;
              srm_loop s i l order (if spent : bool then S sent else sent) now
          end
      end
  end.

Definition transmitSRM (s : Server) (i : nat) (c : circuit) (l : Level) (order : list LSPID) (now : Z)
  : outcome Server :=
  if negb (floodReady c l) then mret s else srm_loop s i l order 0 now.

(** ** PSNPs *)

Definition psnp_describe (db : lsdb) (c : circuit) (l : Level) (now : Z) (id : LSPID) : LSPEntry :=
  match db !! id with
  | Some e => describe now id e
  | None => default (mkLSPEntry 0 id 0 0) (ssnAck c !! l ≫= lookup id)
  end.

Fixpoint send_all (s : Server) (c : circuit) (l : Level) (ps : list PDU) : outcome Server :=
  match ps with
  | [] => mret s
  | p :: ps => s ← sendSNP s c l p; send_all s c l ps
  end.

Definition ssn_at (c : circuit) (l : Level) : gset LSPID := default ∅ (ssn c !! l).

Definition transmitPSNP (s : Server) (i : nat) (c : circuit) (l : Level) (order : list LSPID) (now : Z)
  : outcome Server :=
  if (size (ssn_at c l) =? 0)%nat || negb (floodReady c l) then mret s else
  db ← the_db s l;
  let entries := psnp_describe db c l now <$> order in
  let s := upd_circuit s i (fun c => fold_left (fun c id => clearSSN c l id) order c) in
  send_all s c l ((fun chunk => PDUPSNP (mkPSNP l (nodeID (systemID s) 0) [LSPEntriesTLV chunk]))
                  <$> chunkEntries entries).

(** ** CSNPs *)

Definition csnpBudget (s : Server) (c : circuit) (l : Level) : outcome Z :=
  let budget := Z.min (Z.of_nat ReceiveLSPBufferSize) (MTU (cfg_Transport (cfg c)) - 3) in
  let budget := budget - Z.of_nat (HeaderLen PDUTypeL1CSNP) in
  if spec_on (authKey s l) then
    n ← tlvLen (authTLVPlaceholder (authKey s l)); mret (budget - Z.of_nat n)
  else mret budget.

Definition piece_csnp (s : Server) (c : circuit) (l : Level) (p : piece) : PDU :=
  PDUCSNP (mkCSNP l (nodeID (systemID s) (pseudonodeID c)) (pc_start p) (pc_end p)
    (LSPEntriesTLV <$> pc_chunks p)).

Definition sendCSNP (s : Server) (c : circuit) (l : Level) (now : Z) : outcome Server :=
  db ← the_db s l;
  budget ← csnpBudget s c l;
  pieces ← csnpPieces budget (dbEntries db now);
  send_all s c l (piece_csnp s c l <$> pieces).

(** ** Synchronization *)

(** The window of every Up adjacency of the level reopened. *)
Definition open_windows (l : Level) (now : Z) (c : circuit) : circuit :=
  let c := match p2p_up c l with
           | Some a => set_p2pAdj c (Some (openSyncWindow a now))
           | None => c
           end in
  set_adjs c (alter (fmap (fun a => if is_up (a_state a) then openSyncWindow a now else a)) l (adjs c)).

Definition syncCircuitLevel (s : Server) (i : nat) (c : circuit) (l : Level) (now : Z) : outcome Server :=
  if now <? default zeroTime (syncHold c !! l) then
    mret (upd_circuit s i (fun c => set_sync c (syncHold c) (<[l := true]> (syncDeferred c))))
  else
    let s := upd_circuit s i (fun c =>
      set_sync c (<[l := now + syncHoldDown]> (syncHold c)) (<[l := false]> (syncDeferred c))) in
    db ← the_db s l;
    let s := upd_circuit s i (fun c => fold_left (fun c id => setSRM c l id now) (map_to_list db).*1 c) in
    s ← sendCSNP s c l now;
    mret (upd_circuit s i (open_windows l now)).

(** ** Housekeeping *)

(** The iteration orders of [c.srm[level]] and [c.ssn[level]] as the loops
    reach them. *)
Context (srm_order ssn_order : Server -> nat -> Level -> list LSPID).

(** The body of [floodTransmit] for one circuit and level. *)
Definition transmit_level (s : Server) (i : nat) (l : Level) (now : Z) : outcome Server :=
  let at_i {A} (s : Server) (dflt : A) (k : circuit -> A) : A :=
    match circuits s !! i with Some c => k c | None => dflt end in
  s ← at_i s (mret s) (fun c =>
    if default false (syncDeferred c !! l) && negb (now <? default zeroTime (syncHold c !! l)) && floodReady c l
    then syncCircuitLevel s i c l now else mret s);
  s ← at_i s (mret s) (fun c => transmitSRM s i c l (srm_order s i l) now);
  s ← at_i s (mret s) (fun c => transmitPSNP s i c l (ssn_order s i l) now);
  at_i s (mret s) (fun c =>
    if isDIS c l (systemID s) && negb (now <? default zeroTime (nextCSNP c !! l)) then
      s ← sendCSNP s c l now;
      mret (upd_circuit s i (fun c => set_nextCSNP c (<[l := now + csnpInterval]> (nextCSNP c))))
    else mret s).

Fixpoint transmit_levels (s : Server) (i : nat) (ls : list Level) (now : Z) : outcome Server :=
  match ls with
  | [] => mret s
  | l :: ls => s ← transmit_level s i l now; transmit_levels s i ls now
  end.

Fixpoint transmit_circuits (s : Server) (js : list nat) (now : Z) : outcome Server :=
  match js with
  | [] => mret s
  | i :: js =>
      s ← match circuits s !! i with
          | Some c => if linkDown c then mret s else transmit_levels s i (cfg_levels (cfg c)) now
          | None => mret s
          end;
      transmit_circuits s js now
  end.

Definition floodTransmit (s : Server) (now : Z) : outcome Server :=
  transmit_circuits s (seq 0 (length (circuits s))) now.

(** [drainSRM]: rounds of [transmitSRM] while one makes progress. *)
Definition srm_left (s : Server) (i : nat) (l : Level) : nat :=
  match circuits s !! i with Some c => size (default ∅ (srm c !! l)) | None => 0%nat end.

Fixpoint drain_fuel (n : nat) (s : Server) (i : nat) (l : Level) (left : nat) (now : Z) : outcome Server :=
  if (left =? 0)%nat then mret s else
  match n with
  | O => Panic
  | S n =>
      s ← match circuits s !! i with
          | Some c => transmitSRM s i c l (srm_order s i l) now
          | None => mret s
          end;
      if (srm_left s i l <? left)%nat then drain_fuel n s i l (srm_left s i l) now else mret s
  end.

Definition drainSRM (s : Server) (i : nat) (l : Level) (now : Z) : outcome Server :=
  drain_fuel (srm_left s i l) s i l (srm_left s i l) now.
End Transmit.
