(* ===== verification/Origination.v ===== *)
(** pkg/server/origination.go, packing: entries into TLVs ([tlvChunks]), the
    sub-TLVs of one neighbor into entries ([appendISReach]), and TLVs into LSP
    fragments ([packLSPFragments]); and origination: one LSP ([originate]), a node's
    or a pseudonode's fragments ([originateFragmented]), the fragments left over
    ([purgeStaleFragments]) and the pseudonode LSPs of the circuits this node is DIS
    on. *)

From stdpp Require Import sorting.
From S2P Require Import Prelude.
From S2P Require Import Codec.
From S2P Require Import Framing.
From S2P Require Import Netip.
From S2P Require Import Ids.
From S2P Require Import Sid.
From S2P Require Import SubTLV.
From S2P Require Import Entries.
From S2P Require Import Tlv.
From S2P Require Import Checksum.
From S2P Require Import Pdu.
From S2P Require Import Auth.
From S2P Require Import Circuit.
From S2P Require Import Lsdb.
From S2P Require Import Server.
From S2P Require Import Lifetime.
From S2P Require Import Transmit.
Local Open Scope Z_scope.

Local Open Scope nat_scope.

(** ** Entries into TLVs *)

Section Chunks.
Context {E : Type} (mk : list E -> TLV).

(** The loop of [tlvChunks]: [cur] is [entries[start:i]], [rest] is
    [entries[i:]].  The result is what [out] grows by; an entry that ends a
    chunk is considered again as the first of the next one. *)
Fixpoint chunk_loop (cur rest : list E) : outcome (list TLV) :=
  match rest with
  | [] => mret (match cur with [] => [] | _ :: _ => [mk cur] end)
  | e :: rest =>
      match TLV_Serialize (mk (cur ++ [e])) with
      | Panic => Panic
      | Ok _ => chunk_loop (cur ++ [e]) rest
      | Err _ =>
          match cur with
          | [] => out ← chunk_loop [] rest; mret (mk [e] :: out)
          | _ :: _ =>
              match TLV_Serialize (mk [e]) with
              | Panic => Panic
              | Ok _ => out ← chunk_loop [e] rest; mret (mk cur :: out)
              | Err _ => out ← chunk_loop [] rest; mret (mk cur :: mk [e] :: out)
              end
          end
      end
  end.

Definition tlvChunks (entries : list E) : outcome (list TLV) := chunk_loop [] entries.

(** A list of entries one TLV holds. *)
Definition fits (es : list E) : Prop := exists b, TLV_Serialize (mk es) = Ok b.

(** What the loop returns: the entries in order, cut into chunks none of which
    is empty, each fitting a TLV or a single entry that fits none. *)
Definition chunked (es : list E) (out : list TLV) : Prop :=
  exists ess, out = mk <$> ess /\ concat ess = es /\ Forall (fun c => fits c \/ exists e, c = [e]) ess.

Lemma chunked_cons (c es : list E) (out : list TLV) :
  fits c \/ (exists e, c = [e]) -> chunked es out -> chunked (c ++ es) (mk c :: out).
Proof using.
  intros Hc (ess & -> & <- & H). exists (c :: ess). split; [done|]. split; [done|]. by constructor.
Qed.

Lemma chunk_loop_chunked (rest cur : list E) (out : list TLV) :
  cur = [] \/ fits cur -> chunk_loop cur rest = Ok out -> chunked (cur ++ rest) out.
Proof using.
  revert cur out. induction rest as [|e rest IH]; intros cur out Hc H; cbn [chunk_loop] in H.
  - injection H as <-. destruct cur as [|x cur]; [by exists []|]. rewrite app_nil_r.
    exists [x :: cur]. split; [done|]. split; [by rewrite concat_cons, app_nil_r|].
    destruct Hc; [done|]. constructor; [by left|constructor].
  - destruct (TLV_Serialize (mk (cur ++ [e]))) as [b|x|] eqn:Es; [| |done].
    + apply IH in H; [by rewrite <- app_assoc in H|]. right. by exists b.
    + destruct cur as [|y cur].
      * apply bind_Ok in H as (out' & H & [= <-]). apply IH in H; [|by left].
        apply (chunked_cons [e]); [right; by exists e|exact H].
      * destruct Hc as [|Hc]; [done|].
        destruct (TLV_Serialize (mk [e])) as [b|z|] eqn:E1; [| |done];
          apply bind_Ok in H as (out' & H & [= <-]).
        -- apply chunked_cons; [by left|]. apply (IH [e]); [right; by exists b|done].
        -- apply chunked_cons; [by left|]. apply (chunked_cons [e]); [right; by exists e|].
           apply IH in H; [done|by left].
Qed.

(** ** The fewest TLVs *)

(** What holds of every encoding whose length grows with its entries. *)
Definition shrinks : Prop := forall a b c, fits (a ++ b ++ c) -> fits b.

(** Cutting a partition keeps a partition. *)
Lemma drop_partition (p : list (list E)) (a b : list E) :
  shrinks -> Forall fits p -> concat p = a ++ b -> 
  exists q, concat q = b /\ Forall fits q /\ length q <= length p.
Proof using.
  intros Hs. revert a. induction p as [|c p IH]; intros a Hp Hcat.
  - exists []. by destruct a, b.
  - apply Forall_cons in Hp as [Hc Hp]. rewrite concat_cons in Hcat.
    apply app_eq_app in Hcat as (d & [[-> ->]|[-> Hcat]]).
    + exists (d :: p). split; [done|]. split; [|done]. constructor; [|done].
      apply (Hs a d []). by rewrite app_nil_r.
    + destruct (IH d Hp Hcat) as (q & Hq & Hf & Hl). exists q. split; [done|]. split; [done|]. simpl. lia.
Qed.

(** Greedy packing stays ahead of any other packing. *)
Lemma chunk_loop_fewest (n : nat) (rest cur : list E) (p : list (list E)) (out : list TLV) :
  shrinks -> length p <= n -> Forall fits p -> concat p = cur ++ rest -> cur = [] \/ fits cur ->
  chunk_loop cur rest = Ok out -> length out <= n.
Proof using.
  intros Hs. revert rest cur p out. induction n as [|n IHn].
  { intros rest cur p out Hl _ Hcat _ H. destruct p; [|simpl in Hl; lia].
    destruct cur, rest; try done. by injection H as <-. }
  induction rest as [|e rest IH]; intros cur p out Hl Hp Hcat Hc H; cbn [chunk_loop] in H.
  { injection H as <-. destruct cur; simpl; lia. }
  destruct (TLV_Serialize (mk (cur ++ [e]))) as [b|x|] eqn:Es; [| |done].
  { apply (IH (cur ++ [e]) p); [done|done|by rewrite <- app_assoc|right; by exists b|done]. }
  assert (Hno : ~ fits (cur ++ [e])) by (intros [b Hb]; congruence).
  assert (Hone : fits [e]).
  { assert (He : e ∈ concat p) by (rewrite Hcat; apply elem_of_app; right; left).
    apply list_elem_of_In, List.in_concat in He as (c & Hcin & Hce).
    apply List.in_split in Hce as (l1 & l2 & ->). apply (Hs l1 [e] l2).
    rewrite Forall_forall in Hp. apply Hp. by apply list_elem_of_In. }
  destruct cur as [|y cur]; [by destruct Hno|]. destruct Hc as [|Hc]; [done|].
  destruct Hone as [b1 Hb1]. rewrite Hb1 in H. apply bind_Ok in H as (out' & H & [= <-]). simpl.
  apply le_n_S. destruct p as [|c p]; [done|]. apply Forall_cons in Hp as [Hfc Hp].
  rewrite concat_cons in Hcat. apply app_eq_app in Hcat as (d & [[-> Hd]|[Hd Hcat]]).
  - destruct d as [|z d].
    + cbn [app] in Hd. apply (IHn rest [e] p); [simpl in Hl; lia|done|done|right; by exists b1|done].
    + cbn [app] in Hd. injection Hd as <- ->. destruct Hno. apply (Hs [] ((y :: cur) ++ [e]) d).
      cbn [app]. by rewrite <- app_assoc.
  - destruct (drop_partition p d (e :: rest) Hs Hp Hcat) as (q & Hq & Hfq & Hlq).
    apply (IHn rest [e] q); [simpl in Hl; lia|done|done|right; by exists b1|done].
Qed.
End Chunks.

(** Every TLV that encodes its entries one after the other is such an encoding. *)
Lemma concatM_app_inv {A} (enc : A -> outcome bytes) (xs ys : list A) (v : bytes) :
  concatM enc (xs ++ ys) = Ok v -> exists a b, concatM enc xs = Ok a /\ concatM enc ys = Ok b /\ v = a ++ b.
Proof.
  revert v. induction xs as [|x xs IH]; intros v H; [by exists [], v|].
  cbn [app] in H. apply bind_Ok in H as (e & He & H). apply bind_Ok in H as (es & H & [= <-]).
  destruct (IH es H) as (a & b & Ha & Hb & ->). exists (e ++ a), b. split; [|by rewrite app_assoc].
  change (concatM enc (x :: xs)) with (e ← enc x; es ← concatM enc xs; mret (e ++ es)). by rewrite He, Ha.
Qed.

Lemma concatM_shrinks {E} (mk : list E -> TLV) (enc : E -> outcome bytes) :
  (forall es, TLV_value (mk es) = concatM enc es) -> shrinks mk.
Proof.
  intros Hmk a b c [w Hw]. unfold fits, TLV_Serialize in *. rewrite Hmk in Hw |- *.
  apply bind_Ok in Hw as (v & Hv & Hw). apply concatM_app_inv in Hv as (va & vbc & _ & Hv & ->).
  apply concatM_app_inv in Hv as (vb & vc & Hb & _ & ->). rewrite Hb. cbn [mbind outcome_bind].
  apply encodeTLV_Ok in Hw as [Hl _]. eexists. apply encodeTLV_Ok. split; [|done].
  rewrite !length_app in Hl. lia.
Qed.

(** ** Sub-TLVs of a neighbor into entries *)

Definition maxSubTLVArea : nat := 255 - 11.
Definition maxLinkAttrArea : nat := Nat.div maxSubTLVArea 2.

Definition subTLVLen (sub : SubTLV) : outcome nat :=
  match SubTLV_Serialize sub with
  | Ok b => Ok (length b)
  | Err _ => Ok (maxSubTLVArea + 1)
  | Panic => Panic
  end.

Fixpoint subTLVsLen (subs : list SubTLV) : outcome nat :=
  match subs with
  | [] => mret 0
  | sub :: subs => n ← subTLVLen sub; m ← subTLVsLen subs; mret (n + m)
  end.

(** The inner loop: what the entry takes of [subs] and what is left;
    [some] is [taken > 0]. *)
Fixpoint take_subs (some : bool) (size : nat) (subs : list SubTLV) : outcome (list SubTLV * list SubTLV) :=
  match subs with
  | [] => mret ([], [])
  | sub :: rest =>
      n ← subTLVLen sub;
      if (maxSubTLVArea <? size + n) && some then mret ([], subs)
      else '(t, r) ← take_subs true (size + n) rest; mret (sub :: t, r)
  end.

(** The outer loop, which takes at least one sub-TLV a turn. *)
Fixpoint isreach_fuel (n : nat) (id : NodeID) (metric : Z) (attrs : list SubTLV) (fixed : nat) (subs : list SubTLV)
  : outcome (list ExtendedISReachEntry) :=
  '(t, r) ← take_subs false fixed subs;
  let e := mkISReach id metric (attrs ++ t) in
  match r, n with
  | [], _ => mret [e]
  | _ :: _, O => Panic
  | _ :: _, S n => es ← isreach_fuel n id metric attrs fixed r; mret (e :: es)
  end.

Definition appendISReach (entries : list ExtendedISReachEntry) (id : NodeID) (metric : Z) (attrs subs : list SubTLV)
  : outcome (list ExtendedISReachEntry) :=
  fixed ← subTLVsLen attrs;
  es ← isreach_fuel (length subs) id metric attrs fixed subs;
  mret (entries ++ es).

Lemma take_subs_spec (some : bool) (size : nat) (subs t r : list SubTLV) :
  take_subs some size subs = Ok (t, r) ->
  subs = t ++ r /\ (some = false -> subs <> [] -> t <> []) /\
  exists n, subTLVsLen t = Ok n /\ (size + n <= maxSubTLVArea \/ (some = false /\ length t = 1) \/ t = []).
Proof.
  revert some size t r. induction subs as [|sub subs IH]; intros some size t r H; cbn [take_subs] in H.
  - injection H as <- <-. split; [done|]. split; [done|]. exists 0. split; [done|]. by right; right.
  - apply bind_Ok in H as (n & Hn & H). destruct ((maxSubTLVArea <? size + n) && some) eqn:E.
    + injection H as <- <-. split; [done|]. apply andb_true_iff in E as [_ ->]. split; [done|].
      exists 0. split; [done|]. by right; right.
    + apply bind_Ok in H as ([t' r'] & H & [= <- <-]).
      destruct (IH _ _ _ _ H) as (-> & _ & m & Hm & Hle). split; [done|]. split; [done|].
      exists (n + m). cbn [subTLVsLen]. rewrite Hn, Hm. split; [done|].
      destruct Hle as [Hle|[[? _]|Hnil]]; [left; lia|done|]. subst t'. injection Hm as <-.
      destruct some; [left|destruct (Nat.leb_spec (size + n) maxSubTLVArea)]; [|by left; lia|by right; left].
      rewrite andb_true_r in E. apply Nat.ltb_ge in E. lia.
Qed.

(** The entries of one neighbor: each repeats the link's attributes, together
    they carry its sub-TLVs in order, and each area fits unless one sub-TLV alone
    overflows it. *)
Definition isreach_split (id : NodeID) (metric : Z) (attrs : list SubTLV) (fixed : nat) (subs : list SubTLV)
    (es : list ExtendedISReachEntry) : Prop :=
  exists parts, es = (fun t => mkISReach id metric (attrs ++ t)) <$> parts /\ concat parts = subs /\
    parts <> [] /\
    Forall (fun t => exists n, subTLVsLen t = Ok n /\ (fixed + n <= maxSubTLVArea \/ length t <= 1)) parts.

Lemma isreach_fuel_split (n : nat) (id : NodeID) (metric : Z) (attrs : list SubTLV) (fixed : nat)
    (subs : list SubTLV) (es : list ExtendedISReachEntry) :
  isreach_fuel n id metric attrs fixed subs = Ok es -> isreach_split id metric attrs fixed subs es.
Proof.
  revert subs es. induction n as [|n IH]; intros subs es H; cbn [isreach_fuel] in H;
    apply bind_Ok in H as ([t r] & Ht & H); apply take_subs_spec in Ht as (-> & _ & m & Hm & Hle).
  all: assert (Hfit : exists n, subTLVsLen t = Ok n /\ (fixed + n <= maxSubTLVArea \/ length t <= 1))
    by (exists m; split; [done|]; destruct Hle as [?|[[_ Hl]|Hnil]]; [by left|right; lia|right; rewrite Hnil; simpl; lia]).
  all: destruct r as [|x r]; [injection H as <-; exists [t]; split; [done|]; split; [done|]; split; [done|];
    by constructor|].
  - done.
  - apply bind_Ok in H as (es' & H & [= <-]). destruct (IH _ _ H) as (parts & -> & Hc & _ & Hall).
    exists (t :: parts). split; [done|]. split; [by rewrite concat_cons, Hc|]. split; [done|]. by constructor.
Qed.

(** The loop ends: its fuel is never the reason it stops. *)
Lemma isreach_fuel_enough (n : nat) (id : NodeID) (metric : Z) (attrs : list SubTLV) (fixed : nat) (subs : list SubTLV) :
  Forall (fun s => SubTLV_Serialize s <> Panic) subs -> length subs <= n ->
  isreach_fuel n id metric attrs fixed subs <> Panic.
Proof.
  assert (Hl : forall s, SubTLV_Serialize s <> Panic -> subTLVLen s <> Panic).
  { intros s Hs. unfold subTLVLen. by destruct (SubTLV_Serialize s). }
  assert (Ht : forall subs b size, Forall (fun s => SubTLV_Serialize s <> Panic) subs -> take_subs b size subs <> Panic).
  { clear subs n. induction subs as [|s subs IH]; intros b size Hs; cbn [take_subs]; [done|].
    apply Forall_cons in Hs as [H1 H2]. apply bind_Panic; [by apply Hl|]. intros k _.
    destruct (_ && _); [done|]. apply bind_Panic; [by apply IH|]. by intros [t r] _. }
  revert subs. induction n as [|n IH]; intros subs Hs Hn; cbn [isreach_fuel];
    (apply bind_Panic; [by apply Ht|]); intros [t r] Htake; apply take_subs_spec in Htake as (-> & Hne & _).
  - destruct t, r; simpl in Hn; try lia. done.
  - destruct r as [|x r]; [done|]. apply bind_Panic; [|done]. apply IH; [by apply Forall_app in Hs as [_ Hr]|].
    destruct t as [|y t]; [exfalso; by apply Hne|]. rewrite length_app in Hn. simpl in *. lia.
Qed.

(** ** TLVs into fragments *)

Fixpoint tlvsLen (tlvs : list TLV) : outcome nat :=
  match tlvs with
  | [] => mret 0
  | t :: tlvs => n ← tlvLen t; m ← tlvsLen tlvs; mret (n + m)
  end.

(** The loop of [packLSPFragments]: [cur] is the fragment being filled, [size]
    its size; the result is that fragment and those after it. *)
Fixpoint pack_frags (budget : Z) (cur : list TLV) (size : nat) (variable : list TLV) : outcome (list (list TLV)) :=
  match variable with
  | [] => mret [cur]
  | t :: variable =>
      ts ← tlvLen t;
      if (budget <? Z.of_nat (size + ts))%Z && (0 <? length cur)
      then out ← pack_frags budget [t] ts variable; mret (cur :: out)
      else pack_frags budget (cur ++ [t]) (size + ts) variable
  end.

Definition packLSPFragments (fixed variable : list TLV) (budget : Z) : outcome (list (list TLV)) :=
  size ← tlvsLen fixed;
  pack_frags budget fixed size variable.

Lemma tlvsLen_snoc (ts : list TLV) (t : TLV) (n k : nat) :
  tlvsLen ts = Ok n -> tlvLen t = Ok k -> tlvsLen (ts ++ [t]) = Ok (n + k).
Proof.
  intros Hn Hk. revert n Hn. induction ts as [|x ts IH]; intros n Hn; cbn [app tlvsLen] in *.
  - injection Hn as <-. rewrite Hk. cbn. by rewrite Nat.add_0_r.
  - apply bind_Ok in Hn as (a & Ha & Hn). apply bind_Ok in Hn as (b & Hb & [= <-]).
    rewrite Ha. cbn [mbind outcome_bind]. rewrite (IH b Hb). cbn. f_equal. lia.
Qed.

(** A fragment fits, or holds what cannot be divided further. *)
Definition frag_fits (budget : Z) (fixed frag : list TLV) : Prop :=
  frag = fixed \/ length frag = 1 \/ exists n, tlvsLen frag = Ok n /\ (Z.of_nat n <= budget)%Z.

Lemma pack_frags_spec (budget : Z) (fixed cur : list TLV) (size : nat) (variable : list TLV) (frags : list (list TLV)) :
  tlvsLen cur = Ok size -> frag_fits budget fixed cur -> pack_frags budget cur size variable = Ok frags ->
  concat frags = cur ++ variable /\ (exists d tl, frags = (cur ++ d) :: tl) /\ Forall (frag_fits budget fixed) frags.
Proof.
  revert cur size frags. induction variable as [|t vs IH]; intros cur size frags Hn Hf H; cbn [pack_frags] in H.
  - injection H as <-. split; [done|]. split; [exists [], []; by rewrite app_nil_r|]. by constructor.
  - apply bind_Ok in H as (ts & Ht & H). destruct (_ && _) eqn:E.
    + apply bind_Ok in H as (out & H & [= <-]). destruct (IH [t] ts out) as (Hc & _ & Hall); [|by right; left|done|].
      * cbn [tlvsLen]. rewrite Ht. cbn. by rewrite Nat.add_0_r.
      * split; [by rewrite concat_cons, Hc|]. split; [exists [], out; by rewrite app_nil_r|]. by constructor.
    + pose proof (tlvsLen_snoc cur t size ts Hn Ht) as Hn'.
      destruct (IH (cur ++ [t]) (size + ts) frags) as (Hc & (d & tl & ->) & Hall); [done| |done|].
      * apply andb_false_iff in E as [E|E]; [right; right; exists (size + ts); split; [done|lia]|].
        destruct cur; [by right; left|done].
      * split; [by rewrite Hc, <- app_assoc|]. split; [exists (t :: d), tl; by rewrite <- app_assoc|done].
Qed.

(** The octets of a fragment are as many as [tlvsLen] says, when its TLVs
    serialize. *)
Lemma tlvsLen_bytes (ts : list TLV) (n : nat) (b : bytes) :
  serializeTLVs ts = Ok b -> tlvsLen ts = Ok n -> length b = n.
Proof.
  unfold serializeTLVs. revert n b. induction ts as [|t ts IH]; intros n b Hb Hn; cbn [tlvsLen] in Hn.
  - injection Hb as <-. by injection Hn as <-.
  - apply bind_Ok in Hb as (e & He & Hb). apply bind_Ok in Hb as (es & Hes & [= <-]).
    apply bind_Ok in Hn as (k & Hk & Hn). apply bind_Ok in Hn as (m & Hm & [= <-]).
    unfold tlvLen in Hk. rewrite He in Hk. injection Hk as <-. rewrite length_app. f_equal. by apply IH.
Qed.

Local Open Scope Z_scope.

Section Origination.
Context (hmac : AuthAlgorithm -> bytes -> bytes -> bytes).
(** The jitter [refreshDeadline] draws for an LSP this pass originates. *)
Context (rand : LSPID -> Z).

(** The LSP [originate] builds. *)
Definition own_lsp (s : Server) (l : Level) (id : LSPID) (seq : Z) (att overload : bool) (tlvs : list TLV) : LSP :=
  mkLSP l maxAgeSeconds id seq 0 false false false false att overload (isType s) tlvs.

(** The test that nothing changed: the header flags, then the octets of the
    bodies ([bytes.Equal]); a stored body that does not serialize is a change. *)
Definition unchanged (ex : option lspEntry) (force att overload : bool) (newBody : bytes) : outcome bool :=
  match ex with
  | Some e =>
      if e_own e && bool_decide (e_purgedAt e = None) && negb force &&
         Bool.eqb (Overload (e_lsp e)) overload && Bool.eqb (AttDefault (e_lsp e)) att
      then match MarshalTLVs (LSP_TLVs (e_lsp e)) with
           | Ok exBody => mret (bool_decide (newBody = exBody))
           | Err _ => mret false
           | Panic => Panic
           end
      else mret false
  | None => mret false
  end.

Definition originate (s : Server) (l : Level) (id : LSPID) (tlvs : list TLV) (att force : bool) (now : Z)
  : outcome Server :=
  db ← the_db s l;
  let ex := db !! id in
  if match seqWrapUntil s !! (l, id) with Some until => now <? until | None => false end then mret s else
  let overload := IsNodeLSP id && (LSPID_FragmentID id =? 0) && overloaded s now in
  let tlvs := with_auth (authKey s l) tlvs in
  unless_err (MarshalTLVs tlvs) s (fun newBody =>
  same ← unchanged ex force att overload newBody;
  if same : bool then mret s else
  if match ex with Some e => SequenceNumber (e_lsp e) =? maxLSPSeq | None => false end
  then exhaustSeq hmac s l id now else
  let seq := match ex with Some e => u32 (SequenceNumber (e_lsp e) + 1) | None => 1 end in
  unless_err (serializeLSP hmac s (own_lsp s l id seq att overload tlvs)) s (fun '(raw, lsp) =>
  if lspBufferSize s <? Z.of_nat (length raw) then mret s else
  let s := db_put s l id (mkLspEntry lsp raw now maxAgeSeconds true None (refreshDeadline now (rand id))) in
  mret (floodLSP (markDirty s) l id None now))).

(** [for id, e := range db.entries]: [order] is the order of the visit.  The
    entry tested is the one the map holds when the loop reaches it. *)
Definition stale (s : Server) (pn : Z) (keep : Z) (id : LSPID) (e : lspEntry) : bool :=
  e_own e && bool_decide (e_purgedAt e = None) &&
  bool_decide (NodeID_SystemID (LSPID_NodeID id) = systemID s) &&
  (NodeID_PseudonodeID (LSPID_NodeID id) =? pn) && (keep <=? LSPID_FragmentID id).

Fixpoint stale_loop (s : Server) (l : Level) (pn keep : Z) (order : list LSPID) (now : Z) : outcome Server :=
  match order with
  | [] => mret s
  | id :: order =>
      s ← match db_get s l id with
          | Some e => if stale s pn keep id e then purgeOwn hmac s l id now else mret s
          | None => mret s
          end;
      stale_loop s l pn keep order now
  end.

Definition purgeStaleFragments (s : Server) (l : Level) (pn keep : Z) (order : list LSPID) (now : Z) : outcome Server :=
  _ ← the_db s l; stale_loop s l pn keep order now.

(** [for n, ftlvs := range frags]: the fragments from number [n] on. *)
Fixpoint originate_frags (s : Server) (l : Level) (pn : Z) (frags : list (list TLV)) (n : Z) (att force : bool) (now : Z)
  : outcome Server :=
  match frags with
  | [] => mret s
  | f :: frags =>
      if 255 <? n then mret s else
      s ← originate s l (lspIDFrag (systemID s) pn (u8 n)) f (att && (n =? 0)) force now;
      originate_frags s l pn frags (n + 1) att force now
  end.

Definition fragmentBudget (s : Server) (l : Level) : outcome Z :=
  let budget := lspBufferSize s - Z.of_nat (HeaderLen PDUTypeL2LSP) in
  if spec_on (authKey s l) then n ← tlvLen (authTLVPlaceholder (authKey s l)); mret (budget - Z.of_nat n)
  else mret budget.

(** The iteration order of a level's database when a loop of this pass reaches
    it. *)
Context (order : Server -> Level -> list LSPID).

Definition originateFragmented (s : Server) (l : Level) (pn : Z) (fixed variable : list TLV) (att force : bool) (now : Z)
  : outcome Server :=
  budget ← fragmentBudget s l;
  frags ← packLSPFragments fixed variable budget;
  s ← originate_frags s l pn frags 0 att force now;
  purgeStaleFragments s l pn (Z.of_nat (Nat.min (length frags) 256)) (order s l) now.

(** ** Pseudonode LSPs *)

Definition isreach_le (a b : ExtendedISReachEntry) : Prop :=
  bytes_compare (IR_NeighborID a) (IR_NeighborID b) <> Gt.
#[local] Instance isreach_le_dec (a b : ExtendedISReachEntry) : Decision (isreach_le a b).
Proof. unfold isreach_le. solve_decision. Defined.

(** The members of the LAN: this node and the neighbors it advertises, at metric
    0, by neighbor ID. *)
Definition pseudonodeMembers (s : Server) (c : circuit) (l : Level) : list ExtendedISReachEntry :=
  merge_sort isreach_le
    (mkISReach (nodeID (systemID s) 0) 0 []
     :: ((fun a => mkISReach (nodeID (a_systemID a) 0) 0 []) <$> advertisedAdjacencies c l)).

Definition regeneratePseudonode (s : Server) (c : circuit) (l : Level) (force : bool) (now : Z) : outcome Server :=
  if P2P (cfg c) then mret s
  else if negb (isDIS c l (systemID s)) then purgeStaleFragments s l (pseudonodeID c) 0 (order s l) now
  else
    variable ← tlvChunks ExtendedISReachabilityTLV (pseudonodeMembers s c l);
    originateFragmented s l (pseudonodeID c) [] variable false force now.

Fixpoint pseudonode_loop (s : Server) (cs : list circuit) (l : Level) (force : bool) (now : Z) : outcome Server :=
  match cs with
  | [] => mret s
  | c :: cs => s ← regeneratePseudonode s c l force now; pseudonode_loop s cs l force now
  end.

Definition regeneratePseudonodeLSPs (s : Server) (l : Level) (force : bool) (now : Z) : outcome Server :=
  pseudonode_loop s (circuits s) l force now.
End Origination.
