(* ===== verification/HelloBuild.v ===== *)
(** pkg/server/hello.go, sending half: the TLVs of a hello, its padding to the
    circuit MTU, and the two hello PDUs. *)

From S2P Require Import Prelude.
From S2P Require Import Codec.
From S2P Require Import Framing.
From S2P Require Import Netip.
From S2P Require Import Ids.
From S2P Require Import Sid.
From S2P Require Import SubTLV.
From S2P Require Import Entries.
From S2P Require Import Tlv.
From S2P Require Import Checksum.
From S2P Require Import Pdu.
From S2P Require Import Auth.
From S2P Require Import Circuit.
From S2P Require Import Restart.
From S2P Require Import Lsdb.
From S2P Require Import Server.
From S2P Require Import Transmit.
From S2P Require Import Origination.
Local Open Scope Z_scope.

(** ** TLVs *)

Definition commonHelloTLVs (s : Server) : list TLV :=
  [AreaAddressesTLV (areaAddrs s); ProtocolsSupportedTLV [NLPIDIPv4; NLPIDIPv6]].

Definition helloIPv6Addrs (addrs : list Addr) : list Addr :=
  match List.filter IsLinkLocalUnicast addrs with
  | [] => addrs
  | ll => ll
  end.

Definition addrTLVs (c : circuit) : list TLV :=
  (match IPv4Addrs (cfg c) with [] => [] | v4 => [IPInterfaceAddressesTLV v4] end) ++
  (match helloIPv6Addrs (IPv6Addrs (cfg c)) with [] => [] | v6 => [IPv6InterfaceAddressesTLV v6] end).

Definition p2pStateTLV (st : AdjState) : Z :=
  match st with
  | AdjUp => P2PAdjStateUp
  | AdjInit => P2PAdjStateInitializing
  | AdjDown => P2PAdjStateDown
  end.

(** ** Padding *)

(** The loop of [padHello]; [hello tlvs] is the PDU with these TLVs.  Every turn
    adds at least two octets, so as many turns as the MTU has octets are enough
    ([pad_fuel_enough]). *)
Fixpoint pad_fuel (n : nat) (hello : list TLV -> PDU) (target : Z) (tlvs : list TLV) : outcome (list TLV) :=
  match PDU_Serialize (hello tlvs) with
  | Panic => Panic
  | Err _ => mret tlvs
  | Ok (wire, _) =>
      let room := target - Z.of_nat (length wire) in
      if room <? 2 then mret tlvs else
      let pad := if 255 <? room - 2 then 255 else room - 2 in
      match n with
      | O => Panic
      | S n => pad_fuel n hello target (tlvs ++ [PaddingTLV pad])
      end
  end.

Definition padHello (c : circuit) (hello : list TLV -> PDU) (tlvs : list TLV) : outcome (list TLV) :=
  if negb (cfg_padding (cfg c)) then mret tlvs else
  let target := MTU (cfg_Transport (cfg c)) - 3 in
  pad_fuel (Z.to_nat target) hello target tlvs.

Definition finalizeHello (c : circuit) (hello : list TLV -> PDU) (tlvs : list TLV) : outcome (list TLV) :=
  let spec := helloSpec (cfg c) in
  if spec_on spec then mret (tlvs ++ [authTLVPlaceholder spec])
  else padHello c hello tlvs.

(** ** Hellos *)

(** [order] is the order in which the loop visits [c.adjs[level]]. *)
Definition buildLANHello (s : Server) (c : circuit) (l : Level) (ack : option Restart)
    (order : list (SystemID * adjacency)) : outcome PDU :=
  ns ← tlvChunks ISNeighborsTLV (a_snpa <$> order.*2);
  let tlvs := commonHelloTLVs s ++ ns ++ addrTLVs c ++ [helloRestartTLV ack] in
  let hello tlvs := PDULANHello (mkLANHello l (circuitType (cfg c)) (systemID s) (holdingTime (cfg c))
                      (cfg_priority (cfg c)) (dis_at c l) tlvs) in
  tlvs ← finalizeHello c hello tlvs;
  mret (hello tlvs).

Definition ownThreeWay (c : circuit) : P2PThreeWayAdjacency :=
  match p2pAdj c with
  | None => mkP2PAdj P2PAdjStateDown true (extCircID c) false (replicate 6 0) 0
  | Some a => mkP2PAdj (p2pStateTLV (a_state a)) true (extCircID c) true (a_systemID a) (a_neighborExtCircID a)
  end.

Definition buildP2PHello (s : Server) (c : circuit) (ack : option Restart) : outcome PDU :=
  let tlvs := commonHelloTLVs s ++ [P2PThreeWayAdjacencyTLV (ownThreeWay c)] ++ addrTLVs c ++ [helloRestartTLV ack] in
  let hello tlvs := PDUP2PHello (mkP2PHello (circuitType (cfg c)) (systemID s) (holdingTime (cfg c)) (pseudonodeID c) tlvs) in
  tlvs ← finalizeHello c hello tlvs;
  mret (hello tlvs).

(** ** Sending *)

Definition set_nextHello (c : circuit) (t : Z) : circuit :=
  mkCircuit (cfg c) (pseudonodeID c) (extCircID c) (adjs c) (p2pAdj c) (dis c) t
    (linkDown c) (detached c) (srm c) (ssn c) (ssnAck c) (nextCSNP c) (syncHold c) (syncDeferred c).

Section Send.
Context (hmac : AuthAlgorithm -> bytes -> bytes -> bytes).
Context (send_ok : list effect -> bool).

Definition sendOne (s : Server) (c : circuit) (dst : SNPA) (p : PDU) : outcome Server :=
  match PDU_Serialize p with
  | Panic => Panic
  | Err _ => mret (txFailed s c txErrSerialize)
  | Ok (wire, _) =>
      let spec := helloSpec (cfg c) in
      if spec_on spec then
        r ← PatchAuth hmac wire (HeaderLen (PDU_PDUType p)) (algo spec) (keyID spec) (key spec) false;
        match r with
        | None => mret (txFailed s c txErrAuth)
        | Some wire => mret (send send_ok s c dst wire).2
        end
      else mret (send send_ok s c dst wire).2
  end.

Fixpoint send_hellos_levels (s : Server) (c : circuit) (order : Level -> list (SystemID * adjacency)) (ls : list Level)
  : outcome Server :=
  match ls with
  | [] => mret s
  | l :: ls =>
      h ← buildLANHello s c l None (order l);
      s ← sendOne s c (DestForLevel l) h;
      send_hellos_levels s c order ls
  end.

(** [sendHellos] on the circuit at index [i]; [time.Time.Add] of the hello
    interval. *)
Definition sendHellos (s : Server) (i : nat) (c : circuit) (order : Level -> list (SystemID * adjacency)) (now : Z)
  : outcome Server :=
  let s := upd_circuit s i (fun c => set_nextHello c (now + HelloInterval (cfg c))) in
  if linkDown c then mret s
  else if P2P (cfg c) then h ← buildP2PHello s c None; sendOne s c AllISs h
  else send_hellos_levels s c order (cfg_levels (cfg c)).
End Send.

(** ** What padding adds *)

(** Serializing a hello costs [k] octets on top of its TLVs. *)
Definition hello_len (hello : list TLV -> PDU) (k : nat) : Prop :=
  forall tlvs b, serializeTLVs tlvs = Ok b ->
  exists w p, PDU_Serialize (hello tlvs) = Ok (w, p) /\ length w = (k + length b)%nat.

Definition is_padding (t : TLV) : bool := match t with PaddingTLV _ => true | _ => false end.

Lemma padding_encode (n : Z) :
  0 <= n <= 255 -> exists b, TLV_Serialize (PaddingTLV n) = Ok b /\ length b = Z.to_nat (n + 2).
Proof.
  intros Hn. unfold TLV_Serialize. cbn [TLV_value TLV_Type]. unfold Padding_value.
  rewrite (proj2 (Z.ltb_ge n 0)), (proj2 (Z.ltb_ge 255 n)) by lia. cbn [orb mbind outcome_bind mret outcome_ret].
  unfold encodeTLV. rewrite length_replicate, (proj2 (Nat.ltb_ge _ _)) by lia. eexists. split; [done|].
  cbn [length]. rewrite length_replicate. lia.
Qed.

Lemma pad_fuel_fills (n : nat) (hello : list TLV -> PDU) (k : nat) (target : Z) (tlvs : list TLV) (b : bytes) :
  hello_len hello k -> serializeTLVs tlvs = Ok b -> target - Z.of_nat (k + length b) <= Z.of_nat n ->
  exists pads, pad_fuel n hello target tlvs = Ok (tlvs ++ pads) /\ Forall (fun t => is_padding t = true) pads /\
    exists b' w p, serializeTLVs (tlvs ++ pads) = Ok b' /\ PDU_Serialize (hello (tlvs ++ pads)) = Ok (w, p) /\
      length w = (k + length b')%nat /\
      (if decide (target - Z.of_nat (k + length b) < 2) then pads = []
       else target - 1 <= Z.of_nat (length w) <= target).
Proof.
  intros Hk. revert tlvs b. induction n as [|n IH]; intros tlvs b Hb Hn;
    destruct (Hk tlvs b Hb) as (w & p & Hw & Hlen); cbn [pad_fuel]; rewrite Hw.
  all: destruct (Z.ltb_spec (target - Z.of_nat (length w)) 2) as [Hr|Hr].
  all: try (exists []; rewrite app_nil_r; split; [done|]; split; [done|]; exists b, w, p;
    do 3 (split; [done|]); rewrite decide_True by lia; done).
  - lia.
  - set (room := target - Z.of_nat (length w)) in *.
    set (pad := if 255 <? room - 2 then 255 else room - 2).
    assert (Hpad : pad = Z.min 255 (room - 2)) by (subst pad; destruct (Z.ltb_spec 255 (room - 2)); lia).
    destruct (padding_encode pad ltac:(lia)) as (e & He & Hle).
    assert (Hb1 : serializeTLVs (tlvs ++ [PaddingTLV pad]) = Ok (b ++ e)).
    { unfold serializeTLVs in *. apply concatM_app; [done|].
      change (concatM TLV_Serialize [PaddingTLV pad]) with (e ← TLV_Serialize (PaddingTLV pad); mret (e ++ [])).
      rewrite He. cbn. by rewrite app_nil_r. }
    assert (Hl1 : Z.of_nat (k + length (b ++ e)) = Z.of_nat (length w) + pad + 2) by (rewrite length_app; lia).
    destruct (IH (tlvs ++ [PaddingTLV pad]) (b ++ e) Hb1) as (pads & Hp & Hall & b' & w' & p' & H1 & H2 & H3 & H4); [lia|].
    exists (PaddingTLV pad :: pads). rewrite <- app_assoc in *. cbn [app] in *. split; [done|].
    split; [by constructor|]. exists b', w', p'. do 3 (split; [done|]). rewrite decide_False by lia.
    destruct (decide (target - Z.of_nat (k + length (b ++ e)) < 2)) as [Hd|Hd]; [|lia].
    subst pads. rewrite Hb1 in H1. injection H1 as <-. rewrite H3. lia.
Qed.

Lemma LANHello_len l ct src hold pr lan :
  length src = 6%nat -> length lan = 7%nat ->
  hello_len (fun tlvs => PDULANHello (mkLANHello l ct src hold pr lan tlvs)) lanHelloHeaderLen.
Proof.
  intros Hs Hl tlvs b Hb. cbn [PDU_Serialize]. unfold LANHello_Serialize. cbn [LH_TLVs]. rewrite Hb.
  cbn [mbind outcome_bind mret outcome_ret]. eexists _, _. split; [done|].
  rewrite !length_app. cbn [LH_SourceID LH_LANID]. rewrite Hs, Hl. done.
Qed.

Lemma P2PHello_len ct src hold cid :
  length src = 6%nat -> hello_len (fun tlvs => PDUP2PHello (mkP2PHello ct src hold cid tlvs)) p2pHelloHeaderLen.
Proof.
  intros Hs tlvs b Hb. cbn [PDU_Serialize]. unfold P2PHello_Serialize. cbn [PH_TLVs]. rewrite Hb.
  cbn [mbind outcome_bind mret outcome_ret]. eexists _, _. split; [done|].
  rewrite !length_app. cbn [PH_SourceID]. rewrite Hs. done.
Qed.
