(* ===== verification/Hello.v ===== *)
(** pkg/server/hello.go, receiving half: the broadcast and the point-to-point
    adjacency state machines, their teardown and expiry, and the dispatch of a
    received frame. *)

From S2P Require Import Prelude.
From S2P Require Import Netip.
From S2P Require Import Ids.
From S2P Require Import Sid.
From S2P Require Import SubTLV.
From S2P Require Import Entries.
From S2P Require Import Tlv.
From S2P Require Import Checksum.
From S2P Require Import Pdu.
From S2P Require Import Auth.
From S2P Require Import Circuit.
From S2P Require Import Dis.
From S2P Require Import Restart.
From S2P Require Import Lsdb.
From S2P Require Import EdgeLog.
From S2P Require Import Server.
From S2P Require Import Flooding.
From S2P Require Import Transmit.
From S2P Require Import HelloBuild.
Local Open Scope Z_scope.

(** ** What a hello says *)

(** The first TLV of a kind: its contents, or what a hello without one reads
    as. *)
Fixpoint first_of {A} (pick : TLV -> option A) (tlvs : list TLV) : option A :=
  match tlvs with
  | [] => None
  | t :: tlvs => match pick t with Some a => Some a | None => first_of pick tlvs end
  end.

Definition ipv4AddrsOf (tlvs : list TLV) : list Addr :=
  default [] (first_of (fun t => match t with IPInterfaceAddressesTLV a => Some a | _ => None end) tlvs).

Definition ipv6AddrsOf (tlvs : list TLV) : list Addr :=
  default [] (first_of (fun t => match t with IPv6InterfaceAddressesTLV a => Some a | _ => None end) tlvs).

Definition nlpidsOf (tlvs : list TLV) : option bytes :=
  first_of (fun t => match t with ProtocolsSupportedTLV n => Some n | _ => None end) tlvs.

Definition areaAddressesOf (tlvs : list TLV) : list bytes :=
  default [] (first_of (fun t => match t with AreaAddressesTLV a => Some a | _ => None end) tlvs).

Definition threeWayTLV (tlvs : list TLV) : option P2PThreeWayAdjacency :=
  first_of (fun t => match t with P2PThreeWayAdjacencyTLV a => Some a | _ => None end) tlvs.

Definition snpaListed (tlvs : list TLV) (want : SNPA) : bool :=
  existsb (fun t => match t with ISNeighborsTLV ns => existsb (fun s => bool_decide (s = want)) ns | _ => false end) tlvs.

Definition areasOverlap (a b : list bytes) : bool :=
  existsb (fun x => existsb (fun y => bool_decide (x = y)) b) a.

Definition commonLevels (c : circuit) (neighbor : Z) : Z :=
  let ls := if cfg_Level1 (cfg c) && flag neighbor CircuitTypeLevel1 then levelSet_add 0 Level1 else 0 in
  if cfg_Level2 (cfg c) && flag neighbor CircuitTypeLevel2 then levelSet_add ls Level2 else ls.

Definition clearLevel (s : Z) (l : Level) : Z := Z.ldiff s (level_bit l).

(** ** The adjacency records *)

(** [&adjacency{systemID: id}] *)
Definition newAdjacency (id : SystemID) : adjacency :=
  mkAdjacency id (replicate 6 0) AdjDown 0 [] zeroNodeID 0 zeroTime zeroTime zeroTime 0 zeroTime
    false false false 0 0 [] [] None.

Definition adj_set_source (a : adjacency) (snpa : SNPA) (priority : Z) (areas : list bytes) (lan : NodeID) : adjacency :=
  mkAdjacency (a_systemID a) snpa (a_state a) priority areas lan
    (a_holding a) (a_lastHeard a) (a_syncSince a) (a_upSince a) (a_syncSpent a) (a_syncCharged a)
    (a_restartCapable a) (a_restartMode a) (a_suppressed a) (a_neighborExtCircID a) (a_levels a)
    (a_neighborIPv4 a) (a_neighborIPv6 a) (a_nlpids a).

Definition adj_set_levels (a : adjacency) (levels : Z) : adjacency :=
  mkAdjacency (a_systemID a) (a_snpa a) (a_state a) (a_priority a) (a_areaAddrs a) (a_lanID a)
    (a_holding a) (a_lastHeard a) (a_syncSince a) (a_upSince a) (a_syncSpent a) (a_syncCharged a)
    (a_restartCapable a) (a_restartMode a) (a_suppressed a) (a_neighborExtCircID a) levels
    (a_neighborIPv4 a) (a_neighborIPv6 a) (a_nlpids a).

Definition adj_set_proto (a : adjacency) (ext : Z) (nlpids : option bytes) : adjacency :=
  mkAdjacency (a_systemID a) (a_snpa a) (a_state a) (a_priority a) (a_areaAddrs a) (a_lanID a)
    (a_holding a) (a_lastHeard a) (a_syncSince a) (a_upSince a) (a_syncSpent a) (a_syncCharged a)
    (a_restartCapable a) (a_restartMode a) (a_suppressed a) ext (a_levels a)
    (a_neighborIPv4 a) (a_neighborIPv6 a) nlpids.

(** [c.adjs[level][id] = adj] and [delete(c.adjs[level], id)]. *)
Definition put_adj (c : circuit) (l : Level) (id : SystemID) (a : adjacency) : circuit :=
  set_adjs c (at_level (<[id := a]>) l (adjs c)).
Definition del_adj (c : circuit) (l : Level) (id : SystemID) : circuit :=
  set_adjs c (at_level (delete id) l (adjs c)).

(** ** Refusals *)

Definition dropHello (s : Server) (c : circuit) (r : dropReason) : Server := emit s (PDUDrop (Name (cfg c)) r).

Definition set_dupWarned (s : Server) (w : gset string) : Server :=
  set_warned s (lsdbLimitWarned s) (oversizeWarned s) (refusedWarned s) (txFailWarned s) w (adjLimitWarned s).
Definition set_adjLimitWarned (s : Server) (w : gset string) : Server :=
  set_warned s (lsdbLimitWarned s) (oversizeWarned s) (refusedWarned s) (txFailWarned s) (dupSystemIDWarned s) w.

(** [helloFromSelf]: the answer and the state. *)
Definition helloFromSelf (s : Server) (c : circuit) (src : SystemID) : bool * Server :=
  if negb (bool_decide (src = systemID s)) then (false, s) else
  let s := emit s (PDUDrop (Name (cfg c)) dropDuplicateSystemID) in
  let '(w, fired) := edge_warn (Name (cfg c)) (dupSystemIDWarned s) in
  let s := set_dupWarned s w in
  (true, if fired then emit s (Warned "drop hello carrying our own system ID: duplicate system ID on the circuit; suppressing repeats")
         else s).

Definition adjacencyLimited (s : Server) (c : circuit) (src : SystemID) : bool * Server :=
  if negb (atAdjacencyLimit c src) then (false, s) else
  let s := emit s (PDUDrop (Name (cfg c)) dropAdjacencyLimit) in
  let '(w, fired) := edge_warn (Name (cfg c)) (adjLimitWarned s) in
  let s := set_adjLimitWarned s w in
  (true, if fired then emit s (Warned "drop hello from a new neighbor: circuit is at its adjacency limit; suppressing repeats")
         else s).

(** ** Reports *)

(** restart.go: [reportRestart]; the state and whether either condition moved. *)
Definition reportRestart (s : Server) (c : circuit) (a : adjacency) (held wasRestarting wasSuppressed : bool)
  : Server * bool :=
  (if a_restartMode a then emit s (RestartRequested (Name (cfg c)) held) else s,
   negb (Bool.eqb (a_restartMode a) wasRestarting) || negb (Bool.eqb (a_suppressed a) wasSuppressed)).

(** watch.go: [emitAdjacency] and [emitAdjacencyDown]. *)
Definition emitAdjacency (s : Server) (i : AdjacencyInfo) : Server :=
  if watched s then emit s (AdjacencyEvent i) else s.

Definition emitAdjacencyDown (s : Server) (c : circuit) (a : adjacency) (l : Level) (now : Z) : Server :=
  emitAdjacency (emit s (AdjacencyTransition (Name (cfg c)) l AdjDown)) (infoFor c (adj_set_state a AdjDown) l now).

Definition emit_levels (f : Server -> Level -> Server) (s : Server) (ls : list Level) : Server := fold_left f ls s.

Definition teardownP2PAdj (s : Server) (i : nat) (c : circuit) (a : adjacency) (now : Z) : Server :=
  let s := upd_circuit s i (fun c => set_p2pAdj c None) in
  let s := emit_levels (fun s l => emitAdjacencyDown s c a l now) s (levelSet_levels (a_levels a)) in
  requestLSPRegen (upd_circuit s i clearFlags).

(** ** The broadcast state machine *)

(** The precondition of RFC 5306 3.2.1: an adjacency already Up from the same
    source, and the RR bit. *)
Definition holdForRestart (ex : option adjacency) (rt : option Restart) (src : SNPA) : bool :=
  asks_restart rt &&
  match ex with Some a => is_up (a_state a) && bool_decide (a_snpa a = src) | None => false end.

Definition lanState (c : circuit) (h : LANHello) (held : bool) : AdjState :=
  if held then AdjUp
  else if snpaListed (LH_TLVs h) (LocalSNPA (cfg_Transport (cfg c))) then AdjUp else AdjInit.

(** The adjacency after a hello, and whether its addresses changed. *)
Definition lanAdjacency (a : adjacency) (src : SNPA) (h : LANHello) (held : bool) (newState : AdjState) (now : Z)
  : adjacency * bool :=
  let prev := a_state a in
  let a := adj_set_source a src (LH_Priority h) (areaAddressesOf (LH_TLVs h)) (LH_LANID h) in
  let a := noteRestart a (restartTLVOf (LH_TLVs h)) held (LH_HoldingTime h) now in
  let a := if negb (is_up prev) && is_up newState then resetSyncWindow a now else a in
  let a := adj_set_state a newState in
  let a := adj_set_levels a (levelSet_add (a_levels a) (LH_Level h)) in
  let '(a, changed) := setNeighborAddrs a (ipv4AddrsOf (LH_TLVs h)) (ipv6AddrsOf (LH_TLVs h)) in
  (adj_set_proto a (a_neighborExtCircID a) (nlpidsOf (LH_TLVs h)), changed).

Section Hello.
Context (hmac : AuthAlgorithm -> bytes -> bytes -> bytes).
Context (send_ok : list effect -> bool).
(** The order in which the [k]-th loop of a handler visits a map of
    adjacencies. *)
Context (adj_order : nat -> gmap SystemID adjacency -> list (SystemID * adjacency)).

Definition orderOf (k : nat) (c : circuit) (l : Level) : list (SystemID * adjacency) := adj_order k (adjs_at c l).

(** What follows the write of the adjacency [a]: reports, the triggered hello,
    re-election, synchronization. *)
Definition lanReact (s : Server) (i : nat) (c : circuit) (l : Level) (a : adjacency) (prev : AdjState)
    (held electionChanged addrsChanged restartEdge suppressionChanged : bool) (ack : option Restart) (now : Z)
  : outcome Server :=
  let newState := a_state a in
  let moved := negb (bool_decide (prev = newState)) in
  let s := if moved
           then emitAdjacency (emit s (AdjacencyTransition (Name (cfg c)) l newState)) (infoFor c a l now)
           else if restartEdge && is_up newState then emitAdjacency s (infoFor c a l now) else s in
  s ← (if moved || bool_decide (is_Some ack) then
         h ← buildLANHello s c l ack (orderOf 0 c l); sendOne hmac send_ok s c (DestForLevel l) h
       else mret s);
  let upChanged := negb (Bool.eqb (is_up prev) (is_up newState)) in
  let elect c := electDIS (systemID s) c l (orderOf 1 c l) (orderOf 2 c l) in
  let '(s, c) := if upChanged || (is_up newState && electionChanged)
                 then (requestLSPRegen (upd_circuit s i elect), elect c) else (s, c) in
  s ← (if held && restartSyncEligible c (orderOf 3 c l) then syncCircuitLevel hmac send_ok s i c l now else mret s);
  mret (if is_up newState && (addrsChanged || suppressionChanged) then requestLSPRegen s else s).

(** The second half of [processLANHello]: a hello from a system that is known or
    admitted, over the adjacencies [m] of its level. *)
Definition acceptLANHello (s : Server) (i : nat) (c : circuit) (m : gmap SystemID adjacency) (src : SNPA) (h : LANHello)
    (now : Z) : outcome Server :=
  let l := LH_Level h in
  let ex := m !! LH_SourceID h in
  let a0 := default (newAdjacency (LH_SourceID h)) ex in
  let rt := restartTLVOf (LH_TLVs h) in
  let held := holdForRestart ex rt src in
  let newState := lanState c h held in
  let electionChanged := bool_decide (is_Some ex) &&
    (negb (a_priority a0 =? LH_Priority h) || negb (bool_decide (a_snpa a0 = src)) ||
     negb (bool_decide (a_lanID a0 = LH_LANID h))) in
  let '(a, addrsChanged) := lanAdjacency a0 src h held newState now in
  let '(s, restartEdge) := reportRestart s c a held (a_restartMode a0) (a_suppressed a0) in
  let s := upd_circuit s i (fun c => put_adj c l (LH_SourceID h) a) in
  let c := put_adj c l (LH_SourceID h) a in
  let ack := if asks_restart rt then Some (restartAck c a now) else None in
  lanReact s i c l a (a_state a0) held electionChanged addrsChanged restartEdge
    (negb (Bool.eqb (a_suppressed a) (a_suppressed a0))) ack now.

(** [processLANHello] on the circuit at index [i]. *)
Definition processLANHello (s : Server) (i : nat) (c : circuit) (src : SNPA) (h : LANHello) (now : Z)
  : outcome Server :=
  if P2P (cfg c) then mret (dropHello s c dropHelloInvalid) else
  if LH_HoldingTime h =? 0 then mret (dropHello s c dropHelloInvalid) else
  let '(self, s) := helloFromSelf s c (LH_SourceID h) in
  if self : bool then mret s else
  match adjs c !! LH_Level h with
  | None => mret (dropHello s c dropHelloInvalid)
  | Some m =>
      if bool_decide (LH_Level h = Level1) && negb (areasOverlap (areaAddrs s) (areaAddressesOf (LH_TLVs h)))
      then mret (dropHello s c dropHelloMismatch) else
      let '(limited, s) :=
        if bool_decide (m !! LH_SourceID h = None) then adjacencyLimited s c (LH_SourceID h) else (false, s) in
      if limited : bool then mret s else acceptLANHello s i c m src h now
  end.

(** ** The point-to-point state machine *)

(** A TLV 240 that echoes someone other than this circuit. *)
Definition echoesOther (s : Server) (c : circuit) (three : option P2PThreeWayAdjacency) : bool :=
  match three with
  | Some t => Adj_HasNeighbor t &&
      (negb (bool_decide (Adj_NeighborSystemID t = systemID s)) ||
       negb (Adj_NeighborExtLocalCircuitID t =? extCircID c))
  | None => false
  end.

(** A TLV 240 that echoes this circuit. *)
Definition echoesUs (s : Server) (c : circuit) (three : option P2PThreeWayAdjacency) : bool :=
  match three with
  | Some t => Adj_HasNeighbor t && bool_decide (Adj_NeighborSystemID t = systemID s) &&
      (Adj_NeighborExtLocalCircuitID t =? extCircID c)
  | None => false
  end.

(** The levels the two ends share: the circuit types in common, Level 1 only with
    an area in common. *)
Definition p2pLevels (s : Server) (c : circuit) (h : P2PHello) : Z :=
  let common := commonLevels c (PH_CircuitType h) in
  if levelSet_has common Level1 && negb (areasOverlap (areaAddrs s) (areaAddressesOf (PH_TLVs h)))
  then clearLevel common Level1 else common.

Definition p2pAdjacency (a : adjacency) (src : SNPA) (h : P2PHello) (common : Z) (held : bool) (newState : AdjState)
    (now : Z) : adjacency * bool :=
  let prev := a_state a in
  let a := adj_set_source a src (a_priority a) (areaAddressesOf (PH_TLVs h)) (a_lanID a) in
  let a := noteRestart a (restartTLVOf (PH_TLVs h)) held (PH_HoldingTime h) now in
  let a := adj_set_levels a common in
  let a := if negb (is_up prev) && is_up newState then resetSyncWindow a now else a in
  let a := adj_set_state a newState in
  let '(a, changed) := setNeighborAddrs a (ipv4AddrsOf (PH_TLVs h)) (ipv6AddrsOf (PH_TLVs h)) in
  let ext := match threeWayTLV (PH_TLVs h) with
             | Some t => if Adj_HasLocal t then Adj_ExtLocalCircuitID t else a_neighborExtCircID a
             | None => a_neighborExtCircID a
             end in
  (adj_set_proto a ext (nlpidsOf (PH_TLVs h)), changed).

(** A level is synchronized on the circuit as it then stands. *)
Fixpoint sync_levels (s : Server) (i : nat) (ls : list Level) (now : Z) : outcome Server :=
  match ls with
  | [] => mret s
  | l :: ls =>
      s ← match circuits s !! i with
          | Some c => syncCircuitLevel hmac send_ok s i c l now
          | None => mret s
          end;
      sync_levels s i ls now
  end.

Definition p2pReact (s : Server) (i : nat) (c : circuit) (a : adjacency) (prev : AdjState) (prevLevels : Z)
    (held addrsChanged restartEdge suppressionChanged : bool) (ack : option Restart) (now : Z) : outcome Server :=
  let newState := a_state a in
  let common := a_levels a in
  let changed := negb (bool_decide (prev = newState)) || (is_up newState && negb (prevLevels =? common)) in
  let s :=
    if changed then
      let s := emit_levels (fun s l =>
        emitAdjacency (emit s (AdjacencyTransition (Name (cfg c)) l newState)) (infoFor c a l now))
        s (levelSet_levels common) in
      let s := if is_up newState
               then emit_levels (fun s l => emitAdjacencyDown s c a l now) s
                      (List.filter (fun l => negb (levelSet_has common l)) (levelSet_levels prevLevels))
               else s in
      requestLSPRegen s
    else if restartEdge && is_up newState
    then emit_levels (fun s l => emitAdjacency s (infoFor c a l now)) s (levelSet_levels common)
    else s in
  s ← (if changed || bool_decide (is_Some ack)
       then h ← buildP2PHello s c ack; sendOne hmac send_ok s c AllISs h else mret s);
  s ← (if changed && is_up newState
       then sync_levels s i (List.filter (fun l => negb (is_up prev) || negb (levelSet_has prevLevels l))
              (levelSet_levels common)) now
       else mret s);
  s ← (if held then sync_levels s i (levelSet_levels common) now else mret s);
  mret (if is_up newState && (addrsChanged || suppressionChanged) then requestLSPRegen s else s).

(** The second half of [processP2PHello]: a hello from another system, sharing
    the levels [common]. *)
Definition acceptP2PHello (s : Server) (i : nat) (c : circuit) (src : SNPA) (h : P2PHello) (common now : Z)
  : outcome Server :=
  let three := threeWayTLV (PH_TLVs h) in
  let rt := restartTLVOf (PH_TLVs h) in
  let same := match p2pAdj c with Some a => bool_decide (a_systemID a = PH_SourceID h) | None => false end in
  let held := same && holdForRestart (p2pAdj c) rt src in
  if negb held && echoesOther s c three then
    mret match p2pAdj c with
         | Some a => if same then teardownP2PAdj s i c a now else s
         | None => s
         end
  else
  let newState := if held || echoesUs s c three then AdjUp else AdjInit in
  let s := match p2pAdj c with
           | Some a => if same then s else teardownP2PAdj s i c a now
           | None => s
           end in
  let a0 := match p2pAdj c with
            | Some a => if same then a else newAdjacency (PH_SourceID h)
            | None => newAdjacency (PH_SourceID h)
            end in
  let '(a, addrsChanged) := p2pAdjacency a0 src h common held newState now in
  let '(s, restartEdge) := reportRestart s c a held (a_restartMode a0) (a_suppressed a0) in
  let s := upd_circuit s i (fun c => set_p2pAdj c (Some a)) in
  let ack := if asks_restart rt then Some (restartAck c a now) else None in
  p2pReact s i (set_p2pAdj c (Some a)) a (a_state a0) (a_levels a0) held addrsChanged restartEdge
    (negb (Bool.eqb (a_suppressed a) (a_suppressed a0))) ack now.

Definition processP2PHello (s : Server) (i : nat) (c : circuit) (src : SNPA) (h : P2PHello) (now : Z)
  : outcome Server :=
  if negb (P2P (cfg c)) then mret (dropHello s c dropHelloInvalid) else
  if PH_HoldingTime h =? 0 then mret (dropHello s c dropHelloInvalid) else
  let '(self, s) := helloFromSelf s c (PH_SourceID h) in
  if self : bool then mret s else
  let common := p2pLevels s c h in
  if common =? 0 then mret (dropHello s c dropHelloMismatch)
  else acceptP2PHello s i c src h common now.

(** ** Teardown and expiry *)

(** One visit of the loop of [dropAdjacencies] over a level of a LAN. *)
Definition drop_one (s : Server) (i : nat) (l : Level) (id : SystemID) (a : adjacency) (now : Z) : Server :=
  match circuits s !! i with
  | None => s
  | Some c =>
      let s := emitAdjacencyDown s c a l now in
      upd_circuit s i (fun c =>
        let c := del_adj c l id in electDIS (systemID s) c l (orderOf 1 c l) (orderOf 2 c l))
  end.

(** The loop over a level: the entries in the order of the visit, those that
    [drop] selects torn down; whether any was. *)
Fixpoint drop_loop (drop : adjacency -> bool) (s : Server) (i : nat) (l : Level) (order : list (SystemID * adjacency))
    (now : Z) : bool * Server :=
  match order with
  | [] => (false, s)
  | (id, a) :: order =>
      if drop a then (true, (drop_loop drop (drop_one s i l id a now) i l order now).2)
      else drop_loop drop s i l order now
  end.

Fixpoint drop_levels (drop : adjacency -> bool) (s : Server) (i : nat) (ls : list Level) (now : Z) : bool * Server :=
  match ls with
  | [] => (false, s)
  | l :: ls =>
      let order := match circuits s !! i with Some c => orderOf 0 c l | None => [] end in
      let '(ch, s) := drop_loop drop s i l order now in
      let '(ch', s) := drop_levels drop s i ls now in
      (ch || ch', s)
  end.

Definition dropAdjacencies (s : Server) (i : nat) (c : circuit) (drop : adjacency -> bool) (now : Z) : Server :=
  if P2P (cfg c) then
    match p2pAdj c with
    | Some a => if drop a then teardownP2PAdj s i c a now else s
    | None => s
    end
  else
    let '(changed, s) := drop_levels drop s i (cfg_levels (cfg c)) now in
    if changed then requestLSPRegen (set_adjLimitWarned s (edge_clear (Name (cfg c)) (adjLimitWarned s))) else s.

Definition expireAdjacencies (s : Server) (i : nat) (c : circuit) (now : Z) : Server :=
  dropAdjacencies s i c (fun a => expired a now) now.

(** ** Received frames *)

Definition helloAuthOK (s : Server) (c : circuit) (raw : bytes) (pt : Z) : outcome (bool * Server) :=
  let spec := helloSpec (cfg c) in
  if negb (spec_on spec) then mret (true, s) else
  ok ← spec_verify hmac spec raw (HeaderLen pt) false;
  if ok : bool then mret (true, s) else mret (false, emit s (PDUDrop (Name (cfg c)) dropAuth)).

Definition adjacencyGate (s : Server) (c : circuit) (l : Level) (src : SNPA) : option adjacency * Server :=
  match upAdjacencyFrom c l src (orderOf 0 c l) with
  | Some a => (Some a, s)
  | None => (None, emit s (PDUDrop (Name (cfg c)) dropNoAdjacency))
  end.

(** Whether a PDU passes the authentication of its kind. *)
Definition authOK (s : Server) (c : circuit) (raw : bytes) (p : PDU) : outcome (bool * Server) :=
  match p with
  | PDULANHello _ | PDUP2PHello _ => helloAuthOK s c raw (PDU_PDUType p)
  | PDULSP q => pduAuthOK hmac s c raw (PDU_PDUType p) (LSP_Level q) true
  | PDUCSNP q => pduAuthOK hmac s c raw (PDU_PDUType p) (CS_Level q) false
  | PDUPSNP q => pduAuthOK hmac s c raw (PDU_PDUType p) (PS_Level q) false
  end.

(** The jitter of a re-origination the frame may cause. *)
Context (rand : Z).

Definition handlePDU (s : Server) (i : nat) (c : circuit) (src : SNPA) (raw : bytes) (p : PDU) (now : Z)
  : outcome Server :=
  '(ok, s) ← authOK s c raw p;
  if negb ok then mret s else
  match p with
  | PDULANHello h => processLANHello s i c src h now
  | PDUP2PHello h => processP2PHello s i c src h now
  | PDULSP q =>
      match adjacencyGate s c (LSP_Level q) src with
      | (Some a, s) => processLSP hmac rand s i c raw q (Some a) now
      | (None, s) => mret s
      end
  | PDUCSNP q =>
      match adjacencyGate s c (CS_Level q) src with
      | (Some _, s) => mret (processCSNP s i q now)
      | (None, s) => mret s
      end
  | PDUPSNP q =>
      match adjacencyGate s c (PS_Level q) src with
      | (Some _, s) => mret (processPSNP s i q now)
      | (None, s) => mret s
      end
  end.

(** [handleRx] on a frame from [src]. *)
Definition handleRx (s : Server) (i : nat) (c : circuit) (src : SNPA) (frame : bytes) (now : Z) : outcome Server :=
  if linkDown c then mret (emit s (PDUDrop (Name (cfg c)) dropLinkDown)) else
  raw ← TrimToPDULength frame;
  match DecodePDU raw with
  | Panic => Panic
  | Err _ => mret (emit s (PDUDrop (Name (cfg c)) dropDecode))
  | Ok p => handlePDU (emit s (PDURx (Name (cfg c)) (PDU_PDUType p))) i c src raw p now
  end.

(** [handleEvent] on a received frame. *)
Definition handleRxEvent (s : Server) (i : nat) (c : circuit) (src : SNPA) (frame : bytes) (now : Z) : outcome Server :=
  if detached c then mret s else handleRx s i c src frame now.
End Hello.
