(* ===== verification/HelloFrame.v ===== *)
(** What the reports, the transmissions and the synchronizations of the server
    leave alone: the adjacencies of every circuit (their synchronization windows
    apart), the databases and the identity of the node. *)

From S2P Require Import Prelude.
From S2P Require Import Netip.
From S2P Require Import Ids.
From S2P Require Import Sid.
From S2P Require Import SubTLV.
From S2P Require Import Entries.
From S2P Require Import Tlv.
From S2P Require Import Checksum.
From S2P Require Import Pdu.
From S2P Require Import Auth.
From S2P Require Import Circuit.
From S2P Require Import Dis.
From S2P Require Import Restart.
From S2P Require Import Lsdb.
From S2P Require Import EdgeLog.
From S2P Require Import Server.
From S2P Require Import Transmit.
From S2P Require Import HelloBuild.
From S2P Require Import Hello.
Local Open Scope Z_scope.

(** ** Views *)

(** An adjacency without its synchronization window. *)
Definition erase_sync (a : adjacency) : adjacency := adj_set_sync a 0 0 0 0.

(** A circuit without its flags, timers and synchronization windows. *)
Record circuit_view : Type := mkView {
  v_cfg : CircuitConfig; v_pseudonodeID : Z; v_extCircID : Z;
  v_adjs : gmap Level (gmap SystemID adjacency); v_p2pAdj : option adjacency; v_dis : gmap Level NodeID;
  v_linkDown : bool; v_detached : bool
}.

Definition view (c : circuit) : circuit_view :=
  mkView (cfg c) (pseudonodeID c) (extCircID c) ((fun m : gmap SystemID adjacency => erase_sync <$> m) <$> adjs c) (erase_sync <$> p2pAdj c) (dis c)
    (linkDown c) (detached c).

Definition quiet (s s' : Server) : Prop :=
  view <$> circuits s' = view <$> circuits s /\ dbs s' = dbs s /\ systemID s' = systemID s /\
  areaAddrs s' = areaAddrs s /\ authKeys s' = authKeys s /\ levelCap s' = levelCap s.

#[export] Instance quiet_preorder : PreOrder quiet.
Proof.
  split; [by intros s|]. intros s1 s2 s3 (A1 & A2 & A3 & A4 & A5 & A6) (B1 & B2 & B3 & B4 & B5 & B6).
  by repeat split; etransitivity.
Qed.

(** For what writes the trace, the logs and the generation flags only. *)
Ltac quiet0 :=
  intros; unfold emitAdjacencyDown, emitAdjacency; repeat match goal with |- context [if watched ?s then _ else _] => destruct (watched s) end;
  unfold quiet; split_and!; reflexivity.

Lemma quiet_upd s i f : (forall c, view (f c) = view c) -> quiet s (upd_circuit s i f).
Proof.
  intros Hf. split; [|done]. cbn [upd_circuit set_circuits circuits]. apply list_eq. intros j.
  rewrite !list_lookup_fmap. destruct (decide (i = j)) as [->|Hne].
  - rewrite list_lookup_alter_eq. destruct (circuits s !! j) as [c|]; [|done]. simpl. by rewrite Hf.
  - by rewrite list_lookup_alter_ne.
Qed.

Lemma quiet_lookup s s' j c :
  quiet s s' -> circuits s !! j = Some c -> exists c', circuits s' !! j = Some c' /\ view c' = view c.
Proof.
  intros (H & _) Hj. apply (f_equal (.!! j)) in H. rewrite !list_lookup_fmap, Hj in H. simpl in H.
  destruct (circuits s' !! j) as [c'|]; [|done]. injection H as H. exists c'. by split; [|unfold view; congruence].
Qed.

(** What a view determines. *)
Lemma view_p2p c c' a : view c' = view c -> p2pAdj c' = Some a ->
  exists b, p2pAdj c = Some b /\ erase_sync b = erase_sync a.
Proof.
  intros H Ha. apply (f_equal v_p2pAdj) in H. cbn [view v_p2pAdj] in H. rewrite Ha in H. simpl in H.
  destruct (p2pAdj c) as [b|]; [|done]. exists b. split; [done|]. simpl in H. congruence.
Qed.

Lemma view_adj c c' l id a : view c' = view c -> adjs_at c' l !! id = Some a ->
  exists b, adjs_at c l !! id = Some b /\ erase_sync b = erase_sync a.
Proof.
  intros H Ha. apply (f_equal (fun v => v_adjs v !! l)) in H. cbn [view v_adjs] in H. rewrite !lookup_fmap in H.
  unfold adjs_at in *. destruct (adjs c' !! l) as [m'|]; [|simpl in Ha; by rewrite lookup_empty in Ha].
  destruct (adjs c !! l) as [m|]; [|done]. simpl in *. apply Some_inj in H.
  apply (f_equal (lookup id)) in H. rewrite !lookup_fmap, Ha in H. simpl in H.
  destruct (m !! id) as [b|]; [|done]. exists b. split; [done|]. simpl in H. congruence.
Qed.

(** ** Reports and transmissions *)

Lemma quiet_txFailed s c r : quiet s (txFailed s c r).
Proof. unfold txFailed. by destruct (edge_warn _ _) as [w []]. Qed.

Lemma quiet_fold {A} (f : Server -> A -> Server) (xs : list A) s :
  (forall s x, quiet s (f s x)) -> quiet s (fold_left f xs s).
Proof.
  intros Hf. revert s. induction xs as [|x xs IH]; intros s; [done|]. cbn [fold_left].
  etransitivity; [apply Hf|apply IH].
Qed.

Lemma quiet_emit_levels f s ls : (forall s l, quiet s (f s l)) -> quiet s (emit_levels f s ls).
Proof. apply quiet_fold. Qed.

Section Frame.
Context (hmac : AuthAlgorithm -> bytes -> bytes -> bytes).
Context (send_ok : list effect -> bool).

Lemma quiet_send s c dst w : quiet s (send send_ok s c dst w).2.
Proof using. unfold send. destruct (send_ok (trace s)); [done|apply quiet_txFailed]. Qed.

Lemma quiet_sendOne s c dst p s' : sendOne hmac send_ok s c dst p = Ok s' -> quiet s s'.
Proof using.
  unfold sendOne. destruct (PDU_Serialize p) as [[w p']|x|]; [|intros [= <-]; apply quiet_txFailed|done].
  destruct (spec_on _); [|intros [= <-]; apply quiet_send]. intros H. apply bind_Ok in H as ([r|] & _ & H).
  - injection H as <-. apply quiet_send.
  - injection H as <-. apply quiet_txFailed.
Qed.

Lemma quiet_sendSNP s c l p s' : sendSNP hmac send_ok s c l p = Ok s' -> quiet s s'.
Proof using.
  unfold sendSNP. destruct (PDU_Serialize _) as [[w p']|x|]; [|intros [= <-]; apply quiet_txFailed|done].
  destruct (spec_on _); [|intros [= <-]; apply quiet_send]. intros H. apply bind_Ok in H as ([r|] & _ & H).
  - injection H as <-. apply quiet_send.
  - injection H as <-. apply quiet_txFailed.
Qed.

Lemma quiet_send_all s c l ps s' : send_all hmac send_ok s c l ps = Ok s' -> quiet s s'.
Proof using.
  revert s. induction ps as [|p ps IH]; intros s H; [by injection H as <-|]. cbn [send_all] in H.
  apply bind_Ok in H as (s1 & H1 & H). etransitivity; [by eapply quiet_sendSNP|by apply IH].
Qed.

Lemma quiet_sendCSNP s c l now s' : sendCSNP hmac send_ok s c l now = Ok s' -> quiet s s'.
Proof using.
  unfold sendCSNP. intros H. apply bind_Ok in H as (db & _ & H). apply bind_Ok in H as (b & _ & H).
  apply bind_Ok in H as (ps & _ & H). by apply quiet_send_all in H.
Qed.

(** ** Synchronization *)

Lemma erase_open a now : erase_sync (openSyncWindow a now) = erase_sync a.
Proof using.
  unfold openSyncWindow, refillSyncBudget. destruct (Sub now (a_syncCharged a) <=? 0).
  all: destruct (_ <=? 0); [done|]; by destruct (_ <=? _).
Qed.

Lemma view_open_windows l now c : view (open_windows l now c) = view c.
Proof using.
  assert (H1 : forall c, view (set_adjs c (alter (fmap (fun a =>
    if is_up (a_state a) then openSyncWindow a now else a)) l (adjs c))) = view c).
  { intros k. unfold view. cbn [set_adjs cfg pseudonodeID extCircID adjs p2pAdj dis linkDown detached]. f_equal.
    apply map_eq. intros j. rewrite !lookup_fmap, lookup_alter. destruct (decide (l = j)) as [<-|]; [|done].
    destruct (adjs k !! l) as [m|]; [|done]. simpl. f_equal. rewrite <- map_fmap_compose. apply map_fmap_ext.
    intros id a _. simpl. destruct (is_up (a_state a)); [apply erase_open|done]. }
  unfold open_windows. rewrite H1. unfold p2p_up. destruct (p2pAdj c) as [a|] eqn:Ea; [|done].
  destruct (_ && _); [|done]. unfold view. cbn [set_p2pAdj cfg pseudonodeID extCircID adjs p2pAdj dis linkDown detached].
  rewrite Ea. simpl. by rewrite erase_open.
Qed.

Lemma view_fold_setSRM l now ids c : view (fold_left (fun c id => setSRM c l id now) ids c) = view c.
Proof using. revert c. induction ids as [|x ids IH]; intros c; [done|]. cbn [fold_left]. by rewrite IH. Qed.

Lemma quiet_sync s i c l now s' : syncCircuitLevel hmac send_ok s i c l now = Ok s' -> quiet s s'.
Proof using.
  unfold syncCircuitLevel. destruct (now <? _).
  - intros [= <-]. by apply quiet_upd.
  - intros H. apply bind_Ok in H as (db & _ & H). apply bind_Ok in H as (s1 & H1 & [= <-]).
    apply quiet_sendCSNP in H1. etransitivity; [|apply quiet_upd, view_open_windows].
    etransitivity; [|exact H1]. etransitivity; apply quiet_upd; [done|apply view_fold_setSRM].
Qed.

Lemma quiet_sync_levels s i ls now s' : sync_levels hmac send_ok s i ls now = Ok s' -> quiet s s'.
Proof using.
  revert s. induction ls as [|l ls IH]; intros s H; [by injection H as <-|]. cbn [sync_levels] in H.
  apply bind_Ok in H as (s1 & H1 & H). etransitivity; [|by apply IH].
  destruct (circuits s !! i) as [c|]; [by apply quiet_sync in H1|by injection H1 as <-].
Qed.

Lemma view_electDIS_adjs self c l o1 o2 :
  adjs (electDIS self c l o1 o2) = adjs c /\ p2pAdj (electDIS self c l o1 o2) = p2pAdj c /\
  cfg (electDIS self c l o1 o2) = cfg c.
Proof using.
  unfold electDIS. destruct (P2P (cfg c)); [done|]. destruct (weAreDIS _); [done|]. by destruct (bool_decide _).
Qed.

Lemma view_clearFlags c : view (clearFlags c) = view c.
Proof using. done. Qed.

(** ** What follows a hello *)

Lemma quiet_p2pReact s i c a prev prevLevels held ac re sc ack now s' :
  p2pReact hmac send_ok s i c a prev prevLevels held ac re sc ack now = Ok s' -> quiet s s'.
Proof using.
  unfold p2pReact. set (changed := negb _ || _).
  set (s1 := if changed then _ else _). intros H.
  assert (Q1 : quiet s s1).
  { subst s1. destruct changed.
    - set (up := emit_levels _ s _). assert (Qu : quiet s up) by (apply quiet_emit_levels; quiet0).
      etransitivity; [exact Qu|]. destruct (is_up (a_state a)); [|quiet0].
      set (down := emit_levels _ up _). assert (Qd : quiet up down) by (apply quiet_emit_levels; quiet0).
      etransitivity; [exact Qd|quiet0].
    - destruct (re && _); [|done]. apply quiet_emit_levels. quiet0. }
  clearbody s1. clearbody changed.
  apply bind_Ok in H as (s2 & H2 & H). apply bind_Ok in H as (s3 & H3 & H). apply bind_Ok in H as (s4 & H4 & [= <-]).
  assert (Q2 : quiet s1 s2).
  { destruct (changed || bool_decide (is_Some ack)); [|by injection H2 as <-]. apply bind_Ok in H2 as (h & _ & H2). by eapply quiet_sendOne. }
  assert (Q3 : quiet s2 s3) by (destruct (changed && is_up (a_state a)); [by eapply quiet_sync_levels|by injection H3 as <-]).
  assert (Q4 : quiet s3 s4) by (destruct held; [by eapply quiet_sync_levels|by injection H4 as <-]).
  etransitivity; [exact Q1|]. etransitivity; [exact Q2|]. etransitivity; [exact Q3|]. etransitivity; [exact Q4|].
  destruct (is_up (a_state a) && _); quiet0.
Qed.

Lemma quiet_teardown_rest s i c a now :
  let s1 := upd_circuit s i (fun c => set_p2pAdj c None) in quiet s1 (teardownP2PAdj s i c a now).
Proof using.
  intros s1. unfold teardownP2PAdj. fold s1. set (s2 := emit_levels _ s1 _).
  assert (Q : quiet s1 s2) by (apply quiet_emit_levels; quiet0).
  etransitivity; [exact Q|]. etransitivity; [apply (quiet_upd s2 i clearFlags); by intros|quiet0].
Qed.
End Frame.
