(* ===== verification/Ranges.v ===== *)
(** The ranges of a CSNP burst: LSP IDs as numbers, chunks of entries, and the
    loop of [sendCSNP] that cuts a database into consecutive ranges. *)

From stdpp Require Import sorting.
From S2P Require Import Prelude.
From S2P Require Import Framing.
From S2P Require Import Netip.
From S2P Require Import Ids.
From S2P Require Import Sid.
From S2P Require Import SubTLV.
From S2P Require Import Entries.
From S2P Require Import Tlv.
From S2P Require Import Checksum.
From S2P Require Import Pdu.
From S2P Require Import Auth.
From S2P Require Import Circuit.
From S2P Require Import Lsdb.
From S2P Require Import EdgeLog.
From S2P Require Import Server.
From S2P Require Import Flooding.
From S2P Require Import Transmit.
Local Open Scope Z_scope.

(** ** LSP IDs as numbers *)

(** The big-endian value of an octet string. *)
Fixpoint num (b : bytes) : Z :=
  match b with [] => 0 | x :: b' => x * 256 ^ Z.of_nat (length b') + num b' end.

Lemma num_range (b : bytes) : bytes_ok b -> 0 <= num b < 256 ^ Z.of_nat (length b).
Proof.
  induction 1 as [|x b Hx Hb IH]; [simpl; lia|]. cbn [num length]. unfold byte_ok in Hx.
  rewrite Nat2Z.inj_succ, Z.pow_succ_r by lia. nia.
Qed.

Lemma num_app (a b : bytes) : num (a ++ b) = num a * 256 ^ Z.of_nat (length b) + num b.
Proof.
  induction a as [|x a IH]; [simpl; lia|]. cbn [app num]. rewrite IH, length_app, Nat2Z.inj_add.
  rewrite Z.pow_add_r by lia. lia.
Qed.

Lemma num_compare (a b : bytes) :
  bytes_ok a -> bytes_ok b -> length a = length b -> bytes_compare a b = (num a ?= num b).
Proof.
  intros Ha. revert b. induction Ha as [|x a Hx Ha IH]; intros [|y b] Hb Hl; try done.
  apply bytes_ok_cons in Hb as [Hy Hb]. injection Hl as Hl. cbn [bytes_compare num]. rewrite Hl.
  pose proof (num_range a Ha) as Hra. pose proof (num_range b Hb) as Hrb. rewrite Hl in Hra.
  destruct (Z.compare_spec x y) as [->|Hlt|Hgt].
  - rewrite IH by done. destruct (Z.compare_spec (num a) (num b)); symmetry;
      [apply Z.compare_eq_iff|apply Z.compare_lt_iff|apply Z.compare_gt_iff]; lia.
  - symmetry. apply Z.compare_lt_iff. nia.
  - symmetry. apply Z.compare_gt_iff. nia.
Qed.

Lemma num_inj (a b : bytes) : bytes_ok a -> bytes_ok b -> length a = length b -> num a = num b -> a = b.
Proof.
  intros Ha Hb Hl Hn. apply bytes_compare_eq. rewrite num_compare by done. by apply Z.compare_eq_iff.
Qed.

Lemma inRange_num (id s e : LSPID) :
  arr 8 id -> arr 8 s -> arr 8 e -> inRange id s e = true <-> num s <= num id <= num e.
Proof.
  intros [Hl1 H1] [Hl2 H2] [Hl3 H3]. unfold inRange. rewrite !num_compare by congruence.
  destruct (Z.compare_spec (num id) (num s)), (Z.compare_spec (num id) (num e)); simpl;
    intuition (lia || done).
Qed.

(** ** [nextLSPID] *)

(** The value of a reversed (least significant first) octet string. *)
Lemma incr_rev_spec (b : bytes) :
  bytes_ok b ->
  bytes_ok (incr_rev b) /\ length (incr_rev b) = length b /\
  num (rev (incr_rev b)) = (num (rev b) + 1) mod 256 ^ Z.of_nat (length b).
Proof.
  induction 1 as [|x b Hx Hb (IH1 & IH2 & IH3)]; [split; [constructor|done]|]. cbn [incr_rev rev].
  pose proof (num_range (rev b) ltac:(by apply Forall_rev)) as Hr. rewrite length_rev in Hr.
  set (n := num (rev b)) in *. set (P := 256 ^ Z.of_nat (length b)) in *.
  assert (HP : 256 ^ Z.of_nat (length (x :: b)) = 256 * P).
  { cbn [length]. rewrite Nat2Z.inj_succ, Z.pow_succ_r by lia. done. }
  rewrite HP, num_app. fold n. unfold byte_ok in Hx.
  assert (Hone : forall y, num [y] = y) by (intros y; simpl; lia). rewrite Hone. cbn [length].
  change (256 ^ Z.of_nat 1) with 256.
  destruct (Z.eqb_spec (u8 (x + 1)) 0) as [Hz|Hz]; unfold u8 in *; cbn [length rev].
  - assert (x = 255) by (destruct (Z.eq_dec x 255); [done|rewrite Z.mod_small in Hz by lia; lia]). subst x.
    split; [apply bytes_ok_cons; split; [apply u8_byte|done]|]. split; [lia|].
    rewrite num_app, Hone, Hz, IH3. cbn [length]. change (256 ^ Z.of_nat 1) with 256.
    replace (n * 256 + 255 + 1) with (256 * (n + 1)) by lia.
    rewrite Z.mul_mod_distr_l by lia. lia.
  - assert (x <> 255) by (intros ->; done). rewrite Z.mod_small in * by lia.
    split; [apply bytes_ok_cons; split; [unfold byte_ok; lia|done]|]. split; [done|].
    rewrite num_app, Hone. cbn [length]. change (256 ^ Z.of_nat 1) with 256. fold n.
    rewrite Z.mod_small; [lia|]. nia.
Qed.

Lemma nextLSPID_num (id : LSPID) :
  arr 8 id -> arr 8 (nextLSPID id) /\ num (nextLSPID id) = (num id + 1) mod 2 ^ 64.
Proof.
  intros [Hl Hb]. unfold nextLSPID.
  destruct (incr_rev_spec (rev id) ltac:(by apply Forall_rev)) as (H1 & H2 & H3).
  rewrite length_rev, Hl in *. split.
  - split; [by rewrite length_rev|by apply Forall_rev].
  - rewrite H3, rev_involutive. done.
Qed.

Lemma zeroLSPID_arr : arr 8 zeroLSPID.
Proof. split; [done|]. eval_octets. Qed.
Lemma onesLSPID_arr : arr 8 onesLSPID.
Proof. split; [done|]. eval_octets. Qed.
Lemma num_ones : num onesLSPID = 2 ^ 64 - 1. Proof. reflexivity. Qed.
Lemma num_zero : num zeroLSPID = 0. Proof. reflexivity. Qed.

(** ** Chunks *)

Lemma chunk_fuel_spec {A} (n k : nat) (l : list A) :
  (0 < k)%nat -> (length l <= n)%nat ->
  concat (chunk_fuel n k l) = l /\ Forall (fun c => (0 < length c <= k)%nat) (chunk_fuel n k l).
Proof.
  intros Hk. revert l. induction n as [|n IH]; intros [|x l] Hl; cbn [chunk_fuel concat]; try (by split); [cbn [length] in Hl; lia|].
  destruct (IH (drop k (x :: l))) as [IH1 IH2].
  { rewrite length_drop. cbn [length] in *. lia. }
  split; [rewrite IH1; apply take_drop|]. constructor; [|done].
  rewrite length_take. cbn [length] in *. lia.
Qed.

Lemma chunkEntries_spec (es : list LSPEntry) :
  concat (chunkEntries es) = es /\ Forall (fun c => (0 < length c <= MaxLSPEntriesPerTLV)%nat) (chunkEntries es).
Proof. apply chunk_fuel_spec; [apply Nat.ltb_lt; reflexivity|lia]. Qed.

Lemma concatM_cons {A} (enc : A -> outcome bytes) (x : A) (xs : list A) :
  concatM enc (x :: xs) = (e ← enc x; es ← concatM enc xs; mret (e ++ es)).
Proof. reflexivity. Qed.

(** A chunk fills one TLV of at most 242 octets. *)
Lemma entries_encode (es : list LSPEntry) :
  Forall (fun e => length (LE_LSPID e) = 8%nat) es ->
  exists b, concatM lspEntry_encode es = Ok b /\ length b = (16 * length es)%nat.
Proof.
  induction 1 as [|e es He Hes (b & Hb & Hl)]; [by exists []|]. rewrite concatM_cons, Hb.
  cbn [lspEntry_encode mbind outcome_bind mret outcome_ret]. eexists. split; [done|].
  rewrite !length_app, He, Hl. simpl. lia.
Qed.

Lemma chunk_TLV (chunk : list LSPEntry) :
  Forall (fun e => length (LE_LSPID e) = 8%nat) chunk -> (length chunk <= 15)%nat ->
  exists b, TLV_Serialize (LSPEntriesTLV chunk) = Ok b /\ length b = (2 + 16 * length chunk)%nat.
Proof.
  intros He Hl. destruct (entries_encode chunk He) as (v & Hv & Hvl). unfold TLV_Serialize. cbn [TLV_value].
  unfold LSPEntries_value. rewrite (proj2 (Nat.ltb_ge _ _)) by (change MaxLSPEntriesPerTLV with 15%nat; lia).
  rewrite Hv. cbn [mbind outcome_bind]. unfold encodeTLV. rewrite (proj2 (Nat.ltb_ge _ _)) by lia.
  eexists. split; [done|]. cbn [length]. lia.
Qed.

(** ** The packing loop *)

Fixpoint chain (from : Z) (ps : list piece) (to : Z) : Prop :=
  match ps with
  | [] => from = to
  | p :: ps => num (pc_start p) = from /\ from <= num (pc_end p) /\ chain (num (pc_end p) + 1) ps to
  end.

Lemma chain_snoc from ps p to :
  chain from ps (num (pc_start p)) -> num (pc_start p) <= num (pc_end p) -> num (pc_end p) + 1 = to ->
  chain from (ps ++ [p]) to.
Proof.
  revert from. induction ps as [|q ps IH]; intros from; cbn [chain app].
  - intros <- Hle <-. done.
  - intros (H1 & H2 & H3) Hle Hto. split; [done|]. split; [done|]. by apply IH.
Qed.

(** A piece whose entries lie in its range and whose TLVs fit the budget. *)
Definition piece_entries (p : piece) : list LSPEntry := concat (pc_chunks p).

Definition piece_ok (budget : Z) (p : piece) : Prop :=
  arr 8 (pc_start p) /\ arr 8 (pc_end p) /\
  Forall (fun e => arr 8 (LE_LSPID e) /\ num (pc_start p) <= num (LE_LSPID e) <= num (pc_end p)) (piece_entries p) /\
  exists b, serializeTLVs (LSPEntriesTLV <$> pc_chunks p) = Ok b /\ Z.of_nat (length b) <= budget.

(** Entries by strictly increasing LSP ID. *)
Definition increasing (es : list LSPEntry) : Prop :=
  StronglySorted (fun a b => num (LE_LSPID a) < num (LE_LSPID b)) es /\ Forall (fun e => arr 8 (LE_LSPID e)) es.

Record packed (budget : Z) (k : packing) (pre : list LSPEntry) : Prop := {
  pk_start_arr : arr 8 (pk_start k);
  pk_out_ok : Forall (piece_ok budget) (pk_out k);
  pk_chain : chain 0 (pk_out k) (num (pk_start k));
  pk_entries : concat (piece_entries <$> pk_out k) ++ concat (pk_chunks k) = pre;
  pk_above : Forall (fun e => num (pk_start k) <= num (LE_LSPID e)) (concat (pk_chunks k));
  pk_bytes : exists b, serializeTLVs (LSPEntriesTLV <$> pk_chunks k) = Ok b /\ length b = pk_size k;
  pk_fits : Z.of_nat (pk_size k) <= budget;
  pk_last_ok : pk_chunks k = [] \/
    exists e, last pre = Some e /\ pk_last k = LE_LSPID e /\ num (pk_start k) <= num (LE_LSPID e)
}.

Lemma serializeTLVs_snoc (ts : list TLV) (t : TLV) (b c : bytes) :
  serializeTLVs ts = Ok b -> TLV_Serialize t = Ok c -> serializeTLVs (ts ++ [t]) = Ok (b ++ c).
Proof.
  intros Hb Hc. unfold serializeTLVs in *. revert b Hb. induction ts as [|x ts IH]; intros b Hb.
  - injection Hb as <-. cbn [app]. rewrite concatM_cons, Hc. simpl. by rewrite app_nil_r.
  - apply bind_Ok in Hb as (e & He & Hb). apply bind_Ok in Hb as (es & Hes & [= <-]).
    cbn [app]. rewrite concatM_cons, He. cbn [mbind outcome_bind]. rewrite (IH es Hes). cbn [mbind outcome_bind mret outcome_ret].
    by rewrite app_assoc.
Qed.

Lemma sorted_last_max (es : list LSPEntry) (x : LSPEntry) :
  increasing es -> last es = Some x -> Forall (fun e => num (LE_LSPID e) <= num (LE_LSPID x)) es.
Proof.
  intros [Hs _] Hl. apply last_Some in Hl as [l' ->].
  induction l' as [|y l' IH]; simpl in *; [constructor; [lia|constructor]|].
  apply StronglySorted_inv in Hs as [Hs Hy]. constructor; [|by apply IH].
  apply Forall_app in Hy as [_ Hy]. inversion Hy; subst. lia.
Qed.

Lemma sorted_app_lt (es fs : list LSPEntry) (x y : LSPEntry) :
  increasing (es ++ fs) -> x ∈ es -> y ∈ fs -> num (LE_LSPID x) < num (LE_LSPID y).
Proof.
  intros [Hs _] Hx Hy. induction es as [|z es IH]; [by apply not_elem_of_nil in Hx|].
  simpl in Hs. apply StronglySorted_inv in Hs as [Hs Hz]. apply elem_of_cons in Hx as [->|Hx]; [|by apply IH].
  rewrite Forall_forall in Hz. apply Hz. apply elem_of_app. by right.
Qed.

Lemma increasing_app_l (es fs : list LSPEntry) : increasing (es ++ fs) -> increasing es.
Proof.
  intros [Hs Ha]. apply Forall_app in Ha as [Ha _]. split; [|done].
  clear Ha. induction es as [|z es IH]; [constructor|]. simpl in Hs.
  apply StronglySorted_inv in Hs as [Hs Hz]. constructor; [by apply IH|]. by apply Forall_app in Hz as [? _].
Qed.

(** ** The invariant of the loop *)

Lemma tlvLen_chunk (chunk : list LSPEntry) :
  Forall (fun e => arr 8 (LE_LSPID e)) chunk -> (length chunk <= MaxLSPEntriesPerTLV)%nat ->
  exists b, TLV_Serialize (LSPEntriesTLV chunk) = Ok b /\ tlvLen (LSPEntriesTLV chunk) = Ok (length b) /\
    (length b <= 242)%nat.
Proof.
  change MaxLSPEntriesPerTLV with 15%nat. intros Ha Hl.
  destruct (chunk_TLV chunk) as (b & Hb & Hlen); [|done|].
  { eapply Forall_impl; [exact Ha|]. by intros e [? _]. }
  exists b. split; [done|]. unfold tlvLen. rewrite Hb. split; [done|]. lia.
Qed.

Lemma flush_packed (budget : Z) (k : packing) (pre : list LSPEntry) (x : LSPEntry) :
  packed budget k pre -> increasing (pre ++ [x]) -> pk_chunks k <> [] ->
  packed budget (flush k (pk_last k)) pre /\ num (pk_start (flush k (pk_last k))) <= num (LE_LSPID x).
Proof.
  intros [Hsa Hout Hch Hent Hab (b & Hb & Hbl) Hfit Hlast] Hinc Hne.
  destruct Hlast as [?|(e & Hle & Hlid & Hge)]; [done|].
  assert (Hin : e ∈ pre) by (apply last_Some_elem_of; done).
  assert (Hea : arr 8 (LE_LSPID e)).
  { pose proof (increasing_app_l _ _ Hinc) as [_ Ha]. rewrite Forall_forall in Ha. by apply Ha. }
  assert (Hxa : arr 8 (LE_LSPID x)).
  { destruct Hinc as [_ Ha]. rewrite Forall_forall in Ha. apply Ha. apply elem_of_app. right. left. }
  assert (Hlt : num (LE_LSPID e) < num (LE_LSPID x)).
  { apply (sorted_app_lt pre [x]); [done|done|left]. }
  pose proof (num_range (LE_LSPID x) (proj2 Hxa)) as Hrx. rewrite (proj1 Hxa) in Hrx.
  pose proof (num_range (LE_LSPID e) (proj2 Hea)) as Hre. rewrite (proj1 Hea) in Hre.
  change (256 ^ Z.of_nat 8) with (2 ^ 64) in *.
  destruct (nextLSPID_num (LE_LSPID e) Hea) as [Hna Hnn]. rewrite Z.mod_small in Hnn by lia.
  pose proof (sorted_last_max pre e (increasing_app_l _ _ Hinc) Hle) as Hmax.
  unfold flush. rewrite Hlid. split; [|cbn [pk_start]; lia]. split; cbn [pk_start pk_out pk_chunks pk_size pk_last].
  - done.
  - apply Forall_app. split; [done|]. constructor; [|constructor].
    split; [done|]. split; [done|]. unfold piece_entries. cbn [pc_start pc_end pc_chunks]. split.
    + rewrite Forall_forall. intros y Hy.
      assert (Hyp : y ∈ pre) by (rewrite <- Hent; apply elem_of_app; by right).
      destruct (increasing_app_l _ _ Hinc) as [_ Ha].
      rewrite Forall_forall in Ha, Hab, Hmax. split; [by apply Ha|]. split; [by apply Hab|by apply Hmax].
    + exists b. split; [done|]. rewrite Hbl. done.
  - apply chain_snoc; cbn [pc_start pc_end]; [done|done|]. lia.
  - rewrite fmap_app, concat_app. cbn [fmap list_fmap concat]. unfold piece_entries at 2. cbn [pc_chunks].
    by rewrite !app_nil_r.
  - constructor.
  - by exists [].
  - lia.
  - by left.
Qed.

(** Adding a chunk that fits keeps the invariant. *)
Lemma add_packed (budget : Z) (k : packing) (pre chunk : list LSPEntry) (c : bytes) :
  packed budget k pre -> increasing (pre ++ chunk) -> chunk <> [] ->
  TLV_Serialize (LSPEntriesTLV chunk) = Ok c -> Z.of_nat (pk_size k + length c) <= budget ->
  Forall (fun e => num (pk_start k) <= num (LE_LSPID e)) chunk ->
  packed budget (mkPacking (pk_chunks k ++ [chunk]) (pk_size k + length c) (pk_start k) (last_id chunk) (pk_out k))
    (pre ++ chunk).
Proof.
  intros [Hsa Hout Hch Hent Hab (b & Hb & Hbl) Hfit Hlast] Hinc Hne Hc Hf Hst.
  split; cbn [pk_start pk_out pk_chunks pk_size pk_last]; [done|done|done|..].
  - rewrite concat_app. cbn [concat]. by rewrite app_nil_r, app_assoc, Hent.
  - rewrite concat_app. apply Forall_app. split; [done|]. cbn [concat]. by rewrite app_nil_r.
  - rewrite fmap_app. cbn [fmap list_fmap]. exists (b ++ c). split; [by apply serializeTLVs_snoc|].
    rewrite length_app. lia.
  - done.
  - right. destruct (last chunk) as [e|] eqn:El; [|by apply last_None in El].
    exists e. rewrite last_app, El. unfold last_id. rewrite El. split; [done|]. split; [done|].
    rewrite Forall_forall in Hst. apply Hst. by apply last_Some_elem_of.
Qed.

Lemma increasing_head_le (pre : list LSPEntry) (x : LSPEntry) (chunk : list LSPEntry) :
  increasing (pre ++ x :: chunk) -> Forall (fun e => num (LE_LSPID x) <= num (LE_LSPID e)) (x :: chunk).
Proof.
  intros Hinc. constructor; [lia|]. rewrite Forall_forall. intros y Hy.
  assert (num (LE_LSPID x) < num (LE_LSPID y)); [|lia].
  apply (sorted_app_lt (pre ++ [x]) chunk); [by rewrite <- app_assoc| |done].
  apply elem_of_app. right. left.
Qed.

Lemma pack_step_packed (budget : Z) (k : packing) (pre chunk : list LSPEntry) :
  242 <= budget -> packed budget k pre -> (pk_chunks k = [] -> num (pk_start k) = 0) ->
  increasing (pre ++ chunk) -> (0 < length chunk <= MaxLSPEntriesPerTLV)%nat ->
  exists k', pack_step budget k chunk = Ok k' /\ packed budget k' (pre ++ chunk) /\ pk_chunks k' <> [].
Proof.
  intros Hbud Hk Hzero Hinc Hlen. unfold pack_step.
  assert (Hca : Forall (fun e => arr 8 (LE_LSPID e)) chunk) by (destruct Hinc as [_ Ha]; apply Forall_app in Ha; tauto).
  destruct (tlvLen_chunk chunk Hca) as (c & Hc & Hn & Hcl); [lia|]. rewrite Hn. cbn [mbind outcome_bind].
  destruct chunk as [|x chunk]; [simpl in Hlen; lia|].
  assert (Hincx : increasing (pre ++ [x])).
  { apply increasing_app_l with chunk. by rewrite <- app_assoc. }
  set (k1 := if _ && _ then flush k (pk_last k) else k).
  assert (H1 : packed budget k1 pre /\ num (pk_start k1) <= num (LE_LSPID x) /\
    Z.of_nat (pk_size k1 + length c) <= budget).
  { subst k1. destruct (pk_chunks k) as [|d ds] eqn:Ed.
    - rewrite andb_false_r. split; [done|]. rewrite Hzero by done.
      destruct (pk_bytes _ _ _ Hk) as (b & Hb & Hbl). rewrite Ed in Hb. injection Hb as <-. simpl in Hbl.
      rewrite <- Hbl. split; [|lia]. inversion Hca as [|? ? [_ Hxb] _]; subst.
      apply (num_range _ Hxb).
    - change (0 <? length (d :: ds))%nat with true. rewrite andb_true_r.
      destruct (Z.ltb_spec budget (Z.of_nat (pk_size k + length c))) as [Hlt|Hge].
      + destruct (flush_packed budget k pre x Hk Hincx) as [Hf Hs]; [by rewrite Ed|].
        split; [exact Hf|]. split; [exact Hs|]. cbn [flush pk_size]. lia.
      + split; [done|]. split; [|lia].
        destruct (pk_last_ok _ _ _ Hk) as [?|(e & He & _ & Hge')]; [congruence|].
        assert (num (LE_LSPID e) < num (LE_LSPID x)); [|lia].
        apply (sorted_app_lt pre [x]); [done|by apply last_Some_elem_of|left]. }
  clearbody k1. destruct H1 as (Hk1 & Hs1 & Hf1). eexists. split; [done|]. split.
  - apply add_packed; [done|done|done|done|done|].
    eapply Forall_impl; [by apply (increasing_head_le pre)|]. intros e He. cbn beta in He. lia.
  - cbn [pk_chunks]. by destruct (pk_chunks k1).
Qed.

Lemma pack_loop_packed (budget : Z) (chunks : list (list LSPEntry)) (k : packing) (pre : list LSPEntry) :
  242 <= budget -> packed budget k pre -> (pk_chunks k = [] -> num (pk_start k) = 0) ->
  increasing (pre ++ concat chunks) ->
  Forall (fun c => (0 < length c <= MaxLSPEntriesPerTLV)%nat) chunks ->
  exists k', pack_loop budget k chunks = Ok k' /\ packed budget k' (pre ++ concat chunks) /\
    (pk_chunks k' = [] -> num (pk_start k') = 0).
Proof.
  intros Hbud Hk Hz Hinc Hc. revert k pre Hk Hz Hinc. induction Hc as [|c chunks Hc Hcs IH]; intros k pre Hk Hz Hinc.
  - exists k. cbn [concat]. by rewrite app_nil_r.
  - cbn [concat] in *. rewrite app_assoc in *.
    destruct (pack_step_packed budget k pre c Hbud Hk Hz) as (k1 & H1 & Hk1 & Hne); [|done|].
    { by apply increasing_app_l with (concat chunks). }
    cbn [pack_loop]. rewrite H1. cbn [mbind outcome_bind]. by apply IH.
Qed.

(** The pieces of an increasing list of entries: a chain of ranges from the
    first LSP ID to the last, holding the entries in order. *)
Lemma csnpPieces_spec (budget : Z) (es : list LSPEntry) :
  242 <= budget -> increasing es ->
  exists ps, csnpPieces budget es = Ok ps /\ chain 0 ps (2 ^ 64) /\ Forall (piece_ok budget) ps /\
    concat (piece_entries <$> ps) = es.
Proof.
  intros Hbud Hinc. destruct (chunkEntries_spec es) as [Hcat Hch]. unfold csnpPieces.
  destruct (pack_loop_packed budget (chunkEntries es) (mkPacking [] 0 zeroLSPID zeroLSPID []) [])
    as (k & Hk & [Hsa Hout Hchain Hent Hab (b & Hb & Hbl) Hfit Hlast] & Hz).
  - done.
  - split; cbn; try done; [apply zeroLSPID_arr|by exists []|lia|by left].
  - done.
  - by rewrite Hcat.
  - done.
  - rewrite Hcat in *. cbn [app] in *. rewrite Hk. cbn [mbind outcome_bind mret outcome_ret]. eexists. split; [done|].
    cbn [flush pk_out]. pose proof (num_range _ (proj2 Hsa)) as Hr. rewrite (proj1 Hsa) in Hr.
    change (256 ^ Z.of_nat 8) with (2 ^ 64) in Hr. split; [|split].
    + apply chain_snoc; cbn [pc_start pc_end]; [done|rewrite num_ones; lia|by rewrite num_ones].
    + apply Forall_app. split; [done|]. constructor; [|constructor]. split; [done|].
      split; [apply onesLSPID_arr|]. unfold piece_entries. cbn [pc_start pc_end pc_chunks]. split.
      * rewrite Forall_forall in Hab |- *. intros e He. destruct Hinc as [_ Ha]. rewrite Forall_forall in Ha.
        assert (Hea : arr 8 (LE_LSPID e)) by (apply Ha; rewrite <- Hent; apply elem_of_app; by right).
        split; [done|]. split; [by apply Hab|]. pose proof (num_range _ (proj2 Hea)) as Hre.
        rewrite (proj1 Hea) in Hre. change (256 ^ Z.of_nat 8) with (2 ^ 64) in Hre. rewrite num_ones. lia.
      * exists b. split; [done|]. lia.
    + rewrite fmap_app, concat_app. cbn [fmap list_fmap concat]. unfold piece_entries at 2. cbn [pc_chunks].
      by rewrite app_nil_r.
Qed.
