(* ===== verification/UpdateSpec.v ===== *)
(** The properties of the update process (flooding.go, receiving half, with
    lifetime.go): what a received LSP can and cannot do to the database, and
    what is flooded and acknowledged. *)

From S2P Require Import Prelude.
From S2P Require Import Netip.
From S2P Require Import Ids.
From S2P Require Import Sid.
From S2P Require Import SubTLV.
From S2P Require Import Entries.
From S2P Require Import Tlv.
From S2P Require Import Checksum.
From S2P Require Import Pdu.
From S2P Require Import Auth.
From S2P Require Import Circuit.
From S2P Require Import Lsdb.
From S2P Require Import EdgeLog.
From S2P Require Import Server.
From S2P Require Import Lifetime.
From S2P Require Import Flooding.
From S2P Require Import PacketSpec.
Local Open Scope Z_scope.

(** ** A small server

    Two point-to-point circuits at level 2, unauthenticated, an empty database
    capped at two LSPs. *)

Definition sample_cfg (name : string) (p2p : bool) : CircuitConfig :=
  mkCircuitConfig name (mkTransport [2; 0; 0; 0; 0; 9] 1500) p2p false true None (3 * Second) 10 10 [] [] []
    None None [] AuthMD5 0 [].

Definition sample_server : Server :=
  mkServer [2; 0; 0; 0; 0; 9] [[73; 0; 1]] 4 ∅ 2
    [newCircuit (sample_cfg "eth0" true) 1 1; newCircuit (sample_cfg "eth1" true) 2 2]
    {[ Level2 := ∅ ]} false false zeroTime ∅ 1492 zeroTime false ∅ ∅ ∅ ∅ ∅ ∅ false [].

Definition sample_circuit (i : nat) (s : Server) : circuit :=
  match circuits s !! i with Some c => c | None => newCircuit (sample_cfg "none" true) 0 0 end.

(** The sample LSP of PacketSpec as it is decoded from the wire. *)
Definition received_lsp : LSP := set_checksum sample_lsp sample_sum.

Definition or_self (s : Server) (m : outcome Server) : Server := match m with Ok s' => s' | _ => s end.

Definition after_first : Server :=
  or_self sample_server
    (processLSP toy_hmac 0 sample_server 0 (sample_circuit 0 sample_server) sample_bytes received_lsp None 0).

(** ** Stored sequence numbers *)

(** Every stored sequence number is a 32-bit one, as the wire carries it. *)
Definition seqs_ok (s : Server) : Prop :=
  forall l id e, db_get s l id = Some e -> u32_ok (SequenceNumber (e_lsp e)).

Lemma db_get_alter s s' l id e l' id' :
  dbs s' = alter (<[id := e]>) l (dbs s) ->
  db_get s' l' id' =
  if decide (l = l' /\ id = id' /\ is_Some (dbs s !! l)) then Some e else db_get s l' id'.
Proof. intros E. rewrite <- db_get_put. unfold db_get, db_put. by rewrite E. Qed.

Lemma writes_get l id P s s' l' id' :
  writes l id P s s' -> (l', id') <> (l, id) -> db_get s' l' id' = db_get s l' id'.
Proof.
  intros [E|(e & E & _)] Hne; [unfold db_get; by rewrite E|].
  rewrite (db_get_alter _ _ _ _ _ _ _ E), decide_False; [done|]. intros (-> & -> & _). done.
Qed.

Lemma seqs_ok_empty (s : Server) : (forall l db, dbs s !! l = Some db -> db = ∅) -> seqs_ok s.
Proof.
  intros H l id e He. unfold db_get in He. destruct (dbs s !! l) as [db|] eqn:E; [|done].
  rewrite (H l db E) in He. simpl in He. by rewrite lookup_empty in He.
Qed.

Lemma sample_seqs_ok : seqs_ok sample_server.
Proof.
  apply seqs_ok_empty. intros l db H. cbn [sample_server dbs] in H.
  apply lookup_singleton_Some in H as [_ <-]. done.
Defined.

Section Update.
Context (hmac : AuthAlgorithm -> bytes -> bytes -> bytes).
Context (rand : Z).

(** C3: a received LSP can write only the database entry of its own level and
    LSP ID, and can neither remove that entry nor move its sequence number
    backwards: what the database knows of an originator only advances. *)
Theorem processLSP_monotone s i c raw lsp adj now s' :
  seqs_ok s -> u32_ok (SequenceNumber lsp) ->
  processLSP hmac rand s i c raw lsp adj now = Ok s' ->
  seqs_ok s' /\
  (forall l id, (l, id) <> (LSP_Level lsp, LSP_LSPID lsp) -> db_get s' l id = db_get s l id) /\
  (forall l id e, db_get s l id = Some e ->
    exists e', db_get s' l id = Some e' /\ SequenceNumber (e_lsp e) <= SequenceNumber (e_lsp e')).
Proof using.
  intros Hs Hu H. destruct (processLSP_writes hmac rand s i c raw lsp adj now s' Hu) as [Hw _];
    [by apply Hs|done|].
  assert (Hmono : forall l id e, db_get s l id = Some e ->
    exists e', db_get s' l id = Some e' /\ SequenceNumber (e_lsp e) <= SequenceNumber (e_lsp e')).
  { intros l id e He. destruct Hw as [E|(x & E & Hx)].
    - exists e. unfold db_get in *. rewrite E. split; [done|lia].
    - rewrite (db_get_alter _ _ _ _ _ _ _ E). case_decide as Hd; [|exists e; split; [done|lia]].
      destruct Hd as (<- & <- & _). exists x. split; [done|]. by apply Hx. }
  split; [|split; [|exact Hmono]].
  - intros l id e He. destruct Hw as [E|(x & E & Hx)].
    + unfold db_get in He. rewrite E in He. by apply (Hs l id).
    + rewrite (db_get_alter _ _ _ _ _ _ _ E) in He. case_decide; [|by apply (Hs l id)].
      injection He as <-. apply Hx.
  - intros l id Hne. by eapply writes_get.
Qed.

(** The entry limit holds against any LSP: where the limit is on, no
    received LSP takes a level's database past it. *)
Theorem processLSP_limit s i c raw lsp adj now s' :
  0 < lsdbEntryLimit s -> seqs_ok s -> u32_ok (SequenceNumber lsp) ->
  (forall l db, dbs s !! l = Some db -> Z.of_nat (size db) <= lsdbEntryLimit s) ->
  processLSP hmac rand s i c raw lsp adj now = Ok s' ->
  forall l db, dbs s' !! l = Some db -> Z.of_nat (size db) <= lsdbEntryLimit s.
Proof using.
  intros Hlim Hs Hu Hb H l db Hdb.
  destruct (processLSP_writes hmac rand s i c raw lsp adj now s' Hu) as [Hw Hn]; [by apply Hs|done|].
  destruct Hw as [E|(e & E & _)]; [rewrite E in Hdb; by apply (Hb l)|].
  destruct (db_get s (LSP_Level lsp) (LSP_LSPID lsp)) as [x|] eqn:Hx.
  - rewrite E, lookup_alter in Hdb. case_decide as Hl; [subst l|by apply (Hb l)].
    unfold db_get in Hx. destruct (dbs s !! LSP_Level lsp) as [d|] eqn:Hd; [|done].
    injection Hdb as <-. simpl in Hx. rewrite map_size_insert_Some by eauto. by apply (Hb (LSP_Level lsp)).
  - destruct (Hn eq_refl) as [E'|[_ Hroom]]; [rewrite E' in Hdb; by apply (Hb l)|].
    rewrite E, lookup_alter in Hdb. case_decide as Hl; [subst l|by apply (Hb l)].
    destruct (dbs s !! LSP_Level lsp) as [d|] eqn:Hd; [|done]. injection Hdb as <-.
    specialize (Hroom Hlim d eq_refl). unfold db_get in Hx. rewrite Hd in Hx. simpl in Hx.
    rewrite map_size_insert_None by done. lia.
Qed.

(** What [processLSP] requires of an LSP before it installs it: a checksum
    over the octets received unless it is a purge, a copy newer than the
    stored one, and for an unknown ID a live LSP and room for it. *)
Definition acceptable (s : Server) (raw : bytes) (lsp : LSP) (db : lsdb) (now : Z) : Prop :=
  (RemainingTime lsp <> 0 -> LSPChecksumValidRaw raw = Ok true) /\
  newer (SequenceNumber lsp) (RemainingTime lsp) (db !! LSP_LSPID lsp) now = true /\
  (db !! LSP_LSPID lsp = None -> RemainingTime lsp <> 0 /\
    (0 < lsdbEntryLimit s -> Z.of_nat (size db) < lsdbEntryLimit s)).

Lemma checksum_gate (r : Z) (raw : bytes) :
  (r <> 0 -> LSPChecksumValidRaw raw = Ok true) ->
  (if r =? 0 then Ok false else valid ← LSPChecksumValidRaw raw; Ok (negb valid)) = Ok false.
Proof using. intros H. destruct (Z.eqb_spec r 0) as [|Hr]; [done|]. by rewrite H. Qed.

Lemma processLSP_acceptable s i c raw lsp adj now db :
  dbs s !! LSP_Level lsp = Some db -> acceptable s raw lsp db now ->
  processLSP hmac rand s i c raw lsp adj now =
  let s := if bool_decide (db !! LSP_LSPID lsp = None)
           then set_limitWarned s (edge_clear (LSP_Level lsp) (lsdbLimitWarned s)) else s in
  '(consumed, s) ← handleOwnSystemID hmac rand s c lsp (db !! LSP_LSPID lsp) now;
  if consumed : bool then mret s else mret (install s i c raw lsp adj now).
Proof using.
  intros Hdb (Hck & Hnew & Hnone). unfold processLSP. rewrite Hdb, checksum_gate, Hnew by done.
  cbn [negb mbind outcome_bind].
  destruct (bool_decide (db !! LSP_LSPID lsp = None)) eqn:Eb; cbn [andb]; [|done].
  apply bool_decide_eq_true in Eb. destruct (Hnone Eb) as [Hr Hroom].
  rewrite (proj2 (Z.eqb_neq _ _)) by done.
  destruct (Z.ltb_spec 0 (lsdbEntryLimit s)); cbn [andb]; [|done].
  rewrite (proj2 (Z.leb_gt _ _)) by auto. done.
Qed.

(** C4: an acceptable LSP of another system is installed and flooded: the
    database holds exactly the octets received, aged from at least MaxAge
    (RFC 7987) unless it is a purge; every other circuit of the level has it
    flagged for transmission with no acknowledgement of the old copy pending;
    the circuit it arrived on does not echo it and, on a point-to-point link,
    acknowledges it; and SPF is asked to run. *)
Theorem processLSP_installs s i c raw lsp adj now db :
  circuits s !! i = Some c -> dbs s !! LSP_Level lsp = Some db -> acceptable s raw lsp db now ->
  NodeID_SystemID (LSPID_NodeID (LSP_LSPID lsp)) <> systemID s ->
  exists s', processLSP hmac rand s i c raw lsp adj now = Ok s' /\
    (exists e, db_get s' (LSP_Level lsp) (LSP_LSPID lsp) = Some e /\
      e_raw e = raw /\ e_lsp e = lsp /\ e_own e = false /\ e_inserted e = now /\
      if decide (RemainingTime lsp = 0) then e_lifetime e = 0 /\ e_purgedAt e = Some now
      else e_lifetime e = Z.max (RemainingTime lsp) maxAgeSeconds /\ e_purgedAt e = None) /\
    spfDirty s' = true /\
    (forall j cj, j <> i -> circuits s !! j = Some cj -> runs cj (LSP_Level lsp) ->
      exists cj', circuits s' !! j = Some cj' /\
        srm_at cj' (LSP_Level lsp) (LSP_LSPID lsp) = Some now /\
        ~ ssn_has cj' (LSP_Level lsp) (LSP_LSPID lsp)) /\
    (exists c', circuits s' !! i = Some c' /\
      srm_at c' (LSP_Level lsp) (LSP_LSPID lsp) = None /\
      (runs c (LSP_Level lsp) -> P2P (cfg c) = true -> ssn_has c' (LSP_Level lsp) (LSP_LSPID lsp))).
Proof using.
  intros Hc Hdb Hacc Hid. rewrite (processLSP_acceptable _ _ _ _ _ _ _ db Hdb Hacc). cbn zeta.
  set (s1 := if bool_decide _ then _ else s).
  assert (E : dbs s1 = dbs s /\ circuits s1 = circuits s /\ systemID s1 = systemID s).
  { subst s1. by destruct (bool_decide _). }
  clearbody s1. destruct E as (Ed & Ec & Ei).
  unfold handleOwnSystemID. rewrite bool_decide_false by by rewrite Ei. cbn [negb mbind outcome_bind mret outcome_ret].
  eexists. split; [done|]. split; [|split; [apply spfDirty_install|]].
  - eexists. unfold db_get. rewrite dbs_install, Ed, lookup_alter, decide_True, Hdb by done. simpl.
    rewrite lookup_insert_eq. split; [done|]. cbn. do 4 (split; [done|]).
    unfold receivedLifetime. case_decide as Hr.
    + by rewrite Hr.
    + rewrite (proj2 (Z.eqb_neq _ _)) by done. done.
  - rewrite circuits_install, Ec. cbn zeta. split.
    + intros j cj Hj Hcj Hruns. exists (flood_one (LSP_Level lsp) (LSP_LSPID lsp) (Some i) now j cj).
      split; [|apply flood_one_flags; congruence].
      destruct (P2P (cfg c)); rewrite !list_lookup_alter_ne by done; by rewrite list_lookup_imap, Hcj.
    + assert (Hi : imap (flood_one (LSP_Level lsp) (LSP_LSPID lsp) (Some i) now) (circuits s) !! i = Some c).
      { rewrite list_lookup_imap, Hc. simpl. by rewrite flood_one_except. }
      destruct (P2P (cfg c)); rewrite !list_lookup_alter_eq, Hi; (eexists; split; [done|]).
      * rewrite srm_at_setSSN, srm_at_clear, decide_True by done. split; [done|].
        intros [_ Hr] _. apply ssn_has_set; [done|]. by left.
      * rewrite srm_at_clear, decide_True by done. done.
Qed.

(** What is refused leaves no mark on the database: an LSP whose checksum
    does not hold over the octets received is dropped and counted, and a
    purge of an LSP nobody here knows is never stored, only acknowledged on a
    point-to-point link with the header it arrived with. *)
Theorem processLSP_refuses s i c raw lsp adj now db :
  circuits s !! i = Some c -> dbs s !! LSP_Level lsp = Some db ->
  (RemainingTime lsp <> 0 -> LSPChecksumValidRaw raw = Ok false ->
    processLSP hmac rand s i c raw lsp adj now = Ok (emit s (PDUDrop (Name (cfg c)) dropChecksum))) /\
  (RemainingTime lsp = 0 -> db !! LSP_LSPID lsp = None ->
    exists s', processLSP hmac rand s i c raw lsp adj now = Ok s' /\ dbs s' = dbs s /\
      (P2P (cfg c) = true -> runs c (LSP_Level lsp) -> is_Some (ssnAck c !! LSP_Level lsp) ->
        exists c', circuits s' !! i = Some c' /\ ssn_has c' (LSP_Level lsp) (LSP_LSPID lsp) /\
          ssnAck c' !! LSP_Level lsp ≫= lookup (LSP_LSPID lsp) =
            Some (mkLSPEntry 0 (LSP_LSPID lsp) (SequenceNumber lsp) (checksum lsp)))).
Proof using.
  intros Hc Hdb. unfold processLSP. rewrite Hdb. split.
  - intros Hr Hck. rewrite (proj2 (Z.eqb_neq _ _)), Hck by done. done.
  - intros Hr Hn. rewrite Hr, Hn. cbn [Z.eqb mbind outcome_bind mret outcome_ret newer negb].
    rewrite bool_decide_true by done. cbn [andb]. eexists. split; [done|].
    destruct (P2P (cfg c)); [|done]. split; [done|]. intros _ [_ Hssn] Hack.
    eexists. split; [rewrite lookup_upd, decide_True by done; cbn [emit set_trace circuits]; by rewrite Hc|].
    unfold setSSNAck. destruct Hack as [m Hm]. rewrite Hm. cbn [LE_LSPID]. split.
    + apply ssn_has_set; [done|]. by left.
    + cbn [setSSN set_flags ssnAck]. rewrite lookup_at_level, decide_True, Hm by done. simpl.
      apply lookup_insert_eq.
Qed.

(** An LSP older than the stored copy draws that copy back: the arrival
    circuit has it flagged for transmission, nothing is acknowledged, and the
    database is untouched.  The same holds of a live copy of an LSP held here
    as a purge of the same sequence number. *)
Theorem processLSP_older s i c raw lsp adj now db e :
  circuits s !! i = Some c -> runs c (LSP_Level lsp) -> dbs s !! LSP_Level lsp = Some db ->
  db !! LSP_LSPID lsp = Some e -> LSPChecksumValidRaw raw = Ok true ->
  SequenceNumber lsp < SequenceNumber (e_lsp e) \/
  (SequenceNumber lsp = SequenceNumber (e_lsp e) /\ remaining e now = 0 /\ RemainingTime lsp <> 0) ->
  exists s' c', processLSP hmac rand s i c raw lsp adj now = Ok s' /\ dbs s' = dbs s /\
    circuits s' !! i = Some c' /\ srm_at c' (LSP_Level lsp) (LSP_LSPID lsp) = Some now /\
    ~ ssn_has c' (LSP_Level lsp) (LSP_LSPID lsp).
Proof using.
  intros Hc Hruns Hdb He Hck Hold. unfold processLSP. rewrite Hdb, checksum_gate, He by auto.
  assert (Hn : newer (SequenceNumber lsp) (RemainingTime lsp) (Some e) now = false).
  { destruct (newer _ _ _ _) eqn:En; [|done]. apply newer_seq in En. lia. }
  rewrite Hn. cbn [mbind outcome_bind negb]. unfold not_newer.
  set (f := fun c => clearSSN (setSRM c (LSP_Level lsp) (LSP_LSPID lsp) now) (LSP_Level lsp) (LSP_LSPID lsp)).
  assert (Hres : exists s' c', Ok (upd_circuit s i f) = Ok s' /\ dbs s' = dbs s /\
    circuits s' !! i = Some c' /\ srm_at c' (LSP_Level lsp) (LSP_LSPID lsp) = Some now /\
    ~ ssn_has c' (LSP_Level lsp) (LSP_LSPID lsp)).
  { exists (upd_circuit s i f), (f c). split; [done|]. split; [done|].
    rewrite lookup_upd, decide_True, Hc by done. split; [done|]. subst f. cbn beta. split.
    - rewrite srm_at_clearSSN, srm_at_set by apply Hruns. by rewrite decide_True.
    - rewrite ssn_has_clear. tauto. }
  destruct (Z.ltb_spec (SequenceNumber lsp) (SequenceNumber (e_lsp e))); [exact Hres|].
  destruct Hold as [?|(Hs & Hz & Hr)]; [lia|]. rewrite Hs, Z.eqb_refl, Hz. cbn [Z.eqb andb].
  rewrite (proj2 (Z.eqb_neq _ _)) by done. exact Hres.
Qed.

(** A newer copy of an LSP this node is originating is reclaimed, not
    accepted: unless its sequence number is the last one, the database holds
    this node's own body under the next sequence number, at full lifetime, and
    every circuit of the level (the arrival circuit included) has it flagged
    for transmission. *)
Theorem processLSP_reclaims s i c raw lsp adj now db e raw' own' :
  circuits s !! i = Some c -> dbs s !! LSP_Level lsp = Some db -> acceptable s raw lsp db now ->
  db !! LSP_LSPID lsp = Some e -> e_own e = true -> e_purgedAt e = None ->
  ownsLSP s (LSP_Level lsp) (LSP_LSPID lsp) = true -> 0 <= SequenceNumber lsp < maxLSPSeq ->
  serializeLSP hmac s (resequenced (e_lsp e) (SequenceNumber lsp + 1)) = Ok (raw', own') ->
  exists s', processLSP hmac rand s i c raw lsp adj now = Ok s' /\
    db_get s' (LSP_Level lsp) (LSP_LSPID lsp) =
      Some (mkLspEntry own' raw' now maxAgeSeconds true None (refreshDeadline now rand)) /\
    SequenceNumber own' = SequenceNumber lsp + 1 /\ LSP_TLVs own' = LSP_TLVs (e_lsp e) /\
    forall j cj, circuits s !! j = Some cj -> runs cj (LSP_Level lsp) ->
      exists cj', circuits s' !! j = Some cj' /\ srm_at cj' (LSP_Level lsp) (LSP_LSPID lsp) = Some now.
Proof using.
  intros Hc Hdb Hacc He Hown Hp Howns Hseq Hser.
  rewrite (processLSP_acceptable _ _ _ _ _ _ _ db Hdb Hacc), He. cbn zeta.
  rewrite bool_decide_false by done. unfold handleOwnSystemID. rewrite Howns, Hown, Hp.
  assert (Hid : bool_decide (NodeID_SystemID (LSPID_NodeID (LSP_LSPID lsp)) = systemID s) = true).
  { unfold ownsLSP in Howns. by destruct (bool_decide _). }
  rewrite Hid, bool_decide_true by done. cbn [negb andb]. set (s1 := emit s _).
  unfold reoriginateOwn, the_db. change (dbs s1) with (dbs s). rewrite Hdb.
  cbn [mbind outcome_bind]. rewrite He. rewrite (proj2 (Z.eqb_neq _ _)) by lia.
  assert (Hu : u32 (SequenceNumber lsp + 1) = SequenceNumber lsp + 1).
  { unfold u32, maxLSPSeq in *. apply Z.mod_small. lia. }
  rewrite Hu. change (serializeLSP hmac s1) with (serializeLSP hmac s). rewrite Hser.
  cbn [unless_err mbind outcome_bind mret outcome_ret]. eexists. split; [done|].
  rewrite db_get_flood, db_get_put, decide_True by (split; [done|split; [done|]]; by exists db).
  destruct (serializeLSP_fields _ _ _ _ _ Hser) as [sum ->]. do 3 (split; [done|]).
  intros j cj Hj Hr. rewrite lookup_floodLSP. cbn [markDirty set_gen circuits db_put set_dbs].
  change (circuits s1) with (circuits s). rewrite Hj. eexists. split; [done|].
  by apply flood_one_flags.
Qed.

(** C23: the update process is total: no LSP, however malformed its claims,
    makes [processLSP] dereference a missing database or index out of range,
    given that this node's own stored bodies serialize. *)
Theorem processLSP_total s i c raw lsp adj now :
  (forall l id e, db_get s l id = Some e -> e_own e = true ->
    serializeTLVs (LSP_TLVs (e_lsp e)) <> Panic) ->
  processLSP hmac rand s i c raw lsp adj now <> Panic.
Proof using.
  intros Hown. unfold processLSP. destruct (dbs s !! LSP_Level lsp) as [db|] eqn:Hdb; [|done].
  assert (Hget : forall id, db_get s (LSP_Level lsp) id = db !! id).
  { intros id. unfold db_get. by rewrite Hdb. }
  apply bind_Panic.
  { case_match; [done|]. unfold LSPChecksumValidRaw. destruct (Nat.ltb_spec (length raw) lspHeaderLen); [done|].
    unfold lspHeaderLen in *. by rewrite from_Ok by lia. }
  intros corrupt _. destruct corrupt; [done|].
  destruct (newer _ _ _ _) eqn:En; cbn [negb].
  2:{ unfold not_newer. destruct (db !! LSP_LSPID lsp) as [e|] eqn:He; [|done].
      destruct (_ <? _); [done|]. destruct (_ && _ && _); [done|].
      destruct (_ && _); [|done]. destruct (e_own e) eqn:Ho; cbn [negb].
      - apply reoriginateOwn_nopanic; [by rewrite Hdb|]. intros x Hx. rewrite Hget, He in Hx.
        injection Hx as <-. eapply Hown; [rewrite Hget; exact He|done].
      - apply expirePurge_nopanic. }
  destruct (_ && (RemainingTime lsp =? 0)); [done|]. destruct (_ && _ && _); [done|].
  set (s1 := if bool_decide _ then _ else s).
  assert (Hs1 : dbs s1 = dbs s) by (subst s1; by destruct (bool_decide _)). clearbody s1.
  apply bind_Panic; [|by intros [[] s2]]. unfold handleOwnSystemID.
  destruct (negb _); [done|].
  destruct (ownsLSP _ _ _ && _) eqn:Eo.
  - apply bind_Panic; [|done]. apply reoriginateOwn_nopanic.
    + cbn [emit set_trace dbs]. by rewrite Hs1, Hdb.
    + intros x Hx. unfold db_get in Hx. cbn [emit set_trace dbs] in Hx. rewrite Hs1, Hdb in Hx. simpl in Hx.
      rewrite Hx in Eo. apply andb_true_iff in Eo as [_ Eo]. apply andb_true_iff in Eo as [Eo _].
      eapply Hown; [rewrite Hget; exact Hx|done].
  - destruct (_ =? 0); [done|]. apply bind_Panic.
    { unfold the_db. cbn [emit set_trace dbs]. by rewrite Hs1, Hdb. }
    intros db' _. apply bind_Panic; [apply expirePurge_nopanic|done].
Qed.

(** C24: one pass of [ageLSPs] over the database, in any order, turns a
    foreign LSP whose lifetime ran out into a header-only purge of the same
    sequence number, drops a purge held for ZeroAgeLifetime, and leaves every
    other LSP as it is (a purge that cannot be signed is the only other
    outcome, on an authenticated level). *)
Theorem ageLSPs_ages s order now s' :
  length (systemID s) = 6%nat -> NoDup order ->
  (forall l id, is_Some (db_get s l id) -> (l, id) ∈ order) ->
  ageLSPs hmac s order now = Ok s' ->
  forall l id, aged s l now (db_get s l id) (db_get s' l id).
Proof using.
  intros Hid Hnd Hall H l id. destruct (ageLSPs_spec hmac s order now s' Hid Hnd H) as [Hin Hout].
  destruct (decide ((l, id) ∈ order)) as [Hi|Hni]; [by apply Hin|].
  rewrite Hout by done. unfold aged. destruct (db_get s l id) as [e|] eqn:He; [|done].
  destruct Hni. apply Hall. by rewrite He.
Qed.
End Update.

(** ** The properties at concrete inputs *)

Lemma received_seq_ok : u32_ok (SequenceNumber received_lsp).
Proof. unfold u32_ok. cbn. lia. Defined.

Lemma sample_acceptable : acceptable sample_server sample_bytes received_lsp ∅ 0.
Proof.
  split; [by intros _; vm_compute|]. split; [by vm_compute|]. intros _. split; [done|].
  intros _. rewrite map_size_empty. cbn. lia.
Defined.

Lemma processLSP_monotone_witness :
  seqs_ok after_first /\
  (forall l id, (l, id) <> (LSP_Level received_lsp, LSP_LSPID received_lsp) ->
    db_get after_first l id = db_get sample_server l id) /\
  (forall l id e, db_get sample_server l id = Some e ->
    exists e', db_get after_first l id = Some e' /\ SequenceNumber (e_lsp e) <= SequenceNumber (e_lsp e')).
Proof.
  apply (processLSP_monotone toy_hmac 0 sample_server 0 (sample_circuit 0 sample_server) sample_bytes
    received_lsp None 0); [exact sample_seqs_ok|exact received_seq_ok|by vm_compute].
Defined.

Lemma processLSP_limit_witness :
  0 < lsdbEntryLimit sample_server /\
  forall l db, dbs after_first !! l = Some db -> Z.of_nat (size db) <= lsdbEntryLimit sample_server.
Proof.
  split; [done|].
  apply (processLSP_limit toy_hmac 0 sample_server 0 (sample_circuit 0 sample_server) sample_bytes
    received_lsp None 0); [done|exact sample_seqs_ok|exact received_seq_ok| |by vm_compute].
  intros l db H. cbn [sample_server dbs] in H. apply lookup_singleton_Some in H as [_ <-].
  rewrite map_size_empty. cbn. lia.
Defined.

Lemma processLSP_installs_witness :
  exists s', processLSP toy_hmac 0 sample_server 0 (sample_circuit 0 sample_server) sample_bytes received_lsp
      None 0 = Ok s' /\
    (exists e, db_get s' Level2 (LSP_LSPID received_lsp) = Some e /\
      e_raw e = sample_bytes /\ e_lsp e = received_lsp /\ e_own e = false /\ e_inserted e = 0 /\
      if decide (RemainingTime received_lsp = 0) then e_lifetime e = 0 /\ e_purgedAt e = Some 0
      else e_lifetime e = Z.max (RemainingTime received_lsp) maxAgeSeconds /\ e_purgedAt e = None) /\
    spfDirty s' = true /\
    (forall j cj, j <> 0%nat -> circuits sample_server !! j = Some cj -> runs cj Level2 ->
      exists cj', circuits s' !! j = Some cj' /\
        srm_at cj' Level2 (LSP_LSPID received_lsp) = Some 0 /\ ~ ssn_has cj' Level2 (LSP_LSPID received_lsp)) /\
    (exists c', circuits s' !! 0%nat = Some c' /\ srm_at c' Level2 (LSP_LSPID received_lsp) = None /\
      (runs (sample_circuit 0 sample_server) Level2 -> P2P (cfg (sample_circuit 0 sample_server)) = true ->
        ssn_has c' Level2 (LSP_LSPID received_lsp))).
Proof.
  apply (processLSP_installs toy_hmac 0 sample_server 0 (sample_circuit 0 sample_server) sample_bytes
    received_lsp None 0 ∅); [done|done|exact sample_acceptable|done].
Defined.

(** A purge of an LSP nobody knows. *)
Definition unknown_purge : LSP :=
  mkLSP Level2 0 [2; 0; 0; 0; 0; 1; 0; 0] 7 99 false false false false false false 3 [].

Lemma processLSP_refuses_witness :
  exists s', processLSP toy_hmac 0 sample_server 0 (sample_circuit 0 sample_server) [] unknown_purge None 0 = Ok s' /\
    dbs s' = dbs sample_server /\
    exists c', circuits s' !! 0%nat = Some c' /\ ssn_has c' Level2 (LSP_LSPID unknown_purge) /\
      ssnAck c' !! Level2 ≫= lookup (LSP_LSPID unknown_purge) = Some (mkLSPEntry 0 (LSP_LSPID unknown_purge) 7 99).
Proof.
  destruct (processLSP_refuses toy_hmac 0 sample_server 0 (sample_circuit 0 sample_server) [] unknown_purge
    None 0 ∅ eq_refl eq_refl) as [_ H].
  destruct (H eq_refl (lookup_empty _)) as (s' & H1 & H2 & H3). exists s'. split; [done|]. split; [done|].
  apply H3; [done|by split; eexists|by eexists].
Defined.

(** An entry for the sample LSP, and a server that holds it. *)
Definition sample_entry (seq : Z) (own : bool) : lspEntry :=
  mkLspEntry (mkLSP Level2 1200 (LSP_LSPID sample_lsp) seq 0 false false false false false false 3 []) []
    0 1200 own None (900 * Second).

Definition holding_server (e : lspEntry) : Server :=
  set_dbs sample_server {[ Level2 := {[ LSP_LSPID sample_lsp := e ]} ]}.

Lemma processLSP_older_witness :
  exists s' c', processLSP toy_hmac 0 (holding_server (sample_entry 9 false)) 0 (sample_circuit 0 sample_server)
      sample_bytes received_lsp None 0 = Ok s' /\
    dbs s' = dbs (holding_server (sample_entry 9 false)) /\ circuits s' !! 0%nat = Some c' /\
    srm_at c' Level2 (LSP_LSPID received_lsp) = Some 0 /\ ~ ssn_has c' Level2 (LSP_LSPID received_lsp).
Proof.
  apply (processLSP_older toy_hmac 0 (holding_server (sample_entry 9 false)) 0 (sample_circuit 0 sample_server)
    sample_bytes received_lsp None 0 {[ LSP_LSPID sample_lsp := sample_entry 9 false ]} (sample_entry 9 false)).
  - done.
  - by split; eexists.
  - done.
  - done.
  - by vm_compute.
  - left. cbn. lia.
Defined.

(** The same server when its own LSP ID is the one received. *)
Definition owner_server : Server :=
  let s := holding_server (sample_entry 5 true) in
  mkServer [2; 0; 0; 0; 0; 1] (areaAddrs s) (levelCap s) (authKeys s) (lsdbEntryLimit s) (circuits s) (dbs s)
    false false zeroTime ∅ 1492 zeroTime false ∅ ∅ ∅ ∅ ∅ ∅ false [].

Definition reclaimed : bytes * LSP :=
  match serializeLSP toy_hmac owner_server (resequenced (e_lsp (sample_entry 5 true)) 8) with
  | Ok r => r
  | _ => ([], sample_lsp)
  end.

Lemma processLSP_reclaims_witness :
  exists s', processLSP toy_hmac 0 owner_server 0 (sample_circuit 0 owner_server) sample_bytes received_lsp None 0 = Ok s' /\
    db_get s' Level2 (LSP_LSPID received_lsp) =
      Some (mkLspEntry reclaimed.2 reclaimed.1 0 maxAgeSeconds true None (refreshDeadline 0 0)) /\
    SequenceNumber reclaimed.2 = 8 /\ LSP_TLVs reclaimed.2 = [] /\
    forall j cj, circuits owner_server !! j = Some cj -> runs cj Level2 ->
      exists cj', circuits s' !! j = Some cj' /\ srm_at cj' Level2 (LSP_LSPID received_lsp) = Some 0.
Proof.
  apply (processLSP_reclaims toy_hmac 0 owner_server 0 (sample_circuit 0 owner_server) sample_bytes received_lsp
    None 0 {[ LSP_LSPID sample_lsp := sample_entry 5 true ]} (sample_entry 5 true) reclaimed.1 reclaimed.2).
  - done.
  - done.
  - split; [by intros _; vm_compute|]. split; [by vm_compute|]. intros H. by vm_compute in H.
  - done.
  - done.
  - done.
  - by vm_compute.
  - by vm_compute.
  - by vm_compute.
Defined.

Lemma processLSP_total_witness :
  processLSP toy_hmac 0 (holding_server (sample_entry 9 true)) 0 (sample_circuit 0 sample_server) [1; 2]
    received_lsp None 0 <> Panic.
Proof.
  apply (processLSP_total toy_hmac 0). intros l id e He _. unfold db_get in He. cbn [holding_server set_dbs dbs] in He.
  apply bind_Some in He as (db & Hdb & He). apply lookup_singleton_Some in Hdb as [_ <-].
  apply lookup_singleton_Some in He as [_ <-]. done.
Defined.

Definition aged_server : Server :=
  or_self sample_server (ageLSPs toy_hmac (holding_server (sample_entry 9 false))
    [(Level2, LSP_LSPID sample_lsp)] (1300 * Second)).

Lemma ageLSPs_ages_witness :
  is_Some (db_get (holding_server (sample_entry 9 false)) Level2 (LSP_LSPID sample_lsp)) /\
  forall l id, aged (holding_server (sample_entry 9 false)) l (1300 * Second)
    (db_get (holding_server (sample_entry 9 false)) l id) (db_get aged_server l id).
Proof.
  split; [by eexists|].
  apply (ageLSPs_ages toy_hmac (holding_server (sample_entry 9 false)) [(Level2, LSP_LSPID sample_lsp)]
    (1300 * Second)).
  - done.
  - apply NoDup_singleton.
  - intros l id [e He]. unfold db_get in He. cbn [holding_server set_dbs dbs] in He.
    apply bind_Some in He as (db & Hdb & He). apply lookup_singleton_Some in Hdb as [<- <-].
    apply lookup_singleton_Some in He as [<- _]. left.
  - by vm_compute.
Defined.

(** ** An authenticated level

    [FinalizeLSPAuth] recomputes the checksum in the octets only: the LSP kept
    beside them still carries the checksum of the unsigned octets. *)

(** What an LSP is decoded from: its level and the fields before the checksum stand in
    the first 24 octets, the checksum in the next two. *)
Lemma DecodePDU_LSP_inv (b : bytes) (p : LSP) :
  DecodePDU b = Ok (PDULSP p) ->
  (27 <= length b)%nat /\
  exists h, decodeCommonHeader b = Ok h /\ PDUType h = LSP_PDUType p /\
    be16 (take 2 (drop 10 b)) = Ok (RemainingTime p) /\ array 8 (take 8 (drop 12 b)) = Ok (LSP_LSPID p) /\
    be32 (take 4 (drop 20 b)) = Ok (SequenceNumber p) /\ be16 (take 2 (drop 24 b)) = Ok (checksum p).
Proof.
  intros H. apply bind_Ok in H as (h & Hh & H). unfold pduDecoders in H.
  assert (Hd : exists l, PDUType h = by_level l PDUTypeL1LSP PDUTypeL2LSP /\ decodeLSP l h b = Ok (PDULSP p)).
  { repeat match type of H with
    | context [if ?x =? ?k then _ else _] => destruct (Z.eqb_spec x k); [|]
    end; try done; try (by exists Level1); try (by exists Level2).
    all: repeat (apply bind_Ok in H as (? & _ & H)); discriminate. }
  destruct Hd as (l & Ht & Hd). clear H. apply bind_Ok in Hd as (b' & Hc & H).
  destruct (checkFixedHeader_inv _ _ _ _ Hc) as (_ & Hl & Eb & _). unfold lspHeaderLen in Hl.
  assert (Hcut : forall i n, (i + n <= 27)%nat -> take n (drop i b') = take n (drop i b)).
  { intros i n Hn. rewrite Eb, skipn_firstn_comm, firstn_firstn. by rewrite Nat.min_l by lia. }
  split; [lia|]. exists h. split; [done|]. rewrite !slice_Ok in H by lia. cbn [mbind outcome_bind] in H.
  rewrite !Hcut in H by lia. apply bind_Ok in H as (fl & _ & H).
  apply bind_Ok in H as (rt & Hrt & H). apply bind_Ok in H as (id & Hid & H). apply bind_Ok in H as (sq & Hsq & H).
  apply bind_Ok in H as (ck & Hck & H). apply bind_Ok in H as (ar & _ & H). apply bind_Ok in H as (ts & _ & [= <-]).
  by repeat split.
Qed.

Lemma DecodePDU_LSP_lead (b b' : bytes) (p p' : LSP) :
  DecodePDU b = Ok (PDULSP p) -> DecodePDU b' = Ok (PDULSP p') -> take 24 b' = take 24 b ->
  LSP_Level p' = LSP_Level p /\ RemainingTime p' = RemainingTime p /\ LSP_LSPID p' = LSP_LSPID p /\
  SequenceNumber p' = SequenceNumber p.
Proof.
  intros (Hl & h & Hh & Ht & H1 & H2 & H3 & _)%DecodePDU_LSP_inv (Hl' & h' & Hh' & Ht' & H1' & H2' & H3' & _)%DecodePDU_LSP_inv E.
  assert (Hcut : forall i n, (i + n <= 24)%nat -> take n (drop i b') = take n (drop i b)).
  { intros i n Hn. rewrite <- (Nat.min_l n (24 - i)) by lia. rewrite <- !firstn_firstn, <- !skipn_firstn_comm. by rewrite E. }
  rewrite Hcut in H1', H2', H3' by lia.
  rewrite <- (decodeCommonHeader_take 24) in Hh, Hh' by lia. rewrite E, Hh in Hh'. injection Hh' as <-.
  split; [|split_and!; congruence]. rewrite Ht in Ht'. unfold LSP_PDUType in Ht'.
  by destruct (LSP_Level p), (LSP_Level p').
Qed.

Lemma take_store_le (b s : bytes) (n i : nat) : (n <= i <= length b)%nat -> take n (store b i s) = take n b.
Proof.
  intros H. unfold store. rewrite take_app_le by (rewrite length_take; lia). rewrite firstn_firstn. by rewrite Nat.min_l by lia.
Qed.

(** Signing leaves what stands before the checksum as it is. *)
Lemma FinalizeLSPAuth_lead hmac (b b' : bytes) algo keyID key :
  FinalizeLSPAuth hmac b algo keyID key = Ok (Some b') -> (27 <= length b)%nat -> take 24 b' = take 24 b.
Proof.
  unfold FinalizeLSPAuth. intros H Hl. apply bind_Ok in H as ([p|] & Hp & H); [|done].
  apply bind_Ok in H as (body & _ & [= <-]). unfold PatchAuth in Hp. destruct (negb _); [done|].
  apply bind_Ok in Hp as ([[s e]|] & Hr & Hp); [|done]. apply bind_Ok in Hp as (d & _ & [= <-]).
  destruct (authDigestRange_range _ _ _ _ _ _ Hr) as (H1 & -> & H3). unfold lspHeaderLen in H1.
  assert (Hs : (s + length (take (s + digestLen algo - s) d) <= length b)%nat) by (rewrite length_take; lia).
  rewrite !take_store_le; rewrite ?length_store; rewrite ?length_store; simpl; lia || done.
Qed.

Section Echo.
Context (hmac : AuthAlgorithm -> bytes -> bytes -> bytes).
Context (rand : Z).
Context (hmac_len : forall algo key msg, newHash_ok algo = true -> length (hmac algo key msg) = digestLen algo).
Context (hmac_ok : forall algo key msg, bytes_ok (hmac algo key msg)).

Lemma LSP_Serialize_octets (p p' : LSP) (b : bytes) :
  LSP_ok p -> LSP_Serialize p = Ok (b, p') ->
  bytes_ok b /\ (27 <= length b)%nat /\ slice b 24 26 = Ok (put16 (checksum p')).
Proof using.
  intros Hok H. destruct (LSP_Serialize_inv p p' b Hok H) as (tlvs & _ & Hb & _ & -> & ->).
  destruct (lsp_ident_ok p Hok) as [Hib Hil]. pose proof (lsp_tail_ok p tlvs Hok Hb) as Htb.
  assert (Hh : length (lsp_head p tlvs) = 12%nat) by done. split; [|split].
  - destruct Hok as (Hrt & _). unfold lsp_head, len_field, putCommonHeader, LSP_PDUType.
    destruct (LSP_Level p); cbn [by_level]; octets; split; by vm_compute.
  - rewrite !length_app, Hil, Hh. simpl. lia.
  - rewrite slice_Ok by (rewrite !length_app, Hil, Hh; simpl; lia).
    rewrite drop_app_ge by (rewrite Hh; lia). rewrite Hh. change (24 - 12)%nat with 12%nat.
    rewrite drop_app_length' by done. by rewrite take_app_length'.
Qed.

(** What [serializeLSP] returns: octets with a valid checksum that begin as the
    unsigned ones do, and the LSP with the checksum of the unsigned ones. *)
Lemma serializeLSP_octets s (lsp kept : LSP) raw :
  LSP_ok lsp -> serializeLSP hmac s lsp = Ok (raw, kept) ->
  LSPChecksumValidRaw raw = Ok true /\
  exists raw0, LSP_Serialize lsp = Ok (raw0, kept) /\ length raw = length raw0 /\ take 24 raw = take 24 raw0 /\
    slice raw0 24 26 = Ok (put16 (checksum kept)) /\ (spec_on (authKey s (LSP_Level lsp)) = false -> raw = raw0).
Proof using hmac_len hmac_ok.
  intros Hok H. unfold serializeLSP in H. apply bind_Ok in H as ([raw0 q] & Hs & H).
  destruct (LSP_Serialize_octets _ _ _ Hok Hs) as (Hb & Hl & Hck).
  assert (Hlv : LSP_Level q = LSP_Level lsp) by (by destruct (LSP_Serialize_fields _ _ _ Hs) as [sum ->]).
  rewrite Hlv in H. destruct (spec_on _) eqn:Eon.
  - apply bind_Ok in H as ([r|] & Hf & H); [|done]. injection H as <- <-.
    destruct (FinalizeLSPAuth_valid hmac hmac_len _ _ _ _ _ hmac_ok Hb Hf) as (_ & Hv & Hlr).
    split; [done|]. exists raw0. split; [done|]. split; [done|]. split; [by eapply FinalizeLSPAuth_lead|]. by split.
  - injection H as <- <-. split; [by eapply LSP_Serialize_valid|]. exists raw0. by split_and!.
Qed.

End Echo.

Definition signing_server : Server :=
  let s := sample_server in
  mkServer [2; 0; 0; 0; 0; 1] (areaAddrs s) (levelCap s) {[ Level2 := mkAuthSpec AuthMD5 0 [1; 2] [] ]}
    (lsdbEntryLimit s) (circuits s) {[ Level2 := ∅ ]} false false zeroTime ∅ 1492 zeroTime false ∅ ∅ ∅ ∅ ∅ ∅ false [].

Definition signed : bytes * LSP :=
  match serializeLSP toy_hmac signing_server authed_lsp with Ok r => r | _ => ([], sample_lsp) end.

(** What a neighbor decodes from the signed octets. *)
Definition echoed : LSP :=
  match DecodePDU signed.1 with Ok (PDULSP p) => p | _ => sample_lsp end.

Definition signing_holder : Server :=
  set_dbs signing_server {[ Level2 := {[ LSP_LSPID authed_lsp :=
    mkLspEntry signed.2 signed.1 0 maxAgeSeconds true None (900 * Second) ]} ]}.

Definition after_echo : Server :=
  or_self signing_holder
    (processLSP toy_hmac 0 signing_holder 0 (sample_circuit 0 signing_holder) signed.1 echoed None 0).

Lemma authed_ok : LSP_ok authed_lsp.
Proof.
  split; [unfold u16_ok; simpl; lia|]. split; [split; [done|]; simpl; octets; unfold byte_ok; lia|].
  split; [unfold u32_ok; simpl; lia|]. split; [simpl; lia|].
  simpl. repeat (apply Forall_cons; split; [|]); try apply Forall_nil_2; simpl.
  all: repeat first [split | apply Forall_cons_2 | apply Forall_nil_2]; unfold byte_ok; try lia; try done.
Defined.

Definition signed_again : bytes * LSP :=
  match serializeLSP toy_hmac signing_server (resequenced signed.2 8) with Ok r => r | _ => ([], sample_lsp) end.

