(* ===== verification/NodeSpec.v ===== *)
(** The properties of the database entries, the corrupt-lifetime window, DIS
    election, the prefix lists, the edge logs and received-PDU authentication. *)

From stdpp Require Import strings.
From S2P Require Import Prelude.
From S2P Require Import Netip.
From S2P Require Import Ids.
From S2P Require Import Sid.
From S2P Require Import SubTLV.
From S2P Require Import Entries.
From S2P Require Import Tlv.
From S2P Require Import Checksum.
From S2P Require Import Pdu.
From S2P Require Import Auth.
From S2P Require Import PacketSpec.
From S2P Require Import Circuit.
From S2P Require Import Policy.
From S2P Require Import Lsdb.
From S2P Require Import Dis.
From S2P Require Import EdgeLog.
From S2P Require Import Server.
From S2P Require Import UpdateSpec.
Local Open Scope Z_scope.

(** ** Database entries *)

(** An entry ages one second per second from its lifetime at insertion,
    never up, and reads zero from the instant its lifetime has elapsed. *)
Theorem remaining_ages (e : lspEntry) (now later : Z) :
  entry_time_ok e now -> now <= later ->
  remaining e later <= remaining e now <= e_lifetime e /\
  (remaining e now = 0 <-> e_inserted e + e_lifetime e * Second <= now).
Proof.
  intros Ht Hl. pose proof Ht as [Hlt Hi]. unfold u16_ok in Hlt.
  rewrite !remaining_eq by (done || (split; [done|lia])).
  assert (Hm : (now - e_inserted e) / Second <= (later - e_inserted e) / Second).
  { apply Z.div_le_mono; unfold Second; lia. }
  assert (H0 : 0 <= (now - e_inserted e) / Second) by (apply Z.div_pos; unfold Second; lia).
  split; [lia|]. pose proof (Z.div_mod (now - e_inserted e) Second ltac:(done)).
  pose proof (Z.mod_pos_bound (now - e_inserted e) Second ltac:(done)). unfold Second in *. nia.
Qed.

Lemma remaining_ages_witness :
  remaining (sample_entry 9 false) (70 * Second) <= remaining (sample_entry 9 false) (40 * Second) <= 1200 /\
  (remaining (sample_entry 9 false) (40 * Second) = 0 <-> 0 + 1200 * Second <= 40 * Second).
Proof.
  apply (remaining_ages (sample_entry 9 false) (40 * Second) (70 * Second)).
  - split; [unfold u16_ok; cbn; lia|cbn; unfold Second; lia].
  - unfold Second. lia.
Defined.

(** What is flooded for an entry is the octets received with the Remaining
    Lifetime field, and nothing else, set to the current remaining lifetime:
    the checksum stays as valid as it was. *)
Theorem wire_patches (e : lspEntry) (now : Z) :
  (12 <= length (e_raw e))%nat ->
  length (wire e now) = length (e_raw e) /\
  (forall j, j <> 10%nat -> j <> 11%nat -> wire e now !! j = e_raw e !! j) /\
  slice (wire e now) 10 12 ≫= be16 = Ok (remaining e now) /\
  LSPChecksumValidRaw (wire e now) = LSPChecksumValidRaw (e_raw e).
Proof.
  intros Hl. unfold wire. rewrite (proj2 (Nat.leb_le _ _)) by done.
  set (s := put16 (remaining e now)). assert (Hs : length s = 2%nat) by done.
  assert (Hlen : length (store (e_raw e) 10 s) = length (e_raw e)) by (apply length_store; lia).
  split; [done|]. split; [|split].
  - intros j H1 H2. rewrite store_lookup by lia. rewrite decide_False by lia. done.
  - pose proof (slice_store (e_raw e) 10 s ltac:(lia)) as Hsl. change (10 + length s)%nat with 12%nat in Hsl.
    rewrite Hsl. cbn [mbind outcome_bind]. subst s.
    unfold be16, put16. cbn [idx lookup list_lookup mbind outcome_bind mret outcome_ret].
    unfold idx. cbn [lookup list_lookup mbind outcome_bind mret outcome_ret].
    by rewrite join16_put by apply remaining_range.
  - unfold LSPChecksumValidRaw. rewrite Hlen. destruct (_ <? _)%nat; [done|].
    rewrite !from_Ok by lia. cbn [mbind outcome_bind]. do 2 f_equal.
    apply list_eq. intros j. rewrite !lookup_drop, store_lookup by lia. by rewrite decide_False by lia.
Qed.

Lemma wire_patches_witness :
  let e := mkLspEntry received_lsp sample_bytes 0 1200 false None 0 in
  length (wire e (5 * Second)) = length sample_bytes /\
  (forall j, j <> 10%nat -> j <> 11%nat -> wire e (5 * Second) !! j = sample_bytes !! j) /\
  slice (wire e (5 * Second)) 10 12 ≫= be16 = Ok (remaining e (5 * Second)) /\
  LSPChecksumValidRaw (wire e (5 * Second)) = LSPChecksumValidRaw sample_bytes.
Proof.
  apply (wire_patches (mkLspEntry received_lsp sample_bytes 0 1200 false None 0) (5 * Second)).
  apply Nat.leb_le. by vm_compute.
Defined.

(** Whether one entry supersedes another. *)
Definition newer_than (now : Z) (a b : lspEntry) : bool :=
  newer (SequenceNumber (e_lsp a)) (remaining a now) (Some b) now.

Lemma newer_than_iff (now : Z) (a b : lspEntry) :
  newer_than now a b = true <->
  SequenceNumber (e_lsp b) < SequenceNumber (e_lsp a) \/
  (SequenceNumber (e_lsp a) = SequenceNumber (e_lsp b) /\ remaining a now = 0 /\ remaining b now <> 0).
Proof.
  unfold newer_than, newer.
  destruct (Z.eqb_spec (SequenceNumber (e_lsp a)) (SequenceNumber (e_lsp b))); cbn [negb]; [|lia].
  destruct (Z.eqb_spec (remaining a now) 0), (Z.eqb_spec (remaining b now) 0); cbn; intuition lia.
Qed.

(** [newer] is a strict order on the copies of an LSP, so two routers never
    each hold the other's copy to be the older one; two copies it does not
    order have the same sequence number and are both live or both purges. *)
Theorem newer_strict_order (now : Z) (a b c : lspEntry) :
  newer_than now a a = false /\
  (newer_than now a b = true -> newer_than now b a = false) /\
  (newer_than now a b = true -> newer_than now b c = true -> newer_than now a c = true) /\
  (newer_than now a b = false -> newer_than now b a = false ->
    SequenceNumber (e_lsp a) = SequenceNumber (e_lsp b) /\
    (remaining a now = 0 <-> remaining b now = 0)).
Proof.
  rewrite <- !not_true_iff_false, !newer_than_iff.
  pose proof (remaining_range a now) as Ha. pose proof (remaining_range b now) as Hb. unfold u16_ok in *.
  split; [lia|]. split; [lia|]. split; lia.
Qed.

Lemma newer_strict_order_witness :
  let a := sample_entry 9 false in
  let b := sample_entry 5 false in
  newer_than 0 a a = false /\
  (newer_than 0 a b = true -> newer_than 0 b a = false) /\
  (newer_than 0 a b = true -> newer_than 0 b b = true -> newer_than 0 a b = true) /\
  (newer_than 0 a b = false -> newer_than 0 b a = false ->
    SequenceNumber (e_lsp a) = SequenceNumber (e_lsp b) /\ (remaining a 0 = 0 <-> remaining b 0 = 0)).
Proof. exact (newer_strict_order 0 (sample_entry 9 false) (sample_entry 5 false) (sample_entry 5 false)). Defined.

(** ** The corrupt-lifetime window *)

(** A sequence of exchanges on one adjacency: the adjacency afterwards, and the
    suppressed time charged for them. *)
Fixpoint sync_run (a : adjacency) (times : list Z) : adjacency * Z :=
  match times with
  | [] => (a, 0)
  | t :: times =>
      let a' := openSyncWindow a t in
      let '(a'', total) := sync_run a' times in
      (a'', a_syncSpent a' - a_syncSpent (refillSyncBudget a t) + total)
  end.

Lemma open_step (a : adjacency) (t T : Z) :
  sync_ok a -> t <= T -> a_syncCharged a <= T ->
  let r := refillSyncBudget a t in
  let a' := openSyncWindow a t in
  sync_ok a' /\ a_syncCharged a' <= T /\ a_syncCharged a <= a_syncCharged a' /\
  0 <= a_syncSpent a' - a_syncSpent r /\
  10 * (a_syncSpent a - a_syncSpent r) <= a_syncCharged a' - a_syncCharged a.
Proof.
  intros Hok Ht Hc. cbn zeta. unfold sync_ok in *.
  assert (Hr : 0 <= a_syncSpent (refillSyncBudget a t) <= a_syncSpent a /\
    a_syncCharged (refillSyncBudget a t) <= T /\ a_syncCharged a <= a_syncCharged (refillSyncBudget a t) /\
    10 * (a_syncSpent a - a_syncSpent (refillSyncBudget a t)) <=
      a_syncCharged (refillSyncBudget a t) - a_syncCharged a).
  { unfold refillSyncBudget. cbn zeta. destruct (Z.leb_spec (Sub t (a_syncCharged a)) 0); [lia|].
    cbn [adj_set_sync a_syncSpent a_syncCharged].
    assert (Hgt : a_syncCharged a < t) by (apply Sub_pos; lia).
    pose proof (Sub_nonneg t (a_syncCharged a) ltac:(lia)) as Hs.
    rewrite Z.quot_div_nonneg by (unfold syncRefillDivisor; lia).
    pose proof (Z.mul_div_le (Sub t (a_syncCharged a)) syncRefillDivisor ltac:(done)) as Hq.
    pose proof (Z.div_pos (Sub t (a_syncCharged a)) syncRefillDivisor ltac:(lia) ltac:(done)).
    unfold syncRefillDivisor in *.
    destruct (Z.ltb_spec (a_syncSpent a - Sub t (a_syncCharged a) / 10) 0); lia. }
  unfold openSyncWindow. set (r := refillSyncBudget a t) in *. clearbody r. cbn zeta.
  destruct (Z.leb_spec (Sub t (a_syncSince r)) 0); [lia|].
  destruct (Z.leb_spec maxSyncSuppression (a_syncSpent r)); [lia|].
  cbn [adj_set_sync a_syncSpent a_syncCharged]. unfold zeroAgeSeconds, Second in *. lia.
Qed.

(** What exchanges can suppress of the corrupt-lifetime report is bounded
    whatever a neighbor asks for: over any sequence of exchanges up to [T] the
    time charged is at most the budget, one window more, and a tenth of the
    time elapsed; the charge is never negative. *)
Theorem sync_budget_bound (times : list Z) (a : adjacency) (T : Z) :
  sync_ok a -> a_syncCharged a <= T -> Forall (fun t => t <= T) times ->
  sync_ok (sync_run a times).1 /\
  0 <= (sync_run a times).2 /\
  10 * (sync_run a times).2 <=
    10 * (maxSyncSuppression + zeroAgeSeconds * Second) + (T - a_syncCharged a).
Proof.
  intros Hok Hc Ht.
  assert (H : sync_ok (sync_run a times).1 /\ 0 <= (sync_run a times).2 /\
    10 * ((sync_run a times).2 - a_syncSpent (sync_run a times).1 + a_syncSpent a) <= T - a_syncCharged a).
  { revert a Hok Hc. induction Ht as [|t times Ht Hts IH]; intros a Hok Hc; [simpl; split; [done|lia]|].
    destruct (open_step a t T Hok Ht Hc) as (Hok' & Hc' & Hge & Hnn & Hle).
    specialize (IH (openSyncWindow a t) Hok' Hc'). cbn [sync_run].
    destruct (sync_run (openSyncWindow a t) times) as [a'' total]. cbn [fst snd] in *.
    split; [tauto|]. lia. }
  destruct H as (H1 & H2 & H3). split; [done|]. split; [done|]. unfold sync_ok in *. lia.
Qed.

Definition sample_adj (n : Z) (pr : Z) (st : AdjState) : adjacency :=
  mkAdjacency [2; 0; 0; 0; 0; n] [2; 0; 0; 0; 0; n] st pr [[73; 0; 1]] ([2; 0; 0; 0; 0; n] ++ [n]) 30 0
    0 0 0 0 false false false 0 4 [] [] None.

Lemma sync_budget_bound_witness :
  let a := sample_adj 1 64 AdjUp in
  sync_ok (sync_run a [Second; 200 * Second; 300 * Second]).1 /\
  0 <= (sync_run a [Second; 200 * Second; 300 * Second]).2 /\
  10 * (sync_run a [Second; 200 * Second; 300 * Second]).2 <=
    10 * (maxSyncSuppression + zeroAgeSeconds * Second) + (300 * Second - 0).
Proof.
  apply (sync_budget_bound [Second; 200 * Second; 300 * Second] (sample_adj 1 64 AdjUp) (300 * Second)).
  - unfold sync_ok, maxSyncSuppression, zeroAgeSeconds, Second. cbn. lia.
  - cbn. unfold Second. lia.
  - repeat apply Forall_cons_2; try apply Forall_nil_2; unfold Second; lia.
Defined.

(** ** DIS election *)

Lemma elem_of_ups a order : a ∈ ups order <-> is_up (a_state a) = true /\ a ∈ order.*2.
Proof. unfold ups. rewrite !list_elem_of_In, List.filter_In. tauto. Qed.

(** Candidate [(p1, s1)] outranks [(p2, s2)]: the higher priority wins, and
    among equal priorities the higher SNPA (ISO 10589 8.4.5). *)
Definition outranks (p1 : Z) (s1 : SNPA) (p2 : Z) (s2 : SNPA) : Prop :=
  p2 < p1 \/ (p1 = p2 /\ bytes_compare s1 s2 = Gt).

Lemma no_better_outranks p1 s1 p2 s2 : no_better p1 s1 p2 s2 <-> ~ outranks p1 s1 p2 s2.
Proof. unfold no_better, outranks. by rewrite <- not_true_iff_false, higher_spec. Qed.

Lemma higher_outranks p1 s1 p2 s2 : higherCandidate p1 s1 p2 s2 = true <-> outranks p1 s1 p2 s2.
Proof. apply higher_spec. Qed.

Lemma elem_of_ups_Up a order : a ∈ ups order <-> a ∈ order.*2 /\ a_state a = AdjUp.
Proof. rewrite elem_of_ups. destruct (a_state a); naive_solver. Qed.

Lemma Forall_ups (P : adjacency -> Prop) order :
  Forall P (ups order) <-> (forall a, a ∈ order.*2 -> a_state a = AdjUp -> P a).
Proof. rewrite Forall_forall. setoid_rewrite elem_of_ups_Up. naive_solver. Qed.

(** The scan, for the two ways it can end: this node, or an Up neighbor. *)
Lemma electDIS_cases (self : SystemID) (c : circuit) (l : Level) (order order' : list (SystemID * adjacency)) :
  P2P (cfg c) = false -> order' ≡ₚ order ->
  let p0 := cfg_priority (cfg c) in
  let s0 := LocalSNPA (cfg_Transport (cfg c)) in
  (Forall (fun a => no_better (a_priority a) (a_snpa a) p0 s0) (ups order) /\
   dis_at (electDIS self c l order order') l = nodeID self (pseudonodeID c)) \/
  (exists w w', w ∈ ups order /\ w' ∈ ups order /\ a_snpa w' = a_snpa w /\
    higherCandidate (a_priority w) (a_snpa w) p0 s0 = true /\
    Forall (fun a => no_better (a_priority a) (a_snpa a) (a_priority w) (a_snpa w)) (ups order) /\
    dis_at (electDIS self c l order order') l =
      if bool_decide (a_lanID w' = zeroNodeID) then dis_at c l else a_lanID w').
Proof.
  intros Hp Hperm p0 s0. unfold electDIS. rewrite Hp.
  destruct (elect_spec (ups order) (mkCandidate p0 s0 true)) as (_ & Hall & Hor).
  fold p0 s0. set (best := elect _ _) in *. clearbody best.
  destruct Hor as [->|(w & Hw & -> & Hhi)].
  - left. split; [exact Hall|]. cbn [weAreDIS]. unfold dis_at. cbn [set_dis dis].
    by rewrite lookup_insert_eq.
  - right. cbn [weAreDIS c_snpa]. unfold winningLANID.
    apply elem_of_ups in Hw as [Hup Hin].
    destruct (List.find _ order'.*2) as [w'|] eqn:Hf.
    + apply List.find_some in Hf as [Hin' Ht]. apply andb_true_iff in Ht as [Ht1 Ht2].
      apply bool_decide_eq_true in Ht1. apply list_elem_of_In in Hin'. rewrite Hperm in Hin'.
      exists w, w'. split; [by apply elem_of_ups|]. split; [by apply elem_of_ups|].
      do 3 (split; [done|]). destruct (bool_decide _) eqn:Eb; [done|].
      unfold dis_at. cbn [set_dis dis]. by rewrite lookup_insert_eq.
    + assert (Hin' : In w order'.*2) by (apply list_elem_of_In; by rewrite Hperm).
      pose proof (List.find_none _ _ Hf w Hin') as Hn. simpl in Hn.
      rewrite bool_decide_true, Hup in Hn by done. done.
Qed.

(** C30: on a broadcast circuit the Designated IS is the best candidate among
    this node and its Up neighbors - the higher priority, and among equal
    priorities the higher SNPA - in whatever order they are visited: where no
    Up neighbor outranks this node it advertises its own pseudonode; where one
    does, some Up neighbor outranks this node and is outranked by none, and the
    circuit adopts the LAN ID that neighbor's SNPA advertises, keeping the
    previous one while that is unknown. *)
Theorem electDIS_maximal (self : SystemID) (c : circuit) (l : Level) (order order' : list (SystemID * adjacency)) :
  P2P (cfg c) = false -> order' ≡ₚ order ->
  let p0 := cfg_priority (cfg c) in
  let s0 := LocalSNPA (cfg_Transport (cfg c)) in
  let up a := a ∈ order.*2 /\ a_state a = AdjUp in
  let beats a p s := p < a_priority a \/ (a_priority a = p /\ bytes_compare (a_snpa a) s = Gt) in
  let dis' := dis_at (electDIS self c l order order') l in
  ((forall a, up a -> ~ beats a p0 s0) -> dis' = nodeID self (pseudonodeID c)) /\
  ((exists a, up a /\ beats a p0 s0) ->
    exists w, up w /\ beats w p0 s0 /\ (forall a, up a -> ~ beats a (a_priority w) (a_snpa w))) /\
  (forall w, up w -> beats w p0 s0 -> (forall a, up a -> ~ beats a (a_priority w) (a_snpa w)) ->
    exists w', up w' /\ a_snpa w' = a_snpa w /\
      dis' = if bool_decide (a_lanID w' = zeroNodeID) then dis_at c l else a_lanID w').
Proof.
  intros Hp Hperm p0 s0 up beats dis'.
  assert (Hb : forall a p s, beats a p s <-> outranks (a_priority a) (a_snpa a) p s).
  { intros a p s. unfold beats, outranks. naive_solver. }
  destruct (electDIS_cases self c l order order' Hp Hperm)
    as [[Hall Hd]|(w0 & w' & Hw0 & Hw' & Hs & Hhi & Hall & Hd)].
  - rewrite Forall_ups in Hall. split; [done|].
    assert (Hno : forall a, up a -> ~ beats a p0 s0).
    { intros a [Ha1 Ha2] Hba. apply Hb in Hba. pose proof (Hall a Ha1 Ha2) as Hn. by apply no_better_outranks in Hn. }
    split; [intros (a & Ha & Hba); by destruct (Hno a)|]. intros w Hw Hbw. by destruct (Hno w).
  - rewrite Forall_ups in Hall. apply elem_of_ups_Up in Hw0, Hw'. apply higher_outranks, Hb in Hhi.
    assert (Hmax : forall a, up a -> ~ beats a (a_priority w0) (a_snpa w0)).
    { intros a [Ha1 Ha2] Hba. apply Hb in Hba. pose proof (Hall a Ha1 Ha2) as Hn. by apply no_better_outranks in Hn. }
    split; [intros Hno; by destruct (Hno w0)|]. split; [intros _; by exists w0|].
    intros w Hw _ Hwmax. exists w'. split; [done|]. split; [|done].
    pose proof (Hwmax w0 Hw0) as H1. pose proof (Hmax w Hw) as H2. rewrite Hb in H1, H2.
    apply no_better_outranks in H1, H2. destruct (no_better_antisym _ _ _ _ H1 H2) as [_ E]. congruence.
Qed.

Definition lan_circuit : circuit := newCircuit (sample_cfg "lan0" false) 7 1.
Definition lan_order : list (SystemID * adjacency) :=
  [([2; 0; 0; 0; 0; 1], sample_adj 1 70 AdjUp); ([2; 0; 0; 0; 0; 2], sample_adj 2 90 AdjInit)].

(** A neighbor of priority 70 beats this node's 64; one of priority 90 that is
    not Up does not count. *)
Lemma electDIS_maximal_witness :
  dis_at (electDIS [2; 0; 0; 0; 0; 9] lan_circuit Level2 lan_order lan_order) Level2 =
    [2; 0; 0; 0; 0; 1; 1].
Proof.
  pose proof (electDIS_maximal [2; 0; 0; 0; 0; 9] lan_circuit Level2 lan_order lan_order
    eq_refl (Permutation_refl _)) as (_ & _ & H).
  destruct (H (sample_adj 1 70 AdjUp)) as (w' & [Hw' Hup] & Hs & ->).
  - split; [left|done].
  - left. by vm_compute.
  - intros a [Ha Hup] Hb. cbn in Ha. rewrite !elem_of_cons in Ha.
    destruct Ha as [->|[->|Ha]]; [|done|by apply not_elem_of_nil in Ha].
    cbn in Hb. destruct Hb as [Hb|[_ Hb]]; [lia|done].
  - cbn in Hw'. rewrite !elem_of_cons in Hw'.
    destruct Hw' as [->|[->|Hw']]; [done|done|by apply not_elem_of_nil in Hw'].
Defined.

(** ** Prefix lists *)

(** A prefix list is decided by its first rule that selects the prefix, and
    by its default where none does; only [permit] lets a prefix through. *)
Theorem Allows_first_match (pl : PrefixList) (p : Prefix) :
  Allows pl p = true <->
  (exists pre r post, Rules pl = pre ++ r :: post /\
    Forall (fun q => ~ selects q (Masked p)) pre /\ selects r (Masked p) /\ Action r = Permit) \/
  (Forall (fun q => ~ selects q (Masked p)) (Rules pl) /\ Default pl = Permit).
Proof.
  unfold Allows. rewrite allows_loop_first. generalize (Masked p) as q. intros q. generalize (Rules pl) as rules.
  assert (Hns : forall r, matches r q = false <-> ~ selects r q).
  { intros r. rewrite <- matches_selects. by destruct (matches r q). }
  induction rules as [|r rules IH]; simpl.
  - rewrite bool_decide_eq_true. split; [intros ->; right; by split|].
    intros [(pre & r & post & Hc & _)|[_ ?]]; [by destruct pre|done].
  - destruct (matches r q) eqn:Em.
    + apply matches_selects in Em. rewrite bool_decide_eq_true. split.
      * intros Ha. left. exists [], r, rules. done.
      * intros [(pre & x & post & Heq & Hpre & Hx & Ha)|[Hall _]].
        -- destruct pre as [|y pre]; injection Heq as -> ->; [done|].
           inversion Hpre as [|? ? Hy _]; subst. by destruct Hy.
        -- inversion Hall as [|? ? Hy _]; subst. by destruct Hy.
    + rewrite IH. apply Hns in Em. split.
      * intros [(pre & x & post & -> & Hpre & Hx & Ha)|[Hall Hd]].
        -- left. exists (r :: pre), x, post. split; [done|]. split; [by constructor|]. done.
        -- right. split; [by constructor|done].
      * intros [(pre & x & post & Heq & Hpre & Hx & Ha)|[Hall Hd]].
        -- destruct pre as [|y pre]; injection Heq as -> ->; [done|].
           inversion Hpre; subst. left. exists pre, x, post. done.
        -- inversion Hall; subst. by right.
Qed.

(** ** Edge logs *)

(** Between two calls that re-arm a key its warning runs at most once: after
    a call that may log it, no sequence of calls that does not re-arm it logs it
    again. *)
Theorem edge_log_once (e : edgeLog (string * LSPID)) (key : string * LSPID) (ops : list edge_op) :
  Forall (fun op => rearms key op = false) ops -> Some key ∉ edge_run (edge_warn key e).1 ops.
Proof.
  intros Hr. apply edge_run_quiet; [|done]. unfold edge_warn. case_decide; simpl; set_solver.
Qed.

Lemma edge_log_once_witness :
  let key := ("eth0"%string, [1]) in
  Some key ∉ edge_run (edge_warn key ∅).1 [OpWarn key; OpClear ("eth0"%string, [2]); OpWarn key].
Proof.
  apply (edge_log_once ∅ ("eth0"%string, [1])).
  repeat apply Forall_cons_2; try apply Forall_nil_2; by vm_compute.
Defined.

(** ** Received PDUs *)

Section Crypto.
Context (hmac : AuthAlgorithm -> bytes -> bytes -> bytes).

Lemma verify_any_iff pdu off a isLSP keys :
  (27 <= off)%nat \/ isLSP = false ->
  exists b, verify_any hmac pdu off a isLSP keys = Ok b /\
    (b = true <-> exists k, k ∈ keys /\ VerifyAuth hmac pdu off (algo a) (keyID a) k isLSP = Ok true).
Proof using.
  intros Hoff. induction keys as [|k keys (b & IH & Hb)]; simpl.
  - exists false. split; [done|]. split; [done|]. intros (k & Hk & _). by apply not_elem_of_nil in Hk.
  - destruct (VerifyAuth_answers hmac pdu off (algo a) (keyID a) k isLSP Hoff) as [v Hv].
    rewrite Hv. cbn [mbind outcome_bind]. destruct v.
    + exists true. split; [done|]. split; [|done]. intros _. exists k. split; [left|done].
    + exists b. split; [exact IH|]. rewrite Hb. split; intros (k' & Hk & He); exists k'.
      * split; [by right|done].
      * apply elem_of_cons in Hk as [->|Hk]; [congruence|done].
Qed.

(** A received PDU passes exactly when its level has no key configured, or
    when it carries the digest of the signing key or of a key still accepted;
    one that does not is dropped and counted, and nothing else changes. *)
Theorem pduAuthOK_decides s c raw pt l isLSP :
  isLSP = false \/ (pt = PDUTypeL1LSP \/ pt = PDUTypeL2LSP) ->
  exists ok, pduAuthOK hmac s c raw pt l isLSP =
      Ok (ok, if ok : bool then s else emit s (PDUDrop (Name (cfg c)) dropAuth)) /\
    (ok = true <-> key (authKey s l) = [] \/
      exists k, k ∈ key (authKey s l) :: spec_acceptKeys (authKey s l) /\
        VerifyAuth hmac raw (HeaderLen pt) (algo (authKey s l)) (keyID (authKey s l)) k isLSP = Ok true).
Proof using.
  intros Hpt. unfold pduAuthOK. set (spec := authKey s l). clearbody spec.
  unfold spec_on. destruct (key spec) as [|x k] eqn:Hk.
  - exists true. split; [done|]. split; [by left|done].
  - cbn [length Nat.ltb Nat.leb negb].
    destruct (verify_any_iff raw (HeaderLen pt) spec isLSP (key spec :: spec_acceptKeys spec)) as (b & Hv & Hb).
    { destruct Hpt as [->|[-> | ->]]; [by right|left; by apply Nat.leb_le..]. }
    unfold spec_verify. rewrite Hv. cbn [mbind outcome_bind]. exists b.
    split; [by destruct b|]. rewrite Hb, Hk. split; [by right|]. intros [?|?]; done.
Qed.
End Crypto.

Lemma pduAuthOK_decides_witness :
  let s := signing_server in
  let c := sample_circuit 0 s in
  exists ok, pduAuthOK toy_hmac s c signed.1 PDUTypeL2LSP Level2 true =
      Ok (ok, if ok : bool then s else emit s (PDUDrop (Name (cfg c)) dropAuth)) /\
    (ok = true <-> key (authKey s Level2) = [] \/
      exists k, k ∈ key (authKey s Level2) :: spec_acceptKeys (authKey s Level2) /\
        VerifyAuth toy_hmac signed.1 (HeaderLen PDUTypeL2LSP) (algo (authKey s Level2)) (keyID (authKey s Level2)) k true
          = Ok true).
Proof.
  exact (pduAuthOK_decides toy_hmac signing_server (sample_circuit 0 signing_server) signed.1 PDUTypeL2LSP Level2
    true (or_intror (or_intror eq_refl))).
Defined.
