(* ===== verification/TransmitSpec.v ===== *)
(** The properties of transmission and of the sequence-number PDUs
    (flooding.go): the ranges of a CSNP burst, the pacing of pending LSPs, the
    synchronization of a circuit, and what a received CSNP or PSNP flags. *)

From stdpp Require Import sorting.
From S2P Require Import Prelude.
From S2P Require Import Framing.
From S2P Require Import Netip.
From S2P Require Import Ids.
From S2P Require Import Sid.
From S2P Require Import SubTLV.
From S2P Require Import Entries.
From S2P Require Import Tlv.
From S2P Require Import Checksum.
From S2P Require Import Pdu.
From S2P Require Import Auth.
From S2P Require Import PacketSpec.
From S2P Require Import Circuit.
From S2P Require Import Lsdb.
From S2P Require Import EdgeLog.
From S2P Require Import Server.
From S2P Require Import Flooding.
From S2P Require Import Transmit.
From S2P Require Import Ranges.
From S2P Require Import UpdateSpec.
Local Open Scope Z_scope.

(** ** CSNPs *)

(** Every stored LSP ID is eight octets, as the key type says. *)
Definition ids_ok (db : lsdb) : Prop := forall id, is_Some (db !! id) -> arr 8 id.

Lemma dbEntries_perm (db : lsdb) (now : Z) :
  dbEntries db now ≡ₚ (fun '(id, e) => describe now id e) <$> map_to_list db.
Proof. apply merge_sort_Permutation. Qed.

Lemma id_le_num (a b : LSPEntry) :
  arr 8 (LE_LSPID a) -> arr 8 (LE_LSPID b) -> id_le a b <-> num (LE_LSPID a) <= num (LE_LSPID b).
Proof.
  intros [Ha1 Ha2] [Hb1 Hb2]. unfold id_le. rewrite num_compare by congruence.
  destruct (Z.compare_spec (num (LE_LSPID a)) (num (LE_LSPID b))); intuition (lia || done).
Qed.

Lemma dbEntries_ids (db : lsdb) (now : Z) : LE_LSPID <$> dbEntries db now ≡ₚ (map_to_list db).*1.
Proof.
  rewrite dbEntries_perm, <- list_fmap_compose. apply Permutation_refl'. apply list_fmap_ext. by intros i [id e].
Qed.

Lemma increasing_of_sorted (es : list LSPEntry) :
  Forall (fun e => arr 8 (LE_LSPID e)) es -> NoDup (LE_LSPID <$> es) -> StronglySorted id_le es -> increasing es.
Proof.
  intros Ha Hnd Hs. split; [|done]. induction Hs as [|e es Hs IH He]; [constructor|].
  inversion Ha as [|? ? Hea Hes]; subst. cbn [fmap list_fmap] in Hnd. apply NoDup_cons in Hnd as [Hni Hnd].
  constructor; [by apply IH|]. rewrite Forall_forall in He, Hes |- *. intros x Hx.
  pose proof (proj1 (id_le_num e x Hea (Hes x Hx)) (He x Hx)) as Hle.
  destruct (Z.eq_dec (num (LE_LSPID e)) (num (LE_LSPID x))) as [Heq|]; [|lia].
  destruct Hni. destruct Hea as [Hl Hb], (Hes x Hx) as [Hlx Hbx].
  rewrite (num_inj (LE_LSPID e) (LE_LSPID x)) by congruence. apply list_elem_of_fmap. by exists x.
Qed.

#[local] Instance id_le_trans : Transitive id_le.
Proof. intros a b c. apply bytes_compare_not_Gt_trans. Qed.

#[local] Instance id_le_total : Total id_le.
Proof.
  intros a b. unfold id_le. rewrite (bytes_compare_antisym (LE_LSPID a) (LE_LSPID b)).
  destruct (bytes_compare (LE_LSPID a) (LE_LSPID b)); simpl; auto.
Qed.

Lemma dbEntries_increasing (db : lsdb) (now : Z) : ids_ok db -> increasing (dbEntries db now).
Proof.
  intros Hok. apply increasing_of_sorted.
  - rewrite dbEntries_perm, Forall_fmap, Forall_forall. intros [id e] Hin. cbn.
    apply Hok. apply elem_of_map_to_list in Hin. by eexists.
  - rewrite dbEntries_ids. apply NoDup_fst_map_to_list.
  - apply StronglySorted_merge_sort; apply _.
Qed.

(** C26: the CSNPs of a burst describe the whole database: for any database and
    any budget one full entry TLV fits in, their ranges follow one another from
    LSP ID 00...00 to ff...ff with neither gap nor overlap, each PDU's TLVs fit
    the budget, and every LSP in the database is listed, in the one PDU whose
    range holds its ID.  A receiver therefore misses nothing and asks for nothing
    it already has. *)
Theorem csnp_covers (budget : Z) (db : lsdb) (now : Z) :
  242 <= budget -> ids_ok db ->
  exists ps, csnpPieces budget (dbEntries db now) = Ok ps /\ chain 0 ps (2 ^ 64) /\
    Forall (fun p => exists b, serializeTLVs (LSPEntriesTLV <$> pc_chunks p) = Ok b /\
      Z.of_nat (length b) <= budget) ps /\
    (forall id e, db !! id = Some e -> exists p, p ∈ ps /\ describe now id e ∈ piece_entries p) /\
    (forall p x, p ∈ ps -> x ∈ piece_entries p ->
      inRange (LE_LSPID x) (pc_start p) (pc_end p) = true /\
      exists e, db !! LE_LSPID x = Some e /\ x = describe now (LE_LSPID x) e).
Proof.
  intros Hbud Hok. destruct (csnpPieces_spec budget (dbEntries db now) Hbud (dbEntries_increasing db now Hok))
    as (ps & Hps & Hchain & Hall & Hcat).
  exists ps. split; [done|]. split; [done|]. split; [|split].
  - eapply Forall_impl; [exact Hall|]. by intros p (_ & _ & _ & ?).
  - intros id e He. assert (Hin : describe now id e ∈ dbEntries db now).
    { rewrite dbEntries_perm. apply list_elem_of_fmap. exists (id, e). split; [done|]. by apply elem_of_map_to_list. }
    rewrite <- Hcat in Hin. apply list_elem_of_In, List.in_concat in Hin as (l & Hl & Hin).
    apply list_elem_of_In in Hl, Hin. apply list_elem_of_fmap in Hl as (p & -> & Hp). by exists p.
  - intros p x Hp Hx. rewrite Forall_forall in Hall. destruct (Hall p Hp) as (Hs & He & Hin & _).
    rewrite Forall_forall in Hin. destruct (Hin x Hx) as [Hxa Hr]. split; [by apply inRange_num|].
    assert (Hxd : x ∈ dbEntries db now).
    { rewrite <- Hcat. apply list_elem_of_In, List.in_concat. exists (piece_entries p).
      split; apply list_elem_of_In; [|done]. apply list_elem_of_fmap. by exists p. }
    rewrite dbEntries_perm in Hxd. apply list_elem_of_fmap in Hxd as ([id e] & -> & Hd).
    apply elem_of_map_to_list in Hd. cbn. by exists e.
Qed.

Lemma csnp_covers_witness :
  let db := {[ LSP_LSPID sample_lsp := sample_entry 9 false ]} in
  exists ps, csnpPieces 1000 (dbEntries db 0) = Ok ps /\ chain 0 ps (2 ^ 64) /\
    Forall (fun p => exists b, serializeTLVs (LSPEntriesTLV <$> pc_chunks p) = Ok b /\
      Z.of_nat (length b) <= 1000) ps /\
    (forall id e, db !! id = Some e -> exists p, p ∈ ps /\ describe 0 id e ∈ piece_entries p) /\
    (forall p x, p ∈ ps -> x ∈ piece_entries p ->
      inRange (LE_LSPID x) (pc_start p) (pc_end p) = true /\
      exists e, db !! LE_LSPID x = Some e /\ x = describe 0 (LE_LSPID x) e).
Proof.
  apply (csnp_covers 1000 {[ LSP_LSPID sample_lsp := sample_entry 9 false ]} 0); [lia|].
  intros id [e He]. apply lookup_singleton_Some in He as [<- _]. split; [done|]. eval_octets.
Defined.

(** ** Pacing *)

(** PDUs handed to a transport. *)
Definition is_sent (e : effect) : bool := match e with Sent _ _ _ => true | _ => false end.
Definition sent_count (s : Server) : nat := length (List.filter is_sent (trace s)).

Lemma sent_count_emit s e : sent_count (emit s e) = (sent_count s + if is_sent e then 1 else 0)%nat.
Proof.
  unfold sent_count, emit. cbn [set_trace trace]. rewrite List.filter_app, length_app. simpl.
  by destruct (is_sent e).
Qed.

Lemma sent_count_txFailed s c r : sent_count (txFailed s c r) = sent_count s.
Proof.
  unfold txFailed. destruct (edge_warn _ _) as [w []].
  - rewrite sent_count_emit. change (sent_count (set_txFail ?x w)) with (sent_count x).
    rewrite sent_count_emit. simpl. lia.
  - change (sent_count (set_txFail ?x w)) with (sent_count x). rewrite sent_count_emit. simpl. lia.
Qed.

Section Pacing.
Context (send_ok : list effect -> bool).

Lemma send_count s c dst pdu ok s' :
  send send_ok s c dst pdu = (ok, s') ->
  sent_count s' = (sent_count s + if ok then 1 else 0)%nat /\ circuits s' = circuits s /\ dbs s' = dbs s.
Proof using.
  unfold send. destruct (send_ok (trace s)); intros [= <- <-].
  - split; [|done]. change (sent_count (txSucceeded ?x c)) with (sent_count x). by rewrite sent_count_emit.
  - rewrite sent_count_txFailed. split; [lia|]. unfold txFailed. by destruct (edge_warn _ _) as [w []].
Qed.

Lemma transmit_one_count s i c l id now spent s' :
  transmit_one send_ok s i c l id now = Ok (spent, s') ->
  (sent_count s' <= sent_count s + if spent then 1 else 0)%nat.
Proof using.
  unfold transmit_one. intros H. apply bind_Ok in H as (db & _ & [= H]).
  destruct (db !! id) as [e|].
  2:{ injection H as <- <-. change (sent_count (upd_circuit ?x ?n ?f)) with (sent_count x). lia. }
  destruct (_ <? _).
  - destruct (edge_warn _ _) as [w []]; injection H as <- <-;
      change (sent_count (upd_circuit ?x ?n ?f)) with (sent_count x); rewrite !sent_count_emit; simpl;
      change (sent_count (set_oversize ?x w)) with (sent_count x); lia.
  - destruct (send send_ok s c _ _) as [ok s1] eqn:Es. apply send_count in Es as (Hc & _).
    destruct ok; cbn [negb] in H; injection H as <- <-; [|lia].
    change (sent_count (upd_circuit ?x ?n ?f)) with (sent_count x).
    change (sent_count (set_oversize ?x ?w)) with (sent_count x). rewrite sent_count_emit. simpl. lia.
Qed.

Lemma srm_loop_count order s i l sent now s' :
  srm_loop send_ok s i l order sent now = Ok s' ->
  (sent_count s' + sent <= Nat.max (sent_count s + sent) (sent_count s + maxLSPSendPerTick))%nat.
Proof using.
  revert s sent. induction order as [|id order IH]; intros s sent H; cbn [srm_loop] in H.
  - injection H as <-. lia.
  - destruct (Nat.leb_spec maxLSPSendPerTick sent); [injection H as <-; lia|].
    destruct (circuits s !! i) as [c|]; [|injection H as <-; lia].
    destruct (srm c !! l ≫= lookup id) as [w|]; [|by apply IH]. destruct (now <? w); [by apply IH|].
    apply bind_Ok in H as ([spent s1] & H1 & H). apply transmit_one_count in H1. apply IH in H.
    destruct spent; lia.
Qed.

(** One pass hands at most [maxLSPSendPerTick] LSPs of a level to a circuit's
    transport, however many are flagged and in whatever order they are
    visited, and none at all while the circuit cannot carry them. *)
Theorem transmitSRM_paced s i c l order now s' :
  transmitSRM send_ok s i c l order now = Ok s' ->
  (sent_count s' <= sent_count s + maxLSPSendPerTick)%nat /\ (floodReady c l = false -> s' = s).
Proof using.
  unfold transmitSRM. intros H. destruct (floodReady c l); cbn [negb] in H.
  - apply srm_loop_count in H. split; [lia|done].
  - injection H as <-. split; [lia|done].
Qed.
End Pacing.

(** The sample server with its database flagged on a circuit whose neighbor is
    Up. *)
Definition up_circuit : circuit :=
  set_p2pAdj (setSRM (newCircuit (sample_cfg "eth0" true) 1 1) Level2 (LSP_LSPID sample_lsp) 0)
    (Some (mkAdjacency [2; 0; 0; 0; 0; 1] [2; 0; 0; 0; 0; 1] AdjUp 64 [] [] 30 0 0 0 0 0 false false false 0 4 [] [] None)).

Definition up_server : Server := set_circuits (holding_server (sample_entry 9 false)) [up_circuit].

Definition transmitted : Server :=
  or_self up_server (transmitSRM (fun _ => true) up_server 0 up_circuit Level2 [LSP_LSPID sample_lsp] 0).

Lemma transmitSRM_paced_witness :
  (sent_count transmitted <= sent_count up_server + maxLSPSendPerTick)%nat /\
  (floodReady up_circuit Level2 = false -> transmitted = up_server).
Proof.
  apply (transmitSRM_paced (fun _ => true) up_server 0 up_circuit Level2 [LSP_LSPID sample_lsp] 0).
  by vm_compute.
Defined.

(** ** Synchronization *)

Section Sync.
Context (hmac : AuthAlgorithm -> bytes -> bytes -> bytes).
Context (send_ok : list effect -> bool).

Lemma sendSNP_frame s c l p s' :
  sendSNP hmac send_ok s c l p = Ok s' -> circuits s' = circuits s /\ dbs s' = dbs s.
Proof using.
  assert (Hf : forall r, circuits (txFailed s c r) = circuits s /\ dbs (txFailed s c r) = dbs s).
  { intros r. unfold txFailed. by destruct (edge_warn _ _) as [w []]. }
  assert (Hs : forall dst w, circuits (send send_ok s c dst w).2 = circuits s /\ dbs (send send_ok s c dst w).2 = dbs s).
  { intros dst w. destruct (send send_ok s c dst w) as [ok s1] eqn:E. by apply send_count in E as (_ & ? & ?). }
  unfold sendSNP. destruct (PDU_Serialize _) as [[w p']|x|]; [|intros [= <-]; apply Hf|done].
  destruct (spec_on _); [|intros [= <-]; apply Hs]. intros H. apply bind_Ok in H as ([r|] & _ & H).
  - injection H as <-. apply Hs.
  - injection H as <-. apply Hf.
Qed.

Lemma send_all_frame s c l ps s' :
  send_all hmac send_ok s c l ps = Ok s' -> circuits s' = circuits s /\ dbs s' = dbs s.
Proof using.
  revert s. induction ps as [|p ps IH]; intros s H; [injection H as <-; done|].
  cbn [send_all] in H. apply bind_Ok in H as (s1 & H1 & H).
  apply sendSNP_frame in H1 as [E1 E2]. apply IH in H as [E3 E4]. split; congruence.
Qed.

Lemma sendCSNP_frame s c l now s' :
  sendCSNP hmac send_ok s c l now = Ok s' -> circuits s' = circuits s /\ dbs s' = dbs s.
Proof using.
  unfold sendCSNP. intros H. apply bind_Ok in H as (db & _ & H). apply bind_Ok in H as (b & _ & H).
  apply bind_Ok in H as (ps & _ & H). by apply send_all_frame in H.
Qed.

Lemma fold_setSRM l now ids c id :
  is_Some (srm c !! l) ->
  srm_at (fold_left (fun c id => setSRM c l id now) ids c) l id =
  if decide (id ∈ ids) then Some now else srm_at c l id.
Proof using.
  revert c. induction ids as [|x ids IH]; intros c Hr; cbn [fold_left].
  - rewrite decide_False; [done|]. apply not_elem_of_nil.
  - rewrite IH; [|unfold setSRM; cbn [set_flags srm]; rewrite lookup_at_level, decide_True by done; by apply fmap_is_Some].
    rewrite srm_at_set by done. destruct (decide (id ∈ ids)) as [Hin|Hni].
    + rewrite decide_True; [done|]. by right.
    + destruct (decide (x = id)) as [->|Hne].
      * rewrite !decide_True; [done|left|done].
      * rewrite !decide_False; [done| |tauto]. rewrite elem_of_cons. intros [?|?]; congruence.
Qed.

(** A circuit whose neighbor has just become usable is handed the whole
    database: every stored LSP, purges included, is flagged for transmission
    and a hold-down starts; inside the hold-down the request is remembered and
    nothing else happens, so it is deferred, never dropped. *)
Theorem syncCircuitLevel_hands_over s i c l now s' :
  circuits s !! i = Some c -> is_Some (srm c !! l) ->
  syncCircuitLevel hmac send_ok s i c l now = Ok s' ->
  exists c', circuits s' !! i = Some c' /\
    if decide (now < default zeroTime (syncHold c !! l)) then
      dbs s' = dbs s /\ trace s' = trace s /\ syncDeferred c' !! l = Some true /\ srm c' = srm c /\
      syncHold c' = syncHold c
    else
      dbs s' = dbs s /\ syncDeferred c' !! l = Some false /\ syncHold c' !! l = Some (now + syncHoldDown) /\
      forall id, is_Some (db_get s l id) -> srm_at c' l id = Some now.
Proof using.
  intros Hc Hr H. unfold syncCircuitLevel in H.
  destruct (Z.ltb_spec now (default zeroTime (syncHold c !! l))).
  - injection H as <-. eexists. split; [by rewrite lookup_upd, decide_True, Hc by done|].
    rewrite decide_True by done. do 2 (split; [done|]). cbn. by rewrite lookup_insert_eq.
  - apply bind_Ok in H as (db & Hdb & H). apply bind_Ok in H as (s1 & H1 & [= <-]).
    apply sendCSNP_frame in H1 as [E1 E2]. unfold the_db in Hdb. cbn [upd_circuit set_circuits dbs] in Hdb, E2.
    rewrite lookup_upd, decide_True, E1 by done. rewrite !lookup_upd, !decide_True, Hc by done.
    eexists. split; [done|]. rewrite decide_False by lia. cbn beta. set (c1 := set_sync c _ _).
    assert (Hr1 : is_Some (srm c1 !! l)) by done.
    assert (Hfix : forall k, srm (open_windows l now k) = srm k /\ syncHold (open_windows l now k) = syncHold k /\
      syncDeferred (open_windows l now k) = syncDeferred k).
    { intros k. unfold open_windows. by destruct (p2p_up k l). }
    set (k := fold_left _ _ c1).
    assert (Hk : syncHold k = syncHold c1 /\ syncDeferred k = syncDeferred c1).
    { subst k. generalize (map_to_list db).*1. intros ids. generalize c1. induction ids as [|x ids IH]; intros k; [done|].
      cbn [fold_left]. destruct (IH (setSRM k l x now)) as [-> ->]. done. }
    destruct (Hfix k) as (F1 & F2 & F3). destruct Hk as [K1 K2].
    split; [by cbn; rewrite E2|]. rewrite F2, F3, K1, K2. cbn [c1 set_sync syncHold syncDeferred].
    split; [by rewrite lookup_insert_eq|]. split; [by rewrite lookup_insert_eq|].
    intros id [e He]. unfold srm_at. rewrite F1. fold (srm_at k l id). subst k. rewrite fold_setSRM by done.
    rewrite decide_True; [done|]. unfold db_get in He. destruct (dbs s !! l) as [d|]; [|done].
    injection Hdb as ->. apply list_elem_of_fmap. exists (id, e). split; [done|]. by apply elem_of_map_to_list.
Qed.
End Sync.

Definition synced : Server :=
  or_self up_server (syncCircuitLevel toy_hmac (fun _ => true) up_server 0 up_circuit Level2 (5 * Second)).

Lemma syncCircuitLevel_hands_over_witness :
  exists c', circuits synced !! 0%nat = Some c' /\
    if decide (5 * Second < default zeroTime (syncHold up_circuit !! Level2)) then
      dbs synced = dbs up_server /\ trace synced = trace up_server /\ syncDeferred c' !! Level2 = Some true /\
      srm c' = srm up_circuit /\ syncHold c' = syncHold up_circuit
    else
      dbs synced = dbs up_server /\ syncDeferred c' !! Level2 = Some false /\
      syncHold c' !! Level2 = Some (5 * Second + syncHoldDown) /\
      forall id, is_Some (db_get up_server Level2 id) -> srm_at c' Level2 id = Some (5 * Second).
Proof.
  apply (syncCircuitLevel_hands_over toy_hmac (fun _ => true) up_server 0 up_circuit Level2 (5 * Second)).
  - done.
  - by eexists.
  - by vm_compute.
Defined.
