(* ===== verification/SnpSpec.v ===== *)
(** The properties of received sequence-number PDUs (flooding.go: processCSNP
    and processPSNP): which SRM and SSN flags each listed, missing or unknown LSP
    leaves on the circuit. *)

From S2P Require Import Prelude.
From S2P Require Import Framing.
From S2P Require Import Netip.
From S2P Require Import Ids.
From S2P Require Import Sid.
From S2P Require Import SubTLV.
From S2P Require Import Entries.
From S2P Require Import Tlv.
From S2P Require Import Checksum.
From S2P Require Import Pdu.
From S2P Require Import Auth.
From S2P Require Import PacketSpec.
From S2P Require Import Circuit.
From S2P Require Import Lsdb.
From S2P Require Import EdgeLog.
From S2P Require Import Server.
From S2P Require Import Lifetime.
From S2P Require Import Flooding.
From S2P Require Import UpdateSpec.
Local Open Scope Z_scope.

(** ** One LSP ID at a time *)

#[export] Instance ssn_has_dec c l id : Decision (ssn_has c l id).
Proof. unfold ssn_has. apply _. Defined.

(** The two flags of an LSP ID: when its LSP is due, whether a report is. *)
Definition fview (c : circuit) (l : Level) (id : LSPID) : option Z * bool :=
  (srm_at c l id, bool_decide (ssn_has c l id)).

Lemma fview_eq c l id a b : fview c l id = (a, b) <-> srm_at c l id = a /\ (ssn_has c l id <-> b = true).
Proof.
  unfold fview. split.
  - intros [= <- <-]. split; [done|]. by rewrite bool_decide_eq_true.
  - intros [-> H]. f_equal. destruct b; [apply bool_decide_true|apply bool_decide_false]; naive_solver.
Qed.

Lemma fview_same c c' l id :
  fview c' l id = fview c l id <-> srm_at c' l id = srm_at c l id /\ (ssn_has c' l id <-> ssn_has c l id).
Proof. change (fview c l id) with (srm_at c l id, bool_decide (ssn_has c l id)). by rewrite fview_eq, bool_decide_eq_true. Qed.

Lemma runs_setSRM c l k id w : runs c l -> runs (setSRM c k id w) l.
Proof.
  intros [H1 H2]. split; [|done]. unfold setSRM. cbn [set_flags srm]. rewrite lookup_at_level.
  case_decide; [by apply fmap_is_Some|done].
Qed.

Lemma runs_clearSRM c l k id : runs c l -> runs (clearSRM c k id) l.
Proof.
  intros [H1 H2]. split; [|done]. unfold clearSRM. cbn [set_flags srm]. rewrite lookup_at_level.
  case_decide; [by apply fmap_is_Some|done].
Qed.

Lemma runs_setSSN c l k id : runs c l -> runs (setSSN c k id) l.
Proof.
  intros [H1 H2]. split; [done|]. unfold setSSN. cbn [set_flags ssn]. rewrite lookup_at_level.
  case_decide; [by apply fmap_is_Some|done].
Qed.

#[export] Hint Resolve runs_setSRM runs_clearSRM runs_setSSN : flags.

Lemma fview_setSRM c l id w i :
  runs c l -> fview (setSRM c l id w) l i = if decide (id = i) then (Some w, (fview c l i).2) else fview c l i.
Proof.
  intros [Hr _]. unfold fview. rewrite srm_at_set by done.
  destruct (decide (id = i)) as [->|]; [by rewrite decide_True|by rewrite decide_False by tauto].
Qed.

Lemma fview_clearSRM c l id i :
  fview (clearSRM c l id) l i = if decide (id = i) then (None, (fview c l i).2) else fview c l i.
Proof.
  unfold fview. rewrite srm_at_clear.
  destruct (decide (id = i)) as [->|]; [by rewrite decide_True|by rewrite decide_False by tauto].
Qed.

Lemma fview_setSSN c l id i :
  runs c l -> fview (setSSN c l id) l i = if decide (id = i) then ((fview c l i).1, true) else fview c l i.
Proof.
  intros [_ Hr]. unfold fview. rewrite srm_at_setSSN. destruct (decide (id = i)) as [->|].
  - cbn. f_equal. apply bool_decide_true. rewrite ssn_has_set by done. by left.
  - f_equal. apply bool_decide_ext. rewrite ssn_has_set by done. tauto.
Qed.

(** A loop over distinct IDs whose step on [a] changes the flags of [key a]
    only: what it leaves on each ID. *)
Lemma fold_fview {A} (step : circuit -> A -> circuit) (key : A -> LSPID) (upd : A -> option Z * bool -> option Z * bool)
    (I : circuit -> Prop) (l : Level) (xs : list A) (c : circuit) :
  (forall c a, I c -> I (step c a) /\
    forall i, fview (step c a) l i = if decide (key a = i) then upd a (fview c l i) else fview c l i) ->
  NoDup (key <$> xs) -> I c ->
  I (fold_left step xs c) /\
  (forall a, a ∈ xs -> fview (fold_left step xs c) l (key a) = upd a (fview c l (key a))) /\
  (forall i, i ∉ key <$> xs -> fview (fold_left step xs c) l i = fview c l i).
Proof.
  intros Hstep. revert c. induction xs as [|x xs IH]; intros c Hnd Hi; cbn [fold_left].
  - split; [done|]. split; [|done]. intros a Ha. by apply elem_of_nil in Ha.
  - cbn [fmap list_fmap] in Hnd |- *. apply NoDup_cons in Hnd as [Hni Hnd].
    destruct (Hstep c x Hi) as [Hi' Hv]. destruct (IH _ Hnd Hi') as (HI & Hin & Hout).
    split; [done|]. split.
    + intros a Ha. apply elem_of_cons in Ha as [->|Ha].
      * rewrite Hout, Hv, decide_True; done.
      * rewrite Hin, Hv by done. rewrite decide_False; [done|]. intros Hk. destruct Hni. rewrite Hk.
        apply list_elem_of_fmap. by exists a.
    + intros i Hi2. apply not_elem_of_cons in Hi2 as [Hne Hni2]. rewrite Hout, Hv by done.
      by rewrite decide_False by congruence.
Qed.

(** ** Complete sequence numbers PDUs *)

(** What [processCSNP] leaves on the ID of a listed entry. *)
Definition csnp_upd (db : lsdb) (now : Z) (x : LSPEntry) (v : option Z * bool) : option Z * bool :=
  match db !! LE_LSPID x with
  | None => (v.1, true)
  | Some e =>
      if newer (LE_SequenceNumber x) (LE_RemainingTime x) (Some e) now then (v.1, true)
      else if LE_SequenceNumber x <? SequenceNumber (e_lsp e) then (Some now, v.2)
      else if (SequenceNumber (e_lsp e) =? LE_SequenceNumber x) && negb (remaining e now =? 0) &&
              negb (LE_RemainingTime x =? 0) && negb (checksum (e_lsp e) =? LE_Checksum x) then (Some now, v.2)
      else (None, v.2)
  end.

Lemma csnp_entry_view l db now c x :
  runs c l -> runs (csnp_entry l db now c x) l /\
  forall i, fview (csnp_entry l db now c x) l i =
    if decide (LE_LSPID x = i) then csnp_upd db now x (fview c l i) else fview c l i.
Proof.
  intros Hr. unfold csnp_entry, csnp_upd. destruct (db !! LE_LSPID x) as [e|].
  2:{ split; [auto with flags|]. intros i. by rewrite fview_setSSN. }
  destruct (newer _ _ _ _); [split; [auto with flags|]; intros i; by rewrite fview_setSSN|].
  destruct (_ <? _); [split; [auto with flags|]; intros i; by rewrite fview_setSRM|].
  destruct (_ && _); split; auto with flags; intros i; [by rewrite fview_setSRM|by rewrite fview_clearSRM].
Qed.

Lemma csnp_missing_view l listed st en now c id :
  runs c l -> runs (csnp_missing l listed st en now c id) l /\
  forall i, fview (csnp_missing l listed st en now c id) l i =
    if decide (id = i) then
      (if decide (id ∈ listed) then fview c l i
       else if inRange id st en then (Some now, (fview c l i).2) else fview c l i)
    else fview c l i.
Proof.
  intros Hr. unfold csnp_missing. destruct (decide (id ∈ listed)) as [Hin|Hni].
  - rewrite bool_decide_true by done. split; [done|]. intros i. by case_decide.
  - rewrite bool_decide_false by done. destruct (inRange id st en).
    + split; [auto with flags|]. intros i. by rewrite fview_setSRM.
    + split; [done|]. intros i. by case_decide.
Qed.

Lemma csnp_circuit_view (db : lsdb) (p : CSNP) (now : Z) (c : circuit) :
  let l := CS_Level p in
  let es := listedEntries (CS_TLVs p) in
  runs c l -> NoDup (LE_LSPID <$> es) ->
  (forall x, x ∈ es -> fview (csnp_circuit db p now c) l (LE_LSPID x) = csnp_upd db now x (fview c l (LE_LSPID x))) /\
  (forall i, i ∉ LE_LSPID <$> es -> fview (csnp_circuit db p now c) l i =
    if bool_decide (is_Some (db !! i)) && inRange i (StartLSP p) (EndLSP p) then (Some now, (fview c l i).2)
    else fview c l i).
Proof.
  intros l es Hr Hnd. unfold csnp_circuit. fold l es. set (listed := LE_LSPID <$> es) in *.
  set (c1 := fold_left (csnp_entry l db now) es c).
  destruct (fold_fview (csnp_entry l db now) LE_LSPID (csnp_upd db now) (fun c => runs c l) l es c
    (fun c a H => csnp_entry_view l db now c a H) Hnd Hr) as (Hr1 & Hin & Hout). fold c1 in Hr1, Hin, Hout.
  destruct (fold_fview (csnp_missing l listed (StartLSP p) (EndLSP p) now) (fun id => id)
    (fun id v => if decide (id ∈ listed) then v else if inRange id (StartLSP p) (EndLSP p) then (Some now, v.2) else v)
    (fun c => runs c l) l (map_to_list db).*1 c1) as (_ & Hin2 & Hout2).
  - intros c0 a H0. destruct (csnp_missing_view l listed (StartLSP p) (EndLSP p) now c0 a H0) as [H1 H2].
    split; [done|]. intros i. rewrite H2. by case_decide.
  - rewrite list_fmap_id. apply NoDup_fst_map_to_list.
  - done.
  - rewrite list_fmap_id in Hout2.
    assert (Hheld : forall i, i ∈ (map_to_list db).*1 <-> is_Some (db !! i)).
    { intros i. rewrite list_elem_of_fmap. split.
      - intros ([k e] & -> & H). apply elem_of_map_to_list in H. by eexists.
      - intros [e He]. exists (i, e). split; [done|]. by apply elem_of_map_to_list. }
    split.
    + intros x Hx. rewrite <- Hin by done. destruct (decide (LE_LSPID x ∈ (map_to_list db).*1)) as [Hd|Hd].
      * rewrite Hin2 by done. rewrite decide_True; [done|]. apply list_elem_of_fmap. by exists x.
      * by rewrite Hout2.
    + intros i Hi. rewrite <- Hout by done. destruct (decide (i ∈ (map_to_list db).*1)) as [Hd|Hd].
      * rewrite bool_decide_true by (by apply Hheld). rewrite Hin2 by done. by rewrite decide_False.
      * rewrite bool_decide_false by (by rewrite <- Hheld). by rewrite Hout2.
Qed.

(** A received CSNP compares the sender's database with this node's over
    the range it describes.  A held LSP the sender left out of its range is sent
    to it, and one outside the range is left alone; a listed LSP this node does
    not hold, or holds an older copy of, is requested; one the sender holds an
    older copy of is sent, as is one whose live copies differ in checksum; one
    both hold in the same state is no longer pending.  Nothing else is flagged
    and the database does not change. *)
Theorem processCSNP_flags s i c p now :
  let l := CS_Level p in
  let es := listedEntries (CS_TLVs p) in
  circuits s !! i = Some c -> runs c l -> is_Some (dbs s !! l) -> NoDup (LE_LSPID <$> es) ->
  exists c', circuits (processCSNP s i p now) !! i = Some c' /\ dbs (processCSNP s i p now) = dbs s /\
    (forall id, id ∉ LE_LSPID <$> es ->
      (ssn_has c' l id <-> ssn_has c l id) /\
      srm_at c' l id = if bool_decide (is_Some (db_get s l id)) && inRange id (StartLSP p) (EndLSP p)
                       then Some now else srm_at c l id) /\
    (forall x, x ∈ es -> db_get s l (LE_LSPID x) = None ->
      ssn_has c' l (LE_LSPID x) /\ srm_at c' l (LE_LSPID x) = srm_at c l (LE_LSPID x)) /\
    (forall x e, x ∈ es -> db_get s l (LE_LSPID x) = Some e ->
      (SequenceNumber (e_lsp e) < LE_SequenceNumber x ->
        ssn_has c' l (LE_LSPID x) /\ srm_at c' l (LE_LSPID x) = srm_at c l (LE_LSPID x)) /\
      (LE_SequenceNumber x < SequenceNumber (e_lsp e) -> srm_at c' l (LE_LSPID x) = Some now) /\
      (LE_SequenceNumber x = SequenceNumber (e_lsp e) ->
        (remaining e now = 0 <-> LE_RemainingTime x = 0) ->
        srm_at c' l (LE_LSPID x) =
          if (remaining e now =? 0) || (checksum (e_lsp e) =? LE_Checksum x) then None else Some now)).
Proof.
  intros l es Hc Hr [db Hdb] Hnd. unfold processCSNP. fold l. rewrite Hdb.
  exists (csnp_circuit db p now c). rewrite lookup_upd, decide_True, Hc by done.
  destruct (csnp_circuit_view db p now c Hr Hnd) as [Hin Hout]. fold l es in Hin, Hout.
  assert (Hg : forall id, db_get s l id = db !! id) by (intros id; unfold db_get; by rewrite Hdb).
  split; [done|]. split; [done|]. split; [|split].
  - intros id Hni. specialize (Hout id Hni). rewrite Hg. destruct (_ && _).
    + apply fview_eq in Hout as [H1 H2]. cbn [fview snd] in H2. rewrite bool_decide_eq_true in H2. by split.
    + apply fview_same in Hout as [H1 H2]. by split.
  - intros x Hx Hn. specialize (Hin x Hx). unfold csnp_upd in Hin. rewrite <- Hg, Hn in Hin.
    apply fview_eq in Hin as [H1 H2]. by split; [apply H2|].
  - intros x e Hx He. specialize (Hin x Hx). unfold csnp_upd, newer in Hin. rewrite <- Hg, He in Hin.
    set (v := fview c l (LE_LSPID x)) in Hin. split; [|split].
    + intros Hlt. rewrite (proj2 (Z.eqb_neq _ _)) in Hin by lia. cbn [negb] in Hin.
      rewrite (proj2 (Z.ltb_lt _ _)) in Hin by lia. apply fview_eq in Hin as [H1 H2]. by split; [apply H2|].
    + intros Hlt. rewrite (proj2 (Z.eqb_neq _ _)) in Hin by lia. cbn [negb] in Hin.
      rewrite (proj2 (Z.ltb_ge _ _)), (proj2 (Z.ltb_lt _ _)) in Hin by lia. by apply fview_eq in Hin as [H1 _].
    + intros Heq Hrem. rewrite Heq, !Z.eqb_refl, Z.ltb_irrefl in Hin. cbn [negb andb] in Hin.
      assert (Hz : (remaining e now =? 0) = (LE_RemainingTime x =? 0)) by lia.
      rewrite <- Hz, Bool.eqb_reflx in Hin. cbn [negb] in Hin.
      destruct (remaining e now =? 0), (checksum (e_lsp e) =? LE_Checksum x); cbn in Hin |- *;
        by apply fview_eq in Hin as [H1 _].
Qed.

(** A CSNP over the whole range that lists one LSP the server does not hold and
    leaves out the one it does. *)
Definition sample_csnp : CSNP :=
  mkCSNP Level2 [2; 0; 0; 0; 0; 1; 0] (replicate 8 0) (replicate 8 255)
    [LSPEntriesTLV [mkLSPEntry 900 [2; 0; 0; 0; 0; 7; 0; 0] 4 77]].

Definition holder : Server := holding_server (sample_entry 9 false).
Definition holder_circuit : circuit := sample_circuit 0 holder.

Lemma processCSNP_flags_witness :
  exists c', circuits (processCSNP holder 0 sample_csnp 0) !! 0%nat = Some c' /\
    ssn_has c' Level2 [2; 0; 0; 0; 0; 7; 0; 0] /\ srm_at c' Level2 (LSP_LSPID sample_lsp) = Some 0.
Proof.
  destruct (processCSNP_flags holder 0 holder_circuit sample_csnp 0) as (c' & H1 & _ & H2 & H3 & _).
  - done.
  - by split; eexists.
  - by eexists.
  - apply NoDup_singleton.
  - exists c'. split; [exact H1|]. split.
    + apply (H3 (mkLSPEntry 900 [2; 0; 0; 0; 0; 7; 0; 0] 4 77)); [left|by vm_compute].
    + apply H2. vm_compute. intros H. apply elem_of_cons in H as [H|H]; [done|by apply elem_of_nil in H].
Defined.

(** ** Partial sequence numbers PDUs *)

(** What [processPSNP] leaves on the ID of a listed entry. *)
Definition psnp_upd (p2p : bool) (db : lsdb) (now : Z) (x : LSPEntry) (v : option Z * bool) : option Z * bool :=
  match db !! LE_LSPID x with
  | None => v
  | Some e =>
      if p2p then if SequenceNumber (e_lsp e) <=? LE_SequenceNumber x then (None, v.2) else v
      else if (LE_SequenceNumber x <? SequenceNumber (e_lsp e)) ||
              ((SequenceNumber (e_lsp e) =? LE_SequenceNumber x) && negb (remaining e now =? 0) &&
               negb (LE_RemainingTime x =? 0) && negb (checksum (e_lsp e) =? LE_Checksum x)) then (Some now, v.2)
      else v
  end.

Lemma psnp_entry_view (b : bool) l db now c x :
  runs c l /\ P2P (cfg c) = b ->
  (runs (psnp_entry l db now c x) l /\ P2P (cfg (psnp_entry l db now c x)) = b) /\
  forall i, fview (psnp_entry l db now c x) l i =
    if decide (LE_LSPID x = i) then psnp_upd b db now x (fview c l i) else fview c l i.
Proof.
  intros [Hr <-]. unfold psnp_entry, psnp_upd.
  assert (Hsame : forall i, fview c l i = if decide (LE_LSPID x = i) then fview c l i else fview c l i).
  { intros i. by case_decide. }
  destruct (db !! LE_LSPID x) as [e|]; [|by auto].
  destruct (P2P (cfg c)) eqn:Ep.
  - destruct (_ <=? _); [|by auto]. split; [auto with flags|]. intros i. by rewrite fview_clearSRM.
  - destruct (_ || _); [|by auto]. split; [auto with flags|]. intros i. by rewrite fview_setSRM.
Qed.

(** On a point-to-point circuit a PSNP acknowledges: it ends the
    retransmission of an LSP it lists with at least the stored sequence number and
    of no other.  On a LAN it requests, and only the DIS answers: an LSP the
    sender holds an older copy of, or a live copy with another checksum, is sent.
    A PSNP never flags a report, never touches an LSP it does not list or this
    node does not hold, and never changes the database. *)
Theorem processPSNP_flags s i c p now :
  let l := PS_Level p in
  let es := listedEntries (PS_TLVs p) in
  circuits s !! i = Some c -> runs c l -> is_Some (dbs s !! l) -> NoDup (LE_LSPID <$> es) ->
  exists c', circuits (processPSNP s i p now) !! i = Some c' /\ dbs (processPSNP s i p now) = dbs s /\
    (forall id, ssn_has c' l id <-> ssn_has c l id) /\
    (forall id, id ∉ LE_LSPID <$> es \/ db_get s l id = None -> srm_at c' l id = srm_at c l id) /\
    (forall x e, x ∈ es -> db_get s l (LE_LSPID x) = Some e ->
      srm_at c' l (LE_LSPID x) =
      if P2P (cfg c) then
        if SequenceNumber (e_lsp e) <=? LE_SequenceNumber x then None else srm_at c l (LE_LSPID x)
      else if isDIS c l (systemID s) &&
              ((LE_SequenceNumber x <? SequenceNumber (e_lsp e)) ||
               ((LE_SequenceNumber x =? SequenceNumber (e_lsp e)) && negb (remaining e now =? 0) &&
                negb (LE_RemainingTime x =? 0) && negb (checksum (e_lsp e) =? LE_Checksum x)))
      then Some now else srm_at c l (LE_LSPID x)).
Proof.
  intros l es Hc Hr [db Hdb] Hnd. unfold processPSNP. fold l. rewrite Hdb.
  exists (psnp_circuit (systemID s) db p now c). rewrite lookup_upd, decide_True, Hc by done.
  assert (Hg : forall id, db_get s l id = db !! id) by (intros id; unfold db_get; by rewrite Hdb).
  split; [done|]. split; [done|]. unfold psnp_circuit. fold l es.
  destruct (negb (P2P (cfg c)) && negb (isDIS c l (systemID s))) eqn:Eq.
  { split; [done|]. split; [done|]. intros x e Hx He. apply andb_true_iff in Eq as [E1 E2].
    apply negb_true_iff in E1, E2. by rewrite E1, E2. }
  destruct (fold_fview (psnp_entry l db now) LE_LSPID (psnp_upd (P2P (cfg c)) db now)
    (fun k => runs k l /\ P2P (cfg k) = P2P (cfg c)) l es c) as (_ & Hin & Hout); [|done|done|].
  { intros k a Hk. by apply psnp_entry_view. }
  set (c' := fold_left _ es c) in *.
  assert (Hid : forall id, id ∉ LE_LSPID <$> es \/ exists x, x ∈ es /\ id = LE_LSPID x).
  { intros id. destruct (decide (id ∈ LE_LSPID <$> es)) as [H|]; [|by left]. right.
    apply list_elem_of_fmap in H as (x & -> & H). by exists x. }
  split; [|split].
  - intros id. destruct (Hid id) as [Hni|(x & Hx & ->)]; [by apply fview_same, Hout|].
    specialize (Hin x Hx). unfold psnp_upd in Hin.
    assert (Hs : forall o, fview c' l (LE_LSPID x) = (o, (fview c l (LE_LSPID x)).2) ->
      ssn_has c' l (LE_LSPID x) <-> ssn_has c l (LE_LSPID x)).
    { intros o H. apply fview_eq in H as [_ H]. rewrite H. cbn. apply bool_decide_eq_true. }
    destruct (db !! _), (P2P (cfg c)); repeat case_match; eauto.
  - intros id [Hni|Hn]; [by apply fview_same, Hout|].
    destruct (Hid id) as [Hni|(x & Hx & ->)]; [by apply fview_same, Hout|].
    specialize (Hin x Hx). unfold psnp_upd in Hin. rewrite <- Hg, Hn in Hin. by apply fview_same in Hin as [? _].
  - intros x e Hx He. specialize (Hin x Hx). unfold psnp_upd in Hin. rewrite <- Hg, He in Hin.
    rewrite (Z.eqb_sym (LE_SequenceNumber x)).
    destruct (P2P (cfg c)).
    + destruct (_ <=? _); [by apply fview_eq in Hin as [? _]|by apply fview_same in Hin as [? _]].
    + cbn [negb andb] in Eq. apply negb_false_iff in Eq. rewrite Eq. cbn [andb].
      destruct (_ || _); [by apply fview_eq in Hin as [? _]|by apply fview_same in Hin as [? _]].
Qed.

(** An acknowledgement of the stored copy of the sample LSP. *)
Definition sample_psnp : PSNP :=
  mkPSNP Level2 [2; 0; 0; 0; 0; 1; 0] [LSPEntriesTLV [mkLSPEntry 900 (LSP_LSPID sample_lsp) 9 0]].

Definition pending : Server :=
  set_circuits holder [setSRM holder_circuit Level2 (LSP_LSPID sample_lsp) 3].

Lemma processPSNP_flags_witness :
  exists c', circuits (processPSNP pending 0 sample_psnp 0) !! 0%nat = Some c' /\
    srm_at c' Level2 (LSP_LSPID sample_lsp) = None.
Proof.
  destruct (processPSNP_flags pending 0 (setSRM holder_circuit Level2 (LSP_LSPID sample_lsp) 3) sample_psnp 0)
    as (c' & H1 & _ & _ & _ & H2).
  - done.
  - by split; eexists.
  - by eexists.
  - apply NoDup_singleton.
  - exists c'. split; [exact H1|].
    apply (H2 (mkLSPEntry 900 (LSP_LSPID sample_lsp) 9 0) (sample_entry 9 false)); [left|by vm_compute].
Defined.
