(* ===== verification/OriginationSpec.v ===== *)
(** The properties of origination (origination.go): how the sequence number of an
    LSP of this node's own moves, that unchanged content is not originated again,
    and how entries and TLVs are packed. *)

From S2P Require Import Prelude.
From S2P Require Import Codec.
From S2P Require Import Framing.
From S2P Require Import Netip.
From S2P Require Import Ids.
From S2P Require Import Sid.
From S2P Require Import SubTLV.
From S2P Require Import Entries.
From S2P Require Import Tlv.
From S2P Require Import Checksum.
From S2P Require Import Pdu.
From S2P Require Import Auth.
From S2P Require Import PacketSpec.
From S2P Require Import Circuit.
From S2P Require Import Lsdb.
From S2P Require Import Server.
From S2P Require Import Lifetime.
From S2P Require Import Transmit.
From S2P Require Import Origination.
From S2P Require Import UpdateSpec.
Local Open Scope Z_scope.

(** ** One LSP *)

Section Originate.
Context (hmac : AuthAlgorithm -> bytes -> bytes -> bytes).
Context (rand : LSPID -> Z).

(** The ID is not held down by an exhausted sequence number space. *)
Definition not_held (s : Server) (l : Level) (id : LSPID) (now : Z) : Prop :=
  forall until, seqWrapUntil s !! (l, id) = Some until -> until <= now.

(** The overload bit an LSP of this node's own carries. *)
Definition own_overload (s : Server) (id : LSPID) (now : Z) : bool :=
  IsNodeLSP id && (LSPID_FragmentID id =? 0) && overloaded s now.

(** [e] is what [originate] stores for a content: a live own LSP with that body
    and those flags, at full lifetime, that fits the buffer. *)
Definition own_entry (s : Server) (l : Level) (id : LSPID) (tlvs : list TLV) (att : bool) (now : Z) (e : lspEntry) : Prop :=
  e_own e = true /\ e_purgedAt e = None /\ e_inserted e = now /\ e_lifetime e = maxAgeSeconds /\
  LSP_TLVs (e_lsp e) = with_auth (authKey s l) tlvs /\ AttDefault (e_lsp e) = att /\
  Overload (e_lsp e) = own_overload s id now /\ Z.of_nat (length (e_raw e)) <= lspBufferSize s.

(** Every circuit of the level has the LSP flagged for transmission. *)
Definition flooded (s s' : Server) (l : Level) (id : LSPID) (now : Z) : Prop :=
  forall j cj, circuits s !! j = Some cj -> runs cj l ->
  exists cj', circuits s' !! j = Some cj' /\ srm_at cj' l id = Some now.

Lemma floodLSP_flooded s l id now : flooded s (floodLSP s l id None now) l id now.
Proof using.
  intros j cj Hj Hr. rewrite lookup_floodLSP, Hj. cbn [fmap option_fmap option_map].
  eexists. split; [done|]. by apply flood_one_flags.
Qed.

Lemma exhaustSeq_held s l id now s' :
  exhaustSeq hmac s l id now = Ok s' ->
  seqWrapUntil s' !! (l, id) = Some (now + seqWrapHold) /\
  (forall l' id', (l', id') <> (l, id) -> db_get s' l' id' = db_get s l' id').
Proof using.
  intros H. split.
  - unfold exhaustSeq in H. set (s1 := match _ with None => _ | Some _ => _ end) in H. clearbody s1.
    set (s2 := set_seqWrap s1 _) in H. destruct (makePurge hmac s2 l id maxLSPSeq) as [[lsp raw]|x|].
    + apply bind_Ok in H as (db & _ & [= <-]). cbn. by rewrite lookup_insert_eq.
    + injection H as <-. cbn. by rewrite lookup_insert_eq.
    + done.
  - intros l' id' Hne. apply exhaustSeq_writes in H. by apply (writes_get _ _ _ _ _ _ _ H).
Qed.

(** The purge of an exhausted ID: the last sequence number, no lifetime, and no
    content but the purge originator's identification. *)
Definition last_purge (s : Server) (l : Level) (id : LSPID) : LSP :=
  mkLSP l 0 id maxLSPSeq 0 false false false false false false (isType s) (purgeTLVs s l).

(** The purge has a wire form. *)
Definition purgeable (s : Server) (l : Level) (id : LSPID) : Prop :=
  exists raw p, serializeLSP hmac s (last_purge s l id) = Ok (raw, p).

(** The purge is in the database, from now on, and every circuit has it flagged for
    transmission. *)
Definition purged_out (s s' : Server) (l : Level) (id : LSPID) (now : Z) : Prop :=
  exists e, db_get s' l id = Some e /\ e_own e = true /\ e_purgedAt e = Some now /\ e_lifetime e = 0 /\
    RemainingTime (e_lsp e) = 0 /\ SequenceNumber (e_lsp e) = maxLSPSeq /\ LSP_TLVs (e_lsp e) = purgeTLVs s l /\
    serializeLSP hmac s (last_purge s l id) = Ok (e_raw e, e_lsp e) /\ flooded s s' l id now.

Lemma exhaustSeq_purges s l id now s' :
  is_Some (dbs s !! l) -> exhaustSeq hmac s l id now = Ok s' ->
  purged_out s s' l id now \/ ~ purgeable s l id /\ dbs s' = dbs s.
Proof using.
  intros Hl H. unfold exhaustSeq in H. set (s1 := match _ with None => _ | Some _ => _ end) in H.
  assert (E1 : dbs s1 = dbs s /\ circuits s1 = circuits s /\
    makePurge hmac (set_seqWrap s1 (<[(l, id) := now + seqWrapHold]> (seqWrapUntil s1))) l id maxLSPSeq =
    makePurge hmac s l id maxLSPSeq) by (subst s1; by destruct (seqWrapUntil s !! (l, id))).
  clearbody s1. destruct E1 as (E1 & E2 & E3). cbv zeta in H. rewrite E3 in H.
  set (s2 := set_seqWrap s1 _) in H. assert (E4 : dbs s2 = dbs s /\ circuits s2 = circuits s) by done.
  clearbody s2. destruct E4 as [E4 E5]. unfold makePurge in H. fold (last_purge s l id) in H.
  destruct (serializeLSP hmac s (last_purge s l id)) as [[raw p]|x|] eqn:Es; cbn [mbind outcome_bind mret outcome_ret unless_err] in H; [| |done].
  - left. apply bind_Ok in H as (db & _ & [= <-]). destruct (serializeLSP_fields _ _ _ _ _ Es) as [sum Hp].
    eexists. split.
    { rewrite db_get_flood, db_get_put. rewrite decide_True; [done|]. by rewrite E4. }
    cbn [purge_entry e_own e_purgedAt e_lifetime e_lsp e_raw]. do 3 (split; [done|]).
    split; [by rewrite Hp|]. split; [by rewrite Hp|]. split; [by rewrite Hp|]. split; [done|].
    intros j cj Hj. rewrite <- E5 in Hj.
    by apply (floodLSP_flooded (markDirty (db_put s2 l id (purge_entry p raw true zeroTime now)))).
  - right. injection H as <-. split; [|done]. intros (raw & p & E). congruence.
Qed.

(** The stored copy of an LSP already says what [originate] is given. *)
Definition same_content (s : Server) (l : Level) (id : LSPID) (tlvs : list TLV) (att : bool) (now : Z) : Prop :=
  exists e b, db_get s l id = Some e /\ e_own e = true /\ e_purgedAt e = None /\
    Overload (e_lsp e) = own_overload s id now /\ AttDefault (e_lsp e) = att /\
    MarshalTLVs (LSP_TLVs (e_lsp e)) = Ok b /\ MarshalTLVs (with_auth (authKey s l) tlvs) = Ok b.

(** The sequence number the next copy takes. *)
Definition next_seq (s : Server) (l : Level) (id : LSPID) : Z :=
  match db_get s l id with Some e => SequenceNumber (e_lsp e) + 1 | None => 1 end.

(** The content has a wire form that fits this node's buffer. *)
Definition originable (s : Server) (l : Level) (id : LSPID) (tlvs : list TLV) (att : bool) (now : Z) : Prop :=
  (exists b, MarshalTLVs (with_auth (authKey s l) tlvs) = Ok b) /\
  exists raw p, serializeLSP hmac s (own_lsp s l id (next_seq s l id) att (own_overload s id now)
      (with_auth (authKey s l) tlvs)) = Ok (raw, p) /\ Z.of_nat (length raw) <= lspBufferSize s.

Lemma unchanged_iff s l id tlvs att force now body r :
  MarshalTLVs (with_auth (authKey s l) tlvs) = Ok body ->
  unchanged (db_get s l id) force att (own_overload s id now) body = Ok r ->
  r = true <-> force = false /\ same_content s l id tlvs att now.
Proof using.
  intros Hb H. unfold unchanged in H. unfold same_content. destruct (db_get s l id) as [e|].
  2:{ injection H as <-. split; [done|]. by intros (_ & e & b & ? & _). }
  destruct (e_own e && _ && _ && _ && _) eqn:Ec.
  - rewrite !andb_true_iff, bool_decide_eq_true, !Bool.eqb_true_iff in Ec.
    destruct Ec as ((((Ho & Hp) & Hf) & Hov) & Hat). apply negb_true_iff in Hf.
    destruct (MarshalTLVs (LSP_TLVs (e_lsp e))) as [b|x|] eqn:Em; [| |done]; injection H as <-.
    + rewrite bool_decide_eq_true. split.
      * intros <-. split; [done|]. by exists e, body.
      * intros (_ & e' & b' & [= <-] & _ & _ & _ & _ & H1 & H2). congruence.
    + split; [done|]. intros (_ & e' & b' & [= <-] & _ & _ & _ & _ & H1 & _). congruence.
  - injection H as <-. split; [done|]. intros (-> & e' & b & [= <-] & Ho & Hp & Hov & Hat & _).
    rewrite Ho, bool_decide_true, Hov, Hat, !Bool.eqb_reflx in Ec by done. done.
Qed.

(** The state after a new copy is stored and flooded. *)
Definition stored (s : Server) (l : Level) (id : LSPID) (e : lspEntry) (now : Z) : Server :=
  floodLSP (markDirty (db_put s l id e)) l id None now.

Lemma stored_get s l id e now l' id' :
  is_Some (dbs s !! l) ->
  db_get (stored s l id e now) l' id' = if decide (l = l' /\ id = id') then Some e else db_get s l' id'.
Proof using.
  intros Hl. unfold stored. rewrite db_get_flood, db_get_put. destruct (decide (l = l' /\ id = id')) as [[<- <-]|Hne].
  - by rewrite decide_True.
  - rewrite decide_False; [done|]. intros (? & ? & _). by apply Hne.
Qed.

(** The last step: serialize the new copy, store it and flood it, if it fits. *)
Lemma originate_store s l id seq tlvs att now s' :
  unless_err (serializeLSP hmac s (own_lsp s l id seq att (own_overload s id now) (with_auth (authKey s l) tlvs))) s
    (fun '(raw, lsp) =>
     if lspBufferSize s <? Z.of_nat (length raw) then mret s else
     mret (floodLSP (markDirty (db_put s l id
       (mkLspEntry lsp raw now maxAgeSeconds true None (refreshDeadline now (rand id))))) l id None now)) = Ok s' ->
  (s' = s /\ ~ exists raw p, serializeLSP hmac s (own_lsp s l id seq att (own_overload s id now)
      (with_auth (authKey s l) tlvs)) = Ok (raw, p) /\ Z.of_nat (length raw) <= lspBufferSize s) \/
  (exists e, s' = stored s l id e now /\ own_entry s l id tlvs att now e /\ SequenceNumber (e_lsp e) = seq).
Proof using.
  intros H. destruct (serializeLSP hmac s _) as [[raw p]|x|] eqn:Es; cbn [unless_err] in H; [| |done].
  2:{ injection H as <-. left. split; [done|]. by intros (? & ? & ? & _). }
  destruct (Z.ltb_spec (lspBufferSize s) (Z.of_nat (length raw))) as [Hbig|Hfit]; injection H as <-.
  - left. split; [done|]. intros (raw' & p' & [= <- <-] & Hle). lia.
  - right. destruct (serializeLSP_fields _ _ _ _ _ Es) as [sum ->]. eexists. split; [done|].
    by split; [by repeat split|].
Qed.

Lemma originate_cases s l id tlvs att force now s' :
  not_held s l id now -> (forall e, db_get s l id = Some e -> u32_ok (SequenceNumber (e_lsp e))) ->
  originate hmac rand s l id tlvs att force now = Ok s' ->
  is_Some (dbs s !! l) /\
  ((s' = s /\ ((force = false /\ same_content s l id tlvs att now) \/ ~ originable s l id tlvs att now)) \/
   (exists e b, s' = stored s l id e now /\ own_entry s l id tlvs att now e /\
      SequenceNumber (e_lsp e) = next_seq s l id /\ next_seq s l id <= maxLSPSeq /\
      MarshalTLVs (with_auth (authKey s l) tlvs) = Ok b) \/
   (exists x, db_get s l id = Some x /\ SequenceNumber (e_lsp x) = maxLSPSeq /\ exhaustSeq hmac s l id now = Ok s')).
Proof using.
  intros Hheld Hok H. unfold originate in H. apply bind_Ok in H as (db & Hdb & H).
  assert (Hl : dbs s !! l = Some db) by (unfold the_db in Hdb; destruct (dbs s !! l); [by injection Hdb as ->|done]).
  assert (Hg : db_get s l id = db !! id) by (unfold db_get; by rewrite Hl). rewrite <- Hg in H.
  split; [by eexists|].
  destruct (match seqWrapUntil s !! (l, id) with Some until => now <? until | None => false end) eqn:Ew.
  { destruct (seqWrapUntil s !! (l, id)) as [u|] eqn:Eu; [|done]. specialize (Hheld u Eu). lia. }
  destruct (MarshalTLVs (with_auth (authKey s l) tlvs)) as [body|x|] eqn:Eb; cbn [unless_err] in H; [| |done].
  2:{ injection H as <-. left. split; [done|]. right. intros [[b Hb] _]. congruence. }
  fold (own_overload s id now) in H. apply bind_Ok in H as (same & Hsame & H).
  apply (unchanged_iff _ _ _ _ _ _ _ _ _ Eb) in Hsame.
  destruct same; [injection H as <-; left; split; [done|]; left; by apply Hsame|].
  assert (Hst : forall seq, seq = next_seq s l id -> next_seq s l id <= maxLSPSeq ->
    unless_err (serializeLSP hmac s (own_lsp s l id seq att (own_overload s id now) (with_auth (authKey s l) tlvs))) s
    (fun '(raw, lsp) =>
     if lspBufferSize s <? Z.of_nat (length raw) then mret s else
     mret (floodLSP (markDirty (db_put s l id
       (mkLspEntry lsp raw now maxAgeSeconds true None (refreshDeadline now (rand id))))) l id None now)) = Ok s' ->
    (s' = s /\ ~ originable s l id tlvs att now) \/
    exists e, s' = stored s l id e now /\ own_entry s l id tlvs att now e /\ SequenceNumber (e_lsp e) = next_seq s l id).
  { intros seq -> _ Hu. apply originate_store in Hu as [[-> Hn]|?]; [left|by right]. split; [done|]. by intros [_ ?]. }
  assert (Hres : next_seq s l id <= maxLSPSeq ->
    (s' = s /\ ~ originable s l id tlvs att now) \/
    (exists e, s' = stored s l id e now /\ own_entry s l id tlvs att now e /\ SequenceNumber (e_lsp e) = next_seq s l id) ->
    (s' = s /\ ((force = false /\ same_content s l id tlvs att now) \/ ~ originable s l id tlvs att now)) \/
    exists e b, s' = stored s l id e now /\ own_entry s l id tlvs att now e /\
      SequenceNumber (e_lsp e) = next_seq s l id /\ next_seq s l id <= maxLSPSeq /\ Ok body = Ok b).
  { intros Hle [[-> Hn]|(e & H1 & H2 & H3)]; [left; by auto|right]. by exists e, body. }
  destruct (db_get s l id) as [x|] eqn:Ex.
  - specialize (Hok x eq_refl). unfold u32_ok in Hok.
    destruct (Z.eqb_spec (SequenceNumber (e_lsp x)) maxLSPSeq) as [Hm|Hm]; [right; right; by exists x|].
    assert (Hn : next_seq s l id = SequenceNumber (e_lsp x) + 1) by (unfold next_seq; by rewrite Ex).
    assert (Hle : next_seq s l id <= maxLSPSeq) by (unfold maxLSPSeq in *; lia).
    apply Hst in H; [|unfold u32; rewrite Z.mod_small by (unfold maxLSPSeq in *; lia); by rewrite Hn|done].
    apply Hres in H; [|done]. tauto.
  - assert (Hn : next_seq s l id = 1) by (unfold next_seq; by rewrite Ex).
    assert (Hle : next_seq s l id <= maxLSPSeq) by (unfold maxLSPSeq; lia).
    apply Hst in H; [|done|done]. apply Hres in H; [|done]. tauto.
Qed.

(** C22: originating an LSP of this node's own, whose ID is not held down, stores
    and floods a new copy under exactly the next sequence number, or does nothing
    because the stored copy already says the same (and no refresh is forced) or
    because the content has no wire form that fits the buffer.  At the last sequence
    number it holds the ID down instead of wrapping round, and a purge of no lifetime
    and that number takes the place of the LSP and is flooded, unless a purge of this
    node's has no wire form: it has one wherever the system ID is of 6 octets and the
    level does not sign.  No other LSP is touched. *)
Theorem originate_advances s l id tlvs att force now s' :
  not_held s l id now -> (forall e, db_get s l id = Some e -> u32_ok (SequenceNumber (e_lsp e))) ->
  originate hmac rand s l id tlvs att force now = Ok s' ->
  (forall l' id', (l', id') <> (l, id) -> db_get s' l' id' = db_get s l' id') /\
  ((s' = s /\ ((force = false /\ same_content s l id tlvs att now) \/ ~ originable s l id tlvs att now)) \/
   (exists e, db_get s' l id = Some e /\ own_entry s l id tlvs att now e /\
      SequenceNumber (e_lsp e) = next_seq s l id /\ next_seq s l id <= maxLSPSeq /\ flooded s s' l id now) \/
   (exists x, db_get s l id = Some x /\ SequenceNumber (e_lsp x) = maxLSPSeq /\
      seqWrapUntil s' !! (l, id) = Some (now + seqWrapHold) /\
      (purged_out s s' l id now \/ ~ purgeable s l id /\ db_get s' l id = Some x))) /\
  (length (systemID s) = 6%nat -> spec_on (authKey s l) = false -> purgeable s l id).
Proof using.
  intros Hheld Hok H. apply and_assoc. split.
  2:{ intros H6 Hoff. destruct (makePurge_Ok hmac s l id maxLSPSeq H6 Hoff) as (lsp & raw & Hp).
      unfold makePurge in Hp. apply bind_Ok in Hp as ([r q] & Hs & _). by exists r, q. }
  destruct (originate_cases _ _ _ _ _ _ _ _ Hheld Hok H)
    as (Hl & [Hsame|[(e & b & -> & Ho & Hs & Hle & _)|(x & Hx & Hm & Hex)]]); [|clear H|clear H].
  - destruct Hsame as [-> Hwhy]. split; [done|]. by left.
  - split; [intros l' id' Hne; rewrite stored_get, decide_False; [done|naive_solver|done]|].
    right; left. exists e. rewrite stored_get, decide_True by done. do 4 (split; [done|]).
    apply (floodLSP_flooded (markDirty (db_put s l id e))).
  - pose proof (exhaustSeq_held _ _ _ _ _ Hex) as [Hh Hfr]. split; [done|]. right; right. exists x.
    do 3 (split; [done|]). destruct (exhaustSeq_purges _ _ _ _ _ Hl Hex) as [Hp|[Hn E]]; [by left|right].
    split; [done|]. unfold db_get in *. by rewrite E.
Qed.

(** What has been originated is not originated again: given the same
    content, with the same overload bit, nothing changes, nothing is flooded and
    the sequence number stays, however often it is asked for. *)
Theorem originate_idempotent s l id tlvs att force now s' rand' now' :
  not_held s l id now -> (forall e, db_get s l id = Some e -> u32_ok (SequenceNumber (e_lsp e))) ->
  originate hmac rand s l id tlvs att force now = Ok s' -> s' <> s ->
  now <= now' < now + seqWrapHold -> own_overload s' id now' = own_overload s id now ->
  originate hmac rand' s' l id tlvs att false now' = Ok s'.
Proof using.
  intros Hheld Hok H Hne Hnow Hov.
  destruct (originate_cases _ _ _ _ _ _ _ _ Hheld Hok H)
    as (Hl & [[-> _]|[(e & b & -> & Ho & _ & _ & Hb)|(x & Hx & Hm & Hex)]]); [done|clear H|clear H].
  - destruct Ho as (H1 & H2 & _ & _ & H3 & H4 & H5 & _).
    assert (Hdb : exists db, dbs (stored s l id e now) !! l = Some db /\ db !! id = Some e).
    { destruct Hl as [db Hdb]. exists (<[id := e]> db). split; [|apply lookup_insert_eq].
      unfold stored, db_put. cbn. by rewrite lookup_alter, decide_True, Hdb. }
    destruct Hdb as (db & Hdb & Hid). unfold originate, the_db. rewrite Hdb. cbn [mbind outcome_bind]. rewrite Hid.
    change (seqWrapUntil (stored s l id e now)) with (seqWrapUntil s).
    change (authKey (stored s l id e now) l) with (authKey s l). rewrite Hb. cbn [unless_err].
    fold (own_overload (stored s l id e now) id now'). rewrite Hov. unfold unchanged.
    rewrite H1, H2, H3, H4, H5, !Bool.eqb_reflx, Hb. rewrite !bool_decide_true by done. cbn.
    by destruct (match seqWrapUntil s !! (l, id) with Some u => now' <? u | None => false end).
  - apply exhaustSeq_held in Hex as Hh. destruct Hh as [Hh _]. unfold originate.
    assert (Hl' : is_Some (dbs s' !! l)).
    { apply exhaustSeq_writes in Hex as [E|(e & E & _)]; [by rewrite E|].
      rewrite E, lookup_alter, decide_True by done. by apply fmap_is_Some. }
    destruct Hl' as [db Hdb]. unfold the_db. rewrite Hdb. cbn [mbind outcome_bind]. rewrite Hh.
    by rewrite (proj2 (Z.ltb_lt _ _)) by lia.
Qed.
End Originate.

(** ** Leftover fragments *)

Section Stale.
Context (hmac : AuthAlgorithm -> bytes -> bytes -> bytes).

(** What a purge of an own LSP leaves of its entry. *)
Definition purged_from (now : Z) (e : lspEntry) (o : option lspEntry) : Prop :=
  exists e', o = Some e' /\ e_purgedAt e' = Some now /\ RemainingTime (e_lsp e') = 0 /\
    SequenceNumber (e_lsp e) <= SequenceNumber (e_lsp e').

Lemma put_purge_spec s l id e p raw now seq :
  is_Some (dbs s !! l) -> SequenceNumber (e_lsp e) <= seq -> SequenceNumber p = seq -> RemainingTime p = 0 ->
  let s' := floodLSP (markDirty (db_put s l id (purge_entry p raw true zeroTime now))) l id None now in
  same_scope s s' /\ purged_from now e (db_get s' l id) /\
  (forall l' id', (l', id') <> (l, id) -> db_get s' l' id' = db_get s l' id').
Proof using.
  intros Hl Hle Hs Hr s'. split; [apply (same_scope_put s l id)|].
  change s' with (stored s l id (purge_entry p raw true zeroTime now) now). split.
  - eexists. rewrite stored_get, decide_True by done. split; [done|]. split; [done|]. split; [done|]. cbn. lia.
  - intros l' id' Hne. rewrite stored_get, decide_False; [done| |done]. intros [<- <-]. by apply Hne.
Qed.

Lemma purgeOwn_purges s l id e now s' :
  length (systemID s) = 6%nat -> spec_on (authKey s l) = false ->
  db_get s l id = Some e -> u32_ok (SequenceNumber (e_lsp e)) ->
  purgeOwn hmac s l id now = Ok s' ->
  same_scope s s' /\ purged_from now e (db_get s' l id) /\
  (forall l' id', (l', id') <> (l, id) -> db_get s' l' id' = db_get s l' id').
Proof using.
  intros Hid Hoff He Hu H. unfold purgeOwn in H. apply bind_Ok in H as (db & Hdb & H).
  assert (Hl : dbs s !! l = Some db) by (unfold the_db in Hdb; destruct (dbs s !! l); [by injection Hdb as ->|done]).
  assert (Hg : db !! id = Some e) by (unfold db_get in He; by rewrite Hl in He). rewrite Hg in H.
  unfold u32_ok in Hu. destruct (Z.eqb_spec (SequenceNumber (e_lsp e)) maxLSPSeq) as [Hm|Hm].
  - unfold exhaustSeq in H. set (s1 := match _ with None => _ | Some _ => _ end) in H.
    assert (E1 : systemID s1 = systemID s /\ authKeys s1 = authKeys s /\ dbs s1 = dbs s)
      by (subst s1; by destruct (seqWrapUntil s !! (l, id))). clearbody s1. destruct E1 as (E1 & E2 & E3).
    set (s2 := set_seqWrap s1 _) in H.
    destruct (makePurge_Ok hmac s2 l id maxLSPSeq) as (lsp & raw & Hp); [by rewrite <- Hid, <- E1| |].
    { unfold authKey in *. cbn [s2 set_seqWrap authKeys]. by rewrite E2. }
    rewrite Hp in H. cbn [unless_err] in H. apply makePurge_fields in Hp as (Hs & Hr & _).
    apply bind_Ok in H as (d & _ & [= <-]).
    destruct (put_purge_spec s2 l id e lsp raw now maxLSPSeq) as (Hsc & Hpu & Hfr);
      [by rewrite <- E3 in Hl; eexists|lia|done|done|].
    split; [|split; [exact Hpu|]].
    + destruct Hsc as (S1 & S2 & S3). split; [by rewrite S1|]. split; [by rewrite S2|]. intros k. rewrite S3.
      cbn [s2 set_seqWrap dbs]. by rewrite E3.
    + intros l' id' Hne. rewrite Hfr by done. unfold db_get. cbn [s2 set_seqWrap dbs]. by rewrite E3.
  - destruct (makePurge_Ok hmac s l id (u32 (SequenceNumber (e_lsp e) + 1))) as (lsp & raw & Hp); [done|done|].
    rewrite Hp in H. cbn [unless_err] in H. apply makePurge_fields in Hp as (Hs & Hr & _). injection H as <-.
    apply (put_purge_spec s l id e lsp raw now (u32 (SequenceNumber (e_lsp e) + 1))); [by eexists| |done|done].
    unfold u32, maxLSPSeq in *. rewrite Z.mod_small; lia.
Qed.

(** What [purgeStaleFragments] makes of an entry. *)
Definition swept (s : Server) (pn keep now : Z) (id : LSPID) (old new : option lspEntry) : Prop :=
  match old with
  | Some e => if stale s pn keep id e then purged_from now e new else new = Some e
  | None => new = None
  end.

Lemma swept_scope s s' pn keep now id old new :
  same_scope s s' -> swept s' pn keep now id old new -> swept s pn keep now id old new.
Proof using. intros (E & _). unfold swept, stale. by rewrite E. Qed.

Lemma stale_loop_sweeps s l pn keep order now s' :
  length (systemID s) = 6%nat -> spec_on (authKey s l) = false ->
  (forall id e, id ∈ order -> db_get s l id = Some e -> u32_ok (SequenceNumber (e_lsp e))) -> NoDup order ->
  stale_loop hmac s l pn keep order now = Ok s' ->
  (forall id, id ∈ order -> swept s pn keep now id (db_get s l id) (db_get s' l id)) /\
  (forall id, id ∉ order -> db_get s' l id = db_get s l id).
Proof using.
  revert s. induction order as [|k order IH]; intros s Hid Hoff Hu Hnd H; cbn [stale_loop] in H.
  { injection H as <-. split; [|done]. intros id Hin. by apply elem_of_nil in Hin. }
  apply NoDup_cons in Hnd as [Hk Hnd]. apply bind_Ok in H as (s1 & H1 & H).
  assert (Hstep : same_scope s s1 /\ swept s pn keep now k (db_get s l k) (db_get s1 l k) /\
    forall id, id <> k -> db_get s1 l id = db_get s l id).
  { unfold swept. destruct (db_get s l k) as [e|] eqn:Ek.
    - destruct (stale s pn keep k e) eqn:Es.
      + destruct (purgeOwn_purges s l k e now s1 Hid Hoff Ek (Hu k e (list_elem_of_here _ _) Ek) H1) as (Ha & Hb & Hc).
        split; [done|]. split; [done|]. intros id Hne. apply Hc. congruence.
      + injection H1 as <-. by rewrite Ek.
    - injection H1 as <-. by rewrite Ek. }
  destruct Hstep as (Hsc & Hsw & Hfr).
  destruct (IH s1) as [Hin Hout]; [by destruct Hsc as (-> & _)|by rewrite (same_scope_authKey _ _ l Hsc)| |done|done|].
  { intros id e Hi He. rewrite Hfr in He by (by intros ->). eapply Hu; [by right|exact He]. }
  split.
  - intros id Hi. apply elem_of_cons in Hi as [->|Hi]; [by rewrite Hout|].
    assert (Hne : id <> k) by (by intros ->). rewrite <- (Hfr id Hne). eapply swept_scope; [exact Hsc|]. by apply Hin.
  - intros id Hi. apply not_elem_of_cons in Hi as [Hne Hni]. by rewrite Hout, Hfr.
Qed.

(** Sweeping a shrunk (or abandoned) LSP leaves no stale fragment alive: in
    whatever order the database is visited, every live LSP of this node's own with
    that pseudonode number and a fragment number from [keep] on becomes a purge
    under a sequence number no lower, and no other LSP of the level changes. *)
Theorem purgeStaleFragments_sweeps s l pn keep order now s' :
  length (systemID s) = 6%nat -> spec_on (authKey s l) = false ->
  (forall id e, db_get s l id = Some e -> u32_ok (SequenceNumber (e_lsp e))) ->
  NoDup order -> (forall id, is_Some (db_get s l id) -> id ∈ order) ->
  purgeStaleFragments hmac s l pn keep order now = Ok s' ->
  forall id, swept s pn keep now id (db_get s l id) (db_get s' l id).
Proof using.
  intros Hid Hoff Hu Hnd Hcov H id. unfold purgeStaleFragments in H. apply bind_Ok in H as (db & _ & H).
  destruct (stale_loop_sweeps s l pn keep order now s' Hid Hoff (fun id e _ => Hu id e) Hnd H) as [Hin Hout].
  destruct (decide (id ∈ order)) as [Hi|Hi]; [by apply Hin|]. rewrite (Hout id Hi). unfold swept.
  destruct (db_get s l id) as [e|] eqn:He; [|done]. destruct Hi. apply Hcov. by eexists.
Qed.
End Stale.

(** ** Packing *)

(** [tlvChunks] loses nothing, keeps the order, and cuts a list into TLVs
    that each hold as much as one can (an entry too long for any TLV alone is left
    in one of its own); for an encoding whose length grows with its entries no
    other way to cut the list needs fewer TLVs. *)
Theorem tlvChunks_fewest {E} (mk : list E -> TLV) (es : list E) (out : list TLV) :
  tlvChunks mk es = Ok out ->
  chunked mk es out /\
  (shrinks mk -> forall p, Forall (fits mk) p -> concat p = es -> (length out <= length p)%nat).
Proof.
  intros H. split; [by apply (chunk_loop_chunked mk es [] out); [left|]|].
  intros Hs p Hp Hcat. by apply (chunk_loop_fewest mk (length p) es [] p out); [| | | |left|].
Qed.

(** The fragments of an LSP hold its TLVs in order, the fixed ones first and
    in fragment 0; a fragment overruns the budget only when it is the fixed TLVs
    alone or one TLV that cannot be divided. *)
Theorem packLSPFragments_fits (fixed variable : list TLV) (budget : Z) (frags : list (list TLV)) :
  packLSPFragments fixed variable budget = Ok frags ->
  concat frags = fixed ++ variable /\ (exists d tl, frags = (fixed ++ d) :: tl) /\
  forall f b, f ∈ frags -> serializeTLVs f = Ok b ->
    f = fixed \/ length f = 1%nat \/ Z.of_nat (length b) <= budget.
Proof.
  unfold packLSPFragments. intros H. apply bind_Ok in H as (size & Hs & H).
  apply (pack_frags_spec budget fixed) in H as (Hc & Hh & Hall); [|done|by left].
  split; [done|]. split; [done|]. intros f b Hf Hb. rewrite Forall_forall in Hall.
  destruct (Hall f Hf) as [?|[?|(n & Hn & Hle)]]; [by left|by right; left|right; right].
  by rewrite (tlvsLen_bytes _ _ _ Hb Hn).
Qed.

(** ** At concrete inputs *)

Definition node_id : LSPID := lspID (systemID sample_server) 0.
Definition node_tlvs : list TLV := [AreaAddressesTLV [[73; 0; 1]]].
Definition first_copy : Server :=
  or_self sample_server (originate toy_hmac (fun _ => 0) sample_server Level2 node_id node_tlvs false false 0).

Lemma node_not_held : not_held sample_server Level2 node_id 0.
Proof. intros u H. vm_compute in H. discriminate. Qed.

Lemma sample_own_seqs id e : db_get sample_server Level2 id = Some e -> u32_ok (SequenceNumber (e_lsp e)).
Proof. apply sample_seqs_ok. Qed.

(** The same server, its own LSP at the last sequence number. *)
Definition worn_server : Server := db_put sample_server Level2 node_id (sample_entry maxLSPSeq true).
Definition worn_out : Server :=
  or_self worn_server (originate toy_hmac (fun _ => 0) worn_server Level2 node_id node_tlvs false false 0).

Lemma worn_seqs e : db_get worn_server Level2 node_id = Some e -> u32_ok (SequenceNumber (e_lsp e)).
Proof. intros E. vm_compute in E. injection E as <-. by vm_compute. Qed.

Lemma worn_not_held : not_held worn_server Level2 node_id 0.
Proof. intros u H. vm_compute in H. discriminate. Qed.

(** A first copy is stored under sequence number 1; a copy at the last number is
    purged and its ID held down. *)
Lemma originate_advances_witness :
  (exists e, db_get first_copy Level2 node_id = Some e /\ own_entry sample_server Level2 node_id node_tlvs false 0 e /\
    SequenceNumber (e_lsp e) = 1) /\
  seqWrapUntil worn_out !! (Level2, node_id) = Some seqWrapHold /\
  purged_out toy_hmac worn_server worn_out Level2 node_id 0.
Proof.
  split.
  - pose proof (originate_advances toy_hmac (fun _ => 0) sample_server Level2 node_id node_tlvs false false 0 first_copy
      node_not_held (sample_own_seqs node_id) ltac:(by vm_compute)) as (_ & [[E _]|[(e & He & Ho & Hs & _)|(x & Hx & _)]] & _).
    + apply (f_equal (fun s => bool_decide (db_get s Level2 node_id = None))) in E. vm_compute in E. discriminate.
    + exists e. split; [exact He|]. split; [exact Ho|]. rewrite Hs. by vm_compute.
    + vm_compute in Hx. discriminate.
  - pose proof (originate_advances toy_hmac (fun _ => 0) worn_server Level2 node_id node_tlvs false false 0 worn_out
      worn_not_held worn_seqs ltac:(by vm_compute)) as (_ & [[E _]|[(e & _ & _ & Hs & Hle & _)|(x & _ & _ & Hh & Hp)]] & Hable).
    + apply (f_equal (fun s => bool_decide (seqWrapUntil s !! (Level2, node_id) = None))) in E. vm_compute in E. discriminate.
    + vm_compute in Hle. exfalso. apply Hle. reflexivity.
    + split; [exact Hh|]. destruct Hp as [Hp|[Hn _]]; [exact Hp|]. exfalso. apply Hn, Hable; by vm_compute.
Defined.

Lemma originate_idempotent_witness :
  originate toy_hmac (fun _ => 7) first_copy Level2 node_id node_tlvs false false (3 * Second) = Ok first_copy.
Proof.
  apply (originate_idempotent toy_hmac (fun _ => 0) sample_server Level2 node_id node_tlvs false false 0).
  - exact node_not_held.
  - exact (sample_own_seqs node_id).
  - by vm_compute.
  - intros H. apply (f_equal (fun s => bool_decide (db_get s Level2 node_id = None))) in H. vm_compute in H. discriminate.
  - by vm_compute.
  - by vm_compute.
Defined.

(** A server that owns a third fragment it no longer needs. *)
Definition third_id : LSPID := lspIDFrag (systemID sample_server) 0 2.
Definition grown : Server :=
  set_dbs sample_server {[ Level2 := {[ third_id := sample_entry 5 true ]} ]}.
Definition shrunk : Server :=
  or_self grown (purgeStaleFragments toy_hmac grown Level2 0 2 [third_id] 0).

Lemma purgeStaleFragments_sweeps_witness :
  stale grown 0 2 third_id (sample_entry 5 true) = true /\
  swept grown 0 2 0 third_id (db_get grown Level2 third_id) (db_get shrunk Level2 third_id).
Proof.
  split; [by vm_compute|].
  apply (purgeStaleFragments_sweeps toy_hmac grown Level2 0 2 [third_id] 0 shrunk).
  - done.
  - by vm_compute.
  - intros id e He. unfold db_get in He. cbn [grown set_dbs dbs] in He.
    apply bind_Some in He as (db & Hdb & He). apply lookup_singleton_Some in Hdb as [_ <-].
    apply lookup_singleton_Some in He as [_ <-]. by vm_compute.
  - apply NoDup_singleton.
  - intros id [e He]. unfold db_get in He. cbn [grown set_dbs dbs] in He.
    apply bind_Some in He as (db & Hdb & He). apply lookup_singleton_Some in Hdb as [_ <-].
    apply lookup_singleton_Some in He as [<- _]. left.
  - by vm_compute.
Defined.

(** Forty-two SNPAs fill one TLV 6: fifty need two. *)
Definition many_snpas : list SNPA := (fun n => [2; 0; 0; 0; 0; Z.of_nat n]) <$> seq 0 50.
Definition neighbor_tlvs : list TLV :=
  match tlvChunks ISNeighborsTLV many_snpas with Ok out => out | _ => [] end.

Lemma tlvChunks_fewest_witness :
  length neighbor_tlvs = 2%nat /\
  forall p, Forall (fits ISNeighborsTLV) p -> concat p = many_snpas -> (length neighbor_tlvs <= length p)%nat.
Proof.
  split; [by vm_compute|].
  apply (tlvChunks_fewest ISNeighborsTLV many_snpas neighbor_tlvs); [by vm_compute|].
  by apply (concatM_shrinks _ snpa_encode).
Defined.

Definition area_tlv (n : Z) : TLV := AreaAddressesTLV [[73; 0; n]].
Definition three_frags : list (list TLV) :=
  match packLSPFragments [area_tlv 1] [area_tlv 2; area_tlv 3; area_tlv 4] 13 with Ok f => f | _ => [] end.

Lemma packLSPFragments_fits_witness :
  concat three_frags = [area_tlv 1] ++ [area_tlv 2; area_tlv 3; area_tlv 4] /\
  (exists d tl, three_frags = ([area_tlv 1] ++ d) :: tl) /\
  forall f b, f ∈ three_frags -> serializeTLVs f = Ok b ->
    f = [area_tlv 1] \/ length f = 1%nat \/ Z.of_nat (length b) <= 13.
Proof.
  apply (packLSPFragments_fits [area_tlv 1] [area_tlv 2; area_tlv 3; area_tlv 4] 13 three_frags). by vm_compute.
Defined.
