(* ===== verification/HelloSpec.v ===== *)
(** What a hello does to the adjacencies: the restart hold, the two state
    machines, the padding, the expiry, the gate in front of the update process
    (pkg/server/hello.go, restart.go). *)

From S2P Require Import Prelude.
From S2P Require Import Netip.
From S2P Require Import Ids.
From S2P Require Import Sid.
From S2P Require Import SubTLV.
From S2P Require Import Entries.
From S2P Require Import Tlv.
From S2P Require Import Checksum.
From S2P Require Import Pdu.
From S2P Require Import Auth.
From S2P Require Import Circuit.
From S2P Require Import Dis.
From S2P Require Import Restart.
From S2P Require Import Lsdb.
From S2P Require Import EdgeLog.
From S2P Require Import Server.
From S2P Require Import Flooding.
From S2P Require Import Transmit.
From S2P Require Import Origination.
From S2P Require Import HelloBuild.
From S2P Require Import Hello.
From S2P Require Import HelloFrame.
From S2P Require Import PacketSpec.
From S2P Require Import UpdateSpec.
From S2P Require Import NodeSpec.
Local Open Scope Z_scope.

(** ** The restart hold *)

(** One hello from [src] on the adjacency it refreshes. *)
Definition lan_refresh (c : circuit) (src : SNPA) (a : adjacency) (hn : LANHello * Z) : adjacency :=
  let held := holdForRestart (Some a) (restartTLVOf (LH_TLVs hn.1)) src in
  (lanAdjacency a src hn.1 held (lanState c hn.1 held) hn.2).1.

Lemma lan_refresh_held c src a h now :
  asks_restart (restartTLVOf (LH_TLVs h)) = true -> a_state a = AdjUp -> a_snpa a = src ->
  let a' := lan_refresh c src a (h, now) in
  a_state a' = AdjUp /\ a_snpa a' = src /\ a_restartMode a' = true /\ a_holding a' = a_holding a /\
  a_lastHeard a' = (if a_restartMode a then a_lastHeard a else now).
Proof.
  intros Hr Hs Ha. unfold lan_refresh, holdForRestart. cbn [fst snd]. rewrite Hr, Hs, bool_decide_true by done.
  unfold lanState, lanAdjacency. rewrite Hs. unfold noteRestart, setNeighborAddrs. rewrite Hr.
  cbn. destruct (a_restartMode a); cbn; by rewrite ?Ha.
Qed.

Lemma lan_refresh_fold c src a hs t0 :
  Forall (fun hn => asks_restart (restartTLVOf (LH_TLVs hn.1)) = true) hs ->
  a_state a = AdjUp -> a_snpa a = src -> a_restartMode a = true -> a_lastHeard a = t0 ->
  let a' := fold_left (lan_refresh c src) hs a in
  a_state a' = AdjUp /\ a_holding a' = a_holding a /\ a_lastHeard a' = t0.
Proof.
  intros Hr. revert a. induction Hr as [|[h now] hs Hh Hr IH]; intros a Hs Ha Hm Hl; [done|].
  destruct (lan_refresh_held c src a h now Hh Hs Ha) as (E1 & E2 & E3 & E4 & E5). rewrite Hm in E5.
  cbn [fold_left]. destruct (IH (lan_refresh c src a (h, now))) as (F1 & F2 & F3); [done|done|done|congruence|].
  by rewrite F2.
Qed.

(** C25: (RFC 5306 3.2.1) however many hellos with the RR bit follow the first
    one, the adjacency stays Up, its holding time is the one it had and its timer
    was restarted by the first alone; it runs out when the first hello's hold
    does, and no acknowledgement promises the restarter more time than is left of
    that. *)
Theorem restart_hold_bounded c src a h0 now0 hs :
  a_state a = AdjUp -> a_snpa a = src -> a_restartMode a = false -> u16_ok (a_holding a) ->
  Forall (fun hn => asks_restart (restartTLVOf (LH_TLVs hn.1)) = true) ((h0, now0) :: hs) ->
  let a' := fold_left (lan_refresh c src) ((h0, now0) :: hs) a in
  a_state a' = AdjUp /\
  (forall now, - 2 ^ 62 < now - now0 < 2 ^ 62 -> expired a' now = true <-> now0 + a_holding a * Second < now) /\
  (forall now, now0 <= now <= now0 + a_holding a * Second ->
    now + RestartRemainingTime (restartAck c a' now) * Second <= now0 + a_holding a * Second).
Proof.
  intros Hs Ha Hm Hu Hr a'. apply Forall_cons in Hr as [Hh Hr].
  destruct (lan_refresh_held c src a h0 now0 Hh Hs Ha) as (E1 & E2 & E3 & E4 & E5). rewrite Hm in E5.
  destruct (lan_refresh_fold c src (lan_refresh c src a (h0, now0)) hs now0) as (F1 & F2 & F3); [done..|].
  change (fold_left (lan_refresh c src) hs (lan_refresh c src a (h0, now0))) with a' in F1, F2, F3. split; [done|]. split.
  - intros now Hn. rewrite expired_iff by (split; [by rewrite F2, E4|by rewrite F3]). by rewrite F2, F3, E4.
  - intros now Hn.
    assert (Ht : timer_ok a' now).
    { split; [by rewrite F2, E4|rewrite F3]. unfold u16_ok, Second in *. lia. }
    assert (Hrem : RestartRemainingTime (restartAck c a' now) = restartRemainingTime a' now)
      by (unfold restartAck; by destruct (P2P (cfg c))).
    rewrite Hrem, restartRemaining_eq by done. rewrite F2, F3, E4. unfold u16_ok, Second in *.
    set (x := a_holding a * 1000000000 - (now - now0)). assert (0 <= x) by lia.
    assert (x / 1000000000 * 1000000000 <= x) by (rewrite Z.mul_comm; apply Z.mul_div_le; lia).
    assert (0 <= x / 1000000000) by (apply Z.div_pos; lia). lia.
Qed.

(** ** Expiry *)

Section Expiry.
Context (adj_order : nat -> gmap SystemID adjacency -> list (SystemID * adjacency)).
Context (order_ok : forall k m, adj_order k m ≡ₚ map_to_list m).

(** What is left of a table once the adjacencies that [drop] selects are gone. *)
Definition kept (drop : adjacency -> bool) (oa : option adjacency) : option adjacency :=
  match oa with Some a => if drop a then None else Some a | None => None end.

Definition same_config (c c' : circuit) : Prop := cfg c' = cfg c /\ p2pAdj c' = p2pAdj c.

Lemma adjs_at_del c l id k id' :
  adjs_at (del_adj c l id) k !! id' = if decide (l = k /\ id = id') then None else adjs_at c k !! id'.
Proof using.
  unfold adjs_at, del_adj. cbn [set_adjs adjs]. rewrite lookup_at_level.
  destruct (decide (l = k)) as [<-|Hl]; [|rewrite decide_False by naive_solver; done].
  destruct (adjs c !! l) as [m|]; simpl.
  - destruct (decide (id = id')) as [<-|Hi].
    + rewrite decide_True by done. apply lookup_delete_eq.
    + rewrite decide_False by naive_solver. by apply lookup_delete_ne.
  - rewrite lookup_empty. by destruct (decide _).
Qed.

Lemma emitAdjacencyDown_state s c a l now :
  circuits (emitAdjacencyDown s c a l now) = circuits s /\ systemID (emitAdjacencyDown s c a l now) = systemID s.
Proof using. unfold emitAdjacencyDown, emitAdjacency. destruct (watched _); split; reflexivity. Qed.

Lemma drop_one_circuit s i l id a now c :
  circuits s !! i = Some c ->
  exists c', circuits (drop_one adj_order s i l id a now) !! i = Some c' /\ same_config c c' /\
    (forall k id', adjs_at c' k !! id' = if decide (l = k /\ id = id') then None else adjs_at c k !! id') /\
    forall j, j <> i -> circuits (drop_one adj_order s i l id a now) !! j = circuits s !! j.
Proof using.
  intros Hc. unfold drop_one. rewrite Hc. set (s1 := emitAdjacencyDown s c a l now).
  pose proof (emitAdjacencyDown_state s c a l now) as E. fold s1 in E.
  cbn [upd_circuit set_circuits circuits]. rewrite (proj1 E), (proj2 E), list_lookup_alter_eq, Hc. eexists. split; [done|].
  set (d := del_adj c l id).
  destruct (view_electDIS_adjs (systemID s) d l (orderOf adj_order 1 d l) (orderOf adj_order 2 d l)) as (E1 & E2 & E3).
  split; [split; [exact E3|exact E2]|]. split; [|intros j Hj; by apply list_lookup_alter_ne].
  intros k id'. rewrite <- adjs_at_del. fold d. unfold adjs_at. by rewrite <- E1.
Qed.

(** The visit tears down the adjacency of [id]. *)
Definition hit (drop : adjacency -> bool) (id : SystemID) (p : SystemID * adjacency) : bool :=
  bool_decide (p.1 = id) && drop p.2.

Lemma drop_loop_circuit drop s i l order now c :
  circuits s !! i = Some c ->
  exists c', circuits (drop_loop adj_order drop s i l order now).2 !! i = Some c' /\ same_config c c' /\
    (forall k id, adjs_at c' k !! id =
       if bool_decide (l = k) && existsb (hit drop id) order then None else adjs_at c k !! id) /\
    (forall j, j <> i -> circuits (drop_loop adj_order drop s i l order now).2 !! j = circuits s !! j) /\
    (drop_loop adj_order drop s i l order now).1 = existsb (fun p => drop p.2) order.
Proof using.
  revert s c. induction order as [|[id a] order IH]; intros s c Hc.
  { exists c. split_and!; try done. intros k id. by rewrite andb_false_r. }
  cbn [drop_loop existsb snd]. destruct (drop a) eqn:Ed; cbn [snd fst orb].
  - destruct (drop_one_circuit s i l id a now c Hc) as (c1 & H1 & K1 & A1 & J1).
    destruct (IH _ c1 H1) as (c2 & H2 & K2 & A2 & J2 & C2). exists c2. split; [exact H2|].
    split; [destruct K1, K2; split; congruence|]. split; [|split; [|done]].
    + intros k id'. rewrite A2, A1. unfold hit at 2. cbn [fst snd]. rewrite Ed, andb_true_r.
      destruct (decide (l = k)) as [<-|Hl].
      * rewrite bool_decide_true by done. destruct (decide (id = id')) as [<-|Hi].
        -- rewrite (bool_decide_true (id = id)) by done. rewrite decide_True by (split; reflexivity). destruct (existsb (hit drop id) order); reflexivity.
        -- rewrite bool_decide_false by done. rewrite decide_False by naive_solver. done.
      * rewrite (bool_decide_false (l = k)) by done. by rewrite decide_False by naive_solver.
    + intros j Hj. by rewrite J2, J1.
  - destruct (IH s c Hc) as (c2 & H2 & K2 & A2 & J2 & C2). exists c2. split; [exact H2|].
    split; [exact K2|]. split; [|split; [exact J2|exact C2]].
    intros k id'. rewrite A2. unfold hit at 2. cbn [fst snd]. by rewrite Ed, andb_false_r.
Qed.

Lemma drop_levels_circuit drop s i ls now c :
  circuits s !! i = Some c -> NoDup ls ->
  exists c', circuits (drop_levels adj_order drop s i ls now).2 !! i = Some c' /\ same_config c c' /\
    (forall k id, adjs_at c' k !! id =
       if decide (k ∈ ls) then kept drop (adjs_at c k !! id) else adjs_at c k !! id) /\
    (forall j, j <> i -> circuits (drop_levels adj_order drop s i ls now).2 !! j = circuits s !! j) /\
    ((drop_levels adj_order drop s i ls now).1 = true <->
       exists k id a, k ∈ ls /\ adjs_at c k !! id = Some a /\ drop a = true).
Proof using order_ok.
  revert s c. induction ls as [|l ls IH]; intros s c Hc Hnd.
  { exists c. split; [done|]. split; [done|]. split; [|split; [done|]].
    - intros k id. rewrite decide_False by apply not_elem_of_nil. done.
    - split; [done|]. intros (k & _ & _ & Hk & _). by apply not_elem_of_nil in Hk. }
  apply NoDup_cons in Hnd as [Hni Hnd]. cbn [drop_levels]. rewrite Hc. set (order := orderOf adj_order 0 c l).
  assert (Ho : order ≡ₚ map_to_list (adjs_at c l)) by apply order_ok.
  assert (Hin : forall id a, (id, a) ∈ order <-> adjs_at c l !! id = Some a)
    by (intros id a; rewrite Ho; apply elem_of_map_to_list).
  destruct (drop_loop_circuit drop s i l order now c Hc) as (c1 & H1 & K1 & A1 & J1 & C1).
  destruct (drop_loop adj_order drop s i l order now) as [ch s1]. cbn [fst snd] in *.
  destruct (IH s1 c1 H1 Hnd) as (c2 & H2 & K2 & A2 & J2 & C2).
  destruct (drop_levels adj_order drop s1 i ls now) as [ch' s2]. cbn [fst snd] in *.
  assert (A1' : forall k id, adjs_at c1 k !! id = if decide (k = l) then kept drop (adjs_at c k !! id) else adjs_at c k !! id).
  { intros k id. rewrite A1. destruct (decide (k = l)) as [->|Hk]; [|by rewrite bool_decide_false by done].
    rewrite bool_decide_true by done. cbn [andb]. destruct (existsb (hit drop id) order) eqn:Ee.
    - apply existsb_exists in Ee as ([id' a] & Ha & Hh). apply andb_true_iff in Hh as [Hi%bool_decide_eq_true Da].
      cbn [fst snd] in *. subst id'. apply list_elem_of_In, Hin in Ha. rewrite Ha. simpl. by rewrite Da.
    - destruct (adjs_at c l !! id) as [a|] eqn:Ea; [|done]. simpl. destruct (drop a) eqn:Da; [|done].
      apply not_true_iff_false in Ee. exfalso. apply Ee. apply existsb_exists. exists (id, a).
      split; [by apply list_elem_of_In, Hin|]. unfold hit. cbn [fst snd]. by rewrite bool_decide_true. }
  assert (C1' : ch = true <-> exists id a, adjs_at c l !! id = Some a /\ drop a = true).
  { rewrite C1, existsb_exists. setoid_rewrite <- Hin. split.
    - intros ([id a] & Ha & Da). exists id, a. split; [by apply list_elem_of_In|done].
    - intros (id & a & Ha & Da). exists (id, a). split; [by apply list_elem_of_In|done]. }
  exists c2. split; [exact H2|]. split; [destruct K1, K2; split; congruence|]. split; [|split].
  - intros k id. rewrite A2, A1'. destruct (decide (k = l)) as [->|Hk].
    + rewrite (decide_False (P := l ∈ ls)) by done. by rewrite decide_True by left.
    + apply decide_ext. rewrite elem_of_cons. naive_solver.
  - intros j Hj. by rewrite J2, J1.
  - rewrite orb_true_iff, C1', C2. setoid_rewrite elem_of_cons. split.
    + intros [(id & a & Ha & Da)|(k & id & a & Hk & Ha & Da)].
      * exists l, id, a. split_and!; [by left|done|done].
      * rewrite A1' in Ha. rewrite decide_False in Ha by (intros ->; done). exists k, id, a. split_and!; [by right|done|done].
    + intros (k & id & a & [->|Hk] & Ha & Da).
      * left. by exists id, a.
      * right. exists k, id, a. split; [done|]. rewrite A1', decide_False by (intros ->; done). done.
Qed.

Lemma cfg_levels_nodup (k : CircuitConfig) : NoDup (cfg_levels k).
Proof using.
  unfold cfg_levels. destruct (cfg_Level1 k), (cfg_Level2 k); cbn [app]; [|apply NoDup_singleton..|constructor].
  apply NoDup_cons. split; [|apply NoDup_singleton]. by intros ?%list_elem_of_singleton.
Qed.

(** A sweep of a circuit, for expiry or at an operator's request, removes exactly the
    adjacencies that are to be dropped, on a broadcast circuit at every level of it and in
    whatever order the maps are visited, leaves every other circuit alone, and
    requests a new LSP and a new SPF when anything was removed. *)
Lemma dropAdjacencies_sweeps drop s i c now :
  circuits s !! i = Some c ->
  let s' := dropAdjacencies adj_order s i c drop now in
  exists c', circuits s' !! i = Some c' /\ cfg c' = cfg c /\
    (if P2P (cfg c) then p2pAdj c' = kept drop (p2pAdj c)
     else forall l id, l ∈ cfg_levels (cfg c) -> adjs_at c' l !! id = kept drop (adjs_at c l !! id)) /\
    (forall j, j <> i -> circuits s' !! j = circuits s !! j) /\
    ((if P2P (cfg c) then exists a, p2pAdj c = Some a /\ drop a = true
      else exists l id a, l ∈ cfg_levels (cfg c) /\ adjs_at c l !! id = Some a /\ drop a = true) ->
     lspGenPending s' = true /\ spfDirty s' = true).
Proof using order_ok.
  intros Hc s'. subst s'. unfold dropAdjacencies. destruct (P2P (cfg c)) eqn:Hp.
  - destruct (p2pAdj c) as [a|] eqn:Ea; cbn [kept].
    2:{ exists c. do 2 (split; [done|]). split; [done|]. split; [done|]. by intros (a & ? & _). }
    destruct (drop a) eqn:Ed.
    2:{ exists c. do 2 (split; [done|]). split; [done|]. split; [done|]. intros (b & [= <-] & ?). congruence. }
    unfold teardownP2PAdj. set (s1 := upd_circuit s i _).
    set (s2 := emit_levels _ s1 _).
    assert (E : circuits s2 = circuits s1).
    { unfold s2, emit_levels. generalize (levelSet_levels (a_levels a)) as ls. intros ls. generalize s1.
      induction ls as [|l ls IH]; intros t; [done|]. cbn [fold_left]. rewrite IH. apply emitAdjacencyDown_state. }
    cbn [requestLSPRegen markDirty set_gen circuits upd_circuit set_circuits lspGenPending spfDirty]. rewrite E.
    unfold s1. cbn [upd_circuit set_circuits circuits]. rewrite list_lookup_alter_eq, list_lookup_alter_eq, Hc.
    eexists. split; [done|]. split; [done|]. split; [done|]. split; [|done].
    intros j Hj. by rewrite !list_lookup_alter_ne.
  - destruct (drop_levels_circuit drop s i (cfg_levels (cfg c)) now c Hc (cfg_levels_nodup _))
      as (c' & H1 & (K1 & _) & A1 & J1 & C1).
    destruct (drop_levels adj_order drop s i (cfg_levels (cfg c)) now) as [ch s1]. cbn [fst snd] in *.
    exists c'. split; [by destruct ch|]. split; [done|]. split.
    { intros l id Hl. by rewrite A1, decide_True. }
    split; [intros j Hj; destruct ch; by apply J1|]. intros Hex. apply C1 in Hex as ->. done.
Qed.
(** The expiry sweep of a circuit removes exactly the adjacencies whose
    holding time has run out. *)
Theorem expireAdjacencies_sweeps s i c now :
  circuits s !! i = Some c ->
  let s' := expireAdjacencies adj_order s i c now in
  let drop a := expired a now in
  exists c', circuits s' !! i = Some c' /\ cfg c' = cfg c /\
    (if P2P (cfg c) then p2pAdj c' = kept drop (p2pAdj c)
     else forall l id, l ∈ cfg_levels (cfg c) -> adjs_at c' l !! id = kept drop (adjs_at c l !! id)) /\
    (forall j, j <> i -> circuits s' !! j = circuits s !! j) /\
    ((if P2P (cfg c) then exists a, p2pAdj c = Some a /\ drop a = true
      else exists l id a, l ∈ cfg_levels (cfg c) /\ adjs_at c l !! id = Some a /\ drop a = true) ->
     lspGenPending s' = true /\ spfDirty s' = true).
Proof using order_ok. exact (dropAdjacencies_sweeps (fun a => expired a now) s i c now). Qed.
End Expiry.

(** ** The state machines *)

Section StateMachines.
Context (hmac : AuthAlgorithm -> bytes -> bytes -> bytes).
Context (send_ok : list effect -> bool).
Context (adj_order : nat -> gmap SystemID adjacency -> list (SystemID * adjacency)).

Lemma helloFromSelf_spec s c src :
  (helloFromSelf s c src).1 = bool_decide (src = systemID s) /\ quiet s (helloFromSelf s c src).2.
Proof using.
  unfold helloFromSelf. destruct (bool_decide _); cbn [negb]; [|by split].
  destruct (edge_warn _ _) as [w []]; (split; [done|quiet0]).
Qed.

Lemma quiet_reportRestart s c a held b1 b2 : quiet s (reportRestart s c a held b1 b2).1.
Proof using. unfold reportRestart. cbn [fst]. destruct (a_restartMode a); [quiet0|done]. Qed.

Lemma quiet_dropHello s c r : quiet s (dropHello s c r).
Proof using. quiet0. Qed.

(** What a hello leaves of the neighbor's claims in the adjacency. *)
Lemma p2pAdjacency_fields a src h common held st now :
  let a' := (p2pAdjacency a src h common held st now).1 in
  a_systemID a' = a_systemID a /\ a_snpa a' = src /\ a_levels a' = common /\ a_state a' = st.
Proof using.
  unfold p2pAdjacency, setNeighborAddrs, noteRestart. cbn [fst].
  set (up := negb (is_up (a_state a)) && is_up st). clearbody up. cbn [adj_set_source a_restartMode].
  destruct held, (a_restartMode a), up; split_and!; reflexivity.
Qed.

Lemma p2p_written s1 i c1 oa s' :
  circuits s1 !! i = Some c1 -> quiet (upd_circuit s1 i (fun c => set_p2pAdj c oa)) s' ->
  exists c', circuits s' !! i = Some c' /\ erase_sync <$> p2pAdj c' = erase_sync <$> oa.
Proof using.
  intros H1 Q. destruct (quiet_lookup _ _ i (set_p2pAdj c1 oa) Q) as (c' & Hc' & V).
  { cbn [upd_circuit set_circuits circuits]. by rewrite list_lookup_alter_eq, H1. }
  exists c'. split; [done|]. by apply (f_equal v_p2pAdj) in V.
Qed.

Lemma quiet_p2p s s' i c :
  circuits s !! i = Some c -> quiet s s' ->
  exists c', circuits s' !! i = Some c' /\ erase_sync <$> p2pAdj c' = erase_sync <$> p2pAdj c.
Proof using.
  intros Hc Q. destruct (quiet_lookup _ _ i c Q Hc) as (c' & Hc' & V). exists c'. split; [done|].
  by apply (f_equal v_p2pAdj) in V.
Qed.

Lemma teardown_p2p s i c c0 a now :
  circuits s !! i = Some c -> exists c', circuits (teardownP2PAdj s i c0 a now) !! i = Some c' /\ p2pAdj c' = None.
Proof using.
  intros Hc. pose proof (quiet_teardown_rest s i c0 a now) as Q. cbn zeta in Q.
  destruct (p2p_written s i c None _ Hc Q) as (c' & H1 & H2). exists c'. split; [done|].
  by destruct (p2pAdj c').
Qed.

(** The hello of a neighbor that is restarting, on the adjacency it has Up. *)
Definition p2p_held (c : circuit) (src : SNPA) (h : P2PHello) : Prop :=
  asks_restart (restartTLVOf (PH_TLVs h)) = true /\
  exists b, p2pAdj c = Some b /\ a_systemID b = PH_SourceID h /\ a_state b = AdjUp /\ a_snpa b = src.

Definition same_neighbor (c : circuit) (h : P2PHello) : bool :=
  match p2pAdj c with Some a => bool_decide (a_systemID a = PH_SourceID h) | None => false end.

Lemma p2p_held_iff c src h :
  same_neighbor c h && holdForRestart (p2pAdj c) (restartTLVOf (PH_TLVs h)) src = true <-> p2p_held c src h.
Proof using.
  unfold same_neighbor, holdForRestart, p2p_held. destruct (p2pAdj c) as [b|].
  2:{ rewrite andb_false_r. split; [done|]. by intros (_ & b & [=] & _). }
  rewrite !andb_true_iff, !bool_decide_eq_true. split.
  - intros (Hs & Hr & Hu & Ha). split; [done|]. exists b. split_and!; [done|done| |done]. by destruct (a_state b).
  - intros (Hr & b' & [= <-] & Hs & Hu & Ha). by rewrite Hu.
Qed.

(** The adjacency written and what follows from it. *)
Lemma p2p_kept s i c c1 src h common held st now a0 b1 b2 lv s' :
  circuits s !! i = Some c1 -> a_systemID a0 = PH_SourceID h ->
  (let '(a, changed) := p2pAdjacency a0 src h common held st now in
   let '(s1, edge) := reportRestart s c a held b1 b2 in
   p2pReact hmac send_ok (upd_circuit s1 i (fun c => set_p2pAdj c (Some a))) i (set_p2pAdj c (Some a)) a
     (a_state a0) lv held changed edge (negb (Bool.eqb (a_suppressed a) (a_suppressed a0)))
     (if asks_restart (restartTLVOf (PH_TLVs h)) then Some (restartAck c a now) else None) now) = Ok s' ->
  exists c' a, circuits s' !! i = Some c' /\ erase_sync <$> p2pAdj c' = Some (erase_sync a) /\
    a_systemID a = PH_SourceID h /\ a_snpa a = src /\ a_levels a = common /\ a_state a = st.
Proof using.
  intros Hc Ha0 H. destruct (p2pAdjacency_fields a0 src h common held st now) as (F1 & F2 & F3 & F4).
  destruct (p2pAdjacency a0 src h common held st now) as [a changed]. cbn [fst] in *.
  pose proof (quiet_reportRestart s c a held b1 b2) as Q.
  destruct (reportRestart s c a held b1 b2) as [s1 edge]. cbn [fst] in Q.
  destruct (quiet_lookup _ _ i c1 Q Hc) as (c2 & Hc2 & _). apply quiet_p2pReact in H.
  destruct (p2p_written s1 i c2 (Some a) s' Hc2 H) as (c' & H1 & H2).
  exists c', a. split_and!; [done|done|congruence|done..].
Qed.

Lemma acceptP2PHello_spec s i c src h common now s' c1 :
  circuits s !! i = Some c1 -> p2pAdj c1 = p2pAdj c \/ erase_sync <$> p2pAdj c1 = erase_sync <$> p2pAdj c ->
  acceptP2PHello hmac send_ok s i c src h common now = Ok s' ->
  let three := threeWayTLV (PH_TLVs h) in
  exists c', circuits s' !! i = Some c' /\
    ((erase_sync <$> p2pAdj c' = erase_sync <$> p2pAdj c /\ echoesOther s c three = true) \/
     (p2pAdj c' = None /\ echoesOther s c three = true /\ exists b, p2pAdj c = Some b /\ a_systemID b = PH_SourceID h) \/
     (exists a, erase_sync <$> p2pAdj c' = Some (erase_sync a) /\
        a_systemID a = PH_SourceID h /\ a_snpa a = src /\ a_levels a = common /\
        (p2p_held c src h \/ echoesOther s c three = false) /\
        (a_state a = AdjUp \/ a_state a = AdjInit) /\
        (a_state a = AdjUp <-> p2p_held c src h \/ echoesUs s c three = true))).
Proof using.
  intros Hc1 V1 H three. assert (V : erase_sync <$> p2pAdj c1 = erase_sync <$> p2pAdj c) by (destruct V1; congruence).
  unfold acceptP2PHello in H. fold three in H.
  fold (same_neighbor c h) in H. pose proof (p2p_held_iff c src h) as Hheld.
  set (held := same_neighbor c h && _) in H, Hheld. clearbody held.
  destruct (negb held && echoesOther s c three) eqn:Eo.
  { apply andb_true_iff in Eo as [_ Eo]. unfold same_neighbor in H.
    destruct (p2pAdj c) as [b|] eqn:Eb; [destruct (bool_decide_reflect (a_systemID b = PH_SourceID h)) as [Hs|Hs]|].
    2, 3: injection H as <-; exists c1; (split; [exact Hc1|]); left; by split.
    injection H as <-. destruct (teardown_p2p s i c1 c b now Hc1) as (c' & H1 & H2). exists c'.
    split; [done|]. right; left. split; [done|]. split; [done|]. by exists b. }
  set (st := if held || _ then AdjUp else AdjInit) in H.
  set (s2 := match p2pAdj c with Some a => if same_neighbor c h then s else _ | None => s end) in H.
  assert (H2 : exists c2, circuits s2 !! i = Some c2).
  { subst s2. destruct (p2pAdj c) as [b|]; [|by eexists]. destruct (same_neighbor c h); [by eexists|].
    destruct (teardown_p2p s i c1 c b now Hc1) as (c' & H1 & _). by eexists. }
  destruct H2 as [c2 Hc2]. clearbody s2. set (a0 := match p2pAdj c with Some a => _ | None => _ end) in H.
  assert (Ha0 : a_systemID a0 = PH_SourceID h).
  { subst a0. unfold same_neighbor. destruct (p2pAdj c) as [b|]; [|done].
    by destruct (bool_decide_reflect (a_systemID b = PH_SourceID h)). }
  destruct (p2p_kept s2 i c c2 src h common held st now a0 _ _ _ s' Hc2 Ha0 H)
    as (c' & a & H1 & H2 & K1 & K2 & K3 & K4).
  exists c'. split; [done|]. do 2 right. exists a. split_and!; try done.
  - destruct held; [left; by apply Hheld|]. by right.
  - rewrite K4. subst st. destruct (held || _); [by left|by right].
  - rewrite K4. subst st. rewrite <- Hheld, <- orb_true_iff. by destruct (held || _).
Qed.

(** The levels a hello and this circuit have in common. *)
Definition shares (s : Server) (c : circuit) (h : P2PHello) (l : Level) : Prop :=
  l ∈ cfg_levels (cfg c) /\
  flag (PH_CircuitType h) (match l with Level1 => CircuitTypeLevel1 | Level2 => CircuitTypeLevel2 end) = true /\
  (l = Level1 -> exists x, x ∈ areaAddrs s /\ x ∈ areaAddressesOf (PH_TLVs h)).

Lemma areasOverlap_iff xs ys : areasOverlap xs ys = true <-> exists x, x ∈ xs /\ x ∈ ys.
Proof using.
  unfold areasOverlap. rewrite existsb_exists. setoid_rewrite existsb_exists. setoid_rewrite bool_decide_eq_true.
  setoid_rewrite <- list_elem_of_In. naive_solver.
Qed.

Lemma p2pLevels_shares s c h :
  (forall l, levelSet_has (p2pLevels s c h) l = true <-> shares s c h l) /\
  (p2pLevels s c h = 0 <-> forall l, ~ shares s c h l).
Proof using.
  assert (H1 : forall l, levelSet_has (p2pLevels s c h) l = true <-> shares s c h l).
  { intros l. unfold p2pLevels, shares, commonLevels, cfg_levels. rewrite <- areasOverlap_iff.
    destruct (areasOverlap _ _), (cfg_Level1 (cfg c)), (cfg_Level2 (cfg c)), (flag (PH_CircuitType h) CircuitTypeLevel1) eqn:F1,
      (flag (PH_CircuitType h) CircuitTypeLevel2) eqn:F2, l; cbn [andb negb app]; rewrite ?F1, ?F2.
    all: rewrite ?elem_of_cons, ?elem_of_nil; vm_compute (levelSet_has _ _); intuition congruence. }
  split; [exact H1|]. setoid_rewrite <- H1. split; [by intros ->; destruct l|]. unfold p2pLevels, commonLevels.
  destruct (areasOverlap _ _), (cfg_Level1 (cfg c) && _), (cfg_Level2 (cfg c) && _); cbn [negb andb]; try done.
  all: intros H; first [by destruct (H Level1)|by destruct (H Level2)].
Qed.

(** The sender says its neighbor on the link is this system on this circuit, or is
    another. *)
Definition echoes_this (s : Server) (c : circuit) (t : P2PThreeWayAdjacency) : Prop :=
  Adj_NeighborSystemID t = systemID s /\ Adj_NeighborExtLocalCircuitID t = extCircID c.
Definition echoed (s : Server) (c : circuit) (h : P2PHello) : Prop :=
  exists t, threeWayTLV (PH_TLVs h) = Some t /\ Adj_HasNeighbor t = true /\ echoes_this s c t.
Definition echoed_other (s : Server) (c : circuit) (h : P2PHello) : Prop :=
  exists t, threeWayTLV (PH_TLVs h) = Some t /\ Adj_HasNeighbor t = true /\ ~ echoes_this s c t.

Lemma echoesUs_iff s c h : echoesUs s c (threeWayTLV (PH_TLVs h)) = true <-> echoed s c h.
Proof using.
  unfold echoesUs, echoed, echoes_this. destruct (threeWayTLV _) as [t|]; [|naive_solver].
  rewrite !andb_true_iff, bool_decide_eq_true, Z.eqb_eq. naive_solver.
Qed.

Lemma echoesOther_iff s c h : echoesOther s c (threeWayTLV (PH_TLVs h)) = true <-> echoed_other s c h.
Proof using.
  unfold echoesOther, echoed_other, echoes_this. destruct (threeWayTLV _) as [t|]; [|naive_solver].
  rewrite andb_true_iff, orb_true_iff, !negb_true_iff, bool_decide_eq_false, Z.eqb_neq. split.
  - intros [H1 H2]. exists t. split; [done|]. split; [done|]. tauto.
  - intros (t' & [= <-] & H1 & H2). split; [done|]. destruct (decide (Adj_NeighborSystemID t = systemID s)); [right|by left]. tauto.
Qed.

(** The branches of [processP2PHello]. *)
Lemma threeway_cases s i c src h now s' :
  circuits s !! i = Some c -> processP2PHello hmac send_ok s i c src h now = Ok s' ->
  let three := threeWayTLV (PH_TLVs h) in
  exists c', circuits s' !! i = Some c' /\
    ((erase_sync <$> p2pAdj c' = erase_sync <$> p2pAdj c /\
      (P2P (cfg c) = false \/ PH_HoldingTime h = 0 \/ PH_SourceID h = systemID s \/ p2pLevels s c h = 0 \/
       echoesOther s c three = true)) \/
     (p2pAdj c' = None /\ echoesOther s c three = true /\
      exists b, p2pAdj c = Some b /\ a_systemID b = PH_SourceID h) \/
     (exists a, erase_sync <$> p2pAdj c' = Some (erase_sync a) /\
        PH_SourceID h <> systemID s /\ p2pLevels s c h <> 0 /\
        a_systemID a = PH_SourceID h /\ a_snpa a = src /\ a_levels a = p2pLevels s c h /\
        (p2p_held c src h \/ echoesOther s c three = false) /\
        (a_state a = AdjUp \/ a_state a = AdjInit) /\
        (a_state a = AdjUp <-> p2p_held c src h \/ echoesUs s c three = true))).
Proof using.
  intros Hc H three. unfold processP2PHello in H.
  assert (Refuse : forall s1, quiet s s1 -> exists c', circuits s1 !! i = Some c' /\
            erase_sync <$> p2pAdj c' = erase_sync <$> p2pAdj c) by (intros s1; by apply quiet_p2p).
  destruct (P2P (cfg c)) eqn:Hp; cbn [negb] in H.
  2:{ injection H as <-. destruct (Refuse _ (quiet_dropHello s c dropHelloInvalid)) as (c' & H1 & H2).
      exists c'. split; [exact H1|]. left. split; [exact H2|]. by left. }
  destruct (Z.eqb_spec (PH_HoldingTime h) 0) as [Hh|Hh].
  { injection H as <-. destruct (Refuse _ (quiet_dropHello s c dropHelloInvalid)) as (c' & H1 & H2).
    exists c'. split; [exact H1|]. left. split; [exact H2|]. right. by left. }
  destruct (helloFromSelf_spec s c (PH_SourceID h)) as [Hf Qf].
  destruct (helloFromSelf s c (PH_SourceID h)) as [self s1]. cbn [fst snd] in *.
  pose proof Qf as (_ & _ & Hsys & Hareas & _).
  destruct (Refuse _ Qf) as (c1 & Hc1 & V1). destruct self; symmetry in Hf.
  { apply bool_decide_eq_true in Hf. injection H as <-. exists c1. split; [exact Hc1|]. left. split; [exact V1|].
    do 2 right. by left. }
  apply bool_decide_eq_false in Hf.
  assert (Hpl : p2pLevels s1 c h = p2pLevels s c h) by (unfold p2pLevels; by rewrite Hareas). rewrite Hpl in H.
  assert (Heo : echoesOther s1 c three = echoesOther s c three) by (destruct three; [|done]; cbn; by rewrite Hsys).
  assert (Heu : echoesUs s1 c three = echoesUs s c three) by (destruct three; [|done]; cbn; by rewrite Hsys).
  destruct (Z.eqb_spec (p2pLevels s c h) 0) as [Hl|Hl].
  { injection H as <-. exists c1. split; [exact Hc1|]. left. split; [exact V1|]. do 3 right. by left. }
  destruct (acceptP2PHello_spec s1 i c src h _ now s' c1 Hc1 (or_intror V1) H) as (c' & H1 & D). fold three in D.
  rewrite Heo, Heu in D. exists c'. split; [exact H1|]. destruct D as [[D1 D2]|[D|(a & D1 & D)]].
  - left. split; [exact D1|]. by do 4 right.
  - right; left. exact D.
  - do 2 right. exists a. by split_and!; try apply D.
Qed.

(** C21: (RFC 5303, RFC 5306) a point-to-point hello either is refused and leaves
    the adjacency as it was, or tears down the adjacency of a neighbor that has
    come to echo another system, or leaves an adjacency with its sender, at the
    levels and (for Level 1) the area the two have in common, which is Up exactly
    when the sender echoed this system and circuit or is restarting on an
    adjacency already Up, and Initializing otherwise. *)
Theorem processP2PHello_threeway s i c src h now s' :
  circuits s !! i = Some c -> processP2PHello hmac send_ok s i c src h now = Ok s' ->
  exists c', circuits s' !! i = Some c' /\
    ((erase_sync <$> p2pAdj c' = erase_sync <$> p2pAdj c /\
      (P2P (cfg c) = false \/ PH_HoldingTime h = 0 \/ PH_SourceID h = systemID s \/ (forall l, ~ shares s c h l) \/
       echoed_other s c h)) \/
     (p2pAdj c' = None /\ echoed_other s c h /\ exists b, p2pAdj c = Some b /\ a_systemID b = PH_SourceID h) \/
     (exists a, erase_sync <$> p2pAdj c' = Some (erase_sync a) /\
        PH_SourceID h <> systemID s /\ ~ (forall l, ~ shares s c h l) /\
        a_systemID a = PH_SourceID h /\ a_snpa a = src /\ (forall l, levelSet_has (a_levels a) l = true <-> shares s c h l) /\
        (p2p_held c src h \/ ~ echoed_other s c h) /\
        (a_state a = AdjUp \/ a_state a = AdjInit) /\
        (a_state a = AdjUp <-> p2p_held c src h \/ echoed s c h))).
Proof using.
  intros Hc H. destruct (threeway_cases s i c src h now s' Hc H) as (c' & H1 & D). exists c'. split; [exact H1|].
  destruct (p2pLevels_shares s c h) as [L1 L2]. cbv zeta in D.
  destruct D as [[D0 D]|[(D0 & D)|(a & A1 & A2 & A3 & A4 & A5 & A6 & A7 & A8 & A9)]].
  - left. split; [exact D0|]. by rewrite <- echoesOther_iff, <- L2.
  - right; left. split; [exact D0|]. by rewrite <- echoesOther_iff.
  - do 2 right. exists a. rewrite <- L2, <- echoesOther_iff, <- echoesUs_iff, not_true_iff_false. split_and!; try done.
    intros l. by rewrite A6.
Qed.

(** ** The broadcast state machine *)

(** The adjacencies of a circuit and its configuration. *)
Definition adjs_view (c : circuit) : CircuitConfig * gmap Level (gmap SystemID adjacency) :=
  (v_cfg (view c), v_adjs (view c)).

Lemma quiet_adjs s s' i c :
  circuits s !! i = Some c -> quiet s s' -> exists c', circuits s' !! i = Some c' /\ adjs_view c' = adjs_view c.
Proof using.
  intros Hc Q. destruct (quiet_lookup _ _ i c Q Hc) as (c' & Hc' & V). exists c'. split; [done|].
  unfold adjs_view. by rewrite V.
Qed.

Lemma adjs_view_at c c' l id :
  adjs_view c' = adjs_view c -> erase_sync <$> adjs_at c' l !! id = erase_sync <$> adjs_at c l !! id.
Proof using.
  intros V. apply (f_equal snd) in V. unfold adjs_view in V. cbn [snd view v_adjs] in V.
  apply (f_equal (lookup l)) in V. rewrite !lookup_fmap in V. unfold adjs_at.
  destruct (adjs c' !! l) as [m'|], (adjs c !! l) as [m|]; try done. simpl in *. apply Some_inj in V.
  apply (f_equal (lookup id)) in V. by rewrite !lookup_fmap in V.
Qed.

Lemma adjs_view_seen c c' : adjs_view c' = adjs_view c -> seenIDs c' = seenIDs c.
Proof using.
  intros V. unfold seenIDs. assert (E : cfg c' = cfg c) by (by injection V). rewrite E. f_equal.
  apply list_fmap_ext. intros _ l _. apply set_eq. intros id. rewrite !elem_of_dom.
  pose proof (adjs_view_at c c' l id V) as H. destruct (adjs_at c' l !! id), (adjs_at c l !! id); try done.
Qed.

Lemma lanReact_adjs s i c l a prev held ec ac re sc ack now c0 s' :
  lanReact hmac send_ok adj_order s i c l a prev held ec ac re sc ack now = Ok s' ->
  circuits s !! i = Some c0 ->
  exists c', circuits s' !! i = Some c' /\ adjs_view c' = adjs_view c0.
Proof using.
  unfold lanReact. set (moved := negb (bool_decide (prev = a_state a))). set (s1 := if moved then _ else _). intros H Hc.
  assert (Q1 : quiet s s1) by (subst s1; destruct moved; [quiet0|]; destruct (re && is_up (a_state a)); [quiet0|done]).
  clearbody s1 moved. apply bind_Ok in H as (s2 & H2 & H).
  assert (Q2 : quiet s1 s2).
  { destruct (moved || bool_decide (is_Some ack)); [|by injection H2 as <-].
    apply bind_Ok in H2 as (h & _ & H2). by eapply quiet_sendOne. }
  destruct (quiet_adjs s s2 i c0 Hc) as (c2 & Hc2 & V2); [by etransitivity|].
  set (elects := negb (Bool.eqb _ _) || (is_up (a_state a) && ec)) in H. clearbody elects.
  set (f := fun c : circuit => electDIS (systemID s2) c l _ _) in H.
  assert (Hf : forall c, adjs_view (f c) = adjs_view c).
  { intros k. unfold f, adjs_view. cbn [view v_cfg v_adjs].
    destruct (view_electDIS_adjs (systemID s2) k l (orderOf adj_order 1 k l) (orderOf adj_order 2 k l)) as (E1 & _ & E3).
    by rewrite E1, E3. }
  set (st := if elects then _ else _) in H.
  assert (H3 : exists c3, circuits st.1 !! i = Some c3 /\ adjs_view c3 = adjs_view c0).
  { subst st. destruct elects; cbn [fst]; [|by exists c2].
    cbn [requestLSPRegen markDirty set_gen circuits upd_circuit set_circuits]. rewrite list_lookup_alter_eq, Hc2.
    exists (f c2). split; [done|]. by rewrite Hf. }
  clearbody st f. destruct st as [s3 k], H3 as (c3 & Hc3 & V3). cbn [fst] in Hc3.
  apply bind_Ok in H as (s4 & H4 & [= <-]).
  assert (Q4 : quiet s3 s4) by (destruct (held && restartSyncEligible _ _); [by apply quiet_sync in H4|by injection H4 as <-]).
  destruct (quiet_adjs s3 (if is_up (a_state a) && (ac || sc) then requestLSPRegen s4 else s4) i c3 Hc3)
    as (c4 & Hc4 & V4).
  { etransitivity; [exact Q4|]. destruct (is_up (a_state a) && (ac || sc)); [quiet0|done]. }
  exists c4. split; [exact Hc4|]. congruence.
Qed.
Lemma lanAdjacency_fields a src h held st now :
  let a' := (lanAdjacency a src h held st now).1 in
  a_systemID a' = a_systemID a /\ a_snpa a' = src /\ a_levels a' = levelSet_add (a_levels a) (LH_Level h) /\
  a_priority a' = LH_Priority h /\ a_state a' = st.
Proof using.
  unfold lanAdjacency, setNeighborAddrs, noteRestart. cbn [fst].
  set (up := negb (is_up (a_state a)) && is_up st). clearbody up. cbn [adj_set_source a_restartMode].
  destruct held, (a_restartMode a), up; split_and!; reflexivity.
Qed.

Lemma adjs_at_put c l id a k id' :
  adjs c !! l <> None ->
  adjs_at (put_adj c l id a) k !! id' = if decide (l = k /\ id = id') then Some a else adjs_at c k !! id'.
Proof using.
  intros Hl. unfold adjs_at, put_adj. cbn [set_adjs adjs]. rewrite lookup_at_level.
  destruct (decide (l = k)) as [<-|Hk]; [|rewrite decide_False by naive_solver; done].
  destruct (adjs c !! l) as [m|]; [|done]. simpl. destruct (decide (id = id')) as [<-|Hi].
  - rewrite decide_True by done. apply lookup_insert_eq.
  - rewrite decide_False by naive_solver. by apply lookup_insert_ne.
Qed.

(** A new neighbor costs a slot of the circuit, a known one nothing. *)
Lemma seenIDs_put c l id a :
  adjs c !! l <> None -> seenIDs (put_adj c l id a) ⊆ {[ id ]} ∪ seenIDs c.
Proof using.
  intros Hl x. unfold seenIDs. cbn [put_adj set_adjs cfg]. rewrite elem_of_union, elem_of_singleton, !elem_of_union_list.
  intros (X & HX & Hx). apply list_elem_of_fmap in HX as (k & -> & Hk). apply elem_of_dom in Hx.
  destruct (decide (id = x)) as [<-|Hne]; [by left|]. right.
  eexists. split; [apply list_elem_of_fmap; by exists k|]. apply elem_of_dom.
  rewrite adjs_at_put in Hx by done. by rewrite decide_False in Hx by naive_solver.
Qed.

Lemma size_admit (X Y : gset SystemID) id n :
  X ⊆ {[ id ]} ∪ Y -> (size Y <= n)%nat -> id ∈ Y \/ (size Y < n)%nat -> (size X <= n)%nat.
Proof using.
  intros Hs Hn Hid. apply subseteq_size in Hs. destruct Hid as [Hid|Hid].
  - rewrite (subseteq_union_1_L {[id]}) in Hs by set_solver. lia.
  - pose proof (size_union_alt {[ id ]} Y) as Hu. rewrite size_singleton in Hu.
    pose proof (subseteq_size (Y ∖ {[id]}) Y ltac:(set_solver)). lia.
Qed.

(** The hello of a neighbor that is restarting, on the adjacency it has Up. *)
Definition lan_held (c : circuit) (src : SNPA) (h : LANHello) : Prop :=
  asks_restart (restartTLVOf (LH_TLVs h)) = true /\
  exists b, adjs_at c (LH_Level h) !! LH_SourceID h = Some b /\ a_state b = AdjUp /\ a_snpa b = src.

Lemma lan_held_iff c src h :
  holdForRestart (adjs_at c (LH_Level h) !! LH_SourceID h) (restartTLVOf (LH_TLVs h)) src = true <-> lan_held c src h.
Proof using.
  unfold holdForRestart, lan_held. destruct (adjs_at c (LH_Level h) !! LH_SourceID h) as [b|].
  2:{ rewrite andb_false_r. split; [done|]. by intros (_ & b & [=] & _). }
  rewrite !andb_true_iff, bool_decide_eq_true. split.
  - intros (Hr & Hu & Ha). split; [done|]. exists b. split_and!; [done| |done]. by destruct (a_state b).
  - intros (Hr & b' & [= <-] & Hu & Ha). by rewrite Hu.
Qed.

(** A new neighbor is admitted below the limit only. *)
Lemma adjacencyLimited_spec s c id :
  (adjacencyLimited s c id).1 = atAdjacencyLimit c id /\ quiet s (adjacencyLimited s c id).2.
Proof using.
  unfold adjacencyLimited. destruct (atAdjacencyLimit c id); cbn [negb]; [|by split].
  destruct (edge_warn _ _) as [w []]; (split; [done|quiet0]).
Qed.

(** What the hello leaves: the adjacencies as they were, or the one of its
    sender written. *)
Definition lan_unchanged (c c' : circuit) : Prop :=
  forall l id, erase_sync <$> adjs_at c' l !! id = erase_sync <$> adjs_at c l !! id.

Definition lan_written (c : circuit) (src : SNPA) (h : LANHello) (c' : circuit) : Prop :=
  exists a, a_snpa a = src /\ a_priority a = LH_Priority h /\
    (a_state a = AdjUp <-> lan_held c src h \/ snpaListed (LH_TLVs h) (LocalSNPA (cfg_Transport (cfg c))) = true) /\
    forall l id, erase_sync <$> adjs_at c' l !! id =
      if decide (LH_Level h = l /\ LH_SourceID h = id) then Some (erase_sync a)
      else erase_sync <$> adjs_at c l !! id.

Lemma acceptLANHello_spec s i c c1 m src h now s' :
  circuits s !! i = Some c1 -> adjs_view c1 = adjs_view c -> adjs c !! LH_Level h = Some m ->
  acceptLANHello hmac send_ok adj_order s i c m src h now = Ok s' ->
  exists c', circuits s' !! i = Some c' /\ cfg c' = cfg c /\ lan_written c src h c' /\
    seenIDs c' ⊆ {[ LH_SourceID h ]} ∪ seenIDs c.
Proof using.
  intros Hc V Hm H. assert (Em : adjs_at c (LH_Level h) = m) by (unfold adjs_at; by rewrite Hm).
  unfold acceptLANHello in H. rewrite <- Em in H. pose proof (lan_held_iff c src h) as Hheld.
  set (held := holdForRestart _ _ src) in H, Hheld. set (a0 := default _ _) in H.
  destruct (lanAdjacency_fields a0 src h held (lanState c h held) now) as (F1 & F2 & _ & F4 & F5).
  destruct (lanAdjacency a0 src h held (lanState c h held) now) as [a changed]. cbn [fst] in *.
  pose proof (quiet_reportRestart s c a held (a_restartMode a0) (a_suppressed a0)) as Q.
  destruct (reportRestart s c a held _ _) as [s1 edge]. cbn [fst] in Q.
  destruct (quiet_adjs s s1 i c1 Hc Q) as (c2 & Hc2 & V2).
  assert (Hn : adjs c2 !! LH_Level h <> None).
  { assert (E : v_adjs (view c2) = v_adjs (view c)) by (apply (f_equal snd) in V, V2; cbn in *; congruence).
    apply (f_equal (lookup (LH_Level h))) in E. cbn [view v_adjs] in E. rewrite !lookup_fmap, Hm in E.
    by destruct (adjs c2 !! LH_Level h). }
  eapply lanReact_adjs with (c0 := put_adj c2 (LH_Level h) (LH_SourceID h) a) in H.
  2:{ cbn [upd_circuit set_circuits circuits]. by rewrite list_lookup_alter_eq, Hc2. }
  destruct H as (c' & Hc' & V'). exists c'. split; [done|].
  split; [by apply (f_equal fst) in V, V2, V'; cbn in *; congruence|]. split.
  - exists a. split; [done|]. split; [done|]. split.
    + rewrite F5, <- Hheld. unfold lanState. destruct held; [naive_solver|].
      destruct (snpaListed _ _); naive_solver.
    + intros l id. rewrite (adjs_view_at _ _ l id V'), adjs_at_put by done. destruct (decide _); [done|].
      rewrite (adjs_view_at _ _ l id V2). by apply adjs_view_at.
  - rewrite (adjs_view_seen _ _ V'). etransitivity; [by apply seenIDs_put|].
    by rewrite (adjs_view_seen _ _ V2), (adjs_view_seen _ _ V).
Qed.

(** C37: (ISO 10589 8.4.2.4, RFC 5306) a broadcast hello either leaves the
    adjacencies of its circuit as they were, or, coming from another system and (at
    Level 1) from a common area, writes the one of its sender at its level alone: Up
    exactly when the sender lists this circuit's SNPA or is restarting on an
    adjacency already Up, with the source's SNPA and priority.  A sender not yet
    known is only admitted below the adjacency limit of the circuit, which thus
    always holds. *)
Theorem processLANHello_bounded s i c src h now s' (limit : nat) :
  circuits s !! i = Some c -> P2P (cfg c) = false ->
  (forall l, is_Some (adjs c !! l) -> l ∈ cfg_levels (cfg c)) ->
  cfg_adjacencyLimit (cfg c) = Z.of_nat limit -> (0 < limit)%nat -> (size (seenIDs c) <= limit)%nat ->
  processLANHello hmac send_ok adj_order s i c src h now = Ok s' ->
  exists c', circuits s' !! i = Some c' /\ cfg c' = cfg c /\ (size (seenIDs c') <= limit)%nat /\
    (lan_unchanged c c' \/
     (LH_SourceID h <> systemID s /\
      (LH_Level h = Level1 -> areasOverlap (areaAddrs s) (areaAddressesOf (LH_TLVs h)) = true) /\
      lan_written c src h c')).
Proof using.
  intros Hc Hp Hdom Hlim Hpos Hsz H. unfold processLANHello in H. rewrite Hp in H.
  assert (Refuse : forall s1, quiet s s1 -> Ok s1 = Ok s' -> exists c', circuits s' !! i = Some c' /\ cfg c' = cfg c /\
    (size (seenIDs c') <= limit)%nat /\ lan_unchanged c c').
  { intros s1 Q [= <-]. destruct (quiet_adjs s s1 i c Hc Q) as (c' & Hc' & V). exists c'. split; [done|].
    split; [by apply (f_equal fst) in V|]. split; [by rewrite (adjs_view_seen c c' V)|]. intros l id. by apply adjs_view_at. }
  assert (Weaken : (exists c', circuits s' !! i = Some c' /\ cfg c' = cfg c /\ (size (seenIDs c') <= limit)%nat /\
    lan_unchanged c c') -> exists c', circuits s' !! i = Some c' /\ cfg c' = cfg c /\ (size (seenIDs c') <= limit)%nat /\
    (lan_unchanged c c' \/ (LH_SourceID h <> systemID s /\
      (LH_Level h = Level1 -> areasOverlap (areaAddrs s) (areaAddressesOf (LH_TLVs h)) = true) /\
      lan_written c src h c'))).
  { intros (c' & R1 & R2 & R3 & R4). exists c'. split_and!; [done..|]. by left. }
  destruct (Z.eqb_spec (LH_HoldingTime h) 0) as [_|_].
  { apply Weaken. apply (Refuse _ (quiet_dropHello s c dropHelloInvalid) H). }
  destruct (helloFromSelf_spec s c (LH_SourceID h)) as [Hf Qf].
  destruct (helloFromSelf s c (LH_SourceID h)) as [self s1]. cbn [fst snd] in *.
  destruct self; [apply Weaken, (Refuse _ Qf H)|]. symmetry in Hf. apply bool_decide_eq_false in Hf.
  destruct (adjs c !! LH_Level h) as [m|] eqn:Hm.
  2:{ apply Weaken, (Refuse (dropHello s1 c dropHelloInvalid)); [|exact H]. by etransitivity; [|apply quiet_dropHello]. }
  pose proof Qf as (_ & _ & _ & Ha & _). rewrite Ha in H.
  destruct (bool_decide (LH_Level h = Level1) && _) eqn:El.
  { apply Weaken, (Refuse (dropHello s1 c dropHelloMismatch)); [|exact H]. by etransitivity; [|apply quiet_dropHello]. }
  destruct (adjacencyLimited_spec s1 c (LH_SourceID h)) as [Hal Qal].
  set (g := if bool_decide _ then _ else (false, s1)) in H.
  assert (Hg : quiet s1 g.2 /\ (g.1 = false -> LH_SourceID h ∈ seenIDs c \/ (size (seenIDs c) < limit)%nat)).
  { subst g. destruct (bool_decide_reflect (m !! LH_SourceID h = None)) as [Hx|Hx].
    - split; [exact Qal|]. rewrite Hal. unfold atAdjacencyLimit. rewrite Hlim, Hp.
      rewrite (proj2 (Z.leb_gt _ _)) by lia. cbn [orb]. intros E. apply andb_false_iff in E as [E|E].
      + left. apply negb_false_iff, bool_decide_eq_true in E. done.
      + right. lia.
    - split; [done|]. intros _. left. unfold seenIDs. apply elem_of_union_list.
      exists (dom (adjs_at c (LH_Level h))). split.
      + apply list_elem_of_fmap. exists (LH_Level h). split; [done|]. apply Hdom. by rewrite Hm.
      + apply elem_of_dom. unfold adjs_at. rewrite Hm. simpl. by apply not_eq_None_Some. }
  clearbody g. destruct g as [limited s2], Hg as [Qg Hroom]. cbn [fst snd] in *.
  assert (Q2 : quiet s s2) by (by etransitivity).
  destruct limited; [apply Weaken, (Refuse s2 Q2 H)|]. destruct (quiet_adjs s s2 i c Hc Q2) as (c1 & Hc1 & V1).
  destruct (acceptLANHello_spec s2 i c c1 m src h now s' Hc1 V1 Hm H) as (c' & H1 & H2 & H3 & H4).
  exists c'. split; [done|]. split; [done|]. split; [by eapply size_admit; [exact H4|exact Hsz|apply Hroom]|].
  right. split; [done|]. split; [|done]. intros Hl1. rewrite bool_decide_true in El by done.
  by apply negb_false_iff in El.
Qed.
End StateMachines.

(** ** Padding *)

(** (ISO 10589 8.2.3) an unauthenticated hello is padded in a bounded number
    of turns, whatever its TLVs: when they leave at least two octets of the MTU
    (less the three of the LLC header) free, the hello built ends within one octet
    of it, one octet short when a padding TLV cannot be that small, and never
    above. *)
Theorem buildP2PHello_fills s c ack b :
  length (systemID s) = 6%nat -> cfg_padding (cfg c) = true -> HelloPassword (cfg c) = [] ->
  serializeTLVs (commonHelloTLVs s ++ [P2PThreeWayAdjacencyTLV (ownThreeWay c)] ++ addrTLVs c ++ [helloRestartTLV ack]) = Ok b ->
  Z.of_nat p2pHelloHeaderLen + Z.of_nat (length b) + 2 <= MTU (cfg_Transport (cfg c)) - 3 ->
  exists h w p, buildP2PHello s c ack = Ok h /\ PDU_Serialize h = Ok (w, p) /\
    MTU (cfg_Transport (cfg c)) - 4 <= Z.of_nat (length w) <= MTU (cfg_Transport (cfg c)) - 3.
Proof.
  intros Hid Hpad Hpw Hb Hroom. unfold buildP2PHello. set (tlvs := _ ++ _) in *. cbv zeta.
  set (hello := fun tlvs => PDUP2PHello _). unfold finalizeHello, helloSpec. rewrite Hpw. cbn [length Nat.eqb].
  change (spec_on zeroSpec) with false. cbn iota. unfold padHello. rewrite Hpad. cbn [negb].
  destruct (pad_fuel_fills (Z.to_nat (MTU (cfg_Transport (cfg c)) - 3)) hello p2pHelloHeaderLen
    (MTU (cfg_Transport (cfg c)) - 3) tlvs b) as (pads & Hp & _ & b' & w & p & _ & Hw & _ & Hlen).
  - by apply P2PHello_len.
  - exact Hb.
  - lia.
  - rewrite decide_False in Hlen by lia. rewrite Hp. exists (hello (tlvs ++ pads)), w, p. split; [done|]. split; [done|]. lia.
Qed.

(** ** Examples *)

Definition neighbor_id : SystemID := [2; 0; 0; 0; 0; 1].
Definition rr : Restart := mkRestart true false false false 0 false (replicate 6 0).

(** A hello of a restarting neighbor on a LAN, one that lists this circuit, and
    one of a point-to-point neighbor. *)
Definition rr_hello : LANHello :=
  mkLANHello Level2 2 neighbor_id 30 64 (replicate 7 0) [RestartTLV rr].
Definition listing_hello : LANHello :=
  mkLANHello Level2 2 neighbor_id 30 70 (replicate 7 0) [ISNeighborsTLV [[2; 0; 0; 0; 0; 9]]].
Definition echoing_hello : P2PHello :=
  mkP2PHello 2 neighbor_id 30 1
    [P2PThreeWayAdjacencyTLV (mkP2PAdj P2PAdjStateInitializing true 7 true [2; 0; 0; 0; 0; 9] 1)].

Definition lan_circuit : circuit :=
  put_adj (newCircuit (sample_cfg "eth0" false) 1 1) Level2 neighbor_id (sample_adj 1 64 AdjUp).
Definition lan_server : Server := set_circuits sample_server [lan_circuit].

Definition in_order (k : nat) (m : gmap SystemID adjacency) : list (SystemID * adjacency) := map_to_list m.
Definition all_sent (t : list effect) : bool := true.

Lemma restart_hold_bounded_witness :
  let a' := fold_left (lan_refresh lan_circuit neighbor_id) [(rr_hello, Second); (rr_hello, 20 * Second)]
              (sample_adj 1 64 AdjUp) in
  a_state a' = AdjUp /\
  (forall now, - 2 ^ 62 < now - Second < 2 ^ 62 -> expired a' now = true <-> Second + 30 * Second < now) /\
  (forall now, Second <= now <= Second + 30 * Second ->
    now + RestartRemainingTime (restartAck lan_circuit a' now) * Second <= Second + 30 * Second).
Proof.
  apply (restart_hold_bounded lan_circuit neighbor_id (sample_adj 1 64 AdjUp) rr_hello Second [(rr_hello, 20 * Second)]).
  - done.
  - done.
  - done.
  - unfold u16_ok. cbn. lia.
  - apply Forall_cons; split; [done|]. apply Forall_cons; split; [done|]. apply Forall_nil_2.
Defined.

Lemma expireAdjacencies_sweeps_witness :
  let s' := expireAdjacencies in_order lan_server 0 lan_circuit (31 * Second) in
  let drop a := expired a (31 * Second) in
  adjs_at lan_circuit Level2 !! neighbor_id = Some (sample_adj 1 64 AdjUp) /\
  exists c', circuits s' !! 0%nat = Some c' /\ cfg c' = cfg lan_circuit /\
    (forall l id, l ∈ cfg_levels (cfg lan_circuit) ->
       adjs_at c' l !! id = kept drop (adjs_at lan_circuit l !! id)) /\
    (forall j, j <> 0%nat -> circuits s' !! j = circuits lan_server !! j) /\
    ((exists l id a, l ∈ cfg_levels (cfg lan_circuit) /\ adjs_at lan_circuit l !! id = Some a /\ drop a = true) ->
     lspGenPending s' = true /\ spfDirty s' = true).
Proof.
  split; [by vm_compute|].
  exact (expireAdjacencies_sweeps in_order (fun _ _ => reflexivity _) lan_server 0 lan_circuit (31 * Second) eq_refl).
Defined.

Definition after_echo : Server :=
  or_self sample_server (processP2PHello toy_hmac all_sent sample_server 0 (sample_circuit 0 sample_server) neighbor_id
    echoing_hello Second).

Lemma processP2PHello_threeway_witness :
  let s := sample_server in
  let c := sample_circuit 0 s in
  exists c', circuits after_echo !! 0%nat = Some c' /\
    ((erase_sync <$> p2pAdj c' = erase_sync <$> p2pAdj c /\
      (P2P (cfg c) = false \/ PH_HoldingTime echoing_hello = 0 \/ PH_SourceID echoing_hello = systemID s \/
       (forall l, ~ shares s c echoing_hello l) \/ echoed_other s c echoing_hello)) \/
     (p2pAdj c' = None /\ echoed_other s c echoing_hello /\
      exists b, p2pAdj c = Some b /\ a_systemID b = PH_SourceID echoing_hello) \/
     (exists a, erase_sync <$> p2pAdj c' = Some (erase_sync a) /\ a_state a = AdjUp)).
Proof.
  cbv zeta. destruct (processP2PHello_threeway toy_hmac all_sent sample_server 0 (sample_circuit 0 sample_server) neighbor_id
    echoing_hello Second after_echo) as (c' & H1 & D); [done|by vm_compute|].
  exists c'. split; [exact H1|]. destruct D as [D|[D|(a & A1 & _ & _ & _ & _ & _ & _ & _ & A9)]]; [by left|by right; left|right; right].
  exists a. split; [exact A1|]. apply A9. right. apply echoesUs_iff. vm_compute. reflexivity.
Defined.

Definition after_listing : Server :=
  or_self lan_server (processLANHello toy_hmac all_sent in_order lan_server 0 lan_circuit neighbor_id listing_hello Second).

Lemma processLANHello_bounded_witness :
  exists c', circuits after_listing !! 0%nat = Some c' /\ cfg c' = cfg lan_circuit /\ (size (seenIDs c') <= 128)%nat /\
    (lan_unchanged lan_circuit c' \/
     (LH_SourceID listing_hello <> systemID lan_server /\
      (LH_Level listing_hello = Level1 ->
        areasOverlap (areaAddrs lan_server) (areaAddressesOf (LH_TLVs listing_hello)) = true) /\
      lan_written lan_circuit neighbor_id listing_hello c')).
Proof.
  apply (processLANHello_bounded toy_hmac all_sent in_order lan_server 0 lan_circuit neighbor_id listing_hello Second
    after_listing 128).
  - done.
  - done.
  - intros [] [m Hm]; [by vm_compute in Hm|]. left.
  - done.
  - lia.
  - vm_compute. lia.
  - by vm_compute.
Defined.

Lemma buildP2PHello_fills_witness :
  exists h w p, buildP2PHello sample_server (sample_circuit 0 sample_server) None = Ok h /\ PDU_Serialize h = Ok (w, p) /\
    1496 <= Z.of_nat (length w) <= 1497.
Proof.
  eapply (buildP2PHello_fills sample_server (sample_circuit 0 sample_server) None).
  - done.
  - done.
  - done.
  - by vm_compute.
  - by vm_compute.
Defined.
