(* ===== verification/RxSpec.v ===== *)
(** The gates between a received frame and the link-state database
    (pkg/server/hello.go [handleRx], flooding.go). *)

From S2P Require Import Prelude.
From S2P Require Import Netip.
From S2P Require Import Ids.
From S2P Require Import Sid.
From S2P Require Import SubTLV.
From S2P Require Import Entries.
From S2P Require Import Tlv.
From S2P Require Import Checksum.
From S2P Require Import Pdu.
From S2P Require Import Auth.
From S2P Require Import Circuit.
From S2P Require Import Dis.
From S2P Require Import Restart.
From S2P Require Import Lsdb.
From S2P Require Import EdgeLog.
From S2P Require Import Server.
From S2P Require Import Flooding.
From S2P Require Import Transmit.
From S2P Require Import Origination.
From S2P Require Import HelloBuild.
From S2P Require Import Hello.
From S2P Require Import HelloFrame.
From S2P Require Import PacketSpec.
From S2P Require Import UpdateSpec.
From S2P Require Import NodeSpec.
From S2P Require Import HelloSpec.
Local Open Scope Z_scope.

Section Rx.
Context (hmac : AuthAlgorithm -> bytes -> bytes -> bytes).
Context (send_ok : list effect -> bool).
Context (adj_order : nat -> gmap SystemID adjacency -> list (SystemID * adjacency)).
Context (rand : Z).

(** ** Hellos never write the database *)

Lemma dbs_upd_circuit s i f : dbs (upd_circuit s i f) = dbs s. Proof using. done. Qed.

Lemma quiet_dbs s s' : quiet s s' -> dbs s' = dbs s.
Proof using. by intros (_ & H & _). Qed.

Lemma dbs_lanReact s i c l a prev held ec ac re sc ack now s' :
  lanReact hmac send_ok adj_order s i c l a prev held ec ac re sc ack now = Ok s' -> dbs s' = dbs s.
Proof using.
  unfold lanReact. set (moved := negb (bool_decide (prev = a_state a))). set (s1 := if moved then _ else _). intros H.
  assert (Q1 : dbs s1 = dbs s) by (subst s1; unfold emitAdjacency; destruct moved; [|destruct (re && is_up (a_state a)); [|done]]; by destruct (watched _)).
  clearbody s1 moved. apply bind_Ok in H as (s2 & H2 & H). rewrite <- Q1.
  assert (Q2 : quiet s1 s2).
  { destruct (moved || bool_decide (is_Some ack)); [|by injection H2 as <-].
    apply bind_Ok in H2 as (h & _ & H2). by eapply quiet_sendOne. }
  rewrite <- (quiet_dbs _ _ Q2).
  set (elects := negb (Bool.eqb _ _) || (is_up (a_state a) && ec)) in H. clearbody elects.
  set (f := fun c : circuit => electDIS (systemID s2) c l _ _) in H. clearbody f.
  set (st := if elects then _ else _) in H.
  assert (H3 : dbs st.1 = dbs s2) by (subst st; by destruct elects).
  clearbody st. destruct st as [s3 k]. cbn [fst] in H3. rewrite <- H3.
  apply bind_Ok in H as (s4 & H4 & [= <-]). transitivity (dbs s4); [by destruct (is_up (a_state a) && (ac || sc))|].
  apply quiet_dbs. destruct (held && restartSyncEligible _ _); [by apply quiet_sync in H4|by injection H4 as <-].
Qed.

Lemma dbs_reportRestart s c a held b1 b2 : dbs (reportRestart s c a held b1 b2).1 = dbs s.
Proof using. apply quiet_dbs, quiet_reportRestart. Qed.

Lemma dbs_processLANHello s i c src h now s' :
  processLANHello hmac send_ok adj_order s i c src h now = Ok s' -> dbs s' = dbs s.
Proof using.
  unfold processLANHello. destruct (P2P (cfg c)); [by intros [= <-]|]. destruct (_ =? 0); [by intros [= <-]|].
  destruct (helloFromSelf_spec s c (LH_SourceID h)) as [_ Qf]. apply quiet_dbs in Qf.
  destruct (helloFromSelf s c (LH_SourceID h)) as [[] s1]; cbn [snd] in Qf; [by intros [= <-]|].
  destruct (adjs c !! LH_Level h) as [m|]; [|by intros [= <-]]. destruct (_ && _); [by intros [= <-]|].
  destruct (adjacencyLimited_spec s1 c (LH_SourceID h)) as [_ Ql]. apply quiet_dbs in Ql.
  set (g := if bool_decide _ then _ else _). assert (Hg : dbs g.2 = dbs s1) by (subst g; by destruct (bool_decide _)).
  clearbody g. destruct g as [[] s2]; cbn [snd] in Hg; [intros [= <-]; congruence|].
  unfold acceptLANHello. destruct (lanAdjacency _ _ _ _ _ _) as [a changed].
  intros H. set (r := reportRestart s2 c a _ _ _) in H.
  assert (Hr : dbs r.1 = dbs s2) by apply dbs_reportRestart. clearbody r. destruct r as [s3 edge]. cbn [fst] in Hr.
  apply dbs_lanReact in H. rewrite H, dbs_upd_circuit. congruence.
Qed.

Lemma dbs_teardown s i c a now : dbs (teardownP2PAdj s i c a now) = dbs s.
Proof using. by rewrite (quiet_dbs _ _ (quiet_teardown_rest s i c a now)). Qed.

Lemma dbs_processP2PHello s i c src h now s' :
  processP2PHello hmac send_ok s i c src h now = Ok s' -> dbs s' = dbs s.
Proof using.
  unfold processP2PHello. destruct (negb (P2P (cfg c))); [by intros [= <-]|]. destruct (_ =? 0); [by intros [= <-]|].
  destruct (helloFromSelf_spec s c (PH_SourceID h)) as [_ Qf]. apply quiet_dbs in Qf.
  destruct (helloFromSelf s c (PH_SourceID h)) as [[] s1]; cbn [snd] in Qf; [by intros [= <-]|].
  destruct (_ =? 0); [by intros [= <-]|]. unfold acceptP2PHello. fold (same_neighbor c h).
  destruct (negb _ && echoesOther _ _ _).
  { intros [= <-]. destruct (p2pAdj c); [|done]. destruct (same_neighbor c h); [by rewrite dbs_teardown|done]. }
  set (s2 := match p2pAdj c with Some a => if same_neighbor c h then s1 else _ | None => s1 end).
  assert (H2 : dbs s2 = dbs s1).
  { subst s2. destruct (p2pAdj c); [|done]. destruct (same_neighbor c h); [done|apply dbs_teardown]. }
  destruct (p2pAdjacency _ _ _ _ _ _ _) as [a changed]. intros H. set (r := reportRestart s2 c a _ _ _) in H.
  assert (Hr : dbs r.1 = dbs s2) by apply dbs_reportRestart. clearbody r s2. destruct r as [s3 edge]. cbn [fst] in Hr.
  apply quiet_p2pReact, quiet_dbs in H. rewrite H, dbs_upd_circuit. congruence.
Qed.

(** ** The gates *)

Lemma pduAuthOK_state s c raw pt l isLSP ok s' :
  pduAuthOK hmac s c raw pt l isLSP = Ok (ok, s') ->
  dbs s' = dbs s /\
  (ok = true -> key (authKey s l) = [] \/ spec_verify hmac (authKey s l) raw (HeaderLen pt) isLSP = Ok true).
Proof using.
  unfold pduAuthOK, spec_on. destruct (key (authKey s l)) as [|x k] eqn:Hk; cbn [length Nat.ltb Nat.leb negb].
  { intros [= <- <-]. split; [done|]. by left. }
  intros H. apply bind_Ok in H as ([] & Hv & H); injection H as <- <-; (split; [done|]); [|done]. by right.
Qed.

Lemma helloAuthOK_dbs s c raw pt ok s' : helloAuthOK hmac s c raw pt = Ok (ok, s') -> dbs s' = dbs s.
Proof using.
  unfold helloAuthOK. destruct (negb _); [by intros [= <- <-]|]. intros H.
  by apply bind_Ok in H as ([] & _ & H); injection H as <- <-.
Qed.

(** C20: a received frame changes the link-state database only when it carries
    an LSP that decodes, on a circuit whose link is up, that authenticates under
    the key of its level (where one is configured), and that comes from the SNPA of
    an adjacency that is Up on that circuit at that level: hellos, sequence number
    PDUs and anything else never write it. *)
Theorem handleRx_gate s i c src frame now s' :
  handleRx hmac send_ok adj_order rand s i c src frame now = Ok s' -> dbs s' <> dbs s ->
  exists raw p a, TrimToPDULength frame = Ok raw /\ DecodePDU raw = Ok (PDULSP p) /\ linkDown c = false /\
    (key (authKey s (LSP_Level p)) = [] \/
     spec_verify hmac (authKey s (LSP_Level p)) raw (HeaderLen (LSP_PDUType p)) true = Ok true) /\
    upAdjacencyFrom c (LSP_Level p) src (orderOf adj_order 0 c (LSP_Level p)) = Some a /\ a_snpa a = src /\ a_state a = AdjUp.
Proof using.
  unfold handleRx. intros H Hd. destruct (linkDown c); [injection H as <-; done|].
  apply bind_Ok in H as (raw & Hraw & H). destruct (DecodePDU raw) as [p|e|] eqn:Hp; [|by injection H as <-|done].
  unfold handlePDU in H. apply bind_Ok in H as ([ok s1] & Hok & H). destruct p as [h|h|p|p|p]; cbn [authOK PDU_PDUType] in *.
  - apply helloAuthOK_dbs in Hok. destruct ok; cbn [negb] in H; [|injection H as <-; done].
    apply dbs_processLANHello in H. by rewrite H, Hok in Hd.
  - apply helloAuthOK_dbs in Hok. destruct ok; cbn [negb] in H; [|injection H as <-; done].
    apply dbs_processP2PHello in H. by rewrite H, Hok in Hd.
  - apply pduAuthOK_state in Hok as [Hs Hv]. destruct ok; cbn [negb] in H; [|injection H as <-; done].
    unfold adjacencyGate in H. destruct (upAdjacencyFrom _ _ _ _) as [a|] eqn:Ha; [|injection H as <-; done].
    exists raw, p, a. do 3 (split; [done|]). split; [by apply Hv|]. split; [done|].
    unfold upAdjacencyFrom, p2p_up in Ha. destruct (P2P (cfg c)).
    + destruct (p2pAdj c) as [b|]; [|done]. destruct (is_up (a_state b) && _) eqn:Eb; [|done].
      destruct (bool_decide_reflect (a_snpa b = src)); [|done]. injection Ha as ->. split; [done|].
      by destruct (a_state a).
    + apply find_some in Ha as [_ Ha]. apply andb_true_iff in Ha as [Ha Hu].
      apply bool_decide_eq_true in Ha. split; [done|]. by destruct (a_state a).
  - apply pduAuthOK_state in Hok as [Hs _]. destruct ok; cbn [negb] in H; [|injection H as <-; done].
    unfold adjacencyGate in H. destruct (upAdjacencyFrom _ _ _ _); injection H as <-; [|done].
    unfold processCSNP in Hd. by destruct (dbs s1 !! CS_Level p).
  - apply pduAuthOK_state in Hok as [Hs _]. destruct ok; cbn [negb] in H; [|injection H as <-; done].
    unfold adjacencyGate in H. destruct (upAdjacencyFrom _ _ _ _); injection H as <-; [|done].
    unfold processPSNP in Hd. by destruct (dbs s1 !! PS_Level p).
Qed.
End Rx.

(** The sample LSP from the Up neighbor of a LAN. *)
Definition after_frame : Server :=
  or_self lan_server (handleRx toy_hmac all_sent in_order 0 lan_server 0 lan_circuit neighbor_id sample_bytes Second).

Lemma handleRx_gate_witness :
  exists raw p a, TrimToPDULength sample_bytes = Ok raw /\ DecodePDU raw = Ok (PDULSP p) /\ linkDown lan_circuit = false /\
    (key (authKey lan_server (LSP_Level p)) = [] \/
     spec_verify toy_hmac (authKey lan_server (LSP_Level p)) raw (HeaderLen (LSP_PDUType p)) true = Ok true) /\
    upAdjacencyFrom lan_circuit (LSP_Level p) neighbor_id (orderOf in_order 0 lan_circuit (LSP_Level p)) = Some a /\
    a_snpa a = neighbor_id /\ a_state a = AdjUp.
Proof.
  apply (handleRx_gate toy_hmac all_sent in_order 0 lan_server 0 lan_circuit neighbor_id sample_bytes Second after_frame).
  - by vm_compute.
  - intros H. apply (f_equal (fun m : gmap Level lsdb => size (default ∅ (m !! Level2)))) in H. by vm_compute in H.
Defined.
