(* ===== verification/FlexAlgo.v ===== *)
(** pkg/server/flexalgo.go: Flexible Algorithm definitions, their election, and
    the admin-group rules that prune links. *)

From stdpp Require Import sorting.
From S2P Require Import Prelude.
From S2P Require Import Codec.
From S2P Require Import Netip.
From S2P Require Import Ids.
From S2P Require Import Sid.
From S2P Require Import SubTLV.
From S2P Require Import Entries.
From S2P Require Import Tlv.
From S2P Require Import Checksum.
From S2P Require Import Pdu.
From S2P Require Import Lsdb.
Local Open Scope Z_scope.

Definition FlexAlgoMetricIGP : Z := 0.
Definition FlexAlgoMetricMinDelay : Z := 1.
Definition FlexAlgoMetricTE : Z := 2.
Definition FlexAlgoSubSubExcludeAdminGroup : Z := 1.
Definition FlexAlgoSubSubIncludeAnyAdminGroup : Z := 2.
Definition FlexAlgoSubSubIncludeAllAdminGroup : Z := 3.
Definition FlexAlgoSubSubDefinitionFlags : Z := 4.
Definition FlexAlgoSubSubExcludeSRLG : Z := 5.
Definition FlexAlgoFlagM : Z := 128.

(** ** Definitions and their election *)

(** [server.FlexAlgoDefinition], an elected [packet.FlexAlgoDefinitionSubTLV]
    with its advertiser. *)
Record ElectedDefinition : Set := mkElected {
  D_Algo : Z; D_MetricType : Z; D_CalcType : Z; D_Priority : Z; D_Advertiser : SystemID;
  D_Constraints : list FlexAlgoSubSubTLV
}.

Record FlexAlgoInfo : Type := mkFlexAlgoInfo {
  FI_Algo : Z; FI_Level : Level; FI_Definition : option ElectedDefinition; FI_Participants : list SystemID
}.

Fixpoint repeated_from (seen : gset Z) (cs : list FlexAlgoSubSubTLV) : bool :=
  match cs with
  | [] => false
  | ss :: cs =>
      if bool_decide (SubSubTLVType ss ∈ seen) then true
      else repeated_from ({[ SubSubTLVType ss ]} ∪ seen) cs
  end.

Definition repeatedConstraint (cs : list FlexAlgoSubSubTLV) : bool := repeated_from ∅ cs.

Definition winsElection (cand : ElectedDefinition) (best : option ElectedDefinition) : bool :=
  match best with
  | None => true
  | Some b =>
      if negb (D_Priority cand =? D_Priority b) then D_Priority b <? D_Priority cand
      else match bytes_compare (D_Advertiser cand) (D_Advertiser b) with Gt => true | _ => false end
  end.

(** What one node contributes: the loop variables [out], [countedPart] and
    [contributedFAD]. *)
Record contribution : Type := mkContribution {
  k_out : gmap Z FlexAlgoInfo; k_counted : gset Z; k_contributed : gset Z
}.

(** The closure [info] followed by a write through its result. *)
Definition upd_info (l : Level) (algo : Z) (f : FlexAlgoInfo -> FlexAlgoInfo) (out : gmap Z FlexAlgoInfo)
  : gmap Z FlexAlgoInfo :=
  <[algo := f (default (mkFlexAlgoInfo algo l None []) (out !! algo))]> out.

Definition add_participant (sys : SystemID) (fi : FlexAlgoInfo) : FlexAlgoInfo :=
  mkFlexAlgoInfo (FI_Algo fi) (FI_Level fi) (FI_Definition fi) (FI_Participants fi ++ [sys]).

Definition stand (cand : ElectedDefinition) (fi : FlexAlgoInfo) : FlexAlgoInfo :=
  if winsElection cand (FI_Definition fi)
  then mkFlexAlgoInfo (FI_Algo fi) (FI_Level fi) (Some cand) (FI_Participants fi) else fi.

Definition candidate_of (sys : SystemID) (f : FlexAlgoDefinition) : ElectedDefinition :=
  mkElected (FAD_FlexAlgo f) (FAD_MetricType f) (FAD_CalcType f) (FAD_Priority f) sys (FAD_SubSubTLVs f).

Definition count_algo (l : Level) (sys : SystemID) (k : contribution) (a : Z) : contribution :=
  if (a =? 0) || bool_decide (a ∈ k_counted k) then k
  else mkContribution (upd_info l a (add_participant sys) (k_out k)) ({[ a ]} ∪ k_counted k) (k_contributed k).

Definition contribute (l : Level) (sys : SystemID) (k : contribution) (sub : SubTLV) : contribution :=
  match sub with
  | SubSRAlgorithm algs => fold_left (count_algo l sys) algs k
  | SubFlexAlgoDef f =>
      if bool_decide (FAD_FlexAlgo f ∈ k_contributed k) then k else
      let k := mkContribution (k_out k) (k_counted k) ({[ FAD_FlexAlgo f ]} ∪ k_contributed k) in
      if repeatedConstraint (FAD_SubSubTLVs f) then k
      else mkContribution (upd_info l (FAD_FlexAlgo f) (stand (candidate_of sys f)) (k_out k))
             (k_counted k) (k_contributed k)
  | _ => k
  end.

(** The sub-TLVs of the Router Capability TLVs of an LSP, in order. *)
Definition capabilities (tlvs : list TLV) : list SubTLV :=
  tlvs ≫= fun t => match t with RouterCapabilityTLV r => RouterCap_SubTLVs r | _ => [] end.

(** [!e.purgedAt.IsZero() || e.remaining(now) == 0] *)
Definition live (e : lspEntry) (now : Z) : bool :=
  bool_decide (e_purgedAt e = None) && negb (remaining e now =? 0).

Definition contribute_node (l : Level) (now : Z) (out : gmap Z FlexAlgoInfo) (ie : LSPID * lspEntry)
  : gmap Z FlexAlgoInfo :=
  let '(id, e) := ie in
  if negb (live e now) || negb (LSPID_FragmentID id =? 0) then out
  else k_out (fold_left (contribute l (NodeID_SystemID (LSPID_NodeID id))) (capabilities (LSP_TLVs (e_lsp e)))
                (mkContribution out ∅ ∅)).

(** [sort.Slice] by the octets of the System ID. *)
Definition sysid_le (a b : SystemID) : Prop := bytes_compare a b <> Gt.
#[export] Instance sysid_le_dec (a b : SystemID) : Decision (sysid_le a b).
Proof. unfold sysid_le. solve_decision. Defined.

Definition sort_participants (fi : FlexAlgoInfo) : FlexAlgoInfo :=
  mkFlexAlgoInfo (FI_Algo fi) (FI_Level fi) (FI_Definition fi) (merge_sort sysid_le (FI_Participants fi)).

(** [flexAlgoState] over an iteration order of the database. *)
Definition flexAlgoState (l : Level) (order : list (LSPID * lspEntry)) (now : Z) : gmap Z FlexAlgoInfo :=
  sort_participants <$> fold_left (contribute_node l now) order ∅.

(** ** Affinity *)

Record flexAlgoAffinity : Set := mkAffinity { exclude : list Z; includeAny : list Z; includeAll : list Z }.

Definition no_affinity : flexAlgoAffinity := mkAffinity [] [] [].

(** tlvsummary.go: [flexAlgoWords]; [None] is its [false]. *)
Definition flexAlgoWords (v : bytes) : option (list Z) :=
  if (length v =? 0)%nat || negb (length v mod 4 =? 0)%nat then None
  else match loop_chunks 4 admin_unit v with Ok ws => Some ws | _ => None end.

(** Whether every set bit of the definition flags is supported. *)
Definition flexAlgoFlagsSupported (v : bytes) : bool :=
  match v with
  | [] => true
  | b :: v => (Z.ldiff b FlexAlgoFlagM =? 0) && forallb (fun b => b =? 0) v
  end.

(** One turn of the loop of [flexAlgoAffinityOf]; [None] is an error. *)
Definition affinity_step (a : flexAlgoAffinity) (ss : FlexAlgoSubSubTLV) : option flexAlgoAffinity :=
  let t := SubSubTLVType ss in
  if t =? FlexAlgoSubSubExcludeAdminGroup
  then ws ← flexAlgoWords (SubSubValue ss); Some (mkAffinity ws (includeAny a) (includeAll a))
  else if t =? FlexAlgoSubSubIncludeAnyAdminGroup
  then ws ← flexAlgoWords (SubSubValue ss); Some (mkAffinity (exclude a) ws (includeAll a))
  else if t =? FlexAlgoSubSubIncludeAllAdminGroup
  then ws ← flexAlgoWords (SubSubValue ss); Some (mkAffinity (exclude a) (includeAny a) ws)
  else if t =? FlexAlgoSubSubDefinitionFlags
  then if flexAlgoFlagsSupported (SubSubValue ss) then Some a else None
  else None.

Fixpoint affinity_loop (a : flexAlgoAffinity) (cs : list FlexAlgoSubSubTLV) : option flexAlgoAffinity :=
  match cs with
  | [] => Some a
  | ss :: cs => a ← affinity_step a ss; affinity_loop a cs
  end.

Definition flexAlgoAffinityOf (def : ElectedDefinition) : option flexAlgoAffinity :=
  affinity_loop no_affinity (D_Constraints def).

Definition affinity_empty (a : flexAlgoAffinity) : bool :=
  (length (exclude a) =? 0)%nat && (length (includeAny a) =? 0)%nat && (length (includeAll a) =? 0)%nat.

(** The word of a mask at an index: all zeros where it is not advertised. *)
Definition word (color : list Z) (i : nat) : Z := nth i color 0.

Fixpoint anyColorSet (rule color : list Z) : bool :=
  match rule, color with
  | w :: rule, c :: color => negb (Z.land w c =? 0) || anyColorSet rule color
  | _, _ => false
  end.

Fixpoint allColorsSet (rule color : list Z) : bool :=
  match rule with
  | [] => true
  | w :: rule => (Z.land w (word color 0) =? w) && allColorsSet rule (drop 1 color)
  end.

(** [out[i] |= w] over a mask grown to the length of the group. *)
Fixpoint or_words (out groups : list Z) : list Z :=
  match out, groups with
  | o :: out, g :: groups => Z.lor o g :: or_words out groups
  | [], groups => groups
  | out, [] => out
  end.

Definition adminGroupColors (subs : list SubTLV) : list Z :=
  fold_left (fun out s => match s with SubAdminGroup _ groups => or_words out groups | _ => out end) subs [].

(** An ASLA as the application reads it: its L-flag and its attributes. *)
Definition aslas_naming (subs : list SubTLV) : list (bool * list SubTLV) :=
  omap (fun s => match s with
    | SubASLA legacy sabm _ attrs => if ASLA_Apps sabm ASLAAppFlexAlgo then Some (legacy, attrs) else None
    | _ => None end) subs.

Definition aslas_any (subs : list SubTLV) : list (bool * list SubTLV) :=
  omap (fun s => match s with
    | SubASLA legacy sabm udabm attrs =>
        if negb (ASLA_Apps sabm ASLAAppFlexAlgo) && ASLA_AnyApp sabm udabm then Some (legacy, attrs) else None
    | _ => None end) subs.

Definition flexAlgoASLAs (subs : list SubTLV) : list (bool * list SubTLV) :=
  match aslas_naming subs with [] => aslas_any subs | aslas => aslas end.

Fixpoint colors_loop (subs : list SubTLV) (aslas : list (bool * list SubTLV)) (attrs : list SubTLV) : list Z :=
  match aslas with
  | [] => adminGroupColors attrs
  | (legacy, a) :: aslas =>
      if legacy : bool then adminGroupColors subs else colors_loop subs aslas (attrs ++ a)
  end.

Definition flexAlgoLinkColors (subs : list SubTLV) : list Z := colors_loop subs (flexAlgoASLAs subs) [].

(** [prunesLink]: whether the link is pruned, and whether it has attributes. *)
Definition prunesLink (a : flexAlgoAffinity) (subs : list SubTLV) : bool * bool :=
  if affinity_empty a then (false, false) else
  let hasAttrs := (0 <? length (flexAlgoASLAs subs))%nat in
  let color := flexAlgoLinkColors subs in
  if anyColorSet (exclude a) color then (true, hasAttrs)
  else if (0 <? length (includeAny a))%nat && negb (anyColorSet (includeAny a) color) then (true, hasAttrs)
  else if (0 <? length (includeAll a))%nat && negb (allColorsSet (includeAll a) color) then (true, hasAttrs)
  else (false, hasAttrs).

(** spf.go: [lspParticipatesInAlgo]. *)
Definition lspParticipatesInAlgo (e : lspEntry) (algo : Z) : bool :=
  existsb (fun s => match s with SubSRAlgorithm algs => existsb (fun a => a =? algo) algs | _ => false end)
    (capabilities (LSP_TLVs (e_lsp e))).

(** ** Colors as sets of bits *)

(** Bit [n] of a mask: its words hold 32 bits each, and the ones it does not
    advertise none. *)
Definition has_color (mask : list Z) (i : nat) (n : Z) : Prop := 0 <= n < 32 /\ Z.testbit (word mask i) n = true.

Definition mask_ok (mask : list Z) : Prop := Forall u32_ok mask.

Lemma testbit_u32 x n : u32_ok x -> Z.testbit x n = true -> 0 <= n < 32.
Proof.
  unfold u32_ok. intros Hx Hn. destruct (Z.neg_nonneg_cases n) as [?|?]; [by rewrite Z.testbit_neg_r in Hn by lia|].
  split; [done|]. destruct (Z.lt_ge_cases n 32) as [?|Hge]; [done|]. exfalso.
  destruct (Z.eq_dec x 0) as [->|Hx0]; [by rewrite Z.bits_0 in Hn|].
  rewrite Z.bits_above_log2 in Hn; [done|lia|]. apply Z.lt_le_trans with 32; [|done].
  apply Z.log2_lt_pow2; [lia|]. change (2 ^ 32) with 4294967296. lia.
Qed.

Lemma nonzero_bit x : x <> 0 -> u32_ok x -> exists n, 0 <= n < 32 /\ Z.testbit x n = true.
Proof.
  intros Hx Hu. exists (Z.log2 x). assert (Hb : Z.testbit x (Z.log2 x) = true) by (apply Z.bit_log2; unfold u32_ok in Hu; lia).
  split; [by eapply testbit_u32|done].
Qed.

Lemma land_u32 x y : u32_ok x -> 0 <= y -> u32_ok (Z.land x y).
Proof.
  unfold u32_ok. intros Hx Hy. split; [apply Z.land_nonneg; lia|].
  apply Z.le_lt_trans with x; [|lia]. apply Z.ldiff_le; [lia|]. apply Z.bits_inj'. intros n Hn.
  rewrite Z.ldiff_spec, Z.land_spec, Z.bits_0. destruct (Z.testbit x n), (Z.testbit y n); done.
Qed.

Lemma anyColorSet_iff rule color :
  mask_ok rule -> mask_ok color ->
  anyColorSet rule color = true <-> exists i n, has_color rule i n /\ has_color color i n.
Proof.
  intros Hr. revert color. induction Hr as [|w rule Hw Hr IH]; intros color Hc; cbn [anyColorSet].
  { split; [done|]. intros (i & n & [_ H] & _). unfold word in H. destruct i; simpl in H; by rewrite Z.bits_0 in H. }
  destruct Hc as [|c color Hc0 Hc].
  { split; [done|]. intros (i & n & _ & [_ H]). unfold word in H. destruct i; simpl in H; by rewrite Z.bits_0 in H. }
  rewrite orb_true_iff, IH by done. split.
  - intros [Hn|(i & n & H1 & H2)]; [|by exists (S i), n].
    apply negb_true_iff, Z.eqb_neq in Hn. destruct (nonzero_bit _ Hn) as (n & Hn1 & Hn2).
    { apply land_u32; [done|]. unfold u32_ok in Hc0. lia. }
    rewrite Z.land_spec in Hn2. apply andb_true_iff in Hn2 as [? ?]. by exists 0%nat, n.
  - intros (i & n & [H1 H2] & [_ H3]). destruct i as [|i]; [left|right; by exists i, n].
    unfold word in H2, H3. simpl in H2, H3. apply negb_true_iff, Z.eqb_neq. intros E.
    apply (f_equal (fun x => Z.testbit x n)) in E. rewrite Z.land_spec, H2, H3, Z.bits_0 in E. done.
Qed.

Lemma allColorsSet_iff rule color :
  mask_ok rule ->
  allColorsSet rule color = true <-> forall i n, has_color rule i n -> has_color color i n.
Proof.
  intros Hr. revert color. induction Hr as [|w rule Hw Hr IH]; intros color; cbn [allColorsSet].
  { split; [|done]. intros _ i n [_ H]. unfold word in H. destruct i; simpl in H; by rewrite Z.bits_0 in H. }
  assert (Hword : forall i, word (drop 1 color) i = word color (S i)) by (intros i; by destruct color, i).
  rewrite andb_true_iff, IH, Z.eqb_eq. unfold has_color. setoid_rewrite Hword. split.
  - intros [H1 H2] [|i] n [Hn H]; [|by apply H2]. split; [done|]. unfold word in *. simpl in H.
    rewrite <- H1 in H. rewrite Z.land_spec in H. apply andb_true_iff in H as [_ H]. exact H.
  - intros H. split; [|intros i n Hn; by apply (H (S i) n)]. apply Z.bits_inj'. intros n Hn.
    rewrite Z.land_spec. destruct (Z.testbit w n) eqn:E; [|done]. simpl.
    apply (H 0%nat n). split; [by eapply testbit_u32|done].
Qed.
