(* ===== verification/Heap.v ===== *)
(** container/heap as spf.go uses it: the interface of a heap, the operations
    of the package over it, and their correctness against the laws of the
    interface. *)

From S2P Require Import Prelude.
Local Open Scope nat_scope.

(** ** The interface *)

(** [heap.Interface]: [Len], [Less], [Swap]; [Push] and [Pop] append and remove
    the last element and are taken per operation. *)
Class Heap (H : Type) := {
  Len : H -> nat;
  Less : H -> nat -> nat -> bool;
  Swap : H -> nat -> nat -> H
}.

(** What a heap owes the package: an order by an integer key, and swaps that
    only exchange two positions. *)
Definition transpose (i j x : nat) : nat := if decide (x = i) then j else if decide (x = j) then i else x.

Class HeapLaws (H : Type) `{Heap H} (ok : H -> Prop) (key : H -> nat -> Z) := {
  less_key : forall h i j, ok h -> i < Len h -> j < Len h -> Less h i j = (key h i <? key h j)%Z;
  swap_ok : forall h i j, ok h -> i < Len h -> j < Len h -> ok (Swap h i j);
  swap_len : forall h i j, ok h -> i < Len h -> j < Len h -> Len (Swap h i j) = Len h;
  swap_key : forall h i j x, ok h -> i < Len h -> j < Len h -> x < Len h ->
    key (Swap h i j) x = key h (transpose i j x)
}.

(** ** The operations *)

Section Operations.
Context {H : Type} `{Heap H}.

(** [(j - 1) / 2], which Go truncates towards zero. *)
Definition parent (j : nat) : nat := (j - 1) / 2.

(** [up]: at most [j] turns, the parent being smaller each time. *)
Fixpoint up_fuel (n : nat) (h : H) (j : nat) : H :=
  let i := parent j in
  if (i =? j) || negb (Less h j i) then h else
  match n with
  | O => h
  | S n => up_fuel n (Swap h i j) i
  end.
Definition up (h : H) (j : nat) : H := up_fuel j h j.

(** [down] over the first [n] elements: the heap, and where the element ended.  A
    turn at least doubles the index, so [n] turns are more than enough. *)
Fixpoint down_fuel (m : nat) (h : H) (i n : nat) : H * nat :=
  let j1 := 2 * i + 1 in
  if n <=? j1 then (h, i) else
  let j2 := j1 + 1 in
  let j := if (j2 <? n) && Less h j2 j1 then j2 else j1 in
  if negb (Less h j i) then (h, i) else
  match m with
  | O => (h, i)
  | S m => down_fuel m (Swap h i j) j n
  end.
Definition down (h : H) (i0 n : nat) : H * bool :=
  let '(h, i) := down_fuel n h i0 n in (h, i0 <? i).

(** [Fix] *)
Definition Fix (h : H) (i : nat) : H :=
  let '(h, moved) := down h i (Len h) in if moved then h else up h i.
End Operations.

(** ** Heap order *)

(** The keys are heap-ordered below [n]. *)
Definition ordered (k : nat -> Z) (n : nat) : Prop := forall x, 0 < x < n -> (k (parent x) <= k x)%Z.

(** Ordered but for the element at [j], which may be smaller than its parent;
    its children are at least its parent. *)
Definition ordered_up (k : nat -> Z) (n j : nat) : Prop :=
  (forall x, 0 < x < n -> x <> j -> (k (parent x) <= k x)%Z) /\
  (forall x, 0 < x < n -> parent x = j -> 0 < j -> (k (parent j) <= k x)%Z).

(** Ordered but for the element at [i], which may be larger than its children;
    they are at least its parent. *)
Definition ordered_down (k : nat -> Z) (n i : nat) : Prop :=
  (forall x, 0 < x < n -> parent x <> i -> (k (parent x) <= k x)%Z) /\
  (forall x, 0 < x < n -> parent x = i -> 0 < i -> (k (parent i) <= k x)%Z).

Lemma parent_lt x : 0 < x -> parent x < x.
Proof. unfold parent. intros Hx. apply Nat.Div0.div_lt_upper_bound. lia. Qed.

Lemma parent_zero : parent 0 = 0. Proof. reflexivity. Qed.

Lemma parent_spec x i : 0 < x -> parent x = i <-> x = 2 * i + 1 \/ x = 2 * i + 2.
Proof.
  unfold parent. intros Hx. pose proof (Nat.div_mod_eq (x - 1) 2). pose proof (Nat.mod_upper_bound (x - 1) 2). lia.
Qed.

Lemma ordered_root k n x : ordered k n -> x < n -> (k O <= k x)%Z.
Proof.
  intros Ho. induction x as [x IH] using lt_wf_ind. intros Hx. destruct (Nat.eq_dec x 0) as [->|Hx0]; [lia|].
  pose proof (parent_lt x). specialize (Ho x). specialize (IH (parent x)). lia.
Qed.

Lemma ordered_ext k k' n : (forall x, x < n -> k' x = k x) -> ordered k n -> ordered k' n.
Proof. intros E Ho x Hx. pose proof (parent_lt x). rewrite !E by lia. by apply Ho. Qed.

Lemma ordered_prefix k n m : m <= n -> ordered k n -> ordered k m.
Proof. intros Hm Ho x Hx. apply Ho. lia. Qed.

Lemma transpose_l i j : transpose i j i = j.
Proof. unfold transpose. by rewrite decide_True. Qed.
Lemma transpose_r i j : transpose i j j = i.
Proof. unfold transpose. destruct (decide (j = i)) as [->|]; [done|]. by rewrite decide_True. Qed.
Lemma transpose_ne i j x : x <> i -> x <> j -> transpose i j x = x.
Proof. intros. unfold transpose. by rewrite !decide_False. Qed.
Lemma transpose_lt i j x n : i < n -> j < n -> x < n -> transpose i j x < n.
Proof. intros. unfold transpose. by repeat destruct (decide _). Qed.

(** Moving a small element one step up. *)
Lemma ordered_up_step k n j :
  0 < j < n -> ordered_up k n j -> (k j < k (parent j))%Z ->
  ordered_up (fun x => k (transpose (parent j) j x)) n (parent j).
Proof.
  intros Hj [H1 H2] Hlt. pose proof (parent_lt j ltac:(lia)) as Hp. set (i := parent j) in *. split.
  - intros x Hx Hxi. destruct (Nat.eq_dec x j) as [->|Hxj].
    + rewrite transpose_r. fold i. rewrite transpose_l. lia.
    + rewrite (transpose_ne i j x) by lia. destruct (Nat.eq_dec (parent x) i) as [E|E].
      * rewrite E, transpose_l. specialize (H1 x Hx Hxj). rewrite E in H1. lia.
      * destruct (Nat.eq_dec (parent x) j) as [E'|E'].
        -- rewrite E', transpose_r. specialize (H2 x Hx E'). lia.
        -- rewrite transpose_ne by done. by apply H1.
  - intros x Hx Hpx Hi. rewrite (transpose_ne i j (parent i)) by (pose proof (parent_lt i); lia).
    assert (Hgi : (k (parent i) <= k i)%Z) by (apply H1; lia).
    destruct (Nat.eq_dec x j) as [->|Hxj]; [rewrite transpose_r; lia|].
    destruct (Nat.eq_dec x i) as [->|Hxi]; [pose proof (parent_lt i); lia|].
    rewrite transpose_ne by done. specialize (H1 x Hx Hxj). rewrite Hpx in H1. lia.
Qed.

(** Moving a large element one step down, to the smaller of its children. *)
Lemma ordered_down_step k n i j :
  0 < j < n -> parent j = i -> ordered_down k n i -> (k j < k i)%Z ->
  (forall x, 0 < x < n -> parent x = i -> (k j <= k x)%Z) ->
  ordered_down (fun x => k (transpose i j x)) n j.
Proof.
  intros Hj Hpj [H1 H2] Hlt Hmin. pose proof (parent_lt j ltac:(lia)) as Hp. split.
  - intros x Hx Hpx. destruct (Nat.eq_dec x j) as [->|Hxj]; [rewrite transpose_r, Hpj, transpose_l; lia|].
    destruct (Nat.eq_dec (parent x) i) as [E|E].
    + destruct (Nat.eq_dec x i) as [->|Hxi]; [pose proof (parent_lt i); lia|].
      rewrite E, transpose_l, transpose_ne by done. by apply Hmin.
    + rewrite (transpose_ne i j (parent x)) by done.
      destruct (Nat.eq_dec x i) as [->|Hxi]; [rewrite transpose_l; by apply H2; lia|].
      rewrite transpose_ne by done. by apply H1.
  - intros x Hx Hpx Hj0. rewrite Hpj, transpose_l. pose proof (parent_lt x ltac:(lia)).
    rewrite transpose_ne by lia. specialize (H1 x Hx). rewrite Hpx in H1. apply H1. lia.
Qed.

Section Correctness.
Context {H : Type} `{Heap H} (ok : H -> Prop) (key : H -> nat -> Z) `{!HeapLaws H ok key}.

(** Whatever swaps preserve, [up] and [down] do. *)
Lemma up_fuel_ind (P : H -> Prop) n h j :
  (forall h i j, ok h -> P h -> i < Len h -> j < Len h -> P (Swap h i j)) ->
  ok h -> P h -> j < Len h -> ok (up_fuel n h j) /\ P (up_fuel n h j) /\ Len (up_fuel n h j) = Len h.
Proof.
  intros HP. revert h j. induction n as [|n IH]; intros h j Hok Hh Hj; cbn [up_fuel]; destruct (_ || _) eqn:E; try done.
  assert (Hp : parent j < Len h) by (destruct (Nat.eq_dec j 0) as [->|]; [done|pose proof (parent_lt j); lia]).
  destruct (IH (Swap h (parent j) j) (parent j)) as (I1 & I2 & I3).
  - by apply swap_ok.
  - by apply HP.
  - by rewrite swap_len.
  - split_and!; [done|done|by rewrite I3, swap_len].
Qed.

Lemma down_fuel_ind (P : H -> Prop) m h i n :
  (forall h i j, ok h -> P h -> n <= Len h -> i < n -> j < n -> P (Swap h i j)) ->
  ok h -> P h -> i < Len h -> n <= Len h ->
  let h' := (down_fuel m h i n).1 in ok h' /\ P h' /\ Len h' = Len h.
Proof.
  intros HP. revert h i. induction m as [|m IH]; intros h i Hok Hh Hi Hn; cbn [down_fuel];
    (destruct (Nat.leb_spec n (2 * i + 1)); [done|]);
    set (j := if _ && _ then _ else _); (destruct (negb (Less h j i)); [done|]); [done|].
  assert (Hj : j < n) by (subst j; destruct (Nat.ltb_spec (2 * i + 1 + 1) n); cbn [andb]; [destruct (Less _ _ _)|]; lia).
  destruct (IH (Swap h i j) j) as (I1 & I2 & I3).
  - apply swap_ok; (done || lia).
  - apply HP; (done || lia).
  - rewrite swap_len; (done || lia).
  - rewrite swap_len; (done || lia).
  - split_and!; [done|done|rewrite I3, swap_len; (done || lia)].
Qed.

Lemma up_fuel_ordered m h j :
  ok h -> j <= m -> j < Len h -> ordered_up (key h) (Len h) j -> ordered (key (up_fuel m h j)) (Len h).
Proof.
  intros Hok. revert h Hok j.
  assert (Hstop : forall h j, ok h -> j < Len h -> ordered_up (key h) (Len h) j ->
    (parent j =? j) || negb (Less h j (parent j)) = true -> ordered (key h) (Len h)).
  { intros h j Hok Hj [H1 H2] Hs x Hx. destruct (Nat.eq_dec x j) as [->|Hxj]; [|by apply H1].
    pose proof (parent_lt j ltac:(lia)). apply orb_true_iff in Hs as [Hs|Hs]; [apply Nat.eqb_eq in Hs; lia|].
    rewrite less_key in Hs by (done || lia). lia. }
  induction m as [|m IH]; intros h Hok j Hm Hj Ho; cbn [up_fuel];
    destruct ((parent j =? j) || negb (Less h j (parent j))) eqn:E; try by eapply Hstop.
  { exfalso. apply orb_false_iff in E as [E _].
    assert (j = 0) as -> by lia. by rewrite parent_zero in E. }
  apply orb_false_iff in E as [E1 E2].
  apply Nat.eqb_neq in E1. apply negb_false_iff in E2.
  assert (0 < j) by (destruct j; [by rewrite parent_zero in E1|lia]).
  pose proof (parent_lt j ltac:(lia)). rewrite less_key in E2 by (done || lia).
  rewrite <- (swap_len h (parent j) j) by (done || lia). apply IH.
  - apply swap_ok; (done || lia).
  - lia.
  - rewrite swap_len; (done || lia).
  - rewrite swap_len by (done || lia).
    assert (Hu : ordered_up (fun x => key h (transpose (parent j) j x)) (Len h) (parent j))
      by (apply ordered_up_step; [lia|done|lia]).
    destruct Hu as [U1 U2]. split.
    + intros x Hx Hne. pose proof (parent_lt x). rewrite !swap_key by (done || lia). by apply U1.
    + intros x Hx Hpx Hpj. pose proof (parent_lt (parent j)). rewrite !swap_key by (done || lia). by apply U2.
Qed.

(** The child [down] compares with: the smaller of the two. *)
Definition smaller_child (h : H) (i n : nat) : nat :=
  if (2 * i + 1 + 1 <? n) && Less h (2 * i + 1 + 1) (2 * i + 1) then 2 * i + 1 + 1 else 2 * i + 1.

Lemma smaller_child_spec h i n :
  ok h -> n <= Len h -> 2 * i + 1 < n ->
  let j := smaller_child h i n in
  0 < j < n /\ parent j = i /\ forall x, 0 < x < n -> parent x = i -> (key h j <= key h x)%Z.
Proof.
  intros Hok Hn Hi j. subst j. unfold smaller_child.
  assert (Hx : forall x, 0 < x < n -> parent x = i -> x = 2 * i + 1 \/ x = 2 * i + 1 + 1).
  { intros x Hx E. apply parent_spec in E; lia. }
  destruct (Nat.ltb_spec (2 * i + 1 + 1) n) as [Hj|Hj]; cbn [andb].
  - rewrite less_key by (done || lia). destruct (Z.ltb_spec (key h (2 * i + 1 + 1)) (key h (2 * i + 1))) as [Hk|Hk].
    + split; [lia|]. split; [apply parent_spec; lia|]. intros x Hb E. destruct (Hx x Hb E) as [-> | ->]; lia.
    + split; [lia|]. split; [apply parent_spec; lia|]. intros x Hb E. destruct (Hx x Hb E) as [-> | ->]; lia.
  - split; [lia|]. split; [apply parent_spec; lia|]. intros x Hb E. destruct (Hx x Hb E) as [-> | ->]; lia.
Qed.

Lemma down_fuel_ordered m h i n :
  ok h -> n <= Len h -> n <= m + i -> i < Len h -> ordered_down (key h) n i ->
  ordered (key (down_fuel m h i n).1) n.
Proof.
  intros Hok. revert h Hok i.
  assert (Hstop : forall h i, ok h -> n <= Len h -> ordered_down (key h) n i ->
    (forall x, 0 < x < n -> parent x = i -> (key h i <= key h x)%Z) -> ordered (key h) n).
  { intros h i Hok Hn [H1 H2] Hs x Hx. destruct (Nat.eq_dec (parent x) i) as [E|E]; [rewrite E; by apply Hs|by apply H1]. }
  induction m as [|m IH]; intros h Hok i Hn Hm Hi Ho; cbn [down_fuel]; fold (smaller_child h i n);
    (destruct (Nat.leb_spec n (2 * i + 1)) as [Hl|Hl];
      [cbn [fst]; apply (Hstop h i Hok Hn Ho); intros x Hx E; apply parent_spec in E; lia|]); [lia|].
  destruct (smaller_child_spec h i n Hok Hn Hl) as (Hj & Hpj & Hmin). set (j := smaller_child h i n) in *.
  rewrite less_key by (done || lia). destruct (Z.ltb_spec (key h j) (key h i)) as [Hk|Hk]; cbn [negb].
  2:{ apply (Hstop h i Hok Hn Ho). intros x Hx E. specialize (Hmin x Hx E). lia. }
  pose proof (parent_lt j ltac:(lia)).
  apply IH.
  - apply swap_ok; (done || lia).
  - rewrite swap_len; (done || lia).
  - lia.
  - rewrite swap_len; (done || lia).
  - destruct (ordered_down_step (key h) n i j Hj Hpj Ho Hk Hmin) as [U1 U2]. split.
    + intros x Hx Hne. pose proof (parent_lt x). rewrite !swap_key by (done || lia). by apply U1.
    + intros x Hx Hpx H0j. rewrite !swap_key by (done || lia). by apply U2.
Qed.

(** An element at most its children stays. *)
Lemma down_still h i n :
  ok h -> n <= Len h -> i < Len h -> (forall x, 0 < x < n -> parent x = i -> (key h i <= key h x)%Z) ->
  down h i n = (h, false).
Proof.
  intros Hok Hn Hi Hc. unfold down.
  assert (E : down_fuel n h i n = (h, i)).
  { destruct n as [|n]; [done|]. cbn [down_fuel]. fold (smaller_child h i (S n)).
    destruct (Nat.leb_spec (S n) (2 * i + 1)) as [Hl|Hl]; [done|].
    destruct (smaller_child_spec h i (S n) Hok Hn Hl) as (Hj & Hpj & _). set (j := smaller_child h i (S n)) in *.
    rewrite less_key by (done || lia). specialize (Hc j Hj Hpj). by rewrite (proj2 (Z.ltb_ge _ _)). }
  rewrite E. by rewrite Nat.ltb_irrefl.
Qed.

(** An element made smaller where it stands is put right by [Fix], which moves
    it up. *)
Lemma Fix_up h i :
  ok h -> i < Len h -> ordered_up (key h) (Len h) i -> Fix h i = up h i.
Proof.
  intros Hok Hi [H1 _]. unfold Fix. rewrite down_still; [done|done|lia|done|].
  intros x Hx E. pose proof (parent_lt x ltac:(lia)). specialize (H1 x Hx). rewrite E in H1. apply H1. lia.
Qed.

Lemma up_ordered h j : ok h -> j < Len h -> ordered_up (key h) (Len h) j -> ordered (key (up h j)) (Len h).
Proof. intros. by apply up_fuel_ordered. Qed.
End Correctness.
