(* ===== verification/Tent.v ===== *)
(** pkg/server/spf.go, the tentative set of Dijkstra's algorithm: what the
    computation needs of it ([TentativeSet] and its laws), and [tentSet], the
    binary heap over entries indexed by node, which implements it.

    A [*tentEntry] is named by the node it is for: the index maps that name to
    the entry and holds one per node, so the heap is a list of names and a write
    through a pointer is a write of the index.  The first-hop set of an entry is
    its own ([relax] clones what it is given), so it is a value. *)

From S2P Require Import Prelude.
From S2P Require Import Ids.
From S2P Require Import Heap.
Local Open Scope Z_scope.

(** ** The interface *)

Class TentativeSet (T : Type) := {
  tent_new : NodeID -> T;
  tent_len : T -> nat;
  tent_pop : T -> option (NodeID * Z * gset SystemID * T);
  tent_relax : T -> NodeID -> Z -> gset SystemID -> T
}.

(** The set as the computation reads it: the tentative distance and first hops
    of each node. *)
Abbreviation tentative := (gmap NodeID (Z * gset SystemID)).

Definition relaxed (m : tentative) (id : NodeID) (d : Z) (fh : gset SystemID) : tentative :=
  match m !! id with
  | None => <[id := (d, fh)]> m
  | Some (d0, fh0) =>
      if d <? d0 then <[id := (d, fh)]> m
      else if d =? d0 then <[id := (d0, fh0 ∪ fh)]> m
      else m
  end.

Class TentativeLaws (T : Type) `{TentativeSet T} (ok : T -> Prop) (view : T -> tentative) := {
  new_law : forall self, ok (tent_new self) /\ view (tent_new self) = {[ self := (0, ∅) ]};
  len_law : forall t, ok t -> tent_len t = size (view t);
  pop_empty : forall t, ok t -> tent_pop t = None -> view t = ∅;
  pop_law : forall t id d fh t', ok t -> tent_pop t = Some (id, d, fh, t') ->
    ok t' /\ view t !! id = Some (d, fh) /\ view t' = delete id (view t) /\
    forall id' d' fh', view t !! id' = Some (d', fh') -> d <= d';
  relax_law : forall t id d fh, ok t -> ok (tent_relax t id d fh) /\ view (tent_relax t id d fh) = relaxed (view t) id d fh
}.

(** ** The implementation *)

Record tentEntry : Type := mkTentEntry { t_id : NodeID; distance : Z; t_index : nat; firstHops : gset SystemID }.

Record tentSet : Type := mkTentSet { t_heap : list NodeID; t_entries : gmap NodeID tentEntry }.

Definition set_index (i : nat) (e : tentEntry) : tentEntry := mkTentEntry (t_id e) (distance e) i (firstHops e).

Definition tent_distance (t : tentSet) (i : nat) : Z :=
  match t_heap t !! i ≫= fun id => t_entries t !! id with Some e => distance e | None => 0 end.

(** [tentHeap.Less], [tentHeap.Swap]; indices are in range wherever the package
    uses them. *)
Definition tentHeap_Less (t : tentSet) (i j : nat) : bool := tent_distance t i <? tent_distance t j.

Definition tentHeap_Swap (t : tentSet) (i j : nat) : tentSet :=
  match t_heap t !! i, t_heap t !! j with
  | Some a, Some b =>
      mkTentSet (<[j := a]> (<[i := b]> (t_heap t))) (alter (set_index j) a (alter (set_index i) b (t_entries t)))
  | _, _ => t
  end.

#[export] Instance tentHeap : Heap tentSet := {
  Len t := length (t_heap t);
  Less := tentHeap_Less;
  Swap := tentHeap_Swap
}.

Definition newTentSet (self : NodeID) : tentSet :=
  mkTentSet [self] {[ self := mkTentEntry self 0 0 ∅ ]}.

(** [tentHeap.Push] of an entry already indexed: its index is the end. *)
Definition tentHeap_Push (t : tentSet) (e : tentEntry) : tentSet :=
  mkTentSet (t_heap t ++ [t_id e]) (<[t_id e := set_index (length (t_heap t)) e]> (t_entries t)).

(** [tentHeap.Pop]: the last element removed. *)
Definition tentHeap_Pop (t : tentSet) : option tentEntry * tentSet :=
  (last (t_heap t) ≫= fun id => t_entries t !! id,
   mkTentSet (take (length (t_heap t) - 1) (t_heap t)) (t_entries t)).

(** [heap.Pop]. *)
Definition heap_Pop (t : tentSet) : option tentEntry * tentSet :=
  let n := (Len t - 1)%nat in
  tentHeap_Pop (down (Swap t 0%nat n) 0 n).1.

(** [heap.Push]. *)
Definition heap_Push (t : tentSet) (e : tentEntry) : tentSet :=
  let t := tentHeap_Push t e in up t (Len t - 1).

Definition tentSet_pop (t : tentSet) : option (tentEntry * tentSet) :=
  if (Len t =? 0)%nat then None else
  match heap_Pop t with
  | (Some e, t) => Some (e, mkTentSet (t_heap t) (delete (t_id e) (t_entries t)))
  | (None, _) => None
  end.

Definition tentSet_relax (t : tentSet) (id : NodeID) (d : Z) (fh : gset SystemID) : tentSet :=
  match t_entries t !! id with
  | None => heap_Push t (mkTentEntry id d 0 fh)
  | Some e =>
      if d <? distance e
      then Fix (mkTentSet (t_heap t) (<[id := mkTentEntry (t_id e) d (t_index e) fh]> (t_entries t))) (t_index e)
      else if d =? distance e
      then mkTentSet (t_heap t) (<[id := mkTentEntry (t_id e) (distance e) (t_index e) (firstHops e ∪ fh)]> (t_entries t))
      else t
  end.

#[export] Instance tentSet_ops : TentativeSet tentSet := {
  tent_new := newTentSet;
  tent_len t := Len t;
  tent_pop t := '(e, t) ← tentSet_pop t; Some (t_id e, distance e, firstHops e, t);
  tent_relax := tentSet_relax
}.

(** ** Correctness *)

(** The heap and the index name the same entries, each at its position. *)
Definition linked (t : tentSet) : Prop :=
  (forall i id, t_heap t !! i = Some id <-> exists e, t_entries t !! id = Some e /\ t_index e = i) /\
  (forall id e, t_entries t !! id = Some e -> t_id e = id).

Definition tent_view (t : tentSet) : tentative := (fun e => (distance e, firstHops e)) <$> t_entries t.

Definition tent_ok (t : tentSet) : Prop := linked t /\ ordered (tent_distance t) (length (t_heap t)).

Lemma linked_at t i : linked t -> (i < length (t_heap t))%nat ->
  exists id e, t_heap t !! i = Some id /\ t_entries t !! id = Some e /\ t_index e = i /\ t_id e = id /\
    tent_distance t i = distance e.
Proof.
  intros [L1 L2] Hi. destruct (lookup_lt_is_Some_2 (t_heap t) i Hi) as [id Hid].
  destruct (proj1 (L1 i id) Hid) as (e & He & Hx). exists id, e. split_and!; [done|done|done|by apply L2|].
  unfold tent_distance. rewrite Hid. simpl. by rewrite He.
Qed.

Lemma swap_entries t i j a b id :
  t_heap t !! i = Some a -> t_heap t !! j = Some b ->
  t_entries (tentHeap_Swap t i j) !! id =
    (if decide (id = a) then set_index j else if decide (id = b) then set_index i else fun e => e) <$> t_entries t !! id.
Proof.
  intros Ha Hb. unfold tentHeap_Swap. rewrite Ha, Hb. cbn [t_entries]. rewrite !lookup_alter.
  destruct (decide (a = id)) as [<-|Hna].
  - rewrite !(decide_True (P := a = a)) by done. destruct (decide (b = a)) as [->|], (t_entries t !! a); done.
  - rewrite (decide_False (P := id = a)) by done. destruct (decide (b = id)) as [<-|Hnb].
    + by rewrite (decide_True (P := b = b)).
    + rewrite decide_False by done. by destruct (t_entries t !! id).
Qed.

Lemma swap_view t i j : tent_view (tentHeap_Swap t i j) = tent_view t.
Proof.
  unfold tent_view. destruct (t_heap t !! i) as [a|] eqn:Ha; [|unfold tentHeap_Swap; by rewrite Ha].
  destruct (t_heap t !! j) as [b|] eqn:Hb; [|unfold tentHeap_Swap; by rewrite Ha, Hb].
  apply map_eq. intros id. rewrite !lookup_fmap, (swap_entries t i j a b) by done.
  destruct (t_entries t !! id) as [e|]; [|done]. simpl. by repeat destruct (decide _).
Qed.

Lemma swap_heap t i j x :
  (i < length (t_heap t))%nat -> (j < length (t_heap t))%nat ->
  t_heap (tentHeap_Swap t i j) !! x = t_heap t !! transpose i j x.
Proof.
  intros Hi Hj. destruct (lookup_lt_is_Some_2 (t_heap t) i Hi) as [a Ha].
  destruct (lookup_lt_is_Some_2 (t_heap t) j Hj) as [b Hb]. unfold tentHeap_Swap. rewrite Ha, Hb. cbn [t_heap].
  unfold transpose. destruct (decide (x = j)) as [->|Hxj].
  - rewrite list_lookup_insert_eq by (rewrite length_insert; done).
    destruct (decide (j = i)) as [->|]; congruence.
  - rewrite list_lookup_insert_ne by done. destruct (decide (x = i)) as [->|Hxi].
    + by rewrite list_lookup_insert_eq by done.
    + by rewrite list_lookup_insert_ne by done.
Qed.

Lemma swap_length t i j : length (t_heap (tentHeap_Swap t i j)) = length (t_heap t).
Proof.
  unfold tentHeap_Swap. destruct (t_heap t !! i); [|done]. destruct (t_heap t !! j); [|done]. cbn [t_heap].
  by rewrite !length_insert.
Qed.

Lemma swap_linked t i j :
  linked t -> (i < length (t_heap t))%nat -> (j < length (t_heap t))%nat -> linked (tentHeap_Swap t i j).
Proof.
  intros L Hi Hj. destruct (linked_at t i L Hi) as (a & ea & Ha & Hea & Hia & Hta & _).
  destruct (linked_at t j L Hj) as (b & eb & Hb & Heb & Hib & Htb & _). destruct L as [L1 L2].
  assert (Hinj : forall x y id, t_heap t !! x = Some id -> t_heap t !! y = Some id -> x = y).
  { intros x y id Hx Hy. apply L1 in Hx as (e & He & <-). apply L1 in Hy as (e' & He' & <-). congruence. }
  split.
  - intros x id. rewrite (swap_heap t i j x Hi Hj), (swap_entries t i j a b id Ha Hb). rewrite (L1 (transpose i j x) id).
    split.
    + intros (e & He & Hx). rewrite He. eexists. split; [done|].
      destruct (decide (id = a)) as [->|Hna]; [|destruct (decide (id = b)) as [->|Hnb]].
      * rewrite Hea in He. injection He as <-. cbn [set_index t_index]. rewrite Hia in Hx.
        unfold transpose in Hx. repeat destruct (decide _); congruence.
      * rewrite Heb in He. injection He as <-. cbn [set_index t_index]. rewrite Hib in Hx.
        unfold transpose in Hx. repeat destruct (decide _); congruence.
      * assert (Hl : t_heap t !! t_index e = Some id) by (apply L1; by exists e). rewrite Hx in Hl.
        unfold transpose in *. repeat destruct (decide _); congruence.
    + intros (e' & He' & Hx). destruct (t_entries t !! id) as [e|] eqn:He; [|done]. exists e. split; [done|].
      simpl in He'. injection He' as <-. destruct (decide (id = a)) as [->|Hna]; [|destruct (decide (id = b)) as [->|Hnb]].
      * cbn [set_index t_index] in Hx. subst x. rewrite transpose_r. congruence.
      * cbn [set_index t_index] in Hx. subst x. rewrite transpose_l. congruence.
      * subst x. assert (Hl : t_heap t !! t_index e = Some id) by (apply L1; by exists e).
        rewrite transpose_ne; [done| |]; intros E; rewrite E in Hl; congruence.
  - intros id e'. rewrite (swap_entries t i j a b id Ha Hb). destruct (t_entries t !! id) as [e|] eqn:He; [|done].
    simpl. intros [= <-]. specialize (L2 id e He). by repeat destruct (decide _).
Qed.

(** The distance at a position through the view. *)
Lemma tent_distance_view t i :
  tent_distance t i = match t_heap t !! i ≫= fun id => tent_view t !! id with Some (d, _) => d | None => 0 end.
Proof.
  unfold tent_distance, tent_view. destruct (t_heap t !! i) as [id|]; [|done]. simpl. rewrite lookup_fmap.
  by destruct (t_entries t !! id).
Qed.

#[export] Instance tentHeap_laws : HeapLaws tentSet linked tent_distance.
Proof.
  split.
  - done.
  - intros t i j L. apply (swap_linked t i j L).
  - intros t i j _ _ _. apply swap_length.
  - intros t i j x L Hi Hj Hx. rewrite !tent_distance_view. cbn [Swap tentHeap].
    by rewrite (swap_view t i j), swap_heap.
Qed.

Lemma up_tent t j : linked t -> (j < length (t_heap t))%nat -> ordered_up (tent_distance t) (length (t_heap t)) j ->
  tent_ok (up t j) /\ tent_view (up t j) = tent_view t.
Proof.
  intros L Hj Ho. destruct (up_fuel_ind linked tent_distance (fun h => tent_view h = tent_view t) j t j)
    as (U1 & U2 & U3); [|done|done|done|].
  { intros h x y _ Hv _ _. rewrite <- Hv. apply swap_view. }
  split; [|done]. split; [done|]. unfold up. cbn [Len tentHeap] in U3. rewrite U3.
  exact (up_ordered linked tent_distance t j L Hj Ho).
Qed.

Lemma fix_tent t j : linked t -> (j < length (t_heap t))%nat -> ordered_up (tent_distance t) (length (t_heap t)) j ->
  tent_ok (Fix t j) /\ tent_view (Fix t j) = tent_view t.
Proof.
  intros L Hj Ho. assert (E : Fix t j = up t j) by exact (Fix_up linked tent_distance t j L Hj Ho).
  rewrite E. by apply up_tent.
Qed.

(** An entry rewritten in place. *)
Lemma linked_write t id e e' :
  linked t -> t_entries t !! id = Some e -> t_id e' = t_id e -> t_index e' = t_index e ->
  linked (mkTentSet (t_heap t) (<[id := e']> (t_entries t))).
Proof.
  intros [L1 L2] He Hid Hix. split; cbn [t_heap t_entries].
  - intros i x. rewrite L1. destruct (decide (id = x)) as [<-|Hne].
    + rewrite lookup_insert_eq. split; [intros (e0 & He0 & <-); exists e'; split; [done|congruence]|].
      intros (e0 & [= <-] & <-). by exists e.
    + by rewrite lookup_insert_ne.
  - intros x e0. destruct (decide (id = x)) as [<-|Hne].
    + rewrite lookup_insert_eq. intros [= <-]. rewrite Hid. by apply L2.
    + rewrite lookup_insert_ne by done. apply L2.
Qed.

(** Only the position of [id] sees its distance rewritten. *)
Lemma distance_write t id e e' x :
  linked t -> t_entries t !! id = Some e ->
  tent_distance (mkTentSet (t_heap t) (<[id := e']> (t_entries t))) x =
    if decide (x = t_index e) then distance e' else tent_distance t x.
Proof.
  intros [L1 L2] He. unfold tent_distance. cbn [t_heap t_entries].
  assert (Hp : t_heap t !! t_index e = Some id) by (apply L1; by exists e).
  destruct (decide (x = t_index e)) as [->|Hx]; [rewrite Hp; simpl; by rewrite lookup_insert_eq|].
  destruct (t_heap t !! x) as [y|] eqn:Hy; [|done]. simpl. rewrite lookup_insert_ne; [done|].
  intros ->. apply L1 in Hy as (e0 & He0 & <-). congruence.
Qed.

Lemma view_write h m id e' : tent_view (mkTentSet h (<[id := e']> m)) = <[id := (distance e', firstHops e')]> (tent_view (mkTentSet h m)).
Proof. unfold tent_view. cbn [t_entries]. by rewrite fmap_insert. Qed.

Section Entry.
Context (t : tentSet) (id : NodeID) (e : tentEntry) (Hok : tent_ok t) (He : t_entries t !! id = Some e).

Lemma entry_at : t_heap t !! t_index e = Some id /\ (t_index e < length (t_heap t))%nat /\
  tent_distance t (t_index e) = distance e.
Proof using Hok He.
  destruct Hok as [[L1 _] _]. assert (Hp : t_heap t !! t_index e = Some id) by (apply L1; by exists e).
  split; [done|]. split; [by eapply lookup_lt_Some|]. unfold tent_distance. rewrite Hp. simpl. by rewrite He.
Qed.

(** A lowered distance moves the entry up. *)
Lemma lower_tent d fh :
  d < distance e ->
  let t' := Fix (mkTentSet (t_heap t) (<[id := mkTentEntry (t_id e) d (t_index e) fh]> (t_entries t))) (t_index e) in
  tent_ok t' /\ tent_view t' = <[id := (d, fh)]> (tent_view t).
Proof using Hok He.
  intros Hd. destruct entry_at as (Hp & Hi & Hke). destruct Hok as [L Ho].
  set (e' := mkTentEntry (t_id e) d (t_index e) fh). set (t1 := mkTentSet _ _).
  assert (Hk : forall x, tent_distance t1 x = if decide (x = t_index e) then d else tent_distance t x)
    by (intros x; by apply (distance_write t id e e' x L He)).
  destruct (fix_tent t1 (t_index e)) as [F1 F2]; [by apply (linked_write t id e)|done| |].
  { split; cbn [t_heap t1].
    - intros x Hx Hne. rewrite !Hk, (decide_False (P := x = _)) by done. specialize (Ho x Hx).
      destruct (decide (parent x = t_index e)) as [E|E]; [rewrite E in Ho; lia|done].
    - intros x Hx E H0. rewrite !Hk. pose proof (parent_lt (t_index e) H0). pose proof (parent_lt x).
      rewrite !decide_False by lia. pose proof (Ho x Hx). pose proof (Ho (t_index e)). rewrite E in *. lia. }
  split; [done|]. rewrite F2. unfold t1. rewrite view_write. by destruct t.
Qed.

(** An equal one merges first hops, which the order does not depend on. *)
Lemma merge_tent fh :
  let t' := mkTentSet (t_heap t)
              (<[id := mkTentEntry (t_id e) (distance e) (t_index e) (firstHops e ∪ fh)]> (t_entries t)) in
  tent_ok t' /\ tent_view t' = <[id := (distance e, firstHops e ∪ fh)]> (tent_view t).
Proof using Hok He.
  destruct entry_at as (Hp & Hi & Hke). destruct Hok as [L Ho]. cbn zeta. split; [split|].
  - by apply (linked_write t id e).
  - cbn [t_heap]. eapply ordered_ext; [|exact Ho]. intros x _. rewrite (distance_write t id e _ x L He).
    by destruct (decide (x = t_index e)) as [->|].
  - rewrite view_write. by destruct t.
Qed.
End Entry.

Lemma linked_push t id d fh :
  linked t -> t_entries t !! id = None -> linked (tentHeap_Push t (mkTentEntry id d 0 fh)).
Proof.
  intros [L1 L2] He.
  assert (Hfresh : forall i, t_heap t !! i <> Some id) by (intros i (e & He' & _)%L1; congruence).
  split; cbn [tentHeap_Push t_heap t_entries t_id].
  - intros i x. destruct (decide (id = x)) as [<-|Hne].
    + rewrite lookup_insert_eq, lookup_app. destruct (t_heap t !! i) as [y|] eqn:Hy.
      * split; [intros [= ->]; by apply Hfresh in Hy|]. intros (e & [= <-] & <-). cbn [set_index t_index] in Hy.
        apply lookup_lt_Some in Hy. lia.
      * apply lookup_ge_None in Hy. rewrite list_lookup_singleton. case_match eqn:E.
        -- split; [intros _; eexists; split; [done|cbn; lia]|done].
        -- split; [done|]. intros (e & [= <-] & <-). cbn in E. lia.
    + rewrite lookup_insert_ne by done. rewrite <- L1, lookup_app. destruct (t_heap t !! i) as [y|] eqn:Hy; [done|].
      rewrite list_lookup_singleton. by case_match; [split; [intros [= ?]|]|].
  - intros x e. destruct (decide (id = x)) as [<-|Hne]; [rewrite lookup_insert_eq; by intros [= <-]|].
    rewrite lookup_insert_ne by done. apply L2.
Qed.

Lemma push_tent t id d fh :
  tent_ok t -> t_entries t !! id = None ->
  let t' := heap_Push t (mkTentEntry id d 0 fh) in tent_ok t' /\ tent_view t' = <[id := (d, fh)]> (tent_view t).
Proof.
  intros [L Ho] He. set (t1 := tentHeap_Push t (mkTentEntry id d 0 fh)). unfold heap_Push. fold t1.
  assert (Hlen : length (t_heap t1) = S (length (t_heap t))) by (cbn; rewrite length_app; simpl; lia).
  assert (Hk : forall x, (x < length (t_heap t))%nat -> tent_distance t1 x = tent_distance t x).
  { intros x Hx. unfold tent_distance. cbn [t1 tentHeap_Push t_heap t_entries t_id]. rewrite lookup_app_l by done.
    destruct (t_heap t !! x) as [y|] eqn:Hy; [|done]. simpl. rewrite lookup_insert_ne; [done|]. intros <-.
    apply L in Hy as (e & He' & _). congruence. }
  destruct (up_tent t1 (length (t_heap t1) - 1)) as [U1 U2]; [by apply linked_push|lia| |].
  { split.
    - intros x Hx Hne. pose proof (parent_lt x). rewrite !Hk by lia. apply Ho. lia.
    - intros x Hx E _. pose proof (parent_lt x). lia. }
  cbn [Len tentHeap]. split; [done|]. rewrite U2. unfold t1, tentHeap_Push. rewrite view_write. by destruct t.
Qed.

Lemma relax_tent t id d fh :
  tent_ok t -> tent_ok (tentSet_relax t id d fh) /\ tent_view (tentSet_relax t id d fh) = relaxed (tent_view t) id d fh.
Proof.
  intros Hok. unfold tentSet_relax, relaxed. unfold tent_view at 2. rewrite lookup_fmap.
  destruct (t_entries t !! id) as [e|] eqn:He; cbn [fmap option_fmap option_map]; [|by apply push_tent].
  destruct (Z.ltb_spec d (distance e)) as [Hd|Hd]; [by apply lower_tent|].
  destruct (Z.eqb_spec d (distance e)) as [->|Hne]; [by apply merge_tent|by split].
Qed.

(** The last element cut off. *)
Lemma cut_tent t n id e :
  linked t -> length (t_heap t) = S n -> t_heap t !! n = Some id -> t_entries t !! id = Some e ->
  ordered (tent_distance t) n ->
  let t' := mkTentSet (take n (t_heap t)) (delete id (t_entries t)) in
  tent_ok t' /\ tent_view t' = delete id (tent_view t).
Proof.
  intros [L1 L2] Hlen Hid He Ho t'. subst t'. assert (Hix : t_index e = n).
  { apply L1 in Hid as (e0 & He0 & <-). congruence. }
  assert (Hne : forall i x, (i < n)%nat -> t_heap t !! i = Some x -> x <> id).
  { intros i x Hi Hx ->. apply L1 in Hx as (e0 & He0 & <-). assert (e0 = e) as -> by congruence. lia. }
  split; [split; [split|]|]; cbn [t_heap t_entries].
  - intros i x. destruct (decide (i < n)%nat) as [Hi|Hi].
    + rewrite lookup_take_lt by done. split.
      * intros Hx. specialize (Hne i x Hi Hx). rewrite lookup_delete_ne by done. by apply L1.
      * destruct (decide (id = x)) as [<-|]; [rewrite lookup_delete_eq; by intros (? & ? & _)|].
        rewrite lookup_delete_ne by done. by intros H%L1.
    + rewrite lookup_take_ge by lia. split; [done|]. intros (e0 & He0 & <-). exfalso.
      destruct (decide (id = x)) as [<-|Hx]; [by rewrite lookup_delete_eq in He0|].
      rewrite lookup_delete_ne in He0 by done. assert (Hx0 : t_heap t !! t_index e0 = Some x) by (apply L1; by exists e0).
      pose proof (lookup_lt_Some _ _ _ Hx0). assert (t_index e0 = n) as E by lia. rewrite E in Hx0. congruence.
  - intros x e0. destruct (decide (id = x)) as [<-|Hx]; [by rewrite lookup_delete_eq|].
    rewrite lookup_delete_ne by done. apply L2.
  - rewrite length_take, Hlen, Nat.min_l by lia. eapply ordered_ext; [|exact Ho]. intros x Hx.
    unfold tent_distance. cbn [t_heap t_entries]. rewrite lookup_take_lt by done.
    destruct (t_heap t !! x) as [y|] eqn:Hy; [|done]. simpl. rewrite lookup_delete_ne; [done|].
    intros <-. by eapply Hne.
  - unfold tent_view. cbn [t_entries]. by rewrite fmap_delete.
Qed.

(** The root swapped with the last element, and the rest put in order. *)
Lemma sift_tent t n r :
  tent_ok t -> length (t_heap t) = S n -> t_heap t !! 0%nat = Some r ->
  let t' := (down (tentHeap_Swap t 0 n) 0 n).1 in
  linked t' /\ length (t_heap t') = S n /\ t_heap t' !! n = Some r /\ ordered (tent_distance t') n /\
  tent_view t' = tent_view t.
Proof.
  intros [L Ho] Hn Hr. set (t1 := tentHeap_Swap t 0 n).
  assert (L1 : linked t1) by (apply swap_linked; [done|lia|lia]).
  assert (H1 : length (t_heap t1) = S n) by (unfold t1; by rewrite swap_length).
  assert (Hroot : t_heap t1 !! n = Some r) by (unfold t1; rewrite swap_heap, transpose_r by lia; done).
  assert (Hd1 : ordered_down (tent_distance t1) n 0).
  { split; [|intros; lia]. intros x Hx Hp. pose proof (parent_lt x ltac:(lia)).
    assert (forall y, (0 < y < n)%nat -> tent_distance t1 y = tent_distance t y) as Hk.
    { intros y Hy. transitivity (tent_distance t (transpose 0 n y)); [|by rewrite transpose_ne by lia].
      refine (swap_key (ok := linked) (key := tent_distance) t 0%nat n y L _ _ _); cbn; lia. }
    rewrite !Hk by lia. apply Ho. lia. }
  destruct (down_fuel_ind linked tent_distance (fun h => tent_view h = tent_view t /\ t_heap h !! n = Some r) n t1 0 n)
    as (D1 & [D2 D3] & D4).
  { intros h x y Hh [V Hr'] Hb Hx Hy. cbn [Len tentHeap Swap] in *. split; [rewrite <- V; apply swap_view|].
    by rewrite swap_heap, transpose_ne by lia. }
  { done. }
  { split; [unfold t1; apply swap_view|done]. }
  { cbn; lia. }
  { cbn; lia. }
  assert (Do : ordered (tent_distance (down_fuel n t1 0 n).1) n)
    by (apply (down_fuel_ordered linked tent_distance n t1 0 n); [done|cbn; lia|lia|cbn; lia|done]).
  unfold down. destruct (down_fuel n t1 0 n) as [t2 i2]. cbn [fst Len tentHeap] in *. split_and!; [done|lia|done..].
Qed.

Lemma pop_tent t e t' :
  tent_ok t -> tentSet_pop t = Some (e, t') ->
  tent_ok t' /\ tent_view t !! t_id e = Some (distance e, firstHops e) /\ tent_view t' = delete (t_id e) (tent_view t) /\
  forall id' d' fh', tent_view t !! id' = Some (d', fh') -> distance e <= d'.
Proof.
  intros Hok. pose proof Hok as [L Ho]. unfold tentSet_pop. cbn [Len tentHeap].
  destruct (Nat.eqb_spec (length (t_heap t)) 0) as [|Hl]; [done|].
  unfold heap_Pop. cbn [Len Swap tentHeap]. set (n := (length (t_heap t) - 1)%nat).
  assert (Hn : length (t_heap t) = S n) by lia.
  destruct (linked_at t 0 L ltac:(lia)) as (r & er & Hr & Her & _ & _ & Hkr).
  destruct (sift_tent t n r Hok Hn Hr) as (L2 & H2 & Hr2 & O2 & V2).
  set (t2 := (down (tentHeap_Swap t 0 n) 0 n).1) in *. clearbody t2. unfold tentHeap_Pop.
  destruct (linked_at t2 n L2 ltac:(lia)) as (r' & e2 & Hr2' & He2 & _ & Ht2 & _). assert (r' = r) as -> by congruence.
  rewrite last_lookup, H2. cbn [pred]. rewrite Hr2. cbn [mbind option_bind]. rewrite He2. intros [= -> <-].
  cbn [t_heap t_entries]. rewrite Ht2, Nat.sub_0_r.
  destruct (cut_tent t2 n r e L2 H2 Hr2 He2 O2) as [C1 C2]. rewrite V2 in C2.
  assert (Hv : tent_view t !! r = Some (distance e, firstHops e))
    by (rewrite <- V2; unfold tent_view; by rewrite lookup_fmap, He2).
  split; [done|]. split; [done|]. split; [done|]. intros id' d' fh' Hv'.
  unfold tent_view in Hv, Hv'. rewrite lookup_fmap in Hv, Hv'. rewrite Her in Hv. injection Hv as E _.
  destruct (t_entries t !! id') as [e'|] eqn:He'; [|done]. injection Hv' as <- _.
  assert (Hp' : t_heap t !! t_index e' = Some id') by (apply L; by exists e').
  pose proof (ordered_root _ _ (t_index e') Ho ltac:(by eapply lookup_lt_Some)) as Hmin. rewrite Hkr in Hmin.
  unfold tent_distance in Hmin. rewrite Hp' in Hmin. simpl in Hmin. rewrite He' in Hmin. lia.
Qed.

Lemma pop_some t : tent_ok t -> t_heap t <> [] -> is_Some (tentSet_pop t).
Proof.
  intros Hok Hne. pose proof Hok as [L _]. unfold tentSet_pop. cbn [Len tentHeap].
  destruct (Nat.eqb_spec (length (t_heap t)) 0) as [E|Hl]; [by apply nil_length_inv in E|].
  unfold heap_Pop. cbn [Len Swap tentHeap]. set (n := (length (t_heap t) - 1)%nat).
  assert (Hn : length (t_heap t) = S n) by lia.
  destruct (linked_at t 0 L ltac:(lia)) as (r & er & Hr & Her & _ & _ & Hkr).
  destruct (sift_tent t n r Hok Hn Hr) as (L2 & H2 & Hr2 & O2 & V2).
  set (t2 := (down (tentHeap_Swap t 0 n) 0 n).1) in *. clearbody t2. unfold tentHeap_Pop.
  destruct (linked_at t2 n L2 ltac:(lia)) as (r' & e2 & Hr2' & He2 & _). assert (r' = r) as -> by congruence.
  rewrite last_lookup, H2. cbn [pred]. rewrite Hr2. cbn [mbind option_bind]. rewrite He2. by eexists.
Qed.

Lemma view_heap t : linked t -> dom (tent_view t) = list_to_set (t_heap t) /\ NoDup (t_heap t).
Proof.
  intros [L1 L2]. split.
  - apply set_eq. intros x. unfold tent_view. rewrite dom_fmap, elem_of_dom, elem_of_list_to_set, list_elem_of_lookup.
    split; [intros [e He]; exists (t_index e); apply L1; by exists e|]. intros (i & Hi). apply L1 in Hi as (e & He & _). by exists e.
  - apply NoDup_alt. intros i j x Hi Hj. apply L1 in Hi as (e & He & <-). apply L1 in Hj as (e' & He' & <-). congruence.
Qed.

#[export] Instance tentSet_laws : TentativeLaws tentSet tent_ok tent_view.
Proof.
  split.
  - intros self. split; [split; [split|]|].
    + intros i id. cbn [newTentSet tent_new tentSet_ops t_heap t_entries]. rewrite list_lookup_singleton_Some.
      setoid_rewrite lookup_singleton_Some. naive_solver.
    + intros id e. cbn [newTentSet tent_new tentSet_ops t_entries]. by intros [<- <-]%lookup_singleton_Some.
    + intros x Hx. cbn in Hx. lia.
    + unfold tent_view. cbn [newTentSet tent_new tentSet_ops t_entries]. by rewrite map_fmap_singleton.
  - intros t [L _]. cbn [tent_len tentSet_ops Len tentHeap]. destruct (view_heap t L) as [Hd Hn].
    by rewrite <- size_dom, Hd, size_list_to_set.
  - intros t Hok Hp. cbn [tent_pop tentSet_ops] in Hp. apply dom_empty_iff_L. destruct (view_heap t (proj1 Hok)) as [-> _].
    destruct (decide (t_heap t = [])) as [->|Hne]; [done|]. destruct (pop_some t Hok Hne) as [[e t'] E]. by rewrite E in Hp.
  - intros t id d fh t' Hok Hp. cbn [tent_pop tentSet_ops] in Hp.
    destruct (tentSet_pop t) as [[e t1]|] eqn:E; [|done]. injection Hp as <- <- <- <-. by apply pop_tent.
  - intros t id d fh Hok. by apply relax_tent.
Qed.
