(* ===== verification/Topology.v ===== *)
(** pkg/server/spf.go, [buildTopology]: the graph a level's link-state database
    describes, for one algorithm. *)

From S2P Require Import Prelude.
From S2P Require Import Netip.
From S2P Require Import Ids.
From S2P Require Import Sid.
From S2P Require Import SubTLV.
From S2P Require Import Entries.
From S2P Require Import Locator.
From S2P Require Import Tlv.
From S2P Require Import Checksum.
From S2P Require Import Pdu.
From S2P Require Import Auth.
From S2P Require Import Circuit.
From S2P Require Import Lsdb.
From S2P Require Import EdgeLog.
From S2P Require Import Server.
From S2P Require Import FlexAlgo.
Local Open Scope Z_scope.

Definition maxPathMetric : Z := 4261412864. (* 0xfe000000 *)

Record spfEdge : Set := mkEdge { to : NodeID; e_metric : Z; hasAttrs : bool }.

Record spfPrefix : Set := mkSpfPrefix { prefix : Prefix; p_metric : Z; p_down : bool; p_mt : bool }.

Record spfNode : Set := mkNode {
  n_id : NodeID; edges : list spfEdge; prefixes : list spfPrefix; overload : bool; attached : bool
}.

Definition set_edges (n : spfNode) (es : list spfEdge) : spfNode :=
  mkNode (n_id n) es (prefixes n) (overload n) (attached n).
Definition set_prefixes (n : spfNode) (ps : list spfPrefix) : spfNode :=
  mkNode (n_id n) (edges n) ps (overload n) (attached n).

Abbreviation topology := (gmap NodeID spfNode).

(** ** Our own edges *)

Definition edgeHasAdjacency (s : Server) (l : Level) (n : NodeID) : bool :=
  if negb (NodeID_PseudonodeID n =? 0) then
    existsb (fun c => negb (P2P (cfg c)) && bool_decide (dis_at c l = n) &&
                      (0 <? length (advertisedAdjacencies c l))%nat) (circuits s)
  else if bool_decide (NodeID_SystemID n = systemID s) then true
  else existsb (fun c =>
    if P2P (cfg c) then
      match p2pAdj c with
      | Some a => is_up (a_state a) && levelSet_has (a_levels a) l &&
                  bool_decide (a_systemID a = NodeID_SystemID n) && negb (a_suppressed a)
      | None => false
      end
    else
      match adjs_at c l !! NodeID_SystemID n with
      | Some a => is_up (a_state a) && negb (a_suppressed a)
      | None => false
      end) (circuits s).

(** ** The passes *)

(** Pass 1: the node of a fragment 0, if it is admitted. *)
Definition admits (algo : Z) (now : Z) (id : LSPID) (e : lspEntry) : bool :=
  (LSPID_FragmentID id =? 0) && live e now &&
  negb (negb (algo =? 0) && (NodeID_PseudonodeID (LSPID_NodeID id) =? 0) && negb (lspParticipatesInAlgo e algo)).

Definition admit_node (algo : Z) (now : Z) (nodes : topology) (ie : LSPID * lspEntry) : topology :=
  let '(id, e) := ie in
  if admits algo now id e
  then <[LSPID_NodeID id := mkNode (LSPID_NodeID id) [] [] (Overload (e_lsp e)) (AttDefault (e_lsp e))]> nodes
  else nodes.

(** The variables of pass 2. *)
Record building : Type := mkBuilding {
  b_nodes : topology; pruned : gmap NodeID (gset NodeID); have : gmap NodeID (gset Prefix);
  locs : list (NodeID * spfPrefix)
}.

(** [addPrefix] *)
Definition addPrefix (nid : NodeID) (b : building) (p : Prefix) (metric : Z) (down mt : bool) : building :=
  if maxPathMetric <=? metric then b else
  let pfx := Masked p in
  mkBuilding (alter (fun n => set_prefixes n (prefixes n ++ [mkSpfPrefix pfx metric down mt])) nid (b_nodes b))
    (pruned b) (alter (fun h => {[ pfx ]} ∪ h) nid (have b)) (locs b).

(** One neighbor of an Extended IS Reachability TLV. *)
Definition add_edge (aff : flexAlgoAffinity) (nid : NodeID) (b : building) (nb : ExtendedISReachEntry) : building :=
  if maxPathMetric <=? IR_Metric nb then b else
  let '(prune, attrs) :=
    if NodeID_PseudonodeID nid =? 0 then prunesLink aff (IR_SubTLVs nb) else (false, false) in
  if prune : bool then
    mkBuilding (b_nodes b) (<[nid := {[ IR_NeighborID nb ]} ∪ default ∅ (pruned b !! nid)]> (pruned b)) (have b) (locs b)
  else
    mkBuilding (alter (fun n => set_edges n (edges n ++ [mkEdge (IR_NeighborID nb) (IR_Metric nb) attrs])) nid (b_nodes b))
      (pruned b) (have b) (locs b).

Definition add_locator (algo : Z) (nid : NodeID) (b : building) (loc : SRv6Locator) : building :=
  if (Loc_Algorithm loc =? algo) && (Loc_Metric loc <? maxPathMetric)
  then mkBuilding (b_nodes b) (pruned b) (have b)
         (locs b ++ [(nid, mkSpfPrefix (Masked (Loc_Locator loc)) (Loc_Metric loc) (flag (Loc_Flags loc) 128) false)])
  else b.

Definition add_tlv (algo : Z) (aff : flexAlgoAffinity) (nid : NodeID) (b : building) (t : TLV) : building :=
  match t with
  | ExtendedISReachabilityTLV nbs => fold_left (add_edge aff nid) nbs b
  | ExtendedIPReachabilityTLV ps =>
      if negb (algo =? 0) then b
      else fold_left (fun b p => addPrefix nid b (IP_Prefix p) (IP_Metric p) (IP_Down p) false) ps b
  | IPv6ReachabilityTLV ps =>
      if negb (algo =? 0) then b
      else fold_left (fun b p => addPrefix nid b (IP6_Prefix p) (IP6_Metric p) (IP6_Down p) false) ps b
  | MTIPv6ReachabilityTLV (mt, ps) =>
      if negb (algo =? 0) || negb (mt =? MTIDIPv6Unicast) then b
      else fold_left (fun b p => addPrefix nid b (IP6_Prefix p) (IP6_Metric p) (IP6_Down p) true) ps b
  | SRv6LocatorTLV (_, ls) => fold_left (add_locator algo nid) ls b
  | _ => b
  end.

(** Pass 2: one fragment. *)
Definition add_fragment (algo : Z) (aff : flexAlgoAffinity) (now : Z) (b : building) (ie : LSPID * lspEntry) : building :=
  let '(id, e) := ie in
  if negb (live e now) then b else
  match b_nodes b !! LSPID_NodeID id with
  | None => b
  | Some _ => fold_left (add_tlv algo aff (LSPID_NodeID id)) (LSP_TLVs (e_lsp e)) b
  end.

(** The prune across the entries of an advertiser. *)
Definition cross_prune (byNeighbor : gset NodeID) (n : spfNode) : spfNode :=
  set_edges n (List.filter (fun e => negb (bool_decide (to e ∈ byNeighbor) && negb (hasAttrs e))) (edges n)).

(** Pass 3: an LSP of ours against the adjacencies. *)
Definition own_edges (s : Server) (l : Level) (id : NodeID) (n : spfNode) : spfNode :=
  if negb (bool_decide (NodeID_SystemID id = systemID s)) then n
  else set_edges n (List.filter (fun e => edgeHasAdjacency s l (to e)) (edges n)).

Definition add_locs (b : building) (nodes : topology) : topology :=
  fold_left (fun nodes '(nid, p) =>
    if bool_decide (prefix p ∈ default ∅ (have b !! nid)) then nodes
    else alter (fun n => set_prefixes n (prefixes n ++ [p])) nid nodes) (locs b) nodes.

Section Build.
(** The order in which the [k]-th loop over the database visits it. *)
Context (db_order : nat -> lsdb -> list (LSPID * lspEntry)).

Definition buildTopology (s : Server) (l : Level) (algo : Z) (aff : flexAlgoAffinity) (now : Z) : topology :=
  match dbs s !! l with
  | None => ∅
  | Some db =>
      let nodes := fold_left (admit_node algo now) (db_order 0%nat db) ∅ in
      let b := fold_left (add_fragment algo aff now) (db_order 1%nat db)
                 (mkBuilding nodes ∅ ((fun _ => ∅) <$> nodes) []) in
      let nodes := map_imap (fun id n => Some (match pruned b !! id with Some ns => cross_prune ns n | None => n end))
                     (b_nodes b) in
      let nodes := map_imap (fun id n => Some (own_edges s l id n)) nodes in
      add_locs b nodes
  end.
End Build.
