(* ===== verification/Spf.v ===== *)
(** pkg/server/spf.go: the shortest-path computation over a topology, the routes
    it yields, and the ATT-derived default.

    Dijkstra's loop is written against the interface of the tentative set; the
    program instantiates it with [tentSet].  [done], [dist] and [hops] are
    written together and are one map, [settled]. *)

From stdpp Require Import sorting.
From S2P Require Import Prelude.
From S2P Require Import Netip.
From S2P Require Import Ids.
From S2P Require Import Sid.
From S2P Require Import SubTLV.
From S2P Require Import Entries.
From S2P Require Import Tlv.
From S2P Require Import Checksum.
From S2P Require Import Pdu.
From S2P Require Import Circuit.
From S2P Require Import Lsdb.
From S2P Require Import EdgeLog.
From S2P Require Import Server.
From S2P Require Import FlexAlgo.
From S2P Require Import Tent.
From S2P Require Import Topology.
Local Open Scope Z_scope.

Record route : Type := mkRoute {
  r_metric : Z; r_level : Level; r_algo : Z; r_down : bool; r_mt : bool; r_nextHops : list SystemID
}.

#[export] Instance route_eq_dec : EqDecision route.
Proof. solve_decision. Defined.

(** ** Shortest paths *)

Definition twoWay (nodes : topology) (a b : NodeID) : bool :=
  match nodes !! b with
  | None => false
  | Some nb => existsb (fun e => bool_decide (to e = a)) (edges nb)
  end.

Definition firstHopsFor (cur : gset SystemID) (n : NodeID) : gset SystemID :=
  if (0 <? size cur)%nat then cur
  else if NodeID_PseudonodeID n =? 0 then {[ NodeID_SystemID n ]}
  else ∅.

(** [done], [dist] and [hops]. *)
Abbreviation settled := (gmap NodeID (Z * gset SystemID)).

Section Dijkstra.
Context {T : Type} `{TentativeSet T}.
Context (nodes : topology) (self : NodeID).

(** One edge out of the node [id] just settled at distance [d]. *)
Definition relax_edge (done : settled) (id : NodeID) (d : Z) (fh : gset SystemID) (t : T) (e : spfEdge) : T :=
  if bool_decide (is_Some (done !! to e)) then t else
  if negb (twoWay nodes id (to e)) then t else
  let nd := u32 (d + e_metric e) in
  if maxPathMetric <=? nd then t
  else tent_relax t (to e) nd (firstHopsFor fh (to e)).

(** What is left of the turn that settles [id]. *)
Definition expand (done : settled) (id : NodeID) (d : Z) (fh : gset SystemID) (t : T) : T :=
  match nodes !! id with
  | None => t
  | Some n =>
      if overload n && negb (bool_decide (id = self)) then t
      else fold_left (relax_edge done id d fh) (edges n) t
  end.

(** The loop; a turn settles a node, so it ends within [size nodes] turns
    ([spf_loop_total]). *)
Fixpoint spf_loop (n : nat) (t : T) (done : settled) : outcome settled :=
  if (tent_len t =? 0)%nat then mret done else
  match n with
  | O => Panic
  | S n =>
      match tent_pop t with
      | None => Panic
      | Some (id, d, fh, t) =>
          let done := <[id := (d, fh)]> done in
          spf_loop n (expand done id d fh t) done
      end
  end.

Definition shortest_paths : outcome settled := spf_loop (size nodes) (tent_new self) ∅.
End Dijkstra.

(** ** Routes *)

(** rib.go: [preferenceClass]. *)
Definition preferenceClass (r : route) : Z :=
  match r_level r with Level2 => 2 | Level1 => if r_down r then 3 else 1 end.

(** packet.go: [SystemID.String], as the octets of the string. *)
Definition hex_digit (n : Z) : Z := if n <? 10 then 48 + n else 87 + n.
Definition hex_octet (x : Z) : bytes := [hex_digit (x / 16); hex_digit (x mod 16)].
Definition SystemID_String (s : SystemID) : bytes :=
  match s with
  | [a; b; c; d; e; f] => hex_octet a ++ hex_octet b ++ [46] ++ hex_octet c ++ hex_octet d ++ [46] ++ hex_octet e ++ hex_octet f
  | _ => []
  end.

Definition hop_le (a b : SystemID) : Prop := bytes_compare (SystemID_String a) (SystemID_String b) <> Gt.
#[export] Instance hop_le_dec (a b : SystemID) : Decision (hop_le a b).
Proof. unfold hop_le. solve_decision. Defined.

Definition sortedHops (h : gset SystemID) : list SystemID := merge_sort hop_le (elements h).

Definition mergeHops (a b : list SystemID) : list SystemID := sortedHops (list_to_set a ∪ list_to_set b).

Definition set_mt (r : route) (mt : bool) : route :=
  mkRoute (r_metric r) (r_level r) (r_algo r) (r_down r) mt (r_nextHops r).
Definition set_nextHops (r : route) (h : list SystemID) : route :=
  mkRoute (r_metric r) (r_level r) (r_algo r) (r_down r) (r_mt r) h.

(** The better of two routes for a prefix, equal ones merged. *)
Definition merge_route (cur r : route) : route :=
  let mt := r_mt cur && r_mt r in
  let cur :=
    if negb (preferenceClass r =? preferenceClass cur) then (if preferenceClass r <? preferenceClass cur then r else cur)
    else if r_metric r <? r_metric cur then r
    else if r_metric r =? r_metric cur then set_nextHops cur (mergeHops (r_nextHops cur) (r_nextHops r))
    else cur in
  set_mt cur mt.

Definition addRoute (routes : gmap Prefix route) (p : Prefix) (r : route) : gmap Prefix route :=
  match routes !! p with
  | None => <[p := r]> routes
  | Some cur => <[p := merge_route cur r]> routes
  end.

(** One prefix of a node at distance [base]. *)
Definition prefix_route (l : Level) (algo base : Z) (nh : list SystemID) (p : spfPrefix) : option route :=
  let sum := u64 (base + p_metric p) in
  if maxPathMetric <=? sum then None
  else Some (mkRoute (u32 sum) l algo (p_down p) (p_mt p) nh).

Definition collect_node (nodes : topology) (self : NodeID) (l : Level) (algo : Z) (routes : gmap Prefix route)
    (x : NodeID * (Z * gset SystemID)) : gmap Prefix route :=
  let '(id, (base, hops)) := x in
  if bool_decide (id = self) then routes else
  match nodes !! id with
  | None => routes
  | Some n =>
      let nh := sortedHops hops in
      if (length nh =? 0)%nat then routes
      else fold_left (fun routes p =>
             match prefix_route l algo base nh p with
             | None => routes
             | Some r => addRoute routes (prefix p) r
             end) (prefixes n) routes
  end.

(** ** The default toward the attached IS *)

Definition defaultV4 : Prefix := mkPrefix (Addr4 [0; 0; 0; 0]) 0.
Definition defaultV6 : Prefix := mkPrefix (Addr6 (replicate 16 0)) 0.

(** [best] and [nh]. *)
Definition attached_step (nodes : topology) (acc : option (Z * gset SystemID)) (x : NodeID * (Z * gset SystemID))
  : option (Z * gset SystemID) :=
  let '(id, (d, hops)) := x in
  match nodes !! id with
  | None => acc
  | Some n =>
      if negb (NodeID_PseudonodeID id =? 0) || negb (attached n) || overload n then acc
      else if (size hops =? 0)%nat then acc
      else match acc with
           | None => Some (d, hops)
           | Some (best, nh) =>
               if d <? best then Some (d, hops)
               else if d =? best then Some (best, nh ∪ hops)
               else acc
           end
  end.

Definition addAttachedDefault (routes : gmap Prefix route) (nodes : topology) (order : list (NodeID * (Z * gset SystemID)))
  : gmap Prefix route :=
  match fold_left (attached_step nodes) order None with
  | None => routes
  | Some (best, nh) =>
      fold_left (fun routes p => addRoute routes p (mkRoute best Level1 0 true false (sortedHops nh)))
        [defaultV4; defaultV6] routes
  end.

(** ** The computation *)

Section Compute.
Context {T : Type} `{TentativeSet T}.
Context (db_order : nat -> lsdb -> list (LSPID * lspEntry)).
(** The order in which the [k]-th loop over [done] visits it. *)
Context (done_order : nat -> settled -> list (NodeID * (Z * gset SystemID))).

Definition spf_routes (s : Server) (nodes : topology) (l : Level) (algo : Z) (done : settled) : gmap Prefix route :=
  let routes := fold_left (collect_node nodes (nodeID (systemID s) 0) l algo) (done_order 0%nat done) ∅ in
  if bool_decide (l = Level1) && (algo =? 0) && negb (levelSet_has (levelCap s) Level2)
  then addAttachedDefault routes nodes (done_order 1%nat done)
  else routes.

Definition computeSPF (s : Server) (l : Level) (algo : Z) (aff : flexAlgoAffinity) (now : Z)
  : outcome (gmap Prefix route) :=
  let nodes := buildTopology db_order s l algo aff now in
  let self := nodeID (systemID s) 0 in
  if bool_decide (nodes !! self = None) then mret ∅ else
  done ← shortest_paths (T := T) nodes self;
  mret (spf_routes s nodes l algo done).
End Compute.
