(* ===== verification/SpfPaths.v ===== *)
(** Shortest paths of pkg/server/spf.go: paths of a topology, what the loop of
    [computeSPF] keeps true of the settled and tentative nodes, for any tentative set
    that obeys its laws, and the first hops it hands down. *)

From S2P Require Import Prelude.
From S2P Require Import Netip.
From S2P Require Import Ids.
From S2P Require Import Sid.
From S2P Require Import SubTLV.
From S2P Require Import Entries.
From S2P Require Import Tlv.
From S2P Require Import Circuit.
From S2P Require Import Lsdb.
From S2P Require Import Server.
From S2P Require Import FlexAlgo.
From S2P Require Import Tent.
From S2P Require Import Topology.
From S2P Require Import Spf.
Local Open Scope Z_scope.

(** ** Paths *)

Section Paths.
Context (nodes : topology) (self : NodeID).

(** An edge the computation may use: advertised at both ends, and not out of an
    overloaded node other than this one. *)
Definition usable (a b : NodeID) (w : Z) : Prop :=
  exists n e, nodes !! a = Some n /\ e ∈ edges n /\ to e = b /\ e_metric e = w /\
    twoWay nodes a b = true /\ (a = self \/ overload n = false).

(** The first real system past this one, as a path is extended to [v]. *)
Definition hop_via (h : option SystemID) (v : NodeID) : option SystemID :=
  match h with
  | Some x => Some x
  | None => if NodeID_PseudonodeID v =? 0 then Some (NodeID_SystemID v) else None
  end.

(** A path from this system below the reachability ceiling: its end, its length,
    its first hop. *)
Inductive path : NodeID -> Z -> option SystemID -> Prop :=
  | path_self : path self 0 None
  | path_edge u v d w h : path u d h -> usable u v w -> d + w < maxPathMetric -> path v (d + w) (hop_via h v).

(** Metrics as the wire carries them, in 24 bits. *)
Definition metrics_ok : Prop :=
  forall id n e, nodes !! id = Some n -> e ∈ edges n -> 0 <= e_metric e <= 16777215.

Lemma usable_metric u v w : metrics_ok -> usable u v w -> 0 <= w <= 16777215.
Proof using. intros Hm (n & e & Hn & He & _ & <- & _). by eapply Hm. Qed.

Lemma path_range v d h : metrics_ok -> path v d h -> 0 <= d < maxPathMetric.
Proof using.
  intros Hm Hp. induction Hp as [|u v d w h _ IH Hu Hlt]; [unfold maxPathMetric; lia|].
  apply usable_metric in Hu; [lia|done].
Qed.

Lemma usable_node u v w : usable u v w -> is_Some (nodes !! v).
Proof using.
  intros (n & e & _ & _ & <- & _ & Ht & _). unfold twoWay in Ht. destruct (nodes !! to e); [by eexists|done].
Qed.

(** ** What the loop keeps *)

(** Every first hop kept for a node is that of a path of the length kept, and a
    node kept without any is reached before a first real hop. *)
Definition hops_of (v : NodeID) (d : Z) (fh : gset SystemID) : Prop :=
  (forall h, h ∈ fh -> path v d (Some h)) /\ (fh = ∅ -> path v d None).

Definition contrib (fh : gset SystemID) (v : NodeID) : gset SystemID := firstHopsFor fh v.

Lemma hops_of_path v d fh : hops_of v d fh -> exists h, path v d h.
Proof using.
  intros [H1 H2]. destruct (set_choose_or_empty fh) as [[h Hh]|He].
  - exists (Some h). by apply H1.
  - exists None. apply H2. by apply leibniz_equiv.
Qed.

Lemma hops_of_edge u v d w fh :
  hops_of u d fh -> usable u v w -> d + w < maxPathMetric -> hops_of v (d + w) (firstHopsFor fh v).
Proof using.
  intros [H1 H2] Hu Hlt. unfold firstHopsFor. destruct (Nat.ltb_spec 0 (size fh)) as [Hs|Hs].
  - split; [intros h Hh; by apply (path_edge u v d w (Some h)); [apply H1| |]|].
    intros ->. rewrite size_empty in Hs. lia.
  - assert (fh = ∅) as E by (apply leibniz_equiv, size_empty_iff; lia). specialize (H2 E).
    pose proof (path_edge u v d w None H2 Hu Hlt) as Hp. cbn [hop_via] in Hp. destruct (_ =? 0).
    + split; [intros h Hh%elem_of_singleton; by subst|]. intros E'. by apply non_empty_singleton_L in E'.
    + split; [intros h Hh; by apply elem_of_empty in Hh|done].
Qed.

Lemma hops_of_union v d fh1 fh2 : hops_of v d fh1 -> hops_of v d fh2 -> hops_of v d (fh1 ∪ fh2).
Proof using.
  intros [A1 A2] [B1 B2]. split.
  - intros h [Hh|Hh]%elem_of_union; [by apply A1|by apply B1].
  - intros E. apply empty_union_L in E as [-> ->]. by apply A2.
Qed.

Record spf_inv (done : settled) (tent : tentative) : Prop := {
  inv_disjoint : forall v, is_Some (done !! v) -> tent !! v = None;
  inv_nodes : forall v, is_Some (tent !! v) \/ is_Some (done !! v) -> is_Some (nodes !! v);
  inv_start : is_Some (done !! self) \/ (done = ∅ /\ tent = {[ self := (0, ∅) ]});
  inv_done : forall v d fh, done !! v = Some (d, fh) -> hops_of v d fh;
  inv_tent : forall v d fh, tent !! v = Some (d, fh) -> hops_of v d fh;
  inv_least : forall v d fh, done !! v = Some (d, fh) -> forall d' h, path v d' h -> d <= d';
  inv_order : forall u v du dv fu fv, done !! u = Some (du, fu) -> tent !! v = Some (dv, fv) -> du <= dv
}.

(** The loop starts. *)
Lemma start_inv : is_Some (nodes !! self) -> spf_inv ∅ {[ self := (0, ∅) ]}.
Proof using.
  intros Hself. split; try (intros; by rewrite ?lookup_empty in *).
  - intros v [[x Hx]|[x Hx]]; [|by rewrite lookup_empty in Hx]. by apply lookup_singleton_Some in Hx as [<- _].
  - right. done.
  - intros v d fh [<- [= <- <-]]%lookup_singleton_Some. split; [intros h Hh; by apply elem_of_empty in Hh|]. constructor.
Qed.

(** Every usable edge out of a settled node has been relaxed. *)
Definition frontier (done : settled) (tent : tentative) (from : NodeID -> Prop) : Prop :=
  forall u v du fu w, from u -> done !! u = Some (du, fu) -> usable u v w -> du + w < maxPathMetric ->
    is_Some (done !! v) \/ exists dv fv, tent !! v = Some (dv, fv) /\ dv <= du + w.

(** A path ends at a settled node, or is at least as long as some tentative
    distance. *)
Lemma path_crosses done tent v d h :
  metrics_ok -> spf_inv done tent -> frontier done tent (fun _ => True) -> path v d h ->
  is_Some (done !! v) \/ exists y dy fy, tent !! y = Some (dy, fy) /\ dy <= d.
Proof using.
  intros Hm HI HF Hp. induction Hp as [|u v d w h Hp IH Hu Hlt].
  - destruct (inv_start _ _ HI) as [Hs|[_ ->]]; [by left|]. right. exists self, 0, ∅. by rewrite lookup_singleton_eq.
  - pose proof (usable_metric u v w Hm Hu). destruct IH as [[[du fu] Hd]|(y & dy & fy & Hy & Hle)].
    + pose proof (inv_least _ _ HI u du fu Hd d h Hp).
      destruct (HF u v du fu w I Hd Hu) as [Hv|(dv & fv & Hv & Hle)]; [lia|by left|].
      right. exists v, dv, fv. split; [done|lia].
    + right. exists y, dy, fy. split; [done|lia].
Qed.

(** The least tentative node may be settled. *)
Lemma settle_inv done tent v d fh :
  metrics_ok -> spf_inv done tent -> frontier done tent (fun _ => True) ->
  tent !! v = Some (d, fh) -> (forall v' d' fh', tent !! v' = Some (d', fh') -> d <= d') ->
  let done' := <[v := (d, fh)]> done in
  spf_inv done' (delete v tent) /\ frontier done' (delete v tent) (fun u => u <> v).
Proof using.
  intros Hm HI HF Hv Hmin done'.
  assert (Hvd : done !! v = None).
  { destruct (done !! v) eqn:E; [|done]. rewrite (inv_disjoint _ _ HI v) in Hv; [done|by eexists]. }
  split; [split|].
  - intros x. unfold done'. destruct (decide (v = x)) as [<-|Hx]; [intros _; apply lookup_delete_eq|].
    rewrite lookup_insert_ne, lookup_delete_ne by done. apply (inv_disjoint _ _ HI).
  - intros x. unfold done'. destruct (decide (v = x)) as [<-|Hx].
    + intros _. apply (inv_nodes _ _ HI). left. by eexists.
    + rewrite lookup_insert_ne, lookup_delete_ne by done. apply (inv_nodes _ _ HI).
  - unfold done'. destruct (decide (v = self)) as [->|Hs]; [left; rewrite lookup_insert_eq; by eexists|].
    rewrite lookup_insert_ne by done. destruct (inv_start _ _ HI) as [Hi|[_ ->]]; [by left|].
    by apply lookup_singleton_Some in Hv as [? _].
  - intros x dx fx. unfold done'. destruct (decide (v = x)) as [<-|Hx].
    + rewrite lookup_insert_eq. intros [= <- <-]. by apply (inv_tent _ _ HI).
    + rewrite lookup_insert_ne by done. apply (inv_done _ _ HI).
  - intros x dx fx. destruct (decide (v = x)) as [<-|Hx]; [by rewrite lookup_delete_eq|].
    rewrite lookup_delete_ne by done. apply (inv_tent _ _ HI).
  - intros x dx fx. unfold done'. destruct (decide (v = x)) as [<-|Hx].
    + rewrite lookup_insert_eq. intros [= <- <-] d' h Hp.
      destruct (path_crosses done tent v d' h Hm HI HF Hp) as [[? Hs]|(y & dy & fy & Hy & Hle)]; [congruence|].
      specialize (Hmin y dy fy Hy). lia.
    + rewrite lookup_insert_ne by done. apply (inv_least _ _ HI).
  - intros x y dx dy fx fy. unfold done'. destruct (decide (v = y)) as [<-|Hy]; [by rewrite lookup_delete_eq|].
    rewrite lookup_delete_ne by done. destruct (decide (v = x)) as [<-|Hx].
    + rewrite lookup_insert_eq. intros [= <- <-] Hty. by eapply Hmin.
    + rewrite lookup_insert_ne by done. apply (inv_order _ _ HI).
  - intros x y dx fx w Hxv. unfold done'. rewrite lookup_insert_ne by done. intros Hx Hu Hlt.
    destruct (decide (v = y)) as [<-|Hy]; [left; rewrite lookup_insert_eq; by eexists|].
    rewrite lookup_insert_ne, lookup_delete_ne by done. by apply (HF x y dx fx w I Hx Hu Hlt).
Qed.
(** ** One turn *)

(** Relaxing only lowers distances. *)
Definition no_higher (m m' : tentative) : Prop :=
  forall y dy fy, m !! y = Some (dy, fy) -> exists dy' fy', m' !! y = Some (dy', fy') /\ dy' <= dy.

#[local] Instance no_higher_preorder : PreOrder no_higher.
Proof using.
  split.
  - intros m y dy fy Hy. by exists dy, fy.
  - intros m1 m2 m3 H1 H2 y dy fy Hy. destruct (H1 y dy fy Hy) as (d2 & f2 & Hy2 & L2).
    destruct (H2 y d2 f2 Hy2) as (d3 & f3 & Hy3 & L3). exists d3, f3. split; [done|lia].
Qed.

Lemma relaxed_spec m v d fh :
  no_higher m (relaxed m v d fh) /\
  (exists d' fh', relaxed m v d fh !! v = Some (d', fh') /\ d' <= d) /\
  forall y dy fy, relaxed m v d fh !! y = Some (dy, fy) ->
    m !! y = Some (dy, fy) \/
    (y = v /\ dy = d /\ (fy = fh \/ exists f0, m !! v = Some (d, f0) /\ fy = f0 ∪ fh)).
Proof using.
  unfold relaxed. destruct (m !! v) as [[d0 f0]|] eqn:Hv.
  - destruct (Z.ltb_spec d d0) as [Hlt|Hge]; [|destruct (Z.eqb_spec d d0) as [->|Hne]].
    + split; [|split].
      * intros y dy fy Hy. destruct (decide (v = y)) as [<-|Hn]; [rewrite lookup_insert_eq; exists d, fh; split; [done|]|].
        { rewrite Hv in Hy. injection Hy as <- _. lia. }
        rewrite lookup_insert_ne by done. by exists dy, fy.
      * exists d, fh. rewrite lookup_insert_eq. split; [done|lia].
      * intros y dy fy. destruct (decide (v = y)) as [<-|Hn]; [rewrite lookup_insert_eq|rewrite lookup_insert_ne by done; by left].
        intros [= <- <-]. right. split; [done|]. split; [done|]. by left.
    + split; [|split].
      * intros y dy fy Hy. destruct (decide (v = y)) as [<-|Hn]; [rewrite lookup_insert_eq; eexists _, _; split; [done|]|].
        { rewrite Hv in Hy. injection Hy as <- _. lia. }
        rewrite lookup_insert_ne by done. by exists dy, fy.
      * eexists _, _. rewrite lookup_insert_eq. split; [done|lia].
      * intros y dy fy. destruct (decide (v = y)) as [<-|Hn]; [rewrite lookup_insert_eq|rewrite lookup_insert_ne by done; by left].
        intros [= <- <-]. right. split; [done|]. split; [done|]. right. by exists f0.
    + split; [done|]. split; [exists d0, f0; split; [done|lia]|]. intros y dy fy Hy. by left.
  - split; [|split].
    + intros y dy fy Hy. rewrite lookup_insert_ne by congruence. by exists dy, fy.
    + exists d, fh. rewrite lookup_insert_eq. split; [done|lia].
    + intros y dy fy. destruct (decide (v = y)) as [<-|Hn]; [rewrite lookup_insert_eq|rewrite lookup_insert_ne by done; by left].
      intros [= <- <-]. right. split; [done|]. split; [done|]. by left.
Qed.

Lemma relaxed_inv done m id v d w fh :
  spf_inv done m -> done !! id = Some (d, fh) -> (forall u du fu, done !! u = Some (du, fu) -> du <= d) ->
  0 <= w -> usable id v w -> d + w < maxPathMetric -> done !! v = None ->
  spf_inv done (relaxed m v (d + w) (firstHopsFor fh v)).
Proof using.
  intros HI Hid Hlast Hw Hu Hlt Hv. destruct (relaxed_spec m v (d + w) (firstHopsFor fh v)) as (R1 & _ & R3).
  pose proof (hops_of_edge id v d w fh (inv_done _ _ HI _ _ _ Hid) Hu Hlt) as Hh.
  set (m' := relaxed m v (d + w) (firstHopsFor fh v)) in *. clearbody m'. split.
  - intros x Hx. destruct (m' !! x) as [[dx fx]|] eqn:E; [|done]. apply R3 in E as [E|(-> & _)].
    + by rewrite (inv_disjoint _ _ HI x Hx) in E.
    + rewrite Hv in Hx. by destruct Hx.
  - intros x [[[dx fx] E]|Hx]; [|apply (inv_nodes _ _ HI); by right]. apply R3 in E as [E|(-> & _)].
    + apply (inv_nodes _ _ HI). left. by eexists.
    + by eapply usable_node.
  - destruct (inv_start _ _ HI) as [Hs|[-> _]]; [by left|]. by rewrite lookup_empty in Hid.
  - apply (inv_done _ _ HI).
  - intros x dx fx E. apply R3 in E as [E|(-> & -> & [->|(f0 & E & ->)])].
    + by apply (inv_tent _ _ HI).
    + done.
    + apply hops_of_union; [by apply (inv_tent _ _ HI)|done].
  - apply (inv_least _ _ HI).
  - intros x y dx dy fx fy Hx Hy. apply R3 in Hy as [Hy|(-> & -> & _)]; [by eapply (inv_order _ _ HI)|].
    specialize (Hlast x dx fx Hx). lia.
Qed.

Section Turn.
Context {T : Type} `{TentativeSet T} (ok : T -> Prop) (view : T -> tentative) `{!TentativeLaws T ok view}.
Context (Hm : metrics_ok).

(** The tentative set after some edges of the node just settled. *)
Definition turned (done : settled) (t t' : T) : Prop :=
  ok t' /\ spf_inv done (view t') /\ no_higher (view t) (view t').

Lemma relax_edge_turn done id n d fh t e :
  ok t -> spf_inv done (view t) -> done !! id = Some (d, fh) -> nodes !! id = Some n -> e ∈ edges n ->
  (id = self \/ overload n = false) -> (forall u du fu, done !! u = Some (du, fu) -> du <= d) ->
  turned done t (relax_edge nodes done id d fh t e) /\
  (twoWay nodes id (to e) = true -> d + e_metric e < maxPathMetric ->
   is_Some (done !! to e) \/
   exists dv fv, view (relax_edge nodes done id d fh t e) !! to e = Some (dv, fv) /\ dv <= d + e_metric e).
Proof using Hm TentativeLaws0.
  intros Hok HI Hid Hn He Hov Hlast. unfold relax_edge.
  destruct (bool_decide_reflect (is_Some (done !! to e))) as [Hs|Hs]; [by split; [|left]|].
  destruct (twoWay nodes id (to e)) eqn:Ht; cbn [negb]; [|by split].
  pose proof (Hm id n e Hn He) as Hw. pose proof (hops_of_path _ _ _ (inv_done _ _ HI _ _ _ Hid)) as [h Hp].
  apply (path_range _ _ _ Hm) in Hp. unfold maxPathMetric in *.
  assert (Hu : u32 (d + e_metric e) = d + e_metric e) by (unfold u32; apply Z.mod_small; lia). rewrite Hu.
  destruct (Z.leb_spec 4261412864 (d + e_metric e)) as [Hge|Hlt]; [split; [by split|lia]|].
  destruct (relax_law t (to e) (d + e_metric e) (firstHopsFor fh (to e)) Hok) as [R1 R2].
  destruct (relaxed_spec (view t) (to e) (d + e_metric e) (firstHopsFor fh (to e))) as (S1 & S2 & _).
  split.
  - split; [done|]. rewrite R2. split; [|done]. apply (relaxed_inv done (view t) id); try done; [lia| |].
    + by exists n, e.
    + apply eq_None_not_Some. exact Hs.
  - intros _ _. right. by rewrite R2.
Qed.

Lemma relax_edges_turn done id n d fh es t :
  ok t -> spf_inv done (view t) -> done !! id = Some (d, fh) -> nodes !! id = Some n -> es ⊆ edges n ->
  (id = self \/ overload n = false) -> (forall u du fu, done !! u = Some (du, fu) -> du <= d) ->
  let t' := fold_left (relax_edge nodes done id d fh) es t in
  turned done t t' /\
  forall e, e ∈ es -> twoWay nodes id (to e) = true -> d + e_metric e < maxPathMetric ->
    is_Some (done !! to e) \/ exists dv fv, view t' !! to e = Some (dv, fv) /\ dv <= d + e_metric e.
Proof using Hm TentativeLaws0.
  intros Hok HI Hid Hn Hes Hov Hlast. revert t Hok HI Hes. induction es as [|e es IH]; intros t Hok HI Hes; cbn [fold_left].
  { split; [by split|]. intros e He. by apply not_elem_of_nil in He. }
  assert (He : e ∈ edges n) by (apply Hes; left).
  destruct (relax_edge_turn done id n d fh t e Hok HI Hid Hn He Hov Hlast) as [(T1 & T2 & T3) F].
  destruct (IH _ T1 T2) as [(U1 & U2 & U3) G]; [intros x Hx; apply Hes; by right|].
  split; [split; [done|]; split; [done|by etransitivity]|].
  intros x Hx Ht Hlt. apply elem_of_cons in Hx as [->|Hx]; [|by apply G].
  destruct (F Ht Hlt) as [Hs|(dv & fv & Hv & Hle)]; [by left|]. right.
  destruct (U3 _ _ _ Hv) as (d' & f' & Hv' & Hle'). exists d', f'. split; [done|lia].
Qed.

Lemma expand_turn done id d fh t :
  ok t -> spf_inv done (view t) -> done !! id = Some (d, fh) ->
  (forall u du fu, done !! u = Some (du, fu) -> du <= d) -> frontier done (view t) (fun u => u <> id) ->
  let t' := expand nodes self done id d fh t in
  ok t' /\ spf_inv done (view t') /\ frontier done (view t') (fun _ => True).
Proof using Hm TentativeLaws0.
  intros Hok HI Hid Hlast HF t'. subst t'. unfold expand. destruct (nodes !! id) as [n|] eqn:Hn.
  2:{ split; [done|]. split; [done|]. intros u v du fu w _ Hu (nu & e & Hnu & _) Hlt. exfalso.
      destruct (inv_nodes _ _ HI id) as [x Hx]; [right; by eexists|]. congruence. }
  assert (Hfrom : forall t', no_higher (view t) (view t') ->
    (forall v w, usable id v w -> d + w < maxPathMetric -> is_Some (done !! v) \/
       exists dv fv, view t' !! v = Some (dv, fv) /\ dv <= d + w) -> frontier done (view t') (fun _ => True)).
  { intros t' Hle Hown u v du fu w _ Hdu Hu Hlt. destruct (decide (u = id)) as [->|Hne].
    - rewrite Hid in Hdu. injection Hdu as <- <-. by apply Hown.
    - destruct (HF u v du fu w Hne Hdu Hu Hlt) as [Hs|(dv & fv & Hv & Hd)]; [by left|]. right.
      destruct (Hle _ _ _ Hv) as (d' & f' & Hv' & Hd'). exists d', f'. split; [done|lia]. }
  destruct (overload n && negb (bool_decide (id = self))) eqn:Ho.
  - split; [done|]. split; [done|]. apply Hfrom; [done|]. intros v w (n' & e & Hn' & _ & _ & _ & _ & Hov) _. exfalso.
    apply andb_true_iff in Ho as [Ho Hs]. apply negb_true_iff, bool_decide_eq_false in Hs.
    destruct Hov as [?|Hov]; [done|]. congruence.
  - assert (Hov : id = self \/ overload n = false).
    { apply andb_false_iff in Ho as [Ho|Ho]; [by right|left]. by apply negb_false_iff, bool_decide_eq_true in Ho. }
    destruct (relax_edges_turn done id n d fh (edges n) t Hok HI Hid Hn (reflexivity _) Hov Hlast) as [(T1 & T2 & T3) G].
    split; [done|]. split; [done|]. apply Hfrom; [done|].
    intros v w (n' & e & Hn' & He & <- & <- & Ht & _) Hlt. rewrite Hn in Hn'. injection Hn' as <-. by apply G.
Qed.

(** One turn of the loop. *)
Lemma turn_inv done t id d fh t1 :
  ok t -> spf_inv done (view t) -> frontier done (view t) (fun _ => True) -> tent_pop t = Some (id, d, fh, t1) ->
  let done' := <[id := (d, fh)]> done in
  let t' := expand nodes self done' id d fh t1 in
  done !! id = None /\ ok t' /\ spf_inv done' (view t') /\ frontier done' (view t') (fun _ => True).
Proof using Hm TentativeLaws0.
  intros Hok HI HF Hp done' t'. destruct (pop_law t id d fh t1 Hok Hp) as (P1 & P2 & P3 & P4).
  destruct (settle_inv done (view t) id d fh Hm HI HF P2 P4) as [I1 F1]. rewrite <- P3 in I1, F1.
  split.
  { destruct (done !! id) eqn:E; [|done]. rewrite (inv_disjoint _ _ HI id) in P2; [done|by eexists]. }
  apply (expand_turn done' id d fh t1 P1 I1); [apply lookup_insert_eq| |done].
  intros u du fu. unfold done'. destruct (decide (id = u)) as [<-|Hne]; [rewrite lookup_insert_eq; intros [= <- _]; lia|].
  rewrite lookup_insert_ne by done. intros Hu. by apply (inv_order _ _ HI u id du d fu fh).
Qed.

(** Every turn settles a node of the topology that was not. *)
Lemma spf_loop_spec n done t :
  ok t -> spf_inv done (view t) -> frontier done (view t) (fun _ => True) ->
  (size nodes <= n + size done)%nat ->
  exists done', spf_loop nodes self n t done = Ok done' /\ spf_inv done' ∅ /\ frontier done' ∅ (fun _ => True).
Proof using Hm TentativeLaws0.
  revert done t. induction n as [|n IH]; intros done t Hok HI HF Hn; cbn [spf_loop]; rewrite (len_law t Hok).
  all: destruct (Nat.eqb_spec (size (view t)) 0) as [E|E].
  all: try (exists done; split; [done|]; apply map_size_empty_iff in E; by rewrite E in HI, HF).
  - exfalso. destruct (map_choose (view t)) as (x & [dx fx] & Hx); [intros E'; apply E; by rewrite E', map_size_empty|].
    assert (Hsub : {[ x ]} ∪ dom done ⊆ dom nodes).
    { intros y [Hy%elem_of_singleton|Hy%elem_of_dom]%elem_of_union; apply elem_of_dom, (inv_nodes _ _ HI).
      - subst y. left. by eexists.
      - by right. }
    apply subseteq_size in Hsub. rewrite size_union, size_singleton, !size_dom in Hsub; [lia|].
    intros y Hy%elem_of_singleton [z Hz]%elem_of_dom. subst y.
    by rewrite (inv_disjoint _ _ HI x) in Hx by (by eexists).
  - destruct (tent_pop t) as [[[[id d] fh] t1]|] eqn:Hp.
    2:{ apply (pop_empty t Hok) in Hp. by rewrite Hp, map_size_empty in E. }
    destruct (turn_inv done t id d fh t1 Hok HI HF Hp) as (Hd & H1 & H2 & H3).
    apply IH; [done..|]. rewrite map_size_insert_None by done. lia.
Qed.
End Turn.
End Paths.

(** Every edge of a finite topology is checked by computation. *)
Lemma topology_edges (P : spfEdge -> Prop) `{!forall e, Decision (P e)} (nodes : topology) id n e :
  bool_decide (map_Forall (fun _ n => Forall P (edges n)) nodes) = true ->
  nodes !! id = Some n -> e ∈ edges n -> P e.
Proof. intros K%bool_decide_eq_true Hn He. specialize (K id n Hn). rewrite Forall_forall in K. by apply K. Qed.

Section Hops.
Context (nodes : topology) (self : NodeID).

(** No node is a pseudonode and no link is free. *)
Definition plain : Prop :=
  (forall u v w, usable nodes self u v w -> 0 < w) /\
  (forall v, is_Some (nodes !! v) -> NodeID_PseudonodeID v = 0).

(** Every settled node has handed its first hops to the neighbors it is on a
    shortest path to. *)
Definition handed (done : settled) (tent : tentative) (from : NodeID -> Prop) : Prop :=
  forall u v du fu w fv, from u -> done !! u = Some (du, fu) -> usable nodes self u v w -> du + w < maxPathMetric ->
    tent !! v = Some (du + w, fv) \/ done !! v = Some (du + w, fv) -> firstHopsFor fu v ⊆ fv.

(** Relaxing keeps the first hops of a distance it keeps. *)
Definition keeps (m m' : tentative) : Prop :=
  no_higher m m' /\ forall v d f f', m !! v = Some (d, f) -> m' !! v = Some (d, f') -> f ⊆ f'.

Lemma keeps_refl m : keeps m m.
Proof using.
  split; [by intros y dy fy Hy; exists dy, fy|]. intros v d f f' H1 H2. assert (f = f') as -> by congruence. done.
Qed.

Lemma keeps_trans m1 m2 m3 : keeps m1 m2 -> keeps m2 m3 -> keeps m1 m3.
Proof using.
  intros [A1 A2] [B1 B2]. split.
  - intros y dy fy Hy. destruct (A1 y dy fy Hy) as (d2 & f2 & H2 & L2). destruct (B1 y d2 f2 H2) as (d3 & f3 & H3 & L3).
    exists d3, f3. split; [done|lia].
  - intros v d f f' H1 H3. destruct (A1 v d f H1) as (d2 & f2 & H2 & L2). destruct (B1 v d2 f2 H2) as (d3 & f3 & H3' & L3).
    assert (d2 = d) as -> by (rewrite H3 in H3'; injection H3' as <- _; lia).
    etransitivity; [by eapply A2|by eapply B2].
Qed.

Lemma relaxed_keeps m v d fh :
  keeps m (relaxed m v d fh) /\ forall f, relaxed m v d fh !! v = Some (d, f) -> fh ⊆ f.
Proof using.
  split; [split; [apply relaxed_spec|]|].
  - intros x dx f f' H1. unfold relaxed. destruct (decide (v = x)) as [<-|Hx].
    + rewrite H1. destruct (Z.ltb_spec d dx) as [Hlt|Hge]; [rewrite lookup_insert_eq; intros [= <- _]; lia|].
      destruct (Z.eqb_spec d dx) as [->|Hne]; [rewrite lookup_insert_eq; intros [= <-]; set_solver|].
      rewrite H1. by intros [= <-].
    + assert (E : relaxed m v d fh !! x = m !! x).
      { unfold relaxed. destruct (m !! v) as [[d0 f0]|]; [destruct (_ <? _); [|destruct (_ =? _)]|];
          rewrite ?lookup_insert_ne by done; done. }
      unfold relaxed in E. rewrite E, H1. by intros [= <-].
  - intros f. unfold relaxed. destruct (m !! v) as [[d0 f0]|] eqn:Hv; [|rewrite lookup_insert_eq; by intros [= <-]].
    destruct (Z.ltb_spec d d0) as [Hlt|Hge]; [rewrite lookup_insert_eq; by intros [= <-]|].
    destruct (Z.eqb_spec d d0) as [->|Hne]; [rewrite lookup_insert_eq; intros [= <-]; set_solver|].
    rewrite Hv. intros [= <- _]. lia.
Qed.

(** What was handed stays handed while the set is relaxed. *)
Lemma handed_keeps done m m' from :
  frontier nodes self done m from -> keeps m m' -> (forall v, is_Some (done !! v) -> m' !! v = None) ->
  handed done m from -> handed done m' from.
Proof using.
  intros HF [K1 K2] HD HH u v du fu w fv Hu Hdu Hus Hlt [Hv|Hv]; [|by eapply HH; [..|by right]].
  destruct (HF u v du fu w Hu Hdu Hus Hlt) as [Hs|(dv & f0 & Hv0 & Hle)].
  - by rewrite (HD v Hs) in Hv.
  - destruct (K1 v dv f0 Hv0) as (d1 & f1 & Hv1 & Hle1).
    assert (dv = du + w) as -> by (rewrite Hv in Hv1; injection Hv1 as <- _; lia).
    etransitivity; [eapply (HH u v du fu w f0); [done..|by left]|by eapply K2].
Qed.

(** Settling a node moves its entry. *)
Lemma handed_settle done m v d fh :
  m !! v = Some (d, fh) -> done !! v = None -> handed done m (fun _ => True) ->
  handed (<[v := (d, fh)]> done) (delete v m) (fun u => u <> v).
Proof using.
  intros Hv Hd HH u x du fu w fx Hu. rewrite lookup_insert_ne by done. intros Hdu Hus Hlt Hx.
  apply (HH u x du fu w fx I Hdu Hus Hlt). destruct (decide (v = x)) as [<-|Hne].
  - rewrite lookup_delete_eq, lookup_insert_eq in Hx. left. by destruct Hx as [?|[= <- <-]].
  - by rewrite lookup_delete_ne, lookup_insert_ne in Hx by done.
Qed.

Section Turn.
Context {T : Type} `{TentativeSet T} (ok : T -> Prop) (view : T -> tentative) `{!TentativeLaws T ok view}.
Context (Hm : metrics_ok nodes) (Hplain : plain).

Lemma relax_edge_handed done id n d fh t e :
  ok t -> spf_inv nodes self done (view t) -> done !! id = Some (d, fh) -> nodes !! id = Some n -> e ∈ edges n ->
  (id = self \/ overload n = false) -> (forall u du fu, done !! u = Some (du, fu) -> du <= d) ->
  let t' := relax_edge nodes done id d fh t e in
  keeps (view t) (view t') /\
  (twoWay nodes id (to e) = true -> d + e_metric e < maxPathMetric ->
   forall fv, view t' !! to e = Some (d + e_metric e, fv) \/ done !! to e = Some (d + e_metric e, fv) ->
   firstHopsFor fh (to e) ⊆ fv).
Proof using Hm Hplain TentativeLaws0.
  intros Hok HI Hid Hn He Hov Hlast t'. subst t'. unfold relax_edge.
  assert (Hpos : twoWay nodes id (to e) = true -> 0 < e_metric e).
  { intros Ht. apply (proj1 Hplain id (to e)). by exists n, e. }
  destruct (bool_decide_reflect (is_Some (done !! to e))) as [Hs|Hs].
  { split; [apply keeps_refl|]. intros Ht _ fv [Hv|Hv].
    - by rewrite (inv_disjoint _ _ _ _ HI _ Hs) in Hv.
    - apply Hlast in Hv. specialize (Hpos Ht). lia. }
  destruct (twoWay nodes id (to e)) eqn:Ht; cbn [negb]; [|by split; [apply keeps_refl|]].
  pose proof (Hm id n e Hn He) as Hw. pose proof (hops_of_path _ _ _ _ _ (inv_done _ _ _ _ HI _ _ _ Hid)) as [h Hp].
  apply (path_range _ _ _ _ _ Hm) in Hp. unfold maxPathMetric in *.
  assert (Hu : u32 (d + e_metric e) = d + e_metric e) by (unfold u32; apply Z.mod_small; lia). rewrite Hu.
  destruct (Z.leb_spec 4261412864 (d + e_metric e)) as [Hge|Hlt]; [split; [apply keeps_refl|lia]|].
  destruct (relax_law t (to e) (d + e_metric e) (firstHopsFor fh (to e)) Hok) as [R1 R2]. rewrite R2.
  destruct (relaxed_keeps (view t) (to e) (d + e_metric e) (firstHopsFor fh (to e))) as [K1 K2].
  split; [done|]. intros _ _ fv [Hv|Hv]; [by apply K2|]. exfalso. apply Hs. by eexists.
Qed.

Lemma relax_edges_handed done id n d fh es t :
  ok t -> spf_inv nodes self done (view t) -> done !! id = Some (d, fh) -> nodes !! id = Some n -> es ⊆ edges n ->
  (id = self \/ overload n = false) -> (forall u du fu, done !! u = Some (du, fu) -> du <= d) ->
  let t' := fold_left (relax_edge nodes done id d fh) es t in
  keeps (view t) (view t') /\
  forall e, e ∈ es -> twoWay nodes id (to e) = true -> d + e_metric e < maxPathMetric ->
    forall fv, view t' !! to e = Some (d + e_metric e, fv) \/ done !! to e = Some (d + e_metric e, fv) ->
    firstHopsFor fh (to e) ⊆ fv.
Proof using Hm Hplain TentativeLaws0.
  intros Hok HI Hid Hn Hes Hov Hlast. revert t Hok HI Hes. induction es as [|e es IH]; intros t Hok HI Hes; cbn [fold_left].
  { split; [apply keeps_refl|]. intros e He. by apply not_elem_of_nil in He. }
  assert (He : e ∈ edges n) by (apply Hes; left).
  destruct (relax_edge_turn nodes self ok view Hm done id n d fh t e Hok HI Hid Hn He Hov Hlast) as [(T1 & T2 & T3) F].
  destruct (relax_edge_handed done id n d fh t e Hok HI Hid Hn He Hov Hlast) as [K G].
  set (t1 := relax_edge nodes done id d fh t e) in *.
  destruct (IH t1 T1 T2) as [K' G']; [intros x Hx; apply Hes; by right|].
  split; [by eapply keeps_trans|]. intros x Hx Ht Hlt fv Hv. apply elem_of_cons in Hx as [->|Hx]; [|by apply G'].
  destruct Hv as [Hv|Hv]; [|by apply G; [| |right]]. destruct (F Ht Hlt) as [Hs|(dv & f1 & Hv1 & Hle)].
  - destruct (relax_edges_turn nodes self ok view Hm done id n d fh es t1 T1 T2 Hid Hn) as [(_ & U2 & _) _];
      [intros y Hy; apply Hes; by right|done|done|]. by rewrite (inv_disjoint _ _ _ _ U2 _ Hs) in Hv.
  - destruct K' as [K1 K2]. destruct (K1 _ _ _ Hv1) as (d2 & f2 & Hv2 & Hle2).
    assert (dv = d + e_metric e) as -> by (rewrite Hv in Hv2; injection Hv2 as <- _; lia).
    etransitivity; [by apply (G Ht Hlt f1); left|by eapply K2].
Qed.

Lemma expand_handed done id d fh t :
  ok t -> spf_inv nodes self done (view t) -> done !! id = Some (d, fh) ->
  (forall u du fu, done !! u = Some (du, fu) -> du <= d) ->
  frontier nodes self done (view t) (fun u => u <> id) -> handed done (view t) (fun u => u <> id) ->
  handed done (view (expand nodes self done id d fh t)) (fun _ => True).
Proof using Hm Hplain TentativeLaws0.
  intros Hok HI Hid Hlast HF HH.
  destruct (expand_turn nodes self ok view Hm done id d fh t Hok HI Hid Hlast HF) as (_ & I' & _). revert I'.
  unfold expand. destruct (nodes !! id) as [n|] eqn:Hn.
  2:{ intros _. exfalso. destruct (inv_nodes _ _ _ _ HI id) as [x Hx]; [right; by eexists|]. congruence. }
  destruct (overload n && negb (bool_decide (id = self))) eqn:Ho; intros I'.
  - intros u v du fu w fv _ Hdu Hu. destruct (decide (u = id)) as [->|Hne]; [|by apply (HH u v du fu w fv Hne Hdu Hu)].
    exfalso. destruct Hu as (n' & e & Hn' & _ & _ & _ & _ & Hov).
    apply andb_true_iff in Ho as [Ho Hs]. apply negb_true_iff, bool_decide_eq_false in Hs.
    destruct Hov as [?|Hov]; [done|]. congruence.
  - assert (Hov : id = self \/ overload n = false).
    { apply andb_false_iff in Ho as [Ho|Ho]; [by right|left]. by apply negb_false_iff, bool_decide_eq_true in Ho. }
    destruct (relax_edges_handed done id n d fh (edges n) t Hok HI Hid Hn (reflexivity _) Hov Hlast) as [K G].
    set (t' := fold_left _ (edges n) t) in *. intros u v du fu w fv _ Hdu Hu Hlt Hv.
    destruct (decide (u = id)) as [->|Hne].
    + rewrite Hid in Hdu. injection Hdu as <- <-. destruct Hu as (n' & e & Hn' & He & <- & <- & Ht & _).
      rewrite Hn in Hn'. injection Hn' as <-. by apply (G e He Ht Hlt).
    + by apply (handed_keeps done (view t) (view t') (fun u => u <> id) HF K (inv_disjoint _ _ _ _ I') HH u v du fu w fv Hne).
Qed.

Lemma turn_handed done t id d fh t1 :
  ok t -> spf_inv nodes self done (view t) -> frontier nodes self done (view t) (fun _ => True) ->
  handed done (view t) (fun _ => True) -> tent_pop t = Some (id, d, fh, t1) ->
  let done' := <[id := (d, fh)]> done in
  handed done' (view (expand nodes self done' id d fh t1)) (fun _ => True).
Proof using Hm Hplain TentativeLaws0.
  intros Hok HI HF HH Hp done'. destruct (pop_law t id d fh t1 Hok Hp) as (P1 & P2 & P3 & P4).
  destruct (settle_inv nodes self done (view t) id d fh Hm HI HF P2 P4) as [I1 F1]. rewrite <- P3 in I1, F1.
  assert (Hd : done !! id = None).
  { destruct (done !! id) eqn:E; [|done]. rewrite (inv_disjoint _ _ _ _ HI id) in P2; [done|by eexists]. }
  pose proof (handed_settle done (view t) id d fh P2 Hd HH) as H1. rewrite <- P3 in H1.
  apply (expand_handed done' id d fh t1 P1 I1); [apply lookup_insert_eq| |done|done].
  intros u du fu. unfold done'. destruct (decide (id = u)) as [<-|Hne]; [rewrite lookup_insert_eq; intros [= <- _]; lia|].
  rewrite lookup_insert_ne by done. intros Hu. by apply (inv_order _ _ _ _ HI u id du d fu fh).
Qed.

Lemma spf_loop_handed n done t done' :
  ok t -> spf_inv nodes self done (view t) -> frontier nodes self done (view t) (fun _ => True) ->
  handed done (view t) (fun _ => True) -> spf_loop nodes self n t done = Ok done' -> handed done' ∅ (fun _ => True).
Proof using Hm Hplain TentativeLaws0.
  revert done t. induction n as [|n IH]; intros done t Hok HI HF HH; cbn [spf_loop]; rewrite (len_law t Hok).
  all: destruct (Nat.eqb_spec (size (view t)) 0) as [E|E].
  all: try (intros [= <-]; apply map_size_empty_iff in E; by rewrite E in HH).
  destruct (tent_pop t) as [[[[id d] fh] t1]|] eqn:Hp; [|done].
  destruct (turn_inv nodes self ok view Hm done t id d fh t1 Hok HI HF Hp) as (_ & H1 & H2 & H3).
  apply IH; [done..|]. by apply (turn_handed done t).
Qed.

End Turn.

Section Complete.
Context (Hm : metrics_ok nodes) (Hplain : plain).

(** First hops are complete: by induction on the path, whose every prefix is a
    shortest path of its own. *)
Lemma handed_complete done v d h :
  spf_inv nodes self done ∅ -> frontier nodes self done ∅ (fun _ => True) -> handed done ∅ (fun _ => True) ->
  (exists fs, done !! self = Some (0, fs) /\ fs = ∅) ->
  path nodes self v d h -> forall fv, done !! v = Some (d, fv) ->
  match h with Some x => x ∈ fv | None => v = self end.
Proof using Hm Hplain.
  intros HI HF HH (fs & Hself & ->) Hp. induction Hp as [|u v d w h Hp IH Hu Hlt]; [done|]. intros fv Hv.
  pose proof (proj1 Hplain u v w Hu) as Hw.
  destruct (path_crosses nodes self done ∅ u d h Hm HI HF Hp) as [[[du fu] Hdu]|(y & dy & fy & Hy & _)];
    [|by rewrite lookup_empty in Hy].
  destruct (hops_of_path _ _ _ _ _ (inv_done _ _ _ _ HI _ _ _ Hdu)) as [hu Hpu].
  pose proof (inv_least _ _ _ _ HI _ _ _ Hdu _ _ Hp) as Hle.
  pose proof (inv_least _ _ _ _ HI _ _ _ Hv (du + w) (hop_via hu v)
    (path_edge nodes self u v du w hu Hpu Hu ltac:(lia))) as Hle'.
  assert (du = d) as -> by lia. specialize (IH fu Hdu).
  pose proof (HH u v d fu w fv I Hdu Hu Hlt (or_intror Hv)) as Hsub.
  assert (Hpn : NodeID_PseudonodeID v = 0) by (apply (proj2 Hplain); by eapply usable_node).
  destruct h as [x|]; cbn [hop_via].
  - apply Hsub. unfold firstHopsFor. destruct (Nat.ltb_spec 0 (size fu)) as [|Hs]; [done|]. exfalso.
    assert (E : fu ≡ ∅) by (apply size_empty_iff; lia). set_solver.
  - subst u. rewrite Hself in Hdu. injection Hdu as <- <-. rewrite Hpn. cbn [Z.eqb]. apply Hsub.
    unfold firstHopsFor. rewrite size_empty, Hpn. cbn. by apply elem_of_singleton.
Qed.
End Complete.
End Hops.
