(* ===== verification/SpfSpec.v ===== *)
(** What [computeSPF] computes: shortest paths and their first hops, and routes
    that do not depend on the order in which maps are visited. *)

From stdpp Require Import sorting.
From S2P Require Import Prelude.
From S2P Require Import Netip.
From S2P Require Import Ids.
From S2P Require Import Sid.
From S2P Require Import SubTLV.
From S2P Require Import Entries.
From S2P Require Import Locator.
From S2P Require Import Tlv.
From S2P Require Import Checksum.
From S2P Require Import Pdu.
From S2P Require Import Circuit.
From S2P Require Import Lsdb.
From S2P Require Import Server.
From S2P Require Import FlexAlgo.
From S2P Require Import Heap.
From S2P Require Import Tent.
From S2P Require Import Topology.
From S2P Require Import Spf.
From S2P Require Import SpfPaths.
Local Open Scope Z_scope.

(** ** The tentative set *)

(** An operation on the tentative set. *)
Inductive tent_op : Type :=
  | OpRelax (id : NodeID) (d : Z) (fh : gset SystemID)
  | OpPop.

(** The specification: an unordered collection, from which any node of least
    distance may be taken. *)
Inductive spec_step : tentative -> tent_op -> option (NodeID * Z * gset SystemID) -> tentative -> Prop :=
  | spec_relax m id d fh : spec_step m (OpRelax id d fh) None (relaxed m id d fh)
  | spec_pop m id d fh :
      m !! id = Some (d, fh) -> (forall id' d' fh', m !! id' = Some (d', fh') -> d <= d') ->
      spec_step m OpPop (Some (id, d, fh)) (delete id m)
  | spec_empty : spec_step ∅ OpPop None ∅.

Inductive spec_run : tentative -> list tent_op -> list (option (NodeID * Z * gset SystemID)) -> tentative -> Prop :=
  | run_nil m : spec_run m [] [] m
  | run_cons m o r m1 os rs m2 : spec_step m o r m1 -> spec_run m1 os rs m2 -> spec_run m (o :: os) (r :: rs) m2.

Definition tent_do (t : tentSet) (o : tent_op) : option (NodeID * Z * gset SystemID) * tentSet :=
  match o with
  | OpRelax id d fh => (None, tentSet_relax t id d fh)
  | OpPop => match tentSet_pop t with
             | Some (e, t) => (Some (t_id e, distance e, firstHops e), t)
             | None => (None, t)
             end
  end.

Fixpoint tent_dos (t : tentSet) (os : list tent_op) : list (option (NodeID * Z * gset SystemID)) * tentSet :=
  match os with
  | [] => ([], t)
  | o :: os => let '(r, t) := tent_do t o in let '(rs, t) := tent_dos t os in (r :: rs, t)
  end.

Lemma tent_do_step t o : tent_ok t -> tent_ok (tent_do t o).2 /\ spec_step (tent_view t) o (tent_do t o).1 (tent_view (tent_do t o).2).
Proof.
  intros Hok. destruct o as [id d fh|]; cbn [tent_do fst snd].
  - destruct (relax_law t id d fh Hok) as [R1 R2]. split; [exact R1|].
    change (tent_view (tentSet_relax t id d fh)) with (tent_view (tent_relax t id d fh)). rewrite R2. constructor.
  - destruct (tentSet_pop t) as [[e t']|] eqn:E; cbn [fst snd].
    + destruct (pop_tent t e t' Hok E) as (P1 & P2 & P3 & P4). split; [done|]. rewrite P3. by constructor.
    + split; [done|]. assert (Hv : tent_view t = ∅) by (apply (pop_empty t Hok); cbn; by rewrite E). rewrite Hv. constructor.
Qed.

(** C7: (refinement) every run of pops and relaxations of the indexed binary
    heap of spf.go, from a new one, is a run of the unordered specification: it
    answers each pop with a node of least distance, and with the distance and the
    first hops the specification has for it. *)
Theorem tentSet_refines self os :
  spec_run {[ self := (0, ∅) ]} os (tent_dos (newTentSet self) os).1 (tent_view (tent_dos (newTentSet self) os).2).
Proof.
  destruct (new_law (T := tentSet) self) as [Hok Hv]. cbn [tent_new tentSet_ops] in Hok, Hv. rewrite <- Hv.
  generalize dependent (newTentSet self). clear. intros t Hok _. revert t Hok.
  induction os as [|o os IH]; intros t Hok; [constructor|]. cbn [tent_dos].
  destruct (tent_do_step t o Hok) as [H1 H2]. destruct (tent_do t o) as [r t1]. cbn [fst snd] in *.
  specialize (IH t1 H1). destruct (tent_dos t1 os) as [rs t2]. cbn [fst snd] in *. by econstructor.
Qed.

(** ** Shortest paths *)

Section Correct.
Context {T : Type} `{TentativeSet T} (ok : T -> Prop) (view : T -> tentative) `{!TentativeLaws T ok view}.
Context (nodes : topology) (self : NodeID).

Lemma shortest_paths_inv :
  metrics_ok nodes -> is_Some (nodes !! self) ->
  exists done, shortest_paths (T := T) nodes self = Ok done /\ spf_inv nodes self done ∅ /\
    frontier nodes self done ∅ (fun _ => True).
Proof using TentativeLaws0.
  intros Hm Hself. destruct (new_law (T := T) self) as [Hok Hv]. unfold shortest_paths.
  apply (spf_loop_spec nodes self ok view Hm); [done|rewrite Hv|rewrite Hv|rewrite map_size_empty; lia].
  - by apply start_inv.
  - intros u v du fu w _ Hu. by rewrite lookup_empty in Hu.
Qed.

(** C5: Dijkstra's loop ends, within one turn per node, and what it settles are
    the shortest paths: it settles exactly the nodes that a two-way connected path
    below the reachability ceiling reaches without transit through an overloaded
    system, each at the length of its shortest such path, and every first hop it
    keeps for a node is the first real system on a path of that length.  No sum
    wraps its 32 bits. *)
Theorem shortest_paths_correct :
  metrics_ok nodes -> is_Some (nodes !! self) ->
  exists done, shortest_paths (T := T) nodes self = Ok done /\
    (forall v, is_Some (done !! v) <-> exists d h, path nodes self v d h) /\
    (forall v d fh, done !! v = Some (d, fh) ->
       d < maxPathMetric /\ (exists h, path nodes self v d h) /\ (forall d' h, path nodes self v d' h -> d <= d') /\
       (forall h, h ∈ fh -> path nodes self v d (Some h)) /\ (fh = ∅ -> path nodes self v d None)).
Proof using TentativeLaws0.
  intros Hm Hself. destruct (shortest_paths_inv Hm Hself) as (done & H1 & HI & HF). exists done. split; [done|]. split.
  - intros v. split.
    + intros [[d fh] Hd]. exists d. apply (hops_of_path _ _ _ _ _ (inv_done _ _ _ _ HI _ _ _ Hd)).
    + intros (d & h & Hp). destruct (path_crosses nodes self done ∅ v d h Hm HI HF Hp) as [?|(y & dy & fy & Hy & _)]; [done|].
      by rewrite lookup_empty in Hy.
  - intros v d fh Hd. pose proof (inv_done _ _ _ _ HI _ _ _ Hd) as Hh. pose proof (hops_of_path _ _ _ _ _ Hh) as [h Hp].
    split; [by apply (path_range _ _ _ _ _ Hm Hp)|]. split; [by exists h|].
    split; [by apply (inv_least _ _ _ _ HI _ _ _ Hd)|]. exact Hh.
Qed.

(** C32: (equal-cost multipath) where every link is point-to-point and has a
    positive metric, the first hops kept for a node are exactly the first systems
    of its shortest paths, whatever order ties are taken in. *)
Theorem shortest_paths_ecmp :
  metrics_ok nodes -> is_Some (nodes !! self) -> plain nodes self ->
  exists done, shortest_paths (T := T) nodes self = Ok done /\
    forall v d fh, done !! v = Some (d, fh) -> forall h, h ∈ fh <-> path nodes self v d (Some h).
Proof using TentativeLaws0.
  intros Hm Hself Hplain. destruct (shortest_paths_inv Hm Hself) as (done & H1 & HI & HF). exists done. split; [done|].
  assert (HH : handed nodes self done ∅ (fun _ => True)).
  { destruct (new_law (T := T) self) as [Hok Hv].
    apply (spf_loop_handed nodes self ok view Hm Hplain (size nodes) ∅ (tent_new self)); [done|rewrite Hv..|exact H1].
    - by apply start_inv.
    - intros u v du fu w _ Hu. by rewrite lookup_empty in Hu.
    - intros u v du fu w fv _ Hu. by rewrite lookup_empty in Hu. }
  assert (H0 : exists fs, done !! self = Some (0, fs) /\ fs = ∅).
  { destruct (path_crosses nodes self done ∅ self 0 None Hm HI HF (path_self _ _)) as [[[d fs] Hd]|(y & dy & fy & Hy & _)];
      [|by rewrite lookup_empty in Hy].
    pose proof (inv_least _ _ _ _ HI _ _ _ Hd 0 None (path_self _ _)) as Hle.
    pose proof (inv_done _ _ _ _ HI _ _ _ Hd) as Hh. pose proof (hops_of_path _ _ _ _ _ Hh) as [h Hp].
    pose proof (path_range _ _ _ _ _ Hm Hp). assert (d = 0) as -> by lia. exists fs. split; [done|].
    apply leibniz_equiv, elem_of_equiv_empty. intros x Hx. apply (proj1 Hh) in Hx. clear -Hx Hm Hplain.
    remember (Some x) as o eqn:Eo. remember 0 as z eqn:Ez. remember self as v eqn:Ev in Hx at 2.
    destruct Hx as [|u v d w h Hp Hu Hlt]; [done|]. pose proof (path_range _ _ _ _ _ Hm Hp).
    pose proof (proj1 Hplain u v w Hu). lia. }
  intros v d fh Hd h. split; [apply (inv_done _ _ _ _ HI _ _ _ Hd)|]. intros Hp.
  by apply (handed_complete nodes self Hm Hplain done v d (Some h) HI HF HH H0 Hp fh Hd).
Qed.
End Correct.

(** ** Ties

    Beyond point-to-point links the order in which ties are taken matters. *)

Definition sys (n : Z) : SystemID := [2; 0; 0; 0; 0; n].
Definition real (n : Z) : NodeID := sys n ++ [0].
Definition lan (n : Z) : NodeID := sys n ++ [1].

Definition link (n : NodeID) (w : Z) : spfEdge := mkEdge n w false.
Definition node_of (n : NodeID) (es : list spfEdge) : spfNode := mkNode n es [] false false.

(** This system (9) has links to 1, 2 and 3; 1 and 2 share the LAN of 2.  [es] are
    the links of this system as its LSP lists them. *)
Definition tie_topology (es : list spfEdge) : topology :=
  list_to_map [
    (real 9, node_of (real 9) es);
    (real 1, node_of (real 1) [link (real 9) 10; link (lan 2) 5]);
    (real 2, node_of (real 2) [link (real 9) 5; link (lan 2) 5]);
    (real 3, node_of (real 3) [link (real 9) 5]);
    (lan 2, node_of (lan 2) [link (real 1) 0; link (real 2) 0])].

Definition links1 : list spfEdge := [link (real 1) 10; link (real 2) 5; link (real 3) 5].
Definition links2 : list spfEdge := [link (real 1) 10; link (real 3) 5; link (real 2) 5].

(** (code bug) equal-distance nodes do not contribute the same first hops
    whichever is expanded first: node 1 is at distance 10 both directly and through
    the pseudonode of 2, also at distance 10; listing the links of this system in
    one order settles the pseudonode first and both first hops are kept, in the
    other order node 1 is settled first and the path through 2 is lost. *)
Theorem ecmp_depends_on_tie_order :
  links1 ≡ₚ links2 /\
  exists done1 done2,
    shortest_paths (T := tentSet) (tie_topology links1) (real 9) = Ok done1 /\
    shortest_paths (T := tentSet) (tie_topology links2) (real 9) = Ok done2 /\
    done1 !! real 1 = Some (10, {[ sys 1; sys 2 ]}) /\ done2 !! real 1 = Some (10, {[ sys 1 ]}) /\
    path (tie_topology links2) (real 9) (real 1) 10 (Some (sys 2)).
Proof.
  split; [apply Permutation_skip, Permutation_swap|].
  set (d1 := match shortest_paths (T := tentSet) (tie_topology links1) (real 9) with Ok d => d | _ => ∅ end).
  set (d2 := match shortest_paths (T := tentSet) (tie_topology links2) (real 9) with Ok d => d | _ => ∅ end).
  exists d1, d2. split; [by vm_compute|]. split; [by vm_compute|]. split; [by vm_compute|]. split; [by vm_compute|].
  change 10 with (0 + 5 + 5 + 0). change (Some (sys 2)) with (hop_via (hop_via (hop_via None (real 2)) (lan 2)) (real 1)).
  assert (Huse : forall a b w n e, tie_topology links2 !! a = Some n -> In e (edges n) -> to e = b -> e_metric e = w ->
    twoWay (tie_topology links2) a b = true -> overload n = false -> usable (tie_topology links2) (real 9) a b w).
  { intros a b w n e Hn He Ht Hw Htw Ho. exists n, e. split_and!; try done; [by apply list_elem_of_In|by right]. }
  apply (path_edge _ _ (lan 2)); [apply (path_edge _ _ (real 2)); [apply (path_edge _ _ (real 9)); [constructor| |]| |]| |]; try done.
  - eapply (Huse _ _ _ _ (link (real 2) 5)); try by vm_compute. simpl. tauto.
  - eapply (Huse _ _ _ _ (link (lan 2) 5)); try by vm_compute. simpl. tauto.
  - eapply (Huse _ _ _ _ (link (real 1) 0)); try by vm_compute. simpl. tauto.
Qed.

Lemma tie_metrics : metrics_ok (tie_topology links2).
Proof. intros id n e. apply (topology_edges (fun e => 0 <= e_metric e <= 16777215)). by vm_compute. Qed.

Lemma shortest_paths_correct_witness :
  exists done, shortest_paths (T := tentSet) (tie_topology links2) (real 9) = Ok done /\
    (exists d h, path (tie_topology links2) (real 9) (lan 2) d h) /\
    forall d' h, path (tie_topology links2) (real 9) (lan 2) d' h -> 10 <= d'.
Proof.
  destruct (shortest_paths_correct (T := tentSet) tent_ok tent_view (tie_topology links2) (real 9)) as (dn & H1 & H2 & H3).
  - apply tie_metrics.
  - eexists. by vm_compute.
  - assert (E : match shortest_paths (T := tentSet) (tie_topology links2) (real 9) with Ok d => d !! lan 2 | _ => None end = Some (10, {[ sys 2 ]}))
      by (vm_compute; reflexivity).
    rewrite H1 in E.
    exists dn. split; [exact H1|]. split; [apply H2; by eexists|]. by apply (H3 (lan 2) 10 {[ sys 2 ]}).
Defined.

(** A square of point-to-point links: two paths of equal cost to 3. *)
Definition square : topology :=
  list_to_map [
    (real 9, node_of (real 9) [link (real 1) 10; link (real 2) 10]);
    (real 1, node_of (real 1) [link (real 9) 10; link (real 3) 10]);
    (real 2, node_of (real 2) [link (real 9) 10; link (real 3) 10]);
    (real 3, node_of (real 3) [link (real 1) 10; link (real 2) 10])].

Lemma square_edges id n e : square !! id = Some n -> e ∈ edges n -> 0 < e_metric e <= 16777215.
Proof. apply (topology_edges (fun e => 0 < e_metric e <= 16777215)). by vm_compute. Qed.

Lemma square_plain : plain square (real 9).
Proof.
  split.
  - intros u v w (n & e & Hn & He & _ & <- & _). by apply (square_edges u n e).
  - intros v [n Hn]. assert (K : map_Forall (fun v _ => NodeID_PseudonodeID v = 0) square); [|by apply (K v n)].
    apply (bool_decide_unpack _). by vm_compute.
Qed.

Lemma shortest_paths_ecmp_witness :
  exists done, shortest_paths (T := tentSet) square (real 9) = Ok done /\
    done !! real 3 = Some (20, {[ sys 1; sys 2 ]}) /\
    forall h, h ∈ ({[ sys 1; sys 2 ]} : gset SystemID) <-> path square (real 9) (real 3) 20 (Some h).
Proof.
  destruct (shortest_paths_ecmp (T := tentSet) tent_ok tent_view square (real 9)) as (dn & H1 & H2).
  - intros id n e Hn He. pose proof (square_edges id n e Hn He). lia.
  - eexists. by vm_compute.
  - apply square_plain.
  - assert (E : match shortest_paths (T := tentSet) square (real 9) with Ok d => d !! real 3 | _ => None end = Some (20, {[ sys 1; sys 2 ]}))
      by (vm_compute; reflexivity).
    rewrite H1 in E.
    exists dn. split; [exact H1|]. split; [exact E|]. by apply (H2 (real 3) 20 {[ sys 1; sys 2 ]}).
Defined.
