(* ===== verification/RouteSpec.v ===== *)
(** The routes [computeSPF] collects: which advertisement of a prefix wins, what
    is merged, and that the order of the visit does not matter. *)

From stdpp Require Import sorting.
From S2P Require Import Prelude.
From S2P Require Import Netip.
From S2P Require Import Ids.
From S2P Require Import Sid.
From S2P Require Import SubTLV.
From S2P Require Import Entries.
From S2P Require Import Circuit.
From S2P Require Import Server.
From S2P Require Import FlexAlgo.
From S2P Require Import Tent.
From S2P Require Import Topology.
From S2P Require Import Spf.
Local Open Scope Z_scope.

(** ** First-hop lists *)

Lemma elem_of_sortedHops h x : x ∈ sortedHops h <-> x ∈ h.
Proof. unfold sortedHops. rewrite merge_sort_Permutation. apply elem_of_elements. Qed.

Lemma sortedHops_set h : (list_to_set (sortedHops h) : gset SystemID) = h.
Proof. apply set_eq. intros x. by rewrite elem_of_list_to_set, elem_of_sortedHops. Qed.

(** The first hops of a route as a set; the list is a function of it. *)
Definition hop_set (r : route) : gset SystemID := list_to_set (r_nextHops r).
Definition canonical (r : route) : Prop := r_nextHops r = sortedHops (hop_set r).

Lemma mergeHops_sorted a b : mergeHops a b = sortedHops (list_to_set a ∪ list_to_set b).
Proof. done. Qed.

(** ** What a merge keeps *)

(** The rank of a route: its preference class, then its metric. *)
Definition rank (r : route) : Z * Z := (preferenceClass r, r_metric r).
Definition rank_lt (a b : Z * Z) : Prop := a.1 < b.1 \/ (a.1 = b.1 /\ a.2 < b.2).
Definition rank_le (a b : Z * Z) : Prop := rank_lt a b \/ a = b.

Lemma rank_total a b : rank_lt a b \/ a = b \/ rank_lt b a.
Proof. unfold rank_lt. destruct a as [a1 a2], b as [b1 b2]; simpl. destruct (Z.lt_trichotomy a1 b1) as [?|[->|?]]; [by left; left| |by right; right; left].
  destruct (Z.lt_trichotomy a2 b2) as [?|[->|?]]; [left; by right|by right; left|right; right; by right]. Qed.

Lemma rank_lt_trans a b c : rank_lt a b -> rank_lt b c -> rank_lt a c.
Proof. unfold rank_lt. intros [?|[? ?]] [?|[? ?]]; lia. Qed.

Lemma rank_lt_irrefl a : ~ rank_lt a a.
Proof. unfold rank_lt. lia. Qed.

Lemma rank_le_trans a b c : rank_le a b -> rank_le b c -> rank_le a c.
Proof. intros [H1| ->] [H2| ->]; [left; by eapply rank_lt_trans|by left|by left|by right]. Qed.

Lemma preferenceClass_mt r mt : preferenceClass (set_mt r mt) = preferenceClass r.
Proof. done. Qed.

(** [merge_route] by rank. *)
Lemma merge_route_lt cur r : rank_lt (rank r) (rank cur) -> merge_route cur r = set_mt r (r_mt cur && r_mt r).
Proof.
  unfold rank_lt, rank, merge_route. cbn [fst snd]. intros [H|[H1 H2]].
  - rewrite (proj2 (Z.eqb_neq _ _)) by lia. cbn [negb]. by rewrite (proj2 (Z.ltb_lt _ _)).
  - rewrite H1, Z.eqb_refl. cbn [negb]. by rewrite (proj2 (Z.ltb_lt _ _)).
Qed.

Lemma merge_route_gt cur r : rank_lt (rank cur) (rank r) -> merge_route cur r = set_mt cur (r_mt cur && r_mt r).
Proof.
  unfold rank_lt, rank, merge_route. cbn [fst snd]. intros [H|[H1 H2]].
  - rewrite (proj2 (Z.eqb_neq _ _)) by lia. cbn [negb]. by rewrite (proj2 (Z.ltb_ge _ _)) by lia.
  - rewrite H1, Z.eqb_refl. cbn [negb]. rewrite (proj2 (Z.ltb_ge _ _)) by lia. by rewrite (proj2 (Z.eqb_neq _ _)) by lia.
Qed.

Lemma merge_route_eq cur r : rank r = rank cur ->
  merge_route cur r = set_mt (set_nextHops cur (sortedHops (hop_set cur ∪ hop_set r))) (r_mt cur && r_mt r).
Proof.
  unfold rank, merge_route. intros [= H1 H2]. rewrite H1, H2, Z.eqb_refl. cbn [negb].
  by rewrite Z.ltb_irrefl, Z.eqb_refl.
Qed.

Lemma hop_set_sorted r h : hop_set (set_nextHops r (sortedHops h)) = h.
Proof. apply sortedHops_set. Qed.

(** The outcome of merging a list of routes into one: its rank is the least, its
    first hops those of every route of that rank, and it rests on multi-topology
    evidence alone when they all do. *)
Record best_of (rs : list route) (b : route) : Prop := {
  best_rank : exists r, r ∈ rs /\ rank r = rank b /\ r_level r = r_level b /\ r_algo r = r_algo b;
  best_least : forall r, r ∈ rs -> rank_le (rank b) (rank r);
  best_hops : forall x, x ∈ hop_set b <-> exists r, r ∈ rs /\ rank r = rank b /\ x ∈ hop_set r;
  best_mt : r_mt b = forallb r_mt rs;
  best_canonical : canonical b
}.

Lemma best_single r : canonical r -> best_of [r] r.
Proof.
  intros Hc. split.
  - exists r. split; [left|done].
  - intros r' ->%list_elem_of_singleton. by right.
  - intros x. split; [intros Hx; exists r; split; [left|done]|]. by intros (r' & ->%list_elem_of_singleton & _ & Hx).
  - simpl. by rewrite andb_true_r.
  - done.
Qed.

Lemma best_snoc rs b r : best_of rs b -> canonical r -> best_of (rs ++ [r]) (merge_route b r).
Proof.
  intros [B1 B2 B3 B4 B5] Hc.
  assert (Hin : forall x, x ∈ rs ++ [r] <-> x ∈ rs \/ x = r) by (intros x; by rewrite elem_of_app, list_elem_of_singleton).
  assert (Hmt : r_mt (merge_route b r) = forallb r_mt (rs ++ [r])).
  { rewrite forallb_app. cbn [forallb]. rewrite andb_true_r, <- B4. destruct (rank_total (rank r) (rank b)) as [H|[H|H]];
      [by rewrite merge_route_lt|by rewrite merge_route_eq|by rewrite merge_route_gt]. }
  destruct (rank_total (rank r) (rank b)) as [H|[H|H]].
  - rewrite merge_route_lt in * by done. split; [| | |done|done].
    + exists r. split; [apply Hin; by right|done].
    + intros x [Hx| ->]%Hin; [|by right]. left. destruct (B2 x Hx) as [Hb| <-]; [by eapply rank_lt_trans|done].
    + intros x. change (rank (set_mt r _)) with (rank r). change (hop_set (set_mt r _)) with (hop_set r). split.
      * intros Hx. exists r. split; [apply Hin; by right|done].
      * intros (r' & [Hr| ->]%Hin & E & Hx); [|done]. exfalso. specialize (B2 r' Hr). rewrite E in B2.
        destruct B2 as [Hb|Hb]; [by apply (rank_lt_irrefl (rank r)); eapply rank_lt_trans|].
        rewrite Hb in H. by eapply rank_lt_irrefl.
  - rewrite merge_route_eq in * by done. split; [| | |done|].
    + destruct B1 as (r0 & Hr0 & ? & ? & ?). exists r0. split; [apply Hin; by left|done].
    + intros x [Hx| ->]%Hin; [by apply B2|]. right. done.
    + intros x. change (rank (set_mt _ _)) with (rank b). change (hop_set (set_mt ?y _)) with (hop_set y).
      rewrite hop_set_sorted, elem_of_union, B3. split.
      * intros [(r' & Hr & E & Hx)|Hx]; [exists r'; split; [apply Hin; by left|done]|].
        exists r. split; [apply Hin; by right|done].
      * intros (r' & [Hr| ->]%Hin & E & Hx); [left; by exists r'|by right].
    + unfold canonical. change (hop_set (set_mt ?y ?z)) with (hop_set y). by rewrite hop_set_sorted.
  - rewrite merge_route_gt in * by done. split; [| | |done|done].
    + destruct B1 as (r0 & Hr0 & ? & ? & ?). exists r0. split; [apply Hin; by left|done].
    + intros x [Hx| ->]%Hin; [by apply B2|]. by left.
    + intros x. change (rank (set_mt b _)) with (rank b). change (hop_set (set_mt b _)) with (hop_set b). rewrite B3. split.
      * intros (r' & Hr & E & Hx). exists r'. split; [apply Hin; by left|done].
      * intros (r' & [Hr| ->]%Hin & E & Hx); [by exists r'|]. rewrite E in H. by apply rank_lt_irrefl in H.
Qed.

(** The advertisements of a prefix among a list of candidates. *)
Definition offers (p : Prefix) (cs : list (Prefix * route)) : list route :=
  snd <$> List.filter (fun c => bool_decide (c.1 = p)) cs.

Definition add_all (cs : list (Prefix * route)) (routes : gmap Prefix route) : gmap Prefix route :=
  fold_left (fun m c => addRoute m c.1 c.2) cs routes.

Lemma offers_snoc p cs c : offers p (cs ++ [c]) = offers p cs ++ (if bool_decide (c.1 = p) then [c.2] else []).
Proof. unfold offers. rewrite List.filter_app, fmap_app. simpl. by destruct (bool_decide _). Qed.

Lemma add_all_best cs p :
  Forall (fun c => canonical c.2) cs ->
  match add_all cs ∅ !! p with
  | None => offers p cs = []
  | Some b => best_of (offers p cs) b
  end.
Proof.
  induction cs as [|c cs IH] using rev_ind; intros Hc; [done|].
  apply Forall_app in Hc as [Hcs [Hc _]%Forall_cons]. specialize (IH Hcs).
  unfold add_all. rewrite fold_left_app. cbn [fold_left]. fold (add_all cs ∅). rewrite offers_snoc.
  unfold addRoute. destruct (decide (c.1 = p)) as [->|Hne].
  - rewrite bool_decide_true by done. destruct (add_all cs ∅ !! p) as [b|]; rewrite lookup_insert_eq.
    + by apply best_snoc.
    + rewrite IH. by apply best_single.
  - rewrite bool_decide_false, app_nil_r by done. destruct (add_all cs ∅ !! c.1); by rewrite lookup_insert_ne.
Qed.

(** ** Order *)

Lemma rank_le_antisym a b : rank_le a b -> rank_le b a -> a = b.
Proof.
  intros [H1|H1] [H2|H2]; try done. exfalso. apply (rank_lt_irrefl a). by eapply rank_lt_trans.
Qed.

(** Two outcomes for the same routes agree on everything but the up/down bit of a
    Level-2 route, which nothing reads. *)
Definition same_up_to_down (a b : route) : Prop :=
  r_metric a = r_metric b /\ r_level a = r_level b /\ r_algo a = r_algo b /\ r_mt a = r_mt b /\
  r_nextHops a = r_nextHops b /\ (r_level a = Level1 -> r_down a = r_down b).

Lemma best_unique l g rs rs' a b :
  rs ≡ₚ rs' -> Forall (fun r => r_level r = l /\ r_algo r = g) rs -> best_of rs a -> best_of rs' b -> same_up_to_down a b.
Proof.
  intros Hp Hlg [(ra & Ha & Ra & La & Ga) A2 A3 A4 A5] [(rb & Hb & Rb & Lb & Gb) B2 B3 B4 B5].
  assert (Hb' : rb ∈ rs) by (by rewrite Hp). assert (Ha' : ra ∈ rs') by (by rewrite <- Hp).
  assert (E : rank a = rank b).
  { apply rank_le_antisym; [rewrite <- Rb; by apply A2|rewrite <- Ra; by apply B2]. }
  rewrite Forall_forall in Hlg. destruct (Hlg ra Ha) as [L1 G1]. destruct (Hlg rb Hb') as [L2 G2].
  pose proof E as E'. unfold rank in E. injection E as E1 E2. split; [done|]. split; [congruence|]. split; [congruence|]. split.
  { rewrite A4, B4. clear -Hp. induction Hp as [|x xs ys _ IH|x y xs|xs ys zs _ IH1 _ IH2]; simpl; [done|by rewrite IH| |congruence].
    by destruct (r_mt x), (r_mt y). }
  split.
  { rewrite A5, B5. f_equal. apply set_eq. intros x. rewrite A3, B3.
    split; intros (r & Hr & E3 & Hx); exists r; (split; [|split; [congruence|done]]); [by rewrite <- Hp|by rewrite Hp]. }
  intros Hl. unfold preferenceClass in E1. assert (r_level b = Level1) as Hl' by congruence. rewrite Hl, Hl' in E1.
  destruct (r_down a), (r_down b); done.
Qed.

(** ** Candidates *)

(** The routes a settled node offers. *)
Definition node_candidates (nodes : topology) (self : NodeID) (l : Level) (algo : Z) (x : NodeID * (Z * gset SystemID))
  : list (Prefix * route) :=
  let '(id, (base, hops)) := x in
  if bool_decide (id = self) then [] else
  match nodes !! id with
  | None => []
  | Some n =>
      if (size hops =? 0)%nat then []
      else prefixes n ≫= fun p =>
             match prefix_route l algo base (sortedHops hops) p with None => [] | Some r => [(prefix p, r)] end
  end.

Lemma length_sortedHops h : length (sortedHops h) = size h.
Proof. unfold sortedHops. by rewrite merge_sort_Permutation. Qed.

Lemma collect_node_add nodes self l algo routes x :
  collect_node nodes self l algo routes x = add_all (node_candidates nodes self l algo x) routes.
Proof.
  destruct x as [id [base hops]]. unfold collect_node, node_candidates. destruct (bool_decide (id = self)); [done|].
  destruct (nodes !! id) as [n|]; [|done]. rewrite length_sortedHops. destruct (size hops =? 0)%nat; [done|].
  revert routes. induction (prefixes n) as [|p ps IH]; intros routes; [done|]. cbn [fold_left]. rewrite IH.
  unfold add_all. rewrite bind_cons, fold_left_app. f_equal. by destruct (prefix_route _ _ _ _ p).
Qed.

Lemma collect_all nodes self l algo order :
  fold_left (collect_node nodes self l algo) order ∅ = add_all (order ≫= node_candidates nodes self l algo) ∅.
Proof.
  generalize (∅ : gmap Prefix route) as m. induction order as [|x xs IH]; intros m; [done|]. cbn [fold_left].
  rewrite collect_node_add, IH. unfold add_all. by rewrite bind_cons, fold_left_app.
Qed.

Definition candidate_ok (l : Level) (algo : Z) (c : Prefix * route) : Prop :=
  canonical c.2 /\ r_level c.2 = l /\ r_algo c.2 = algo.

Lemma node_candidates_ok nodes self l algo x : Forall (candidate_ok l algo) (node_candidates nodes self l algo x).
Proof.
  destruct x as [id [base hops]]. unfold node_candidates. destruct (bool_decide _); [constructor|].
  destruct (nodes !! id) as [n|]; [|constructor]. destruct (size hops =? 0)%nat; [constructor|].
  induction (prefixes n) as [|p ps IH]; [constructor|]. rewrite bind_cons. apply Forall_app. split; [|done].
  unfold prefix_route. destruct (_ <=? _); [constructor|]. constructor; [|constructor].
  split; [|done]. unfold canonical. cbn [snd r_nextHops]. unfold hop_set. cbn [r_nextHops]. by rewrite sortedHops_set.
Qed.

Lemma candidates_ok nodes self l algo order : Forall (candidate_ok l algo) (order ≫= node_candidates nodes self l algo).
Proof.
  induction order as [|x xs IH]; [constructor|]. rewrite bind_cons. apply Forall_app. split; [apply node_candidates_ok|done].
Qed.

(** The routes do not depend on the order in which the map of settled nodes
    is visited: any two visits give the same prefixes, each with the same metric,
    level, algorithm, multi-topology flag and next hops (and at Level 1 the same
    up/down bit; at Level 2, where the code ignores the bit, it may be that of
    either of two equal advertisements). *)
Theorem collect_order_free nodes self l algo order1 order2 p :
  order1 ≡ₚ order2 ->
  match fold_left (collect_node nodes self l algo) order1 ∅ !! p,
        fold_left (collect_node nodes self l algo) order2 ∅ !! p with
  | Some a, Some b => same_up_to_down a b
  | None, None => True
  | _, _ => False
  end.
Proof.
  intros Hp. rewrite !collect_all. set (c1 := order1 ≫= _). set (c2 := order2 ≫= _).
  assert (Hc : c1 ≡ₚ c2) by (unfold c1, c2; by rewrite Hp).
  assert (Ho : offers p c1 ≡ₚ offers p c2).
  { unfold offers. apply fmap_Permutation. clear -Hc. induction Hc as [|x xs ys _ IH|x y xs|xs ys zs _ IH1 _ IH2]; simpl.
    - done.
    - destruct (bool_decide _); [by constructor|done].
    - destruct (bool_decide (x.1 = p)), (bool_decide (y.1 = p)); try done. constructor.
    - by etransitivity. }
  pose proof (candidates_ok nodes self l algo order1) as K1. pose proof (candidates_ok nodes self l algo order2) as K2.
  fold c1 in K1. fold c2 in K2.
  pose proof (add_all_best c1 p (Forall_impl _ _ _ K1 (fun c H => proj1 H))) as A1.
  pose proof (add_all_best c2 p (Forall_impl _ _ _ K2 (fun c H => proj1 H))) as A2.
  destruct (add_all c1 ∅ !! p) as [a|], (add_all c2 ∅ !! p) as [b|]; [|..|done].
  - apply (best_unique l algo (offers p c1) (offers p c2)); [done| |done|done].
    apply Forall_forall. intros r Hr. unfold offers in Hr. apply list_elem_of_fmap in Hr as (c & -> & Hc').
    apply list_elem_of_In, filter_In in Hc' as [Hc' _]. rewrite Forall_forall in K1.
    apply list_elem_of_In, K1 in Hc' as (_ & ? & ?). done.
  - rewrite A2 in Ho. apply Permutation_nil_r in Ho. destruct A1 as [(r & Hr & _)]. rewrite Ho in Hr. by apply not_elem_of_nil in Hr.
  - rewrite A1 in Ho. symmetry in Ho. apply Permutation_nil_r in Ho. destruct A2 as [(r & Hr & _)]. rewrite Ho in Hr.
    by apply not_elem_of_nil in Hr.
Qed.

(** ** The winning advertisement *)

(** A route offered for a prefix: an advertisement of a settled node, other than
    this one, that has a first hop, at a total below the ceiling. *)
Definition offered (nodes : topology) (self : NodeID) (l : Level) (algo : Z) (order : list (NodeID * (Z * gset SystemID)))
    (p : Prefix) (r : route) : Prop :=
  exists id d fh n q, (id, (d, fh)) ∈ order /\ id <> self /\ nodes !! id = Some n /\ fh <> ∅ /\
    q ∈ prefixes n /\ prefix q = p /\ d + p_metric q < maxPathMetric /\
    r = mkRoute (d + p_metric q) l algo (p_down q) (p_mt q) (sortedHops fh).

(** Distances and metrics as they are stored: 32-bit integers. *)
Definition distances_ok (nodes : topology) (order : list (NodeID * (Z * gset SystemID))) : Prop :=
  (forall id d fh, (id, (d, fh)) ∈ order -> u32_ok d) /\
  (forall id n q, nodes !! id = Some n -> q ∈ prefixes n -> u32_ok (p_metric q)).

Lemma prefix_route_eq l algo d nh q :
  u32_ok d -> u32_ok (p_metric q) ->
  prefix_route l algo d nh q =
    (if decide (d + p_metric q < maxPathMetric) then Some (mkRoute (d + p_metric q) l algo (p_down q) (p_mt q) nh) else None).
Proof.
  unfold u32_ok, prefix_route, u64, u32, maxPathMetric. intros Hd Hq. rewrite (Z.mod_small _ 18446744073709551616) by lia.
  destruct (decide _) as [H|H].
  - rewrite (proj2 (Z.leb_gt _ _)) by lia. by rewrite Z.mod_small by lia.
  - by rewrite (proj2 (Z.leb_le _ _)) by lia.
Qed.

Lemma offers_iff nodes self l algo order p r :
  distances_ok nodes order ->
  r ∈ offers p (order ≫= node_candidates nodes self l algo) <-> offered nodes self l algo order p r.
Proof.
  intros [D1 D2]. unfold offers. rewrite list_elem_of_fmap. setoid_rewrite list_elem_of_In.
  setoid_rewrite filter_In. setoid_rewrite <- list_elem_of_In. setoid_rewrite list_elem_of_bind.
  unfold offered. split.
  - intros ([p' r'] & -> & ([id [d fh]] & Hc & Hx) & Hp). apply bool_decide_eq_true in Hp. cbn [fst snd] in *. subst p'.
    unfold node_candidates in Hc. destruct (bool_decide_reflect (id = self)) as [|Hne]; [by apply not_elem_of_nil in Hc|].
    destruct (nodes !! id) as [n|] eqn:Hn; [|by apply not_elem_of_nil in Hc].
    destruct (Nat.eqb_spec (size fh) 0) as [|Hs]; [by apply not_elem_of_nil in Hc|].
    apply list_elem_of_bind in Hc as (q & Hq & Hqn).
    rewrite prefix_route_eq in Hq; [|by eapply D1|by eapply D2].
    destruct (decide _) as [Hlt|]; [|by apply not_elem_of_nil in Hq].
    apply list_elem_of_singleton in Hq as [= -> ->]. exists id, d, fh, n, q. split_and!; try done.
    intros ->. by rewrite size_empty in Hs.
  - intros (id & d & fh & n & q & Hx & Hne & Hn & Hfh & Hq & Hp & Hlt & ->).
    exists (p, mkRoute (d + p_metric q) l algo (p_down q) (p_mt q) (sortedHops fh)). split; [done|].
    split; [|by apply bool_decide_eq_true]. exists (id, (d, fh)). split; [|done].
    unfold node_candidates. rewrite bool_decide_false, Hn by done.
    destruct (Nat.eqb_spec (size fh) 0) as [Hs|_]; [exfalso; apply Hfh, leibniz_equiv, size_empty_iff, Hs|].
    apply list_elem_of_bind. exists q. split; [|done]. rewrite prefix_route_eq; [|by eapply D1|by eapply D2].
    rewrite decide_True by done. subst p. apply list_elem_of_here.
Qed.

(** (RFC 5302 3.2) the route of a prefix is, among the advertisements of the
    settled nodes at a total metric below the ceiling, of the best preference class
    and, within it, of the least total metric; its next hops are those of every
    advertisement that ties with it, and it is a multi-topology route only when
    every advertisement is.  There is one exactly when there is an advertisement.
    No sum wraps. *)
Theorem collect_best nodes self l algo order p :
  distances_ok nodes order ->
  match fold_left (collect_node nodes self l algo) order ∅ !! p with
  | None => forall r, ~ offered nodes self l algo order p r
  | Some b =>
      (exists r, offered nodes self l algo order p r /\ rank r = rank b) /\
      (forall r, offered nodes self l algo order p r -> rank_le (rank b) (rank r)) /\
      (forall x, x ∈ r_nextHops b <-> exists r, offered nodes self l algo order p r /\ rank r = rank b /\ x ∈ r_nextHops r) /\
      (r_mt b = true <-> forall r, offered nodes self l algo order p r -> r_mt r = true)
  end.
Proof.
  intros Hd. rewrite collect_all. set (cs := order ≫= _).
  pose proof (candidates_ok nodes self l algo order) as K. fold cs in K.
  pose proof (add_all_best cs p (Forall_impl _ _ _ K (fun c H => proj1 H))) as A.
  assert (O : forall r, r ∈ offers p cs <-> offered nodes self l algo order p r) by (intros r; by apply offers_iff).
  assert (Hop : forall r x, x ∈ r_nextHops r <-> x ∈ hop_set r) by (intros r x; unfold hop_set; by rewrite elem_of_list_to_set).
  destruct (add_all cs ∅ !! p) as [b|].
  - destruct A as [(r & Hr & E & _) A2 A3 A4 A5]. split_and!.
    + exists r. split; [by apply O|done].
    + intros r' Hr'. by apply A2, O.
    + intros x. rewrite Hop, A3. setoid_rewrite O. by setoid_rewrite Hop.
    + rewrite A4, forallb_forall. setoid_rewrite <- list_elem_of_In. by setoid_rewrite O.
  - intros r Hr. apply O in Hr. rewrite A in Hr. by apply not_elem_of_nil in Hr.
Qed.

(** Two nodes advertising the same prefix at the same total metric. *)
Definition shared : Prefix := mkPrefix (Addr4 [10; 0; 0; 0]) 8.
Definition router (n : Z) : NodeID := [2; 0; 0; 0; 0; n; 0].
Definition advertiser (n m : Z) : NodeID * spfNode :=
  (router n, mkNode (router n) [] [mkSpfPrefix shared m false false] false false).
Definition anycast : topology := list_to_map [advertiser 1 20; advertiser 2 10].
Definition visit1 : list (NodeID * (Z * gset SystemID)) :=
  [(router 1, (10, {[ NodeID_SystemID (router 1) ]})); (router 2, (20, {[ NodeID_SystemID (router 2) ]}))].

Lemma collect_order_free_witness :
  match fold_left (collect_node anycast (router 9) Level2 0) visit1 ∅ !! shared,
        fold_left (collect_node anycast (router 9) Level2 0) (rev visit1) ∅ !! shared with
  | Some a, Some b => same_up_to_down a b
  | _, _ => False
  end.
Proof.
  exact (collect_order_free anycast (router 9) Level2 0 visit1 (rev visit1) shared (Permutation_rev visit1)).
Defined.

Lemma collect_best_witness :
  exists b, fold_left (collect_node anycast (router 9) Level2 0) visit1 ∅ !! shared = Some b /\ r_metric b = 30 /\
    (forall x, x ∈ r_nextHops b <-> exists r, offered anycast (router 9) Level2 0 visit1 shared r /\ rank r = rank b /\ x ∈ r_nextHops r).
Proof.
  assert (Hd : distances_ok anycast visit1).
  { split.
    - intros id d fh H. repeat (apply elem_of_cons in H as [[= -> -> ->]|H]; [unfold u32_ok; lia|]). by apply not_elem_of_nil in H.
    - intros id n q Hn Hq. assert (K : map_Forall (fun _ n => Forall (fun q => u32_ok (p_metric q)) (prefixes n)) anycast).
      { apply (bool_decide_unpack _). by vm_compute. }
      specialize (K id n Hn). rewrite Forall_forall in K. by apply K. }
  pose proof (collect_best anycast (router 9) Level2 0 visit1 shared Hd) as H.
  destruct (fold_left _ visit1 ∅ !! shared) as [b|] eqn:E; [|by vm_compute in E].
  exists b. split; [done|]. split; [vm_compute in E; by injection E as <-|]. apply H.
Defined.
