(* ===== verification/TopologySpec.v ===== *)
(** What [buildTopology] lets into the graph, the rules of RFC 9350 that prune it, and
    the election of a definition (pkg/server/spf.go, flexalgo.go). *)

From stdpp Require Import sorting.
From S2P Require Import Prelude.
From S2P Require Import Netip.
From S2P Require Import Ids.
From S2P Require Import Sid.
From S2P Require Import SubTLV.
From S2P Require Import Entries.
From S2P Require Import Locator.
From S2P Require Import Tlv.
From S2P Require Import Checksum.
From S2P Require Import Pdu.
From S2P Require Import Circuit.
From S2P Require Import Lsdb.
From S2P Require Import Server.
From S2P Require Import FlexAlgo.
From S2P Require Import Tent.
From S2P Require Import Topology.
From S2P Require Import Spf.
From S2P Require Import SpfPaths.
Local Open Scope Z_scope.

(** ** Edges *)

(** Every edge of the topology satisfies [P]. *)
Definition edges_sat (P : NodeID -> spfEdge -> Prop) (nodes : topology) : Prop :=
  forall id n e, nodes !! id = Some n -> e ∈ edges n -> P id e.

Section Edges.
Context (P : NodeID -> spfEdge -> Prop).

Lemma edges_sat_empty : edges_sat P ∅.
Proof using. intros id n e Hn. by rewrite lookup_empty in Hn. Qed.

Lemma edges_sat_admit algo now nodes ie : edges_sat P nodes -> edges_sat P (admit_node algo now nodes ie).
Proof using.
  intros H. destruct ie as [id x]. unfold admit_node. destruct (admits _ _ _ _); [|done]. intros j n e.
  destruct (decide (LSPID_NodeID id = j)) as [<-|Hj]; [rewrite lookup_insert_eq|rewrite lookup_insert_ne by done; apply H].
  intros [= <-] He. by apply not_elem_of_nil in He.
Qed.

(** A node rewritten without new edges. *)
Lemma edges_sat_alter nodes id f :
  (forall n, edges (f n) = edges n) -> edges_sat P nodes -> edges_sat P (alter f id nodes).
Proof using.
  intros Hf H j n e. rewrite lookup_alter. destruct (decide (id = j)) as [<-|]; [|apply H].
  destruct (nodes !! id) as [m|] eqn:Hm; [|done]. intros [= <-] He. rewrite Hf in He. by eapply H.
Qed.

Lemma edges_sat_imap nodes (f : NodeID -> spfNode -> spfNode) :
  (forall id n, nodes !! id = Some n -> edges (f id n) ⊆ edges n) -> edges_sat P nodes ->
  edges_sat P (map_imap (fun id n => Some (f id n)) nodes).
Proof using.
  intros Hf H id n e. rewrite map_lookup_imap. destruct (nodes !! id) as [m|] eqn:Hm; [|done].
  intros [= <-] He. eapply H; [done|]. by eapply Hf.
Qed.

Lemma edges_sat_fold {A} (step : building -> A -> building) xs b :
  (forall b x, x ∈ xs -> edges_sat P (b_nodes b) -> edges_sat P (b_nodes (step b x))) ->
  edges_sat P (b_nodes b) -> edges_sat P (b_nodes (fold_left step xs b)).
Proof using.
  revert b. induction xs as [|x xs IH]; intros b Hs H; [done|]. cbn [fold_left]. apply IH.
  - intros b' y Hy. apply Hs. by right.
  - apply Hs; [left|done].
Qed.

Lemma edges_sat_addPrefix nid b p m dn mt : edges_sat P (b_nodes b) -> edges_sat P (b_nodes (addPrefix nid b p m dn mt)).
Proof using. intros H. unfold addPrefix. destruct (_ <=? _); [done|]. cbn [b_nodes]. by apply edges_sat_alter. Qed.

Lemma edges_sat_add_edge aff nid b nb :
  (forall attrs, P nid (mkEdge (IR_NeighborID nb) (IR_Metric nb) attrs)) ->
  edges_sat P (b_nodes b) -> edges_sat P (b_nodes (add_edge aff nid b nb)).
Proof using.
  intros HP H. unfold add_edge. destruct (_ <=? _); [done|]. destruct (if _ =? _ then _ else _) as [[] attrs]; [done|].
  cbn [b_nodes]. intros j n e. rewrite lookup_alter. destruct (decide (nid = j)) as [<-|]; [|apply H].
  destruct (b_nodes b !! nid) as [m|] eqn:Hm; [|done]. intros [= <-]. cbn [set_edges edges]. rewrite elem_of_app.
  intros [He|He%list_elem_of_singleton]; [by eapply H|]. subst e. apply HP.
Qed.

Lemma edges_sat_tlv algo aff nid b t :
  (forall nbs nb attrs, t = ExtendedISReachabilityTLV nbs -> nb ∈ nbs ->
     P nid (mkEdge (IR_NeighborID nb) (IR_Metric nb) attrs)) ->
  edges_sat P (b_nodes b) -> edges_sat P (b_nodes (add_tlv algo aff nid b t)).
Proof using.
  intros HP H. destruct t as [| | | | | |nbs|[? ls]| | | |ps|ps| | | | | |[mt ps]| |]; cbn [add_tlv]; try done.
  - apply edges_sat_fold; [|done]. intros b' nb Hnb. apply edges_sat_add_edge. intros attrs. by eapply HP.
  - apply edges_sat_fold; [|done]. intros b' l _ Hb. unfold add_locator. by destruct (_ && _).
  - destruct (negb _); [done|]. apply edges_sat_fold; [|done]. intros b' p _. apply edges_sat_addPrefix.
  - destruct (negb _); [done|]. apply edges_sat_fold; [|done]. intros b' p _. apply edges_sat_addPrefix.
  - destruct (_ || _); [done|]. apply edges_sat_fold; [|done]. intros b' p _. apply edges_sat_addPrefix.
Qed.

Lemma edges_sat_add_locs b nodes : edges_sat P nodes -> edges_sat P (add_locs b nodes).
Proof using.
  unfold add_locs. revert nodes. induction (locs b) as [|[nid p] ls IH]; intros nodes H; [done|]. cbn [fold_left].
  apply IH. destruct (bool_decide _); [done|]. by apply edges_sat_alter.
Qed.

Lemma filter_subseteq (f : spfEdge -> bool) es : List.filter f es ⊆ es.
Proof using. intros e He%list_elem_of_In. apply filter_In in He as [He _]. by apply list_elem_of_In. Qed.

Context (db_order : nat -> lsdb -> list (LSPID * lspEntry)) (order_ok : forall k m, db_order k m ≡ₚ map_to_list m).

(** What every advertised edge satisfies, every edge of the topology does. *)
Lemma buildTopology_edges s l algo aff now :
  (forall db id e nbs nb attrs, dbs s !! l = Some db -> db !! id = Some e ->
     ExtendedISReachabilityTLV nbs ∈ LSP_TLVs (e_lsp e) -> nb ∈ nbs ->
     P (LSPID_NodeID id) (mkEdge (IR_NeighborID nb) (IR_Metric nb) attrs)) ->
  edges_sat P (buildTopology db_order s l algo aff now).
Proof using order_ok.
  intros HP. unfold buildTopology. destruct (dbs s !! l) as [db|]; [|apply edges_sat_empty]. cbv zeta.
  apply edges_sat_add_locs, edges_sat_imap.
  { intros id n _. unfold own_edges. destruct (negb _); [done|]. apply filter_subseteq. }
  apply edges_sat_imap.
  { intros id n _. case_match; [|done]. apply filter_subseteq. }
  apply edges_sat_fold.
  - intros b [id e] Hin Hb. unfold add_fragment. destruct (negb _); [done|]. case_match; [|done].
    apply edges_sat_fold; [|done]. intros b' t Ht. apply edges_sat_tlv. intros nbs nb attrs -> Hnb.
    eapply HP; [done| |done|done]. rewrite order_ok in Hin. by apply elem_of_map_to_list in Hin.
  - cbn [b_nodes]. generalize (db_order 0%nat db) as xs. assert (H0 := edges_sat_empty). revert H0.
    generalize (∅ : topology) as m. intros m H0 xs. revert m H0.
    induction xs as [|x xs IH]; intros m H0; [done|]. cbn [fold_left]. by apply IH, edges_sat_admit.
Qed.

(** Our own edges are backed by adjacencies. *)
Lemma buildTopology_own s l algo aff now id n e :
  buildTopology db_order s l algo aff now !! id = Some n -> NodeID_SystemID id = systemID s -> e ∈ edges n ->
  edgeHasAdjacency s l (to e) = true.
Proof using.
  intros Hn Hid He. revert id n e Hn He Hid. unfold buildTopology.
  destruct (dbs s !! l) as [db|]; [|intros id n e Hn; by rewrite lookup_empty in Hn]. cbv zeta.
  set (b := fold_left _ (db_order 1%nat db) _). set (m := map_imap _ (b_nodes b)). unfold add_locs.
  assert (H0 : forall id n e, map_imap (fun id n => Some (own_edges s l id n)) m !! id = Some n -> e ∈ edges n ->
    NodeID_SystemID id = systemID s -> edgeHasAdjacency s l (to e) = true).
  { intros id n e. rewrite map_lookup_imap. destruct (m !! id) as [k|]; [|done]. intros [= <-] He Hid.
    unfold own_edges in He. rewrite bool_decide_true in He by done. cbn [negb set_edges edges] in He.
    apply list_elem_of_In, filter_In in He as [_ He]. done. }
  revert H0. generalize (map_imap (fun id n => Some (own_edges s l id n)) m) as nodes. clear m.
  induction (locs b) as [|[nid p] ls IH]; intros nodes H0; [done|]. cbn [fold_left]. apply IH.
  destruct (bool_decide _); [done|]. intros id n e. rewrite lookup_alter. destruct (decide (nid = id)) as [<-|]; [|apply H0].
  destruct (nodes !! nid) as [k|] eqn:Hk; [|done]. intros [= <-] He Hid. by apply (H0 nid k e).
Qed.
End Edges.

(** ** The computation as a whole *)

(** The IS reachability of a database carries metrics of 24 bits, as the wire
    does. *)
Definition db_metrics_ok (s : Server) (l : Level) : Prop :=
  forall db id e nbs nb, dbs s !! l = Some db -> db !! id = Some e ->
    ExtendedISReachabilityTLV nbs ∈ LSP_TLVs (e_lsp e) -> nb ∈ nbs -> 0 <= IR_Metric nb <= 16777215.

Section Compute.
Context {T : Type} `{TentativeSet T} (ok : T -> Prop) (view : T -> tentative) `{!TentativeLaws T ok view}.
Context (db_order : nat -> lsdb -> list (LSPID * lspEntry)) (order_ok : forall k m, db_order k m ≡ₚ map_to_list m).
Context (done_order : nat -> settled -> list (NodeID * (Z * gset SystemID))).

Lemma buildTopology_metrics s l algo aff now : db_metrics_ok s l -> metrics_ok (buildTopology db_order s l algo aff now).
Proof using order_ok.
  intros Hm. apply (buildTopology_edges (fun _ e => 0 <= e_metric e <= 16777215) db_order order_ok).
  intros db id e nbs nb attrs Hdb He Ht Hnb. by apply (Hm db id e nbs nb).
Qed.

(** C33: (ISO 10589 7.2.7) over a database of 24-bit metrics the computation
    returns, whatever order the maps are visited in, and no path leaves this system,
    or a pseudonode it originates, over a neighbor without a live adjacency at the
    level: links our own LSP still lists after their adjacency is gone carry
    nothing. *)
Theorem computeSPF_total s l algo aff now :
  db_metrics_ok s l ->
  (exists routes, computeSPF (T := T) db_order done_order s l algo aff now = Ok routes) /\
  (forall u v w, NodeID_SystemID u = systemID s ->
     usable (buildTopology db_order s l algo aff now) (nodeID (systemID s) 0) u v w -> edgeHasAdjacency s l v = true).
Proof using order_ok TentativeLaws0.
  intros Hm. split.
  - unfold computeSPF. destruct (bool_decide_reflect (buildTopology db_order s l algo aff now !! nodeID (systemID s) 0 = None))
      as [|Hs]; [by eexists|].
    pose proof (buildTopology_metrics s l algo aff now Hm) as Hk. set (nodes := buildTopology _ _ _ _ _ _) in *.
    destruct (new_law (T := T) (nodeID (systemID s) 0)) as [Hok Hv].
    destruct (spf_loop_spec nodes (nodeID (systemID s) 0) ok view Hk (size nodes) ∅ (tent_new (nodeID (systemID s) 0)))
      as (dn & E & _); [done| | |rewrite map_size_empty; lia|].
    + rewrite Hv. apply start_inv. by apply not_eq_None_Some.
    + intros u v du fu w _ Hu. by rewrite lookup_empty in Hu.
    + unfold shortest_paths. rewrite E. by eexists.
  - intros u v w Hu (n & e & Hn & He & <- & _). by eapply (buildTopology_own db_order s l algo aff now u n e).
Qed.
End Compute.

Definition router_id (s : Server) : NodeID := nodeID (systemID s) 0.

(** Our own LSP lists a neighbor on a circuit without adjacencies. *)
Definition stale_own_lsp : LSP :=
  mkLSP Level2 1200 [2; 0; 0; 0; 0; 9; 0; 0] 5 0 false false false false false false 3
    [ExtendedISReachabilityTLV [mkISReach [2; 0; 0; 0; 0; 7; 0] 10 []]].
Definition down_server : Server :=
  mkServer [2; 0; 0; 0; 0; 9] [[73; 0; 1]] 4 ∅ 2 []
    {[ Level2 := {[ LSP_LSPID stale_own_lsp := mkLspEntry stale_own_lsp [] 0 1200 true None zeroTime ]} ]}
    false false zeroTime ∅ 1492 zeroTime false ∅ ∅ ∅ ∅ ∅ ∅ false [].

Lemma computeSPF_total_witness :
  (exists routes, computeSPF (T := tentSet) (fun _ => map_to_list) (fun _ => map_to_list) down_server Level2 0 no_affinity 0
     = Ok routes) /\
  forall v w, ~ usable (buildTopology (fun _ => map_to_list) down_server Level2 0 no_affinity 0) (router_id down_server)
     (router_id down_server) v w.
Proof.
  destruct (computeSPF_total (T := tentSet) tent_ok tent_view (fun _ => map_to_list) (fun _ m => reflexivity _) (fun _ => map_to_list)
    down_server Level2 0 no_affinity 0) as [H1 H2].
  - intros db id e nbs nb Hdb He Ht Hnb.
    cbn [down_server dbs] in Hdb. apply lookup_singleton_Some in Hdb as [_ <-]. apply lookup_singleton_Some in He as [_ <-].
    apply list_elem_of_singleton in Ht as [= ->]. apply list_elem_of_singleton in Hnb as ->. cbn. lia.
  - split; [exact H1|]. intros v w Hu. apply (H2 (router_id down_server) v w eq_refl) in Hu as Ha.
    destruct Hu as (n & e & Hn & He & <- & _). vm_compute in Hn. injection Hn as <-. by apply not_elem_of_nil in He.
Defined.

(** ** Pruning *)

Lemma prunesLink_bool a subs :
  let color := flexAlgoLinkColors subs in
  (prunesLink a subs).1 =
    anyColorSet (exclude a) color ||
    (0 <? length (includeAny a))%nat && negb (anyColorSet (includeAny a) color) ||
    (0 <? length (includeAll a))%nat && negb (allColorsSet (includeAll a) color).
Proof.
  cbv zeta. unfold prunesLink. destruct (affinity_empty a) eqn:E.
  - unfold affinity_empty in E. apply andb_true_iff in E as [[E1 E2]%andb_true_iff E3].
    apply Nat.eqb_eq, nil_length_inv in E1, E2, E3. by rewrite E1, E2, E3.
  - destruct (anyColorSet (exclude a) _); [done|]. destruct (_ && negb (anyColorSet _ _)); [done|].
    by destruct (_ && negb (allColorsSet _ _)).
Qed.

Lemma nonempty_iff {A} (xs : list A) : (0 <? length xs)%nat = true <-> xs <> [].
Proof. by destruct xs. Qed.

(** (RFC 9350 13) a link is pruned exactly when it has a color the definition
    excludes, or none of those it asks any of, or not all of those it asks all of,
    whatever lengths the masks are padded to. *)
Theorem prunesLink_colors a subs :
  mask_ok (exclude a) -> mask_ok (includeAny a) -> mask_ok (includeAll a) -> mask_ok (flexAlgoLinkColors subs) ->
  let color := flexAlgoLinkColors subs in
  (prunesLink a subs).1 = true <->
    (exists i n, has_color (exclude a) i n /\ has_color color i n) \/
    (includeAny a <> [] /\ ~ exists i n, has_color (includeAny a) i n /\ has_color color i n) \/
    (includeAll a <> [] /\ ~ forall i n, has_color (includeAll a) i n -> has_color color i n).
Proof.
  intros Hx Ha Hl Hc color. fold color in Hc. rewrite prunesLink_bool. fold color.
  rewrite <- (anyColorSet_iff (exclude a) color), <- (anyColorSet_iff (includeAny a) color),
    <- (allColorsSet_iff (includeAll a) color) by done.
  rewrite !orb_true_iff, !andb_true_iff, !negb_true_iff, !nonempty_iff, !not_true_iff_false. tauto.
Qed.

(** ** Election *)

(** The definition standing for an algorithm. *)
Definition standing (g : Z) (out : gmap Z FlexAlgoInfo) : option ElectedDefinition := out !! g ≫= FI_Definition.

(** A node's definition of an algorithm: the first it advertises, unless a
    constraint is repeated in it. *)
Definition node_definition (g : Z) (sys : SystemID) (subs : list SubTLV) : option ElectedDefinition :=
  f ← first_found (fun s => match s with SubFlexAlgoDef f => if FAD_FlexAlgo f =? g then Some f else None | _ => None end) subs;
  if repeatedConstraint (FAD_SubSubTLVs f) then None else Some (candidate_of sys f).

Definition stands_against (best : option ElectedDefinition) (cand : option ElectedDefinition) : option ElectedDefinition :=
  match cand with None => best | Some d => if winsElection d best then Some d else best end.

Lemma standing_upd l a f g out :
  standing g (upd_info l a f out) =
    if decide (a = g) then FI_Definition (f (default (mkFlexAlgoInfo a l None []) (out !! a))) else standing g out.
Proof.
  unfold standing, upd_info. destruct (decide (a = g)) as [<-|Hne]; [by rewrite lookup_insert_eq|by rewrite lookup_insert_ne].
Qed.

Lemma standing_default l a out : FI_Definition (default (mkFlexAlgoInfo a l None []) (out !! a)) = standing a out.
Proof. unfold standing. by destruct (out !! a). Qed.

Lemma standing_count l sys g algs k :
  standing g (k_out (fold_left (count_algo l sys) algs k)) = standing g (k_out k) /\ k_contributed (fold_left (count_algo l sys) algs k) = k_contributed k.
Proof.
  revert k. induction algs as [|a algs IH]; intros k; [done|]. cbn [fold_left]. destruct (IH (count_algo l sys k a)) as [-> ->].
  unfold count_algo. destruct (_ || _); [done|]. cbn [k_out k_contributed]. rewrite standing_upd. split; [|done].
  destruct (decide (a = g)) as [<-|]; [|done]. cbn [add_participant FI_Definition]. apply standing_default.
Qed.

Lemma standing_contribute l sys g subs k :
  standing g (k_out (fold_left (contribute l sys) subs k)) =
    if bool_decide (g ∈ k_contributed k) then standing g (k_out k)
    else stands_against (standing g (k_out k)) (node_definition g sys subs).
Proof.
  revert k. induction subs as [|s subs IH]; intros k; [by destruct (bool_decide _)|]. cbn [fold_left]. rewrite IH.
  assert (Hskip : forall k', standing g (k_out k') = standing g (k_out k) -> (g ∈ k_contributed k' <-> g ∈ k_contributed k) ->
    node_definition g sys (s :: subs) = node_definition g sys subs ->
    (if bool_decide (g ∈ k_contributed k') then standing g (k_out k')
     else stands_against (standing g (k_out k')) (node_definition g sys subs)) =
    (if bool_decide (g ∈ k_contributed k) then standing g (k_out k)
     else stands_against (standing g (k_out k)) (node_definition g sys (s :: subs)))).
  { intros k' E1 E2 ->. rewrite E1. by rewrite (bool_decide_ext _ _ E2). }
  destruct s as [| | | | |algs|f|]; try by apply Hskip.
  - cbn [contribute]. destruct (standing_count l sys g algs k) as [H1 H2]. apply Hskip; [done|by rewrite H2|done].
  - cbn [contribute]. destruct (bool_decide_reflect (FAD_FlexAlgo f ∈ k_contributed k)) as [Hin|Hin].
    + destruct (bool_decide_reflect (g ∈ k_contributed k)) as [Hg|Hg]; [done|].
      unfold node_definition. cbn [first_found]. destruct (Z.eqb_spec (FAD_FlexAlgo f) g) as [E|_]; [by subst g|done].
    + destruct (Z.eqb_spec (FAD_FlexAlgo f) g) as [<-|Hne].
      * rewrite (bool_decide_false (FAD_FlexAlgo f ∈ k_contributed k)) by done.
        unfold node_definition at 2. cbn [first_found]. rewrite Z.eqb_refl. cbn [mbind option_bind].
        destruct (repeatedConstraint _); cbn [k_out k_contributed]; rewrite bool_decide_true by set_solver; [done|].
        rewrite standing_upd, decide_True by done. unfold stand. rewrite standing_default. cbn [stands_against].
        destruct (winsElection _ _); [done|]. apply standing_default.
      * apply Hskip.
        -- destruct (repeatedConstraint _); [done|]. cbn [k_out]. by rewrite standing_upd, decide_False.
        -- destruct (repeatedConstraint _); cbn [k_contributed]; set_solver.
        -- unfold node_definition. cbn [first_found]. by rewrite (proj2 (Z.eqb_neq _ _)).
Qed.

(** A definition some node of the database advertises for the algorithm. *)
Definition advertises (l : Level) (now g : Z) (ie : LSPID * lspEntry) : option ElectedDefinition :=
  if negb (live ie.2 now) || negb (LSPID_FragmentID ie.1 =? 0) then None
  else node_definition g (NodeID_SystemID (LSPID_NodeID ie.1)) (capabilities (LSP_TLVs (e_lsp ie.2))).

Lemma standing_node l now g out ie :
  standing g (contribute_node l now out ie) = stands_against (standing g out) (advertises l now g ie).
Proof.
  destruct ie as [id e]. unfold contribute_node, advertises. cbn [fst snd]. destruct (_ || _); [done|].
  rewrite standing_contribute. by rewrite bool_decide_false by (cbn; set_solver).
Qed.

(** [a] does not lose to [b]: it has the higher priority, or as high a one and as
    high a System ID. *)
Definition at_least (a b : ElectedDefinition) : Prop :=
  D_Priority b < D_Priority a \/
  (D_Priority b = D_Priority a /\ bytes_compare (D_Advertiser b) (D_Advertiser a) <> Gt).

Lemma winsElection_spec d b : if winsElection d (Some b) then at_least d b else at_least b d.
Proof.
  unfold winsElection, at_least. destruct (Z.eqb_spec (D_Priority d) (D_Priority b)) as [E|E]; cbn [negb].
  - pose proof (bytes_compare_antisym (D_Advertiser d) (D_Advertiser b)) as A.
    destruct (bytes_compare (D_Advertiser d) (D_Advertiser b)) eqn:C; right; (split; [lia|]); rewrite ?A, ?C; done.
  - destruct (Z.ltb_spec (D_Priority b) (D_Priority d)); left; lia.
Qed.

Lemma at_least_refl a : at_least a a.
Proof. right. split; [done|]. by rewrite bytes_compare_refl. Qed.

Lemma at_least_trans a b c : at_least a b -> at_least b c -> at_least a c.
Proof.
  intros [H1|[H1 K1]] [H2|[H2 K2]]; [left; lia..|]. right. split; [lia|]. by eapply bytes_compare_not_Gt_trans.
Qed.

(** C34: (RFC 9350 5.1) the definition a level elects for an algorithm, in whatever
    order its database is visited, is one some live node advertises first and
    without repeating a constraint, and no other such definition has a higher
    priority, or as high a one and a higher System ID; none is elected only when
    none is advertised. *)
Theorem flexAlgoState_elects l order now g :
  match flexAlgoState l order now !! g ≫= FI_Definition with
  | None => forall ie, ie ∈ order -> advertises l now g ie = None
  | Some d => (exists ie, ie ∈ order /\ advertises l now g ie = Some d) /\
              (forall ie d', ie ∈ order -> advertises l now g ie = Some d' -> at_least d d')
  end.
Proof.
  assert (E : flexAlgoState l order now !! g ≫= FI_Definition = standing g (fold_left (contribute_node l now) order ∅)).
  { unfold flexAlgoState, standing. rewrite lookup_fmap. by destruct (fold_left _ _ _ !! g). }
  rewrite E. clear E. induction order as [|ie order IH] using rev_ind.
  { cbn [fold_left]. unfold standing. rewrite lookup_empty. cbn [mbind option_bind]. intros ie Hie. by apply not_elem_of_nil in Hie. }
  rewrite fold_left_app. cbn [fold_left]. rewrite standing_node.
  assert (Hin : forall x, x ∈ order ++ [ie] <-> x ∈ order \/ x = ie) by (intros x; by rewrite elem_of_app, list_elem_of_singleton).
  unfold stands_against.
  destruct (advertises l now g ie) as [d|] eqn:Ea; destruct (standing g _) as [b|].
  - destruct IH as [(ie0 & Hi0 & H0) H1]. pose proof (winsElection_spec d b) as Hw.
    destruct (winsElection d (Some b)).
    + split; [exists ie; split; [apply Hin; by right|done]|]. intros x d' [Hx| ->]%Hin Hd'; [|rewrite Ea in Hd'; injection Hd' as ->; apply at_least_refl].
      eapply at_least_trans; [exact Hw|by eapply H1].
    + split; [exists ie0; split; [apply Hin; by left|done]|]. intros x d' [Hx| ->]%Hin Hd'; [by eapply H1|].
      rewrite Ea in Hd'. injection Hd' as <-. exact Hw.
  - cbn [winsElection]. split; [exists ie; split; [apply Hin; by right|done]|]. intros x d' [Hx| ->]%Hin Hd'.
    + by rewrite (IH x Hx) in Hd'.
    + rewrite Ea in Hd'. injection Hd' as <-. apply at_least_refl.
  - destruct IH as [(ie0 & Hi0 & H0) H1]. split; [exists ie0; split; [apply Hin; by left|done]|].
    intros x d' [Hx| ->]%Hin Hd'; [by eapply H1|congruence].
  - intros x [Hx| ->]%Hin; [by apply IH|done].
Qed.

(** A link of color 4 against a definition that excludes color 4. *)
Definition red_link : list SubTLV := [SubASLA false [16] [] [SubAdminGroup false [16]]].
Definition no_red : flexAlgoAffinity := mkAffinity [16] [] [].

Lemma prunesLink_colors_witness :
  (prunesLink no_red red_link).1 = true /\ exists i n, has_color [16] i n /\ has_color (flexAlgoLinkColors red_link) i n.
Proof.
  pose proof (prunesLink_colors no_red red_link) as H. cbv zeta in H. destruct H as [H _].
  1-4: by repeat constructor.
  assert (E : (prunesLink no_red red_link).1 = true) by (by vm_compute). split; [exact E|].
  destruct (H E) as [?|[[? _]|[? _]]]; done.
Defined.
