(* ===== verification/Rib.v ===== *)
(** pkg/server/rib.go: from the computed routes to the RIB, the forwarding table
    and the prefixes exchanged between the levels.

    The fields of [IsisServer] this file owns are the record [RIB].  The
    forwarding table is the interface [FIB] of pkg/fib/fib.go, whose
    implementations program a kernel.  The orders in which Go visits a map are
    parameters. *)

From stdpp Require Import sorting strings.
From S2P Require Import Prelude.
From S2P Require Import Netip.
From S2P Require Import Ids.
From S2P Require Import Sid.
From S2P Require Import SubTLV.
From S2P Require Import Entries.
From S2P Require Import Tlv.
From S2P Require Import Checksum.
From S2P Require Import Pdu.
From S2P Require Import Circuit.
From S2P Require Import Lsdb.
From S2P Require Import EdgeLog.
From S2P Require Import Server.
From S2P Require Import FlexAlgo.
From S2P Require Import Tent.
From S2P Require Import Topology.
From S2P Require Import Spf.
Local Open Scope Z_scope.

(** ** Data *)

(** config.go *)
Record AdvertisedPrefix : Set := mkAdvertised { AP_Prefix : Prefix; AP_Metric : Z }.
Record SRv6LocatorConfig : Set := mkLocatorConfig { LC_Prefix : Prefix; LC_Algo : Z }.
Record FlexAlgoConfig : Set := mkFlexAlgoConfig {
  FC_Algo : Z; FC_MetricType : Z; FC_Priority : Z; FC_AdvertiseDefinition : bool
}.

Record NextHopInfo : Set := mkNextHop { Interface : string; Gateway : Addr }.

Record RouteInfo : Set := mkRouteInfo {
  RI_Prefix : Prefix; RI_Metric : Z; RI_Level : Level; RI_Preference : Z; RI_Algorithm : Z;
  RI_NextHops : list NextHopInfo
}.

#[export] Instance NextHopInfo_eq_dec : EqDecision NextHopInfo.
Proof. solve_decision. Defined.
#[export] Instance RouteInfo_eq_dec : EqDecision RouteInfo.
Proof. solve_decision. Defined.

Abbreviation algoKey := (Level * Z)%type.

(** fib.go: [SIDBehavior], [LocalSID]. *)
Inductive SIDBehavior : Set := BehaviorEnd | BehaviorEndX | BehaviorEndDT4 | BehaviorEndDT6 | BehaviorEndDT46.
Record LocalSID : Set := mkLocalSID {
  LS_SID : Addr; LS_Behavior : SIDBehavior; LS_Table : Z; LS_Nexthop : Addr; LS_Interface : string
}.

(** fib.go: [FIB]; the boolean is whether the call returned no error. *)
Class FIB (F : Type) := {
  Update : F -> Prefix -> list NextHopInfo -> F * bool;
  Withdraw : F -> Prefix -> F * bool;
  Sweep : F -> (Prefix -> bool) -> F * bool;
  AddLocalSID : F -> LocalSID -> F * bool;
  RemoveLocalSID : F -> Addr -> F * bool
}.

(** fib.go: [Noop]. *)
#[export] Instance Noop : FIB unit := {
  Update f _ _ := (f, true); Withdraw f _ := (f, true); Sweep f _ := (f, true); AddLocalSID f _ := (f, true); RemoveLocalSID f _ := (f, true)
}.

(** metrics.go: the operations of [FIBError]. *)
Inductive fibOp : Set := fibOpUpdate | fibOpWithdraw | fibOpAddSID | fibOpRemoveSID.

Inductive rib_effect : Type :=
  | RouteEvent (r : RouteInfo) (withdrawn : bool)
  | FIBError (op : fibOp)
  | RouteCount (l : Level) (algo : Z) (n : nat)
  | InterLevelPrefixes (l2_to_l1 : bool) (n : nat)
  | FIBPending (n : nat)
  | RibWarned (what : string).

Record RIB (F : Type) : Type := mkRIB {
  flexAlgos : list FlexAlgoConfig;
  locators : list SRv6LocatorConfig;
  optionPrefixes : gmap Prefix AdvertisedPrefix;
  connected : gset Prefix;
  fib : F;
  rib : gmap Prefix RouteInfo;
  l1Export : gmap Prefix Z;
  l2Leak : gmap Prefix Z;
  fibPending : gset Prefix;
  fibInstalled : gset Prefix;
  algoWarned : gset algoKey;
  flexAlgoComputed : gset algoKey;
  l2LeakFilter : option (AdvertisedPrefix -> bool);
  fibFilter : option (RouteInfo -> bool);
  rib_trace : list rib_effect
}.
#[global] Arguments mkRIB {F}.
#[global] Arguments flexAlgos {F}.
#[global] Arguments locators {F}.
#[global] Arguments optionPrefixes {F}.
#[global] Arguments connected {F}.
#[global] Arguments fib {F}.
#[global] Arguments rib {F}.
#[global] Arguments l1Export {F}.
#[global] Arguments l2Leak {F}.
#[global] Arguments fibPending {F}.
#[global] Arguments fibInstalled {F}.
#[global] Arguments algoWarned {F}.
#[global] Arguments flexAlgoComputed {F}.
#[global] Arguments l2LeakFilter {F}.
#[global] Arguments fibFilter {F}.
#[global] Arguments rib_trace {F}.

Section State.
Context {F : Type}.

(** What the configuration names. *)
Definition set_config (b : RIB F) (fas : list FlexAlgoConfig) (lcs : list SRv6LocatorConfig)
    (prefixes : gmap Prefix AdvertisedPrefix) (conn : gset Prefix) : RIB F :=
  mkRIB fas lcs prefixes conn (fib b) (rib b) (l1Export b) (l2Leak b) (fibPending b) (fibInstalled b)
    (algoWarned b) (flexAlgoComputed b) (l2LeakFilter b) (fibFilter b) (rib_trace b).

(** The forwarding table and its bookkeeping. *)
Definition set_fib (b : RIB F) (f : F) (pending installed : gset Prefix) : RIB F :=
  mkRIB (flexAlgos b) (locators b) (optionPrefixes b) (connected b) f (rib b) (l1Export b) (l2Leak b) pending installed
    (algoWarned b) (flexAlgoComputed b) (l2LeakFilter b) (fibFilter b) (rib_trace b).
Definition set_rib (b : RIB F) (m : gmap Prefix RouteInfo) : RIB F :=
  mkRIB (flexAlgos b) (locators b) (optionPrefixes b) (connected b) (fib b) m (l1Export b) (l2Leak b) (fibPending b)
    (fibInstalled b) (algoWarned b) (flexAlgoComputed b) (l2LeakFilter b) (fibFilter b) (rib_trace b).
(** The sets origination reads. *)
Definition set_exchange (b : RIB F) (export leak : gmap Prefix Z) (computed : gset algoKey) : RIB F :=
  mkRIB (flexAlgos b) (locators b) (optionPrefixes b) (connected b) (fib b) (rib b) export leak (fibPending b)
    (fibInstalled b) (algoWarned b) computed (l2LeakFilter b) (fibFilter b) (rib_trace b).
Definition set_algoWarned (b : RIB F) (w : gset algoKey) : RIB F :=
  mkRIB (flexAlgos b) (locators b) (optionPrefixes b) (connected b) (fib b) (rib b) (l1Export b) (l2Leak b) (fibPending b)
    (fibInstalled b) w (flexAlgoComputed b) (l2LeakFilter b) (fibFilter b) (rib_trace b).
Definition rib_emit (b : RIB F) (e : rib_effect) : RIB F :=
  mkRIB (flexAlgos b) (locators b) (optionPrefixes b) (connected b) (fib b) (rib b) (l1Export b) (l2Leak b) (fibPending b)
    (fibInstalled b) (algoWarned b) (flexAlgoComputed b) (l2LeakFilter b) (fibFilter b) (rib_trace b ++ [e]).
End State.

(** ** Choosing between levels and algorithms *)

Definition betterRoute (candidate incumbent : route) : bool :=
  let c := preferenceClass candidate in
  let i := preferenceClass incumbent in
  if negb (c =? i) then c <? i else r_algo candidate <? r_algo incumbent.

Definition merge_computed (merged : gmap Prefix route) (computed : list (Prefix * route)) : gmap Prefix route :=
  fold_left (fun merged '(p, r) =>
    match merged !! p with
    | Some cur => if negb (betterRoute r cur) then merged else <[p := r]> merged
    | None => <[p := r]> merged
    end) computed merged.

(** [routingAlgos] *)
Definition routing_step (acc : gset Z * list Z) (fa : FlexAlgoConfig) : gset Z * list Z :=
  let '(seen, algos) := acc in
  if bool_decide (FC_Algo fa ∈ seen) then acc else ({[ FC_Algo fa ]} ∪ seen, algos ++ [FC_Algo fa]).
Definition routingAlgos {F} (b : RIB F) : list Z :=
  merge_sort Z.le (fold_left routing_step (flexAlgos b) ({[ 0 ]}, [0])).2.

(** ** Next hops *)

(** net/netip: [Addr.String]. *)
Definition decimal_octet (x : Z) : bytes :=
  (if 100 <=? x then [48 + x / 100] else []) ++ (if 10 <=? x then [48 + (x / 10) mod 10] else []) ++ [48 + x mod 10].
Definition string4 (b : bytes) : bytes :=
  match b with
  | [w; x; y; z] => decimal_octet w ++ [46] ++ decimal_octet x ++ [46] ++ decimal_octet y ++ [46] ++ decimal_octet z
  | _ => []
  end.
Fixpoint hextets (b : bytes) : list Z :=
  match b with x :: y :: b => (256 * x + y) :: hextets b | _ => [] end.
Definition string_hex (x : Z) : bytes :=
  (if 4096 <=? x then [hex_digit (x / 4096)] else []) ++ (if 256 <=? x then [hex_digit ((x / 256) mod 16)] else []) ++
  (if 16 <=? x then [hex_digit ((x / 16) mod 16)] else []) ++ [hex_digit (x mod 16)].
Fixpoint zero_run (h : list Z) : nat :=
  match h with x :: h => if x =? 0 then S (zero_run h) else O | [] => O end.
(** The first of the longest runs of two or more zeros, as its start and end. *)
Definition zero_step (h : list Z) (best : nat * nat) (i : nat) : nat * nat :=
  let l := zero_run (drop i h) in
  if (2 <=? l)%nat && (snd best - fst best <? l)%nat then (i, (i + l)%nat) else best.
Definition longest_zeros (h : list Z) : nat * nat :=
  fold_left (zero_step h) (seq 0 8) (255%nat, 255%nat).
Fixpoint string6_loop (n i start stop : nat) (h : list Z) : bytes :=
  match n with
  | O => []
  | S n =>
      if (8 <=? i)%nat then [] else
      if (i =? start)%nat then
        [58; 58] ++ (if (8 <=? stop)%nat then [] else string_hex (nth stop h 0) ++ string6_loop n (S stop) start stop h)
      else (if (0 <? i)%nat then [58] else []) ++ string_hex (nth i h 0) ++ string6_loop n (S i) start stop h
  end.
Definition Addr_String (a : Addr) : bytes :=
  match a with
  | AddrZero => [105; 110; 118; 97; 108; 105; 100; 32; 73; 80]
  | Addr4 b => string4 b
  | Addr6 b =>
      if Is4In6 a then [58; 58; 102; 102; 102; 102; 58] ++ string4 (drop 12 b)
      else let h := hextets b in let z := longest_zeros h in string6_loop 8 0 (fst z) (snd z) h
  end.

Definition routesFamily (nlpids : option bytes) (v4 : bool) : bool :=
  let l := default [] nlpids in
  if (length l =? 0)%nat then true
  else existsb (fun x => x =? (if v4 then NLPIDIPv4 else NLPIDIPv6)) l.

(** Any connected prefix will do, so the order of the map does not matter. *)
Definition pickGateway (addrs : list Addr) (v4 : bool) (connected : gset Prefix) : Addr :=
  match List.find (fun a =>
          if v4 then existsb (fun p => Is4 (p_addr p) && Contains p a) (elements connected)
          else IsLinkLocalUnicast a) addrs with
  | Some a => a
  | None => match addrs with a :: _ => a | [] => AddrZero end
  end.

Definition addrFamily (p : Prefix) : string := if Is4 (p_addr p) then "ipv4" else "ipv6".

(** [c.cfg.Name + "|" + gw.String()] *)
Definition hop_key (nh : NextHopInfo) : bytes * bytes :=
  (map (fun c => Z.of_N (Ascii.N_of_ascii c)) (String.list_ascii_of_string (Interface nh)), Addr_String (Gateway nh)).

(** The order of [sort.Slice]. *)
Definition nexthop_le (a b : NextHopInfo) : Prop :=
  if decide (Interface a = Interface b)
  then bytes_compare (Addr_String (Gateway a)) (Addr_String (Gateway b)) <> Gt
  else bytes_compare (hop_key a).1 (hop_key b).1 <> Gt.
#[export] Instance nexthop_le_dec (a b : NextHopInfo) : Decision (nexthop_le a b).
Proof. unfold nexthop_le. destruct (decide _); solve_decision. Defined.

(** The next hop through one first-hop system. *)
Definition resolve_hop {F} (s : Server) (b : RIB F) (v4 : bool) (h : SystemID) : option NextHopInfo :=
  '(adj, j) ← findAdjacency s h;
  c ← circuits s !! j;
  if negb (routesFamily (a_nlpids adj) v4) then None else
  let gw := pickGateway (if v4 then a_neighborIPv4 adj else a_neighborIPv6 adj) v4 (connected b) in
  if negb (IsValid gw) then None else Some (mkNextHop (Name (cfg c)) gw).

Definition resolve_step {F} (s : Server) (b : RIB F) (v4 : bool) (acc : list (bytes * bytes) * list NextHopInfo) (h : SystemID)
  : list (bytes * bytes) * list NextHopInfo :=
  let '(seen, out) := acc in
  match resolve_hop s b v4 h with
  | None => acc
  | Some nh => if bool_decide (hop_key nh ∈ seen) then acc else (hop_key nh :: seen, out ++ [nh])
  end.

Definition resolveNextHops {F} (s : Server) (b : RIB F) (p : Prefix) (hops : list SystemID) : list NextHopInfo :=
  merge_sort nexthop_le (fold_left (resolve_step s b (Is4 (p_addr p))) hops ([], [])).2.

(** ** What crosses the levels *)

Definition ownAdvertised {F} (b : RIB F) : gset Prefix :=
  dom (optionPrefixes b) ∪ connected b ∪ list_to_set (map (fun lc => Masked (LC_Prefix lc)) (locators b)).

Definition both_levels (s : Server) : bool := levelSet_has (levelCap s) Level1 && levelSet_has (levelCap s) Level2.

Definition is_default (p : Prefix) : bool := bool_decide (p = defaultV4) || bool_decide (p = defaultV6).

(** What the [switch] of [l1ExportSet] lets through. *)
Definition exported (own : gset Prefix) (p : Prefix) (r : route) : option Z :=
  if negb (bool_decide (r_level r = Level1)) || negb (r_algo r =? 0) then None
  else if r_down r then None
  else if r_mt r then None
  else if is_default p then None
  else if bool_decide (p ∈ own) then None
  else Some (r_metric r).

Definition l1ExportSet {F} (s : Server) (b : RIB F) (merged : gmap Prefix route) : gmap Prefix Z :=
  if negb (both_levels s) then ∅ else map_imap (exported (ownAdvertised b)) merged.

Definition leaked (filter : AdvertisedPrefix -> bool) (own : gset Prefix) (merged : gmap Prefix route)
    (p : Prefix) (r : route) : option Z :=
  if r_mt r then None
  else if is_default p then None
  else if bool_decide (p ∈ own) then None
  else if match merged !! p with
          | Some cur => bool_decide (r_level cur = Level1) && (r_algo cur =? 0)
          | None => false
          end then None
  else if negb (filter (mkAdvertised p (r_metric r))) then None
  else Some (r_metric r).

Definition l2LeakSet {F} (s : Server) (b : RIB F) (merged l2 : gmap Prefix route) : gmap Prefix Z :=
  match l2LeakFilter b with
  | None => ∅
  | Some filter =>
      if negb (both_levels s) then ∅ else map_imap (leaked filter (ownAdvertised b) merged) l2
  end.

(** ** The forwarding table *)

Fixpoint sameHops (a b : list NextHopInfo) : bool :=
  match a, b with
  | [], [] => true
  | x :: a, y :: b => bool_decide (x = y) && sameHops a b
  | _, _ => false
  end.

Definition sameRoute (a b : RouteInfo) : bool :=
  if negb (RI_Metric a =? RI_Metric b) || negb (RI_Algorithm a =? RI_Algorithm b) ||
     negb (length (RI_NextHops a) =? length (RI_NextHops b))%nat
  then false else sameHops (RI_NextHops a) (RI_NextHops b).

Section Program.
Context {F : Type} `{FIB F}.
(** Whether someone watches: [len(s.watchers) > 0]. *)
Context (watch : bool).

Definition emitRoute (b : RIB F) (r : RouteInfo) (withdrawn : bool) : RIB F :=
  if watch then rib_emit b (RouteEvent r withdrawn) else b.

(** [s.fib.Withdraw(p)], its error, and [delete(s.fibInstalled, p)]. *)
Definition withdraw_installed (b : RIB F) (p : Prefix) : RIB F :=
  if bool_decide (p ∈ fibInstalled b) then
    let '(f, ok) := Withdraw (fib b) p in
    let b := set_fib b f (fibPending b) (fibInstalled b) in
    let b := if ok : bool then b else rib_emit b (FIBError fibOpWithdraw) in
    set_fib b (fib b) (fibPending b) (fibInstalled b ∖ {[ p ]})
  else b.

Definition clear_pending (b : RIB F) (p : Prefix) : RIB F :=
  set_fib b (fib b) (fibPending b ∖ {[ p ]}) (fibInstalled b).

(** [s.fib.Update(p, nhs)] and its bookkeeping. *)
Definition write_route (b : RIB F) (p : Prefix) (r : RouteInfo) : RIB F :=
  let '(f, ok) := Update (fib b) p (RI_NextHops r) in
  if ok : bool then set_fib b f (fibPending b ∖ {[ p ]}) ({[ p ]} ∪ fibInstalled b)
  else rib_emit (set_fib b f ({[ p ]} ∪ fibPending b) (fibInstalled b)) (FIBError fibOpUpdate).

Definition changed (b : RIB F) (p : Prefix) (r : RouteInfo) : bool :=
  match rib b !! p with Some old => negb (sameRoute old r) | None => true end.

Definition accepted (b : RIB F) (r : RouteInfo) : bool :=
  match fibFilter b with Some ok => ok r | None => true end.

Definition program_route (b : RIB F) (pr : Prefix * RouteInfo) : RIB F :=
  let '(p, r) := pr in
  let ch := changed b p r in
  let b := if ch then emitRoute b r false else b in
  if negb (accepted b r) then clear_pending (withdraw_installed b p) p
  else if negb ch && bool_decide (p ∈ fibInstalled b) && negb (bool_decide (p ∈ fibPending b)) then b
  else write_route b p r.

Definition program_gone (next : gmap Prefix RouteInfo) (b : RIB F) (pr : Prefix * RouteInfo) : RIB F :=
  let '(p, old) := pr in
  if bool_decide (is_Some (next !! p)) then b
  else clear_pending (withdraw_installed (emitRoute b old true) p) p.

(** The order in which the [k]-th loop visits a map. *)
Context (info_order : nat -> gmap Prefix RouteInfo -> list (Prefix * RouteInfo)).

Definition programFIB (b : RIB F) (next : gmap Prefix RouteInfo) : RIB F :=
  let b := fold_left program_route (info_order 0%nat next) b in
  fold_left (program_gone next) (info_order 1%nat (rib b)) b.

End Program.

(** ** The update *)

Section Update.
Context {F : Type} `{FIB F}.
Context (info_order : nat -> gmap Prefix RouteInfo -> list (Prefix * RouteInfo)).
Context {T : Type} `{TentativeSet T}.
Context (db_order : Level -> Z -> nat -> lsdb -> list (LSPID * lspEntry)).
Context (done_order : Level -> Z -> nat -> settled -> list (NodeID * (Z * gset SystemID))).
Context (route_order : nat -> gmap Prefix route -> list (Prefix * route)).

(** Why an algorithm is not computed at a level, or the affinity it is computed
    with. *)
Definition algo_gate (fi : option FlexAlgoInfo) : string + flexAlgoAffinity :=
  match fi ≫= FI_Definition with
  | None => inl "flex-algo has no definition at this level; not computing routes, not participating"%string
  | Some d =>
      if negb (D_MetricType d =? FlexAlgoMetricIGP)
      then inl "flex-algo metric-type unsupported; not computing routes, not participating"%string
      else match flexAlgoAffinityOf d with
           | None => inl "flex-algo constraint unsupported; not computing routes, not participating"%string
           | Some aff => inr aff
           end
  end.

(** The variables of the loops over levels and algorithms. *)
Record pass : Type := mkPass {
  merged : gmap Prefix route; l2Reach : gmap Prefix route; computedAlgos : gset algoKey; of_rib : RIB F
}.

(** [s.computeSPF(level, algo, aff, now)] merged in. *)
Definition compute_algo (s : Server) (now : Z) (l : Level) (algo : Z) (aff : flexAlgoAffinity) (x : pass) : outcome pass :=
  computed ← computeSPF (T := T) (db_order l algo) (done_order l algo) s l algo aff now;
  let l2 := if bool_decide (l = Level2) && (algo =? 0) then computed else l2Reach x in
  mret (mkPass (merge_computed (merged x) (route_order 0%nat computed)) l2 (computedAlgos x) (of_rib x)).

Definition algo_turn (s : Server) (now : Z) (l : Level) (state : gmap Z FlexAlgoInfo) (algo : Z) (x : pass) : outcome pass :=
  if algo =? 0 then compute_algo s now l algo no_affinity x else
  match algo_gate (state !! algo) with
  | inl why =>
      let '(w, fired) := edge_warn (l, algo) (algoWarned (of_rib x)) in
      let b := set_algoWarned (of_rib x) w in
      mret (mkPass (merged x) (l2Reach x) (computedAlgos x) (if fired : bool then rib_emit b (RibWarned why) else b))
  | inr aff =>
      compute_algo s now l algo aff
        (mkPass (merged x) (l2Reach x) ({[ (l, algo) ]} ∪ computedAlgos x)
           (set_algoWarned (of_rib x) (edge_clear (l, algo) (algoWarned (of_rib x)))))
  end.

Fixpoint algo_loop (s : Server) (now : Z) (l : Level) (state : gmap Z FlexAlgoInfo) (algos : list Z) (x : pass) : outcome pass :=
  match algos with
  | [] => mret x
  | algo :: algos => x ← algo_turn s now l state algo x; algo_loop s now l state algos x
  end.

(** The order in which [flexAlgoState] visits the database. *)
Context (fa_order : Level -> lsdb -> list (LSPID * lspEntry)).

Definition level_turn (s : Server) (now : Z) (algos : list Z) (l : Level) (x : pass) : outcome pass :=
  match dbs s !! l with
  | None => mret x
  | Some db => algo_loop s now l (flexAlgoState l (fa_order l db) now) algos x
  end.

(** [next]: the merged routes that resolve. *)
Definition next_route (s : Server) (b : RIB F) (p : Prefix) (r : route) : option RouteInfo :=
  if bool_decide (Masked p ∈ connected b) then None else
  let nhs := resolveNextHops s b p (r_nextHops r) in
  if (length nhs =? 0)%nat then None
  else Some (mkRouteInfo p (r_metric r) (r_level r) (preferenceClass r) (r_algo r) nhs).

Definition unresolved (s : Server) (b : RIB F) (p : Prefix) (r : route) : bool :=
  negb (bool_decide (Masked p ∈ connected b)) && (length (resolveNextHops s b p (r_nextHops r)) =? 0)%nat &&
  existsb (fun h => bool_decide (is_Some (findAdjacency s h))) (r_nextHops r).

Definition warn_unresolved (s : Server) (b : RIB F) (pr : Prefix * route) : RIB F :=
  let '(p, r) := pr in
  if unresolved s b p r then rib_emit b (RibWarned "route has no resolvable next hop") else b.

Definition count_routes (next : gmap Prefix RouteInfo) (l : Level) (algo : Z) : nat :=
  size (filter (fun '(_, r) => RI_Level r = l /\ RI_Algorithm r = algo) next).

(** The gauges, of every level and algorithm in a fixed order. *)
Definition report_counts (s : Server) (algos : list Z) (next : gmap Prefix RouteInfo) (b : RIB F) : RIB F :=
  fold_left (fun b '(l, algo) => rib_emit b (RouteCount l algo (count_routes next l algo)))
    (List.filter (fun l => bool_decide (is_Some (dbs s !! l))) [Level1; Level2] ≫= fun l => map (pair l) algos) b.

Definition set_pendingGen (s : Server) (pending : bool) : Server := set_gen s (spfDirty s) pending (nextLSPGen s).

Definition updateRIB (s : Server) (b : RIB F) (now : Z) : outcome (Server * RIB F) :=
  let algos := routingAlgos b in
  x ← level_turn s now algos Level1 (mkPass ∅ ∅ ∅ b);
  x ← level_turn s now algos Level2 x;
  let merged := merged x in
  let b := of_rib x in
  let s1 := set_pendingGen s (lspGenPending s || negb (bool_decide (computedAlgos x = flexAlgoComputed b))) in
  let b := set_exchange b (l1Export b) (l2Leak b) (computedAlgos x) in
  let b := fold_left (warn_unresolved s) (route_order 1%nat merged) b in
  let next := map_imap (next_route s b) merged in
  let b := set_rib (programFIB (watched s) info_order b next) next in
  let b := report_counts s algos next b in
  let export := l1ExportSet s b merged in
  let s2 := set_pendingGen s1 (lspGenPending s1 || negb (bool_decide (export = l1Export b))) in
  let b := set_exchange b export (l2Leak b) (flexAlgoComputed b) in
  let leak := l2LeakSet s b merged (l2Reach x) in
  let s3 := set_pendingGen s2 (lspGenPending s2 || negb (bool_decide (leak = l2Leak b))) in
  let b := set_exchange b (l1Export b) leak (flexAlgoComputed b) in
  let b := rib_emit (rib_emit b (InterLevelPrefixes true (size leak))) (InterLevelPrefixes false (size export)) in
  mret (s3, b).
End Update.
