(* ===== verification/RibSpec.v ===== *)
(** The RIB and the forwarding table: what [programFIB] keeps in step, and which
    route [updateRIB] selects. *)

From stdpp Require Import sorting strings.
From S2P Require Import Prelude.
From S2P Require Import Netip.
From S2P Require Import Ids.
From S2P Require Import Sid.
From S2P Require Import SubTLV.
From S2P Require Import Entries.
From S2P Require Import Tlv.
From S2P Require Import Checksum.
From S2P Require Import Pdu.
From S2P Require Import Circuit.
From S2P Require Import Lsdb.
From S2P Require Import EdgeLog.
From S2P Require Import Server.
From S2P Require Import FlexAlgo.
From S2P Require Import Tent.
From S2P Require Import Topology.
From S2P Require Import Spf.
From S2P Require Import Rib.
Local Open Scope Z_scope.

(** ** The forwarding table *)

(** What fib.go documents of an implementation: the table it holds, and that a
    call which reports an error has not changed it.  Local SIDs are not routes of
    the table; a sweep removes, and one that fails may have removed any part of what it should. *)
Class FIBLaws (F : Type) `{FIB F} (table : F -> gmap Prefix (list NextHopInfo)) : Prop := {
  update_installs f p nhs : nhs <> [] -> (Update f p nhs).2 = true -> table (Update f p nhs).1 = <[p := nhs]> (table f);
  update_fails f p nhs : (Update f p nhs).2 = false -> table (Update f p nhs).1 = table f;
  withdraw_removes f p : (Withdraw f p).2 = true -> table (Withdraw f p).1 = delete p (table f);
  withdraw_fails f p : (Withdraw f p).2 = false -> table (Withdraw f p).1 = table f;
  sweep_removes f keep : (Sweep f keep).2 = true -> table (Sweep f keep).1 = filter (fun pn => keep pn.1 = true) (table f);
  sweep_only f keep : table (Sweep f keep).1 ⊆ table f;
  add_keeps f ls : table (AddLocalSID f ls).1 = table f;
  remove_keeps f a : table (RemoveLocalSID f a).1 = table f
}.

(** A fold that rewrites one key at a time. *)
Section Keys.
Context {B S A : Type} (st : B -> Prefix -> S) (f : B -> Prefix * A -> B) (I : B -> Prop).
Context (ok : Prefix -> A -> Prop) (R : Prefix -> A -> S -> S -> Prop).
Context (step : forall b p a, ok p a -> I b -> I (f b (p, a)) /\ R p a (st b p) (st (f b (p, a)) p) /\
                              forall q, q <> p -> st (f b (p, a)) q = st b q).

Lemma fold_keys xs b :
  I b -> NoDup xs.*1 -> (forall p a, (p, a) ∈ xs -> ok p a) ->
  I (fold_left f xs b) /\ (forall p a, (p, a) ∈ xs -> R p a (st b p) (st (fold_left f xs b) p)) /\
  (forall q, q ∉ xs.*1 -> st (fold_left f xs b) q = st b q).
Proof using step.
  revert b. induction xs as [|[p a] xs IH]; intros b HI Hnd Hok.
  { split; [done|]. split; [|done]. intros p a H. by apply not_elem_of_nil in H. }
  cbn [fold_left fmap list_fmap fst] in *. apply NoDup_cons in Hnd as [Hp Hnd].
  destruct (step b p a (Hok p a (list_elem_of_here _ _)) HI) as (S1 & S2 & S3).
  destruct (IH _ S1 Hnd (fun q c Hq => Hok q c (list_elem_of_further _ _ _ Hq))) as (H1 & H2 & H3). split; [done|]. split.
  - intros q c [[= -> ->]|Hq]%elem_of_cons; [by rewrite H3|].
    rewrite <- S3; [by apply H2|]. intros ->. apply Hp. by apply (list_elem_of_fmap_2 fst) in Hq.
  - intros q [Hq1 Hq2]%not_elem_of_cons. by rewrite H3, S3.
Qed.
End Keys.

Section Program.
Context (watch : bool).
Context {F : Type} `{FIB F} (table : F -> gmap Prefix (list NextHopInfo)).

(** What the table, [fibInstalled] and [fibPending] hold of a prefix. *)
Record status : Type := mkStatus { s_table : option (list NextHopInfo); s_installed : bool; s_pending : bool }.

Definition status_of (b : RIB F) (p : Prefix) : status :=
  mkStatus (table (fib b) !! p) (bool_decide (p ∈ fibInstalled b)) (bool_decide (p ∈ fibPending b)).

(** The forwarding table against the routes it was programmed from: nothing but
    what is installed, and that up to date unless it is pending. *)
Definition agrees (old : option RouteInfo) (st : status) : Prop :=
  (s_installed st = false -> s_table st = None) /\
  (s_installed st = true -> s_pending st = false -> s_table st = RI_NextHops <$> old) /\
  (old = None -> s_installed st = false /\ s_pending st = false).

Definition synced (b : RIB F) : Prop := forall p, agrees (rib b !! p) (status_of b p).

(** What the table should hold. *)
Definition wanted (b : RIB F) (next : gmap Prefix RouteInfo) (p : Prefix) : option (list NextHopInfo) :=
  r ← next !! p; if accepted b r then Some (RI_NextHops r) else None.

Definition same_setup (b0 b : RIB F) : Prop := rib b = rib b0 /\ fibFilter b = fibFilter b0.

Lemma sameHops_eq xs ys : sameHops xs ys = true <-> xs = ys.
Proof using.
  revert ys. induction xs as [|x xs IH]; intros [|y ys]; cbn [sameHops]; try done.
  rewrite andb_true_iff, bool_decide_eq_true, IH. split; [by intros [-> ->]|by intros [= -> ->]].
Qed.

Lemma sameRoute_hops a b : sameRoute a b = true -> RI_NextHops a = RI_NextHops b.
Proof using. unfold sameRoute. destruct (_ || _); [done|]. by intros ->%sameHops_eq. Qed.

Lemma status_emitRoute b r w q : status_of (emitRoute watch b r w) q = status_of b q.
Proof using. unfold emitRoute. destruct watch; reflexivity. Qed.

Lemma setup_emitRoute b0 b r w : same_setup b0 b -> same_setup b0 (emitRoute watch b r w).
Proof using. unfold emitRoute. intros Hs. destruct watch; exact Hs. Qed.

Lemma status_clear b p q :
  status_of (clear_pending b p) q = if decide (q = p) then mkStatus (s_table (status_of b p)) (s_installed (status_of b p)) false
                                    else status_of b q.
Proof using.
  unfold status_of, clear_pending. cbn [set_fib fib fibInstalled fibPending s_table s_installed]. destruct (decide _) as [->|Hq].
  - f_equal. apply bool_decide_eq_false. set_solver.
  - f_equal. apply bool_decide_ext. set_solver.
Qed.

Context `{!FIBLaws F table}.

Lemma write_status b0 b p r :
  RI_NextHops r <> [] -> same_setup b0 b ->
  same_setup b0 (write_route b p r) /\
  (status_of (write_route b p r) p = mkStatus (Some (RI_NextHops r)) true false \/
   status_of (write_route b p r) p = mkStatus (s_table (status_of b p)) (s_installed (status_of b p)) true) /\
  forall q, q <> p -> status_of (write_route b p r) q = status_of b q.
Proof using FIBLaws0.
  intros Hr Hs. unfold write_route. pose proof (update_installs (fib b) p _ Hr) as Ht. pose proof (update_fails (fib b) p (RI_NextHops r)) as Hf.
  destruct (Update (fib b) p (RI_NextHops r)) as [f []]; cbn [fst snd] in *; (split; [done|]);
    unfold status_of; cbn [set_fib rib_emit fib fibInstalled fibPending s_installed s_table].
  - rewrite (Ht eq_refl), lookup_insert_eq. split.
    + left. f_equal; [apply bool_decide_eq_true|apply bool_decide_eq_false]; set_solver.
    + intros q Hq. rewrite lookup_insert_ne by done. f_equal; apply bool_decide_ext; set_solver.
  - rewrite (Hf eq_refl). split.
    + right. f_equal. apply bool_decide_eq_true. set_solver.
    + intros q Hq. f_equal. apply bool_decide_ext. set_solver.
Qed.

(** A withdrawal forgets the prefix as installed whether or not it succeeds. *)
Lemma withdraw_any b0 b p :
  same_setup b0 b ->
  same_setup b0 (withdraw_installed b p) /\
  forall q, status_of (withdraw_installed b p) q =
    if decide (q = p) then
      mkStatus (if s_installed (status_of b p) && (Withdraw (fib b) p).2 then None else s_table (status_of b p)) false
        (s_pending (status_of b p))
    else status_of b q.
Proof using FIBLaws0.
  intros Hs. unfold withdraw_installed. destruct (bool_decide_reflect (p ∈ fibInstalled b)) as [Hin|Hin].
  - pose proof (withdraw_removes (fib b) p) as Ht. pose proof (withdraw_fails (fib b) p) as Hf.
    destruct (Withdraw (fib b) p) as [f ok]. cbn [fst snd] in *. split; [by destruct ok|]. intros q.
    assert (Hq : forall q, table f !! q = if decide (q = p) then (if ok then None else table (fib b) !! p) else table (fib b) !! q).
    { intros q'. destruct ok; [rewrite (Ht eq_refl)|rewrite (Hf eq_refl)]; destruct (decide (q' = p)) as [->|Hne];
        by rewrite ?lookup_delete_eq, ?lookup_delete_ne by done. }
    assert (E : status_of (set_fib (if ok then set_fib b f (fibPending b) (fibInstalled b)
        else rib_emit (set_fib b f (fibPending b) (fibInstalled b)) (FIBError fibOpWithdraw)) f (fibPending b) (fibInstalled b ∖ {[ p ]})) q =
      mkStatus (table f !! q) (bool_decide (q ∈ fibInstalled b ∖ {[ p ]})) (bool_decide (q ∈ fibPending b))) by (by destruct ok).
    replace (fib (if ok then _ else _)) with f by (by destruct ok).
    replace (fibPending (if ok then _ else _)) with (fibPending b) by (by destruct ok).
    replace (fibInstalled (if ok then _ else _)) with (fibInstalled b) by (by destruct ok).
    rewrite E, Hq. unfold status_of. cbn [s_table s_installed s_pending]. destruct (decide (q = p)) as [->|Hne].
    + rewrite (bool_decide_true (p ∈ fibInstalled b)) by done. f_equal. apply bool_decide_eq_false. set_solver.
    + f_equal. apply bool_decide_ext. set_solver.
  - split; [done|]. intros q. destruct (decide (q = p)) as [->|]; [|done]. unfold status_of.
    cbn [s_installed s_pending s_table]. by rewrite !(bool_decide_false (p ∈ fibInstalled b)).
Qed.

(** One step touches its own prefix only. *)
Lemma route_others b0 b p r :
  RI_NextHops r <> [] -> same_setup b0 b ->
  same_setup b0 (program_route watch b (p, r)) /\
  forall q, q <> p -> status_of (program_route watch b (p, r)) q = status_of b q.
Proof using FIBLaws0.
  intros Hne Hs. unfold program_route. cbv zeta. set (b1 := if changed b p r then emitRoute watch b r false else b).
  assert (H1 : same_setup b0 b1) by (unfold b1; destruct (changed b p r); [by apply setup_emitRoute|done]).
  assert (E1 : forall q, status_of b1 q = status_of b q) by (intros q; unfold b1; destruct (changed b p r); [apply status_emitRoute|done]).
  destruct (accepted b1 r); cbn [negb].
  - destruct (negb (changed b p r) && _ && _); [done|]. destruct (write_status b0 b1 p r Hne H1) as (W1 & _ & W3).
    split; [done|]. intros q Hq. by rewrite W3, E1.
  - destruct (withdraw_any b0 b1 p H1) as [W1 W2]. split; [done|]. intros q Hq.
    by rewrite status_clear, decide_False, W2, decide_False, E1 by done.
Qed.

Lemma gone_any b0 next b p old :
  same_setup b0 b ->
  same_setup b0 (program_gone watch next b (p, old)) /\
  (next !! p = None -> status_of (program_gone watch next b (p, old)) p =
    mkStatus (if s_installed (status_of b p) && (Withdraw (fib b) p).2 then None else s_table (status_of b p)) false false) /\
  forall q, q <> p -> status_of (program_gone watch next b (p, old)) q = status_of b q.
Proof using FIBLaws0.
  intros Hs. unfold program_gone. destruct (next !! p) as [r|]; [by rewrite bool_decide_true by done|].
  rewrite bool_decide_false by by intros [].
  destruct (withdraw_any b0 (emitRoute watch b old true) p (setup_emitRoute _ _ _ _ Hs)) as [W1 W2]. split; [done|]. split.
  - intros _. rewrite status_clear, decide_True, W2, decide_True, !status_emitRoute by done.
    unfold emitRoute. by destruct watch.
  - intros q Hq. by rewrite status_clear, decide_False, W2, decide_False, status_emitRoute by done.
Qed.

Lemma routes_others b0 xs b q :
  Forall (fun pr => RI_NextHops pr.2 <> []) xs -> q ∉ xs.*1 -> same_setup b0 b ->
  same_setup b0 (fold_left (program_route watch) xs b) /\ status_of (fold_left (program_route watch) xs b) q = status_of b q.
Proof using FIBLaws0.
  intros Hne. revert b. induction Hne as [|[p r] xs Hr _ IH]; intros b Hq Hs; [done|].
  cbn [fold_left fmap list_fmap fst] in *. apply not_elem_of_cons in Hq as [Hqp Hq].
  destruct (route_others b0 b p r Hr Hs) as [S1 E1]. destruct (IH _ Hq S1) as [S2 E2]. split; [done|]. by rewrite E2, E1.
Qed.

Lemma gones_others b0 next xs b q :
  q ∉ xs.*1 -> same_setup b0 b ->
  same_setup b0 (fold_left (program_gone watch next) xs b) /\
  status_of (fold_left (program_gone watch next) xs b) q = status_of b q.
Proof using FIBLaws0.
  revert b. induction xs as [|[p r] xs IH]; intros b Hq Hs; [done|].
  cbn [fold_left fmap list_fmap fst] in *. apply not_elem_of_cons in Hq as [Hqp Hq].
  destruct (gone_any b0 next b p r Hs) as (S1 & _ & E1). destruct (IH _ Hq S1) as [S2 E2]. split; [done|]. by rewrite E2, E1.
Qed.

Context (reliable : forall f p, (Withdraw f p).2 = true).

Lemma withdraw_status b0 b p :
  same_setup b0 b ->
  same_setup b0 (withdraw_installed b p) /\
  forall q, status_of (withdraw_installed b p) q =
    if decide (q = p) then
      mkStatus (if s_installed (status_of b p) then None else s_table (status_of b p)) false (s_pending (status_of b p))
    else status_of b q.
Proof using FIBLaws0 reliable.
  intros Hs. destruct (withdraw_any b0 b p Hs) as [W1 W2]. split; [done|]. intros q. by rewrite W2, reliable, andb_true_r.
Qed.

(** One route of [next]. *)
Definition programmed (b0 : RIB F) (p : Prefix) (r : RouteInfo) (st st' : status) : Prop :=
  agrees (rib b0 !! p) st ->
  (s_installed st' = false -> s_table st' = None) /\
  (s_pending st' = false -> s_table st' = if accepted b0 r then Some (RI_NextHops r) else None) /\
  (s_installed st' = true -> accepted b0 r = true) /\ (s_pending st' = true -> accepted b0 r = true).

Lemma program_step b0 (next : gmap Prefix RouteInfo) b p r :
  map_Forall (fun _ r => RI_NextHops r <> []) next -> next !! p = Some r -> same_setup b0 b ->
  same_setup b0 (program_route watch b (p, r)) /\
  programmed b0 p r (status_of b p) (status_of (program_route watch b (p, r)) p) /\
  forall q, q <> p -> status_of (program_route watch b (p, r)) q = status_of b q.
Proof using FIBLaws0 reliable.
  intros Hne Hp Hs. specialize (Hne p r Hp). cbn in Hne. unfold program_route. set (ch := changed b p r). cbv zeta.
  set (b1 := if ch then emitRoute watch b r false else b).
  assert (H1 : same_setup b0 b1) by (unfold b1; destruct ch; [by apply setup_emitRoute|done]).
  assert (E1 : forall q, status_of b1 q = status_of b q) by (intros q; unfold b1; destruct ch; [apply status_emitRoute|done]).
  assert (Ea : accepted b1 r = accepted b0 r) by (unfold accepted; by rewrite (proj2 H1)).
  rewrite Ea. destruct (accepted b0 r) eqn:Eacc; cbn [negb].
  - destruct (negb ch && _ && _) eqn:Ekeep.
    + apply andb_true_iff in Ekeep as [[Hch Hi]%andb_true_iff Hpd].
      split; [done|]. split; [|by intros]. rewrite E1. intros (A1 & A2 & A3). rewrite Eacc. split; [done|]. split; [|done].
      assert (Ei : s_installed (status_of b p) = true) by (rewrite <- E1; exact Hi).
      assert (Ep : s_pending (status_of b p) = false) by (rewrite <- E1; by apply negb_true_iff).
      intros _. rewrite (A2 Ei Ep). unfold ch, changed in Hch. rewrite (proj1 Hs) in Hch.
      destruct (rib b0 !! p) as [old|]; [|done]. rewrite negb_involutive in Hch. cbn. by rewrite (sameRoute_hops _ _ Hch).
    + destruct (write_status b0 b1 p r Hne H1) as (W1 & W2 & W3). split; [done|].
      split; [|intros q Hq; by rewrite W3, E1]. rewrite E1 in W2. intros (A1 & _ & _). rewrite Eacc. by destruct W2 as [-> | ->].
  - destruct (withdraw_status b0 b1 p H1) as [W1 W2]. split; [done|]. split.
    + intros (A1 & _ & _). rewrite Eacc, status_clear, decide_True, W2, decide_True by done.
      cbn [s_installed s_pending s_table]. rewrite E1.
      assert (Et : (if s_installed (status_of b p) then None else s_table (status_of b p)) = None)
        by (destruct (s_installed (status_of b p)); [done|by apply A1]).
      by rewrite Et.
    + intros q Hq. by rewrite status_clear, decide_False, W2, decide_False, E1 by done.
Qed.

(** One route of the old RIB. *)
Definition swept (next : gmap Prefix RouteInfo) (p : Prefix) (old : RouteInfo) (st st' : status) : Prop :=
  match next !! p with
  | Some _ => st' = st
  | None => st' = mkStatus (if s_installed st then None else s_table st) false false
  end.

Lemma gone_step b0 next b p old :
  same_setup b0 b ->
  same_setup b0 (program_gone watch next b (p, old)) /\
  swept next p old (status_of b p) (status_of (program_gone watch next b (p, old)) p) /\
  forall q, q <> p -> status_of (program_gone watch next b (p, old)) q = status_of b q.
Proof using FIBLaws0 reliable.
  intros Hs. destruct (gone_any b0 next b p old Hs) as (W1 & W2 & W3). split; [done|]. split; [|done].
  unfold swept. destruct (next !! p) as [r|] eqn:Hp.
  - unfold program_gone. by rewrite bool_decide_true by (by rewrite Hp).
  - by rewrite W2, reliable, andb_true_r.
Qed.

Context (info_order : nat -> gmap Prefix RouteInfo -> list (Prefix * RouteInfo)).
Context (order_ok : forall k m, info_order k m ≡ₚ map_to_list m).

Lemma order_keys k (m : gmap Prefix RouteInfo) : NoDup (info_order k m).*1.
Proof using order_ok. rewrite (order_ok k m). apply NoDup_fst_map_to_list. Qed.

Lemma order_in k (m : gmap Prefix RouteInfo) p r : (p, r) ∈ info_order k m <-> m !! p = Some r.
Proof using order_ok. rewrite (order_ok k m). apply elem_of_map_to_list. Qed.

Lemma order_out k (m : gmap Prefix RouteInfo) p : m !! p = None -> p ∉ (info_order k m).*1.
Proof using order_ok. intros Hp ([q r] & -> & Hin)%list_elem_of_fmap. apply order_in in Hin. cbn in *. congruence. Qed.

(** What a pass does to one prefix. *)
Lemma programFIB_at b next p :
  agrees (rib b !! p) (status_of b p) -> map_Forall (fun _ r => RI_NextHops r <> []) next ->
  let b' := set_rib (programFIB watch info_order b next) next in
  agrees (next !! p) (status_of b' p) /\
  (p ∉ fibPending b' -> table (fib b') !! p = wanted b next p) /\
  (p ∈ fibPending b' -> is_Some (wanted b next p)).
Proof using FIBLaws0 order_ok reliable.
  intros Hsync Hne. unfold programFIB. set (b1 := fold_left (program_route watch) _ b).
  destruct (fold_keys status_of (program_route watch) (same_setup b) (fun p r => next !! p = Some r) (programmed b)
    (fun b' p r Hp Hb => program_step b next b' p r Hne Hp Hb) (info_order 0%nat next) b) as (I1 & P1 & Q1);
    [done|apply order_keys|by intros q r Hin%order_in|].
  fold b1 in I1, P1, Q1. set (b2 := fold_left (program_gone watch next) _ b1).
  destruct (fold_keys status_of (program_gone watch next) (same_setup b) (fun _ _ => True) (swept next)
    (fun b' p r _ Hb => gone_step b next b' p r Hb) (info_order 1%nat (rib b1)) b1) as (I2 & P2 & Q2); [done|apply order_keys|done|].
  fold b2 in I2, P2, Q2. rewrite (proj1 I1) in P2, Q2. cbv zeta.
  assert (Hst : match next !! p with
    | Some r => programmed b p r (status_of b p) (status_of b2 p)
    | None => s_table (status_of b2 p) = None /\ s_installed (status_of b2 p) = false /\ s_pending (status_of b2 p) = false
    end).
  { pose proof Hsync as (A1 & _ & A3). destruct (next !! p) as [r|] eqn:Hp.
    - assert (E : status_of b2 p = status_of b1 p).
      { destruct (rib b !! p) as [old|] eqn:Ho; [|apply Q2; by apply order_out].
        pose proof (P2 p old) as E. unfold swept in E. rewrite Hp in E. apply E. by apply order_in. }
      rewrite E. apply P1. by apply order_in.
    - assert (E : status_of b1 p = status_of b p) by (apply Q1; by apply order_out).
      destruct (rib b !! p) as [old|] eqn:Ho.
      + pose proof (P2 p old) as E2. unfold swept in E2. rewrite Hp in E2. rewrite E2, E by (by apply order_in).
        cbn [s_table s_installed s_pending]. destruct (s_installed _) eqn:Ei; [done|]. by rewrite A1.
      + rewrite Q2, E by (by apply order_out). destruct (A3 eq_refl) as [Ei Ep]. by rewrite Ei, Ep, A1. }
  change (status_of (set_rib b2 next) p) with (status_of b2 p). change (table (fib (set_rib b2 next)) !! p) with (s_table (status_of b2 p)).
  unfold agrees, wanted. destruct (next !! p) as [r|] eqn:Hp; cbn [mbind option_bind].
  - destruct (Hst Hsync) as (T1 & T2 & T3 & T4). split; [|split; [intros Hpd; apply T2; by apply bool_decide_eq_false|]].
    + split; [done|]. split; [|done]. intros Hi Hpd. by rewrite (T2 Hpd), (T3 Hi).
    + intros Hpd. rewrite T4; [by eexists|]. by apply bool_decide_eq_true.
  - destruct Hst as (E1 & E2 & E3). rewrite E1, E2, E3. split; [done|]. split; [done|]. intros Hpd.
    apply bool_decide_eq_false in E3. done.
Qed.

Lemma programFIB_keeps b next :
  synced b -> map_Forall (fun _ r => RI_NextHops r <> []) next ->
  let b' := set_rib (programFIB watch info_order b next) next in
  synced b' /\
  (forall p, p ∉ fibPending b' -> table (fib b') !! p = wanted b next p) /\
  (forall p, p ∈ fibPending b' -> is_Some (wanted b next p)).
Proof using FIBLaws0 order_ok reliable.
  intros Hs Hne. split; [|split]; intros p; by apply programFIB_at.
Qed.

Lemma order_in_forall k (m : gmap Prefix RouteInfo) (P : Prefix * RouteInfo -> Prop) :
  map_Forall (fun p r => P (p, r)) m -> Forall P (info_order k m).
Proof using order_ok. intros Hm. apply Forall_forall. intros [p r] Hin%order_in. by apply Hm. Qed.

(** A pass leaves a prefix alone that has a route neither before it nor after. *)
Lemma programFIB_unrouted b next p :
  map_Forall (fun _ r => RI_NextHops r <> []) next -> rib b !! p = None -> next !! p = None ->
  status_of (set_rib (programFIB watch info_order b next) next) p = status_of b p.
Proof using FIBLaws0 order_ok.
  intros Hne Hb Hn. unfold programFIB.
  destruct (routes_others b (info_order 0%nat next) b p) as [S1 E1]; [by apply order_in_forall|by apply order_out|done|].
  set (b1 := fold_left (program_route watch) _ b) in *.
  destruct (gones_others b next (info_order 1%nat (rib b1)) b1 p) as [S2 E2]; [rewrite (proj1 S1); by apply order_out|done|].
  by rewrite <- E1, <- E2.
Qed.

(** A pass over a prefix that lost its route, up to the withdrawal it makes. *)
Lemma programFIB_withdraws b next p old pre post :
  map_Forall (fun _ r => RI_NextHops r <> []) next -> p ∈ fibInstalled b -> next !! p = None ->
  info_order 1%nat (rib b) = pre ++ (p, old) :: post ->
  let b1 := fold_left (program_gone watch next) pre (fold_left (program_route watch) (info_order 0%nat next) b) in
  status_of (set_rib (programFIB watch info_order b next) next) p =
    mkStatus (if (Withdraw (fib b1) p).2 then None else table (fib b) !! p) false false.
Proof using FIBLaws0 order_ok.
  intros Hne Hi Hn Hsplit. pose proof (order_keys 1%nat (rib b)) as Hnd. rewrite Hsplit, fmap_app in Hnd. cbn [fmap list_fmap fst] in Hnd.
  apply NoDup_app in Hnd as (_ & Hpre & [Hpost _]%NoDup_cons).
  assert (Hp : p ∉ pre.*1) by (intros Hin; by apply (Hpre p Hin), list_elem_of_here).
  unfold programFIB.
  destruct (routes_others b (info_order 0%nat next) b p) as [S1 E1]; [by apply order_in_forall|by apply order_out|done|].
  set (b0 := fold_left (program_route watch) _ b) in *. cbv zeta. rewrite (proj1 S1), Hsplit, fold_left_app. cbn [fold_left].
  destruct (gones_others b next pre b0 p Hp S1) as [S2 E2]. set (b1 := fold_left (program_gone watch next) pre b0) in *.
  destruct (gone_any b next b1 p old S2) as (S3 & E3 & _).
  destruct (gones_others b next post _ p Hpost S3) as [_ E4]. change (status_of (set_rib ?x next) p) with (status_of x p).
  rewrite E4, E3, E2, E1 by done. unfold status_of. cbn [s_installed s_table]. by rewrite bool_decide_true.
Qed.

(** C19: whatever writes fail and in whatever order the maps are visited, a pass
    that found the forwarding table in step leaves it in step with the new routes:
    a prefix that is not pending has in the table exactly the next hops of its
    route, when it has one and the policy accepts it, and nothing otherwise; what
    is pending is wanted.  (Provided no withdrawal fails.) *)
Theorem programFIB_synced b next :
  synced b -> map_Forall (fun _ r => RI_NextHops r <> []) next ->
  let b' := set_rib (programFIB watch info_order b next) next in
  synced b' /\
  (forall p, p ∉ fibPending b' -> table (fib b') !! p = wanted b next p) /\
  (forall p, p ∈ fibPending b' -> is_Some (wanted b next p)).
Proof using FIBLaws0 order_ok reliable. apply programFIB_keeps. Qed.
End Program.

(** A table whose writes fail as a script says: of its updates, or of its
    withdrawals. *)
Definition kernel : Type := gmap Prefix (list NextHopInfo) * list bool.

Definition apply_script (f : kernel) (m : gmap Prefix (list NextHopInfo)) : kernel * bool :=
  match f.2 with
  | [] => ((m, []), true)
  | ok :: script => ((if ok then m else f.1, script), ok)
  end.

Definition flaky_updates : FIB kernel := {|
  Update f p nhs := apply_script f (<[p := nhs]> f.1);
  Withdraw f p := ((delete p f.1, f.2), true);
  Sweep f keep := ((filter (fun pn => keep pn.1 = true) f.1, f.2), true);
  AddLocalSID f _ := (f, true);
  RemoveLocalSID f _ := (f, true)
|}.

Definition flaky_withdraws : FIB kernel := {|
  Update f p nhs := ((<[p := nhs]> f.1, f.2), true);
  Withdraw f p := apply_script f (delete p f.1);
  Sweep f keep := apply_script f (filter (fun pn => keep pn.1 = true) f.1);
  AddLocalSID f _ := (f, true);
  RemoveLocalSID f _ := (f, true)
|}.

Lemma flaky_updates_laws : @FIBLaws kernel flaky_updates fst.
Proof. split; intros [m [|[] script]]; intros; done || apply map_filter_subseteq. Qed.

Lemma flaky_withdraws_laws : @FIBLaws kernel flaky_withdraws fst.
Proof. split; intros [m [|[] script]]; intros; done || apply map_filter_subseteq. Qed.

Definition net10 : Prefix := mkPrefix (Addr4 [10; 0; 0; 0]) 8.
Definition net10_route : RouteInfo := mkRouteInfo net10 20 Level2 2 0 [mkNextHop "eth0" (Addr4 [192; 0; 2; 1])].

Definition rib_holding (m : gmap Prefix RouteInfo) (installed : gset Prefix) (f : kernel) : RIB kernel :=
  mkRIB [] [] ∅ ∅ f m ∅ ∅ ∅ installed ∅ ∅ None None [].

Definition in_map_order (k : nat) (m : gmap Prefix RouteInfo) : list (Prefix * RouteInfo) := map_to_list m.

(** The first write of a route fails, the second succeeds. *)
Definition once_failed : RIB kernel :=
  set_rib (@programFIB kernel flaky_updates false in_map_order (rib_holding ∅ ∅ (∅, [false])) {[ net10 := net10_route ]}) {[ net10 := net10_route ]}.

Lemma empty_synced f : f.1 = ∅ -> synced (fst : kernel -> _) (rib_holding ∅ ∅ f).
Proof. intros Hf p. unfold agrees, status_of. cbn [rib_holding fib rib fibInstalled fibPending s_table s_installed s_pending]. by rewrite Hf. Qed.

Lemma programFIB_synced_witness :
  net10 ∈ fibPending once_failed /\
  let b' := set_rib (@programFIB kernel flaky_updates false in_map_order once_failed {[ net10 := net10_route ]}) {[ net10 := net10_route ]} in
  net10 ∉ fibPending b' /\ (fib b').1 !! net10 = Some (RI_NextHops net10_route).
Proof.
  split; [by apply (bool_decide_unpack _); vm_compute|].
  assert (Hne : map_Forall (fun _ r => RI_NextHops r <> []) {[ net10 := net10_route ]}) by (by apply map_Forall_singleton).
  destruct (programFIB_synced false (F := kernel) (H := flaky_updates) fst (FIBLaws0 := flaky_updates_laws) (fun _ _ => eq_refl) in_map_order
    (fun _ m => reflexivity _) (rib_holding ∅ ∅ (∅, [false])) {[ net10 := net10_route ]} (empty_synced (∅, [false]) eq_refl) Hne) as (S1 & _ & _).
  destruct (programFIB_synced false (F := kernel) (H := flaky_updates) fst (FIBLaws0 := flaky_updates_laws) (fun _ _ => eq_refl) in_map_order
    (fun _ m => reflexivity _) once_failed {[ net10 := net10_route ]} S1 Hne) as (_ & S2 & _).
  assert (Hp : net10 ∉ fibPending (set_rib (@programFIB kernel flaky_updates false in_map_order once_failed {[ net10 := net10_route ]})
     {[ net10 := net10_route ]})) by (apply (bool_decide_unpack _); by vm_compute).
  split; [exact Hp|]. rewrite (S2 net10 Hp). by vm_compute.
Defined.

(** ** A withdrawal that fails *)

(** A pass: whether anyone watches, the orders its loops visit the maps in, and the
    routes it programs. *)
Definition pass : Type := bool * (nat -> gmap Prefix RouteInfo -> list (Prefix * RouteInfo)) * gmap Prefix RouteInfo.

Definition run_pass {F} `{FIB F} (b : RIB F) (x : pass) : RIB F :=
  let '(watch, info_order, next) := x in set_rib (programFIB watch info_order b next) next.

(** A pass of any order, over routes with next hops, none of them to [p]. *)
Definition pass_without (p : Prefix) (x : pass) : Prop :=
  let '(watch, info_order, next) := x in
  (forall k m, info_order k m ≡ₚ map_to_list m) /\ map_Forall (fun _ r => RI_NextHops r <> []) next /\ next !! p = None.

Lemma run_passes_unrouted {F} `{FIB F} (table : F -> gmap Prefix (list NextHopInfo)) `{!FIBLaws F table} (p : Prefix) xs (b : RIB F) :
  rib b !! p = None -> Forall (pass_without p) xs -> status_of table (fold_left run_pass xs b) p = status_of table b p.
Proof.
  intros Hb Hxs. revert b Hb. induction Hxs as [|[[watch info_order] next] xs (Ho & Hne & Hn) _ IH]; intros b Hb; [done|].
  cbn [fold_left]. rewrite IH by done. by apply programFIB_unrouted.
Qed.

(** C40: (code bug) the withdrawal of a route that fails is never retried.  Whatever
    the forwarding table, take a pass over routes in which an installed prefix has
    none any more, and let the withdrawal the pass makes for it fail: the prefix is
    forgotten all the same - it is neither installed nor pending - and the table keeps
    the old route, through every later pass in which the prefix has no route either,
    however often the kernel could have removed it since. *)
Theorem failed_withdraw_leaks {F} `{FIB F} (table : F -> gmap Prefix (list NextHopInfo)) `{!FIBLaws F table}
    watch info_order next (b : RIB F) p old pre post later :
  p ∈ fibInstalled b -> pass_without p (watch, info_order, next) -> info_order 1%nat (rib b) = pre ++ (p, old) :: post ->
  let b1 := fold_left (program_gone watch next) pre (fold_left (program_route watch) (info_order 0%nat next) b) in
  (Withdraw (fib b1) p).2 = false -> Forall (pass_without p) later ->
  let b' := fold_left run_pass later (run_pass b (watch, info_order, next)) in
  p ∉ fibInstalled b' /\ p ∉ fibPending b' /\ table (fib b') !! p = table (fib b) !! p.
Proof.
  intros Hi (Ho & Hne & Hn) Hsplit b1 Hfail Hlater b'.
  pose proof (programFIB_withdraws watch table info_order Ho b next p old pre post Hne Hi Hn Hsplit) as E. cbv zeta in E.
  fold b1 in E. rewrite Hfail in E.
  assert (E' : status_of table b' p = mkStatus (table (fib b) !! p) false false).
  { unfold b'. rewrite run_passes_unrouted by done. exact E. }
  unfold status_of in E'. injection E' as Ht Hi' Hp'. by apply bool_decide_eq_false in Hi', Hp'.
Qed.

(** The kernel fails once and never again. *)
Definition withdrawing : RIB kernel :=
  rib_holding {[ net10 := net10_route ]} {[ net10 ]} ({[ net10 := RI_NextHops net10_route ]}, [false]).

Definition empty_pass : pass := (false, in_map_order, ∅).

Lemma failed_withdraw_leaks_witness :
  let b' := fold_left (@run_pass kernel flaky_withdraws) [empty_pass; empty_pass] (@run_pass kernel flaky_withdraws withdrawing empty_pass) in
  (fib b').2 = [] /\ net10 ∉ fibInstalled b' /\ net10 ∉ fibPending b' /\ (fib b').1 !! net10 = Some (RI_NextHops net10_route).
Proof.
  split; [by vm_compute|].
  assert (He : pass_without net10 empty_pass) by (split; [done|split; [apply map_Forall_empty|done]]).
  apply (failed_withdraw_leaks (H := flaky_withdraws) fst (FIBLaws0 := flaky_withdraws_laws)
    false in_map_order ∅ withdrawing net10 net10_route [] [] [empty_pass; empty_pass]).
  - by apply elem_of_singleton_2.
  - exact He.
  - by vm_compute.
  - by vm_compute.
  - by repeat constructor.
Defined.
