(* ===== verification/RibSelect.v ===== *)
(** Which route [updateRIB] selects for a prefix, which algorithms it takes part
    in, and what it exchanges between the levels. *)

From stdpp Require Import sorting strings.
From S2P Require Import Prelude.
From S2P Require Import Netip.
From S2P Require Import Ids.
From S2P Require Import Sid.
From S2P Require Import SubTLV.
From S2P Require Import Entries.
From S2P Require Import Tlv.
From S2P Require Import Checksum.
From S2P Require Import Pdu.
From S2P Require Import Auth.
From S2P Require Import Circuit.
From S2P Require Import Lsdb.
From S2P Require Import EdgeLog.
From S2P Require Import Server.
From S2P Require Import FlexAlgo.
From S2P Require Import Tent.
From S2P Require Import Topology.
From S2P Require Import Spf.
From S2P Require Import Rib.
Local Open Scope Z_scope.

(** ** The level and algorithm of a route *)

Definition tagged (l : Level) (algo : Z) (r : route) : Prop := r_level r = l /\ r_algo r = algo.

Section Tags.
Context (l : Level) (algo : Z).

Lemma addRoute_tagged m p r :
  map_Forall (fun _ => tagged l algo) m -> tagged l algo r -> map_Forall (fun _ => tagged l algo) (addRoute m p r).
Proof using.
  intros Hm Hr. unfold addRoute. destruct (m !! p) as [cur|] eqn:E; apply map_Forall_insert_2; try done.
  specialize (Hm p cur E). cbn in Hm. unfold merge_route. cbv zeta. destruct Hm, Hr.
  destruct (negb _); [destruct (_ <? _); done|]. destruct (_ <? _); [done|]. by destruct (_ =? _).
Qed.

Lemma fold_tagged {A} (step : gmap Prefix route -> A -> gmap Prefix route) xs m :
  (forall m x, map_Forall (fun _ => tagged l algo) m -> map_Forall (fun _ => tagged l algo) (step m x)) ->
  map_Forall (fun _ => tagged l algo) m -> map_Forall (fun _ => tagged l algo) (fold_left step xs m).
Proof using. intros Hs. revert m. induction xs as [|x xs IH]; intros m Hm; [done|]. cbn [fold_left]. by apply IH, Hs. Qed.

Lemma collect_tagged nodes self m x :
  map_Forall (fun _ => tagged l algo) m -> map_Forall (fun _ => tagged l algo) (collect_node nodes self l algo m x).
Proof using.
  intros Hm. destruct x as [id [base hops]]. unfold collect_node. destruct (bool_decide _); [done|].
  destruct (nodes !! id) as [n|]; [|done]. cbv zeta. destruct (_ =? _)%nat; [done|]. apply fold_tagged; [|done].
  intros m' p Hm'. destruct (prefix_route _ _ _ _ p) as [r|] eqn:E; [|done]. apply addRoute_tagged; [done|].
  unfold prefix_route in E. cbv zeta in E. destruct (_ <=? _); [done|]. injection E as <-. done.
Qed.
End Tags.

Lemma addAttached_tagged m nodes order :
  map_Forall (fun _ => tagged Level1 0) m -> map_Forall (fun _ => tagged Level1 0) (addAttachedDefault m nodes order).
Proof.
  intros Hm. unfold addAttachedDefault. destruct (fold_left _ _ _) as [[best nh]|]; [|done]. apply fold_tagged; [|done].
  intros m' p Hm'. by apply addRoute_tagged.
Qed.

Lemma computeSPF_tagged {T} `{TentativeSet T} db_order done_order s l algo aff now m :
  computeSPF (T := T) db_order done_order s l algo aff now = Ok m -> map_Forall (fun _ => tagged l algo) m.
Proof.
  unfold computeSPF. cbv zeta. destruct (bool_decide _).
  { intros [= <-]. apply map_Forall_empty. }
  destruct (shortest_paths _ _) as [dn| |]; [|done..]. cbn [mbind outcome_bind]. intros [= <-]. unfold spf_routes. cbv zeta.
  match goal with |- context [fold_left ?f ?xs ∅] => assert (Hc : map_Forall (fun _ => tagged l algo) (fold_left f xs ∅)) end.
  { apply fold_tagged; [|apply map_Forall_empty]. intros m x. apply collect_tagged. }
  destruct (bool_decide (l = Level1) && (algo =? 0) && _) eqn:E; [|done].
  apply andb_true_iff in E as [[->%bool_decide_eq_true ->%Z.eqb_eq]%andb_true_iff _]. by apply addAttached_tagged.
Qed.

(** ** Preference *)

(** Routes of different levels or algorithms are strictly ordered. *)
Lemma betterRoute_total l a l' a' r r' :
  tagged l a r -> tagged l' a' r' -> (l, a) <> (l', a') -> betterRoute r r' = negb (betterRoute r' r).
Proof.
  intros [Hl Ha] [Hl' Ha'] Hne. unfold betterRoute, preferenceClass. cbv zeta. rewrite Hl, Hl', Ha, Ha'.
  destruct l, l', (r_down r), (r_down r'); try done; rewrite Z.eqb_refl; cbn [negb].
  all: assert (a <> a') by congruence; destruct (Z.ltb_spec a a'), (Z.ltb_spec a' a); done || lia.
Qed.

Lemma betterRoute_trans a b c : betterRoute a b = true -> betterRoute b c = true -> betterRoute a c = true.
Proof.
  unfold betterRoute. cbv zeta. generalize (preferenceClass a), (preferenceClass b), (preferenceClass c). intros x y z.
  destruct (Z.eqb_spec x y), (Z.eqb_spec y z), (Z.eqb_spec x z); cbn [negb]; rewrite !Z.ltb_lt; lia.
Qed.

(** What one more computation does to the route of a prefix. *)
Definition pick (cur r : option route) : option route :=
  match cur, r with
  | Some c, Some r => if betterRoute r c then Some r else Some c
  | None, r => r
  | c, None => c
  end.

Lemma merge_lookup xs m p :
  NoDup xs.*1 -> merge_computed m xs !! p = pick (m !! p) (list_to_map (M := gmap Prefix route) xs !! p).
Proof.
  unfold merge_computed. revert m. induction xs as [|[q r] xs IH]; intros m; cbn [fold_left fmap list_fmap fst].
  { intros _. cbn [list_to_map foldr]. rewrite lookup_empty. by destruct (m !! p). }
  intros [Hq Hnd]%NoDup_cons. rewrite IH by done. cbn [list_to_map foldr fst snd]. destruct (decide (q = p)) as [->|Hne].
  - rewrite lookup_insert_eq, (not_elem_of_list_to_map_1 xs p Hq). destruct (m !! p) as [c|] eqn:E.
    + cbn [pick]. destruct (betterRoute r c); cbn [negb]; [by rewrite lookup_insert_eq|by rewrite E].
    + by rewrite lookup_insert_eq.
  - rewrite lookup_insert_ne by done. f_equal. destruct (m !! q) as [c|]; [destruct (negb _); [done|]|]; by rewrite lookup_insert_ne.
Qed.

Lemma routingAlgos_in {F} (b : RIB F) a : a ∈ routingAlgos b <-> a = 0 \/ a ∈ FC_Algo <$> flexAlgos b.
Proof.
  unfold routingAlgos. rewrite (merge_sort_Permutation Z.le).
  assert (K : forall fas seen algos, (forall a, a ∈ seen <-> a ∈ algos) ->
    a ∈ (fold_left routing_step fas (seen, algos)).2 <-> a ∈ algos \/ a ∈ FC_Algo <$> fas).
  { induction fas as [|fa fas IH]; intros seen algos Hs; cbn [fold_left fmap list_fmap snd].
    { rewrite elem_of_nil. tauto. }
    cbn [routing_step]. rewrite elem_of_cons. destruct (bool_decide_reflect (FC_Algo fa ∈ seen)) as [Hin|Hin].
    - rewrite IH by done. split; [tauto|]. intros [?|[->|?]]; [tauto|left; by apply Hs|tauto].
    - rewrite IH; [rewrite elem_of_app, list_elem_of_singleton; tauto|].
      intros x. rewrite elem_of_union, elem_of_singleton, elem_of_app, list_elem_of_singleton, Hs. tauto. }
  rewrite K, list_elem_of_singleton; [done|]. intros x. by rewrite elem_of_singleton, list_elem_of_singleton.
Qed.

(** What the two [switch]es let through. *)
Lemma exported_inv own p r m :
  exported own p r = Some m ->
  tagged Level1 0 r /\ r_down r = false /\ is_default p = false /\ p ∉ own /\ r_metric r = m.
Proof.
  unfold exported, tagged. destruct (bool_decide_reflect (r_level r = Level1)) as [Hl|]; cbn [negb orb]; [|done].
  destruct (Z.eqb_spec (r_algo r) 0) as [Ha|]; cbn [negb]; [|done]. destruct (r_down r); [done|]. destruct (r_mt r); [done|].
  destruct (is_default p); [done|]. destruct (bool_decide_reflect (p ∈ own)) as [|Hp]; [done|]. by intros [= <-].
Qed.

Lemma leaked_inv ok own merged p r m :
  leaked ok own merged p r = Some m ->
  is_default p = false /\ p ∉ own /\ (forall c, merged !! p = Some c -> ~ tagged Level1 0 c) /\
  ok (mkAdvertised p m) = true /\ r_metric r = m.
Proof.
  unfold leaked, tagged. destruct (r_mt r); [done|]. destruct (is_default p); [done|].
  destruct (bool_decide_reflect (p ∈ own)) as [|Hp]; [done|]. destruct (merged !! p) as [c|].
  - destruct (bool_decide (r_level c = Level1) && (r_algo c =? 0)) eqn:E; [done|].
    destruct (ok _) eqn:Eok; cbn [negb]; [|done]. intros [= <-]. split_and!; try done. intros c' [= <-] [Hl Ha].
    by rewrite bool_decide_true, Ha in E.
  - destruct (ok _) eqn:Eok; cbn [negb]; [|done]. by intros [= <-].
Qed.

(** ** The ranking, independently of the code

    RFC 5302 3.2: intra-area Level-1 routes first, then Level-2 routes whatever their
    up/down bit, then Level-1 routes that came down from Level 2; within a class the
    lower algorithm. *)
Definition class_of (r : route) (n : Z) : Prop :=
  (n = 1 /\ r_level r = Level1 /\ r_down r = false) \/ (n = 2 /\ r_level r = Level2) \/
  (n = 3 /\ r_level r = Level1 /\ r_down r = true).

Definition preferred (r r' : route) : Prop :=
  exists n n', class_of r n /\ class_of r' n' /\ (n < n' \/ (n = n' /\ r_algo r < r_algo r')).

Lemma class_of_iff r n : class_of r n <-> preferenceClass r = n.
Proof. unfold class_of, preferenceClass. destruct (r_level r), (r_down r); intuition (done || congruence). Qed.

Lemma preferred_better r r' : preferred r r' <-> betterRoute r r' = true.
Proof.
  unfold preferred, betterRoute. setoid_rewrite class_of_iff. cbv zeta.
  destruct (Z.eqb_spec (preferenceClass r) (preferenceClass r')) as [E|E]; cbn [negb]; rewrite Z.ltb_lt; split.
  - intros (n & n' & <- & <- & [?|[_ ?]]); [lia|done].
  - intros Hlt. by exists (preferenceClass r), (preferenceClass r'); auto.
  - intros (n & n' & <- & <- & [?|[? _]]); done.
  - intros Hlt. by exists (preferenceClass r), (preferenceClass r'); auto.
Qed.

(** ** What a Flex-Algorithm definition asks of a link, independently of the code

    Administrative groups are lists of 32-bit words; the last sub-TLV of a kind counts. *)
Definition constraint_ok (c : FlexAlgoSubSubTLV) : Prop :=
  (SubSubTLVType c ∈ [FlexAlgoSubSubExcludeAdminGroup; FlexAlgoSubSubIncludeAnyAdminGroup; FlexAlgoSubSubIncludeAllAdminGroup] /\
   is_Some (flexAlgoWords (SubSubValue c))) \/
  (SubSubTLVType c = FlexAlgoSubSubDefinitionFlags /\ flexAlgoFlagsSupported (SubSubValue c) = true).

Definition group_of (t : Z) (old : list Z) (cs : list FlexAlgoSubSubTLV) : list Z :=
  match last (List.filter (fun c => SubSubTLVType c =? t) cs) with
  | Some c => default [] (flexAlgoWords (SubSubValue c))
  | None => old
  end.

(** The definition can be evaluated, and asks for these groups. *)
Definition evaluates (d : ElectedDefinition) (aff : flexAlgoAffinity) : Prop :=
  D_MetricType d = FlexAlgoMetricIGP /\ Forall constraint_ok (D_Constraints d) /\
  exclude aff = group_of FlexAlgoSubSubExcludeAdminGroup [] (D_Constraints d) /\
  includeAny aff = group_of FlexAlgoSubSubIncludeAnyAdminGroup [] (D_Constraints d) /\
  includeAll aff = group_of FlexAlgoSubSubIncludeAllAdminGroup [] (D_Constraints d).

Lemma group_of_cons t old c cs :
  group_of t old (c :: cs) = group_of t (if SubSubTLVType c =? t then default [] (flexAlgoWords (SubSubValue c)) else old) cs.
Proof.
  unfold group_of. cbn [List.filter]. destruct (SubSubTLVType c =? t); [|done].
  by destruct (List.filter _ cs) as [|x xs] eqn:E; [|rewrite last_cons_cons; destruct (last (x :: xs)) eqn:El; [|apply last_None in El]].
Qed.

Lemma affinity_step_iff a c a' :
  affinity_step a c = Some a' <-> constraint_ok c /\
    exclude a' = (if SubSubTLVType c =? FlexAlgoSubSubExcludeAdminGroup then default [] (flexAlgoWords (SubSubValue c)) else exclude a) /\
    includeAny a' = (if SubSubTLVType c =? FlexAlgoSubSubIncludeAnyAdminGroup then default [] (flexAlgoWords (SubSubValue c)) else includeAny a) /\
    includeAll a' = (if SubSubTLVType c =? FlexAlgoSubSubIncludeAllAdminGroup then default [] (flexAlgoWords (SubSubValue c)) else includeAll a).
Proof.
  unfold affinity_step, constraint_ok, FlexAlgoSubSubExcludeAdminGroup, FlexAlgoSubSubIncludeAnyAdminGroup,
    FlexAlgoSubSubIncludeAllAdminGroup, FlexAlgoSubSubDefinitionFlags.
  cbv zeta. rewrite !elem_of_cons, elem_of_nil.
  generalize (SubSubTLVType c), (SubSubValue c). intros t v.
  destruct (Z.eqb_spec t 1) as [->|N1]; [|destruct (Z.eqb_spec t 2) as [->|N2]; [|destruct (Z.eqb_spec t 3) as [->|N3]]].
  1-3: cbn [Z.eqb Pos.eqb]; destruct (flexAlgoWords v) as [ws|] eqn:E; cbn [mbind option_bind default from_option id];
    [split; [intros [= <-]; split; [left; split; [tauto|by eexists]|done]
            |intros (_ & H1 & H2 & H3); destruct a'; cbn in *; by subst]
    |split; [done|intros ([[_ [? ?]]|[? _]] & _); done]].
  destruct (Z.eqb_spec t 4) as [->|N4]; [destruct (flexAlgoFlagsSupported v) eqn:E|].
  - split; [intros [= <-]; split; [by right|done]|]. intros (_ & H1 & H2 & H3). destruct a, a'; cbn in *; by subst.
  - split; [done|]. intros ([[? _]|[_ ?]] & _); [naive_solver|done].
  - split; [done|]. intros ([[? _]|[? _]] & _); naive_solver.
Qed.

Lemma affinity_loop_iff cs a a' :
  affinity_loop a cs = Some a' <-> Forall constraint_ok cs /\
    exclude a' = group_of FlexAlgoSubSubExcludeAdminGroup (exclude a) cs /\
    includeAny a' = group_of FlexAlgoSubSubIncludeAnyAdminGroup (includeAny a) cs /\
    includeAll a' = group_of FlexAlgoSubSubIncludeAllAdminGroup (includeAll a) cs.
Proof.
  revert a. induction cs as [|c cs IH]; intros a; cbn [affinity_loop].
  - unfold group_of. cbn. split; [intros [= <-]; by split; [constructor|]|]. intros (_ & H1 & H2 & H3).
    destruct a, a'; cbn in *; by subst.
  - rewrite Forall_cons. pose proof (affinity_step_iff a c) as Hs. destruct (affinity_step a c) as [a1|] eqn:E; cbn [mbind option_bind].
    + rewrite IH, !group_of_cons. destruct (proj1 (Hs a1) eq_refl) as (Hc & -> & -> & ->). tauto.
    + split; [done|]. intros [[Hc _] _]. exfalso.
      set (x t old := if SubSubTLVType c =? t then default [] (flexAlgoWords (SubSubValue c)) else old : list Z).
      assert (K : None = Some (mkAffinity (x FlexAlgoSubSubExcludeAdminGroup (exclude a))
        (x FlexAlgoSubSubIncludeAnyAdminGroup (includeAny a)) (x FlexAlgoSubSubIncludeAllAdminGroup (includeAll a)))); [|done].
      by apply Hs.
Qed.

(** ** What a first hop resolves to, independently of the code

    Through an Up adjacency that carries the family of the prefix, over its circuit, to
    the gateway picked among its addresses, where there is one. *)
Definition leads_to {F} (s : Server) (b : RIB F) (p : Prefix) (h : SystemID) (nh : NextHopInfo) : Prop :=
  exists adj j c, findAdjacency s h = Some (adj, j) /\ circuits s !! j = Some c /\
    routesFamily (a_nlpids adj) (Is4 (p_addr p)) = true /\
    Gateway nh = pickGateway (if Is4 (p_addr p) then a_neighborIPv4 adj else a_neighborIPv6 adj) (Is4 (p_addr p)) (connected b) /\
    IsValid (Gateway nh) = true /\ Interface nh = Name (cfg c).

Lemma resolve_hop_iff {F} s (b : RIB F) p h nh : resolve_hop s b (Is4 (p_addr p)) h = Some nh <-> leads_to s b p h nh.
Proof.
  unfold resolve_hop, leads_to. cbv zeta. destruct (findAdjacency s h) as [[adj j]|]; cbn [mbind option_bind];
    [|by split; [|intros (? & ? & ? & ? & _)]].
  destruct (circuits s !! j) as [c|] eqn:Ec; cbn [mbind option_bind];
    [|split; [done|intros (? & ? & ? & [= <- <-] & ? & _); congruence]].
  destruct (routesFamily _ _) eqn:Ef; cbn [negb];
    [|split; [done|intros (? & ? & ? & [= <- <-] & _ & Hf & _); congruence]]. destruct (IsValid _) eqn:Ev; cbn [negb].
  - split; [intros [= <-]; by exists adj, j, c|].
    intros (? & ? & c' & [= <- <-] & Hc & _ & Hg & _ & Hi). destruct nh; cbn in *. subst. congruence.
  - split; [done|]. intros (? & ? & c' & [= <- <-] & _ & _ & Hg & Hv & _). congruence.
Qed.

(** The next hops of a route: where its first hops lead, one for each that is written
    the same way. *)
Definition next_hops_of {F} (s : Server) (b : RIB F) (p : Prefix) (hops : list SystemID) (nhs : list NextHopInfo) : Prop :=
  (forall nh, nh ∈ nhs -> exists h, h ∈ hops /\ leads_to s b p h nh) /\
  (forall h nh, h ∈ hops -> leads_to s b p h nh -> exists nh', nh' ∈ nhs /\ hop_key nh' = hop_key nh) /\
  NoDup (hop_key <$> nhs).

Lemma resolve_fold {F} s (b : RIB F) p hops seen out :
  seen ≡ₚ hop_key <$> out -> NoDup (hop_key <$> out) ->
  let r := (fold_left (resolve_step s b (Is4 (p_addr p))) hops (seen, out)).2 in
  NoDup (hop_key <$> r) /\ out ⊆ r /\ (forall nh, nh ∈ r -> nh ∈ out \/ exists h, h ∈ hops /\ leads_to s b p h nh) /\
  (forall h nh, h ∈ hops -> leads_to s b p h nh -> hop_key nh ∈ hop_key <$> r).
Proof.
  revert seen out. induction hops as [|h hops IH]; intros seen out Hs Hnd; cbn [fold_left resolve_step].
  { split; [done|]. split; [done|]. split; [by left|]. intros h nh Hh. by apply not_elem_of_nil in Hh. }
  assert (Hgo : forall seen' out', seen' ≡ₚ hop_key <$> out' -> NoDup (hop_key <$> out') -> out ⊆ out' ->
    (forall nh, nh ∈ out' -> nh ∈ out \/ leads_to s b p h nh) ->
    (forall nh, leads_to s b p h nh -> hop_key nh ∈ hop_key <$> out') ->
    let r := (fold_left (resolve_step s b (Is4 (p_addr p))) hops (seen', out')).2 in
    NoDup (hop_key <$> r) /\ out ⊆ r /\ (forall nh, nh ∈ r -> nh ∈ out \/ exists h', h' ∈ h :: hops /\ leads_to s b p h' nh) /\
    (forall h' nh, h' ∈ h :: hops -> leads_to s b p h' nh -> hop_key nh ∈ hop_key <$> r)).
  { intros seen' out' Hs' Hnd' Hsub Hnew Hcov. destruct (IH seen' out' Hs' Hnd') as (R1 & R2 & R3 & R4). cbv zeta.
    split; [done|]. split; [by transitivity out'|]. split.
    - intros nh [[?|?]%Hnew|(h' & ? & ?)]%R3; [by left|right; exists h; split; [left|done]|right; exists h'; split; [by right|done]].
    - intros h' nh [->|Hh]%elem_of_cons Hl; [|by apply (R4 h')]. apply Hcov in Hl. apply list_elem_of_fmap in Hl as (x & -> & Hx).
      apply list_elem_of_fmap. exists x. split; [done|by apply R2]. }
  destruct (resolve_hop s b (Is4 (p_addr p)) h) as [nh|] eqn:E.
  - apply resolve_hop_iff in E as El. assert (Hone : forall nh', leads_to s b p h nh' -> nh' = nh).
    { intros nh' Hl. apply resolve_hop_iff in Hl. congruence. }
    destruct (bool_decide_reflect (hop_key nh ∈ seen)) as [Hin|Hin]; rewrite Hs in Hin; apply Hgo; try done; try by left.
    + by intros nh' ->%Hone.
    + rewrite fmap_app, Hs. cbn [fmap list_fmap]. by rewrite Permutation_app_comm.
    + rewrite fmap_app. apply NoDup_app. split; [done|]. split; [|apply NoDup_singleton].
      intros k Hk Hk'. cbn [fmap list_fmap] in Hk'. apply list_elem_of_singleton in Hk' as ->. done.
    + intros x Hx. apply elem_of_app. by left.
    + intros x [Hx|Hx]%elem_of_app; [by left|]. apply list_elem_of_singleton in Hx as ->. by right.
    + intros nh' ->%Hone. rewrite fmap_app. apply elem_of_app. right. cbn [fmap list_fmap]. by apply list_elem_of_singleton.
  - apply Hgo; try done; try by left. intros nh' Hl%resolve_hop_iff. congruence.
Qed.

Lemma resolveNextHops_of {F} s (b : RIB F) p hops : next_hops_of s b p hops (resolveNextHops s b p hops).
Proof.
  unfold resolveNextHops, next_hops_of. destruct (resolve_fold s b p hops [] [] (Permutation_refl _) (NoDup_nil_2)) as (R1 & _ & R3 & R4).
  set (r := (fold_left _ hops ([], [])).2) in *. pose proof (merge_sort_Permutation nexthop_le r) as Hp. split; [|split].
  - intros nh Hnh. rewrite Hp in Hnh. destruct (R3 nh Hnh) as [Hx|?]; [by apply not_elem_of_nil in Hx|done].
  - intros h nh Hh Hl. apply (R4 h nh Hh) in Hl. apply list_elem_of_fmap in Hl as (x & Hk & Hx). exists x. by rewrite Hp.
  - by rewrite Hp.
Qed.

Section Select.
Context {F : Type} `{FIB F} {T : Type} `{TentativeSet T}.
Context (info_order : nat -> gmap Prefix RouteInfo -> list (Prefix * RouteInfo)).
Context (db_order : Level -> Z -> nat -> lsdb -> list (LSPID * lspEntry)).
Context (done_order : Level -> Z -> nat -> settled -> list (NodeID * (Z * gset SystemID))).
Context (route_order : nat -> gmap Prefix route -> list (Prefix * route)).
Context (fa_order : Level -> lsdb -> list (LSPID * lspEntry)).
Context (s : Server) (now : Z).

(** An algorithm is computed at a level that has a database: algorithm 0, and one
    whose elected definition can be evaluated. *)
Definition eligible (k : algoKey) (aff : flexAlgoAffinity) : Prop :=
  exists db, dbs s !! k.1 = Some db /\
    ((k.2 = 0 /\ aff = no_affinity) \/
     (k.2 <> 0 /\ algo_gate (flexAlgoState k.1 (fa_order k.1 db) now !! k.2) = inr aff)).

(** The route a computation has for a prefix. *)
Definition offers (k : algoKey) (p : Prefix) (r : route) : Prop :=
  exists aff m, eligible k aff /\
    computeSPF (T := T) (db_order k.1 k.2) (done_order k.1 k.2) s k.1 k.2 aff now = Ok m /\ m !! p = Some r.

Lemma eligible_unique k aff aff' : eligible k aff -> eligible k aff' -> aff = aff'.
Proof using. intros (db & Hdb & Ha) (db' & Hdb' & Ha'). assert (db' = db) as -> by congruence. destruct Ha as [[Ha ->]|[Ha Hg]], Ha' as [[Ha' ->]|[Ha' Hg']]; congruence. Qed.

Lemma offers_unique k p r r' : offers k p r -> offers k p r' -> r = r'.
Proof using.
  intros (aff & m & He & Hm & Hr) (aff' & m' & He' & Hm' & Hr').
  rewrite (eligible_unique k aff' aff He' He) in Hm'. congruence.
Qed.

Lemma offers_tagged k p r : offers k p r -> tagged k.1 k.2 r.
Proof using. intros (aff & m & _ & Hm & Hr). by apply (computeSPF_tagged _ _ _ _ _ _ _ _ Hm p r). Qed.

(** The best route on offer among the computations of [S]. *)
Definition best_of (S : algoKey -> Prop) (p : Prefix) (r : route) : Prop :=
  exists k, S k /\ offers k p r /\ forall k' r', S k' -> offers k' p r' -> k' = k \/ betterRoute r r' = true.

Definition selected (S : algoKey -> Prop) (m : gmap Prefix route) : Prop :=
  forall p, match m !! p with Some r => best_of S p r | None => forall k r, S k -> ~ offers k p r end.

Lemma selected_skip S S' m : (forall k, S' k -> S k \/ forall p r, ~ offers k p r) -> (forall k, S k -> S' k) -> selected S m -> selected S' m.
Proof using.
  intros Hs Hs' Hm p. specialize (Hm p). destruct (m !! p) as [r|].
  - destruct Hm as (k & Hk & Ho & Hb). exists k. split_and!; [by apply Hs'|done|]. intros k' r' Hk' Ho'.
    destruct (Hs k' Hk') as [?|Hn]; [by eapply Hb|by destruct (Hn p r')].
  - intros k r Hk Ho. destruct (Hs k Hk) as [?|Hn]; [by apply (Hm k r)|by destruct (Hn p r)].
Qed.

Context (route_ok : forall k m, route_order k m ≡ₚ map_to_list m).

Lemma route_lookup k m : list_to_map (M := gmap Prefix route) (route_order k m) = m.
Proof using route_ok.
  rewrite <- (list_to_map_to_list m) at 2. apply list_to_map_proper; [|by apply route_ok].
  rewrite route_ok. apply NoDup_fst_map_to_list.
Qed.

Lemma selected_add S k aff m m' :
  eligible k aff -> computeSPF (T := T) (db_order k.1 k.2) (done_order k.1 k.2) s k.1 k.2 aff now = Ok m' ->
  selected S m -> selected (fun k' => S k' \/ k' = k) (merge_computed m (route_order 0%nat m')).
Proof using route_ok.
  intros He Hm' Hm p. rewrite merge_lookup, route_lookup by (rewrite route_ok; apply NoDup_fst_map_to_list).
  assert (Ho : forall r, offers k p r <-> m' !! p = Some r).
  { intros r. split; [|intros ?; by exists aff, m']. intros (aff' & m1 & He' & Hm1 & Hr).
    rewrite (eligible_unique k aff' aff He' He) in Hm1. congruence. }
  specialize (Hm p). destruct (m !! p) as [c|], (m' !! p) as [r|] eqn:E; cbn [pick].
  - destruct Hm as (k0 & Hk0 & Ho0 & Hb). pose proof (proj2 (Ho r) eq_refl) as Hr.
    destruct (decide (k0 = k)) as [->|Hne].
    + assert (c = r) as -> by by eapply offers_unique.
      assert (Hbest : best_of (fun k' => S k' \/ k' = k) p r); [|by destruct (betterRoute r r)].
      exists k. split; [by right|]. split; [done|]. intros k' r' [Hk'| ->] Ho'; [by eapply Hb|by left].
    + pose proof (betterRoute_total _ _ _ _ r c (offers_tagged k p r Hr) (offers_tagged k0 p c Ho0)) as Ht.
      destruct (betterRoute r c) eqn:Ebt.
      * exists k. split; [by right|]. split; [done|]. intros k' r' [Hk'| ->] Ho'; [|by left].
        destruct (Hb k' r' Hk' Ho') as [->|?]; [|right; by eapply betterRoute_trans].
        right. by rewrite (offers_unique k0 p r' c Ho' Ho0).
      * exists k0. split; [by left|]. split; [done|]. intros k' r' [Hk'| ->] Ho'; [by eapply Hb|]. right.
        rewrite (offers_unique k p r' r Ho' Hr). destruct (betterRoute c r); [done|].
        assert (Hk : (k.1, k.2) <> (k0.1, k0.2)) by (destruct k, k0; cbn; congruence). by specialize (Ht Hk).
  - destruct Hm as (k0 & Hk0 & Ho0 & Hb). exists k0. split; [by left|]. split; [done|].
    intros k' r' [Hk'| ->] Ho'; [by eapply Hb|]. apply Ho in Ho'. congruence.
  - exists k. split; [by right|]. split; [by apply Ho|]. intros k' r' [Hk'| ->] Ho'; [|by left]. by destruct (Hm k' r' Hk').
  - intros k' r' [Hk'| ->] Ho'; [by apply (Hm k' r' Hk')|]. apply Ho in Ho'. congruence.
Qed.

(** ** The loops *)

(** The configuration, which nothing changes; and what [programFIB] leaves alone. *)
Definition setup (b : RIB F) := (flexAlgos b, locators b, optionPrefixes b, connected b, l2LeakFilter b).
Definition frame (b : RIB F) := (setup b, l1Export b, l2Leak b, flexAlgoComputed b).

Record pass_ok (b : RIB F) (S : algoKey -> Prop) (x : pass) : Prop := {
  ok_merged : selected S (merged x);
  ok_computed : forall k, k ∈ computedAlgos x <-> S k /\ k.2 <> 0 /\ exists aff, eligible k aff;
  ok_l2 : forall p r, l2Reach x !! p = Some r <-> S (Level2, 0) /\ offers (Level2, 0) p r;
  ok_rib : frame (of_rib x) = frame b
}.

Lemma compute_ok b S l algo aff x x' :
  eligible (l, algo) aff ->
  selected S (merged x) -> (forall k, k ∈ computedAlgos x <-> (S k \/ k = (l, algo)) /\ k.2 <> 0 /\ exists aff, eligible k aff) ->
  (forall p r, l2Reach x !! p = Some r <-> S (Level2, 0) /\ offers (Level2, 0) p r) -> frame (of_rib x) = frame b ->
  compute_algo db_order done_order route_order (T := T) s now l algo aff x = Ok x' ->
  pass_ok b (fun k => S k \/ k = (l, algo)) x'.
Proof using route_ok.
  intros He Hsel Hc H2 Hk. unfold compute_algo. destruct (computeSPF _ _ _ _ _ _ _) as [m| |] eqn:E; [|done..].
  cbn [mbind outcome_bind]. intros [= <-]. split; cbn [merged l2Reach computedAlgos of_rib]; [|done| |done].
  - by apply (selected_add S (l, algo) aff).
  - intros p r. assert (Ho : forall r, offers (l, algo) p r <-> m !! p = Some r).
    { intros r'. split; [|intros ?; by exists aff, m]. intros (aff' & m1 & He' & Hm1 & Hr).
      rewrite (eligible_unique _ aff' aff He' He) in Hm1. cbn [fst snd] in Hm1. congruence. }
    destruct (bool_decide (l = Level2) && (algo =? 0)) eqn:Ek.
    + apply andb_true_iff in Ek as [->%bool_decide_eq_true ->%Z.eqb_eq]. rewrite <- Ho. naive_solver.
    + rewrite H2. split; [naive_solver|]. intros [[HS|Heq] Hr]; [done|]. injection Heq as <- <-. done.
Qed.

Lemma algo_turn_ok b S l db algo x x' :
  dbs s !! l = Some db -> pass_ok b S x ->
  algo_turn db_order done_order route_order (T := T) s now l (flexAlgoState l (fa_order l db) now) algo x = Ok x' ->
  pass_ok b (fun k => S k \/ k = (l, algo)) x'.
Proof using route_ok.
  intros Hdb [K1 K2 K3 K4]. unfold algo_turn. destruct (Z.eqb_spec algo 0) as [->|Hz].
  { apply compute_ok; try done.
    - exists db. split; [done|by left].
    - intros k. rewrite K2. split; [naive_solver|]. intros ([?| ->] & ? & ?); done. }
  destruct (algo_gate _) as [why|aff] eqn:Eg.
  - assert (Hno : forall aff, ~ eligible (l, algo) aff).
    { intros aff (db' & Hdb' & Ha). cbn [fst snd] in *. assert (db' = db) as -> by congruence.
      destruct Ha as [[? _]|[_ Ha]]; congruence. }
    destruct (edge_warn _ _) as [w fired]. intros [= <-]. split; cbn [merged l2Reach computedAlgos of_rib].
    + apply (selected_skip S); [|by left|done]. intros k [?| ->]; [by left|]. right. intros p r (aff & m & He & _).
      by apply (Hno aff).
    + intros k. rewrite K2. split; [naive_solver|]. intros ([?| ->] & ? & aff & He); [naive_solver|]. by destruct (Hno aff).
    + intros p r. rewrite K3. split; [naive_solver|]. intros [[?|E] ?]; [done|]. congruence.
    + rewrite <- K4. by destruct fired.
  - assert (He : eligible (l, algo) aff) by (exists db; split; [done|by right]).
    apply compute_ok; cbn [merged l2Reach computedAlgos of_rib]; try done.
    intros k. rewrite elem_of_union, elem_of_singleton, K2. split; [|naive_solver].
    intros [->|(? & ? & ?)]; [|naive_solver]. split; [by right|]. split; [done|by exists aff].
Qed.

Lemma pass_ok_ext b (S S' : algoKey -> Prop) x : (forall k, S k <-> S' k) -> pass_ok b S x -> pass_ok b S' x.
Proof using.
  intros HS [K1 K2 K3 K4]. split; [|by intros k; rewrite K2, HS|by intros p r; rewrite K3, HS|done].
  apply (selected_skip S); [|by intros k; apply HS|done]. intros k Hk. left. by apply HS.
Qed.

Lemma algo_loop_ok b S l db algos x x' :
  dbs s !! l = Some db -> pass_ok b S x ->
  algo_loop db_order done_order route_order (T := T) s now l (flexAlgoState l (fa_order l db) now) algos x = Ok x' ->
  pass_ok b (fun k => S k \/ (k.1 = l /\ k.2 ∈ algos)) x'.
Proof using route_ok.
  intros Hdb. revert S x. induction algos as [|algo algos IH]; intros S x Hx; cbn [algo_loop].
  { intros [= <-]. apply (pass_ok_ext b S); [|done]. intros k. split; [by left|]. intros [?|[_ Hk]]; [done|].
    by apply not_elem_of_nil in Hk. }
  destruct (algo_turn _ _ _ _ _ _ _ algo x) as [x1| |] eqn:E; [|done..]. cbn [mbind outcome_bind]. intros Hl.
  pose proof (IH _ x1 (algo_turn_ok b S l db algo x x1 Hdb Hx E) Hl) as HR. revert HR. apply pass_ok_ext.
  intros [l' a']. cbn [fst snd]. rewrite elem_of_cons. split.
  - intros [[?|[= -> ->]]|[? ?]]; [by left|right; split; [done|by left]|right; split; [done|by right]].
  - intros [?|[-> [->|?]]]; [by left; left|by left; right|by right].
Qed.

Lemma level_turn_ok b S algos l x x' :
  pass_ok b S x -> level_turn db_order done_order route_order (T := T) fa_order s now algos l x = Ok x' ->
  pass_ok b (fun k => S k \/ (k.1 = l /\ k.2 ∈ algos)) x'.
Proof using route_ok.
  intros Hx. unfold level_turn. destruct (dbs s !! l) as [db|] eqn:Hdb; [by apply algo_loop_ok|].
  assert (Hno : forall k aff, k.1 = l -> ~ eligible k aff) by (intros k aff <- (db & Hd & _); congruence).
  intros [= <-]. destruct Hx as [K1 K2 K3 K4]. split; [|..|done].
  - apply (selected_skip S); [|by left|done]. intros k [?|[Hk _]]; [by left|]. right. intros p r (aff & m & He & _).
    by apply (Hno k aff).
  - intros k. rewrite K2. split; [naive_solver|]. intros ([?|[Hk _]] & ? & aff & He); [naive_solver|]. by destruct (Hno k aff).
  - intros p r. rewrite K3. split; [naive_solver|]. intros [[?|[Hk _]] Ho]; [done|]. destruct Ho as (aff & m & He & _).
    by destruct (Hno _ aff Hk He).
Qed.

(** The computations of an update. *)
Definition computations (b : RIB F) (k : algoKey) : Prop := k.2 ∈ routingAlgos b.

Lemma passes_ok b x1 x2 :
  level_turn db_order done_order route_order (T := T) fa_order s now (routingAlgos b) Level1 (mkPass ∅ ∅ ∅ b) = Ok x1 ->
  level_turn db_order done_order route_order (T := T) fa_order s now (routingAlgos b) Level2 x1 = Ok x2 ->
  pass_ok b (computations b) x2.
Proof using route_ok.
  intros H1 H2. assert (Hi : pass_ok b (fun _ => False) (mkPass ∅ ∅ ∅ b)).
  { split; cbn [merged l2Reach computedAlgos of_rib]; [|set_solver| |done].
    - intros p. rewrite lookup_empty. by intros.
    - intros p r. rewrite lookup_empty. naive_solver. }
  pose proof (level_turn_ok b _ _ _ _ _ (level_turn_ok b _ _ _ _ _ Hi H1) H2) as HR. revert HR. apply pass_ok_ext.
  intros [[] a]; unfold computations; cbn [fst snd]; naive_solver.
Qed.

(** ** What the steps leave alone *)

Lemma fold_frame {A X} (g : RIB F -> X) (f : RIB F -> A -> RIB F) xs b :
  (forall b x, g (f b x) = g b) -> g (fold_left f xs b) = g b.
Proof using. intros Hf. revert b. induction xs as [|x xs IH]; intros b; [done|]. cbn [fold_left]. by rewrite IH, Hf. Qed.

Lemma frame_withdraw b p : frame (withdraw_installed b p) = frame b.
Proof using. unfold withdraw_installed. destruct (bool_decide _); [|done]. by destruct (Withdraw _ _) as [f []]. Qed.

Lemma frame_emit w b r wd : frame (emitRoute w b r wd) = frame b.
Proof using. unfold emitRoute. by destruct w. Qed.

Lemma frame_programFIB w b next : frame (programFIB w info_order b next) = frame b.
Proof using.
  unfold programFIB. cbv zeta. rewrite fold_frame; [apply fold_frame|].
  - intros b' [p r]. unfold program_route. cbv zeta. set (b1 := if changed _ _ _ then _ else _).
    assert (E : frame b1 = frame b') by (unfold b1; destruct (changed _ _ _); [apply frame_emit|done]). rewrite <- E.
    destruct (negb _); [apply (frame_withdraw b1 p)|]. destruct (_ && _); [done|].
    unfold write_route. by destruct (Update _ _ _) as [f []].
  - intros b' [p old]. unfold program_gone. destruct (bool_decide _); [done|].
    transitivity (frame (emitRoute w b' old true)); [apply (frame_withdraw (emitRoute w b' old true) p)|apply frame_emit].
Qed.

Lemma frame_warn b pr : frame (warn_unresolved s b pr) = frame b.
Proof using. destruct pr as [p r]. unfold warn_unresolved. by destruct (unresolved _ _ _ _). Qed.

Lemma report_keeps algos next b : (frame (report_counts s algos next b), rib (report_counts s algos next b)) = (frame b, rib b).
Proof using. unfold report_counts. apply (fold_frame (fun b => (frame b, rib b))). by intros b' []. Qed.

Lemma next_route_setup b b' p r : setup b = setup b' -> next_route s b p r = next_route s b' p r.
Proof using.
  intros [= _ _ _ Hc _]. unfold next_route, resolveNextHops, resolve_step, resolve_hop. by rewrite Hc.
Qed.

Lemma own_setup b b' : setup b = setup b' -> ownAdvertised b = ownAdvertised b'.
Proof using. intros [= _ Hl Ho Hc _]. unfold ownAdvertised. by rewrite Hl, Ho, Hc. Qed.

Lemma export_setup b b' m : setup b = setup b' -> l1ExportSet s b m = l1ExportSet s b' m.
Proof using. intros Hs. unfold l1ExportSet. by rewrite (own_setup b b' Hs). Qed.

Lemma leak_setup b b' m l2 : setup b = setup b' -> l2LeakSet s b m l2 = l2LeakSet s b' m l2.
Proof using. intros Hs. unfold l2LeakSet. rewrite (own_setup b b' Hs). injection Hs as _ _ _ _ Hf. by rewrite Hf. Qed.

Lemma frame_parts b b' : frame b = frame b' -> setup b = setup b' /\ l1Export b = l1Export b' /\
  l2Leak b = l2Leak b' /\ flexAlgoComputed b = flexAlgoComputed b'.
Proof using. unfold frame, setup. intros [=]. split_and!; congruence. Qed.

(** The update as a function of its computations. *)
Lemma updateRIB_inv b s' b' :
  updateRIB info_order (T := T) db_order done_order route_order fa_order s b now = Ok (s', b') ->
  exists x, pass_ok b (computations b) x /\
    rib b' = map_imap (next_route s b) (merged x) /\ flexAlgoComputed b' = computedAlgos x /\
    l1Export b' = l1ExportSet s b (merged x) /\ l2Leak b' = l2LeakSet s b (merged x) (l2Reach x) /\
    lspGenPending s' = (lspGenPending s || negb (bool_decide (flexAlgoComputed b' = flexAlgoComputed b)) ||
      negb (bool_decide (l1Export b' = l1Export b)) || negb (bool_decide (l2Leak b' = l2Leak b))).
Proof using route_ok.
  unfold updateRIB. cbv zeta. destruct (level_turn _ _ _ _ _ _ _ Level1 _) as [x1| |] eqn:E1; [|done..]. cbn [mbind outcome_bind].
  destruct (level_turn _ _ _ _ _ _ _ Level2 x1) as [x| |] eqn:E2; [|done..]. cbn [mbind outcome_bind].
  pose proof (passes_ok b x1 x E1 E2) as Hx. destruct (frame_parts _ _ (ok_rib _ _ _ Hx)) as (K1 & K2 & K3 & K4).
  match goal with |- context [fold_left (warn_unresolved s) ?xs ?y] => set (b1 := fold_left (warn_unresolved s) xs y) end.
  assert (Hb1 : frame b1 = frame (set_exchange (of_rib x) (l1Export (of_rib x)) (l2Leak (of_rib x)) (computedAlgos x)))
    by (apply (fold_frame frame); intros ? ?; apply frame_warn).
  destruct (frame_parts _ _ Hb1) as (S1 & S2 & S3 & S4). cbn [set_exchange l1Export l2Leak flexAlgoComputed] in S2, S3, S4.
  assert (Hs1 : setup b1 = setup b) by (rewrite S1; exact K1). set (next := map_imap _ (merged x)).
  set (b2 := report_counts _ _ next _).
  pose proof (report_keeps (routingAlgos b) next (set_rib (programFIB (watched s) info_order b1 next) next)) as Hr. fold b2 in Hr.
  pose proof (f_equal fst Hr) as Hb2. pose proof (f_equal snd Hr) as R5. cbn [fst snd set_rib rib] in Hb2, R5.
  change (frame b2 = frame (programFIB (watched s) info_order b1 next)) in Hb2. rewrite frame_programFIB in Hb2.
  destruct (frame_parts _ _ Hb2) as (R1 & R2 & R3 & R4). rewrite S2, K2 in R2. rewrite S3, K3 in R3. rewrite S4 in R4.
  assert (Hs2 : setup b2 = setup b) by (by rewrite R1).
  intros [= <- <-]. exists x. split; [done|]. cbn [set_exchange rib_emit rib l1Export l2Leak flexAlgoComputed].
  split.
  { rewrite R5. apply map_eq. intros p. unfold next. rewrite !map_lookup_imap. destruct (merged x !! p) as [r|]; [|done].
    cbn [mbind option_bind]. by apply next_route_setup. }
  split; [done|]. split; [by apply export_setup|].
  split; [apply leak_setup; exact Hs2|]. unfold set_pendingGen. cbn [set_gen lspGenPending].
  by rewrite R2, R3, R4, K4.
Qed.

(** ** The results *)

(** The RIB against the code's own ranking. *)
Lemma updateRIB_best b s' b' p ri :
  updateRIB info_order (T := T) db_order done_order route_order fa_order s b now = Ok (s', b') ->
  rib b' !! p = Some ri <-> exists r, best_of (computations b) p r /\ next_route s b p r = Some ri.
Proof using route_ok.
  intros (x & Hx & -> & _)%updateRIB_inv. pose proof (ok_merged _ _ _ Hx p) as Hm. rewrite map_lookup_imap.
  destruct (merged x !! p) as [r|]; cbn [mbind option_bind].
  - split; [intros ?; by exists r|]. intros (r' & (k' & Hk' & Ho' & Hb') & Hn).
    destruct Hm as (k & Hk & Ho & Hb). destruct (Hb k' r' Hk' Ho') as [->|B1]; [by rewrite (offers_unique k p r r' Ho Ho')|].
    destruct (Hb' k r Hk Ho) as [->|B2]; [by rewrite (offers_unique k' p r r' Ho Ho')|].
    destruct (decide (k = k')) as [->|Hne]; [by rewrite (offers_unique k' p r r' Ho Ho')|].
    rewrite (betterRoute_total _ _ _ _ r r' (offers_tagged k p r Ho) (offers_tagged k' p r' Ho')), B2 in B1; [done|].
    destruct k, k'. cbn. congruence.
  - split; [done|]. intros (r & (k & Hk & Ho & _) & _). by destruct (Hm k r Hk Ho).
Qed.

(** What an algorithm is computed with at a level, given the databases and the
    configuration: algorithm 0 always and without constraints; a configured
    Flex-Algorithm when a definition was elected there and can be evaluated. *)
Definition computed_with (b : RIB F) (l : Level) (a : Z) (aff : flexAlgoAffinity) : Prop :=
  exists db, dbs s !! l = Some db /\
    ((a = 0 /\ aff = no_affinity) \/
     (a <> 0 /\ (exists fa, fa ∈ flexAlgos b /\ FC_Algo fa = a) /\
      exists fi d, flexAlgoState l (fa_order l db) now !! a = Some fi /\ FI_Definition fi = Some d /\ evaluates d aff)).

(** The route the shortest paths of a level and an algorithm have for a prefix. *)
Definition candidate (b : RIB F) (l : Level) (a : Z) (p : Prefix) (r : route) : Prop :=
  exists aff m, computed_with b l a aff /\
    computeSPF (T := T) (db_order l a) (done_order l a) s l a aff now = Ok m /\ m !! p = Some r.

Lemma algo_gate_iff fi aff :
  algo_gate fi = inr aff <-> exists i d, fi = Some i /\ FI_Definition i = Some d /\ evaluates d aff.
Proof using.
  unfold algo_gate, evaluates. destruct fi as [i|]; cbn [mbind option_bind]; [|naive_solver].
  destruct (FI_Definition i) as [d|] eqn:Ed; [|naive_solver].
  pose proof (affinity_loop_iff (D_Constraints d) no_affinity) as Hl. fold (flexAlgoAffinityOf d) in Hl.
  destruct (Z.eqb_spec (D_MetricType d) FlexAlgoMetricIGP) as [Em|Em]; cbn [negb]; [|naive_solver]. split.
  - intros E. exists i, d. split; [done|]. split; [done|]. split; [done|]. apply Hl.
    destruct (flexAlgoAffinityOf d) as [x|]; [by injection E as ->|done].
  - intros (i' & d' & [= <-] & Hd & _ & K). assert (d' = d) as -> by congruence. by rewrite (proj2 (Hl aff) K).
Qed.

Lemma computed_with_iff b l a aff : computed_with b l a aff <-> computations b (l, a) /\ eligible (l, a) aff.
Proof using.
  unfold computed_with, computations, eligible. cbn [fst snd]. rewrite routingAlgos_in.
  assert (Hc : a ∈ FC_Algo <$> flexAlgos b <-> exists fa, fa ∈ flexAlgos b /\ FC_Algo fa = a).
  { rewrite list_elem_of_fmap. split; intros (fa & H1 & H2); by exists fa. }
  clear db_order done_order. rewrite Hc. setoid_rewrite algo_gate_iff. split.
  - intros (db & Hdb & [[Ha Haff]|(Ha & Hf & Hd)]); (split; [first [by left|by right]|]); exists db; (split; [done|]); [by left|by right].
  - intros [Hin (db & Hdb & [[Ha Haff]|(Ha & Hd)])]; exists db; (split; [done|]); [by left|right]. split; [done|].
    split; [by destruct Hin|done].
Qed.

Lemma candidate_iff b l a p r : candidate b l a p r <-> computations b (l, a) /\ offers (l, a) p r.
Proof using. unfold candidate, offers. setoid_rewrite computed_with_iff. naive_solver. Qed.

(** C8: the RIB holds, for a prefix, the route of least preference class and then
    of the lowest algorithm among those the levels and algorithms of this pass
    computed, in whatever order they and their maps were visited: when the prefix is
    not a connected one and some first hop of that route leads somewhere, and with
    the next hops its first hops lead to.  The classes are 1, an intra-area Level-1
    route, 2, a Level-2 route, and 3, a Level-1 route that came down from Level 2.  An
    algorithm whose definition is missing or cannot be evaluated - a metric other
    than the IGP's, an unknown constraint, one that is malformed - contributes
    nothing, nor does algorithm 0 stand in for it (RFC 9350 13: no fallback). *)
Theorem updateRIB_selects b s' b' p ri :
  updateRIB info_order (T := T) db_order done_order route_order fa_order s b now = Ok (s', b') ->
  rib b' !! p = Some ri <->
  exists l a r n,
    candidate b l a p r /\
    (forall l' a' r', candidate b l' a' p r' -> (l', a') = (l, a) \/ preferred r r') /\
    Masked p ∉ connected b /\
    class_of r n /\ ri = mkRouteInfo p (r_metric r) l n a (resolveNextHops s b p (r_nextHops r)) /\
    RI_NextHops ri <> [] /\ next_hops_of s b p (r_nextHops r) (RI_NextHops ri).
Proof using route_ok.
  intros E. rewrite (updateRIB_best b s' b' p ri E). unfold best_of, next_route. split.
  - intros (r & ([l a] & Hc & Ho & Hb) & Hn). destruct (bool_decide_reflect (Masked p ∈ connected b)) as [|Hp]; [done|].
    cbv zeta in Hn. destruct (length _ =? 0)%nat eqn:El; [done|]. apply Nat.eqb_neq in El. injection Hn as <-.
    destruct (offers_tagged (l, a) p r Ho) as [Hl Ha]. cbn [fst snd] in Hl, Ha.
    exists l, a, r, (preferenceClass r). split; [by apply candidate_iff|]. split.
    { intros l' a' r' [Hc' Ho']%candidate_iff. rewrite preferred_better. by apply (Hb (l', a')). }
    split; [done|]. split; [by apply class_of_iff|]. cbn [RI_NextHops]. rewrite Hl, Ha. split; [done|].
    split; [by intros K; rewrite K in El|]. apply resolveNextHops_of.
  - intros (l & a & r & n & [Hc Ho]%candidate_iff & Hb & Hp & Hn%class_of_iff & -> & Hne & _).
    destruct (offers_tagged (l, a) p r Ho) as [Hl Ha]. cbn [fst snd] in Hl, Ha. exists r. split.
    + exists (l, a). split; [done|]. split; [done|]. intros [l' a'] r' Hc' Ho'. rewrite <- preferred_better.
      by apply (Hb l' a' r'), candidate_iff.
    + rewrite bool_decide_false by done. cbv zeta. cbn [RI_NextHops] in Hne.
      destruct (length _ =? 0)%nat eqn:El; [by apply Nat.eqb_eq, nil_length_inv in El|]. by rewrite Hl, Ha, Hn.
Qed.

(** C31: (RFC 1195 3.1, RFC 5302, RFC 9350 5.3) what an update hands to
    origination: participation is recorded in exactly the algorithms it computed;
    what is exported upward is intra-area Level-1 reachability, never a leaked
    prefix, a default or one of our own; what is leaked downward passed the policy
    and has no intra-area Level-1 route, so nothing is both exported and leaked;
    and a regeneration is requested only when one of the three changed. *)
Theorem updateRIB_exchange b s' b' :
  Forall (fun fa => 0 <= FC_Algo fa) (flexAlgos b) ->
  updateRIB info_order (T := T) db_order done_order route_order fa_order s b now = Ok (s', b') ->
  (forall k, k ∈ flexAlgoComputed b' <-> k.2 ∈ routingAlgos b /\ k.2 <> 0 /\ exists aff, eligible k aff) /\
  (forall p m, l1Export b' !! p = Some m -> both_levels s = true /\ is_default p = false /\ p ∉ ownAdvertised b /\
     l2Leak b' !! p = None /\ exists r, offers (Level1, 0) p r /\ r_down r = false /\ r_metric r = m) /\
  (forall p m, l2Leak b' !! p = Some m -> both_levels s = true /\ is_default p = false /\ p ∉ ownAdvertised b /\
     (forall r, offers (Level1, 0) p r -> r_down r = true) /\
     exists r ok, offers (Level2, 0) p r /\ r_metric r = m /\ l2LeakFilter b = Some ok /\ ok (mkAdvertised p m) = true) /\
  lspGenPending s' = (lspGenPending s || negb (bool_decide (flexAlgoComputed b' = flexAlgoComputed b)) ||
      negb (bool_decide (l1Export b' = l1Export b)) || negb (bool_decide (l2Leak b' = l2Leak b))).
Proof using route_ok.
  intros Hpos (x & Hx & _ & Ec & Ee & El & Eg)%updateRIB_inv. destruct Hx as [K1 K2 K3 _].
  assert (Hexp : forall p m, l1Export b' !! p = Some m -> both_levels s = true /\ is_default p = false /\
    p ∉ ownAdvertised b /\ exists r, merged x !! p = Some r /\ tagged Level1 0 r /\ r_down r = false /\ r_metric r = m).
  { intros p m. rewrite Ee. unfold l1ExportSet. destruct (both_levels s); cbn [negb]; [|by rewrite lookup_empty].
    rewrite map_lookup_imap. destruct (merged x !! p) as [r|]; [|done]. cbn [mbind option_bind].
    intros (? & ? & ? & ? & ?)%exported_inv. split_and!; try done. by exists r. }
  assert (Hleak : forall p m, l2Leak b' !! p = Some m -> both_levels s = true /\ is_default p = false /\
    p ∉ ownAdvertised b /\ (forall c, merged x !! p = Some c -> ~ tagged Level1 0 c) /\
    exists r ok, l2Reach x !! p = Some r /\ r_metric r = m /\ l2LeakFilter b = Some ok /\ ok (mkAdvertised p m) = true).
  { intros p m. rewrite El. unfold l2LeakSet. destruct (l2LeakFilter b) as [ok|]; [|by rewrite lookup_empty].
    destruct (both_levels s); cbn [negb]; [|by rewrite lookup_empty].
    rewrite map_lookup_imap. destruct (l2Reach x !! p) as [r|]; [|done]. cbn [mbind option_bind].
    intros (? & ? & ? & ? & ?)%leaked_inv. split_and!; try done. by exists r, ok. }
  split; [by intros k; rewrite Ec, K2|]. split; [|split; [|done]].
  - intros p m Hm. destruct (Hexp p m Hm) as (? & ? & ? & r & Hr & Ht & Hd & Hmet). split_and!; try done.
    + destruct (l2Leak b' !! p) as [m'|] eqn:Hl; [|done]. destruct (Hleak p m' Hl) as (_ & _ & _ & Hn & _). by destruct (Hn r Hr).
    + exists r. split; [|done]. specialize (K1 p). rewrite Hr in K1. destruct K1 as ([l a] & _ & Ho & _).
      pose proof (offers_tagged _ p r Ho) as [T1 T2]. destruct Ht as [T3 T4]. cbn [fst snd] in *. by rewrite <- T3, T1, <- T4, T2.
  - intros p m Hm. destruct (Hleak p m Hm) as (? & ? & ? & Hn & r & ok & Hr & ? & ? & ?). split_and!; try done.
    + intros r1 Ho1. destruct (r_down r1) eqn:Hd; [done|]. exfalso. specialize (K1 p).
      assert (H10 : computations b (Level1, 0)) by (apply routingAlgos_in; by left).
      destruct (merged x !! p) as [c|]; [|by destruct (K1 (Level1, 0) r1 H10)].
      destruct K1 as (k & Hk & Ho & Hb). pose proof (offers_tagged _ p r1 Ho1) as [T1 T2]. cbn [fst snd] in T1, T2.
      destruct (Hb (Level1, 0) r1 H10 Ho1) as [<-|Hbt].
      * apply (Hn c eq_refl). by rewrite (offers_unique _ p c r1 Ho Ho1).
      * pose proof (offers_tagged _ p c Ho) as [T3 T4].
        assert (Ha : 0 <= r_algo c).
        { rewrite T4. apply routingAlgos_in in Hk as [->|Hk]; [lia|]. apply list_elem_of_fmap in Hk as (fa & -> & Hfa).
          rewrite Forall_forall in Hpos. by apply Hpos. }
        unfold betterRoute, preferenceClass in Hbt. cbv zeta in Hbt. rewrite T1, T2, Hd in Hbt.
        destruct (r_level c), (r_down c); cbn in Hbt; try done. apply Z.ltb_lt in Hbt. lia.
    + exists r, ok. split_and!; try done. by apply K3.
Qed.
End Select.

(** ** A border router

    System 9 is at both levels, with system 7 on a point-to-point link: 7 reaches
    10.0.0.0/8 in the area and 20.0.0.0/8 at Level 2. *)
Definition border_lsp (l : Level) (n nb : Z) (ps : list ExtendedIPReachEntry) : LSP :=
  mkLSP l 1200 [2; 0; 0; 0; 0; n; 0; 0] 5 0 false false false false false false 3
    [ExtendedISReachabilityTLV [mkISReach [2; 0; 0; 0; 0; nb; 0] 10 []]; ExtendedIPReachabilityTLV ps].
Definition border_entry (p : LSP) : lspEntry := mkLspEntry p [] 0 1200 false None zeroTime.
Definition border_db (l : Level) (ps : list ExtendedIPReachEntry) : lsdb :=
  list_to_map (map (fun p => (LSP_LSPID p, border_entry p)) [border_lsp l 9 7 []; border_lsp l 7 9 ps]).
Definition area_net : Prefix := mkPrefix (Addr4 [10; 0; 0; 0]) 8.
Definition far_net : Prefix := mkPrefix (Addr4 [20; 0; 0; 0]) 8.

Definition border_circuit : circuit :=
  set_p2pAdj (newCircuit (mkCircuitConfig "eth0" (mkTransport [2; 0; 0; 0; 0; 9] 1500) true true true None (3 * Second) 10 10
      [] [] [] None None [] AuthMD5 0 []) 1 1)
    (Some (mkAdjacency [2; 0; 0; 0; 0; 7] [2; 0; 0; 0; 0; 7] AdjUp 64 [] [] 30 0 0 0 0 0 false false false 0 6
       [Addr4 [192; 0; 2; 7]] [] None)).

Definition border : Server :=
  mkServer [2; 0; 0; 0; 0; 9] [[73; 0; 1]] 6 ∅ 0 [border_circuit]
    {[ Level1 := border_db Level1 [mkIPReach 5 false area_net []]; Level2 := border_db Level2 [mkIPReach 5 false far_net []] ]}
    false false zeroTime ∅ 1492 zeroTime false ∅ ∅ ∅ ∅ ∅ ∅ false [].

Definition border_rib : RIB unit :=
  mkRIB [] [] ∅ ∅ tt ∅ ∅ ∅ ∅ ∅ ∅ ∅ (Some (fun _ => true)) None [].

Definition border_update : outcome (Server * RIB unit) :=
  updateRIB (fun _ => map_to_list) (T := tentSet) (fun _ _ _ => map_to_list) (fun _ _ _ => map_to_list) (fun _ => map_to_list)
    (fun _ => map_to_list) border border_rib 0.

Lemma border_ok {A} (f : Server -> RIB unit -> option A) (a : A) :
  match border_update with Ok (s', b') => f s' b' | _ => None end = Some a ->
  exists s' b', border_update = Ok (s', b') /\ f s' b' = Some a.
Proof.
  generalize border_update. intros [[s' b']|e|] K; [exists s', b'; split; [reflexivity|exact K]|discriminate K..].
Qed.

(** System 7's Level-2 prefix is in the RIB as the one candidate, of class 2. *)
Lemma updateRIB_selects_witness :
  exists s' b' ri r, border_update = Ok (s', b') /\ rib b' !! far_net = Some ri /\
    RI_NextHops ri = [mkNextHop "eth0" (Addr4 [192; 0; 2; 7])] /\ RI_Preference ri = 2 /\
    candidate (T := tentSet) (fun _ _ _ => map_to_list) (fun _ _ _ => map_to_list) (fun _ => map_to_list) border 0
      border_rib Level2 0 far_net r /\ class_of r 2 /\
    next_hops_of border border_rib far_net (r_nextHops r) (RI_NextHops ri).
Proof.
  destruct (border_ok (fun _ b' => rib b' !! far_net) (mkRouteInfo far_net 15 Level2 2 0 [mkNextHop "eth0" (Addr4 [192; 0; 2; 7])]))
    as (s' & b' & E & Hri); [vm_compute; reflexivity|].
  destruct (proj1 (updateRIB_selects (T := tentSet) (fun _ => map_to_list) (fun _ _ _ => map_to_list) (fun _ _ _ => map_to_list)
    (fun _ => map_to_list) (fun _ => map_to_list) border 0 (fun _ m => reflexivity _) border_rib s' b' far_net _ E) Hri)
    as (l & a & r & n & H1 & _ & _ & H2 & H3 & _ & H4).
  injection H3 as _ <- <- <- _.
  exists s', b', (mkRouteInfo far_net 15 Level2 2 0 [mkNextHop "eth0" (Addr4 [192; 0; 2; 7])]), r.
  exact (conj E (conj Hri (conj eq_refl (conj eq_refl (conj H1 (conj H2 H4)))))).
Defined.

Lemma updateRIB_exchange_witness :
  exists s' b', border_update = Ok (s', b') /\ l1Export b' !! area_net = Some 15 /\ l2Leak b' !! far_net = Some 15 /\
    l2Leak b' !! area_net = None /\ lspGenPending s' = true.
Proof.
  destruct (border_ok (fun _ b' => Some (l1Export b' !! area_net, l2Leak b' !! far_net)) (Some 15, Some 15))
    as (s' & b' & E & [= K1 K2]); [vm_compute; reflexivity|].
  destruct (updateRIB_exchange (T := tentSet) (fun _ => map_to_list) (fun _ _ _ => map_to_list) (fun _ _ _ => map_to_list)
    (fun _ => map_to_list) (fun _ => map_to_list) border 0 (fun _ m => reflexivity _) border_rib s' b' (Forall_nil_2 _) E) as (_ & H1 & _ & H2).
  exists s', b'. split; [exact E|]. split; [exact K1|]. split; [exact K2|]. split; [apply (H1 area_net 15 K1)|].
  rewrite H2. rewrite (bool_decide_false (l2Leak b' = l2Leak border_rib)); [by rewrite orb_true_r|].
  clear E. intros Hb. rewrite Hb in K2. cbn [border_rib l2Leak] in K2. rewrite lookup_empty in K2. discriminate K2.
Defined.
