(* ===== verification/EndX.v ===== *)
(** pkg/server/srv6_endx.go and the local SIDs of server.go, over the whole
    [IsisServer]: the record [Node] puts the protocol state ([Server]) and the
    routing state ([RIB]) together with the fields that origination and the SRv6
    SIDs use. *)

From stdpp Require Import sorting strings.
From S2P Require Import Prelude.
From S2P Require Import Netip.
From S2P Require Import Ids.
From S2P Require Import Sid.
From S2P Require Import SubTLV.
From S2P Require Import Entries.
From S2P Require Import Locator.
From S2P Require Import Tlv.
From S2P Require Import Checksum.
From S2P Require Import Pdu.
From S2P Require Import Circuit.
From S2P Require Import Lsdb.
From S2P Require Import EdgeLog.
From S2P Require Import Server.
From S2P Require Import FlexAlgo.
From S2P Require Import Rib.
Local Open Scope Z_scope.

(** ** State *)

Record endXKey : Set := mkEndXKey { k_locator : Prefix; k_circuit : string; k_neighbor : SystemID }.
#[export] Instance endXKey_eq_dec : EqDecision endXKey.
Proof. solve_decision. Defined.
#[export] Instance endXKey_countable : Countable endXKey.
Proof.
  refine (inj_countable' (fun k => (k_locator k, k_circuit k, k_neighbor k)) (fun '(l, c, n) => mkEndXKey l c n) _).
  by intros [].
Defined.

Record endXSID : Set := mkEndXSID { sid : Addr; function : Z; nexthop : Addr }.

Abbreviation endXAdjKey := (string * SystemID)%type.

Record Node (F : Type) : Type := mkNode {
  core : Server;
  routing : RIB F;
  hostname : bytes;
  advertiseFilter : option (AdvertisedPrefix -> bool);
  circuitPrefixes : gmap string (list Prefix);
  optionConnected : gset Prefix;
  endXSIDs : gmap endXKey endXSID;
  endXNoNexthop : gset endXAdjKey;
  sidPending : gset Addr;
  sidFailed : gset Addr;
  ticks : Z;
  overloadOnStartup : Z;
  lspMTUCap : Z;
  nextExtCircID : Z;
  pseudonodeCursor : Z
}.
#[global] Arguments mkNode {F}.
#[global] Arguments core {F}.
#[global] Arguments routing {F}.
#[global] Arguments hostname {F}.
#[global] Arguments advertiseFilter {F}.
#[global] Arguments circuitPrefixes {F}.
#[global] Arguments optionConnected {F}.
#[global] Arguments endXSIDs {F}.
#[global] Arguments endXNoNexthop {F}.
#[global] Arguments sidPending {F}.
#[global] Arguments sidFailed {F}.
#[global] Arguments ticks {F}.
#[global] Arguments overloadOnStartup {F}.
#[global] Arguments lspMTUCap {F}.
#[global] Arguments nextExtCircID {F}.
#[global] Arguments pseudonodeCursor {F}.

Section Setters.
Context {F : Type}.
Definition set_core (n : Node F) (s : Server) : Node F :=
  mkNode s (routing n) (hostname n) (advertiseFilter n) (circuitPrefixes n) (optionConnected n) (endXSIDs n)
    (endXNoNexthop n) (sidPending n) (sidFailed n) (ticks n) (overloadOnStartup n) (lspMTUCap n) (nextExtCircID
    n) (pseudonodeCursor n).
Definition set_routing (n : Node F) (b : RIB F) : Node F :=
  mkNode (core n) b (hostname n) (advertiseFilter n) (circuitPrefixes n) (optionConnected n) (endXSIDs n)
    (endXNoNexthop n) (sidPending n) (sidFailed n) (ticks n) (overloadOnStartup n) (lspMTUCap n) (nextExtCircID
    n) (pseudonodeCursor n).
Definition set_endXSIDs (n : Node F) (m : gmap endXKey endXSID) : Node F :=
  mkNode (core n) (routing n) (hostname n) (advertiseFilter n) (circuitPrefixes n) (optionConnected n) m
    (endXNoNexthop n) (sidPending n) (sidFailed n) (ticks n) (overloadOnStartup n) (lspMTUCap n) (nextExtCircID
    n) (pseudonodeCursor n).
Definition set_noNexthop (n : Node F) (w : gset endXAdjKey) : Node F :=
  mkNode (core n) (routing n) (hostname n) (advertiseFilter n) (circuitPrefixes n) (optionConnected n)
    (endXSIDs n) w (sidPending n) (sidFailed n) (ticks n) (overloadOnStartup n) (lspMTUCap n) (nextExtCircID n)
    (pseudonodeCursor n).
(** The forwarding table, the pending removals and the failures logged. *)
Definition set_sids (n : Node F) (f : F) (pending failed : gset Addr) : Node F :=
  mkNode (core n) (set_fib (routing n) f (fibPending (routing n)) (fibInstalled (routing n))) (hostname n)
    (advertiseFilter n) (circuitPrefixes n) (optionConnected n) (endXSIDs n) (endXNoNexthop n) pending failed
    (ticks n) (overloadOnStartup n) (lspMTUCap n) (nextExtCircID n) (pseudonodeCursor n).
Definition set_ticks (n : Node F) (t : Z) : Node F :=
  mkNode (core n) (routing n) (hostname n) (advertiseFilter n) (circuitPrefixes n) (optionConnected n)
    (endXSIDs n) (endXNoNexthop n) (sidPending n) (sidFailed n) t (overloadOnStartup n) (lspMTUCap n)
    (nextExtCircID n) (pseudonodeCursor n).
Definition set_circuitPrefixes (n : Node F) (m : gmap string (list Prefix)) : Node F :=
  mkNode (core n) (routing n) (hostname n) (advertiseFilter n) m (optionConnected n) (endXSIDs n)
    (endXNoNexthop n) (sidPending n) (sidFailed n) (ticks n) (overloadOnStartup n) (lspMTUCap n) (nextExtCircID
    n) (pseudonodeCursor n).
(** The last extended circuit ID and pseudonode octet handed out. *)
Definition set_ids (n : Node F) (ext pn : Z) : Node F :=
  mkNode (core n) (routing n) (hostname n) (advertiseFilter n) (circuitPrefixes n) (optionConnected n)
    (endXSIDs n) (endXNoNexthop n) (sidPending n) (sidFailed n) (ticks n) (overloadOnStartup n) (lspMTUCap n)
    ext pn.
Definition node_emit (n : Node F) (e : rib_effect) : Node F := set_routing n (rib_emit (routing n) e).
End Setters.

(** ** The configuration of a locator (config.go) *)

Definition endSID (lc : SRv6LocatorConfig) : Addr := p_addr (Masked (LC_Prefix lc)).

Definition sidStructure (lc : SRv6LocatorConfig) : SIDStructure :=
  let bits := p_bits (LC_Prefix lc) in
  let block := if bits <? 32 then bits else 32 in
  let node := bits - block in
  let fn := if 128 <? block + node + 16 then 128 - block - node else 16 in
  mkSIDStructure (u8 block) (u8 node) (u8 fn) 0.

Definition SRv6BehaviorEnd : Z := 1.
Definition SRv6BehaviorEndX : Z := 5.

Definition locatorEntry (lc : SRv6LocatorConfig) : SRv6Locator :=
  mkLocator 0 0 (LC_Algo lc) (Masked (LC_Prefix lc))
    [mkSRv6EndSID 0 SRv6BehaviorEnd (endSID lc) (Some (sidStructure lc)) []] [].

(** ** Adjacencies and their next hops *)

(** [sortedSystemIDs] of the adjacencies of [ls], the last one of a system
    standing for it; the loops of the program visit a map built this way. *)
Definition by_system (ls : list adjacency) : gmap SystemID adjacency :=
  fold_left (fun m a => <[a_systemID a := a]> m) ls ∅.

Definition sysid_order (a b : SystemID * adjacency) : Prop := bytes_compare a.1 b.1 <> Gt.
#[export] Instance sysid_order_dec a b : Decision (sysid_order a b).
Proof. unfold sysid_order. solve_decision. Defined.

Definition sortedSystemIDs (m : gmap SystemID adjacency) : list (SystemID * adjacency) :=
  merge_sort sysid_order (map_to_list m).

(** The adjacencies of one circuit. *)
Definition circuit_endXAdjs (c : circuit) : list adjacency :=
  if P2P (cfg c) then
    match p2pAdj c with Some a => if is_up (a_state a) then [a] else [] | None => [] end
  else (sortedSystemIDs (by_system (cfg_levels (cfg c) ≫= upAdjacencies c))).*2.

Definition endXAdjs (s : Server) : list (circuit * adjacency) :=
  circuits s ≫= fun c => map (pair c) (circuit_endXAdjs c).

(** Any connected prefix will do, so the order of the map does not matter. *)
Definition onLinkAddr {F} (n : Node F) (c : circuit) (addrs : list Addr) : Addr :=
  default AddrZero (List.find (fun a =>
    Is6 a && negb (Is4In6 a) && IsGlobalUnicast a &&
    (existsb (fun p => Contains p a) (default [] (circuitPrefixes n !! Name (cfg c))) ||
     existsb (fun p => Contains p a) (elements (optionConnected n)))) addrs).

Definition neighborLSP (s : Server) (l : Level) (id : SystemID) (now : Z) : option lspEntry :=
  e ← db_get s l (lspID id 0); if live e now then Some e else None.

(** The first valid address of a list of candidates. *)
Definition first_valid (l : list Addr) : Addr := default AddrZero (List.find IsValid l).

Definition endXNexthop {F} (n : Node F) (c : circuit) (a : adjacency) (now : Z) : Addr :=
  first_valid (onLinkAddr n c (a_neighborIPv6 a) ::
    (levelSet_levels (a_levels a) ≫= fun l =>
       match neighborLSP (core n) l (a_systemID a) now with
       | None => []
       | Some e => LSP_TLVs (e_lsp e) ≫= fun t =>
           match t with IPv6InterfaceAddressesTLV addrs => [onLinkAddr n c addrs] | _ => [] end
       end)).

Definition endXParticipates {F} (n : Node F) (lc : SRv6LocatorConfig) (a : adjacency) (now : Z) : bool :=
  (LC_Algo lc =? 0) ||
  existsb (fun l => match neighborLSP (core n) l (a_systemID a) now with
                    | Some e => lspParticipatesInAlgo e (LC_Algo lc)
                    | None => false
                    end) (levelSet_levels (a_levels a)).

(** ** Allocation *)

(** [b[pos/8] |= 1 << (7 - pos%8)]; an index out of the array panics. *)
Definition set_bit (b : bytes) (pos : Z) : outcome bytes :=
  let i := Z.quot pos 8 in
  x ← (if i <? 0 then Panic else idx b (Z.to_nat i));
  mret (<[Z.to_nat i := Z.lor x (u8 (Z.shiftl 1 (7 - Z.rem pos 8)))]> b).

(** The loop of [locatorSID] from bit [i] on, [n] bits being left. *)
Fixpoint place_bits (b : bytes) (first fnBits fn : Z) (n : nat) (i : Z) : outcome bytes :=
  match n with
  | O => mret b
  | S n =>
      if Z.land (Z.shiftr fn (fnBits - 1 - i)) 1 =? 0 then place_bits b first fnBits fn n (i + 1)
      else b ← set_bit b (first + i); place_bits b first fnBits fn n (i + 1)
  end.

Definition locatorSID (loc : Prefix) (fnBits fn : Z) : outcome Addr :=
  b ← place_bits (As16 (p_addr loc)) (p_bits loc) fnBits fn (Z.to_nat fnBits) 0; mret (Addr6 b).

Section EndX.
Context {F : Type} `{FIB F}.

Definition usedFunctions (n : Node F) (loc : Prefix) : gset Z :=
  list_to_set (omap (fun ke => if bool_decide (k_locator ke.1 = loc) then Some (function ke.2) else None)
    (map_to_list (endXSIDs n))).

Definition functionBits (lc : SRv6LocatorConfig) : Z := Function_ (sidStructure lc).

(** [for fn := uint32(1); fn < 1<<bits; fn++], over [k] turns at most. *)
Fixpoint scan_functions (used : gset Z) (limit fn : Z) (k : nat) : option Z :=
  match k with
  | O => None
  | S k =>
      if fn <? limit then if bool_decide (fn ∈ used) then scan_functions used limit (fn + 1) k else Some fn
      else None
  end.

Definition freeFunction (n : Node F) (lc : SRv6LocatorConfig) : option Z :=
  let limit := 2 ^ functionBits lc in
  scan_functions (usedFunctions n (Masked (LC_Prefix lc))) limit 1 (Z.to_nat limit).

Definition allocEndXSID (n : Node F) (lc : SRv6LocatorConfig) : outcome (option endXSID * Node F) :=
  let loc := Masked (LC_Prefix lc) in
  let bits := functionBits lc in
  if bits =? 0 then mret (None, node_emit n (RibWarned "SRv6 locator leaves no function bits for End.X SIDs")) else
  match freeFunction n lc with
  | Some fn => a ← locatorSID loc bits fn; mret (Some (mkEndXSID a fn AddrZero), n)
  | None => mret (None, node_emit n (RibWarned "SRv6 locator function space exhausted; no End.X SID allocated"))
  end.

(** ** The forwarding table (server.go) *)

Definition programSID (n : Node F) (ls : LocalSID) : Node F :=
  let '(f, ok) := AddLocalSID (fib (routing n)) ls in
  let pending := sidPending n ∖ {[ LS_SID ls ]} in
  if ok : bool then set_sids n f pending (edge_recovered (LS_SID ls) (sidFailed n)).1
  else
    let n := node_emit (set_sids n f pending (sidFailed n)) (FIBError fibOpAddSID) in
    let '(w, fired) := edge_warn (LS_SID ls) (sidFailed n) in
    let n := set_sids n f pending w in
    if fired : bool then node_emit n (RibWarned "install local SID") else n.

Definition unprogramSID (n : Node F) (a : Addr) : Node F :=
  let '(f, ok) := RemoveLocalSID (fib (routing n)) a in
  if ok : bool then set_sids n f (sidPending n ∖ {[ a ]}) (edge_recovered a (sidFailed n)).1
  else
    let pending := {[ a ]} ∪ sidPending n in
    let n := node_emit (set_sids n f pending (sidFailed n)) (FIBError fibOpRemoveSID) in
    let '(w, fired) := edge_warn a (sidFailed n) in
    let n := set_sids n f pending w in
    if fired : bool then node_emit n (RibWarned "remove local SID") else n.

(** The order in which the [k]-th loop visits the SIDs. *)
Context (sid_order : nat -> gmap endXKey endXSID -> list (endXKey * endXSID)).

Definition endX_localSID (ke : endXKey * endXSID) : LocalSID :=
  mkLocalSID (sid ke.2) BehaviorEndX 0 (nexthop ke.2) (k_circuit ke.1).

Definition installEndXSIDs (n : Node F) : Node F :=
  fold_left programSID (endX_localSID <$> sid_order 0%nat (endXSIDs n)) n.

Definition end_localSID (lc : SRv6LocatorConfig) : LocalSID :=
  mkLocalSID (endSID lc) BehaviorEnd 0 AddrZero "".

Definition localSIDs (n : Node F) : list Addr :=
  (endSID <$> locators (routing n)) ++ ((fun ke => sid ke.2) <$> sid_order 1%nat (endXSIDs n)).

Definition installLocalSIDs (n : Node F) : Node F :=
  installEndXSIDs (fold_left programSID (end_localSID <$> locators (routing n)) n).

Definition removeLocalSIDs (n : Node F) : Node F := fold_left unprogramSID (localSIDs n) n.

(** ** The reconciliation *)

Record want : Set := mkWant { w_key : endXKey; w_locator : SRv6LocatorConfig; w_nexthop : Addr }.

(** The node and the variables of the first loop of [syncEndXSIDs]. *)
Record scan : Type := mkScan {
  sc_node : Node F; wanted : list want; live_keys : gset endXKey; adjs_seen : gset endXAdjKey
}.

Definition adj_key (ca : circuit * adjacency) : endXAdjKey := (Name (cfg ca.1), a_systemID ca.2).

Definition sid_key (lc : SRv6LocatorConfig) (ca : circuit * adjacency) : endXKey :=
  mkEndXKey (Masked (LC_Prefix lc)) (adj_key ca).1 (adj_key ca).2.

(** What an adjacency with a next hop wants: a SID of each locator whose
    algorithm the neighbor takes part in. *)
Definition wants (n : Node F) (ca : circuit * adjacency) (nh : Addr) (now : Z) : list want :=
  (fun lc => mkWant (sid_key lc ca) lc nh) <$>
    List.filter (fun lc => endXParticipates n lc ca.2 now) (locators (routing n)).

Definition scan_step (now : Z) (x : scan) (ca : circuit * adjacency) : scan :=
  let n := sc_node x in
  let ak := adj_key ca in
  let nh := endXNexthop n ca.1 ca.2 now in
  if negb (IsValid nh) then
    mkScan (if bool_decide (ak ∈ endXNoNexthop n) then n
            else node_emit (set_noNexthop n ({[ ak ]} ∪ endXNoNexthop n))
                   (RibWarned "no on-link global IPv6 address for neighbor; no End.X SID advertised"))
      (wanted x) (live_keys x) ({[ ak ]} ∪ adjs_seen x)
  else
    let n := set_noNexthop n (endXNoNexthop n ∖ {[ ak ]}) in
    let ws := wants n ca nh now in
    mkScan n (wanted x ++ ws) (list_to_set (w_key <$> ws) ∪ live_keys x) ({[ ak ]} ∪ adjs_seen x).

Definition release_step (live : gset endXKey) (n : Node F) (ke : endXKey * endXSID) : Node F :=
  if bool_decide (ke.1 ∈ live) then n
  else let n := unprogramSID n (sid ke.2) in set_endXSIDs n (delete ke.1 (endXSIDs n)).

Definition assign (n : Node F) (w : want) (e : endXSID) : Node F :=
  set_endXSIDs n (<[w_key w := mkEndXSID (sid e) (function e) (w_nexthop w)]> (endXSIDs n)).

Definition assign_step (n : Node F) (w : want) : outcome (Node F) :=
  match endXSIDs n !! w_key w with
  | Some e => mret (assign n w e)
  | None =>
      '(r, n) ← allocEndXSID n (w_locator w);
      mret (match r with Some e => assign n w e | None => n end)
  end.

Fixpoint assign_loop (n : Node F) (ws : list want) : outcome (Node F) :=
  match ws with [] => mret n | w :: ws => n ← assign_step n w; assign_loop n ws end.

Definition syncEndXSIDs (n : Node F) (now : Z) : outcome (Node F) :=
  if (length (locators (routing n)) =? 0)%nat && bool_decide (endXSIDs n = ∅) then mret (set_noNexthop n ∅) else
  let x := fold_left (scan_step now) (endXAdjs (core n)) (mkScan n [] ∅ ∅) in
  let n := sc_node x in
  let n := set_noNexthop n (filter (fun k => k ∈ adjs_seen x) (endXNoNexthop n)) in
  let n := fold_left (release_step (live_keys x)) (sid_order 2%nat (endXSIDs n)) n in
  n ← assign_loop n (wanted x);
  mret (installEndXSIDs n).

(** ** What is advertised *)

Definition endXSubTLV (n : Node F) (lc : SRv6LocatorConfig) (c : circuit) (a : adjacency) : option SRv6EndXSIDSubTLV :=
  e ← endXSIDs n !! sid_key lc (c, a);
  Some (mkEndX 0 (LC_Algo lc) 0 SRv6BehaviorEndX (sid e) (Some (sidStructure lc)) []).

Definition endXSubTLVs (n : Node F) (c : circuit) (a : adjacency) : list SubTLV :=
  omap (fun lc => SubEndX <$> endXSubTLV n lc c a) (locators (routing n)).

Definition lanEndXSubTLVs (n : Node F) (c : circuit) (l : Level) : list SubTLV :=
  sortedSystemIDs (by_system (advertisedAdjacencies c l)) ≫= fun ia =>
    omap (fun lc => SubLANEndX ia.1 <$> endXSubTLV n lc c ia.2) (locators (routing n)).

Record EndXSIDInfo : Set := mkEndXSIDInfo { EI_SID : Addr; EI_Neighbor : SystemID; EI_Interface : string }.

Definition ascii_bytes (s : string) : bytes :=
  map (fun c => Z.of_N (Ascii.N_of_ascii c)) (String.list_ascii_of_string s).

Definition info_le (a b : EndXSIDInfo) : Prop :=
  if decide (EI_Interface a = EI_Interface b) then bytes_compare (EI_Neighbor a) (EI_Neighbor b) <> Gt
  else bytes_compare (ascii_bytes (EI_Interface a)) (ascii_bytes (EI_Interface b)) <> Gt.
#[local] Instance info_le_dec (a b : EndXSIDInfo) : Decision (info_le a b).
Proof. unfold info_le. destruct (decide _); solve_decision. Defined.

Definition endXSIDInfos (n : Node F) (locator : Prefix) : list EndXSIDInfo :=
  merge_sort info_le (omap (fun ke =>
    if bool_decide (k_locator ke.1 = locator) then Some (mkEndXSIDInfo (sid ke.2) (k_neighbor ke.1) (k_circuit ke.1))
    else None) (map_to_list (endXSIDs n))).
End EndX.
