(* ===== verification/EndXSpec.v ===== *)
(** SRv6 End.X SIDs: the address [locatorSID] names, and what
    [syncEndXSIDs] keeps of them. *)

From stdpp Require Import sorting strings.
From S2P Require Import Prelude.
From S2P Require Import Netip.
From S2P Require Import Ids.
From S2P Require Import Sid.
From S2P Require Import SubTLV.
From S2P Require Import Entries.
From S2P Require Import Tlv.
From S2P Require Import Checksum.
From S2P Require Import Pdu.
From S2P Require Import Auth.
From S2P Require Import Circuit.
From S2P Require Import Lsdb.
From S2P Require Import EdgeLog.
From S2P Require Import Server.
From S2P Require Import FlexAlgo.
From S2P Require Import Rib.
From S2P Require Import EndX.
Local Open Scope Z_scope.

(** ** The bits of an address *)

(** Bit [q] from the left. *)
Definition bit (b : bytes) (q : Z) : bool := Z.testbit (nth (Z.to_nat (q / 8)) b 0) (7 - q mod 8).

Lemma mask_octet_bit n x q : 0 <= q < 8 -> byte_ok x -> Z.testbit (mask_octet n x) (7 - q) = (q <? n) && Z.testbit x (7 - q).
Proof.
  intros Hq Hx. unfold mask_octet. case_match eqn:E1; [rewrite Z.bits_0; by rewrite (proj2 (Z.ltb_ge q n)) by lia|].
  case_match eqn:E2; [by rewrite (proj2 (Z.ltb_lt q n)) by lia|].
  rewrite Z.shiftl_spec by lia. destruct (q <? n) eqn:E; simpl.
  - rewrite Z.shiftr_spec by lia. f_equal. lia.
  - apply Z.testbit_neg_r. lia.
Qed.

Lemma bit_cons x b q : 0 <= q -> bit (x :: b) q = if q <? 8 then Z.testbit x (7 - q) else bit b (q - 8).
Proof.
  intros Hq. unfold bit. case_match eqn:E.
  - by rewrite Z.div_small, Z.mod_small by lia.
  - replace (q mod 8) with ((q - 8) mod 8) by (rewrite <- (Z_mod_plus_full (q - 8) 1 8); f_equal; lia).
    replace (Z.to_nat (q / 8)) with (S (Z.to_nat ((q - 8) / 8))); [done|].
    replace q with ((q - 8) + 1 * 8) at 2 by lia. rewrite Z_div_plus_full by lia.
    assert (0 <= (q - 8) / 8) by (apply Z.div_pos; lia). lia.
Qed.

Lemma bit_mask n b q : 0 <= q -> bytes_ok b -> bit (mask_bytes n b) q = (q <? n) && bit b q.
Proof.
  intros Hq Hb. revert n q Hq. induction Hb as [|x b Hx Hb IH]; intros n q Hq; cbn [mask_bytes].
  { unfold bit. destruct (Z.to_nat (q / 8)); simpl; by rewrite Z.bits_0, andb_false_r. }
  rewrite !bit_cons by done. case_match; [apply mask_octet_bit; [lia|done]|]. rewrite IH by lia. f_equal. lia.
Qed.

Lemma mask_bytes_set n b i x y :
  b !! i = Some x -> mask_octet (n - 8 * Z.of_nat i) y = mask_octet (n - 8 * Z.of_nat i) x ->
  mask_bytes n (<[i := y]> b) = mask_bytes n b.
Proof.
  revert n i. induction b as [|z b IH]; intros n i Hi Hm; [done|]. destruct i as [|i]; cbn in Hi |- *.
  - injection Hi as ->. change (8 * Z.of_nat 0) with 0 in Hm. rewrite Z.sub_0_r in Hm. by rewrite Hm.
  - f_equal. apply IH; [done|]. by replace (n - 8 - 8 * Z.of_nat i) with (n - 8 * Z.of_nat (S i)) by lia.
Qed.

Lemma mask_octet_lor n x r : 0 <= r < 8 -> n <= r -> mask_octet n (Z.lor x (2 ^ (7 - r))) = mask_octet n x.
Proof.
  intros Hr Hn. unfold mask_octet. repeat case_match; [done|lia|]. f_equal. rewrite Z.shiftr_lor.
  replace (Z.shiftr (2 ^ (7 - r)) (8 - n)) with 0; [apply Z.lor_0_r|].
  symmetry. apply Z.shiftr_eq_0; [lia|]. rewrite Z.log2_pow2 by lia. lia.
Qed.

(** One bit set: the others, and the octets before it, stay as they are. *)
Lemma set_bit_spec b pos :
  length b = 16%nat -> 0 <= pos < 128 ->
  exists b', set_bit b pos = Ok b' /\ length b' = 16%nat /\
    (forall q, 0 <= q -> bit b' q = (q =? pos) || bit b q) /\
    (forall n, n <= pos -> mask_bytes n b' = mask_bytes n b).
Proof.
  intros Hl Hp. unfold set_bit. rewrite Z.quot_div_nonneg, Z.rem_mod_nonneg by lia.
  pose proof (Z.div_pos pos 8) as H1. pose proof (Z.mod_pos_bound pos 8) as H2. pose proof (Z_div_mod_eq_full pos 8) as H3.
  rewrite (proj2 (Z.ltb_ge (pos / 8) 0)) by lia. set (i := Z.to_nat (pos / 8)).
  destruct (lookup_lt_is_Some_2 b i) as [x Hx]; [unfold i; lia|]. rewrite (proj2 (idx_Ok _ _ _) Hx). simpl.
  eexists. split; [done|]. split; [by rewrite length_insert|].
  assert (Hu : u8 (Z.shiftl 1 (7 - pos mod 8)) = 2 ^ (7 - pos mod 8)).
  { rewrite Z.shiftl_1_l. unfold u8. apply Z.mod_small. split; [apply Z.pow_nonneg; lia|].
    change 256 with (2 ^ 8). apply Z.pow_lt_mono_r; lia. }
  rewrite Hu. split.
  - intros q Hq. unfold bit. rewrite !nth_lookup. destruct (decide (i = Z.to_nat (q / 8))) as [He|Hne].
    + pose proof (Z.mod_pos_bound q 8) as Hm.
      rewrite He, list_lookup_insert_eq, <- He, Hx by (rewrite <- He; unfold i; lia). simpl. rewrite Z.lor_spec, orb_comm. f_equal.
      rewrite Z.pow2_bits_eqb by lia. assert (q / 8 = pos / 8) by (unfold i in He; pose proof (Z.div_pos q 8); lia).
      pose proof (Z_div_mod_eq_full q 8). apply eq_true_iff_eq. rewrite !Z.eqb_eq. lia.
    + rewrite list_lookup_insert_ne by done. destruct (q =? pos) eqn:E; [|done]. apply Z.eqb_eq in E as ->. done.
  - intros n Hn. apply mask_bytes_set with x; [done|]. apply mask_octet_lor; unfold i; lia.
Qed.

(** The function value lands in the bits after the locator. *)
Lemma place_bits_spec first fnBits fn n i b :
  length b = 16%nat -> 0 <= first -> 0 <= i -> first + i + Z.of_nat n <= 128 ->
  exists b', place_bits b first fnBits fn n i = Ok b' /\ length b' = 16%nat /\
    (forall q, 0 <= q -> bit b' q =
       (((first + i <=? q) && (q <? first + i + Z.of_nat n)) && Z.testbit fn (fnBits - 1 - (q - first))) || bit b q) /\
    (forall m, m <= first -> mask_bytes m b' = mask_bytes m b).
Proof.
  intros Hl Hf. revert i b Hl. induction n as [|n IH]; intros i b Hl Hi Hle; cbn [place_bits].
  { exists b. split; [done|]. split; [done|]. split; [|done]. intros q Hq.
    replace ((first + i <=? q) && (q <? first + i + Z.of_nat 0)) with false by lia. done. }
  assert (Hbit : forall q, Z.land (Z.shiftr fn q) 1 =? 0 = negb (Z.testbit fn q)) by
    (intros q; change 1 with (Z.ones 1); rewrite Z.land_ones, Z.testbit_odd by lia; change (2 ^ 1) with 2;
     rewrite Zmod_odd; by destruct (Z.odd _)).
  rewrite Hbit. destruct (Z.testbit fn (fnBits - 1 - i)) eqn:E; cbn [negb].
  - destruct (set_bit_spec b (first + i) Hl ltac:(lia)) as (b1 & -> & Hl1 & Hb1 & Hm1). cbn [mbind outcome_bind].
    destruct (IH (i + 1) b1 Hl1 ltac:(lia) ltac:(lia)) as (b' & -> & Hl' & Hb' & Hm'). exists b'.
    split; [done|]. split; [done|]. split; [|intros m Hm; by rewrite Hm', Hm1 by lia].
    intros q Hq. rewrite Hb', Hb1 by done. rewrite orb_assoc. f_equal. destruct (q =? first + i) eqn:Eq.
    + apply Z.eqb_eq in Eq as ->. replace (fnBits - 1 - (first + i - first)) with (fnBits - 1 - i) by lia. rewrite E. lia.
    + rewrite orb_false_r. f_equal. lia.
  - destruct (IH (i + 1) b Hl ltac:(lia) ltac:(lia)) as (b' & -> & Hl' & Hb' & Hm'). exists b'.
    split; [done|]. split; [done|]. split; [|done]. intros q Hq. rewrite Hb' by done. f_equal.
    destruct (decide (q = first + i)) as [->|Hne]; [|f_equal; lia].
    replace (fnBits - 1 - (first + i - first)) with (fnBits - 1 - i) by lia. by rewrite E, !andb_false_r.
Qed.

(** ** The address of a function *)

(** A masked IPv6 prefix. *)
Definition locator_ok (p : Prefix) : Prop :=
  exists b, p_addr p = Addr6 b /\ arr 16 b /\ 0 <= p_bits p <= 128 /\ mask_bytes (p_bits p) b = b.

Definition function_bits (p : Prefix) : Z := functionBits (mkLocatorConfig p 0).

Lemma function_bits_range p : 0 <= p_bits p <= 128 -> 0 <= function_bits p <= 16 /\ p_bits p + function_bits p <= 128.
Proof.
  intros H. unfold function_bits, functionBits, sidStructure, u8. cbn [LC_Prefix Function_].
  repeat case_match; rewrite Z.mod_small; lia.
Qed.

(** A configured locator: its masked prefix names the SIDs. *)
Definition config_ok (lc : SRv6LocatorConfig) : Prop :=
  exists b, p_addr (LC_Prefix lc) = Addr6 b /\ arr 16 b /\ 0 <= p_bits (LC_Prefix lc) <= 128.

Lemma config_masked lc :
  config_ok lc -> locator_ok (Masked (LC_Prefix lc)) /\ functionBits lc = function_bits (Masked (LC_Prefix lc)).
Proof.
  intros (b & Ha & [Hl Hb] & Hr). destruct lc as [[a n] al]. cbn in *. subst a. unfold Masked. cbn [p_addr p_bits BitLen IsValid].
  replace ((n <? 0) || (128 <? n) || negb true) with false by lia. split; [|done].
  exists (mask_bytes n b). split; [done|]. split; [split; [|by apply mask_bytes_ok]|split; [done|apply mask_bytes_idem]].
  clear Hb Hr. rewrite <- Hl. clear Hl. revert n. induction b as [|x b IH]; intros n; cbn; [done|]. by rewrite IH.
Qed.

(** What [locatorSID] returns: an address of the locator's prefix, whose
    function bits are the ones asked for. *)
Definition names (p : Prefix) (fn : Z) (a : Addr) : Prop :=
  exists b, a = Addr6 b /\ Contains p a = true /\
    forall i, 0 <= i < function_bits p -> bit b (p_bits p + i) = Z.testbit fn (function_bits p - 1 - i).

Lemma locatorSID_names p fn : locator_ok p -> exists a, locatorSID p (function_bits p) fn = Ok a /\ names p fn a.
Proof.
  intros (b & Ha & [Hl Hb] & Hr & Hm). pose proof (function_bits_range p Hr) as [Hf1 Hf2]. unfold locatorSID. rewrite Ha. cbn [As16].
  destruct (place_bits_spec (p_bits p) (function_bits p) fn (Z.to_nat (function_bits p)) 0 b Hl) as (b' & -> & Hl' & Hb' & Hm'); [lia..|].
  exists (Addr6 b'). split; [done|]. exists b'. split; [done|]. split.
  - unfold Contains, PrefixIsValid. rewrite Ha. cbn [BitLen addr_bytes]. rewrite Hm' by lia.
    rewrite bool_decide_true by done. lia.
  - intros i Hi. rewrite Hb' by lia. rewrite <- Hm, bit_mask by (lia || done).
    replace (p_bits p + i <? p_bits p) with false by lia. rewrite andb_false_l, orb_false_r.
    replace (p_bits p + i - p_bits p) with i by lia.
    replace ((p_bits p + 0 <=? p_bits p + i) && (p_bits p + i <? p_bits p + 0 + Z.of_nat (Z.to_nat (function_bits p)))) with true by lia.
    done.
Qed.

(** The function can be read back from the address. *)
Lemma names_inj p f g a :
  0 <= f < 2 ^ function_bits p -> 0 <= g < 2 ^ function_bits p -> 0 <= function_bits p -> names p f a -> names p g a -> f = g.
Proof.
  intros Hf Hg H0 (b & -> & _ & Hb1) (b2 & [= <-] & _ & Hb2). apply Z.bits_inj'. intros n Hn.
  destruct (Z.lt_ge_cases n (function_bits p)) as [Hlt|Hge].
  - specialize (Hb1 (function_bits p - 1 - n) ltac:(lia)). specialize (Hb2 (function_bits p - 1 - n) ltac:(lia)).
    replace (function_bits p - 1 - (function_bits p - 1 - n)) with n in Hb1, Hb2 by lia. congruence.
  - assert (Ht : forall x, 0 <= x < 2 ^ function_bits p -> Z.testbit x n = false); [|by rewrite !Ht].
    intros x Hx. destruct (decide (x = 0)) as [->|Hx0]; [apply Z.bits_0|]. apply Z.bits_above_log2; [lia|].
    apply Z.lt_le_trans with (function_bits p); [apply Z.log2_lt_pow2|]; lia.
Qed.

(** Function 0 is the locator's own End SID. *)
Lemma end_names lc : config_ok lc -> names (Masked (LC_Prefix lc)) 0 (endSID lc).
Proof.
  intros H. destruct (config_masked lc H) as [(b & Ha & [Hl Hb] & Hr & Hm) Hf]. exists b. unfold endSID. rewrite Ha.
  split; [done|]. split.
  - unfold Contains, PrefixIsValid. rewrite Ha. cbn [BitLen addr_bytes]. rewrite bool_decide_true by done. lia.
  - intros i Hi. rewrite Z.bits_0, <- Hm, bit_mask by (lia || done). lia.
Qed.

(** ** The invariant *)

Lemma scan_functions_spec used limit k fn :
  limit - fn <= Z.of_nat k ->
  match scan_functions used limit fn k with
  | Some x => fn <= x < limit /\ x ∉ used /\ forall y, fn <= y < x -> y ∈ used
  | None => forall y, fn <= y < limit -> y ∈ used
  end.
Proof.
  revert fn. induction k as [|k IH]; intros fn Hk; cbn [scan_functions]; [intros y Hy; lia|].
  destruct (Z.ltb_spec fn limit); [|intros y Hy; lia]. case_bool_decide as Hu; [|split; [lia|split; [done|lia]]].
  specialize (IH (fn + 1) ltac:(lia)). destruct (scan_functions _ _ _ _) as [x|].
  - destruct IH as (H1 & H2 & H3). split; [lia|]. split; [done|]. intros y Hy.
    destruct (decide (y = fn)) as [->|]; [done|]. apply H3. lia.
  - intros y Hy. destruct (decide (y = fn)) as [->|]; [done|]. apply IH. lia.
Qed.

(** Every SID is the one its key's locator gives its function, which no other
    key of the locator has; function 0 is taken. *)
Record allocated (m : gmap endXKey endXSID) : Prop := {
  alloc_named k e : m !! k = Some e ->
    1 <= function e < 2 ^ function_bits (k_locator k) /\ names (k_locator k) (function e) (sid e);
  alloc_unique k1 k2 e1 e2 : m !! k1 = Some e1 -> m !! k2 = Some e2 ->
    k_locator k1 = k_locator k2 -> function e1 = function e2 -> k1 = k2
}.

Lemma allocated_sub m m' : m' ⊆ m -> allocated m -> allocated m'.
Proof.
  intros Hs [H1 H2]. split.
  - intros k e Hk. eapply H1, lookup_weaken; done.
  - intros k1 k2 e1 e2 Hk1 Hk2. apply (H2 k1 k2 e1 e2); by eapply lookup_weaken.
Qed.

(** A key that is new, or keeps its function and its SID. *)
Lemma allocated_insert m k e :
  allocated m -> 1 <= function e < 2 ^ function_bits (k_locator k) -> names (k_locator k) (function e) (sid e) ->
  (forall k' e', k' <> k -> m !! k' = Some e' -> k_locator k' = k_locator k -> function e' <> function e) ->
  allocated (<[k := e]> m).
Proof.
  intros [H1 H2] Hf Hn Hu. split.
  - intros k' e' [[<- <-]|[Hne Hk]]%lookup_insert_Some; [done|by apply H1].
  - intros k1 k2 e1 e2 [[<- <-]|[Hne1 Hk1]]%lookup_insert_Some [[<- <-]|[Hne2 Hk2]]%lookup_insert_Some Hl He; [done| | |].
    + destruct (Hu k2 e2); done.
    + destruct (Hu k1 e1); done.
    + by apply (H2 k1 k2 e1 e2).
Qed.

Section Sync.
Context {F : Type} `{FIB F}.

Lemma elem_used (n : Node F) loc fn :
  fn ∈ usedFunctions n loc <-> exists k e, endXSIDs n !! k = Some e /\ k_locator k = loc /\ function e = fn.
Proof.
  unfold usedFunctions. rewrite elem_of_list_to_set, list_elem_of_omap. split.
  - intros ([k e] & Hin%elem_of_map_to_list & Hc). cbn in Hc. case_bool_decide; [|done]. injection Hc as <-. by exists k, e.
  - intros (k & e & Hk & Hl & He). exists (k, e). split; [by apply elem_of_map_to_list|]. cbn. by rewrite bool_decide_true, He.
Qed.

(** The space is exhausted when every function of the locator is in use. *)
Definition exhausted (n : Node F) (loc : Prefix) : Prop :=
  forall fn, 1 <= fn < 2 ^ function_bits loc -> fn ∈ usedFunctions n loc.

Lemma freeFunction_spec (n : Node F) lc :
  config_ok lc ->
  match freeFunction n lc with
  | Some fn => 1 <= fn < 2 ^ function_bits (Masked (LC_Prefix lc)) /\ fn ∉ usedFunctions n (Masked (LC_Prefix lc)) /\
      forall fn', 1 <= fn' < fn -> fn' ∈ usedFunctions n (Masked (LC_Prefix lc))
  | None => exhausted n (Masked (LC_Prefix lc))
  end.
Proof using.
  intros Hc. destruct (config_masked lc Hc) as [_ Hb]. unfold freeFunction, exhausted. rewrite Hb.
  apply scan_functions_spec. lia.
Qed.

(** What the reconciliation reads of a node, and does not change. *)
Definition same_base (n n' : Node F) : Prop :=
  core n' = core n /\ circuitPrefixes n' = circuitPrefixes n /\ optionConnected n' = optionConnected n /\
  locators (routing n') = locators (routing n).

Lemma same_base_trans n1 n2 n3 : same_base n1 n2 -> same_base n2 n3 -> same_base n1 n3.
Proof. unfold same_base. intros (-> & -> & -> & ->) (-> & -> & -> & ->). done. Qed.

Lemma programSID_base n ls : same_base n (programSID n ls) /\ endXSIDs (programSID n ls) = endXSIDs n.
Proof. unfold programSID. by repeat case_match. Qed.

Lemma unprogramSID_base n a : same_base n (unprogramSID n a) /\ endXSIDs (unprogramSID n a) = endXSIDs n.
Proof. unfold unprogramSID. by repeat case_match. Qed.

(** ** Scanning, releasing, assigning *)

Definition wanted_by (n : Node F) (now : Z) (ca : circuit * adjacency) : list want :=
  let nh := endXNexthop n ca.1 ca.2 now in if IsValid nh then wants n ca nh now else [].

Lemma wanted_by_base n n' now ca : same_base n n' -> wanted_by n' now ca = wanted_by n now ca.
Proof.
  intros (H1 & H2 & H3 & H4).
  assert (Ha : forall addrs, onLinkAddr n' ca.1 addrs = onLinkAddr n ca.1 addrs) by (intros; unfold onLinkAddr; by rewrite H2, H3).
  assert (Hn : endXNexthop n' ca.1 ca.2 now = endXNexthop n ca.1 ca.2 now).
  { unfold endXNexthop. rewrite Ha, H1. do 2 f_equal. apply list_bind_ext; [intros l|done]. case_match; [|done].
    apply list_bind_ext; [|done]. intros t. by destruct t; rewrite ?Ha. }
  unfold wanted_by. rewrite Hn. case_match; [|done]. unfold wants, endXParticipates. by rewrite H1, H4.
Qed.

Lemma scan_step_spec now x ca :
  same_base (sc_node x) (sc_node (scan_step now x ca)) /\ endXSIDs (sc_node (scan_step now x ca)) = endXSIDs (sc_node x) /\
  wanted (scan_step now x ca) = wanted x ++ wanted_by (sc_node x) now ca /\
  live_keys (scan_step now x ca) = list_to_set (w_key <$> wanted_by (sc_node x) now ca) ∪ live_keys x.
Proof.
  unfold scan_step, wanted_by. destruct (IsValid _) eqn:E; cbn [negb].
  - unfold wants, endXParticipates, set_noNexthop. done.
  - cbn [sc_node wanted live_keys]. rewrite app_nil_r. split; [|split; [|split; [done|cbn; set_solver]]]; by case_bool_decide.
Qed.

Lemma scan_spec now cas x :
  let x' := fold_left (scan_step now) cas x in
  let ws := cas ≫= wanted_by (sc_node x) now in
  same_base (sc_node x) (sc_node x') /\ endXSIDs (sc_node x') = endXSIDs (sc_node x) /\
  wanted x' = wanted x ++ ws /\ live_keys x' = list_to_set (w_key <$> ws) ∪ live_keys x.
Proof.
  revert x. induction cas as [|ca cas IH]; intros x.
  { cbn. rewrite app_nil_r. split; [done|]. split; [done|]. split; [done|]. set_solver. }
  cbn [fold_left]. destruct (scan_step_spec now x ca) as (B1 & E1 & W1 & L1).
  destruct (IH (scan_step now x ca)) as (B2 & E2 & W2 & L2).
  rewrite (list_bind_ext (wanted_by (sc_node (scan_step now x ca)) now) (wanted_by (sc_node x) now) cas cas) in W2, L2
    by (done || intros; by apply wanted_by_base).
  cbv zeta. split; [by eapply same_base_trans|]. split; [by rewrite E2|]. cbn [mbind list_bind]. split.
  - by rewrite W2, W1, <- app_assoc.
  - rewrite L2, L1, fmap_app, list_to_set_app_L. set_solver.
Qed.

Lemma release_spec live kes n :
  let n' := fold_left (release_step live) kes n in
  same_base n n' /\
  forall k, endXSIDs n' !! k = if decide (k ∈ kes.*1 /\ k ∉ live) then None else endXSIDs n !! k.
Proof.
  revert n. induction kes as [|[k e] kes IH]; intros n; cbn [fold_left].
  { split; [done|]. intros k. rewrite decide_False; [done|]. intros [Hk _]. by apply not_elem_of_nil in Hk. }
  destruct (IH (release_step live n (k, e))) as [B2 E2]. unfold release_step in B2, E2 |- *. cbn [fst snd] in *.
  case_bool_decide as Hl.
  - split; [done|]. intros k'. rewrite E2. cbn [fmap list_fmap fst]. apply decide_ext. rewrite elem_of_cons. naive_solver.
  - destruct (unprogramSID_base n (sid e)) as [B1 E1]. split; [by eapply same_base_trans|]. intros k'. rewrite E2.
    cbn [set_endXSIDs endXSIDs fmap list_fmap fst]. rewrite E1. destruct (decide (k' = k)) as [->|Hne].
    + rewrite (decide_True (P := k ∈ k :: _ /\ _)) by (split; [left|done]). rewrite lookup_delete_eq. by case_decide.
    + rewrite lookup_delete_ne by done. apply decide_ext. rewrite elem_of_cons. naive_solver.
Qed.

(** What a want may rely on: a configured locator, which its key names. *)
Definition want_ok (w : want) : Prop :=
  config_ok (w_locator w) /\ k_locator (w_key w) = Masked (LC_Prefix (w_locator w)).

(** A later state keeps the SIDs it had, each with its next hop or one of those
    wanted since. *)
Definition keeps (ws : list want) (n n' : Node F) : Prop :=
  forall k e, endXSIDs n !! k = Some e -> exists e', endXSIDs n' !! k = Some e' /\ sid e' = sid e /\
    function e' = function e /\ (nexthop e' = nexthop e \/ exists w, w ∈ ws /\ w_key w = k /\ nexthop e' = w_nexthop w).

(** A want is met, or its locator has no function left. *)
Definition met (ws : list want) (n : Node F) (w : want) : Prop :=
  (exists e w', endXSIDs n !! w_key w = Some e /\ w' ∈ ws /\ w_key w' = w_key w /\ nexthop e = w_nexthop w') \/
  (endXSIDs n !! w_key w = None /\ exhausted n (Masked (LC_Prefix (w_locator w)))).

Lemma exhausted_keeps ws n n' loc : keeps ws n n' -> exhausted n loc -> exhausted n' loc.
Proof.
  intros Hk Hx fn Hr. apply elem_used. destruct (proj1 (elem_used _ _ _) (Hx fn Hr)) as (k & e & Hke & Hl & He).
  destruct (Hk k e Hke) as (e' & Hk' & _ & Hf & _). exists k, e'. by rewrite Hf.
Qed.

(** What one turn does of a state. *)
Definition assigned (w : want) (n n' : Node F) : Prop :=
  same_base n n' /\ allocated (endXSIDs n') /\ keeps [w] n n' /\
  (forall k, is_Some (endXSIDs n' !! k) -> is_Some (endXSIDs n !! k) \/ k = w_key w) /\ met [w] n' w.

Lemma assigned_insert n w e :
  allocated (<[w_key w := mkEndXSID (sid e) (function e) (w_nexthop w)]> (endXSIDs n)) ->
  (forall e0, endXSIDs n !! w_key w = Some e0 -> e0 = e) -> assigned w n (assign n w e).
Proof.
  intros Hok Hold. split; [done|]. split; [done|]. unfold assign, keeps, met. cbn [set_endXSIDs endXSIDs]. split; [|split].
  - intros k e0 Hk. destruct (decide (k = w_key w)) as [->|Hne].
    + rewrite (Hold e0 Hk), lookup_insert_eq. eexists. split; [done|]. split; [done|]. split; [done|]. right. exists w. by split; [left|].
    + rewrite lookup_insert_ne by done. exists e0. by repeat (split; [done|]); left.
  - intros k [e0 [[<- _]|[_ Hk]]%lookup_insert_Some]; [by right|left; by eexists].
  - left. eexists _, w. split; [apply lookup_insert_eq|]. by split; [left|].
Qed.

Lemma assigned_none n n' w :
  same_base n n' -> endXSIDs n' = endXSIDs n -> allocated (endXSIDs n) -> endXSIDs n !! w_key w = None ->
  exhausted n (Masked (LC_Prefix (w_locator w))) -> assigned w n n'.
Proof.
  intros HB HE Ha E Hx. unfold assigned, keeps, met. rewrite HE, E. split; [done|]. split; [done|]. split; [|split].
  - intros k e Hk. exists e. by repeat (split; [done|]); left.
  - by left.
  - right. split; [done|]. intros fn Hr. apply elem_used. rewrite HE. by apply elem_used, Hx.
Qed.

Lemma assign_step_spec n w :
  want_ok w -> allocated (endXSIDs n) -> exists n', assign_step n w = Ok n' /\ assigned w n n'.
Proof.
  intros [Hc Hl] Ha. unfold assign_step. destruct (endXSIDs n !! w_key w) as [e|] eqn:E.
  - eexists. split; [done|]. apply assigned_insert; [|congruence]. pose proof (alloc_named _ Ha _ _ E) as [Hf Hn].
    apply allocated_insert; [done..|]. intros k' e' Hne Hk' Hl' He'. apply Hne. by apply (alloc_unique _ Ha k' (w_key w) e' e).
  - unfold allocEndXSID. destruct (config_masked _ Hc) as [Hok Hb]. pose proof (freeFunction_spec n (w_locator w) Hc) as Hfree.
    destruct (functionBits (w_locator w) =? 0) eqn:Eb; cbn [mbind outcome_bind mret outcome_ret].
    { eexists. split; [done|]. apply assigned_none; [done..|]. intros fn Hr. rewrite <- Hb in Hr.
      apply Z.eqb_eq in Eb. rewrite Eb in Hr. change (2 ^ 0) with 1 in Hr. lia. }
    destruct (freeFunction n (w_locator w)) as [fn|]; cbn [mbind outcome_bind mret outcome_ret].
    2: { eexists. split; [done|]. by apply assigned_none. }
    destruct Hfree as (Hr & Hu & _). rewrite Hb. destruct (locatorSID_names _ fn Hok) as (a & -> & Ha2). cbn [mbind outcome_bind].
    eexists. split; [done|]. apply assigned_insert; [|congruence]. cbn [sid function].
    apply allocated_insert; cbn [sid function]; [done|by rewrite Hl..|].
    intros k' e' _ Hk' Hl' He'. apply Hu, elem_used. exists k', e'. by rewrite <- Hl.
Qed.

Lemma assign_loop_spec ws n :
  Forall want_ok ws -> allocated (endXSIDs n) ->
  exists n', assign_loop n ws = Ok n' /\ same_base n n' /\ allocated (endXSIDs n') /\ keeps ws n n' /\
    (forall k, is_Some (endXSIDs n' !! k) -> is_Some (endXSIDs n !! k) \/ k ∈ w_key <$> ws) /\ Forall (met ws n') ws.
Proof.
  revert n. induction ws as [|w ws IH]; intros n Hok Ha; cbn [assign_loop].
  { exists n. split; [done|]. split; [done|]. split; [done|]. split; [|by split; [left|constructor]].
    intros k e Hk. exists e. by repeat (split; [done|]); left. }
  apply Forall_cons in Hok as [Hw Hws].
  destruct (assign_step_spec n w Hw Ha) as (n1 & -> & B1 & A1 & K1 & F1 & M1). cbn [mbind outcome_bind].
  destruct (IH n1 Hws A1) as (n2 & -> & B2 & A2 & K2 & F2 & M2). exists n2.
  split; [done|]. split; [by eapply same_base_trans|]. split; [done|]. split; [|split].
  - intros k e Hk. destruct (K1 k e Hk) as (e1 & Hk1 & Hs1 & Hf1 & Hn1). destruct (K2 k e1 Hk1) as (e2 & Hk2 & Hs2 & Hf2 & Hn2).
    exists e2. split; [done|]. split; [congruence|]. split; [congruence|].
    destruct Hn2 as [->|(w' & Hin & ? & ?)]; [|right; exists w'; by split; [right|]].
    destruct Hn1 as [->|(w' & Hin & ? & ?)]; [by left|right; exists w'; split; [|done]]. apply list_elem_of_singleton in Hin as ->. left.
  - intros k Hk. cbn [fmap list_fmap]. rewrite elem_of_cons. destruct (F2 k Hk) as [Hk1|Hk1]; [|by right; right].
    destruct (F1 k Hk1); [by left|by right; left].
  - assert (Hmono : forall w', met ws n2 w' -> met (w :: ws) n2 w').
    { intros w' [(e & w'' & ? & ? & ? & ?)|?]; [left; exists e, w''; by split_and!; [|right| |]|by right]. }
    apply Forall_cons. split; [|by eapply Forall_impl]. destruct M1 as [(e1 & w' & Hk1 & Hin & _ & Hn1)|[Hk1 Hx]].
    + apply list_elem_of_singleton in Hin as ->. destruct (K2 _ _ Hk1) as (e2 & Hk2 & _ & _ & Hn2). left.
      destruct Hn2 as [Hn2|(w' & Hin & ? & ?)]; [exists e2, w; rewrite Hn2; by split_and!; [|left| |]|exists e2, w'; by split_and!; [|right| |]].
    + destruct (endXSIDs n2 !! w_key w) as [e|] eqn:E; [|right; split; [done|by eapply exhausted_keeps]].
      destruct (F2 (w_key w)) as [[? ?]|Hin]; [by eexists|congruence|].
      apply list_elem_of_fmap in Hin as (w' & Hw' & Hin). rewrite Forall_forall in M2. pose proof (Hmono _ (M2 w' Hin)) as Hm.
      left. destruct Hm as [(e' & w'' & ? & ? & ? & ?)|[? _]]; [|congruence]. exists e', w''. rewrite Hw'. split_and!; congruence.
Qed.

Context (sid_order : nat -> gmap endXKey endXSID -> list (endXKey * endXSID)).

Lemma installEndXSIDs_base n :
  same_base n (installEndXSIDs sid_order n) /\ endXSIDs (installEndXSIDs sid_order n) = endXSIDs n.
Proof using.
  unfold installEndXSIDs. generalize (endX_localSID <$> sid_order 0%nat (endXSIDs n)) as ls. intros ls. revert n.
  induction ls as [|l ls IH]; intros n; cbn [fold_left]; [done|]. destruct (IH (programSID n l)) as [B E].
  destruct (programSID_base n l) as [B1 E1]. split; [by eapply same_base_trans|by rewrite E].
Qed.

Lemma wants_ok n now ca : Forall config_ok (locators (routing n)) -> Forall want_ok (wanted_by n now ca).
Proof using.
  intros Hc. unfold wanted_by. case_match; [|constructor]. unfold wants. apply Forall_fmap, Forall_forall.
  intros lc Hin. rewrite <- list_elem_of_In, List.filter_In, list_elem_of_In in Hin || rewrite list_elem_of_In, List.filter_In, <- list_elem_of_In in Hin.
  destruct Hin as [Hin _]. rewrite Forall_forall in Hc. by split; [apply Hc|].
Qed.

Lemma elem_wanted n now ca w :
  w ∈ wanted_by n now ca <-> exists lc, lc ∈ locators (routing n) /\ endXParticipates n lc ca.2 now = true /\
    IsValid (endXNexthop n ca.1 ca.2 now) = true /\ w = mkWant (sid_key lc ca) lc (endXNexthop n ca.1 ca.2 now).
Proof using.
  unfold wanted_by. destruct (IsValid _) eqn:E; [|split; [by intros ?%not_elem_of_nil|by intros (? & _ & _ & ? & _)]].
  unfold wants. rewrite list_elem_of_fmap. split.
  - intros (lc & -> & Hin). rewrite list_elem_of_In, List.filter_In, <- list_elem_of_In in Hin. exists lc. naive_solver.
  - intros (lc & Hin & Hp & _ & ->). exists lc. split; [done|]. by rewrite list_elem_of_In, List.filter_In, <- list_elem_of_In.
Qed.

(** The adjacencies that are owed a SID of a locator. *)
Definition owed (n : Node F) (now : Z) (ca : circuit * adjacency) (lc : SRv6LocatorConfig) : Prop :=
  ca ∈ endXAdjs (core n) /\ lc ∈ locators (routing n) /\ endXParticipates n lc ca.2 now = true /\
  IsValid (endXNexthop n ca.1 ca.2 now) = true.

Lemma elem_all_wanted n now w :
  w ∈ endXAdjs (core n) ≫= wanted_by n now <->
  exists ca lc, owed n now ca lc /\ w = mkWant (sid_key lc ca) lc (endXNexthop n ca.1 ca.2 now).
Proof using. rewrite list_elem_of_bind. setoid_rewrite elem_wanted. unfold owed. naive_solver. Qed.

Lemma met_same ws (n n' : Node F) w : endXSIDs n' = endXSIDs n -> met ws n w -> met ws n' w.
Proof using.
  intros E Hm. unfold met, exhausted. rewrite E. destruct Hm as [?|[Hn Hx]]; [by left|right]. split; [done|].
  intros fn Hr. apply elem_used. rewrite E. by apply elem_used, Hx.
Qed.

(** What is left of the SIDs once the others are released. *)
Lemma released (n n1 : Node F) live k :
  sid_order 2%nat (endXSIDs n) ≡ₚ map_to_list (endXSIDs n) -> endXSIDs n1 = endXSIDs n ->
  endXSIDs (fold_left (release_step live) (sid_order 2%nat (endXSIDs n1)) n1) !! k =
    if decide (k ∈ live) then endXSIDs n !! k else None.
Proof using.
  intros Hord E. destruct (release_spec live (sid_order 2%nat (endXSIDs n1)) n1) as [_ E2]. rewrite E2, E.
  destruct (decide (k ∈ live)) as [Hl|Hl]; [rewrite decide_False; [done|by intros [_ ?]]|].
  destruct (endXSIDs n !! k) as [e|] eqn:Ek; case_decide as Hd; try done. exfalso. apply Hd. split; [|done].
  apply elem_of_map_to_list in Ek. rewrite <- Hord in Ek. by apply (list_elem_of_fmap_2 fst) in Ek.
Qed.

(** The steps of the reconciliation put together. *)
Definition reconciled (ws : list want) (n n' : Node F) : Prop :=
  same_base n n' /\ allocated (endXSIDs n') /\ (forall k, is_Some (endXSIDs n' !! k) -> k ∈ w_key <$> ws) /\
  Forall (met ws n') ws /\
  (forall k e e', endXSIDs n !! k = Some e -> endXSIDs n' !! k = Some e' -> sid e' = sid e).

Context (order_ok : forall k m, sid_order k m ≡ₚ map_to_list m).

Lemma sync_steps n now :
  Forall config_ok (locators (routing n)) -> allocated (endXSIDs n) ->
  exists n', syncEndXSIDs sid_order n now = Ok n' /\ reconciled (endXAdjs (core n) ≫= wanted_by n now) n n'.
Proof using order_ok.
  intros Hc Ha. unfold syncEndXSIDs. case_match eqn:Hempty.
  { apply andb_true_iff in Hempty as [Hl He]. apply bool_decide_eq_true in He. apply Nat.eqb_eq, length_zero_iff_nil in Hl.
    eexists. split; [done|]. split; [done|]. cbn [set_noNexthop endXSIDs]. rewrite He in Ha |- *. split; [done|].
    assert (Hws : endXAdjs (core n) ≫= wanted_by n now = []); [|rewrite Hws; split; [by intros k [? ?]|by split; [constructor|]]].
    destruct (_ ≫= _) as [|w ws] eqn:E; [done|].
    assert (Hw : w ∈ endXAdjs (core n) ≫= wanted_by n now) by (rewrite E; left).
    apply elem_all_wanted in Hw as (ca & lc & (_ & Hin & _) & _). rewrite Hl in Hin. by apply not_elem_of_nil in Hin. }
  destruct (scan_spec now (endXAdjs (core n)) (mkScan n [] ∅ ∅)) as (B1 & E1 & W1 & L1). cbn [sc_node wanted live_keys] in *.
  set (x := fold_left _ _ _) in *. set (ws := endXAdjs (core n) ≫= wanted_by n now) in *.
  set (n1 := set_noNexthop _ _). assert (B1' : same_base n n1) by done. assert (E1' : endXSIDs n1 = endXSIDs n) by done. clearbody n1.
  assert (Hkeys := fun k => released n n1 (live_keys x) k (order_ok 2%nat _) E1').
  destruct (release_spec (live_keys x) (sid_order 2%nat (endXSIDs n1)) n1) as [B2 _]. set (n2 := fold_left _ _ n1) in *. clearbody n2.
  destruct (assign_loop_spec ws n2) as (n3 & H3 & B3 & A3 & K3 & F3 & M3).
  { apply Forall_bind, Forall_forall. intros ca _. by apply wants_ok. }
  { apply allocated_sub with (endXSIDs n); [|done]. apply map_subseteq_spec. intros k e. rewrite Hkeys. by case_decide. }
  rewrite W1. cbn [app]. rewrite H3. cbn [mbind outcome_bind mret outcome_ret].
  destruct (installEndXSIDs_base n3) as [B4 E4]. eexists. split; [done|]. unfold reconciled. rewrite E4.
  split; [by eauto 6 using same_base_trans|]. split; [done|]. split; [|split].
  - intros k Hk. destruct (F3 k Hk) as [[e Hk2]|?]; [|done]. rewrite Hkeys in Hk2. case_decide as Hl; [|done].
    rewrite L1 in Hl. set_solver.
  - eapply Forall_impl; [done|]. intros w. by apply met_same.
  - intros k e e' Hk Hk'. destruct (F3 k) as [[e2 Hk2]|Hin]; [by eexists| |].
    + destruct (K3 k e2 Hk2) as (e3 & Hk3 & Hs & _). rewrite Hkeys in Hk2. case_decide; [|done]. congruence.
    + assert (Hk2 : endXSIDs n2 !! k = Some e).
      { rewrite Hkeys, decide_True; [done|]. rewrite L1. set_solver. }
      destruct (K3 k e Hk2) as (e3 & Hk3 & Hs & _). congruence.
Qed.

(** C35: Reconciliation returns.  The SIDs of adjacencies or locators that are gone
    are released; an adjacency that is owed a SID of a locator has one, which
    forwards to its current next hop and is the one it had before, unless every
    function of the locator is in use; each lies inside its locator, is not the
    locator's End SID, and no two of a locator are the same. *)
Theorem syncEndXSIDs_reconciles n now :
  Forall config_ok (locators (routing n)) -> allocated (endXSIDs n) ->
  exists n', syncEndXSIDs sid_order n now = Ok n' /\ core n' = core n /\ allocated (endXSIDs n') /\
    (forall k e', endXSIDs n' !! k = Some e' ->
       exists ca lc, owed n now ca lc /\ k = sid_key lc ca /\ Contains (k_locator k) (sid e') = true /\ sid e' <> endSID lc) /\
    (forall ca lc, owed n now ca lc ->
       (exists e' ca' lc', endXSIDs n' !! sid_key lc ca = Some e' /\ owed n now ca' lc' /\ sid_key lc' ca' = sid_key lc ca /\
          nexthop e' = endXNexthop n ca'.1 ca'.2 now) \/ exhausted n' (Masked (LC_Prefix lc))) /\
    (forall k e e', endXSIDs n !! k = Some e -> endXSIDs n' !! k = Some e' -> sid e' = sid e) /\
    (forall k1 k2 e1 e2, endXSIDs n' !! k1 = Some e1 -> endXSIDs n' !! k2 = Some e2 -> k1 <> k2 ->
       k_locator k1 = k_locator k2 -> sid e1 <> sid e2).
Proof using order_ok.
  intros Hc Ha. destruct (sync_steps n now Hc Ha) as (n' & -> & (B & A & Hk & M & K)).
  assert (Hrange : forall k e, endXSIDs n' !! k = Some e -> exists ca lc, owed n now ca lc /\ k = sid_key lc ca /\ config_ok lc /\
    0 <= function_bits (k_locator k)).
  { intros k e He. destruct (proj1 (list_elem_of_fmap _ _ _) (Hk k (mk_is_Some _ _ He))) as (w & -> & Hw).
    apply elem_all_wanted in Hw as (ca & lc & Ho & ->). exists ca, lc. split; [done|]. split; [done|].
    assert (Hlc : config_ok lc) by (rewrite Forall_forall in Hc; apply Hc, Ho). split; [done|].
    destruct (config_masked lc Hlc) as [(b & _ & _ & Hr & _) _]. apply function_bits_range in Hr as [[Hr _] _]. exact Hr. }
  exists n'. split; [done|]. split; [apply B|]. split; [done|]. split; [|split; [|split; [done|]]].
  - intros k e He. destruct (Hrange k e He) as (ca & lc & Ho & Hkey & Hlc & Hr). exists ca, lc. split; [done|]. split; [done|].
    destruct (alloc_named _ A k e He) as [Hf Hn]. split; [by destruct Hn as (b & _ & ? & _)|]. intros Hs. rewrite Hs, Hkey in Hn.
    pose proof (end_names lc Hlc) as H0. rewrite Hkey in Hf, Hr. cbn [sid_key k_locator] in *.
    pose proof (names_inj (Masked (LC_Prefix lc)) (function e) 0 _ ltac:(lia) ltac:(lia) Hr Hn H0). lia.
  - intros ca lc Ho. rewrite Forall_forall in M. destruct (M (mkWant (sid_key lc ca) lc (endXNexthop n ca.1 ca.2 now))) as [Hm|[_ Hx]].
    { apply elem_all_wanted. by exists ca, lc. }
    + destruct Hm as (e & w' & He & Hw & Hkey & Hn). apply elem_all_wanted in Hw as (ca' & lc' & Ho' & ->). left.
      by exists e, ca', lc'.
    + by right.
  - intros k1 k2 e1 e2 H1 H2 Hne Hl Hs. apply Hne. destruct (Hrange k1 e1 H1) as (_ & _ & _ & _ & _ & Hr).
    destruct (alloc_named _ A k1 e1 H1) as [Hf1 Hn1]. destruct (alloc_named _ A k2 e2 H2) as [Hf2 Hn2].
    apply (alloc_unique _ A k1 k2 e1 e2 H1 H2 Hl). rewrite <- Hl in Hf2, Hn2. rewrite <- Hs in Hn2.
    apply (names_inj (k_locator k1) (function e1) (function e2) _ ltac:(lia) ltac:(lia) Hr Hn1 Hn2).
Qed.
End Sync.

(** ** A point-to-point link

    The neighbor lists a link-local and a global address, and the link carries
    2001:db8::/64. *)
Definition v6 (h : list Z) : Addr := Addr6 (take 16 (h ++ replicate 16 0)).
Definition on_link : Addr := Addr6 [32; 1; 13; 184; 0; 0; 0; 0; 0; 0; 0; 0; 0; 0; 0; 7].
Definition link_circuit : circuit :=
  set_p2pAdj (newCircuit (mkCircuitConfig "eth0" (mkTransport [2; 0; 0; 0; 0; 9] 1500) true true true None (3 * Second) 10 10
      [] [] [] None None [] AuthMD5 0 []) 1 1)
    (Some (mkAdjacency [2; 0; 0; 0; 0; 7] [2; 0; 0; 0; 0; 7] AdjUp 64 [] [] 30 0 0 0 0 0 false false false 0 6
       [] [Addr6 [254; 128; 0; 0; 0; 0; 0; 0; 0; 0; 0; 0; 0; 0; 0; 7]; on_link] None)).
Definition link_server : Server :=
  mkServer [2; 0; 0; 0; 0; 9] [[73; 0; 1]] 6 ∅ 0 [link_circuit] ∅ false false zeroTime ∅ 1492 zeroTime false
    ∅ ∅ ∅ ∅ ∅ ∅ false [].
Definition link_locator : SRv6LocatorConfig := mkLocatorConfig (mkPrefix (v6 [252; 0; 0; 0; 0; 1]) 48) 0.
Definition link_node : Node unit :=
  mkNode link_server (mkRIB [] [link_locator] ∅ ∅ tt ∅ ∅ ∅ ∅ ∅ ∅ ∅ None None []) [] None
    {[ "eth0"%string := [mkPrefix (v6 [32; 1; 13; 184]) 64] ]} ∅ ∅ ∅ ∅ ∅ 0 0 0 0 0.
Definition link_key : endXKey := mkEndXKey (LC_Prefix link_locator) "eth0" [2; 0; 0; 0; 0; 7].
Definition link_sync : outcome (Node unit) := syncEndXSIDs (fun _ => map_to_list) link_node 0.

Lemma allocated_empty : allocated ∅.
Proof. split; [intros k e Hk; by rewrite lookup_empty in Hk|intros k1 k2 e1 e2 Hk; by rewrite lookup_empty in Hk]. Qed.

Lemma link_ok {A} (f : Node unit -> option A) (a : A) :
  match link_sync with Ok n => f n | _ => None end = Some a -> exists n, link_sync = Ok n /\ f n = Some a.
Proof. generalize link_sync. intros [n|e|] K; [by exists n|discriminate K..]. Qed.

Lemma syncEndXSIDs_reconciles_witness :
  exists n' e, link_sync = Ok n' /\ endXSIDs n' !! link_key = Some e /\
    sid e = v6 [252; 0; 0; 0; 0; 1; 0; 1] /\ nexthop e = on_link /\ Contains (LC_Prefix link_locator) (sid e) = true.
Proof.
  destruct (link_ok (fun n => endXSIDs n !! link_key) (mkEndXSID (v6 [252; 0; 0; 0; 0; 1; 0; 1]) 1 on_link)) as (n & E & K);
    [vm_compute; reflexivity|].
  destruct (syncEndXSIDs_reconciles (fun _ => map_to_list) (fun _ _ => Permutation_refl _) link_node 0) as (n' & E' & _ & _ & H1 & _).
  - apply Forall_cons. split; [|apply Forall_nil_2]. exists (take 16 ([252; 0; 0; 0; 0; 1] ++ replicate 16 0)).
    split; [reflexivity|]. split; [|cbn; lia]. split; [reflexivity|]. apply octetsb_ok. vm_compute. reflexivity.
  - exact allocated_empty.
  - assert (n' = n) as -> by (unfold link_sync in E; congruence).
    exists n, (mkEndXSID (v6 [252; 0; 0; 0; 0; 1; 0; 1]) 1 on_link). split; [exact E|]. split; [exact K|].
    split; [reflexivity|]. split; [reflexivity|]. destruct (H1 _ _ K) as (_ & _ & _ & _ & Hc & _). exact Hc.
Defined.
