(* ===== verification/NodeLsp.v ===== *)
(** pkg/server/origination.go, this node's own LSP: what it says
    ([regenerateNodeLSP]), the regeneration of every LSP of a level, and the
    throttle in front of it ([drainLSPGen]). *)

From stdpp Require Import sorting strings.
From S2P Require Import Prelude.
From S2P Require Import Netip.
From S2P Require Import Ids.
From S2P Require Import Sid.
From S2P Require Import SubTLV.
From S2P Require Import Entries.
From S2P Require Import Locator.
From S2P Require Import Tlv.
From S2P Require Import Checksum.
From S2P Require Import Pdu.
From S2P Require Import Auth.
From S2P Require Import Circuit.
From S2P Require Import Lsdb.
From S2P Require Import Server.
From S2P Require Import Lifetime.
From S2P Require Import Transmit.
From S2P Require Import Origination.
From S2P Require Import Topology.
From S2P Require Import Rib.
From S2P Require Import EndX.
Local Open Scope Z_scope.

(** ** What the LSP says *)

Definition prefix_le (p q : Prefix) : Prop := Prefix_Compare p q <> Gt.
#[export] Instance prefix_le_dec (p q : Prefix) : Decision (prefix_le p q).
Proof. unfold prefix_le. solve_decision. Defined.

Definition sorted_keys (m : gmap Prefix Z) : list Prefix := merge_sort prefix_le (map_to_list m).*1.

Section Contents.
Context {F : Type}.

(** One connected prefix of a circuit: the better metric wins. *)
Definition better_metric (c : circuit) (m : gmap Prefix Z) (p : Prefix) : gmap Prefix Z :=
  match m !! p with
  | Some x => if Metric (cfg c) <? x then <[p := Metric (cfg c)]> m else m
  | None => <[p := Metric (cfg c)]> m
  end.

Definition circuit_metrics (n : Node F) (m : gmap Prefix Z) (c : circuit) : gmap Prefix Z :=
  fold_left (better_metric c) (default [] (circuitPrefixes n !! Name (cfg c))) m.

(** [metrics[p] = ap.Metric] for each prefix the configuration names. *)
Definition prefix_metrics (n : Node F) : gmap Prefix Z :=
  (AP_Metric <$> optionPrefixes (routing n)) ∪ fold_left (circuit_metrics n) (circuits (core n)) ∅.

Definition originatedPrefixes (n : Node F) : list AdvertisedPrefix :=
  let m := prefix_metrics n in map (fun p => mkAdvertised p (default 0 (m !! p))) (sorted_keys m).

Definition sr_algorithms (n : Node F) (l : Level) : list Z :=
  0 :: map FC_Algo (List.filter (fun fa => bool_decide ((l, FC_Algo fa) ∈ flexAlgoComputed (routing n))) (flexAlgos (routing n))).

Definition advertised_fads (n : Node F) : list SubTLV :=
  map (fun fa => SubFlexAlgoDef (mkFAD (FC_Algo fa) (FC_MetricType fa) 0 (FC_Priority fa) []))
    (List.filter FC_AdvertiseDefinition (flexAlgos (routing n))).

Definition routerCapabilitySubTLVs (n : Node F) (l : Level) : list SubTLV :=
  (if (0 <? length (locators (routing n)))%nat then [SubSRv6Capabilities 0 []] else []) ++
  (if (0 <? length (flexAlgos (routing n)))%nat then SubSRAlgorithm (sr_algorithms n l) :: advertised_fads n else []).

Definition routerID (s : Server) : Addr :=
  default AddrZero (List.find Is4 (circuits s ≫= fun c => IPv4Addrs (cfg c))).

Definition lspIPv6_step (out : list Addr) (a : Addr) : list Addr :=
  if negb (Is6 a) || Is4In6 a || negb (IsGlobalUnicast a) || bool_decide (a ∈ out) then out else out ++ [a].

Definition lspIPv6Addrs (s : Server) : list Addr :=
  fold_left lspIPv6_step (circuits s ≫= fun c => IPv6Addrs (cfg c)) [].

Definition fixedTLVs (n : Node F) (l : Level) : outcome (list TLV) :=
  let caps := routerCapabilitySubTLVs n l in
  addrs ← tlvChunks IPv6InterfaceAddressesTLV (lspIPv6Addrs (core n));
  mret ([AreaAddressesTLV (areaAddrs (core n)); ProtocolsSupportedTLV [NLPIDIPv4; NLPIDIPv6]] ++
        (if (length (hostname n) =? 0)%nat then [] else [DynamicHostnameTLV (hostname n)]) ++
        (if (0 <? length caps)%nat then [RouterCapabilityTLV (mkRouterCapability (routerID (core n)) 0 caps)] else []) ++
        addrs).

(** The IS reachability entries one circuit adds. *)
Definition circuit_neighbors (n : Node F) (l : Level) (c : circuit) (out : list ExtendedISReachEntry)
  : outcome (list ExtendedISReachEntry) :=
  if P2P (cfg c) then
    match p2pAdj c with
    | Some a =>
        if is_up (a_state a) && levelSet_has (a_levels a) l && negb (a_suppressed a)
        then appendISReach out (nodeID (a_systemID a) 0) (Metric (cfg c)) (aslaSubTLVs (cfg c)) (endXSubTLVs n c a)
        else mret out
    | None => mret out
    end
  else
    match adjs c !! l with
    | None => mret out
    | Some _ =>
        if bool_decide (dis_at c l = zeroNodeID) || (length (advertisedAdjacencies c l) =? 0)%nat then mret out
        else appendISReach out (dis_at c l) (Metric (cfg c)) (aslaSubTLVs (cfg c)) (lanEndXSubTLVs n c l)
    end.

Fixpoint neighbors_loop (n : Node F) (l : Level) (cs : list circuit) (out : list ExtendedISReachEntry)
  : outcome (list ExtendedISReachEntry) :=
  match cs with [] => mret out | c :: cs => out ← circuit_neighbors n l c out; neighbors_loop n l cs out end.

(** A prefix, its metric and the up/down bit, before it becomes an entry of its
    family. *)
Record reach : Set := mkReach { rc_prefix : Prefix; rc_metric : Z; rc_down : bool }.

Definition advertised (n : Node F) (ap : AdvertisedPrefix) : bool :=
  match advertiseFilter n with Some ok => ok ap | None => true end.

Definition own_reach (n : Node F) : list reach :=
  map (fun ap => mkReach (AP_Prefix ap) (AP_Metric ap) false) (List.filter (advertised n) (originatedPrefixes n)).

(** The locators of algorithm 0, mirrored; they are IPv6 prefixes. *)
Definition locator_reach (n : Node F) : list reach :=
  map (fun lc => mkReach (Masked (LC_Prefix lc)) 0 false) (List.filter (fun lc => LC_Algo lc =? 0) (locators (routing n))).

Definition clamped (m : gmap Prefix Z) (p : Prefix) : Z := Z.min (default 0 (m !! p)) (maxPathMetric - 1).

Definition export_reach (n : Node F) (l : Level) : list reach :=
  if bool_decide (l = Level2) && levelSet_has (levelCap (core n)) Level1 then
    let m := l1Export (routing n) in
    map (fun p => mkReach p (clamped m p) false)
      (List.filter (fun p => advertised n (mkAdvertised p (clamped m p))) (sorted_keys m))
  else [].

Definition leak_reach (n : Node F) (l : Level) : list reach :=
  if bool_decide (l = Level1) && levelSet_has (levelCap (core n)) Level2 then
    let m := l2Leak (routing n) in map (fun p => mkReach p (clamped m p) true) (sorted_keys m)
  else [].

Definition is_v4 (r : reach) : bool := Is4 (p_addr (rc_prefix r)).
Definition v4_entry (r : reach) : ExtendedIPReachEntry := mkIPReach (rc_metric r) (rc_down r) (rc_prefix r) [].
Definition v6_entry (r : reach) : IPv6ReachEntry := mkIPv6Reach (rc_metric r) (rc_down r) false (rc_prefix r) [].

(** The variables [v4] and [v6]. *)
Definition v4_reach (n : Node F) (l : Level) : list ExtendedIPReachEntry :=
  v4_entry <$> List.filter is_v4 (own_reach n ++ export_reach n l ++ leak_reach n l).
Definition v6_reach (n : Node F) (l : Level) : list IPv6ReachEntry :=
  v6_entry <$> (List.filter (fun r => negb (is_v4 r)) (own_reach n) ++ locator_reach n ++
                List.filter (fun r => negb (is_v4 r)) (export_reach n l ++ leak_reach n l)).

Definition SRv6LocatorsTLV (ls : list SRv6Locator) : TLV := SRv6LocatorTLV (0, ls).

Definition variableTLVs (n : Node F) (l : Level) : outcome (list TLV) :=
  neighbors ← neighbors_loop n l (circuits (core n)) [];
  t22 ← tlvChunks ExtendedISReachabilityTLV neighbors;
  t135 ← tlvChunks ExtendedIPReachabilityTLV (v4_reach n l);
  t236 ← tlvChunks IPv6ReachabilityTLV (v6_reach n l);
  t27 ← tlvChunks SRv6LocatorsTLV (locatorEntry <$> locators (routing n));
  mret (t22 ++ t135 ++ t236 ++ t27).
End Contents.

(** ** Regeneration *)

Definition minLSPGenInterval : Z := Second.

Section Regenerate.
Context {F : Type} `{FIB F}.
Context (hmac : AuthAlgorithm -> bytes -> bytes -> bytes) (rand : LSPID -> Z).
Context (order : Server -> Level -> list LSPID).
Context (sid_order : nat -> gmap endXKey endXSID -> list (endXKey * endXSID)).

Definition regenerateNodeLSP (n : Node F) (l : Level) (force : bool) (now : Z) : outcome (Node F) :=
  fixed ← fixedTLVs n l;
  variable ← variableTLVs n l;
  let att := bool_decide (l = Level1) && levelSet_has (levelCap (core n)) Level2 in
  s ← originateFragmented hmac rand order (core n) l 0 fixed variable att force now;
  mret (set_core n s).

Fixpoint regenerate_levels (n : Node F) (ls : list Level) (force : bool) (now : Z) : outcome (Node F) :=
  match ls with
  | [] => mret n
  | l :: ls =>
      n ← regenerateNodeLSP n l force now;
      s ← regeneratePseudonodeLSPs hmac rand order (core n) l force now;
      regenerate_levels (set_core n s) ls force now
  end.

Definition regenerateLSPs (n : Node F) (force : bool) (now : Z) : outcome (Node F) :=
  n ← syncEndXSIDs sid_order n now;
  regenerate_levels n (levelSet_levels (levelCap (core n))) force now.

Definition drainLSPGen (n : Node F) (now : Z) : outcome (Node F) :=
  if negb (lspGenPending (core n)) || (now <? nextLSPGen (core n)) then mret n else
  let n := set_core n (set_gen (core n) (spfDirty (core n)) false (nextLSPGen (core n))) in
  n ← regenerateLSPs n false now;
  mret (set_core n (set_gen (core n) (spfDirty (core n)) (lspGenPending (core n)) (now + minLSPGenInterval))).
End Regenerate.
