(* ===== verification/Loop.v ===== *)
(** pkg/server/server.go and the end of lifetime.go: the periodic work of the
    loop ([housekeeping]), what [Serve] does before it and after it. *)

From stdpp Require Import sorting strings.
From S2P Require Import Prelude.
From S2P Require Import Netip.
From S2P Require Import Ids.
From S2P Require Import Sid.
From S2P Require Import SubTLV.
From S2P Require Import Entries.
From S2P Require Import Tlv.
From S2P Require Import Checksum.
From S2P Require Import Pdu.
From S2P Require Import Auth.
From S2P Require Import Circuit.
From S2P Require Import Lsdb.
From S2P Require Import EdgeLog.
From S2P Require Import Server.
From S2P Require Import Lifetime.
From S2P Require Import Transmit.
From S2P Require Import Origination.
From S2P Require Import HelloBuild.
From S2P Require Import Hello.
From S2P Require Import FlexAlgo.
From S2P Require Import Tent.
From S2P Require Import Topology.
From S2P Require Import Spf.
From S2P Require Import Rib.
From S2P Require Import EndX.
From S2P Require Import NodeLsp.
Local Open Scope Z_scope.

(** What Go leaves open at one event: the orders in which maps are visited, the
    jitter drawn, whether a transport sends, how many events are queued. *)
Record Oracle : Type := mkOracle {
  jitter : LSPID -> Z;
  rx_jitter : Z;
  sends : list effect -> bool;
  queued : nat;
  lsp_orders : Server -> Level -> list LSPID;
  db_keys : Server -> list (Level * LSPID);
  adj_orders : nat -> gmap SystemID adjacency -> list (SystemID * adjacency);
  srm_orders : Server -> nat -> Level -> list LSPID;
  ssn_orders : Server -> nat -> Level -> list LSPID;
  sid_orders : nat -> gmap endXKey endXSID -> list (endXKey * endXSID);
  pending_order : gset Addr -> list Addr;
  info_orders : nat -> gmap Prefix RouteInfo -> list (Prefix * RouteInfo);
  route_orders : nat -> gmap Prefix route -> list (Prefix * route);
  spf_orders : Level -> Z -> nat -> lsdb -> list (LSPID * lspEntry);
  done_orders : Level -> Z -> nat -> settled -> list (NodeID * (Z * gset SystemID));
  fa_orders : Level -> lsdb -> list (LSPID * lspEntry)
}.

Section Loop.
Context {F : Type} `{FIB F}.
Context (hmac : AuthAlgorithm -> bytes -> bytes -> bytes).

(** An operation on the protocol state alone. *)
Definition on_core (n : Node F) (f : Server -> outcome Server) : outcome (Node F) := s ← f (core n); mret (set_core n s).

Section Turn.
Context (o : Oracle).

Definition regenerate (n : Node F) (force : bool) (now : Z) : outcome (Node F) :=
  regenerateLSPs hmac (jitter o) (lsp_orders o) (sid_orders o) n force now.

Definition drain (n : Node F) (now : Z) : outcome (Node F) :=
  drainLSPGen hmac (jitter o) (lsp_orders o) (sid_orders o) n now.

Definition hellos_on (s : Server) (i : nat) (now : Z) : outcome Server :=
  match circuits s !! i with
  | Some c => sendHellos hmac (sends o) s i c (fun l => adj_orders o 0%nat (adjs_at c l)) now
  | None => mret s
  end.

(** ** Housekeeping *)

(** The body of the first loop of [housekeeping]. *)
Definition tend_circuit (s : Server) (i : nat) (now : Z) : outcome Server :=
  s ← match circuits s !! i with
      | Some c => if now <? nextHello c then mret s else hellos_on s i now
      | None => mret s
      end;
  mret (match circuits s !! i with
        | Some c => expireAdjacencies (adj_orders o) s i c now
        | None => s
        end).

Fixpoint tend_circuits (s : Server) (js : list nat) (now : Z) : outcome Server :=
  match js with [] => mret s | i :: js => s ← tend_circuit s i now; tend_circuits s js now end.

(** The clearing of the startup overload bit. *)
Definition clear_overload (n : Node F) (now : Z) : outcome (Node F) :=
  let s := core n in
  if negb (overloadUntil s =? zeroTime) && negb (now <? overloadUntil s)
  then regenerate (set_core n (set_overload s zeroTime (overloadManual s))) false now
  else mret n.

Definition held_until (m : gmap (Level * LSPID) Z) (now : Z) : gmap (Level * LSPID) Z :=
  filter (fun '(_, until) => now < until) m.

Definition refresh_due (s : Server) (now : Z) : bool :=
  existsb (fun l => existsb (fun ie => e_own ie.2 && bool_decide (e_purgedAt ie.2 = None) && negb (now <? e_refreshAt ie.2))
    (map_to_list (default ∅ (dbs s !! l)))) [Level1; Level2].

(** [refreshOwnLSPs] (lifetime.go). *)
Definition refreshOwnLSPs (n : Node F) (now : Z) : outcome (Node F) :=
  let held := held_until (seqWrapUntil (core n)) now in
  let released := negb (bool_decide (held = seqWrapUntil (core n))) in
  let n := set_core n (set_seqWrap (core n) held) in
  n ← (if released then regenerate n false now else mret n);
  if refresh_due (core n) now then regenerate n true now else mret n.

Definition sidReassertTicks : Z := 30.

Definition reassert_sids (n : Node F) : Node F :=
  if (negb (length (locators (routing n)) =? 0)%nat || negb (bool_decide (endXSIDs n = ∅))) &&
     (edge_any (sidFailed n) || (ticks n mod sidReassertTicks =? 0))
  then installLocalSIDs (sid_orders o) n else n.

Definition retry_removals (n : Node F) : Node F := fold_left unprogramSID (pending_order o (sidPending n)) n.

Definition retry_fib (n : Node F) : Node F :=
  let b := routing n in
  if bool_decide (fibPending b = ∅) then n
  else set_routing n (programFIB (watched (core n)) (info_orders o) b (rib b)).

(** The gauges. *)
Definition report_sizes (s : Server) : Server :=
  fold_left (fun s l => match dbs s !! l with Some db => emit s (LSDBSize l (size db)) | None => s end) [Level1; Level2] s.

Definition report_circuit (s : Server) (c : circuit) : Server :=
  fold_left (fun s l =>
    emit (emit s (AdjacencyCount (Name (cfg c)) l (upAdjacencyCount c l)))
      (AdjacencySuppressed (Name (cfg c)) l (suppressedAdjacencyCount c l))) (cfg_levels (cfg c)) s.

Definition report_adjacencies (s : Server) : Server := fold_left report_circuit (circuits s) s.

Definition housekeeping (n : Node F) (now : Z) : outcome (Node F) :=
  let n := set_ticks n (u64 (ticks n + 1)) in
  n ← on_core n (fun s => tend_circuits s (seq 0 (length (circuits s))) now);
  n ← clear_overload n now;
  n ← drain n now;
  n ← on_core n (fun s => ageLSPs hmac s (db_keys o s) now);
  n ← refreshOwnLSPs n now;
  n ← on_core n (fun s => floodTransmit hmac (sends o) (srm_orders o) (ssn_orders o) s now);
  let n := retry_removals (reassert_sids n) in
  let n := set_core n (report_adjacencies (report_sizes (core n))) in
  let n := retry_fib n in
  let n := node_emit n (FIBPending (size (fibPending (routing n)))) in
  mret (set_core n (emit (core n) (EventQueueDepth (queued o)))).

(** ** Starting and stopping *)

Definition startup_overload (n : Node F) (now : Z) : Node F :=
  if 0 <? overloadOnStartup n
  then set_core n (set_overload (core n) (now + overloadOnStartup n) (overloadManual (core n))) else n.

Fixpoint hello_burst (s : Server) (js : list nat) (now : Z) : outcome Server :=
  match js with [] => mret s | i :: js => s ← hellos_on s i now; hello_burst s js now end.

(** The routes a previous run left are dropped, the local SIDs apart. *)
Definition startup_sweep (n : Node F) : Node F :=
  let b := routing n in
  let own : gset Prefix := list_to_set ((fun a => PrefixFrom a 128) <$> localSIDs (sid_orders o) n) in
  let '(f, ok) := Sweep (fib b) (fun p => bool_decide (is_Some (rib b !! p)) || bool_decide (p ∈ own)) in
  let n := set_routing n (set_fib b f (fibPending b) (fibInstalled b)) in
  if ok : bool then n else node_emit n (RibWarned "fib startup sweep").

(** [Serve] up to its loop. *)
Definition start (n : Node F) (now : Z) : outcome (Node F) :=
  let n := startup_overload n now in
  n ← on_core n (fun s => hello_burst s (seq 0 (length (circuits s))) now);
  n ← regenerate n false now;
  mret (installLocalSIDs (sid_orders o) (startup_sweep n)).

(** The transports, the readers and the queued operations have no state here; the
    subscriptions are closed in Watch.v. *)
Definition shutdown (n : Node F) (now : Z) : outcome (Node F) :=
  n ← on_core n (fun s => purgeOwnLSPs hmac s (db_keys o s) now);
  n ← on_core n (fun s => floodTransmit hmac (sends o) (srm_orders o) (ssn_orders o) s now);
  let n := removeLocalSIDs (sid_orders o) n in
  mret (set_core n (set_watched (core n) false)).
End Turn.
End Loop.
