(* ===== verification/Mutate.v ===== *)
(** pkg/server/mutate.go and circuit_events.go: the operations that change a
    running node.  Each runs to its end between two turns of the loop and
    answers with an error or none. *)

From stdpp Require Import sorting strings.
From S2P Require Import Prelude.
From S2P Require Import Netip.
From S2P Require Import Ids.
From S2P Require Import Sid.
From S2P Require Import SubTLV.
From S2P Require Import Entries.
From S2P Require Import Tlv.
From S2P Require Import Checksum.
From S2P Require Import Pdu.
From S2P Require Import Auth.
From S2P Require Import Circuit.
From S2P Require Import Lsdb.
From S2P Require Import EdgeLog.
From S2P Require Import Server.
From S2P Require Import Lifetime.
From S2P Require Import Transmit.
From S2P Require Import Origination.
From S2P Require Import HelloBuild.
From S2P Require Import Hello.
From S2P Require Import FlexAlgo.
From S2P Require Import Tent.
From S2P Require Import Topology.
From S2P Require Import Spf.
From S2P Require Import Rib.
From S2P Require Import EndX.
From S2P Require Import NodeLsp.
From S2P Require Import Loop.
Local Open Scope Z_scope.

(** ** Answers *)

(** [ErrAlreadyInState], [ErrUnknownCircuit], and a refusal that wraps neither. *)
Inductive opError : Set := ErrAlreadyInState | ErrUnknownCircuit | Refusal.

#[export] Instance FlexAlgoConfig_eq_dec : EqDecision FlexAlgoConfig.
Proof. solve_decision. Defined.

(** ** Checks *)

Definition IsUnspecified (a : Addr) : bool :=
  match a with
  | AddrZero => false
  | Addr4 b => bool_decide (b = replicate 4 0)
  | Addr6 b => bool_decide (b = replicate 16 0)
  end.

(** [checkAdvertisedPrefix] (config.go): whether it returns no error. *)
Definition checkAdvertisedPrefix (p : AdvertisedPrefix) : bool :=
  let want := Masked (AP_Prefix p) in
  let a := p_addr want in
  PrefixIsValid (AP_Prefix p) &&
  negb (Is4In6 a || IsMulticast a || IsLinkLocalUnicast a || (IsUnspecified a && negb (p_bits want =? 0))) &&
  (AP_Metric p <? maxPathMetric).

(** [CircuitConfig.validate] and [applyDefaults] (config.go): whether they
    return no error.  A [Transport] of the model is never nil. *)
Definition validate (c : CircuitConfig) : outcome bool :=
  if bool_decide (Name c = ""%string) then mret false else
  if match Priority c with Some p => MaxPriority <? p | None => false end then mret false else
  n ← subTLVsLen (aslaSubTLVs c);
  if (maxLinkAttrArea <? n)%nat then mret false
  else mret (negb (requirePrimaryPassword (HelloPassword c) (HelloAcceptPasswords c))).

Definition DefaultHelloInterval : Z := 3 * Second.
Definition DefaultHoldingMultiplier : Z := 10.
Definition DefaultMetric : Z := 10.

Definition with_defaults (c : CircuitConfig) : CircuitConfig :=
  let none := negb (cfg_Level1 c) && negb (cfg_Level2 c) in
  mkCircuitConfig (Name c) (cfg_Transport c) (P2P c) (none || cfg_Level1 c) (none || cfg_Level2 c) (Priority c)
    (if HelloInterval c =? 0 then DefaultHelloInterval else HelloInterval c)
    (if HoldingMultiplier c =? 0 then DefaultHoldingMultiplier else HoldingMultiplier c)
    (if Metric c =? 0 then DefaultMetric else Metric c)
    (AdminGroup c) (IPv4Addrs c) (IPv6Addrs c) (Padding c) (AdjacencyLimit c) (HelloPassword c)
    (HelloAuthAlgorithm c) (HelloKeyID c) (HelloAcceptPasswords c).

(** ** Sets of addresses and of prefixes *)

Definition addr_le (a b : Addr) : Prop := Addr_Compare a b <> Gt.
#[export] Instance addr_le_dec (a b : Addr) : Decision (addr_le a b).
Proof. unfold addr_le. solve_decision. Defined.

(** [slices.Compact] *)
Fixpoint compact (l : list Addr) : list Addr :=
  match l with
  | a :: l => match l with b :: _ => if bool_decide (a = b) then compact l else a :: compact l | [] => [a] end
  | [] => []
  end.

Definition sortedSet (addrs : list Addr) : list Addr := compact (merge_sort addr_le addrs).

Definition base_le (p q : Prefix) : Prop := Addr_Compare (p_addr (Masked p)) (p_addr (Masked q)) <> Gt.
#[export] Instance base_le_dec (p q : Prefix) : Decision (base_le p q).
Proof. unfold base_le. solve_decision. Defined.

Definition masked_step (out : list Prefix) (p : Prefix) : list Prefix :=
  if bool_decide (Masked p ∈ out) then out else out ++ [Masked p].

(** [slices.SortFunc] keeps the order of prefixes it compares equal when there
    are at most twelve (an insertion sort), and promises no order beyond. *)
Definition maskedSet (prefixes : list Prefix) : list Prefix := merge_sort base_le (fold_left masked_step prefixes []).

(** [circuitDifferences]: the fields, in declaration order; a nil slice is an
    empty one here. *)
Definition differs (name : string) (same : bool) : list string := if same then [] else [name].

Definition circuitDifferences (a : CircuitConfig) (pa : list Prefix) (b : CircuitConfig) (pb : list Prefix) : list string :=
  differs "Name" (bool_decide (Name a = Name b)) ++
  differs "P2P" (Bool.eqb (P2P a) (P2P b)) ++
  differs "Level1" (Bool.eqb (cfg_Level1 a) (cfg_Level1 b)) ++
  differs "Level2" (Bool.eqb (cfg_Level2 a) (cfg_Level2 b)) ++
  differs "Priority" (bool_decide (Priority a = Priority b)) ++
  differs "HelloInterval" (HelloInterval a =? HelloInterval b) ++
  differs "HoldingMultiplier" (HoldingMultiplier a =? HoldingMultiplier b) ++
  differs "Metric" (Metric a =? Metric b) ++
  differs "AdminGroup" (bool_decide (AdminGroup a = AdminGroup b)) ++
  differs "IPv4Addrs" (bool_decide (sortedSet (IPv4Addrs a) = sortedSet (IPv4Addrs b))) ++
  differs "IPv6Addrs" (bool_decide (sortedSet (IPv6Addrs a) = sortedSet (IPv6Addrs b))) ++
  differs "ConnectedPrefixes" (bool_decide (maskedSet pa = maskedSet pb)) ++
  differs "Padding" (bool_decide (Padding a = Padding b)) ++
  differs "AdjacencyLimit" (bool_decide (AdjacencyLimit a = AdjacencyLimit b)) ++
  differs "HelloPassword" (bool_decide (HelloPassword a = HelloPassword b)) ++
  differs "HelloAuthAlgorithm" (bool_decide (HelloAuthAlgorithm a = HelloAuthAlgorithm b)) ++
  differs "HelloKeyID" (HelloKeyID a =? HelloKeyID b) ++
  differs "HelloAcceptPasswords" (bool_decide (HelloAcceptPasswords a = HelloAcceptPasswords b)).

(** ** Updates *)

Definition set_cfg (c : circuit) (k : CircuitConfig) : circuit :=
  mkCircuit k (pseudonodeID c) (extCircID c) (adjs c) (p2pAdj c) (dis c) (nextHello c) (linkDown c) (detached c)
    (srm c) (ssn c) (ssnAck c) (nextCSNP c) (syncHold c) (syncDeferred c).
Definition set_link (c : circuit) (down det : bool) : circuit :=
  mkCircuit (cfg c) (pseudonodeID c) (extCircID c) (adjs c) (p2pAdj c) (dis c) (nextHello c) down det
    (srm c) (ssn c) (ssnAck c) (nextCSNP c) (syncHold c) (syncDeferred c).
Definition with_addresses (c : CircuitConfig) (v4 v6 : list Addr) : CircuitConfig :=
  mkCircuitConfig (Name c) (cfg_Transport c) (P2P c) (cfg_Level1 c) (cfg_Level2 c) (Priority c) (HelloInterval c)
    (HoldingMultiplier c) (Metric c) (AdminGroup c) v4 v6 (Padding c) (AdjacencyLimit c) (HelloPassword c)
    (HelloAuthAlgorithm c) (HelloKeyID c) (HelloAcceptPasswords c).

Definition circuitNamed (s : Server) (name : string) : option (nat * circuit) :=
  list_find (fun c => Name (cfg c) = name) (circuits s).

Definition minLSPMTU : Z := 512.

(** [setLSPBufferSize] (server.go). *)
Definition lspBuffer (cap : Z) (cs : list circuit) : Z :=
  let size := Z.of_nat ReceiveLSPBufferSize in
  let size := if (0 <? cap) && (cap <? size) then cap else size in
  fold_left (fun size c => let mtu := MTU (cfg_Transport (cfg c)) - 3 in if mtu <? size then mtu else size) cs size.

Section Mutate.
Context {F : Type} `{FIB F}.

Definition answer : Type := outcome (Node F * option opError).
Definition refuse (n : Node F) (e : opError) : answer := mret (n, Some e).
Definition agree (n : Node F) : answer := mret (n, None).

Definition ask_regen (n : Node F) : Node F := set_core n (requestLSPRegen (core n)).

Definition setLSPBufferSize (n : Node F) : Node F :=
  set_core n (set_levels (core n) (levelCap (core n)) (lspBuffer (lspMTUCap n) (circuits (core n)))).

(** [setCircuitPrefixes]: the prefixes of a circuit and the connected set
    derived again. *)
Definition setCircuitPrefixes (n : Node F) (name : string) (masked : list Prefix) : Node F :=
  let m := match masked with [] => delete name (circuitPrefixes n) | _ => <[name := masked]> (circuitPrefixes n) end in
  let conn := optionConnected n ∪ list_to_set (map_to_list m ≫= fun np => np.2) in
  let n := set_circuitPrefixes n m in
  set_routing n (set_config (routing n) (flexAlgos (routing n)) (locators (routing n)) (optionPrefixes (routing n)) conn).

(** ** Locators, algorithms, prefixes *)

Definition participatesInAlgo (n : Node F) (a : Z) : bool :=
  (a =? 0) || existsb (fun fa => FC_Algo fa =? a) (flexAlgos (routing n)).

Definition set_locators (n : Node F) (lcs : list SRv6LocatorConfig) : Node F :=
  set_routing n (set_config (routing n) (flexAlgos (routing n)) lcs (optionPrefixes (routing n)) (connected (routing n))).
Definition set_flexAlgos (n : Node F) (fas : list FlexAlgoConfig) : Node F :=
  set_routing n (set_config (routing n) fas (locators (routing n)) (optionPrefixes (routing n)) (connected (routing n))).
Definition set_prefixes (n : Node F) (ps : gmap Prefix AdvertisedPrefix) : Node F :=
  set_routing n (set_config (routing n) (flexAlgos (routing n)) (locators (routing n)) ps (connected (routing n))).

Definition AddLocator (n : Node F) (lc : SRv6LocatorConfig) : answer :=
  let a := p_addr (LC_Prefix lc) in
  if negb (Is6 a) || Is4In6 a then refuse n Refusal else
  if negb (LC_Algo lc =? 0) && negb (participatesInAlgo n (LC_Algo lc)) then refuse n Refusal else
  match list_find (fun cur => Masked (LC_Prefix cur) = Masked (LC_Prefix lc)) (locators (routing n)) with
  | Some (_, cur) => refuse n (if LC_Algo cur =? LC_Algo lc then ErrAlreadyInState else Refusal)
  | None =>
      let n := set_locators n (locators (routing n) ++ [lc]) in
      agree (ask_regen (programSID n (end_localSID lc)))
  end.

Definition DeleteLocator (n : Node F) (p : Prefix) : answer :=
  match list_find (fun cur => Masked (LC_Prefix cur) = Masked p) (locators (routing n)) with
  | None => refuse n ErrAlreadyInState
  | Some (i, removed) =>
      let n := set_locators n (delete i (locators (routing n))) in
      agree (ask_regen (unprogramSID n (endSID removed)))
  end.

Definition AddFlexAlgo (n : Node F) (fa : FlexAlgoConfig) : answer :=
  if FC_Algo fa <? 128 then refuse n Refusal else
  match list_find (fun cur => FC_Algo cur = FC_Algo fa) (flexAlgos (routing n)) with
  | Some (_, cur) => refuse n (if bool_decide (cur = fa) then ErrAlreadyInState else Refusal)
  | None => agree (ask_regen (set_flexAlgos n (flexAlgos (routing n) ++ [fa])))
  end.

Definition DeleteFlexAlgo (n : Node F) (a : Z) : answer :=
  match list_find (fun cur => FC_Algo cur = a) (flexAlgos (routing n)) with
  | None => refuse n ErrAlreadyInState
  | Some (i, _) =>
      if existsb (fun lc => LC_Algo lc =? a) (locators (routing n)) then refuse n Refusal else
      let n := set_flexAlgos n (delete i (flexAlgos (routing n))) in
      let w := edge_clear (Level2, a) (edge_clear (Level1, a) (algoWarned (routing n))) in
      agree (ask_regen (set_routing n (set_algoWarned (routing n) w)))
  end.

Definition AddPrefix (n : Node F) (ap : AdvertisedPrefix) : answer :=
  if negb (checkAdvertisedPrefix ap) then refuse n Refusal else
  let want := Masked (AP_Prefix ap) in
  match optionPrefixes (routing n) !! want with
  | Some cur => refuse n (if AP_Metric cur =? AP_Metric ap then ErrAlreadyInState else Refusal)
  | None => agree (ask_regen (set_prefixes n (<[want := mkAdvertised want (AP_Metric ap)]> (optionPrefixes (routing n)))))
  end.

Definition DeletePrefix (n : Node F) (p : Prefix) : answer :=
  let want := Masked p in
  match optionPrefixes (routing n) !! want with
  | None =>
      refuse n (if existsb (fun c => bool_decide (want ∈ default [] (circuitPrefixes n !! Name (cfg c)))) (circuits (core n))
                then Refusal else ErrAlreadyInState)
  | Some _ => agree (ask_regen (set_prefixes n (delete want (optionPrefixes (routing n)))))
  end.

Definition SetOverload (n : Node F) (on : bool) : answer :=
  agree (ask_regen (set_core n (set_overload (core n) (overloadUntil (core n)) on))).

(** ** Circuits *)

Context (hmac : AuthAlgorithm -> bytes -> bytes -> bytes) (o : Oracle).

(** Adjacencies of a circuit torn down. *)
Definition drop_on (s : Server) (i : nat) (drop : adjacency -> bool) (now : Z) : Server :=
  match circuits s !! i with Some c => dropAdjacencies (adj_orders o) s i c drop now | None => s end.

Definition ClearAdjacency (n : Node F) (name : string) (id : option SystemID) (now : Z) : answer :=
  match circuitNamed (core n) name with
  | None => refuse n ErrUnknownCircuit
  | Some (i, _) =>
      agree (set_core n (drop_on (core n) i
        (fun a => match id with Some x => bool_decide (x = a_systemID a) | None => true end) now))
  end.

Definition SetCircuitAddresses (n : Node F) (name : string) (v4 v6 : list Addr) (conn : list Prefix) (now : Z) : answer :=
  match circuitNamed (core n) name with
  | None => refuse n ErrUnknownCircuit
  | Some (i, c) =>
      let v4 := sortedSet v4 in let v6 := sortedSet v6 in let masked := maskedSet conn in
      if bool_decide (IPv4Addrs (cfg c) = v4) && bool_decide (IPv6Addrs (cfg c) = v6) &&
         bool_decide (default [] (circuitPrefixes n !! name) = masked)
      then agree n else
      let n := set_core n (upd_circuit (core n) i (fun c => set_cfg c (with_addresses (cfg c) v4 v6))) in
      let n := setCircuitPrefixes n name masked in
      n ← on_core n (fun s => hellos_on hmac o s i now);
      agree (ask_regen n)
  end.

Definition SetCircuitLinkState (n : Node F) (name : string) (up : bool) (now : Z) : answer :=
  match circuitNamed (core n) name with
  | None => refuse n ErrUnknownCircuit
  | Some (i, c) =>
      if Bool.eqb (linkDown c) (negb up) then agree n else
      let n := set_core n (upd_circuit (core n) i (fun c => set_link c (negb up) (detached c))) in
      if negb up then agree (set_core n (drop_on (core n) i (fun _ => true) now)) else
      let n := set_core n (set_dupWarned (core n) (edge_clear name (dupSystemIDWarned (core n)))) in
      n ← on_core n (fun s => hellos_on hmac o s i now);
      agree n
  end.

(** [allocCircuitIDs]: at most 255 turns of the cursor; the octet and the
    extended circuit ID, and the counters. *)
Fixpoint next_octet (used : gset Z) (k : nat) (cursor : Z) : option Z :=
  match k with
  | O => None
  | S k => let cursor := cursor mod 255 + 1 in if bool_decide (cursor ∈ used) then next_octet used k cursor else Some cursor
  end.

Definition allocCircuitIDs (n : Node F) : option (Z * Z * Node F) :=
  let used : gset Z := list_to_set (pseudonodeID <$> circuits (core n)) in
  match next_octet used 255 (pseudonodeCursor n) with
  | Some pn => let ext := u32 (nextExtCircID n + 1) in Some (pn, ext, set_ids n ext pn)
  | None => None
  end.

(** The databases and the level set of a circuit that joins. *)
Definition add_level (s : Server) (l : Level) : Server :=
  let s := match dbs s !! l with Some _ => s | None => set_dbs s (<[l := ∅]> (dbs s)) end in
  set_levels s (levelSet_add (levelCap s) l) (lspBufferSize s).

Definition addCircuit (n : Node F) (k : CircuitConfig) (conn : list Prefix) (now : Z) : answer :=
  ok ← validate k;
  if negb ok then refuse n Refusal else
  let k := with_defaults k in
  match circuitNamed (core n) (Name k) with
  | Some (_, cur) =>
      refuse n (match circuitDifferences (cfg cur) (default [] (circuitPrefixes n !! Name k)) k conn with
                | [] => ErrAlreadyInState | _ => Refusal end)
  | None =>
      if MTU (cfg_Transport k) - 3 <? minLSPMTU then refuse n Refusal else
      match allocCircuitIDs n with
      | None => refuse n Refusal
      | Some (pn, ext, n) =>
          let i := length (circuits (core n)) in
          let n := set_core n (set_circuits (core n) (circuits (core n) ++ [newCircuit k pn ext])) in
          let n := setCircuitPrefixes n (Name k) (maskedSet conn) in
          let n := set_core n (fold_left add_level (cfg_levels k) (core n)) in
          let n := setLSPBufferSize n in
          n ← on_core n (fun s => hellos_on hmac o s i now);
          n ← regenerate hmac o n false now;
          agree n
      end
  end.

Fixpoint purge_octets (s : Server) (ls : list Level) (pn now : Z) : outcome Server :=
  match ls with
  | [] => mret s
  | l :: ls => s ← purgeStaleFragments hmac s l pn 0 (lsp_orders o s l) now; purge_octets s ls pn now
  end.

Fixpoint drain_levels (s : Server) (i : nat) (ls : list Level) (now : Z) : outcome Server :=
  match ls with
  | [] => mret s
  | l :: ls => s ← drainSRM (sends o) (srm_orders o) s i l now; drain_levels s i ls now
  end.

(** The level set of the circuits other than the one at [i]. *)
Definition levels_without (s : Server) (i : nat) : Z :=
  fold_left (fun cap c => fold_left levelSet_add (cfg_levels (cfg c)) cap) (delete i (circuits s)) 0.

(** Every warning keyed on the circuit re-armed. *)
Definition rearm (s : Server) (c : circuit) : Server :=
  let name := Name (cfg c) in
  let s := txSucceeded s c in
  set_warned s (lsdbLimitWarned s) (edge_clearFunc (fun k => bool_decide (k.1 = name)) (oversizeWarned s))
    (edge_clearFunc (fun k => bool_decide (k.1 = name)) (refusedWarned s)) (txFailWarned s)
    (edge_clear name (dupSystemIDWarned s)) (edge_clear name (adjLimitWarned s)).

Definition deleteCircuit (n : Node F) (name : string) (now : Z) : answer :=
  match circuitNamed (core n) name with
  | None => refuse n ErrAlreadyInState
  | Some (i, c) =>
      let ls := cfg_levels (cfg c) in
      let n := set_core n (upd_circuit (core n) i (fun c => set_link c (linkDown c) true)) in
      n ← on_core n (fun s => purge_octets s ls (pseudonodeID c) now);
      let kept := levels_without (core n) i in
      let lost := List.filter (fun l => negb (levelSet_has kept l)) (levelSet_levels (levelCap (core n))) in
      n ← on_core n (fun s => purge_octets s lost 0 now);
      n ← on_core n (fun s => drain_levels s i ls now);
      let n := set_core n (drop_on (core n) i (fun _ => true) now) in
      let n := set_core n (set_circuits (core n) (delete i (circuits (core n)))) in
      let n := setCircuitPrefixes n name [] in
      let n := set_core n (set_levels (core n) kept (lspBufferSize (core n))) in
      let before := lspBufferSize (core n) in
      let n := setLSPBufferSize n in
      let n := set_core n (rearm (core n) c) in
      n ← (if lspBufferSize (core n) =? before then mret (ask_regen n) else regenerate hmac o n false now);
      agree (set_core n (emit (core n) (ForgetCircuit name)))
  end.
End Mutate.

(** ** Operations on the loop *)

Inductive operation : Type :=
  | OpAddLocator (lc : SRv6LocatorConfig)
  | OpDeleteLocator (p : Prefix)
  | OpAddFlexAlgo (fa : FlexAlgoConfig)
  | OpDeleteFlexAlgo (a : Z)
  | OpAddPrefix (ap : AdvertisedPrefix)
  | OpDeletePrefix (p : Prefix)
  | OpSetOverload (on : bool)
  | OpClearAdjacency (name : string) (id : option SystemID)
  | OpSetCircuitAddresses (name : string) (v4 v6 : list Addr) (conn : list Prefix)
  | OpSetCircuitLinkState (name : string) (up : bool)
  | OpAddCircuit (k : CircuitConfig) (conn : list Prefix)
  | OpDeleteCircuit (name : string).

Section Operate.
Context {F : Type} `{FIB F} (hmac : AuthAlgorithm -> bytes -> bytes -> bytes).

Definition perform (o : Oracle) (op : operation) (now : Z) (n : Node F) : outcome (Node F * option opError) :=
  match op with
  | OpAddLocator lc => AddLocator n lc
  | OpDeleteLocator p => DeleteLocator n p
  | OpAddFlexAlgo fa => AddFlexAlgo n fa
  | OpDeleteFlexAlgo a => DeleteFlexAlgo n a
  | OpAddPrefix ap => AddPrefix n ap
  | OpDeletePrefix p => DeletePrefix n p
  | OpSetOverload on => SetOverload n on
  | OpClearAdjacency name id => ClearAdjacency o n name id now
  | OpSetCircuitAddresses name v4 v6 conn => SetCircuitAddresses hmac o n name v4 v6 conn now
  | OpSetCircuitLinkState name up => SetCircuitLinkState hmac o n name up now
  | OpAddCircuit k conn => addCircuit hmac o n k conn now
  | OpDeleteCircuit name => deleteCircuit hmac o n name now
  end.

(** The operation as the loop runs it; the caller gets the answer. *)
Definition operate (o : Oracle) (op : operation) (now : Z) (n : Node F) : outcome (Node F) :=
  '(n, _) ← perform o op now n; mret n.
End Operate.
