(* ===== verification/Serve.v ===== *)
(** pkg/server/server.go, the loop of [Serve]: a turn handles one event, drains a
    pending regeneration and recomputes the routes when the topology changed and no
    hold is running; the readers that feed it, over the packet socket of pkg/datalink;
    and [NewIsisServer], which makes the node a loop starts with. *)

From stdpp Require Import sorting strings.
From S2P Require Import Prelude.
From S2P Require Import Netip.
From S2P Require Import Ids.
From S2P Require Import Sid.
From S2P Require Import SubTLV.
From S2P Require Import Entries.
From S2P Require Import Tlv.
From S2P Require Import Checksum.
From S2P Require Import Pdu.
From S2P Require Import Auth.
From S2P Require Import Circuit.
From S2P Require Import Lsdb.
From S2P Require Import EdgeLog.
From S2P Require Import Server.
From S2P Require Import Lifetime.
From S2P Require Import Transmit.
From S2P Require Import Origination.
From S2P Require Import HelloBuild.
From S2P Require Import Hello.
From S2P Require Import FlexAlgo.
From S2P Require Import Tent.
From S2P Require Import Topology.
From S2P Require Import Spf.
From S2P Require Import Rib.
From S2P Require Import EndX.
From S2P Require Import NodeLsp.
From S2P Require Import Loop.
From S2P Require Import Mutate.
Local Open Scope Z_scope.

Section Serve.
Context {F : Type} `{FIB F} {T : Type} `{TentativeSet T}.
Context (hmac : AuthAlgorithm -> bytes -> bytes -> bytes).

Section Turn.
Context (o : Oracle).

(** ** Events *)

(** An event names its circuit by the extended circuit ID, which is never used
    again once the circuit is gone (short of 2^32 circuits). *)
Inductive event : Type :=
  | RxEvent (circuit : Z) (src : SNPA) (frame : bytes)
  | RxErrEvent (circuit : Z).

Definition circuit_at (s : Server) (ext : Z) : option (nat * circuit) :=
  list_find (fun c => extCircID c = ext) (circuits s).

Definition handleEvent (s : Server) (ev : event) (now : Z) : outcome Server :=
  match ev with
  | RxEvent ext src frame =>
      match circuit_at s ext with
      | Some (i, c) => handleRxEvent hmac (sends o) (adj_orders o) (rx_jitter o) s i c src frame now
      | None => mret s
      end
  | RxErrEvent ext =>
      match circuit_at s ext with
      | Some (_, c) => if detached c then mret s else mret (emit s (PDURxError (Name (cfg c))))
      | None => mret s
      end
  end.

(** ** Turns *)

(** The node and whether a hold is running. *)
Record Loop : Type := mkLoop { node : Node F; holding : bool }.

Definition recompute (x : Loop) (now : Z) : outcome Loop :=
  let s := core (node x) in
  if spfDirty s && negb (holding x) then
    '(s, b) ← updateRIB (T := T) (info_orders o) (spf_orders o) (done_orders o) (route_orders o) (fa_orders o)
                (set_gen s false (lspGenPending s) (nextLSPGen s)) (routing (node x)) now;
    mret (mkLoop (set_routing (set_core (node x) s) b) true)
  else mret x.

(** The clock as a turn reads it: when it handles what it selected (the tick
    carries its own time), when it drains, when it recomputes. *)
Record moment : Type := mkMoment { at_event : Z; at_drain : Z; at_spf : Z }.

(** What follows every event. *)
Definition settle (x : Loop) (t : moment) : outcome Loop :=
  n ← drain hmac o (node x) (at_drain t); recompute (mkLoop n (holding x)) (at_spf t).

(** The arms of the [select]; a management operation is run to its end and
    answered. *)
Inductive arm : Type :=
  | OnEvent (ev : event)
  | OnTick
  | OnHold
  | OnOperation (op : operation).

Definition handle (x : Loop) (a : arm) (now : Z) : outcome Loop :=
  match a with
  | OnEvent ev => n ← on_core (node x) (fun s => handleEvent s ev now); mret (mkLoop n (holding x))
  | OnTick => n ← housekeeping hmac o (node x) now; mret (mkLoop n (holding x))
  | OnHold => mret (mkLoop (node x) false)
  | OnOperation op => n ← operate hmac o op now (node x); mret (mkLoop n (holding x))
  end.

Definition turn (x : Loop) (a : arm) (t : moment) : outcome Loop := x ← handle x a (at_event t); settle x t.
End Turn.

(** The turns of a run, each with what Go left open. *)
Fixpoint run (x : Loop) (turns : list (Oracle * arm * moment)) : outcome Loop :=
  match turns with
  | [] => mret x
  | (o, a, t) :: turns => x ← turn o x a t; run x turns
  end.
End Serve.

(** ** The data link

    pkg/datalink/linux.go.  What the host answers OpenLinux: the hardware address and
    the MTU of the interface, whether a socket opens, and which groups it joins.  The
    transport, and whether a socket is left open. *)
Definition OpenLinux (ifi : option (bytes * Z)) (listens : bool) (joins : SNPA -> bool) : option Transport * bool :=
  match ifi with
  | None => (None, false)
  | Some (mac, mtu) =>
      if negb (length mac =? 6)%nat then (None, false)
      else if negb listens then (None, false)
      else if forallb joins [AllL1ISs; AllL2ISs; AllISs] then (Some (mkTransport mac mtu), true) else (None, false)
  end.

Definition llcHeader : bytes := [254; 254; 3].

(** [llcFilter]: which frames the kernel passes to the socket (of those it passes, it
    keeps 256 KiB, more than a frame holds). *)
Definition llcFilter (frame : bytes) : bool := match frame with a :: b :: _ => 256 * a + b =? 65278 | _ => false end.

(** The frame [Send] writes. *)
Definition Send (pdu : bytes) : bytes := llcHeader ++ pdu.

(** What happens at a socket, in order: a frame comes, with the hardware address it
    comes from if the library tells it; a read fails; [Close] is called. *)
Inductive sock_event : Type := SockData (data : bytes) (from : option bytes) | SockError | SockClosed.

(** What [Recv] returns. *)
Inductive receipt : Type := Received (src : SNPA) (pdu : bytes) | RecvErrClosed | RecvError.

(** [Recv]: what it returns, the flag of [Close], and what is left; it blocks at the
    end.  A read fills a buffer of [mtu + 3 + 64] octets. *)
Fixpoint Recv (mtu : Z) (closed : bool) (evs : list sock_event) : option (receipt * bool * list sock_event) :=
  match evs with
  | [] => None
  | SockClosed :: evs => Recv mtu true evs
  | SockError :: evs => Some (if closed then RecvErrClosed else RecvError, closed, evs)
  | SockData data from :: evs =>
      let d := take (Z.to_nat mtu + length llcHeader + 64) data in
      if (length d <? length llcHeader)%nat then Recv mtu closed evs else
      match from with
      | None => Recv mtu closed evs
      | Some mac => if negb (length mac =? 6)%nat then Recv mtu closed evs else Some (Received mac (drop (length llcHeader) d), closed, evs)
      end
  end.

(** The calls of a reader; [n] of them, as each but the last takes an event. *)
Fixpoint receipts (n : nat) (mtu : Z) (closed : bool) (evs : list sock_event) : list receipt :=
  match n with
  | O => []
  | S n => match Recv mtu closed evs with None => [] | Some (r, closed, evs) => r :: receipts n mtu closed evs end
  end.
Definition frames_received (mtu : Z) (evs : list sock_event) : list receipt := receipts (length evs) mtu false evs.

(** ** Readers *)

(** One turn of [readLoop]: [queued] when the loop takes the event before the
    context is done, [waited] when the retry delay passes before it is.  What is
    handed to the loop, whether a warning is logged, and whether the reader goes on. *)
Definition read_turn (name : string) (ext : Z) (warned : gset string) (r : receipt) (queued waited : bool)
    : gset string * option event * bool * bool :=
  match r with
  | RecvErrClosed => (warned, None, false, false)
  | RecvError =>
      let '(warned, fired) := edge_warn name warned in
      if negb queued then (warned, None, fired, false) else (warned, Some (RxErrEvent ext), fired, waited)
  | Received src pdu =>
      let warned := edge_clear name warned in
      if queued then (warned, Some (RxEvent ext src pdu), false, true) else (warned, None, false, false)
  end.

(** The events, the number of warnings, and whether the reader has returned. *)
Fixpoint readLoop (name : string) (ext : Z) (warned : gset string) (rs : list (receipt * bool * bool)) : list event * nat * bool :=
  match rs with
  | [] => ([], 0%nat, false)
  | (r, queued, waited) :: rs =>
      let '(warned, ev, fired, on) := read_turn name ext warned r queued waited in
      let w := if fired : bool then 1%nat else 0%nat in
      if on : bool then let '(evs, ws, ret) := readLoop name ext warned rs in (option_list ev ++ evs, (w + ws)%nat, ret)
      else (option_list ev, w, true)
  end.

Record AuthConfig : Type := mkAuthConfig {
  Algorithm : AuthAlgorithm; KeyID : Z; Secret : bytes; AcceptSecrets : list bytes
}.

Definition auth_spec (a : AuthConfig) : authSpec :=
  if (length (Secret a) =? 0)%nat then zeroSpec
  else mkAuthSpec (Algorithm a) (KeyID a) (Secret a) (acceptKeys (AcceptSecrets a)).

(** A circuit of the configuration with its connected subnets. *)
Record options (F : Type) : Type := mkOptions {
  o_systemID : SystemID;
  o_areaAddrs : list bytes;
  o_hostname : bytes;
  o_circuits : list (CircuitConfig * list Prefix);
  o_prefixes : list AdvertisedPrefix;
  o_connected : list Prefix;
  o_locators : list SRv6LocatorConfig;
  o_flexAlgos : list FlexAlgoConfig;
  o_fib : F;
  o_overloadOnStartup : Z;
  o_areaAuth : AuthConfig;
  o_domainAuth : AuthConfig;
  o_advertiseFilter : option (AdvertisedPrefix -> bool);
  o_l2LeakFilter : option (AdvertisedPrefix -> bool);
  o_fibFilter : option (RouteInfo -> bool);
  o_lsdbEntryLimit : Z;
  o_lspMTU : Z
}.
#[global] Arguments mkOptions {F}.
#[global] Arguments o_systemID {F}.
#[global] Arguments o_areaAddrs {F}.
#[global] Arguments o_hostname {F}.
#[global] Arguments o_circuits {F}.
#[global] Arguments o_prefixes {F}.
#[global] Arguments o_connected {F}.
#[global] Arguments o_locators {F}.
#[global] Arguments o_flexAlgos {F}.
#[global] Arguments o_fib {F}.
#[global] Arguments o_overloadOnStartup {F}.
#[global] Arguments o_areaAuth {F}.
#[global] Arguments o_domainAuth {F}.
#[global] Arguments o_advertiseFilter {F}.
#[global] Arguments o_l2LeakFilter {F}.
#[global] Arguments o_fibFilter {F}.
#[global] Arguments o_lsdbEntryLimit {F}.
#[global] Arguments o_lspMTU {F}.

(** ** Checks *)

Fixpoint valid_algos (seen : gset Z) (fas : list FlexAlgoConfig) : option (gset Z) :=
  match fas with
  | [] => Some seen
  | fa :: fas =>
      if (FC_Algo fa <? 128) || bool_decide (FC_Algo fa ∈ seen) then None
      else valid_algos ({[ FC_Algo fa ]} ∪ seen) fas
  end.

Definition valid_locator (participated : gset Z) (lc : SRv6LocatorConfig) : bool :=
  let a := p_addr (LC_Prefix lc) in
  Is6 a && negb (Is4In6 a) && ((LC_Algo lc =? 0) || bool_decide (LC_Algo lc ∈ participated)).

Fixpoint valid_circuits (seen : gset string) (ks : list CircuitConfig) : outcome bool :=
  match ks with
  | [] => mret true
  | k :: ks =>
      ok ← validate k;
      if negb ok || bool_decide (Name k ∈ seen) then mret false else valid_circuits ({[ Name k ]} ∪ seen) ks
  end.

Section Options.
Context {F : Type}.

(** [options.validate]: whether it returns no error. *)
Definition options_validate (op : options F) : outcome bool :=
  if requirePrimaryPassword (Secret (o_areaAuth op)) (AcceptSecrets (o_areaAuth op)) ||
     requirePrimaryPassword (Secret (o_domainAuth op)) (AcceptSecrets (o_domainAuth op)) then mret false else
  if negb (forallb checkAdvertisedPrefix (o_prefixes op)) then mret false else
  match valid_algos ∅ (o_flexAlgos op) with
  | None => mret false
  | Some participated =>
      if negb (forallb (valid_locator participated) (o_locators op)) then mret false else
      if (255 <? length (o_circuits op))%nat then mret false
      else valid_circuits ∅ (o_circuits op).*1
  end.

(** ** Building the node *)

Definition option_prefix (m : gmap Prefix AdvertisedPrefix) (p : AdvertisedPrefix) : gmap Prefix AdvertisedPrefix :=
  let masked := Masked (AP_Prefix p) in <[masked := mkAdvertised masked (AP_Metric p)]> m.

Definition auth_keys (op : options F) : gmap Level authSpec :=
  let area := auth_spec (o_areaAuth op) in
  let domain := auth_spec (o_domainAuth op) in
  let m := if spec_on area then <[Level1 := area]> ∅ else ∅ in
  if spec_on domain then <[Level2 := domain]> m else m.

(** The node before its circuits. *)
Definition bare_node (op : options F) : Node F :=
  let conn : gset Prefix := list_to_set (o_connected op) in
  mkNode
    (mkServer (o_systemID op) (o_areaAddrs op) 0 (auth_keys op) (o_lsdbEntryLimit op) [] ∅ false false zeroTime ∅ 0
       zeroTime false ∅ ∅ ∅ ∅ ∅ ∅ false [])
    (mkRIB (o_flexAlgos op) (o_locators op) (fold_left option_prefix (o_prefixes op) ∅) conn (o_fib op) ∅ ∅ ∅ ∅ ∅ ∅ ∅
       (o_l2LeakFilter op) (o_fibFilter op) [])
    (o_hostname op) (o_advertiseFilter op) ∅ conn ∅ ∅ ∅ ∅ 0 (o_overloadOnStartup op) 0 0 0.

(** One circuit of the configuration; [None] where no identifier is left. *)
Definition install_circuit (n : Node F) (kp : CircuitConfig * list Prefix) : option (Node F) :=
  let k := with_defaults kp.1 in
  '(pn, ext, n) ← allocCircuitIDs n;
  let n := set_core n (set_circuits (core n) (circuits (core n) ++ [newCircuit k pn ext])) in
  let n := setCircuitPrefixes n (Name k) (maskedSet kp.2) in
  Some (set_core n (fold_left add_level (cfg_levels k) (core n))).

Fixpoint install_circuits (n : Node F) (kps : list (CircuitConfig * list Prefix)) : option (Node F) :=
  match kps with [] => Some n | kp :: kps => n ← install_circuit n kp; install_circuits n kps end.

Definition set_mtuCap (n : Node F) (cap : Z) : Node F :=
  mkNode (core n) (routing n) (hostname n) (advertiseFilter n) (circuitPrefixes n) (optionConnected n) (endXSIDs n)
    (endXNoNexthop n) (sidPending n) (sidFailed n) (ticks n) (overloadOnStartup n) cap (nextExtCircID n)
    (pseudonodeCursor n).

(** [NewIsisServer]: a node, or none where it returns an error. *)
Definition NewIsisServer (op : options F) : outcome (option (Node F)) :=
  ok ← options_validate op;
  if negb ok then mret None else
  match install_circuits (bare_node op) (o_circuits op) with
  | None => mret None
  | Some n =>
      let n := setLSPBufferSize (set_mtuCap n (o_lspMTU op)) in
      mret (if lspBufferSize (core n) <? minLSPMTU then None else Some n)
  end.
End Options.
