(* ===== verification/Text.v ===== *)
(** Text, as its octets: what a configuration is written in ([strings.TrimSpace],
    [netip.ParseAddr], [netip.ParsePrefix], the network entity titles of
    pkg/packet/net.go, the String methods of packet.go and tlv_area_addresses.go,
    [netString] of pkg/server/server.go), and UTF-8 as Go's standard library reads
    it, with the text a display may show. *)

From stdpp Require Import strings.
From S2P Require Import Prelude.
From S2P Require Import Netip.
From S2P Require Import Ids.
From S2P Require Import Spf.
From S2P Require Import EndX.
Local Open Scope Z_scope.

(** The octets of a literal. *)
Abbreviation text := ascii_bytes.

(** ** White space *)

(** The UTF-8 sequences of [unicode.IsSpace]. *)
Definition spaces : list bytes :=
  map (fun c => [c]) [9; 10; 11; 12; 13; 32] ++ [[194; 133]; [194; 160]; [225; 154; 128]] ++
  map (fun c => [226; 128; c]) [128; 129; 130; 131; 132; 133; 134; 135; 136; 137; 138; 168; 169; 175] ++
  [[226; 129; 159]; [227; 128; 128]].

Definition strip (w s : bytes) : option bytes := if bool_decide (take (length w) s = w) then Some (drop (length w) s) else None.

Fixpoint first_some {A B} (f : A -> option B) (l : list A) : option B :=
  match l with [] => None | a :: l => match f a with Some b => Some b | None => first_some f l end end.

Fixpoint trim_left (ws : list bytes) (n : nat) (s : bytes) : bytes :=
  match n with
  | O => s
  | S n => match first_some (fun w => strip w s) ws with Some s => trim_left ws n s | None => s end
  end.

(** Each end in turn; every step removes an octet. *)
Definition TrimSpace (s : bytes) : bytes :=
  let s := trim_left spaces (length s) s in rev (trim_left (map (@rev Z) spaces) (length s) (rev s)).

(** ** Digits *)

Definition decimal_value (c : Z) : option Z := if (48 <=? c) && (c <=? 57) then Some (c - 48) else None.

Definition hex_value (c : Z) : option Z :=
  if (48 <=? c) && (c <=? 57) then Some (c - 48)
  else if (97 <=? c) && (c <=? 102) then Some (c - 87)
  else if (65 <=? c) && (c <=? 70) then Some (c - 55) else None.

(** [hex.DecodeString] *)
Fixpoint DecodeString (s : bytes) : option bytes :=
  match s with
  | [] => Some []
  | a :: b :: s => x ← hex_value a; y ← hex_value b; r ← DecodeString s; Some (16 * x + y :: r)
  | [_] => None
  end.

(** ** Network entity titles *)

Definition dot : Z := 46.

Definition ParseNET (net : bytes) : option (bytes * SystemID) :=
  raw ← DecodeString (List.filter (fun c => negb (c =? dot)) net);
  let n := length raw in
  if (n <? 8)%nat || (20 <? n)%nat then None else
  if negb (nth (n - 1) raw 0 =? 0) then None else Some (take (n - 7) raw, take 6 (drop (n - 7) raw)).

(** [AreaAddress.String]: the octets from the [i]-th on. *)
Fixpoint area_octets (i : nat) (a : bytes) : bytes :=
  match a with
  | [] => []
  | b :: a => (if (i mod 2 =? 1)%nat then [dot] else []) ++ hex_octet b ++ area_octets (S i) a
  end.
Definition AreaAddress_String (a : bytes) : bytes := area_octets 0 a.

(** [netString]: the first area, the system ID, and the zero selector. *)
Definition netString (areas : list bytes) (id : SystemID) : bytes :=
  (match areas with [] => text "(no area)" | a :: _ => AreaAddress_String a end) ++
  [dot] ++ SystemID_String id ++ [dot; 48; 48].

(** ** Addresses *)

(** [parseIPv4Fields] at one octet: the fields before, the value and the digits of
    the current one, whether it starts the string and whether a dot precedes it. *)
Fixpoint parseIPv4Fields (s : bytes) (first dotted : bool) (fields : list Z) (val : Z) (digLen : nat) : option bytes :=
  match s with
  | [] => if (length fields <? 3)%nat then None else Some (fields ++ [val])
  | c :: s =>
      match decimal_value c with
      | Some d =>
          if (digLen =? 1)%nat && (val =? 0) then None else
          let val := val * 10 + d in
          if 255 <? val then None else parseIPv4Fields s false false fields val (S digLen)
      | None =>
          if negb (c =? dot) then None else
          if first || bool_decide (s = []) || dotted then None else
          if (length fields =? 3)%nat then None else parseIPv4Fields s false true (fields ++ [val]) 0 0
      end
  end.
Definition parseIPv4 (s : bytes) : option bytes := parseIPv4Fields s true false [] 0 0.

Fixpoint hex_run (s : bytes) (acc : Z) (off : nat) : Z * nat :=
  match s with
  | [] => (acc, off)
  | c :: s' => match hex_value c with Some d => hex_run s' (16 * acc + d) (S off) | None => (acc, off) end
  end.

Definition colon : Z := 58.

(** The loop of [parseIPv6]: at most eight groups; the octets read, where the
    ellipsis is, and what is left of the string. *)
Fixpoint v6_loop (n : nat) (s ip : bytes) (ellipsis : option nat) : option (bytes * option nat * bytes) :=
  match n with
  | O => Some (ip, ellipsis, s)
  | S n =>
      let i := length ip in
      let '(acc, off) := hex_run s 0 0 in
      if (off =? 0)%nat || (4 <? off)%nat then None else
      match drop off s with
      | c :: rest =>
          if c =? dot then
            if bool_decide (ellipsis = None) && negb (i =? 12)%nat then None else
            if (16 <? i + 4)%nat then None else
            f ← parseIPv4 s; Some (ip ++ f, ellipsis, [])
          else
            let ip := ip ++ [acc / 256; acc mod 256] in
            if negb (c =? colon) then None else
            match rest with
            | [] => None
            | d :: rest' =>
                if d =? colon then
                  match ellipsis, rest' with
                  | Some _, _ => None
                  | None, [] => Some (ip, Some (i + 2)%nat, [])
                  | None, _ => v6_loop n rest' ip (Some (i + 2)%nat)
                  end
                else v6_loop n rest ip ellipsis
            end
      | [] => Some (ip ++ [acc / 256; acc mod 256], ellipsis, [])
      end
  end.

Definition expand (ip : bytes) (ellipsis : option nat) : option bytes :=
  let i := length ip in
  match ellipsis with
  | None => if (i <? 16)%nat then None else Some ip
  | Some e => if (i <? 16)%nat then Some (take e ip ++ replicate (16 - i) 0 ++ drop e ip) else None
  end.

Definition parseIPv6 (s : bytes) : option bytes :=
  let lead := bool_decide (take 2 s = [colon; colon]) in
  let s := if lead then drop 2 s else s in
  if lead && bool_decide (s = []) then Some (replicate 16 0) else
  '(ip, ellipsis, rest) ← v6_loop 8 s [] (if lead then Some O else None);
  if bool_decide (rest = []) then expand ip ellipsis else None.

(** [ParseAddr] of a string without a zone: the first dot or colon decides. *)
Fixpoint ParseAddr_at (c s : bytes) : option Addr :=
  match c with
  | [] => None
  | x :: c => if x =? dot then Addr4 <$> parseIPv4 s else if x =? colon then Addr6 <$> parseIPv6 s else ParseAddr_at c s
  end.
Definition ParseAddr (s : bytes) : option Addr := ParseAddr_at s s.

(** [strconv.Atoi] of digits alone. *)
Fixpoint Atoi (s : bytes) (acc : Z) : option Z :=
  match s with [] => Some acc | c :: s => d ← decimal_value c; Atoi s (10 * acc + d) end.

Definition slash : Z := 47.
Definition percent : Z := 37.

(** The string before and after the last slash. *)
Fixpoint last_slash (s : bytes) : option (bytes * bytes) :=
  match s with
  | [] => None
  | c :: s' =>
      match last_slash s' with
      | Some (a, b) => Some (c :: a, b)
      | None => if c =? slash then Some ([], s') else None
      end
  end.

(** [ParsePrefix]: no zone, no sign and no leading zero; the address is not
    masked. *)
Definition ParsePrefix (s : bytes) : option Prefix :=
  '(a, bits) ← last_slash s;
  if bool_decide (percent ∈ a) then None else
  ip ← ParseAddr a;
  match bits with
  | [] => None
  | b :: more =>
      if negb (bool_decide (more = [])) && ((b <? 49) || (57 <? b)) then None else
      n ← Atoi bits 0;
      if BitLen ip <? n then None else Some (PrefixFrom ip n)
  end.

Definition within (lo hi c : Z) : bool := (lo <=? c) && (c <=? hi).

(** The ranges of the second octet, by the first. *)
Definition second_ok (a b : Z) : bool :=
  if a =? 224 then within 160 191 b else if a =? 237 then within 128 159 b
  else if a =? 240 then within 144 191 b else if a =? 244 then within 128 143 b else within 128 191 b.

Definition next_ok (s : bytes) : bool := match s with c :: _ => within 128 191 c | [] => false end.

(** [utf8.DecodeRune]: the octets of the rune the string starts with; none for an
    encoding that is not valid, which it reports as one octet wide. *)
Definition rune_width (s : bytes) : option nat :=
  match s with
  | [] => None
  | a :: s =>
      if a <? 128 then Some 1%nat else
      match s with
      | [] => None
      | b :: s =>
          if negb (second_ok a b) then None
          else if within 194 223 a then Some 2%nat
          else if within 224 239 a then if next_ok s then Some 3%nat else None
          else if within 240 244 a then if next_ok s && next_ok (tail s) then Some 4%nat else None
          else None
      end
  end.

(** ["�"] *)
Definition replacement : bytes := [239; 191; 189].

(** [strings.ToValidUTF8(s, replacement)] from a position on; [invalid]: whether the octet
    before was replaced. *)
Fixpoint valid_from (n : nat) (s : bytes) (invalid : bool) : bytes :=
  match n, s with
  | S n, _ :: rest =>
      match rune_width s with
      | Some w => take w s ++ valid_from n (drop w s) false
      | None => (if invalid then [] else replacement) ++ valid_from n rest true
      end
  | _, _ => []
  end.
Definition ToValidUTF8 (s : bytes) : bytes := valid_from (length s) s false.

(** [unicode.IsControl] of an encoded rune: U+0000 to U+001F and U+007F to U+009F. *)
Definition IsControl (r : bytes) : bool :=
  match r with
  | [c] => (c <? 32) || (c =? 127)
  | [a; b] => (a =? 194) && (b <? 160)
  | _ => false
  end.

(** [strings.Map], which turns an octet that is not valid into the replacement. *)
Fixpoint map_runes (n : nat) (f : bytes -> bytes) (s : bytes) : bytes :=
  match n, s with
  | S n, _ :: rest =>
      match rune_width s with
      | Some w => f (take w s) ++ map_runes n f (drop w s)
      | None => f replacement ++ map_runes n f rest
      end
  | _, _ => []
  end.
Definition Map (f : bytes -> bytes) (s : bytes) : bytes := map_runes (length s) f s.

(** ** What may be shown *)

(** Text that is valid UTF-8 and has no control character. *)
Inductive shown : bytes -> Prop :=
  | shown_nil : shown []
  | shown_rune r s : rune_width r = Some (length r) -> IsControl r = false -> shown s -> shown (r ++ s).

(** Whether a rune is complete does not depend on what follows it. *)
Lemma width_app r s : rune_width r = Some (length r) -> rune_width (r ++ s) = Some (length r).
Proof.
  destruct r as [|a r]; [done|]. cbn [rune_width app]. destruct (a <? 128); [done|].
  destruct r as [|b r]; [done|]. cbn [app]. destruct (second_ok a b); cbn [negb]; [|done]. destruct (within 194 223 a); [done|].
  destruct (within 224 239 a).
  - destruct r as [|c r]; [done|]. by cbn.
  - destruct (within 240 244 a); [|done]. destruct r as [|c [|d r]]; cbn; try done. by rewrite andb_false_r.
Qed.

(** The width of a rune is the width of its octets alone. *)
Lemma width_take s w : rune_width s = Some w -> (0 < w <= length s)%nat /\ rune_width (take w s) = Some w.
Proof.
  destruct s as [|a s]; [done|]. cbn [rune_width]. destruct (a <? 128) eqn:E1; [intros [= <-]; cbn; rewrite E1; split; [lia|done]|].
  destruct s as [|b s]; [done|]. destruct (second_ok a b) eqn:E2; cbn [negb]; [|done].
  destruct (within 194 223 a) eqn:E3; [intros [= <-]; cbn; rewrite E1, E2, E3; split; [lia|done]|].
  destruct (within 224 239 a) eqn:E4.
  - destruct s as [|c s]; [done|]. cbn [next_ok]. destruct (within 128 191 c) eqn:E5; [|done]. intros [= <-].
    cbn. rewrite E1, E2, E3, E4, E5. split; [lia|done].
  - destruct (within 240 244 a) eqn:E5; [|done]. destruct s as [|c [|d s]]; cbn [next_ok tail]; [done|by rewrite andb_false_r|].
    destruct (within 128 191 c && within 128 191 d) eqn:E6; [|done]. intros [= <-]. cbn. rewrite E1, E2, E3, E4, E5, E6. split; [lia|done].
Qed.

Lemma width_chunk s w : rune_width s = Some w -> rune_width (take w s) = Some (length (take w s)) /\ (0 < w <= length s)%nat.
Proof. intros H. destruct (width_take s w H) as [Hw Hr]. split; [|done]. by rewrite length_take_le by lia. Qed.

Lemma shown_app a b : shown a -> shown b -> shown (a ++ b).
Proof. induction 1 as [|r s Hw Hc _ IH]; intros Hb; [done|]. rewrite <- app_assoc. constructor; [done|done|by apply IH]. Qed.

Lemma shown_concat l : Forall shown l -> shown (concat l).
Proof. induction 1; cbn; [constructor|by apply shown_app]. Qed.

Lemma shown_one c : 32 <= c < 127 -> shown [c].
Proof.
  intros Hc. change [c] with ([c] ++ []). constructor; [| |constructor].
  - cbn. assert (E : (c <? 128) = true) by lia. by rewrite E.
  - cbn. lia.
Qed.

Lemma shown_ascii s : Forall (fun c => 32 <= c < 127) s -> shown s.
Proof. induction 1 as [|c s Hc _ IH]; [constructor|]. apply (shown_app [c]); [by apply shown_one|done]. Qed.

Lemma shown_cons c s : 32 <= c < 127 -> shown s -> shown (c :: s).
Proof. intros Hc Hs. by apply (shown_app [c] s); [apply shown_one|]. Qed.

(** ** What the functions return *)

Section Runes.
Context (f : bytes -> bytes) (f_shown : forall r, rune_width r = Some (length r) -> shown (f r)).

Lemma Map_shown s : shown (Map f s).
Proof using f_shown.
  unfold Map. generalize (length s) as n. intros n. revert s. induction n as [|n IH]; intros s; [constructor|]. cbn [map_runes].
  destruct s as [|a s]; [constructor|]. destruct (rune_width (a :: s)) as [w|] eqn:E.
  - apply shown_app; [|apply IH]. by apply f_shown, (width_chunk _ w E).
  - apply shown_app; [by apply f_shown|apply IH].
Qed.

Lemma Map_id s : (forall r, rune_width r = Some (length r) -> IsControl r = false -> f r = r) -> shown s -> Map f s = s.
Proof using.
  intros Hf Hs. unfold Map. enough (Hn : forall n, (length s <= n)%nat -> map_runes n f s = s) by (by apply Hn).
  induction Hs as [|r s Hw Hc Hs IH]; intros n Hn; [by destruct n|]. rewrite length_app in Hn.
  destruct r as [|a r]; [done|]. destruct n as [|n]; [cbn in Hn; lia|]. cbn [map_runes app]. change (a :: r ++ s) with ((a :: r) ++ s).
  rewrite (width_app (a :: r) s Hw), take_app_length, drop_app_length, (Hf (a :: r) Hw Hc), IH; [done|cbn in Hn; lia].
Qed.
End Runes.

Lemma ToValid_id s : shown s -> ToValidUTF8 s = s.
Proof.
  intros Hs. unfold ToValidUTF8. enough (Hn : forall n i, (length s <= n)%nat -> valid_from n s i = s) by (by apply Hn).
  induction Hs as [|r s Hw Hc Hs IH]; intros n i Hn; [by destruct n|]. rewrite length_app in Hn.
  destruct r as [|a r]; [done|]. destruct n as [|n]; [cbn in Hn; lia|]. cbn [valid_from app]. change (a :: r ++ s) with ((a :: r) ++ s).
  rewrite (width_app (a :: r) s Hw), take_app_length, drop_app_length, IH; [done|cbn in Hn; lia].
Qed.
