(* ===== verification/Netlink.v ===== *)
(** pkg/fib/netlink_linux.go: [Netlink], the forwarding table the daemon ships, which
    programs the routes of a Linux kernel.

    The netlink library and the kernel are the interface [Kernel]: one operation for
    each call the file makes.  A method runs in a monad of the kernel's state and of
    the errors that stop it. *)

From stdpp Require Import strings.
From S2P Require Import Prelude.
From S2P Require Import Netip.
From S2P Require Import Rib.
Local Open Scope Z_scope.

(** ** What the library passes to the kernel *)

(** Package net: [IPNet], a network; both fields are octets. *)
Record IPNet : Set := mkIPNet { IP : bytes; Mask : bytes }.
#[export] Instance IPNet_eq_dec : EqDecision IPNet.
Proof. solve_decision. Defined.
#[export] Instance IPNet_countable : Countable IPNet.
Proof. refine (inj_countable' (fun n => (IP n, Mask n)) (fun '(i, m) => mkIPNet i m) _). by intros []. Defined.

Record Link : Set := mkLink { Link_Name : string; Link_Index : Z; Link_Up : bool }.

Record NexthopInfo : Set := mkNexthopInfo { hop_LinkIndex : Z; hop_Gw : bytes }.
#[export] Instance NexthopInfo_eq_dec : EqDecision NexthopInfo.
Proof. solve_decision. Defined.

(** The actions of seg6local; the library's list ends before [End.DT46]. *)
Inductive Seg6Action : Set :=
  SEG6_LOCAL_ACTION_END | SEG6_LOCAL_ACTION_END_X | SEG6_LOCAL_ACTION_END_DT6 | SEG6_LOCAL_ACTION_END_DT4 | action_number (n : Z).
Definition seg6LocalActionEndDT46 : Seg6Action := action_number 16.

(** The attributes of an encapsulation that are set ([Flags]), each with its value. *)
Record SEG6LocalEncap : Set := mkEncap {
  Encap_Action : Seg6Action; Encap_In6Addr : option bytes; Encap_Table : option Z; Encap_VrfTable : option Z
}.
#[export] Instance Seg6Action_eq_dec : EqDecision Seg6Action.
Proof. solve_decision. Defined.
#[export] Instance SEG6LocalEncap_eq_dec : EqDecision SEG6LocalEncap.
Proof. solve_decision. Defined.

(** netlink.Route; a zero number and an empty list are what a caller leaves out. *)
Record Route : Set := mkRoute {
  Dst : option IPNet; Protocol : Z; Table : Z; Priority : Z; LinkIndex : Z; Gw : bytes; MultiPath : list NexthopInfo;
  Encap : option SEG6LocalEncap
}.
#[export] Instance Route_eq_dec : EqDecision Route.
Proof. solve_decision. Defined.

(** What a call fails with, as far as the callers tell errors apart: the numbers of
    package unix, the library's [LinkNotFoundError]; and [Refused], an error of this
    file. *)
Inductive Errno : Set := ESRCH | ENOENT | EEXIST | ENODEV | LinkNotFoundError | OtherErrno | Refused.
#[export] Instance Errno_eq_dec : EqDecision Errno.
Proof. solve_decision. Defined.

Inductive Filter : Set := RT_FILTER_PROTOCOL | RT_FILTER_TABLE | RT_FILTER_OIF.
Inductive Family : Set := FAMILY_V4 | FAMILY_V6.
#[export] Instance Filter_eq_dec : EqDecision Filter.
Proof. solve_decision. Defined.
#[export] Instance Family_eq_dec : EqDecision Family.
Proof. solve_decision. Defined.

Class Kernel (K : Type) := {
  LinkByName : K -> string -> Link + Errno;
  RouteListFiltered : K -> Family -> Route -> list Filter -> list Route + Errno;
  RouteReplace : K -> Route -> K * option Errno;
  RouteDel : K -> Route -> K * option Errno;
  LinkAdd : K -> string -> K * option Errno;
  LinkSetUp : K -> Link -> K * option Errno;
  LinkDel : K -> Link -> K * option Errno
}.

(** ** Calls *)

Definition call (K A : Type) : Type := K -> K * (A + Errno).

#[export] Instance call_ret {K} : MRet (call K) := fun A a k => (k, inl a).
#[export] Instance call_bind {K} : MBind (call K) := fun A B f m k =>
  match m k with
  | (k, inl a) => f a k
  | (k, inr e) => (k, inr e)
  end.
Definition fails {K A} (e : Errno) : call K A := fun k => (k, inr e).
Definition reads {K A} (f : K -> A + Errno) : call K A := fun k => (k, f k).
Definition writes {K} (f : K -> K * option Errno) : call K () := fun k => let '(k', e) := f k in (k', match e with None => inl () | Some e => inr e end).

(** [if err := m; err != nil && !accepted(err) { return err }] *)
Definition unless {K} (accepted : Errno -> bool) (m : call K ()) : call K () := fun k =>
  match m k with
  | (k', inr e) => (k', if accepted e then inl () else inr e)
  | r => r
  end.

(** [m], with the errors [accepted] holds of as a value. *)
Definition catching {K A} (accepted : Errno -> bool) (m : call K A) : call K (option A) := fun k =>
  match m k with
  | (k', inl a) => (k', inl (Some a))
  | (k', inr e) => (k', if accepted e then inl None else inr e)
  end.

Definition isNotExist (e : Errno) : bool := match e with ESRCH | ENOENT => true | _ => false end.
Definition isLinkNotFound (e : Errno) : bool := match e with LinkNotFoundError | ENODEV => true | _ => isNotExist e end.
Definition isExist (e : Errno) : bool := match e with EEXIST => true | _ => false end.

(** ** Networks *)

(** Package net: [CIDRMask]. *)
Definition CIDRMask (ones bits : Z) : bytes :=
  if negb (bits =? 32) && negb (bits =? 128) then []
  else if (ones <? 0) || (bits <? ones) then []
  else mask_bytes ones (replicate (Z.to_nat (bits / 8)) 255).

(** Package net: the leading ones of an octet, when only zeros follow them. *)
Fixpoint octet_ones (n : nat) (v : Z) : option Z :=
  match n with
  | O => Some 0
  | S n => if Z.testbit v 7 then option_map (Z.add 1) (octet_ones n (u8 (Z.shiftl v 1))) else if v =? 0 then Some 0 else None
  end.
Fixpoint simpleMaskLength (m : bytes) : option Z :=
  match m with
  | [] => Some 0
  | v :: m =>
      if v =? 255 then option_map (Z.add 8) (simpleMaskLength m)
      else if forallb (Z.eqb 0) m then octet_ones 8 v else None
  end.
(** [ones, _ := m.Size()] *)
Definition Mask_ones (m : bytes) : Z := default 0 (simpleMaskLength m).

(** Package netip: [AddrFromSlice]. *)
Definition AddrFromSlice (b : bytes) : option Addr :=
  if (length b =? 4)%nat then Some (Addr4 b) else if (length b =? 16)%nat then Some (Addr6 b) else None.

Definition prefixToIPNet (p : Prefix) : IPNet := mkIPNet (addr_bytes (p_addr (Masked p))) (CIDRMask (p_bits p) (BitLen (p_addr p))).

Definition ipNetToPrefix (n : IPNet) : option Prefix :=
  option_map (fun a => PrefixFrom (Unmap a) (Mask_ones (Mask n))) (AddrFromSlice (IP n)).

(** ** The forwarding table *)

(** unix.RTPROT_ISIS and unix.RT_TABLE_MAIN *)
Definition rtprotoISIS : Z := 187.
Definition RT_TABLE_MAIN : Z := 254.
Definition routePriority : Z := 115.
Definition srv6DummyDev : string := "isis-srv6".

(** A [Netlink] is the table it writes to. *)
Definition NewNetlink (table : Z) : Z := if table =? 0 then RT_TABLE_MAIN else table.

Section Netlink.
Context {K : Type} `{Kernel K} (n : Z).

Definition baseRoute (p : Prefix) : Route := mkRoute (Some (prefixToIPNet p)) rtprotoISIS n routePriority 0 [] [] None.

Definition with_gateway (r : Route) (link : Z) (gw : bytes) : Route :=
  mkRoute (Dst r) (Protocol r) (Table r) (Priority r) link gw (MultiPath r) (Encap r).
Definition with_multipath (r : Route) (hops : list NexthopInfo) : Route :=
  mkRoute (Dst r) (Protocol r) (Table r) (Priority r) (LinkIndex r) (Gw r) hops (Encap r).

Definition nexthop_info (nh : NextHopInfo) : call K NexthopInfo :=
  l ← reads (fun k => LinkByName k (Interface nh)); mret (mkNexthopInfo (Link_Index l) (addr_bytes (Gateway nh))).

Fixpoint multipath (nhs : list NextHopInfo) : call K (list NexthopInfo) :=
  match nhs with
  | [] => mret []
  | nh :: nhs => h ← nexthop_info nh; hs ← multipath nhs; mret (h :: hs)
  end.

Definition route (p : Prefix) (nhs : list NextHopInfo) : call K Route :=
  let r := baseRoute p in
  match nhs with
  | [nh] => h ← nexthop_info nh; mret (with_gateway r (hop_LinkIndex h) (hop_Gw h))
  | _ => hs ← multipath nhs; mret (with_multipath r hs)
  end.

Definition netlink_Withdraw (p : Prefix) : call K () := unless isNotExist (writes (fun k => RouteDel k (baseRoute p))).

Definition netlink_Update (p : Prefix) (nhs : list NextHopInfo) : call K () :=
  match nhs with
  | [] => netlink_Withdraw p
  | _ => r ← route p nhs; writes (fun k => RouteReplace k r)
  end.

(** ** The device of the local SIDs *)

Definition bare_route (table link : Z) : Route := mkRoute None rtprotoISIS table 0 link [] [] None.

Definition pruneSRv6Dummy : call K () :=
  found ← catching isLinkNotFound (reads (fun k => LinkByName k srv6DummyDev));
  match found with
  | None => mret ()
  | Some link =>
      rs ← reads (fun k => RouteListFiltered k FAMILY_V6 (bare_route 0 (Link_Index link)) [RT_FILTER_PROTOCOL; RT_FILTER_OIF]);
      if (0 <? length rs)%nat then mret () else unless isLinkNotFound (writes (fun k => LinkDel k link))
  end.

Definition localSIDDevice (dev : string) : call K Z :=
  if negb (bool_decide (dev = ""%string)) then
    link ← reads (fun k => LinkByName k dev); mret (Link_Index link)
  else
    found ← catching isLinkNotFound (reads (fun k => LinkByName k srv6DummyDev));
    link ← (match found with
            | Some link => mret link
            | None => _ ← unless isExist (writes (fun k => LinkAdd k srv6DummyDev)); reads (fun k => LinkByName k srv6DummyDev)
            end);
    _ ← (if Link_Up link then mret () else writes (fun k => LinkSetUp k link));
    mret (Link_Index link).

(** ** Local SIDs *)

Definition sid_net (sid : Addr) : IPNet := mkIPNet (addr_bytes sid) (CIDRMask 128 128).

(** What [localSIDRoute] asks of the kernel for a behaviour, and on which device. *)
Definition sid_encap (sid : LocalSID) : option (SEG6LocalEncap * string) :=
  match LS_Behavior sid with
  | BehaviorEnd => Some (mkEncap SEG6_LOCAL_ACTION_END None None None, ""%string)
  | BehaviorEndX =>
      if negb (Is6 (LS_Nexthop sid)) then None
      else Some (mkEncap SEG6_LOCAL_ACTION_END_X (Some (addr_bytes (LS_Nexthop sid))) None None, LS_Interface sid)
  | BehaviorEndDT6 => Some (mkEncap SEG6_LOCAL_ACTION_END_DT6 None (Some (LS_Table sid)) None, ""%string)
  | BehaviorEndDT4 => Some (mkEncap SEG6_LOCAL_ACTION_END_DT4 None None (Some (LS_Table sid)), ""%string)
  | BehaviorEndDT46 => Some (mkEncap seg6LocalActionEndDT46 None None (Some (LS_Table sid)), ""%string)
  end.

Definition localSIDRoute (sid : LocalSID) : call K Route :=
  match sid_encap sid with
  | None => fails Refused
  | Some (enc, dev) =>
      index ← localSIDDevice dev;
      mret (mkRoute (Some (sid_net (LS_SID sid))) rtprotoISIS n 0 index [] [] (Some enc))
  end.

Definition netlink_AddLocalSID (sid : LocalSID) : call K () := r ← localSIDRoute sid; writes (fun k => RouteReplace k r).

Definition netlink_RemoveLocalSID (sid : Addr) : call K () :=
  _ ← unless isNotExist (writes (fun k => RouteDel k (mkRoute (Some (sid_net sid)) rtprotoISIS n 0 0 [] [] None)));
  pruneSRv6Dummy.

(** ** The sweep *)

Definition swept (keep : Prefix -> bool) (r : Route) : bool :=
  match Dst r with
  | None => false
  | Some d => match ipNetToPrefix d with Some p => negb (keep p) | None => true end
  end.

Fixpoint sweep_routes (keep : Prefix -> bool) (rs : list Route) : call K () :=
  match rs with
  | [] => mret ()
  | r :: rs =>
      _ ← (if swept keep r then unless isNotExist (writes (fun k => RouteDel k r)) else mret ());
      sweep_routes keep rs
  end.

Definition sweep_family (keep : Prefix -> bool) (f : Family) : call K () :=
  rs ← reads (fun k => RouteListFiltered k f (bare_route n 0) [RT_FILTER_PROTOCOL; RT_FILTER_TABLE]);
  sweep_routes keep rs.

Definition netlink_Sweep (keep : Prefix -> bool) : call K () :=
  _ ← sweep_family keep FAMILY_V4; _ ← sweep_family keep FAMILY_V6; pruneSRv6Dummy.

(** The table as the server holds it: the state after a call and whether the call
    returned no error. *)
Definition answer (r : K * (() + Errno)) : K * bool := (r.1, match r.2 with inl _ => true | inr _ => false end).

Definition NetlinkFIB : FIB K := {|
  Update k p nhs := answer (netlink_Update p nhs k);
  Withdraw k p := answer (netlink_Withdraw p k);
  Sweep k keep := answer (netlink_Sweep keep k);
  AddLocalSID k sid := answer (netlink_AddLocalSID sid k);
  RemoveLocalSID k sid := answer (netlink_RemoveLocalSID sid k)
|}.
End Netlink.
