(* ===== verification/Query.v ===== *)
(** What a management client reads.  pkg/server/tlvsummary.go: what `goisis database
    --detail` shows of the TLVs of an LSP, one text per line, a text being its
    octets; then the reads of pkg/server/server.go, rib.go, flexalgo.go and lsdb.go.
    Each read runs as one operation of the loop and changes nothing; the text of a
    database listing is rendered after it, from what the operation copied. *)

From stdpp Require Import sorting strings.
From S2P Require Import Prelude.
From S2P Require Import Netip.
From S2P Require Import Ids.
From S2P Require Import Sid.
From S2P Require Import SubTLV.
From S2P Require Import Entries.
From S2P Require Import Locator.
From S2P Require Import Tlv.
From S2P Require Import Pdu.
From S2P Require Import Circuit.
From S2P Require Import Lsdb.
From S2P Require Import Restart.
From S2P Require Import Server.
From S2P Require Import FlexAlgo.
From S2P Require Import Spf.
From S2P Require Import Rib.
From S2P Require Import EndX.
From S2P Require Import Mutate.
From S2P Require Import Text.
Local Open Scope Z_scope.

(** ** Formatting *)

(** [strconv.Itoa] and [%d] of a number that is not negative; 20 digits hold any
    64-bit one. *)
Fixpoint digits (n : nat) (x : Z) : bytes :=
  match n with
  | O => []
  | S n => (if x <? 10 then [] else digits n (x / 10)) ++ [48 + x mod 10]
  end.
Definition Itoa (x : Z) : bytes := digits 20 x.

(** [strings.Join] *)
Fixpoint Join (parts : list bytes) (sep : bytes) : bytes :=
  match parts with [] => [] | [p] => p | p :: parts => p ++ sep ++ Join parts sep end.

(** [netip.Prefix.String] *)
Definition Prefix_String (p : Prefix) : bytes :=
  if PrefixIsValid p then Addr_String (p_addr p) ++ text "/" ++ Itoa (p_bits p) else text "invalid Prefix".

(** packet.go: [NodeID.String]. *)
Definition NodeID_String (n : NodeID) : bytes := SystemID_String (NodeID_SystemID n) ++ text "." ++ hex_octet (NodeID_PseudonodeID n).

Definition displayString (s : bytes) : bytes := Map (fun r => if IsControl r then text "?" else r) (ToValidUTF8 s).

(** ** Reachability *)

Definition mtTag (mtid : Z) : bytes := text " (MT " ++ Itoa mtid ++ text ")".

Definition isReachSummary (label : bytes) (n : ExtendedISReachEntry) : bytes :=
  label ++ text ": " ++ NodeID_String (IR_NeighborID n) ++ text " metric " ++ Itoa (IR_Metric n) ++
  (if (0 <? length (IR_SubTLVs n))%nat then text " (" ++ Itoa (Z.of_nat (length (IR_SubTLVs n))) ++ text " sub-TLVs)" else []).
Definition isReachSummaries (label : bytes) (ns : list ExtendedISReachEntry) : list bytes := isReachSummary label <$> ns.

Definition prefixSummary (p : Prefix) (metric : Z) (down : bool) : bytes :=
  Prefix_String p ++ text " metric " ++ Itoa metric ++ (if down then text " down" else []).

Definition ip_line (label : bytes) (e : ExtendedIPReachEntry) : bytes := label ++ text ": " ++ prefixSummary (IP_Prefix e) (IP_Metric e) (IP_Down e).
Definition ip6_line (label : bytes) (e : IPv6ReachEntry) : bytes := label ++ text ": " ++ prefixSummary (IP6_Prefix e) (IP6_Metric e) (IP6_Down e).

Definition topology_id (e : MTopologyEntry) : bytes :=
  Itoa (MT_MTID e) ++ (if MT_Overload e then text "/overload" else []) ++ (if MT_Attached e then text "/attached" else []).

Definition locator_line (l : SRv6Locator) : bytes :=
  text "SRv6 Locator: " ++ Prefix_String (Loc_Locator l) ++ text " algo " ++ Itoa (Loc_Algorithm l) ++ text " metric " ++ Itoa (Loc_Metric l) ++
  concat (map (fun sid => text " End " ++ Addr_String (EndSID_SID sid)) (Loc_EndSIDs l)).

(** ** Capabilities *)

Definition nlpid_name (n : Z) : bytes :=
  if n =? NLPIDIPv4 then text "IPv4" else if n =? NLPIDIPv6 then text "IPv6" else text "0x" ++ hex_octet n.
Definition nlpidNames (ns : bytes) : list bytes := map nlpid_name ns.

Definition flexAlgoMetricName (mt : Z) : bytes :=
  if mt =? FlexAlgoMetricIGP then text "igp" else if mt =? FlexAlgoMetricMinDelay then text "delay" else if mt =? FlexAlgoMetricTE then text "te" else Itoa mt.

Definition capability (s : SubTLV) : option bytes :=
  match s with
  | SubSRAlgorithm algos => Some (text "SR-Algorithm " ++ Join (map Itoa algos) (text ","))
  | SubFlexAlgoDef f => Some (text "FAD " ++ Itoa (FAD_FlexAlgo f) ++ text " (metric " ++ flexAlgoMetricName (FAD_MetricType f) ++ text ", prio " ++
      Itoa (FAD_Priority f) ++ text ")")
  | SubSRv6Capabilities _ _ => Some (text "SRv6")
  | _ => None
  end.

Definition routerCapSummary (r : RouterCapability) : bytes :=
  Join ([text "Router Capability:"] ++
        (if IsValid (RouterID r) && negb (IsUnspecified (RouterID r)) then [text "router-id " ++ Addr_String (RouterID r)] else []) ++
        omap capability (RouterCap_SubTLVs r)) (text " ").

(** ** Constraints of a flexible algorithm *)

Definition adminGroupSummary (name v : bytes) : option bytes :=
  option_map (fun ws => name ++ text " " ++ Join (map (fun w => text "0x" ++ concat (map hex_octet (put32 w))) ws) (text ",")) (flexAlgoWords v).

(** One bit of one octet; bit 0 is the most significant. *)
Definition flag_name (i : nat) (b : Z) (bit : nat) : list bytes :=
  let mask := 128 / 2 ^ Z.of_nat bit in
  if Z.land b mask =? 0 then []
  else if (i =? 0)%nat && (mask =? FlexAlgoFlagM) then [text "M"]
  else [text "bit " ++ Itoa (Z.of_nat (i * 8 + bit))].
Definition flexAlgoFlagNames (v : bytes) : bytes :=
  match concat (imap (fun i b => concat (map (flag_name i b) (seq 0 8))) v) with
  | [] => text "none"
  | names => Join names (text ",")
  end.

Definition plain_constraint (ss : FlexAlgoSubSubTLV) : bytes :=
  text "sub-sub-TLV " ++ Itoa (SubSubTLVType ss) ++ text ": " ++ Itoa (Z.of_nat (length (SubSubValue ss))) ++ text " octets".

Definition flexAlgoConstraintSummary (ss : FlexAlgoSubSubTLV) : bytes :=
  let t := SubSubTLVType ss in let v := SubSubValue ss in
  default (plain_constraint ss)
    (if t =? FlexAlgoSubSubExcludeAdminGroup then adminGroupSummary (text "exclude-admin-group") v
     else if t =? FlexAlgoSubSubIncludeAnyAdminGroup then adminGroupSummary (text "include-any-admin-group") v
     else if t =? FlexAlgoSubSubIncludeAllAdminGroup then adminGroupSummary (text "include-all-admin-group") v
     else if t =? FlexAlgoSubSubDefinitionFlags then Some (text "flags " ++ flexAlgoFlagNames v)
     else if t =? FlexAlgoSubSubExcludeSRLG then
       option_map (fun ws => text "exclude-srlg " ++ Join (map Itoa ws) (text ",")) (flexAlgoWords v)
     else None).

Definition flexAlgoConstraintSummaries (ss : list FlexAlgoSubSubTLV) : list bytes := map flexAlgoConstraintSummary ss.

(** ** TLVs *)

Definition authSummary (a : Authentication) : outcome bytes :=
  let t := AuthType a in
  if t =? AuthTypeCleartext then mret (text "Authentication: cleartext")
  else if t =? AuthTypeHMACMD5 then mret (text "Authentication: HMAC-MD5")
  else if t =? AuthTypeGeneric then
    if (length (AuthValue a) <? 2)%nat then mret (text "Authentication: HMAC-SHA")
    else k ← be16 (AuthValue a); mret (text "Authentication: HMAC-SHA (key " ++ Itoa k ++ text ")")
  else mret (text "Authentication: type " ++ Itoa t).

(** The loop of [purgeOriginatorSummary] from the [i]-th system ID. *)
Fixpoint originators (n i : nat) (v : bytes) : outcome (list bytes) :=
  match n with
  | O => mret []
  | S n => b ← slice v (1 + i * 6) (7 + i * 6); id ← array 6 b; ids ← originators n (S i) v; mret (SystemID_String id :: ids)
  end.
Definition purgeOriginatorSummary (v : bytes) : outcome (option bytes) :=
  match v with
  | [] => mret None
  | k :: _ =>
      if (k =? 0) || (length v <? 1 + Z.to_nat k * 6)%nat then mret None
      else ids ← originators (Z.to_nat k) 0 v; mret (Some (text "Purge Originator: " ++ Join ids (text " ")))
  end.

Definition rawTLVSummary (t : TLV) : outcome bytes :=
  match TLV_Serialize t with
  | Ok b => mret (text "TLV " ++ Itoa (TLV_Type t) ++ text ": " ++ Itoa (Z.of_nat (length b) - 2) ++ text " octets")
  | Err _ => mret (text "TLV " ++ Itoa (TLV_Type t))
  | Panic => Panic
  end.

Definition one (m : outcome bytes) : outcome (list bytes) := s ← m; mret [s].

Definition tlvSummary (t : TLV) : outcome (list bytes) :=
  match t with
  | AreaAddressesTLV areas => mret [text "Area Addresses: " ++ Join (AreaAddress_String <$> areas) (text " ")]
  | ProtocolsSupportedTLV ns => mret [text "Protocols Supported: " ++ Join (nlpidNames ns) (text " ")]
  | DynamicHostnameTLV h => mret [text "Dynamic Hostname: " ++ displayString h]
  | ExtendedISReachabilityTLV ns => mret (isReachSummaries (text "IS Reachability") ns)
  | MTISReachabilityTLV m => mret (isReachSummaries (text "IS Reachability" ++ mtTag m.1) m.2)
  | ExtendedIPReachabilityTLV ps => mret (ip_line (text "IPv4 Reachability") <$> ps)
  | MTIPReachabilityTLV m => mret (ip_line (text "IPv4 Reachability" ++ mtTag m.1) <$> m.2)
  | IPv6ReachabilityTLV ps => mret (ip6_line (text "IPv6 Reachability") <$> ps)
  | MTIPv6ReachabilityTLV m => mret (ip6_line (text "IPv6 Reachability" ++ mtTag m.1) <$> m.2)
  | MTopologiesTLV ts =>
      match ts with
      | [] => one (rawTLVSummary t)
      | _ => mret [text "Topologies: " ++ Join (topology_id <$> ts) (text " ")]
      end
  | SRv6LocatorTLV m => mret (locator_line <$> m.2)
  | RouterCapabilityTLV r => mret [routerCapSummary r]
  | AuthenticationTLV a => one (authSummary a)
  | UnknownTLV ty v =>
      if ty =? TLVTypePurgeOriginatorID then
        r ← purgeOriginatorSummary v;
        match r with Some s => mret [s] | None => one (rawTLVSummary t) end
      else one (rawTLVSummary t)
  | _ => one (rawTLVSummary t)
  end.

Fixpoint tlvSummaries (tlvs : list TLV) : outcome (list bytes) :=
  match tlvs with
  | [] => mret []
  | t :: tlvs => ls ← tlvSummary t; rest ← tlvSummaries tlvs; mret (ls ++ rest)
  end.

(** The entries of a level in the order a loop visits them. *)
Abbreviation visits := (Level -> list (LSPID * lspEntry)).

(** ** Host names *)

Definition hostname_of (e : lspEntry) : option bytes :=
  first_found (fun t => match t with DynamicHostnameTLV h => Some h | _ => None end) (LSP_TLVs (e_lsp e)).

Definition index_step (now : Z) (out : gmap SystemID bytes) (ie : LSPID * lspEntry) : gmap SystemID bytes :=
  let '(id, e) := ie in
  if negb (LSPID_FragmentID id =? 0) || negb (bool_decide (e_purgedAt e = None)) || (remaining e now =? 0) then out else
  match hostname_of e with
  | Some h => <[NodeID_SystemID (LSPID_NodeID id) := displayString h]> out
  | None => out
  end.

(** [hostnameIndex], the databases visited in the order [ls]. *)
Definition hostnameIndex (ls : list Level) (order : visits) (now : Z) : gmap SystemID bytes :=
  fold_left (index_step now) (ls ≫= order) ∅.

(** ** Reads *)

(** [Global], the version apart. *)
Record Global : Type := mkGlobal { g_SystemID : SystemID; g_Overload : bool }.

Definition GetGlobal (s : Server) (now : Z) : Global := mkGlobal (systemID s) (overloaded s now).

Definition ListCircuits (s : Server) : list CircuitInfo := circuit_info <$> circuits s.

Definition listLSDB (s : Server) (ls : list Level) (order : visits) (now : Z) : list LSPInfo :=
  let hostnames := hostnameIndex ls order now in
  ls ≫= fun l => match dbs s !! l with Some db => snapshot l db now hostnames | None => [] end.

(** [renderTLVs]: an entry and its text. *)
Fixpoint renderTLVs (infos : list LSPInfo) : outcome (list (LSPInfo * list bytes)) :=
  match infos with
  | [] => mret []
  | i :: infos => ls ← tlvSummaries (i_tlvs i); rest ← renderTLVs infos; mret ((i, ls) :: rest)
  end.
Definition ListLSDBDetail (s : Server) (ls : list Level) (order : visits) (now : Z) : outcome (list (LSPInfo * list bytes)) :=
  renderTLVs (listLSDB s ls order now).

Definition with_hostname (i : AdjacencyInfo) (h : bytes) : AdjacencyInfo :=
  mkAdjacencyInfo (ai_Interface i) (ai_Level i) (ai_SystemID i) (ai_SNPA i) (ai_State i) (ai_Priority i) (ai_Holding i)
    (ai_HoldingRemaining i) (ai_Restarting i) (ai_Suppressed i) h.

(** [adj_order i l]: the adjacencies of circuit [i] at level [l] as they are
    visited. *)
Definition ListAdjacencies (s : Server) (ls : list Level) (order : visits) (adj_order : nat -> Level -> list (SystemID * adjacency)) (now : Z)
    : list AdjacencyInfo :=
  let hostnames := hostnameIndex ls order now in
  concat (imap (fun i c =>
    (fun a => with_hostname a (default [] (hostnames !! ai_SystemID a))) <$> adjacencyInfos c (adj_order i) now) (circuits s)).

Section Node.
Context {F : Type} (n : Node F).

Record LocatorInfo : Type := mkLocatorInfo { LI_Prefix : Prefix; LI_Algorithm : Z; LI_EndSID : Addr; LI_EndXSIDs : list EndXSIDInfo }.

Definition ListLocators : list LocatorInfo :=
  (fun lc => mkLocatorInfo (Masked (LC_Prefix lc)) (LC_Algo lc) (endSID lc) (endXSIDInfos n (Masked (LC_Prefix lc)))) <$> locators (routing n).

(** [ListRoutes], the table in the order of the visit. *)
Definition ListRoutes (rib_order : gmap Prefix RouteInfo -> list (Prefix * RouteInfo)) : list RouteInfo := (rib_order (rib (routing n))).*2.
End Node.

Definition algo_info_le (a b : FlexAlgoInfo) : Prop :=
  if decide (FI_Level a = FI_Level b) then FI_Algo a <= FI_Algo b else level_bit (FI_Level a) <= level_bit (FI_Level b).
#[export] Instance algo_info_le_dec (a b : FlexAlgoInfo) : Decision (algo_info_le a b).
Proof. unfold algo_info_le. destruct (decide _); apply _. Defined.

(** [ListFlexAlgos]; [algo_order] is the order in which the states of a level are
    visited. *)
Definition ListFlexAlgos (s : Server) (order : visits) (algo_order : gmap Z FlexAlgoInfo -> list (Z * FlexAlgoInfo)) (now : Z) : list FlexAlgoInfo :=
  merge_sort algo_info_le (levelSet_levels (levelCap s) ≫= fun l =>
    match dbs s !! l with Some _ => (algo_order (flexAlgoState l (order l) now)).*2 | None => [] end).
