(* ===== verification/Metrics.v ===== *)
(** pkg/metrics/prometheus.go, the sink of the server's metrics, and the labels
    metrics.go gives what the server reports.

    The Prometheus library is a parameter, with what it documents of its vectors as
    laws.  A sample is a whole number: a float counts them exactly up to 2^53.  The
    durations of the shortest-path computations are not modelled, only how many were
    observed. *)

From stdpp Require Import strings.
From S2P Require Import Prelude.
From S2P Require Import Ids.
From S2P Require Import Circuit.
From S2P Require Import Restart.
From S2P Require Import Server.
From S2P Require Import Rib.
From S2P Require Import EndX.
From S2P Require Import Loop.
From S2P Require Import Mutate.
From S2P Require Import Text.
From S2P Require Import Query.
Local Open Scope Z_scope.

(** ** The vectors *)

(** [Prometheus]: its fields. *)
Inductive metric : Set :=
  | adjTransitions | spfDuration | lsdbSize | floodTx | floodDrops | fibPendingGauge | pduRx | pduDrops | adjacencies | adjSuppressed
  | restartRequests | routesGauge | fibErrors | eventQueue | pduTxErrors | pduRxErrors | configReloads | configUnapplied | lifetimeFloors
  | lifetimeCorrupt | subTLVRefused | interLevel.

#[export] Instance metric_eq_dec : EqDecision metric.
Proof. solve_decision. Defined.

(** [NewPrometheus]: the labels of each. *)
Definition labels (m : metric) : list string :=
  match m with
  | adjTransitions => ["circuit"; "level"; "state"]
  | spfDuration | lsdbSize => ["level"]
  | floodTx | pduRxErrors | lifetimeFloors | lifetimeCorrupt | subTLVRefused => ["circuit"]
  | floodDrops | pduDrops | pduTxErrors => ["circuit"; "reason"]
  | pduRx => ["circuit"; "type"]
  | adjacencies | adjSuppressed => ["circuit"; "level"]
  | restartRequests => ["circuit"; "outcome"]
  | routesGauge => ["level"; "algorithm"]
  | fibErrors => ["op"]
  | configReloads => ["outcome"]
  | interLevel => ["direction"]
  | fibPendingGauge | eventQueue | configUnapplied => []
  end%string.

(** The value of a label among the values of a series. *)
Fixpoint label_value (ls : list string) (vs : list bytes) (l : string) : option bytes :=
  match ls, vs with
  | x :: ls, v :: vs => if bool_decide (x = l) then Some v else label_value ls vs l
  | _, _ => None
  end.

(** The library: a series by its label values, and what a registry exposes. *)
Class Vectors (V : Type) := {
  sample : V -> metric -> list bytes -> option Z;
  Inc : metric -> list bytes -> V -> V;
  SetTo : metric -> list bytes -> Z -> V -> V;
  DeletePartialMatch : metric -> string -> bytes -> V -> V
}.

(** WithLabelValues makes a series that is not there, at zero; DeletePartialMatch
    removes those whose labels hold the value. *)
Class VectorLaws (V : Type) `{Vectors V} : Prop := {
  sample_Inc v m vs m' vs' :
    sample (Inc m vs v) m' vs' = if decide (m = m' /\ vs = vs') then Some (default 0 (sample v m' vs') + 1) else sample v m' vs';
  sample_SetTo v m vs n m' vs' : sample (SetTo m vs n v) m' vs' = if decide (m = m' /\ vs = vs') then Some n else sample v m' vs';
  sample_Delete v m l x m' vs' :
    sample (DeletePartialMatch m l x v) m' vs' =
      if decide (m = m' /\ label_value (labels m') vs' l = Some x) then None else sample v m' vs'
}.

(** ** The calls *)

(** [Metrics], without its clock. *)
Inductive mcall : Set :=
  | CallAdjacencyTransition (circuit level state : bytes)
  | CallSPFRun (level : bytes)
  | CallLSDBSize (level : bytes) (n : Z)
  | CallFloodTx (circuit : bytes)
  | CallFloodDrop (circuit reason : bytes)
  | CallFIBPending (n : Z)
  | CallPDURx (circuit pduType : bytes)
  | CallPDUDrop (circuit reason : bytes)
  | CallAdjacencyCount (circuit level : bytes) (n : Z)
  | CallAdjacencySuppressed (circuit level : bytes) (n : Z)
  | CallRestartRequest (circuit outcome : bytes)
  | CallRouteCount (level algo : bytes) (n : Z)
  | CallFIBError (op : bytes)
  | CallEventQueueDepth (n : Z)
  | CallPDUTxError (circuit reason : bytes)
  | CallPDURxError (circuit : bytes)
  | CallConfigReload (outcome : bytes)
  | CallConfigReloadUnapplied (n : Z)
  | CallLSPLifetimeFloored (circuit : bytes)
  | CallLSPLifetimeCorrupt (circuit : bytes)
  | CallSubTLVRefused (circuit : bytes)
  | CallInterLevelPrefixes (direction : bytes) (n : Z)
  | CallForgetCircuit (circuit : bytes).

(** The vectors [ForgetCircuit] visits. *)
Definition of_circuits : list metric :=
  [adjTransitions; floodTx; floodDrops; pduRx; pduDrops; adjacencies; adjSuppressed; restartRequests; pduTxErrors; pduRxErrors;
   lifetimeFloors; lifetimeCorrupt; subTLVRefused].

Section Sink.
Context {V : Type} `{Vectors V}.

Definition prometheus_ForgetCircuit (circuit : bytes) (v : V) : V :=
  fold_left (fun v m => DeletePartialMatch m "circuit" circuit v) of_circuits v.

(** The methods of [Prometheus]. *)
Definition prometheus (c : mcall) (v : V) : V :=
  match c with
  | CallAdjacencyTransition circuit level state => Inc adjTransitions [circuit; level; state] v
  | CallSPFRun level => Inc spfDuration [level] v
  | CallLSDBSize level n => SetTo lsdbSize [level] n v
  | CallFloodTx circuit => Inc floodTx [circuit] v
  | CallFloodDrop circuit reason => Inc floodDrops [circuit; reason] v
  | CallFIBPending n => SetTo fibPendingGauge [] n v
  | CallPDURx circuit pduType => Inc pduRx [circuit; pduType] v
  | CallPDUDrop circuit reason => Inc pduDrops [circuit; reason] v
  | CallAdjacencyCount circuit level n => SetTo adjacencies [circuit; level] n v
  | CallAdjacencySuppressed circuit level n => SetTo adjSuppressed [circuit; level] n v
  | CallRestartRequest circuit outcome => Inc restartRequests [circuit; outcome] v
  | CallRouteCount level algo n => SetTo routesGauge [level; algo] n v
  | CallFIBError op => Inc fibErrors [op] v
  | CallEventQueueDepth n => SetTo eventQueue [] n v
  | CallPDUTxError circuit reason => Inc pduTxErrors [circuit; reason] v
  | CallPDURxError circuit => Inc pduRxErrors [circuit] v
  | CallConfigReload outcome => Inc configReloads [outcome] v
  | CallConfigReloadUnapplied n => SetTo configUnapplied [] n v
  | CallLSPLifetimeFloored circuit => Inc lifetimeFloors [circuit] v
  | CallLSPLifetimeCorrupt circuit => Inc lifetimeCorrupt [circuit] v
  | CallSubTLVRefused circuit => Inc subTLVRefused [circuit] v
  | CallInterLevelPrefixes direction n => SetTo interLevel [direction] n v
  | CallForgetCircuit circuit => prometheus_ForgetCircuit circuit v
  end.

Definition report_all (cs : list mcall) (v : V) : V := fold_left (fun v c => prometheus c v) cs v.
End Sink.

(** ** What the server reports *)

Definition levelLabel (l : Level) : bytes := match l with Level1 => text "L1" | Level2 => text "L2" end.

Definition pduLabel (t : Z) : bytes :=
  if t =? PDUTypeL1LANHello then text "lan_hello_l1" else if t =? PDUTypeL2LANHello then text "lan_hello_l2"
  else if t =? PDUTypeP2PHello then text "p2p_hello" else if (t =? PDUTypeL1LSP) || (t =? PDUTypeL2LSP) then text "lsp"
  else if (t =? PDUTypeL1CSNP) || (t =? PDUTypeL2CSNP) then text "csnp"
  else if (t =? PDUTypeL1PSNP) || (t =? PDUTypeL2PSNP) then text "psnp" else text "?".

Definition drop_label (r : dropReason) : bytes :=
  match r with
  | dropDecode => text "decode" | dropAuth => text "auth" | dropNoAdjacency => text "no_adjacency" | dropChecksum => text "checksum"
  | dropLSDBLimit => text "lsdb_limit" | dropUnknownPurge => text "unknown_purge" | dropOwnSysIDPurge => text "own_sysid_purge"
  | dropOwnFragmentPurge => text "own_fragment_purge" | dropOwnLSPReclaimed => text "own_lsp_reclaimed"
  | dropOwnSeqWrap => text "own_seq_wrap" | dropAdjacencyLimit => text "adjacency_limit" | dropLinkDown => text "link_down"
  | dropHelloInvalid => text "hello_invalid" | dropHelloMismatch => text "hello_mismatch"
  | dropDuplicateSystemID => text "duplicate_system_id"
  end.
Definition tx_label (r : txErr) : bytes := match r with txErrSerialize => text "serialize" | txErrAuth => text "auth" | txErrSend => text "send" end.
Definition fib_label (op : fibOp) : bytes :=
  match op with
  | fibOpUpdate => text "update" | fibOpWithdraw => text "withdraw" | fibOpAddSID => text "add_sid" | fibOpRemoveSID => text "remove_sid"
  end.
Definition restartOutcome (held : bool) : bytes := if held then text "held" else text "unheld".
(** [AdjState.String] (adjacency.go). *)
Definition AdjState_String (s : AdjState) : bytes := match s with AdjDown => text "Down" | AdjInit => text "Init" | AdjUp => text "Up" end.

(** The call an effect of the loop stands for. *)
Definition call_of (e : effect) : option mcall :=
  match e with
  | PDUDrop c r => Some (CallPDUDrop (text c) (drop_label r))
  | LSPLifetimeFloored c => Some (CallLSPLifetimeFloored (text c))
  | LSPLifetimeCorrupt c => Some (CallLSPLifetimeCorrupt (text c))
  | SubTLVRefused c => Some (CallSubTLVRefused (text c))
  | RestartRequested c held => Some (CallRestartRequest (text c) (restartOutcome held))
  | AdjacencyTransition c l st => Some (CallAdjacencyTransition (text c) (levelLabel l) (AdjState_String st))
  | PDURx c t => Some (CallPDURx (text c) (pduLabel t))
  | FloodTx c => Some (CallFloodTx (text c))
  | FloodDrop c => Some (CallFloodDrop (text c) (text "oversize"))
  | PDUTxError c r => Some (CallPDUTxError (text c) (tx_label r))
  | PDURxError c => Some (CallPDURxError (text c))
  | LSDBSize l n => Some (CallLSDBSize (levelLabel l) (Z.of_nat n))
  | AdjacencyCount c l n => Some (CallAdjacencyCount (text c) (levelLabel l) (Z.of_nat n))
  | AdjacencySuppressed c l n => Some (CallAdjacencySuppressed (text c) (levelLabel l) (Z.of_nat n))
  | EventQueueDepth n => Some (CallEventQueueDepth (Z.of_nat n))
  | ForgetCircuit c => Some (CallForgetCircuit (text c))
  | AdjacencyEvent _ | Sent _ _ _ | Warned _ => None
  end.
Definition rib_call_of (e : rib_effect) : option mcall :=
  match e with
  | FIBError op => Some (CallFIBError (fib_label op))
  | RouteCount l algo n => Some (CallRouteCount (levelLabel l) (Itoa algo) (Z.of_nat n))
  | InterLevelPrefixes down n => Some (CallInterLevelPrefixes (if down then text "l2_to_l1" else text "l1_to_l2") (Z.of_nat n))
  | FIBPending n => Some (CallFIBPending (Z.of_nat n))
  | RouteEvent _ _ | RibWarned _ => None
  end.

Definition calls_of (es : list effect) : list mcall := omap call_of es.

(** ** What is exposed *)

(** What a call is about: a series, and one more of it or a new value. *)
Inductive update : Set := Bump | Put (n : Z).

Definition target (c : mcall) : option (metric * list bytes * update) :=
  match c with
  | CallAdjacencyTransition circuit level state => Some (adjTransitions, [circuit; level; state], Bump)
  | CallSPFRun level => Some (spfDuration, [level], Bump)
  | CallLSDBSize level n => Some (lsdbSize, [level], Put n)
  | CallFloodTx circuit => Some (floodTx, [circuit], Bump)
  | CallFloodDrop circuit reason => Some (floodDrops, [circuit; reason], Bump)
  | CallFIBPending n => Some (fibPendingGauge, [], Put n)
  | CallPDURx circuit pduType => Some (pduRx, [circuit; pduType], Bump)
  | CallPDUDrop circuit reason => Some (pduDrops, [circuit; reason], Bump)
  | CallAdjacencyCount circuit level n => Some (adjacencies, [circuit; level], Put n)
  | CallAdjacencySuppressed circuit level n => Some (adjSuppressed, [circuit; level], Put n)
  | CallRestartRequest circuit outcome => Some (restartRequests, [circuit; outcome], Bump)
  | CallRouteCount level algo n => Some (routesGauge, [level; algo], Put n)
  | CallFIBError op => Some (fibErrors, [op], Bump)
  | CallEventQueueDepth n => Some (eventQueue, [], Put n)
  | CallPDUTxError circuit reason => Some (pduTxErrors, [circuit; reason], Bump)
  | CallPDURxError circuit => Some (pduRxErrors, [circuit], Bump)
  | CallConfigReload outcome => Some (configReloads, [outcome], Bump)
  | CallConfigReloadUnapplied n => Some (configUnapplied, [], Put n)
  | CallLSPLifetimeFloored circuit => Some (lifetimeFloors, [circuit], Bump)
  | CallLSPLifetimeCorrupt circuit => Some (lifetimeCorrupt, [circuit], Bump)
  | CallSubTLVRefused circuit => Some (subTLVRefused, [circuit], Bump)
  | CallInterLevelPrefixes direction n => Some (interLevel, [direction], Put n)
  | CallForgetCircuit _ => None
  end.

(** The circuit of a series, and of a call. *)
Definition circuit_label (m : metric) (vs : list bytes) : option bytes := label_value (labels m) vs "circuit".
Definition names_circuit (c : mcall) : option bytes := '(m, vs, _) ← target c; circuit_label m vs.

(** One series, followed by itself. *)
Definition cell_step (m : metric) (vs : list bytes) (acc : option Z) (c : mcall) : option Z :=
  match c with
  | CallForgetCircuit x => if decide (circuit_label m vs = Some x) then None else acc
  | _ =>
      match target c with
      | Some (m', vs', u) =>
          if decide (m' = m /\ vs' = vs) then Some (match u with Bump => default 0 acc + 1 | Put n => n end) else acc
      | None => acc
      end
  end.

Section Exposed.
Context {V : Type} `{Vectors V} `{!VectorLaws V}.

Lemma of_circuits_all m vs x : circuit_label m vs = Some x -> m ∈ of_circuits.
Proof using. unfold circuit_label. destruct m, vs as [|? [|? ?]]; try done; intros _; unfold of_circuits; rewrite ?elem_of_cons; tauto. Qed.

Lemma sample_deletes ms x v m vs :
  sample (fold_left (fun v m => DeletePartialMatch m "circuit" x v) ms v) m vs =
  if decide (m ∈ ms /\ circuit_label m vs = Some x) then None else sample v m vs.
Proof using VectorLaws0.
  revert v. induction ms as [|m' ms IH]; intros v; cbn [fold_left].
  - rewrite decide_False; [done|]. by intros [?%not_elem_of_nil _].
  - rewrite IH, sample_Delete. fold (circuit_label m vs). destruct (decide (m ∈ ms /\ _)) as [[Hm Hx]|Hn].
    + rewrite decide_True; [done|]. by split; [right|].
    + destruct (decide (m' = m /\ _)) as [[-> Hx]|Hn']; [rewrite decide_True; [done|by split; [left|]]|].
      rewrite decide_False; [done|]. intros [[->|Hm]%elem_of_cons Hx]; [by apply Hn'|by apply Hn].
Qed.

Lemma sample_call c v m vs : sample (prometheus c v) m vs = cell_step m vs (sample v m vs) c.
Proof using VectorLaws0.
  destruct c; cbn [prometheus cell_step target]; try apply sample_Inc; try apply sample_SetTo.
  unfold prometheus_ForgetCircuit. rewrite sample_deletes. destruct (decide (circuit_label m vs = Some circuit)) as [E|E].
  - rewrite decide_True; [done|]. split; [by eapply of_circuits_all|done].
  - rewrite decide_False; [done|]. by intros [_ ?].
Qed.

Lemma sample_calls cs v m vs : sample (report_all cs v) m vs = fold_left (cell_step m vs) cs (sample v m vs).
Proof using VectorLaws0. revert v. induction cs as [|c cs IH]; intros v; [done|]. cbn [report_all fold_left]. rewrite <- sample_call. apply IH. Qed.
End Exposed.

(** A series that no call names stays away. *)
Lemma cell_quiet m vs x cs : circuit_label m vs = Some x -> Forall (fun c => names_circuit c <> Some x) cs -> fold_left (cell_step m vs) cs None = None.
Proof.
  intros Hx Hc. induction Hc as [|c cs Hn _ IH]; [done|]. cbn [fold_left].
  assert (E : cell_step m vs None c = None); [|by rewrite E].
  unfold cell_step, names_circuit in *. destruct (target c) as [[[m' vs'] u]|] eqn:Et; [|by destruct c; try case_decide].
  cbn [mbind option_bind] in Hn. destruct (decide (m' = m /\ vs' = vs)) as [[-> ->]|]; [done|]. by destruct c; try case_decide.
Qed.

Lemma deleteCircuit_forgets {F} `{FIB F} hmac o (n n' : Node F) name now :
  deleteCircuit hmac o n name now = Ok (n', None) -> exists es, trace (core n') = es ++ [ForgetCircuit name].
Proof.
  unfold deleteCircuit. destruct (circuitNamed (core n) name) as [[i c]|]; [|done]. cbv zeta.
  intros (n1 & _ & (n2 & _ & (n3 & _ & (n4 & _ & [= <-])%bind_Ok)%bind_Ok)%bind_Ok)%bind_Ok. by eexists.
Qed.

(** C29: Each series the registry exposes is what was reported of it and nothing
    else: a counter counts the calls that name it and a gauge is the last value set,
    both since its circuit was last forgotten.  When DeleteCircuit has answered, no
    series of any vector is left for the circuit, whatever was exposed before, and
    none appears until a report names the circuit again. *)
Theorem metrics_follow {V : Type} `{Vectors V} `{!VectorLaws V} :
  (forall cs v m vs, sample (report_all cs v) m vs = fold_left (cell_step m vs) cs (sample v m vs)) /\
  (forall (F : Type) (HF : FIB F) hmac o (n n' : Node F) name now cs v m vs,
     deleteCircuit hmac o n name now = Ok (n', None) -> circuit_label m vs = Some (text name) ->
     Forall (fun c => names_circuit c <> Some (text name)) cs ->
     sample (report_all (calls_of (trace (core n')) ++ cs) v) m vs = None).
Proof.
  split; [intros; apply sample_calls|]. intros F HF hmac o n n' name now cs v m vs (es & Et)%deleteCircuit_forgets Hx Hc.
  rewrite sample_calls, fold_left_app, Et. unfold calls_of. rewrite omap_app, fold_left_app. cbn [omap list_omap call_of fold_left cell_step].
  rewrite decide_True by done. by eapply cell_quiet.
Qed.
