(* ===== verification/Watch.v ===== *)
(** pkg/server/watch.go: subscriptions to the protocol's changes, and the loop with
    its subscribers.

    A subscription is known by a number, drawn when it is made: the pointer of the
    source.  The channel of a subscriber is the queue of what it has not received;
    the subscriber itself runs apart from the loop and takes events when it likes. *)

From stdpp Require Import sorting strings.
From S2P Require Import Prelude.
From S2P Require Import Netip.
From S2P Require Import Ids.
From S2P Require Import Auth.
From S2P Require Import Lsdb.
From S2P Require Import Circuit.
From S2P Require Import Restart.
From S2P Require Import Server.
From S2P Require Import Tent.
From S2P Require Import Rib.
From S2P Require Import EndX.
From S2P Require Import NodeLsp.
From S2P Require Import Loop.
From S2P Require Import Mutate.
From S2P Require Import Serve.
From S2P Require Import Query.
Local Open Scope Z_scope.

Definition watcherBuffer : nat := 64.

(** [Event]: one of the two is set. *)
Inductive Event : Type :=
  | AdjacencyChange (info : AdjacencyInfo)
  | RouteChange (r : RouteInfo) (withdrawn : bool).

(** [watcher] and [Subscription]. *)
Record Subscription : Type := mkSubscription { Initial : list Event; ch : list Event; closed : bool; lagged : bool }.

(** The subscriptions ever made, and [s.watchers]. *)
Record Hub : Type := mkHub { subs : gmap nat Subscription; watchers : gset nat; drawn : nat }.
Definition no_subscribers : Hub := mkHub ∅ ∅ 0.

Definition watched_by (h : Hub) : bool := negb (size (watchers h) =? 0)%nat.

(** [dropWatcher], with what it is dropped for. *)
Definition dropWatcher (h : Hub) (k : nat) (lag : bool) : Hub :=
  match subs h !! k with
  | Some w =>
      if closed w then h
      else mkHub (<[k := mkSubscription (Initial w) (ch w) true (lagged w || lag)]> (subs h)) (watchers h ∖ {[ k ]}) (drawn h)
  | None => h
  end.

(** [emit] for one watcher: its channel takes the event, or it is dropped. *)
Definition emit_to (ev : Event) (h : Hub) (k : nat) : Hub :=
  match subs h !! k with
  | Some w =>
      if (length (ch w) <? watcherBuffer)%nat
      then mkHub (<[k := mkSubscription (Initial w) (ch w ++ [ev]) (closed w) (lagged w)]> (subs h)) (watchers h) (drawn h)
      else dropWatcher h k true
  | None => h
  end.

(** [emit], the watchers in the order the map gives them. *)
Definition emit_event (order : gset nat -> list nat) (h : Hub) (ev : Event) : Hub := fold_left (emit_to ev) (order (watchers h)) h.

(** [closeWatchers]. *)
Definition closeWatchers (order : gset nat -> list nat) (h : Hub) : Hub :=
  fold_left (fun h k => dropWatcher h k false) (order (watchers h)) h.

(** ** Snapshots *)

Definition info_sorted (a b : AdjacencyInfo) : Prop :=
  match String.compare (ai_Interface a) (ai_Interface b) with
  | Lt => True
  | Gt => False
  | Eq => match level_bit (ai_Level a) ?= level_bit (ai_Level b) with
          | Lt => True
          | Gt => False
          | Eq => bytes_compare (ai_SystemID a) (ai_SystemID b) <> Gt
          end
  end.
#[export] Instance info_sorted_dec (a b : AdjacencyInfo) : Decision (info_sorted a b).
Proof. unfold info_sorted. repeat case_match; apply _. Defined.

Definition route_sorted (a b : RouteInfo) : Prop := prefix_le (RI_Prefix a) (RI_Prefix b).
#[export] Instance route_sorted_dec (a b : RouteInfo) : Decision (route_sorted a b).
Proof. unfold route_sorted. apply _. Defined.

Definition initialEvents (adjs : list AdjacencyInfo) (routes : list RouteInfo) : list Event :=
  map AdjacencyChange (merge_sort info_sorted adjs) ++ map (fun r => RouteChange r false) (merge_sort route_sorted routes).

Section Watch.
Context {F : Type} `{FIB F} {T : Type} `{TentativeSet T}.
Context (hmac : AuthAlgorithm -> bytes -> bytes -> bytes).
Context (watcher_order : gset nat -> list nat).

(** The orders in which a snapshot visits the maps it copies. *)
Record glance : Type := mkGlance {
  db_levels : list Level;
  db_visits : visits;
  adj_visits : nat -> Level -> list (SystemID * adjacency);
  rib_visits : gmap Prefix RouteInfo -> list (Prefix * RouteInfo)
}.

Definition snapshotState (n : Node F) (g : glance) (now : Z) : list AdjacencyInfo * list RouteInfo :=
  (ListAdjacencies (core n) (db_levels g) (db_visits g) (adj_visits g) now, ListRoutes n (rib_visits g)).

(** ** The loop with its subscribers *)

(** What the effects of a turn report: the routes are computed after everything
    else of the turn. *)
Definition adjacency_events (es : list effect) : list Event :=
  omap (fun e => match e with AdjacencyEvent i => Some (AdjacencyChange i) | _ => None end) es.
Definition route_events (es : list rib_effect) : list Event :=
  omap (fun e => match e with RouteEvent r w => Some (RouteChange r w) | _ => None end) es.
Definition since {A} (l l' : list A) : list A := drop (length l) l'.
Definition reported (n n' : Node F) : list Event :=
  since (adjacency_events (trace (core n))) (adjacency_events (trace (core n'))) ++
  since (route_events (rib_trace (routing n))) (route_events (rib_trace (routing n'))).

(** The loop, its subscriptions, what each subscriber has received, and whether the
    server has stopped. *)
Record System : Type := mkSystem { loop : Loop (F := F); hub : Hub; received : gmap nat (list Event); stopped : bool }.

Definition with_watch (x : Loop (F := F)) (h : Hub) : Loop :=
  mkLoop (set_core (node x) (set_watched (core (node x)) (watched_by h))) (holding x).

(** What the loop takes up: its own arms, the management operations that are about
    subscriptions, and the end of its context. *)
Inductive loop_event : Type :=
  | Turning (o : Oracle) (a : arm) (t : moment)
  | Subscribing (o : Oracle) (t : moment) (g : glance)
  | Unsubscribing (o : Oracle) (t : moment) (k : nat)
  | Stopping (o : Oracle) (t : moment).

(** The steps of the loop and its subscribers; [takes i] are the receives before the
    [i]-th event the loop reports. *)
Inductive act : Type :=
  | Looping (c : loop_event) (takes : nat -> list nat)
  | Receiving (k : nat).

Definition Subscribe (n : Node F) (h : Hub) (g : glance) (now : Z) : Hub :=
  let '(adjs, routes) := snapshotState n g now in
  mkHub (<[drawn h := mkSubscription (initialEvents adjs routes) [] false false]> (subs h)) ({[ drawn h ]} ∪ watchers h) (S (drawn h)).

(** A subscriber takes the next event; with none in its channel it waits, or finds
    it closed. *)
Definition receive (y : System) (k : nat) : System :=
  match subs (hub y) !! k with
  | Some w =>
      match ch w with
      | ev :: rest =>
          mkSystem (loop y) (mkHub (<[k := mkSubscription (Initial w) rest (closed w) (lagged w)]> (subs (hub y))) (watchers (hub y)) (drawn (hub y)))
            (<[k := default [] (received y !! k) ++ [ev]]> (received y)) (stopped y)
      | [] => y
      end
  | None => y
  end.

(** What an arm reports, with the receives in between. *)
Definition report (takes : nat -> list nat) (y : System) (kev : nat * Event) : System :=
  let y := fold_left receive (takes kev.1) y in
  mkSystem (loop y) (emit_event watcher_order (hub y) kev.2) (received y) (stopped y).

Definition deliver (takes : nat -> list nat) (y : System) (x' : Loop (F := F)) : System :=
  fold_left (report takes) (imap pair (reported (node (loop y)) (node x'))) (mkSystem x' (hub y) (received y) (stopped y)).

(** The loop with the subscriptions it reports to, and the loop after what it takes
    up. *)
Definition take_up (y : System) (c : loop_event) : outcome (System * Loop (F := F)) :=
  let at_hub h := mkSystem (with_watch (loop y) h) h (received y) (stopped y) in
  match c with
  | Turning o a t =>
      let y := at_hub (hub y) in
      x ← turn (T := T) hmac o (loop y) a t; mret (y, x)
  | Subscribing o t g =>
      let y := at_hub (Subscribe (node (loop y)) (hub y) g (at_event t)) in
      x ← settle (T := T) hmac o (loop y) t; mret (y, x)
  | Unsubscribing o t k =>
      let y := at_hub (dropWatcher (hub y) k false) in
      x ← settle (T := T) hmac o (loop y) t; mret (y, x)
  | Stopping o t =>
      let y := at_hub (hub y) in
      n ← shutdown hmac o (node (loop y)) (at_event t); mret (y, mkLoop n (holding (loop y)))
  end.

(** What [shutdown] leaves of the subscriptions; nothing else of [c] touches them. *)
Definition stop_after (c : loop_event) (y : System) : System :=
  match c with
  | Stopping _ _ => mkSystem (loop y) (closeWatchers watcher_order (hub y)) (received y) true
  | _ => y
  end.

(** A server that has stopped takes nothing up: [mgmtOperation] answers
    ErrServerStopped.  Its subscribers still take what their channels hold. *)
Definition proceed (y : System) (c : act) : outcome System :=
  match c with
  | Looping c takes =>
      if stopped y then mret y
      else '(y, x) ← take_up y c; mret (stop_after c (deliver takes y x))
  | Receiving k => mret (receive y k)
  end.

Fixpoint proceed_all (y : System) (acts : list act) : outcome System :=
  match acts with [] => mret y | c :: acts => y ← proceed y c; proceed_all y acts end.
End Watch.
