(* ===== verification/Options.v ===== *)
(** pkg/server/config.go, the server options: each is a change of the option set,
    and a constructor call folds them over an empty one.

    The logger, the metrics sink and the clock are not options of the model: what
    they are given is in its traces and in the times of its turns. *)

From stdpp Require Import sorting strings.
From S2P Require Import Prelude.
From S2P Require Import Netip.
From S2P Require Import Ids.
From S2P Require Import Auth.
From S2P Require Import Circuit.
From S2P Require Import Server.
From S2P Require Import Rib.
From S2P Require Import EndX.
From S2P Require Import Mutate.
From S2P Require Import Serve.
Local Open Scope Z_scope.

Section Options.
Context {F : Type}.

Definition ServerOption : Type := options F -> options F.

Definition WithSystemID (id : SystemID) : ServerOption := fun o =>
    mkOptions id (o_areaAddrs o) (o_hostname o) (o_circuits o) (o_prefixes o) (o_connected o) (o_locators o)
      (o_flexAlgos o) (o_fib o) (o_overloadOnStartup o) (o_areaAuth o) (o_domainAuth o) (o_advertiseFilter o)
      (o_l2LeakFilter o) (o_fibFilter o) (o_lsdbEntryLimit o) (o_lspMTU o).
Definition WithAreaAddresses (areas : list bytes) : ServerOption := fun o =>
    mkOptions (o_systemID o) areas (o_hostname o) (o_circuits o) (o_prefixes o) (o_connected o) (o_locators o)
      (o_flexAlgos o) (o_fib o) (o_overloadOnStartup o) (o_areaAuth o) (o_domainAuth o) (o_advertiseFilter o)
      (o_l2LeakFilter o) (o_fibFilter o) (o_lsdbEntryLimit o) (o_lspMTU o).
Definition WithHostname (name : bytes) : ServerOption := fun o =>
    mkOptions (o_systemID o) (o_areaAddrs o) name (o_circuits o) (o_prefixes o) (o_connected o) (o_locators o)
      (o_flexAlgos o) (o_fib o) (o_overloadOnStartup o) (o_areaAuth o) (o_domainAuth o) (o_advertiseFilter o)
      (o_l2LeakFilter o) (o_fibFilter o) (o_lsdbEntryLimit o) (o_lspMTU o).
Definition WithCircuit (k : CircuitConfig) (conn : list Prefix) : ServerOption := fun o =>
    mkOptions (o_systemID o) (o_areaAddrs o) (o_hostname o) (o_circuits o ++ [(k, conn)]) (o_prefixes o)
      (o_connected o) (o_locators o) (o_flexAlgos o) (o_fib o) (o_overloadOnStartup o) (o_areaAuth o) (o_domainAuth o)
      (o_advertiseFilter o) (o_l2LeakFilter o) (o_fibFilter o) (o_lsdbEntryLimit o) (o_lspMTU o).
Definition WithAdvertisedPrefix (p : Prefix) (metric : Z) : ServerOption := fun o =>
    mkOptions (o_systemID o) (o_areaAddrs o) (o_hostname o) (o_circuits o) (o_prefixes o ++ [mkAdvertised p metric])
      (o_connected o) (o_locators o) (o_flexAlgos o) (o_fib o) (o_overloadOnStartup o) (o_areaAuth o) (o_domainAuth o)
      (o_advertiseFilter o) (o_l2LeakFilter o) (o_fibFilter o) (o_lsdbEntryLimit o) (o_lspMTU o).
Definition WithFIB (f : F) : ServerOption := fun o =>
    mkOptions (o_systemID o) (o_areaAddrs o) (o_hostname o) (o_circuits o) (o_prefixes o) (o_connected o)
      (o_locators o) (o_flexAlgos o) f (o_overloadOnStartup o) (o_areaAuth o) (o_domainAuth o) (o_advertiseFilter o)
      (o_l2LeakFilter o) (o_fibFilter o) (o_lsdbEntryLimit o) (o_lspMTU o).
Definition WithAdvertiseFilter (f : AdvertisedPrefix -> bool) : ServerOption := fun o =>
    mkOptions (o_systemID o) (o_areaAddrs o) (o_hostname o) (o_circuits o) (o_prefixes o) (o_connected o)
      (o_locators o) (o_flexAlgos o) (o_fib o) (o_overloadOnStartup o) (o_areaAuth o) (o_domainAuth o) (Some f)
      (o_l2LeakFilter o) (o_fibFilter o) (o_lsdbEntryLimit o) (o_lspMTU o).
Definition WithL2LeakFilter (f : AdvertisedPrefix -> bool) : ServerOption := fun o =>
    mkOptions (o_systemID o) (o_areaAddrs o) (o_hostname o) (o_circuits o) (o_prefixes o) (o_connected o)
      (o_locators o) (o_flexAlgos o) (o_fib o) (o_overloadOnStartup o) (o_areaAuth o) (o_domainAuth o)
      (o_advertiseFilter o) (Some f) (o_fibFilter o) (o_lsdbEntryLimit o) (o_lspMTU o).
Definition WithFIBFilter (f : RouteInfo -> bool) : ServerOption := fun o =>
    mkOptions (o_systemID o) (o_areaAddrs o) (o_hostname o) (o_circuits o) (o_prefixes o) (o_connected o)
      (o_locators o) (o_flexAlgos o) (o_fib o) (o_overloadOnStartup o) (o_areaAuth o) (o_domainAuth o)
      (o_advertiseFilter o) (o_l2LeakFilter o) (Some f) (o_lsdbEntryLimit o) (o_lspMTU o).
Definition WithConnectedPrefix (p : Prefix) : ServerOption := fun o =>
    mkOptions (o_systemID o) (o_areaAddrs o) (o_hostname o) (o_circuits o) (o_prefixes o)
      (o_connected o ++ [Masked p]) (o_locators o) (o_flexAlgos o) (o_fib o) (o_overloadOnStartup o) (o_areaAuth o)
      (o_domainAuth o) (o_advertiseFilter o) (o_l2LeakFilter o) (o_fibFilter o) (o_lsdbEntryLimit o) (o_lspMTU o).
Definition WithSRv6LocatorForAlgo (p : Prefix) (a : Z) : ServerOption := fun o =>
    mkOptions (o_systemID o) (o_areaAddrs o) (o_hostname o) (o_circuits o) (o_prefixes o) (o_connected o)
      (o_locators o ++ [mkLocatorConfig p a]) (o_flexAlgos o) (o_fib o) (o_overloadOnStartup o) (o_areaAuth o)
      (o_domainAuth o) (o_advertiseFilter o) (o_l2LeakFilter o) (o_fibFilter o) (o_lsdbEntryLimit o) (o_lspMTU o).
Definition WithSRv6Locator (p : Prefix) : ServerOption := WithSRv6LocatorForAlgo p 0.
Definition WithFlexAlgo (fa : FlexAlgoConfig) : ServerOption := fun o =>
    mkOptions (o_systemID o) (o_areaAddrs o) (o_hostname o) (o_circuits o) (o_prefixes o) (o_connected o)
      (o_locators o) (o_flexAlgos o ++ [fa]) (o_fib o) (o_overloadOnStartup o) (o_areaAuth o) (o_domainAuth o)
      (o_advertiseFilter o) (o_l2LeakFilter o) (o_fibFilter o) (o_lsdbEntryLimit o) (o_lspMTU o).
Definition WithAreaAuth (a : AuthConfig) : ServerOption := fun o =>
    mkOptions (o_systemID o) (o_areaAddrs o) (o_hostname o) (o_circuits o) (o_prefixes o) (o_connected o)
      (o_locators o) (o_flexAlgos o) (o_fib o) (o_overloadOnStartup o) a (o_domainAuth o) (o_advertiseFilter o)
      (o_l2LeakFilter o) (o_fibFilter o) (o_lsdbEntryLimit o) (o_lspMTU o).
Definition WithDomainAuth (a : AuthConfig) : ServerOption := fun o =>
    mkOptions (o_systemID o) (o_areaAddrs o) (o_hostname o) (o_circuits o) (o_prefixes o) (o_connected o)
      (o_locators o) (o_flexAlgos o) (o_fib o) (o_overloadOnStartup o) (o_areaAuth o) a (o_advertiseFilter o)
      (o_l2LeakFilter o) (o_fibFilter o) (o_lsdbEntryLimit o) (o_lspMTU o).
Definition WithAreaPassword (pw : bytes) : ServerOption := WithAreaAuth (mkAuthConfig AuthMD5 0 pw []).
Definition WithDomainPassword (pw : bytes) : ServerOption := WithDomainAuth (mkAuthConfig AuthMD5 0 pw []).
Definition WithLSDBEntryLimit (n : Z) : ServerOption := fun o =>
    mkOptions (o_systemID o) (o_areaAddrs o) (o_hostname o) (o_circuits o) (o_prefixes o) (o_connected o)
      (o_locators o) (o_flexAlgos o) (o_fib o) (o_overloadOnStartup o) (o_areaAuth o) (o_domainAuth o)
      (o_advertiseFilter o) (o_l2LeakFilter o) (o_fibFilter o) n (o_lspMTU o).
Definition WithLSPMTU (n : Z) : ServerOption := fun o =>
    mkOptions (o_systemID o) (o_areaAddrs o) (o_hostname o) (o_circuits o) (o_prefixes o) (o_connected o)
      (o_locators o) (o_flexAlgos o) (o_fib o) (o_overloadOnStartup o) (o_areaAuth o) (o_domainAuth o)
      (o_advertiseFilter o) (o_l2LeakFilter o) (o_fibFilter o) (o_lsdbEntryLimit o) n.
Definition WithOverloadOnStartup (d : Z) : ServerOption := fun o =>
    mkOptions (o_systemID o) (o_areaAddrs o) (o_hostname o) (o_circuits o) (o_prefixes o) (o_connected o)
      (o_locators o) (o_flexAlgos o) (o_fib o) d (o_areaAuth o) (o_domainAuth o) (o_advertiseFilter o)
      (o_l2LeakFilter o) (o_fibFilter o) (o_lsdbEntryLimit o) (o_lspMTU o).

(** [var o options]; [noop] stands for the nil forwarding table, which
    [NewIsisServer] replaces by one that discards every update. *)
Definition no_options (noop : F) : options F :=
  mkOptions (replicate 6 0) [] [] [] [] [] [] [] noop 0 (mkAuthConfig AuthMD5 0 [] []) (mkAuthConfig AuthMD5 0 [] [])
    None None None 0 0.

Definition apply_options (noop : F) (opts : list ServerOption) : options F :=
  fold_left (fun o opt => opt o) opts (no_options noop).

Definition ValidateOptions (noop : F) (opts : list ServerOption) : outcome bool :=
  options_validate (apply_options noop opts).
End Options.
