(* ===== verification/Config.v ===== *)
(** pkg/config/config.go: what a configuration file says and the server options
    it stands for.

    The YAML decoder is not modelled: a [Config] is the document it decoded.  What
    the host answers is a parameter: the duration parser, the opener of a
    circuit's transport with the addresses of its interface, and the interface's
    connected subnets; so is the netlink forwarding table of a routing table.  An
    error is [None]: its text is not modelled. *)

From stdpp Require Import sorting strings.
From S2P Require Import Prelude.
From S2P Require Import Netip.
From S2P Require Import Ids.
From S2P Require Import Auth.
From S2P Require Import Circuit.
From S2P Require Import Policy.
From S2P Require Import FlexAlgo.
From S2P Require Import Rib.
From S2P Require Import EndX.
From S2P Require Import Mutate.
From S2P Require Import Serve.
From S2P Require Import Options.
From S2P Require Import Text.
Local Open Scope Z_scope.

(** ** The file *)

Record cfgPrefix : Type := mkCfgPrefix { cp_Prefix : bytes; cp_Metric : Z }.
Record cfgFlexAlgo : Type := mkCfgFlexAlgo {
  cf_Algo : Z; cf_MetricType : bytes; cf_Priority : Z; cf_Advertise : bool; cf_Locator : bytes
}.
Record cfgPrefixRule : Type := mkCfgPrefixRule { cr_Permit : bytes; cr_Deny : bytes; cr_GE : Z; cr_LE : Z }.
Record cfgPrefixList : Type := mkCfgPrefixList { cl_Default : bytes; cl_Rules : list cfgPrefixRule }.
Record cfgPolicy : Type := mkCfgPolicy {
  po_Advertise : option cfgPrefixList; po_FIB : option cfgPrefixList; po_LeakL2ToL1 : option cfgPrefixList
}.
Record cfgCircuit : Type := mkCfgCircuit {
  cc_Interface : string; cc_Level : bytes; cc_P2P : bool; cc_Priority : option Z; cc_Metric : Z;
  cc_AdminGroup : list Z; cc_HelloInterval : bytes; cc_HoldMultiplier : Z; cc_Padding : option bool;
  cc_AdjacencyLimit : option Z; cc_HelloPassword : bytes; cc_HelloAcceptPasswords : list bytes;
  cc_HelloAuthAlgorithm : bytes; cc_HelloKeyID : Z
}.

#[export] Instance cfgCircuit_eq_dec : EqDecision cfgCircuit.
Proof. solve_decision. Defined.
#[export] Instance cfgPolicy_eq_dec : EqDecision cfgPolicy.
Proof.
  assert (EqDecision cfgPrefixRule) by solve_decision. assert (EqDecision cfgPrefixList) by solve_decision. solve_decision.
Defined.

(** [SRv6]: the locators of the section, if there is one. *)
Record Config : Type := mkConfig {
  c_NET : bytes; c_Hostname : bytes; c_FIB : bool; c_FIBTable : Z; c_Circuits : list cfgCircuit;
  c_Prefixes : list cfgPrefix; c_SRv6 : option (list bytes); c_FlexAlgo : list cfgFlexAlgo; c_Policy : option cfgPolicy;
  c_OverloadOnStartup : bytes;
  c_AreaPassword : bytes; c_AreaAcceptPasswords : list bytes; c_AreaAuthAlgorithm : bytes; c_AreaKeyID : Z;
  c_DomainPassword : bytes; c_DomainAcceptPasswords : list bytes; c_DomainAuthAlgorithm : bytes; c_DomainKeyID : Z;
  c_LSDBEntryLimit : Z; c_LSPMTU : Z
}.

(** [Load] of a document and whether another follows: what the schema cannot
    check. *)
Definition Load (c : Config) (more : bool) : option Config :=
  if more || bool_decide (c_NET c = []) || (length (c_Circuits c) =? 0)%nat then None else Some c.

(** ** Values *)

Definition metric (p : cfgPrefix) : Z := if cp_Metric p =? 0 then DefaultMetric else cp_Metric p.

Definition is_text (s : bytes) (l : list string) : bool := existsb (fun w => bool_decide (TrimSpace s = text w)) l.

Definition authAlgorithm (s : bytes) : option AuthAlgorithm :=
  if is_text s [""; "md5"; "hmac-md5"]%string then Some AuthMD5
  else if is_text s ["sha1"; "sha-1"; "hmac-sha-1"]%string then Some AuthSHA1
  else if is_text s ["sha256"; "sha-256"; "hmac-sha-256"]%string then Some AuthSHA256
  else if is_text s ["sha384"; "sha-384"; "hmac-sha-384"]%string then Some AuthSHA384
  else if is_text s ["sha512"; "sha-512"; "hmac-sha-512"]%string then Some AuthSHA512 else None.


Definition flexAlgoMetricType (s : bytes) : option Z :=
  if is_text s [""; "igp"]%string then Some FlexAlgoMetricIGP
  else if is_text s ["delay"]%string then Some FlexAlgoMetricMinDelay
  else if is_text s ["te"]%string then Some FlexAlgoMetricTE else None.

Definition levels (s : bytes) : option (bool * bool) :=
  if is_text s ["1"]%string then Some (true, false)
  else if is_text s ["2"]%string then Some (false, true)
  else if is_text s [""; "12"]%string then Some (true, true) else None.

(** One rule of [prefixList]: exactly one of its two prefixes is set. *)
Definition prefix_rule (r : cfgPrefixRule) : option PrefixRule :=
  match cr_Permit r, cr_Deny r with
  | _ :: _, [] => p ← ParsePrefix (cr_Permit r); Some (mkPrefixRule Permit p (cr_GE r) (cr_LE r))
  | [], _ :: _ => p ← ParsePrefix (cr_Deny r); Some (mkPrefixRule Deny p (cr_GE r) (cr_LE r))
  | _, _ => None
  end.

Definition prefixList (pc : cfgPrefixList) : option PrefixList :=
  d ← (if is_text (cl_Default pc) [""; "deny"]%string then Some Deny
       else if is_text (cl_Default pc) ["permit"]%string then Some Permit else None);
  rules ← mapM prefix_rule (cl_Rules pc);
  Some (mkPrefixList rules d).

Definition flex_algo (fa : cfgFlexAlgo) : option FlexAlgoConfig :=
  mt ← flexAlgoMetricType (cf_MetricType fa); Some (mkFlexAlgoConfig (cf_Algo fa) mt (cf_Priority fa) (cf_Advertise fa)).

(** ** The options *)

Section Options.
Context {F : Type} (netlinkFIB : Z -> F) (noop : F).
Context (ParseDuration : bytes -> option Z).
Context (connectedPrefixes : string -> list Prefix).

Definition opener : Type := string -> option (Transport * list Addr * list Addr).

Definition hello_interval (cc : cfgCircuit) : option Z :=
  if bool_decide (cc_HelloInterval cc = []) then Some 0 else ParseDuration (cc_HelloInterval cc).

(** [CircuitConfig.circuit] *)
Definition to_circuit (open : opener) (cc : cfgCircuit) : option CircuitConfig :=
  '(l1, l2) ← levels (cc_Level cc);
  algo ← authAlgorithm (cc_HelloAuthAlgorithm cc);
  hello ← hello_interval cc;
  '(tr, v4, v6) ← open (cc_Interface cc);
  Some (mkCircuitConfig (cc_Interface cc) tr (cc_P2P cc) l1 l2 (cc_Priority cc) hello (cc_HoldMultiplier cc)
    (cc_Metric cc) (cc_AdminGroup cc) v4 v6 (cc_Padding cc) (cc_AdjacencyLimit cc) (cc_HelloPassword cc) algo
    (cc_HelloKeyID cc) (cc_HelloAcceptPasswords cc)).

Definition prefix_option (p : cfgPrefix) : option (ServerOption (F := F)) :=
  q ← ParsePrefix (cp_Prefix p); Some (WithAdvertisedPrefix q (metric p)).

Definition locator_option (l : bytes) : option (ServerOption (F := F)) := p ← ParsePrefix l; Some (WithSRv6Locator p).

Definition flexAlgo_options (fa : cfgFlexAlgo) : option (list (ServerOption (F := F))) :=
  k ← flex_algo fa;
  if bool_decide (cf_Locator fa = []) then Some [WithFlexAlgo k]
  else p ← ParsePrefix (cf_Locator fa); Some [WithFlexAlgo k; WithSRv6LocatorForAlgo p (cf_Algo fa)].

Definition policy_option {A} (f : PrefixList -> A) (pl : option cfgPrefixList) : option (list A) :=
  match pl with None => Some [] | Some pc => l ← prefixList pc; Some [f l] end.

Definition policy_options (p : option cfgPolicy) : option (list (ServerOption (F := F))) :=
  match p with
  | None => Some []
  | Some p =>
      a ← policy_option (fun l => WithAdvertiseFilter (AdvertiseFilter AP_Prefix l)) (po_Advertise p);
      f ← policy_option (fun l => WithFIBFilter (AdvertiseFilter RI_Prefix l)) (po_FIB p);
      k ← policy_option (fun l => WithL2LeakFilter (AdvertiseFilter AP_Prefix l)) (po_LeakL2ToL1 p);
      Some (a ++ f ++ k)
  end.

(** The accept list alone reaches the server too. *)
Definition auth_option (f : AuthConfig -> ServerOption (F := F)) (pw : bytes) (accept : list bytes) (algo : bytes) (id : Z)
  : option (list (ServerOption (F := F))) :=
  if bool_decide (pw = []) && bool_decide (accept = []) then Some []
  else a ← authAlgorithm algo; Some [f (mkAuthConfig a id pw accept)].

Definition overload_option (s : bytes) : option (list (ServerOption (F := F))) :=
  if bool_decide (s = []) then Some [] else d ← ParseDuration s; Some [WithOverloadOnStartup d].

Definition circuit_option (open : opener) (cc : cfgCircuit) : option (ServerOption (F := F)) :=
  k ← to_circuit open cc; Some (WithCircuit k (connectedPrefixes (cc_Interface cc))).

(** [Options] without its last check. *)
Definition build_options (open : opener) (c : Config) : option (list (ServerOption (F := F))) :=
  '(area, id) ← ParseNET (c_NET c);
  prefixes ← mapM prefix_option (c_Prefixes c);
  locs ← mapM locator_option (default [] (c_SRv6 c));
  algos ← mapM flexAlgo_options (c_FlexAlgo c);
  overload ← overload_option (c_OverloadOnStartup c);
  policy ← policy_options (c_Policy c);
  area_auth ← auth_option WithAreaAuth (c_AreaPassword c) (c_AreaAcceptPasswords c) (c_AreaAuthAlgorithm c) (c_AreaKeyID c);
  domain_auth ← auth_option WithDomainAuth (c_DomainPassword c) (c_DomainAcceptPasswords c) (c_DomainAuthAlgorithm c)
                  (c_DomainKeyID c);
  circuits ← mapM (circuit_option open) (c_Circuits c);
  Some ([WithSystemID id; WithAreaAddresses [area]] ++
    (if bool_decide (c_Hostname c = []) then [] else [WithHostname (c_Hostname c)]) ++
    (if c_FIB c then [WithFIB (netlinkFIB (c_FIBTable c))] else []) ++
    prefixes ++ locs ++ concat algos ++
    (if 0 <? c_LSDBEntryLimit c then [WithLSDBEntryLimit (c_LSDBEntryLimit c)] else []) ++
    (if 0 <? c_LSPMTU c then [WithLSPMTU (c_LSPMTU c)] else []) ++
    overload ++ policy ++ area_auth ++ domain_auth ++ circuits).

Definition Config_Options (open : opener) (c : Config) : outcome (option (list (ServerOption (F := F)))) :=
  match build_options open c with
  | None => mret None
  | Some opts => ok ← ValidateOptions noop opts; mret (if ok : bool then Some opts else None)
  end.
End Options.
