(* ===== verification/Reload.v ===== *)
(** pkg/config/reload.go: the difference between two configurations, and the calls
    into a running server that apply it.

    The server is behind the interface [Api]: what a call does to the state and
    what it answers.  The deadlines of a reload are not modelled: every call is
    answered. *)

From stdpp Require Import sorting strings.
From S2P Require Import Prelude.
From S2P Require Import Netip.
From S2P Require Import Ids.
From S2P Require Import Auth.
From S2P Require Import Circuit.
From S2P Require Import FlexAlgo.
From S2P Require Import Rib.
From S2P Require Import EndX.
From S2P Require Import NodeLsp.
From S2P Require Import Mutate.
From S2P Require Import Serve.
From S2P Require Import Options.
From S2P Require Import Text.
From S2P Require Import Config.
Local Open Scope Z_scope.

(** ** The difference *)

Record Changes : Type := mkChanges {
  DeleteCircuits : list string;
  DeleteLocators : list Prefix;
  DeleteFlexAlgos : list Z;
  AddFlexAlgos : list FlexAlgoConfig;
  AddLocators : list SRv6LocatorConfig;
  DeletePrefixes : list Prefix;
  AddPrefixes : list AdvertisedPrefix;
  AddCircuits : list cfgCircuit;
  Ignored : list string
}.

Definition named (name : string) (same : bool) : string * bool := (name, same).

(** [restartOnly]: each key with whether the two files agree on it. *)
Definition restartOnly (a b : Config) : list (string * bool) :=
  [named "net" (bool_decide (c_NET a = c_NET b)); named "hostname" (bool_decide (c_Hostname a = c_Hostname b));
   named "fib" (Bool.eqb (c_FIB a) (c_FIB b)); named "fib-table" (c_FIBTable a =? c_FIBTable b);
   named "overload-on-startup" (bool_decide (c_OverloadOnStartup a = c_OverloadOnStartup b));
   named "lsp-mtu" (c_LSPMTU a =? c_LSPMTU b); named "lsdb-entry-limit" (c_LSDBEntryLimit a =? c_LSDBEntryLimit b);
   named "area-password" (bool_decide (c_AreaPassword a = c_AreaPassword b));
   named "area-accept-passwords" (bool_decide (c_AreaAcceptPasswords a = c_AreaAcceptPasswords b));
   named "area-auth-algorithm" (bool_decide (c_AreaAuthAlgorithm a = c_AreaAuthAlgorithm b));
   named "area-key-id" (c_AreaKeyID a =? c_AreaKeyID b);
   named "domain-password" (bool_decide (c_DomainPassword a = c_DomainPassword b));
   named "domain-accept-passwords" (bool_decide (c_DomainAcceptPasswords a = c_DomainAcceptPasswords b));
   named "domain-auth-algorithm" (bool_decide (c_DomainAuthAlgorithm a = c_DomainAuthAlgorithm b));
   named "domain-key-id" (c_DomainKeyID a =? c_DomainKeyID b);
   named "policy" (bool_decide (c_Policy a = c_Policy b))].

Definition ignored (a b : Config) : list string := map fst (List.filter (fun ks => negb ks.2) (restartOnly a b)).

(** The last circuit of an interface stands for it. *)
Definition by_interface (l : list cfgCircuit) : gmap string cfgCircuit :=
  fold_left (fun m cc => <[cc_Interface cc := cc]> m) l ∅.

(** One circuit of the new file. *)
Definition circuit_change (before : gmap string cfgCircuit) (x : list string * list cfgCircuit) (cc : cfgCircuit)
  : list string * list cfgCircuit :=
  match before !! cc_Interface cc with
  | None => (x.1, x.2 ++ [cc])
  | Some prev => if bool_decide (prev = cc) then x else (x.1 ++ [cc_Interface cc], x.2 ++ [cc])
  end.

Definition circuitChanges (old next : list cfgCircuit) : list string * list cfgCircuit :=
  let x := fold_left (circuit_change (by_interface old)) next ([], []) in
  (x.1 ++ map cc_Interface (List.filter (fun cc => negb (bool_decide (cc_Interface cc ∈ map cc_Interface next))) old), x.2).

(** [m[k] = v] for each element in turn; [None] where one does not parse. *)
Fixpoint collect {A K V} `{Countable K} (f : A -> option (K * V)) (l : list A) (m : gmap K V) : option (gmap K V) :=
  match l with [] => Some m | a :: l => '(k, v) ← f a; collect f l (<[k := v]> m) end.

Definition prefixSet (c : Config) : option (gmap Prefix Z) :=
  collect (fun p => q ← ParsePrefix (cp_Prefix p); Some (Masked q, metric p)) (c_Prefixes c) ∅.

(** The locators of the srv6 section and those of the algorithms that have one. *)
Definition locatorSet (c : Config) : option (gmap Prefix Z) :=
  m ← collect (fun l => q ← ParsePrefix l; Some (Masked q, 0)) (default [] (c_SRv6 c)) ∅;
  collect (fun fa => q ← ParsePrefix (cf_Locator fa); Some (Masked q, cf_Algo fa))
    (List.filter (fun fa => negb (bool_decide (cf_Locator fa = []))) (c_FlexAlgo c)) m.

Definition flexAlgoSet (c : Config) : option (gmap Z FlexAlgoConfig) :=
  collect (fun fa => k ← flex_algo fa; Some (cf_Algo fa, k)) (c_FlexAlgo c) ∅.

(** The keys of [a] that [b] does not map to the same value, and the values among
    them: what has to go, and what has to come. *)
Definition unlike {K V} `{Countable K} `{EqDecision V} (a b : gmap K V) : gmap K V :=
  filter (fun kv => b !! kv.1 <> Some kv.2) a.

Definition algo_le (a b : FlexAlgoConfig) : Prop := FC_Algo a <= FC_Algo b.
#[export] Instance algo_le_dec (a b : FlexAlgoConfig) : Decision (algo_le a b).
Proof. unfold algo_le. apply _. Defined.
Definition locator_le (a b : SRv6LocatorConfig) : Prop := prefix_le (LC_Prefix a) (LC_Prefix b).
#[export] Instance locator_le_dec (a b : SRv6LocatorConfig) : Decision (locator_le a b).
Proof. unfold locator_le. apply _. Defined.
Definition advertised_le (a b : AdvertisedPrefix) : Prop := prefix_le (AP_Prefix a) (AP_Prefix b).
#[export] Instance advertised_le_dec (a b : AdvertisedPrefix) : Decision (advertised_le a b).
Proof. unfold advertised_le. apply _. Defined.

(** The batch for the locators, the algorithms and the prefixes: a locator bound to
    an algorithm that is deleted, or added again, goes with it. *)
Definition changes (circuits : list string * list cfgCircuit) (locs locs' : gmap Prefix Z)
    (algos algos' : gmap Z FlexAlgoConfig) (prefixes prefixes' : gmap Prefix Z) (keys : list string) : Changes :=
  let del := unlike algos algos' in
  let add := unlike algos' algos in
  let del_locs := filter (fun '(p, a) => locs' !! p <> Some a \/ is_Some (del !! a)) locs in
  let add_locs := filter (fun '(p, a) => locs !! p <> Some a \/ is_Some (add !! a)) locs' in
  mkChanges circuits.1
    (merge_sort prefix_le (map_to_list del_locs).*1)
    (merge_sort Z.le (map_to_list del).*1)
    (merge_sort algo_le (map_to_list add).*2)
    (merge_sort locator_le (map (fun pa => mkLocatorConfig pa.1 pa.2) (map_to_list add_locs)))
    (merge_sort prefix_le (map_to_list (unlike prefixes prefixes')).*1)
    (merge_sort advertised_le (map (fun pm => mkAdvertised pm.1 pm.2) (map_to_list (unlike prefixes' prefixes))))
    circuits.2 keys.

Section Diff.
Context {F : Type} (netlinkFIB : Z -> F) (noop : F).
Context (ParseDuration : bytes -> option Z).
Context (connectedPrefixes : string -> list Prefix).

(** The opener [Diff] validates with: a nil transport and no address. *)
Definition probe : opener := fun _ => Some (mkTransport [] 0, [], []).

(** No error if the new file passes what a restart checks without a transport. *)
Definition Diff (old next : Config) : outcome (option Changes) :=
  opts ← Config_Options netlinkFIB noop ParseDuration connectedPrefixes probe next;
  mret (match opts with
        | None => None
        | Some _ =>
            a ← flexAlgoSet old; a' ← flexAlgoSet next;
            l ← locatorSet old; l' ← locatorSet next;
            p ← prefixSet old; p' ← prefixSet next;
            Some (changes (circuitChanges (c_Circuits old) (c_Circuits next)) l l' a a' p p' (ignored old next))
        end).
End Diff.

(** ** Applying it *)

(** The management API of a server of type [S]: what a call leaves behind and what
    it answers. *)
Class Api (S : Type) := issue : operation -> S -> outcome (S * option opError).

Definition rebuilds (ch : Changes) (name : string) : bool :=
  bool_decide (name ∈ DeleteCircuits ch) && existsb (fun cc => bool_decide (cc_Interface cc = name)) (AddCircuits ch).

(** [errors.Is(err, server.ErrAlreadyInState)] of a call is its success. *)
Definition refused (e : option opError) : list opError :=
  match e with None | Some ErrAlreadyInState => [] | Some e => [e] end.

Section Apply.
Context {S : Type} `{Api S}.
Context (ParseDuration : bytes -> option Z) (connectedPrefixes : string -> list Prefix) (open : opener).

(** A call for each element, and the refusals. *)
Fixpoint calls {A} (f : A -> S -> outcome (S * option opError)) (l : list A) (s : S) : outcome (S * list opError) :=
  match l with
  | [] => mret (s, [])
  | a :: l => '(s, e) ← f a s; '(s, es) ← calls f l s; mret (s, refused e ++ es)
  end.

(** [add] of [addCircuit]: an interface that cannot be opened is a refusal. *)
Definition add_circuit (cc : cfgCircuit) (s : S) : outcome (S * option opError) :=
  match to_circuit ParseDuration open cc with
  | None => mret (s, Some Refusal)
  | Some k => issue (OpAddCircuit k (connectedPrefixes (cc_Interface cc))) s
  end.

(** [Changes.addCircuit]: a circuit whose definition changed is deleted between two
    attempts at adding it. *)
Definition addCircuit (ch : Changes) (cc : cfgCircuit) (s : S) : outcome (S * option opError) :=
  '(s, e) ← add_circuit cc s;
  match e with
  | None | Some ErrAlreadyInState => mret (s, e)
  | Some _ =>
      if negb (rebuilds ch (cc_Interface cc)) then mret (s, e) else
      '(s, d) ← issue (OpDeleteCircuit (cc_Interface cc)) s;
      match refused d with [] => add_circuit cc s | _ => mret (s, d) end
  end.

Definition apply (ch : Changes) (s : S) : outcome (S * list opError) :=
  '(s, e1) ← calls (fun n => issue (OpDeleteCircuit n)) (List.filter (fun n => negb (rebuilds ch n)) (DeleteCircuits ch)) s;
  '(s, e2) ← calls (fun p => issue (OpDeleteLocator p)) (DeleteLocators ch) s;
  '(s, e3) ← calls (fun a => issue (OpDeleteFlexAlgo a)) (DeleteFlexAlgos ch) s;
  '(s, e4) ← calls (fun fa => issue (OpAddFlexAlgo fa)) (AddFlexAlgos ch) s;
  '(s, e5) ← calls (fun lc => issue (OpAddLocator lc)) (AddLocators ch) s;
  '(s, e6) ← calls (fun p => issue (OpDeletePrefix p)) (DeletePrefixes ch) s;
  '(s, e7) ← calls (fun ap => issue (OpAddPrefix ap)) (AddPrefixes ch) s;
  '(s, e8) ← calls (addCircuit ch) (AddCircuits ch) s;
  mret (s, e1 ++ e2 ++ e3 ++ e4 ++ e5 ++ e6 ++ e7 ++ e8).

(** ** Reload *)

(** What is reported through the metrics: how the reload went, and how many
    differences it left in the file. *)
Inductive report : Set := ReloadApplied | ReloadPartial | ReloadRefused | ReloadUnapplied (n : nat).

Definition adopt (cur next : Config) : Config :=
  mkConfig (c_NET cur) (c_Hostname cur) (c_FIB cur) (c_FIBTable cur) (c_Circuits next) (c_Prefixes next) (c_SRv6 next)
    (c_FlexAlgo next) (c_Policy cur) (c_OverloadOnStartup cur) (c_AreaPassword cur) (c_AreaAcceptPasswords cur)
    (c_AreaAuthAlgorithm cur) (c_AreaKeyID cur) (c_DomainPassword cur) (c_DomainAcceptPasswords cur)
    (c_DomainAuthAlgorithm cur) (c_DomainKeyID cur) (c_LSDBEntryLimit cur) (c_LSPMTU cur).

(** [Reload] of what was loaded: the server, the configuration it is taken to run,
    and the reports. *)
Definition Reload {F} (netlinkFIB : Z -> F) (noop : F) (cur : Config) (loaded : option Config) (s : S)
  : outcome (S * Config * list report) :=
  match loaded with
  | None => mret (s, cur, [ReloadRefused])
  | Some next =>
      d ← Diff netlinkFIB noop ParseDuration connectedPrefixes cur next;
      match d with
      | None => mret (s, cur, [ReloadRefused])
      | Some ch =>
          '(s, errs) ← apply ch s;
          let n := (length (Ignored ch) + length errs)%nat in
          mret (match errs with
                | [] => (s, adopt cur next, [ReloadApplied; ReloadUnapplied n])
                | _ => (s, cur, [ReloadPartial; ReloadUnapplied n])
                end)
      end
  end.

(** One SIGHUP of the daemon, with what loading its file then gives; one started
    without a file ignores it. *)
Definition hup {F} (netlinkFIB : Z -> F) (noop : F) (running : option Config) (loaded : option Config) (s : S)
  : outcome (S * option Config * list report) :=
  match running with
  | None => mret (s, None, [])
  | Some cur => '(s, next, reps) ← Reload netlinkFIB noop cur loaded s; mret (s, Some next, reps)
  end.

Fixpoint hups {F} (netlinkFIB : Z -> F) (noop : F) (running : option Config) (files : list (option Config)) (s : S)
  : outcome (S * option Config * list (list report)) :=
  match files with
  | [] => mret (s, running, [])
  | f :: files =>
      '(s, running, r) ← hup netlinkFIB noop running f s;
      '(s, running, rs) ← hups netlinkFIB noop running files s; mret (s, running, r :: rs)
  end.
End Apply.
