(* ===== verification/Connect.v ===== *)
(** pkg/server/connect.go: the handlers of goisis.v1.IsisService, with the management
    operations of server.go they wait for and the AddCircuit of circuit_events.go;
    then what stands at the two ends of the service, the address src/cmd/goisisd
    listens on and the client src/cmd/goisis.

    The messages are the records of the generated code, with text as its octets; how
    they travel is left to the RPC library. *)

From stdpp Require Import strings.
From S2P Require Import Prelude.
From S2P Require Import Netip.
From S2P Require Import Ids.
From S2P Require Import SubTLV.
From S2P Require Import Circuit.
From S2P Require Import Lsdb.
From S2P Require Import Restart.
From S2P Require Import Spf.
From S2P Require Import FlexAlgo.
From S2P Require Import Rib.
From S2P Require Import EndX.
From S2P Require Import Mutate.
From S2P Require Import Text.
From S2P Require Import Query.
From S2P Require Import Metrics.
From S2P Require Import Watch.
From S2P Require Import Reload.
Local Open Scope Z_scope.

(** ** Errors *)

Inductive ctxError : Set := Canceled | DeadlineExceeded.
Inductive Code : Set := CodeUnavailable | CodeCanceled | CodeDeadlineExceeded | CodeInvalidArgument | CodeResourceExhausted.

(** What a handler's call may answer: [ErrServerStopped], the error of its context,
    one that carries a code, or a refusal of the server. *)
Inductive callError : Set := ErrServerStopped | ErrContext (e : ctxError) | ErrCoded (c : Code) | ErrRefused (e : opError).

Definition toConnectError (e : callError) : Code :=
  match e with
  | ErrServerStopped => CodeUnavailable
  | ErrContext Canceled => CodeCanceled
  | ErrContext DeadlineExceeded => CodeDeadlineExceeded
  | ErrCoded c => c
  | ErrRefused _ => CodeInvalidArgument
  end.

(** ** Management operations

    What the two selects of a call see, and whether the operation is left to the
    drain of the queue, which answers without running it. *)
Inductive offer : Set := Sent | OfferDone (e : ctxError) | OfferStopped.
Inductive await : Set := Answered | AwaitDone (e : ctxError) | AwaitStopped (answered : bool).
Record call : Set := mkCall { early : option ctxError; offered : offer; drained : bool; awaited : await }.

(** Whether the operation reached the loop, and the caller's answer. *)
Definition mgmtOperationQueued {S A} (t : call) (f : S -> outcome (S * (A + callError))) (s : S) : outcome (S * (bool * (A + callError))) :=
  match early t with
  | Some e => mret (s, (false, inr (ErrContext e)))
  | None =>
      match offered t with
      | OfferDone e => mret (s, (false, inr (ErrContext e)))
      | OfferStopped => mret (s, (false, inr ErrServerStopped))
      | Sent =>
          '(s, r) ← if drained t then mret (s, inr ErrServerStopped) else f s;
          mret (s, (true,
            match awaited t with
            | Answered | AwaitStopped true => r
            | AwaitDone e => inr (ErrContext e)
            | AwaitStopped false => inr ErrServerStopped
            end))
      end
  end.

Definition mgmtOperation {S A} (t : call) (f : S -> outcome (S * (A + callError))) (s : S) : outcome (S * (A + callError)) :=
  '(s, qr) ← mgmtOperationQueued t f s; mret (s, qr.2).

(** ** Adding a circuit

    [AddCircuit] (circuit_events.go) is handed a transport; the count is of the times
    it has been closed. *)
Definition add_body {Y} `{Api Y} (k : CircuitConfig) (conn : list Prefix) (sc : Y * nat) : outcome (Y * nat * (unit + callError)) :=
  '(s, e) ← issue (OpAddCircuit k conn) sc.1;
  mret (match e with None => (s, sc.2, inl tt) | Some e => (s, S sc.2, inr (ErrRefused e)) end).

Definition AddCircuit {Y} `{Api Y} (t : call) (k : CircuitConfig) (conn : list Prefix) (sc : Y * nat) : outcome (Y * nat * (unit + callError)) :=
  '(sc, qr) ← mgmtOperationQueued t (add_body k conn) sc;
  let stopped := match qr.2 with inr ErrServerStopped => true | _ => false end in
  mret (if negb qr.1 || stopped then (sc.1, S sc.2) else sc, qr.2).

(** ** Messages *)

Inductive ProtoLevel : Set := LEVEL_UNSPECIFIED | LEVEL_1 | LEVEL_2.
Definition levelToProto (l : Level) : ProtoLevel := match l with Level1 => LEVEL_1 | Level2 => LEVEL_2 end.

Record GlobalMsg : Set := mkGlobalMsg { gm_version : bytes; gm_system_id : bytes; gm_overload : bool }.
Record CircuitMsg : Set := mkCircuitMsg {
  cm_interface : string; cm_point_to_point : bool; cm_level1 : bool; cm_level2 : bool; cm_priority : Z; cm_metric : Z; cm_link_up : bool
}.
Record AdjacencyMsg : Set := mkAdjacencyMsg {
  am_interface : string; am_level : ProtoLevel; am_system_id : bytes; am_snpa : bytes; am_state : bytes; am_priority : Z;
  am_holding_time : Z; am_holding_remaining : Z; am_hostname : bytes; am_restarting : bool; am_suppressed : bool
}.
Record LspMsg : Set := mkLspMsg {
  lm_level : ProtoLevel; lm_lsp_id : bytes; lm_sequence_number : Z; lm_remaining_lifetime : Z; lm_checksum : Z; lm_own : bool;
  lm_hostname : bytes; lm_tlvs : list bytes
}.
Record NextHopMsg : Set := mkNextHopMsg { nm_interface : string; nm_gateway : bytes }.
Record RouteMsg : Set := mkRouteMsg {
  rm_prefix : bytes; rm_metric : Z; rm_level : ProtoLevel; rm_next_hops : list NextHopMsg; rm_algorithm : Z; rm_preference : Z
}.
Record EndXSidMsg : Set := mkEndXSidMsg { em_sid : bytes; em_neighbor : bytes; em_interface : string; em_algorithm : Z }.
Record LocatorMsg : Set := mkLocatorMsg { om_prefix : bytes; om_algorithm : Z; om_end_sid : bytes; om_end_x_sids : list EndXSidMsg }.
Record DefinitionMsg : Set := mkDefinitionMsg {
  dm_metric_type : Z; dm_calc_type : Z; dm_priority : Z; dm_advertiser : bytes; dm_constraints : list bytes
}.
Record FlexAlgoMsg : Set := mkFlexAlgoMsg {
  fm_algorithm : Z; fm_level : ProtoLevel; fm_definition : option DefinitionMsg; fm_participants : list bytes
}.
Inductive EventMsg : Set := AdjacencyEventMsg (a : AdjacencyMsg) | RouteEventMsg (r : RouteMsg) (withdrawn : bool).

(** ** What is shown *)

(** [SNPA.String] (tlv_misc.go), [LSPID.String] (packet.go). *)
Definition SNPA_String (s : SNPA) : bytes :=
  match s with
  | [a; b; c; d; e; f] => hex_octet a ++ hex_octet b ++ [dot] ++ hex_octet c ++ hex_octet d ++ [dot] ++ hex_octet e ++ hex_octet f
  | _ => []
  end.
Definition LSPID_String (l : LSPID) : bytes := NodeID_String (LSPID_NodeID l) ++ text "-" ++ hex_octet (LSPID_FragmentID l).

Definition circuitToProto (c : CircuitInfo) : CircuitMsg :=
  mkCircuitMsg (ci_Interface c) (ci_P2P c) (ci_Level1 c) (ci_Level2 c) (ci_Priority c) (ci_Metric c) (ci_LinkUp c).

Definition adjacencyToProto (a : AdjacencyInfo) : AdjacencyMsg :=
  mkAdjacencyMsg (ai_Interface a) (levelToProto (ai_Level a)) (SystemID_String (ai_SystemID a)) (SNPA_String (ai_SNPA a))
    (AdjState_String (ai_State a)) (ai_Priority a) (ai_Holding a) (ai_HoldingRemaining a) (ai_Hostname a) (ai_Restarting a)
    (ai_Suppressed a).

Definition lspToProto (l : LSPInfo) (tlvs : list bytes) : LspMsg :=
  mkLspMsg (levelToProto (i_Level l)) (LSPID_String (i_LSPID l)) (i_SequenceNumber l) (i_Remaining l) (i_Checksum l) (i_Own l)
    (i_Hostname l) tlvs.

Definition nextHopToProto (nh : NextHopInfo) : NextHopMsg := mkNextHopMsg (Interface nh) (Addr_String (Gateway nh)).
Definition routeToProto (r : RouteInfo) : RouteMsg :=
  mkRouteMsg (Prefix_String (RI_Prefix r)) (RI_Metric r) (levelToProto (RI_Level r)) (nextHopToProto <$> RI_NextHops r) (RI_Algorithm r)
    (RI_Preference r).

Definition endXToProto (algo : Z) (e : EndXSIDInfo) : EndXSidMsg :=
  mkEndXSidMsg (Addr_String (EI_SID e)) (SystemID_String (EI_Neighbor e)) (EI_Interface e) algo.
Definition locatorToProto (l : LocatorInfo) : LocatorMsg :=
  mkLocatorMsg (Prefix_String (LI_Prefix l)) (LI_Algorithm l) (Addr_String (LI_EndSID l)) (endXToProto (LI_Algorithm l) <$> LI_EndXSIDs l).

Definition definitionToProto (d : ElectedDefinition) : DefinitionMsg :=
  mkDefinitionMsg (D_MetricType d) (D_CalcType d) (D_Priority d) (SystemID_String (D_Advertiser d)) (flexAlgoConstraintSummaries (D_Constraints d)).
Definition flexAlgoToProto (fi : FlexAlgoInfo) : FlexAlgoMsg :=
  mkFlexAlgoMsg (FI_Algo fi) (levelToProto (FI_Level fi)) (definitionToProto <$> FI_Definition fi) (SystemID_String <$> FI_Participants fi).

Definition eventToProto (ev : Event) : EventMsg :=
  match ev with
  | AdjacencyChange a => AdjacencyEventMsg (adjacencyToProto a)
  | RouteChange r w => RouteEventMsg (routeToProto r) w
  end.

(** ** What is read *)

Definition parseSystemID (s : bytes) : option SystemID :=
  raw ← DecodeString (List.filter (fun c => negb (c =? dot)) s);
  if negb (length raw =? 6)%nat then None else Some raw.

(** The validators carry their code. *)
Definition flexAlgoNumber (v : Z) : Z + callError := if (v <? 128) || (255 <? v) then inr (ErrCoded CodeInvalidArgument) else inl (u8 v).
Definition locatorAlgo (v : Z) : Z + callError := if v =? 0 then inl 0 else flexAlgoNumber v.
Definition uint8FromProto (v : Z) : Z + callError := if 255 <? v then inr (ErrCoded CodeInvalidArgument) else inl (u8 v).

(** ** Handlers *)

Inductive request : Type :=
  | AddLocatorRequest (prefix : bytes) (algorithm : Z)
  | DeleteLocatorRequest (prefix : bytes)
  | AddFlexAlgoRequest (algorithm metric_type priority : Z) (advertise_definition : bool)
  | DeleteFlexAlgoRequest (algorithm : Z)
  | AddPrefixRequest (prefix : bytes) (metric : Z)
  | DeletePrefixRequest (prefix : bytes)
  | SetOverloadRequest (overload : bool)
  | ClearAdjacencyRequest (interface : string) (system_id : bytes).

Definition parsed {A} (r : option A) : A + Code := match r with Some a => inl a | None => inr CodeInvalidArgument end.
Definition valid {A} (r : A + callError) : A + Code := match r with inl a => inl a | inr e => inr (toConnectError e) end.
Definition then_ {A B} (r : A + Code) (f : A -> B + Code) : B + Code := match r with inl a => f a | inr c => inr c end.

(** What each handler does before it calls the server: the operation it calls, or
    the code it answers. *)
Definition decode_AddLocator (prefix : bytes) (algorithm : Z) : operation + Code :=
  then_ (parsed (ParsePrefix prefix)) (fun p =>
  then_ (valid (locatorAlgo algorithm)) (fun a => inl (OpAddLocator (mkLocatorConfig p a)))).
Definition decode_DeleteLocator (prefix : bytes) : operation + Code := then_ (parsed (ParsePrefix prefix)) (fun p => inl (OpDeleteLocator p)).
Definition decode_AddFlexAlgo (algorithm metric_type priority : Z) (advertise_definition : bool) : operation + Code :=
  then_ (valid (flexAlgoNumber algorithm)) (fun a =>
  then_ (valid (uint8FromProto metric_type)) (fun mt =>
  then_ (valid (uint8FromProto priority)) (fun prio => inl (OpAddFlexAlgo (mkFlexAlgoConfig a mt prio advertise_definition))))).
Definition decode_DeleteFlexAlgo (algorithm : Z) : operation + Code := then_ (valid (flexAlgoNumber algorithm)) (fun a => inl (OpDeleteFlexAlgo a)).
Definition decode_AddPrefix (prefix : bytes) (metric : Z) : operation + Code :=
  then_ (parsed (ParsePrefix prefix)) (fun p => inl (OpAddPrefix (mkAdvertised p metric))).
Definition decode_DeletePrefix (prefix : bytes) : operation + Code := then_ (parsed (ParsePrefix prefix)) (fun p => inl (OpDeletePrefix p)).
Definition decode_ClearAdjacency (interface : string) (raw : bytes) : operation + Code :=
  match raw with
  | [] => inl (OpClearAdjacency interface None)
  | _ => then_ (parsed (parseSystemID raw)) (fun id => inl (OpClearAdjacency interface (Some id)))
  end.

Definition decode (q : request) : operation + Code :=
  match q with
  | AddLocatorRequest prefix algorithm => decode_AddLocator prefix algorithm
  | DeleteLocatorRequest prefix => decode_DeleteLocator prefix
  | AddFlexAlgoRequest algorithm metric_type priority advertise => decode_AddFlexAlgo algorithm metric_type priority advertise
  | DeleteFlexAlgoRequest algorithm => decode_DeleteFlexAlgo algorithm
  | AddPrefixRequest prefix metric => decode_AddPrefix prefix metric
  | DeletePrefixRequest prefix => decode_DeletePrefix prefix
  | SetOverloadRequest on => inl (OpSetOverload on)
  | ClearAdjacencyRequest interface raw => decode_ClearAdjacency interface raw
  end.

(** What a server shows of its state. *)
Class Views (S : Type) := {
  view_global : S -> Global;
  view_circuits : S -> list CircuitInfo;
  view_adjacencies : S -> list AdjacencyInfo;
  view_lsdb : S -> list LSPInfo;
  view_routes : S -> list RouteInfo;
  view_locators : S -> list LocatorInfo;
  view_flexAlgos : S -> list FlexAlgoInfo
}.

Section Handlers.
Context {S : Type} `{Api S} `{Views S}.

(** A call of the API: the loop runs it and answers. *)
Definition run_op (op : operation) (s : S) : outcome (S * (unit + callError)) :=
  '(s, e) ← issue op s; mret (s, match e with None => inl tt | Some e => inr (ErrRefused e) end).

Definition respond {A B} (f : A -> B) (r : A + callError) : B + Code := match r with inl a => inl (f a) | inr e => inr (toConnectError e) end.

(** The rest of each handler. *)
Definition call_server (t : call) (d : operation + Code) (s : S) : outcome (S * (unit + Code)) :=
  match d with
  | inr c => mret (s, inr c)
  | inl op => '(s, r) ← mgmtOperation t (run_op op) s; mret (s, respond id r)
  end.

Definition handle_AddLocator (t : call) (prefix : bytes) (algorithm : Z) : S -> outcome (S * (unit + Code)) :=
  call_server t (decode_AddLocator prefix algorithm).
Definition handle_DeleteLocator (t : call) (prefix : bytes) : S -> outcome (S * (unit + Code)) := call_server t (decode_DeleteLocator prefix).
Definition handle_AddFlexAlgo (t : call) (algorithm metric_type priority : Z) (advertise : bool) : S -> outcome (S * (unit + Code)) :=
  call_server t (decode_AddFlexAlgo algorithm metric_type priority advertise).
Definition handle_DeleteFlexAlgo (t : call) (algorithm : Z) : S -> outcome (S * (unit + Code)) := call_server t (decode_DeleteFlexAlgo algorithm).
Definition handle_AddPrefix (t : call) (prefix : bytes) (metric : Z) : S -> outcome (S * (unit + Code)) := call_server t (decode_AddPrefix prefix metric).
Definition handle_DeletePrefix (t : call) (prefix : bytes) : S -> outcome (S * (unit + Code)) := call_server t (decode_DeletePrefix prefix).
Definition handle_SetOverload (t : call) (on : bool) : S -> outcome (S * (unit + Code)) := call_server t (inl (OpSetOverload on)).
Definition handle_ClearAdjacency (t : call) (interface : string) (raw : bytes) : S -> outcome (S * (unit + Code)) :=
  call_server t (decode_ClearAdjacency interface raw).

Definition handle_request (t : call) (q : request) : S -> outcome (S * (unit + Code)) :=
  match q with
  | AddLocatorRequest prefix algorithm => handle_AddLocator t prefix algorithm
  | DeleteLocatorRequest prefix => handle_DeleteLocator t prefix
  | AddFlexAlgoRequest algorithm metric_type priority advertise => handle_AddFlexAlgo t algorithm metric_type priority advertise
  | DeleteFlexAlgoRequest algorithm => handle_DeleteFlexAlgo t algorithm
  | AddPrefixRequest prefix metric => handle_AddPrefix t prefix metric
  | DeletePrefixRequest prefix => handle_DeletePrefix t prefix
  | SetOverloadRequest on => handle_SetOverload t on
  | ClearAdjacencyRequest interface raw => handle_ClearAdjacency t interface raw
  end.

(** A read copies its view in the loop. *)
Definition read {A} (v : S -> A) (s : S) : outcome (S * (A + callError)) := mret (s, inl (v s)).
Definition listing {A B} (v : S -> A) (f : A -> B) (t : call) (s : S) : outcome (S * (B + Code)) :=
  '(s, r) ← mgmtOperation t (read v) s; mret (s, respond f r).

Definition handle_GetIsis (version : bytes) : call -> S -> outcome (S * (GlobalMsg + Code)) :=
  listing view_global (fun g => mkGlobalMsg version (SystemID_String (g_SystemID g)) (g_Overload g)).
Definition handle_ListCircuits : call -> S -> outcome (S * (list CircuitMsg + Code)) := listing view_circuits (fmap circuitToProto).
Definition handle_ListAdjacencies : call -> S -> outcome (S * (list AdjacencyMsg + Code)) := listing view_adjacencies (fmap adjacencyToProto).
Definition handle_ListRoutes : call -> S -> outcome (S * (list RouteMsg + Code)) := listing view_routes (fmap routeToProto).
Definition handle_ListLocators : call -> S -> outcome (S * (list LocatorMsg + Code)) := listing view_locators (fmap locatorToProto).
Definition handle_ListFlexAlgos : call -> S -> outcome (S * (list FlexAlgoMsg + Code)) := listing view_flexAlgos (fmap flexAlgoToProto).

(** The text of a detailed listing is rendered by the caller, outside the loop. *)
Definition handle_GetLsdb (detail : bool) (t : call) (s : S) : outcome (S * (list LspMsg + Code)) :=
  '(s, r) ← mgmtOperation t (read view_lsdb) s;
  match r with
  | inr e => mret (s, inr (toConnectError e))
  | inl infos =>
      rendered ← if detail then renderTLVs infos else mret ((fun i => (i, [])) <$> infos);
      mret (s, inl ((fun '(i, tlvs) => lspToProto i tlvs) <$> rendered))
  end.
End Handlers.

(** ** The event stream *)

(** What the select of the handler sees. *)
Inductive stream_event : Type := StreamDone (e : ctxError) | Next (ev : Event) | ChannelClosed (lagged : bool).

(** How the stream ends: a send fails, the error of the context, a code, or none. *)
Inductive stream_end : Set := SendFailed | EndContext (e : ctxError) | EndCode (c : Code) | EndOk.

(** [wire n]: whether the stream takes the [n]-th message. *)
Fixpoint send_all (wire : nat -> bool) (sent : list EventMsg) (evs : list Event) : list EventMsg * bool :=
  match evs with
  | [] => (sent, true)
  | ev :: evs => if wire (length sent) then send_all wire (sent ++ [eventToProto ev]) evs else (sent, false)
  end.

Fixpoint stream_loop (wire : nat -> bool) (sent : list EventMsg) (evs : list stream_event) : list EventMsg * option stream_end :=
  match evs with
  | [] => (sent, None)
  | StreamDone e :: _ => (sent, Some (EndContext e))
  | ChannelClosed lagged :: _ => (sent, Some (if lagged then EndCode CodeResourceExhausted else EndOk))
  | Next ev :: evs => if wire (length sent) then stream_loop wire (sent ++ [eventToProto ev]) evs else (sent, Some SendFailed)
  end.

(** [WatchEvent] once it has subscribed; [None] while it waits. *)
Definition handle_WatchEvent (wire : nat -> bool) (include_initial : bool) (sub : Subscription) (evs : list stream_event)
    : list EventMsg * option stream_end :=
  let '(sent, ok) := send_all wire [] (if include_initial then Initial sub else []) in
  if ok then stream_loop wire sent evs else (sent, Some SendFailed).

(** ** Who can reach the service

    cmd/goisisd/main.go: the address the API listens on. *)
Inductive network : Set := Tcp | Unix.

(** The string before and after the first octet [c], and the last. *)
Fixpoint cut_first (c : Z) (s : bytes) : option (bytes * bytes) :=
  match s with
  | [] => None
  | x :: s => if x =? c then Some ([], s) else '(a, b) ← cut_first c s; Some (x :: a, b)
  end.
Fixpoint cut_last (c : Z) (s : bytes) : option (bytes * bytes) :=
  match s with
  | [] => None
  | x :: s' => match cut_last c s' with Some (a, b) => Some (x :: a, b) | None => if x =? c then Some ([], s') else None end
  end.

Definition parseAPIListen (addr : bytes) : option (network * bytes) :=
  match strip (text "unix://") addr with
  | None => Some (Tcp, addr)
  | Some path => if bool_decide (take 1 path = [slash]) then Some (Unix, path) else None
  end.

Definition open_bracket : Z := 91.
Definition close_bracket : Z := 93.

(** [net.SplitHostPort]: the host. *)
Definition SplitHostPort (s : bytes) : option bytes :=
  '(before, port) ← cut_last colon s;
  match s with
  | x :: rest =>
      if x =? open_bracket then
        '(host, _) ← cut_first close_bracket rest;
        if bool_decide (before = open_bracket :: host ++ [close_bracket]) && negb (bool_decide (open_bracket ∈ rest)) &&
           negb (bool_decide (close_bracket ∈ port))
        then Some host else None
      else if bool_decide (colon ∈ before) || bool_decide (open_bracket ∈ s) || bool_decide (close_bracket ∈ s) then None else Some before
  | [] => None
  end.

(** [netip.ParseAddr], of a text that may have a zone, which it drops. *)
Definition ParseAddr_zone (s : bytes) : option Addr :=
  match cut_first percent s with
  | None => ParseAddr s
  | Some (a, zone) =>
      match zone, ParseAddr a with
      | _ :: _, Some (Addr6 b) => Some (Addr6 b)
      | _, _ => None
      end
  end.

Definition nonLoopbackAPI (addr : bytes) : bool :=
  match parseAPIListen addr with
  | Some (Tcp, address) =>
      match SplitHostPort address with
      | None => false
      | Some [] => true
      | Some host => match ParseAddr_zone host with None => false | Some ip => negb (IsLoopback ip) end
      end
  | _ => false
  end.

(** The first check of [run]: whether it goes on. *)
Definition may_listen (apiListen : bytes) (apiAllowRemote : bool) : bool := negb (nonLoopbackAPI apiListen && negb apiAllowRemote).

(** ** The client

    cmd/goisis/main.go.  The flags, the layout of a table and JSON are left to the
    libraries: a command is its arguments and the values of its flags, a table its
    rows of cells. *)

(** [strconv.ParseUint] in base 10. *)
Definition parseUint8 (s : bytes) : option Z :=
  match s with [] => None | _ => v ← Atoi s 0; if 255 <? v then None else Some (u8 v) end.
Definition parseOnOff (s : bytes) : option bool :=
  if bool_decide (s = text "on") then Some true else if bool_decide (s = text "off") then Some false else None.
Definition parseMetricType (s : bytes) : option Z :=
  if bool_decide (s = text "igp" \/ s = []) then Some FlexAlgoMetricIGP
  else if bool_decide (s = text "delay") then Some FlexAlgoMetricMinDelay
  else if bool_decide (s = text "te") then Some FlexAlgoMetricTE else None.

Inductive format : Set := FormatTable | FormatJSON.
Definition outputFormat (s : bytes) : option format :=
  if bool_decide (s = text "json") then Some FormatJSON else if bool_decide (s = text "table" \/ s = []) then Some FormatTable else None.

(** The commands that change the node, and the request each sends. *)
Inductive command : Type :=
  | NeighborClear (interface : string) (system_id : bytes)
  | PrefixAdd (prefix : bytes) (metric : Z)
  | PrefixDelete (prefix : bytes)
  | OverloadSet (arg : bytes)
  | LocatorAdd (prefix : bytes) (algo : Z)
  | LocatorDelete (prefix : bytes)
  | FlexAlgoAdd (algo metric_type : bytes) (priority : Z) (advertise : bool)
  | FlexAlgoDelete (algo : bytes).

Definition request_Overload (arg : bytes) : option request := on ← parseOnOff arg; Some (SetOverloadRequest on).
Definition request_FlexAlgoAdd (algo metric_type : bytes) (priority : Z) (advertise : bool) : option request :=
  a ← parseUint8 algo; mt ← parseMetricType metric_type; Some (AddFlexAlgoRequest a mt priority advertise).
Definition request_FlexAlgoDelete (algo : bytes) : option request := a ← parseUint8 algo; Some (DeleteFlexAlgoRequest a).

Definition request_of (c : command) : option request :=
  match c with
  | NeighborClear interface system_id => Some (ClearAdjacencyRequest interface system_id)
  | PrefixAdd prefix metric => Some (AddPrefixRequest prefix metric)
  | PrefixDelete prefix => Some (DeletePrefixRequest prefix)
  | OverloadSet arg => request_Overload arg
  | LocatorAdd prefix algo => Some (AddLocatorRequest prefix algo)
  | LocatorDelete prefix => Some (DeleteLocatorRequest prefix)
  | FlexAlgoAdd algo metric_type priority advertise => request_FlexAlgoAdd algo metric_type priority advertise
  | FlexAlgoDelete algo => request_FlexAlgoDelete algo
  end.

Definition levelStr (l : ProtoLevel) : bytes := match l with LEVEL_1 => text "L1" | LEVEL_2 => text "L2" | LEVEL_UNSPECIFIED => text "-" end.
Definition prefStr (class : Z) : bytes := if class =? 0 then text "-" else Itoa class.
Definition circuitType (c : CircuitMsg) : bytes := if cm_point_to_point c then text "p2p" else text "lan".
Definition linkState (c : CircuitMsg) : bytes := if cm_link_up c then text "up" else text "down".
Definition circuitLevels (c : CircuitMsg) : bytes :=
  if cm_level1 c && cm_level2 c then text "L1L2" else if cm_level2 c then text "L2" else text "L1".
Definition restartStr (a : AdjacencyMsg) : bytes :=
  if am_restarting a && am_suppressed a then text "restarting,suppressed" else if am_restarting a then text "restarting"
  else if am_suppressed a then text "suppressed" else text "-".
Definition metricTypeStr (mt : Z) : bytes :=
  if u8 mt =? FlexAlgoMetricIGP then text "igp" else if u8 mt =? FlexAlgoMetricMinDelay then text "delay"
  else if u8 mt =? FlexAlgoMetricTE then text "te" else Itoa mt.
Definition nextHops (nhs : list NextHopMsg) : bytes :=
  Join ((fun nh => nm_gateway nh ++ text " (" ++ text (nm_interface nh) ++ text ")") <$> nhs) (text ", ").

(** [%0wx] of a number of 32 bits. *)
Fixpoint hex_digits (n : nat) (x : Z) : bytes := match n with O => [] | S n => hex_digits n (x / 16) ++ [hex_digit (x mod 16)] end.
Fixpoint cut_zeros (n : nat) (s : bytes) : bytes :=
  match n, s with S n, c :: s' => if c =? 48 then cut_zeros n s' else s | _, _ => s end.
Definition hex_padded (w : nat) (x : Z) : bytes := cut_zeros (8 - w) (hex_digits 8 x).

Definition global_text (g : GlobalMsg) : bytes :=
  text "version:   " ++ gm_version g ++ [10] ++ text "system-id: " ++ gm_system_id g ++ [10] ++
  text "overload:  " ++ (if gm_overload g then text "true" else text "false") ++ [10].

Definition circuit_table (cs : list CircuitMsg) : list (list bytes) :=
  [text "INTERFACE"; text "TYPE"; text "LEVELS"; text "PRIORITY"; text "METRIC"; text "LINK"] ::
  ((fun c => [text (cm_interface c); circuitType c; circuitLevels c; Itoa (cm_priority c); Itoa (cm_metric c); linkState c]) <$> cs).
Definition neighbor_table (ads : list AdjacencyMsg) : list (list bytes) :=
  [text "SYSTEM-ID"; text "HOSTNAME"; text "INTERFACE"; text "LEVEL"; text "STATE"; text "SNPA"; text "HOLD"; text "REMAIN"; text "RESTART"] ::
  ((fun a => [am_system_id a; am_hostname a; text (am_interface a); levelStr (am_level a); am_state a; am_snpa a; Itoa (am_holding_time a);
              Itoa (am_holding_remaining a); restartStr a]) <$> ads).
Definition lsp_rows (detail : bool) (l : LspMsg) : list (list bytes) :=
  [lm_lsp_id l; lm_hostname l; levelStr (lm_level l); text "0x" ++ hex_padded 8 (lm_sequence_number l); Itoa (lm_remaining_lifetime l);
   text "0x" ++ hex_padded 4 (lm_checksum l); if lm_own l then text "*" else []] ::
  (if detail then (fun t => [text "  " ++ t]) <$> lm_tlvs l else []).
Definition database_table (detail : bool) (ls : list LspMsg) : list (list bytes) :=
  [text "LSP-ID"; text "HOSTNAME"; text "LEVEL"; text "SEQ"; text "LIFETIME"; text "CHECKSUM"; text "OWN"] :: (ls ≫= lsp_rows detail).
Definition route_table (rs : list RouteMsg) : list (list bytes) :=
  [text "PREFIX"; text "LEVEL"; text "ALGO"; text "PREF"; text "METRIC"; text "NEXT-HOPS"] ::
  ((fun r => [rm_prefix r; levelStr (rm_level r); Itoa (rm_algorithm r); prefStr (rm_preference r); Itoa (rm_metric r);
              nextHops (rm_next_hops r)]) <$> rs).
Definition locator_rows (l : LocatorMsg) : list (list bytes) :=
  [om_prefix l; Itoa (om_algorithm l); om_end_sid l; text "End"; []] ::
  ((fun e => [[]; []; em_sid e; text "End.X"; em_neighbor e ++ text " on " ++ text (em_interface e)]) <$> om_end_x_sids l).
Definition locator_table (ls : list LocatorMsg) : list (list bytes) :=
  [text "PREFIX"; text "ALGO"; text "SID"; text "BEHAVIOR"; text "ADJACENCY"] :: (ls ≫= locator_rows).
Definition flexAlgo_row (fa : FlexAlgoMsg) : list bytes :=
  let '(mt, prio, adv, limits) :=
    match fm_definition fa with
    | None => (text "-", text "-", text "-", text "-")
    | Some d => (metricTypeStr (dm_metric_type d), Itoa (dm_priority d), dm_advertiser d,
                 match dm_constraints d with [] => text "-" | cs => Join cs (text "; ") end)
    end in
  [Itoa (fm_algorithm fa); levelStr (fm_level fa); mt; prio; adv; limits; Join (fm_participants fa) (text ", ")].
Definition flexAlgo_table (fas : list FlexAlgoMsg) : list (list bytes) :=
  [text "ALGO"; text "LEVEL"; text "METRIC-TYPE"; text "PRIORITY"; text "ADVERTISER"; text "CONSTRAINTS"; text "PARTICIPANTS"] ::
  (flexAlgo_row <$> fas).

(** A line of [goisis monitor]. *)
Definition monitor_line (ev : EventMsg) : bytes :=
  match ev with
  | AdjacencyEventMsg a =>
      text "ADJ  " ++ Join [am_system_id a; text (am_interface a); levelStr (am_level a); am_state a; restartStr a] (text " ") ++ [10]
  | RouteEventMsg r withdrawn =>
      (if withdrawn then text "ROUTE-" else text "ROUTE+") ++ text " " ++ rm_prefix r ++ text " metric=" ++ Itoa (rm_metric r) ++ text " " ++
      nextHops (rm_next_hops r) ++ [10]
  end.
