(* ===== verification/IfWatch.v ===== *)
(** pkg/config/ifwatch_linux.go, with [interfaceAddrs] and [connectedPrefixes] of
    config.go: the watcher that follows the host's interfaces and tells the server.

    The subscriptions are the events the loop selects; what the host answers when it
    is asked is a parameter of each event. *)

From stdpp Require Import strings.
From S2P Require Import Prelude.
From S2P Require Import Netip.
From S2P Require Import Restart.
From S2P Require Import Rib.
From S2P Require Import Mutate.
From S2P Require Import Netlink.
From S2P Require Import Reload.
Local Open Scope Z_scope.

(** ** The host *)

Inductive OperState : Set := OperUnknown | OperUp | OperOther (n : Z).

(** netlink.LinkAttrs, as far as the watcher reads it. *)
Record LinkAttrs : Set := mkLinkAttrs { la_Name : string; la_OperState : OperState; la_FlagUp : bool }.

(** The answers of the netlink library and of package net: a link by its name, an
    interface's name by its index, its addresses by its name. *)
Record Host : Type := mkHost {
  host_link : string -> LinkAttrs + Errno;
  InterfaceByIndex : Z -> option string;
  InterfaceAddrs : string -> option (list IPNet)
}.

Definition linkUp (a : LinkAttrs) : bool :=
  match la_OperState a with OperUnknown => la_FlagUp a | OperUp => true | OperOther _ => false end.

(** An address as the loops read it. *)
Definition interface_addr (n : IPNet) : option Addr := Unmap <$> AddrFromSlice (IP n).

Definition interfaceAddrs (h : Host) (name : string) : list Addr * list Addr :=
  let addrs := omap interface_addr (default [] (InterfaceAddrs h name)) in (List.filter Is4 addrs, List.filter Is6 addrs).

Definition connected_prefix (n : IPNet) : option Prefix :=
  match interface_addr n with
  | Some a => if Is6 a && IsLinkLocalUnicast a then None else Some (Masked (PrefixFrom a (Mask_ones (Mask n))))
  | None => None
  end.
Definition connectedPrefixes (h : Host) (name : string) : list Prefix := omap connected_prefix (default [] (InterfaceAddrs h name)).

(** ** The watcher *)

Inductive logged : Set := LogDebug (what name : string) | LogWarn (what name : string).

Definition logPush (what name : string) (e : option opError) : list logged :=
  match e with
  | None => []
  | Some ErrUnknownCircuit => [LogDebug what name]
  | Some _ => [LogWarn what name]
  end.

Section Watcher.
(** [circuitSetter]: the management API, and the circuits it lists; none when the
    server refuses to answer. *)
Context {Y : Type} `{Api Y} (lists : Y -> option (list CircuitInfo)).

Definition push (what name : string) (op : operation) (y : Y) : outcome (Y * list logged) :=
  '(y, e) ← issue op y; mret (y, logPush what name e).

Definition applyAddrEvent (h : Host) (name : string) (y : Y) : outcome (Y * list logged) :=
  let '(v4, v6) := interfaceAddrs h name in
  push "apply interface address change" name (OpSetCircuitAddresses name v4 v6 (connectedPrefixes h name)) y.

Definition applyLinkEvent (name : string) (up : bool) (y : Y) : outcome (Y * list logged) :=
  push "apply interface link change" name (OpSetCircuitLinkState name up) y.

Definition resync_circuit (h : Host) (name : string) (y : Y) : outcome (Y * list logged) :=
  match host_link h name with
  | inr LinkNotFoundError => applyLinkEvent name false y
  | inr _ => mret (y, [LogWarn "resync interface state" name])
  | inl a => '(y, l1) ← applyLinkEvent name (linkUp a) y; '(y, l2) ← applyAddrEvent h name y; mret (y, l1 ++ l2)
  end.

Fixpoint resync_circuits (h : Host) (names : list string) (y : Y) : outcome (Y * list logged) :=
  match names with
  | [] => mret (y, [])
  | name :: names => '(y, l1) ← resync_circuit h name y; '(y, l2) ← resync_circuits h names y; mret (y, l1 ++ l2)
  end.

Definition resyncAll (h : Host) (y : Y) : outcome (Y * list logged) :=
  match lists y with
  | None => mret (y, [LogWarn "resync: cannot read the configured circuits" ""])
  | Some cs => resync_circuits h (ci_Interface <$> cs) y
  end.

(** What the loop selects. *)
Inductive watch_event : Type :=
  | Cancelled
  | ResyncDue
  | AddrChange (index : Z)
  | AddrClosed
  | LinkChange (deleted : bool) (attrs : LinkAttrs)
  | LinkClosed.

(** One turn; [Some ok] when the loop returns, [ok] for no error. *)
Definition watch_turn (h : Host) (ev : watch_event) (y : Y) : outcome (Y * list logged * option bool) :=
  match ev with
  | Cancelled => mret (y, [], Some true)
  | ResyncDue => '(y, l) ← resyncAll h y; mret (y, l, None)
  | AddrClosed | LinkClosed => mret (y, [], Some false)
  | AddrChange i =>
      match InterfaceByIndex h i with
      | None => mret (y, [], None)
      | Some name => '(y, l) ← applyAddrEvent h name y; mret (y, l, None)
      end
  | LinkChange deleted a => '(y, l) ← applyLinkEvent (la_Name a) (negb deleted && linkUp a) y; mret (y, l, None)
  end.

(** [watchLoop], over the events as they come; [None] when it still waits. *)
Fixpoint watchLoop (events : list (Host * watch_event)) (y : Y) : outcome (Y * list logged * option bool) :=
  match events with
  | [] => mret (y, [], None)
  | (h, ev) :: events =>
      '(y, l1, r) ← watch_turn h ev y;
      match r with
      | Some ok => mret (y, l1, Some ok)
      | None => '(y, l2, r) ← watchLoop events y; mret (y, l1 ++ l2, r)
      end
  end.
End Watcher.
