(* ===== verification/Settings.v ===== *)
(** The runtime configuration in the abstract: the locators, the Flexible
    Algorithms and the prefixes a node originates as finite maps, and what each
    operation of pkg/server/mutate.go promises of them.

    [realises] relates them to the lists and the map a node keeps. *)

From stdpp Require Import sorting strings.
From S2P Require Import Prelude.
From S2P Require Import Netip.
From S2P Require Import Ids.
From S2P Require Import Circuit.
From S2P Require Import Server.
From S2P Require Import Rib.
From S2P Require Import EndX.
From S2P Require Import Mutate.
Local Open Scope Z_scope.

Record settings : Type := mkSettings {
  st_locators : gmap Prefix Z;
  st_algos : gmap Z FlexAlgoConfig;
  st_prefixes : gmap Prefix Z
}.

(** Whether an operation is one on the settings. *)
Definition is_setting (op : operation) : bool :=
  match op with
  | OpAddLocator _ | OpDeleteLocator _ | OpAddFlexAlgo _ | OpDeleteFlexAlgo _ | OpAddPrefix _ | OpDeletePrefix _ => true
  | _ => false
  end.

Definition takes_part (st : settings) (a : Z) : bool := (a =? 0) || bool_decide (is_Some (st_algos st !! a)).

(** What an operation does and answers; [conn] says whether a circuit has a subnet
    connected. *)
Definition spec (conn : Prefix -> bool) (op : operation) (st : settings) : settings * option opError :=
  let '(mkSettings locs algos prefixes) := st in
  match op with
  | OpAddLocator (mkLocatorConfig p a) =>
      if negb (Is6 (p_addr p)) || Is4In6 (p_addr p) || negb (takes_part st a) then (st, Some Refusal) else
      match locs !! Masked p with
      | Some b => (st, Some (if b =? a then ErrAlreadyInState else Refusal))
      | None => (mkSettings (<[Masked p := a]> locs) algos prefixes, None)
      end
  | OpDeleteLocator p =>
      match locs !! Masked p with
      | None => (st, Some ErrAlreadyInState)
      | Some _ => (mkSettings (delete (Masked p) locs) algos prefixes, None)
      end
  | OpAddFlexAlgo fa =>
      if FC_Algo fa <? 128 then (st, Some Refusal) else
      match algos !! FC_Algo fa with
      | Some cur => (st, Some (if bool_decide (cur = fa) then ErrAlreadyInState else Refusal))
      | None => (mkSettings locs (<[FC_Algo fa := fa]> algos) prefixes, None)
      end
  | OpDeleteFlexAlgo a =>
      match algos !! a with
      | None => (st, Some ErrAlreadyInState)
      | Some _ =>
          if bool_decide (map_Forall (fun _ b => b <> a) locs) then (mkSettings locs (delete a algos) prefixes, None)
          else (st, Some Refusal)
      end
  | OpAddPrefix (mkAdvertised p m) =>
      if negb (checkAdvertisedPrefix (mkAdvertised p m)) then (st, Some Refusal) else
      match prefixes !! Masked p with
      | Some cur => (st, Some (if cur =? m then ErrAlreadyInState else Refusal))
      | None => (mkSettings locs algos (<[Masked p := m]> prefixes), None)
      end
  | OpDeletePrefix p =>
      match prefixes !! Masked p with
      | None => (st, Some (if conn (Masked p) then Refusal else ErrAlreadyInState))
      | Some _ => (mkSettings locs algos (delete (Masked p) prefixes), None)
      end
  | _ => (st, None)
  end.

(** ** Lists keyed like maps *)

Section Keyed.
Context {A K V : Type} `{Countable K} (k : A -> K) (v : A -> V).

Definition keyed (l : list A) (m : gmap K V) : Prop :=
  NoDup (k <$> l) /\ forall x y, m !! x = Some y <-> exists a, a ∈ l /\ k a = x /\ v a = y.

Lemma keyed_None l m x : keyed l m -> list_find (fun a => k a = x) l = None -> m !! x = None.
Proof.
  intros [_ Hm] Hf%list_find_None. destruct (m !! x) as [y|] eqn:E; [|done]. apply Hm in E as (a & Ha & Hk & _).
  rewrite Forall_forall in Hf. by destruct (Hf a Ha).
Qed.

Lemma keyed_Some l m x i a : keyed l m -> list_find (fun a => k a = x) l = Some (i, a) -> m !! x = Some (v a).
Proof. intros [_ Hm] (Hi & Hk & _)%list_find_Some. apply Hm. exists a. by split; [eapply list_elem_of_lookup_2|]. Qed.

Lemma keyed_snoc l m a : keyed l m -> m !! k a = None -> keyed (l ++ [a]) (<[k a := v a]> m).
Proof.
  intros [Hd Hm] Hn. assert (Hno : forall b, b ∈ l -> k b <> k a).
  { intros b Hb E. assert (m !! k a = Some (v b)) by (apply Hm; by exists b). congruence. }
  split.
  - rewrite fmap_app, NoDup_app. split_and!; [done| |apply NoDup_singleton]. intros x Hx.
    apply list_elem_of_fmap in Hx as (b & -> & Hb). change (k <$> [a]) with [k a]. rewrite list_elem_of_singleton. by apply Hno.
  - intros x y. rewrite lookup_insert_Some, Hm. split.
    + intros [[<- <-]|[Hx (b & Hb & E)]]; [exists a|exists b]; (split; [apply elem_of_app|done]); [right; by apply list_elem_of_singleton|by left].
    + intros (b & [Hb|Hb%list_elem_of_singleton]%elem_of_app & <- & <-); [right|left; by subst]. split; [by apply not_eq_sym, Hno|by exists b].
Qed.

Lemma keyed_delete l m x i a : keyed l m -> list_find (fun a => k a = x) l = Some (i, a) -> keyed (delete i l) (delete x m).
Proof.
  intros [Hd Hm] (Hi & Hk & _)%list_find_Some. pose proof (delete_Permutation l i a Hi) as Hp.
  rewrite Hp in Hd. cbn [fmap list_fmap] in Hd. apply NoDup_cons in Hd as [Hna Hd].
  split; [done|]. intros z y. rewrite lookup_delete_Some, Hm. split.
  - intros [Hz (b & Hb & <- & <-)]. exists b. split_and!; [|done..]. rewrite Hp in Hb. apply elem_of_cons in Hb as [-> |Hb]; [by destruct Hz|done].
  - intros (b & Hb & <- & <-). split; [intros E; apply Hna; rewrite Hk, E; by apply list_elem_of_fmap_2|].
    exists b. split_and!; [|done..]. rewrite Hp. by apply elem_of_cons; right.
Qed.

Lemma keyed_all (P : V -> Prop) l m : keyed l m -> map_Forall (fun _ y => P y) m <-> Forall (fun a => P (v a)) l.
Proof.
  intros [_ Hm]. rewrite Forall_forall. split; [intros Hf a Ha; apply (Hf (k a)), Hm; by exists a|].
  intros Hf x y (a & Ha & _ & <-)%Hm. by apply Hf.
Qed.
End Keyed.

Section Realises.
Context {F : Type}.

Definition loc_key (lc : SRv6LocatorConfig) : Prefix := Masked (LC_Prefix lc).

Record realises (b : RIB F) (st : settings) : Prop := {
  rl_locators : keyed loc_key LC_Algo (locators b) (st_locators st);
  rl_algos : keyed FC_Algo id (flexAlgos b) (st_algos st);
  rl_prefixes : AP_Metric <$> optionPrefixes b = st_prefixes st
}.

(** Whether a circuit has a subnet connected, as [DeletePrefix] asks. *)
Definition is_connected (n : Node F) (p : Prefix) : bool :=
  existsb (fun c => bool_decide (p ∈ default [] (circuitPrefixes n !! Name (cfg c)))) (circuits (core n)).
End Realises.
