(* ===== verification/TextSpec.v ===== *)
(** What the textual parsers accept: well-formed addresses and prefixes, and the
    network entity titles the server prints. *)

From stdpp Require Import strings.
From S2P Require Import Prelude.
From S2P Require Import Netip.
From S2P Require Import Ids.
From S2P Require Import Spf.
From S2P Require Import EndX.
From S2P Require Import Text.
Local Open Scope Z_scope.

(** ** Digits *)

Lemma decimal_value_bounds c d : decimal_value c = Some d -> 0 <= d <= 9.
Proof. unfold decimal_value. destruct (_ && _) eqn:E; [intros [= <-]|done]. lia. Qed.

Lemma hex_value_bounds c d : hex_value c = Some d -> 0 <= d <= 15.
Proof.
  unfold hex_value. repeat case_match; intros Hd; try discriminate; injection Hd as Hd; lia.
Qed.

Lemma Atoi_nonneg s acc n : 0 <= acc -> Atoi s acc = Some n -> 0 <= n.
Proof.
  revert acc. induction s as [|c s IH]; intros acc Ha; cbn [Atoi]; [by intros [= <-]|].
  intros (d & Hd%decimal_value_bounds & Hs)%bind_Some. eapply (IH (10 * acc + d)); [lia|done].
Qed.

(** ** Addresses *)

Lemma parseIPv4Fields_ok s first dotted fields val digLen b :
  (length fields <= 3)%nat -> bytes_ok fields -> byte_ok val ->
  parseIPv4Fields s first dotted fields val digLen = Some b -> arr 4 b.
Proof.
  revert first dotted fields val digLen. induction s as [|c s IH]; intros first dotted fields val digLen Hl Hf Hv; cbn [parseIPv4Fields].
  - destruct (Nat.ltb_spec (length fields) 3); [done|]. intros [= <-].
    split; [rewrite length_app; cbn; lia|]. apply Forall_app; split; [done|by constructor].
  - destruct (decimal_value c) as [d|] eqn:Ed.
    + destruct (_ && _); [done|]. destruct (Z.ltb_spec 255 (val * 10 + d)); [done|]. apply IH; [done..|].
      apply decimal_value_bounds in Ed. unfold byte_ok in *. lia.
    + destruct (negb _); [done|]. destruct (_ || _); [done|]. destruct (Nat.eqb_spec (length fields) 3); [done|].
      apply IH; [rewrite length_app; cbn; lia| |done]. apply Forall_app; split; [done|by constructor].
Qed.

Lemma parseIPv4_ok s b : parseIPv4 s = Some b -> arr 4 b.
Proof. apply parseIPv4Fields_ok; [cbn; lia|constructor|done]. Qed.

Lemma hex_run_bounds s acc off r k :
  0 <= acc < 16 ^ Z.of_nat off -> hex_run s acc off = (r, k) -> 0 <= r < 16 ^ Z.of_nat k.
Proof.
  revert acc off. induction s as [|c s IH]; intros acc off Ha; cbn [hex_run]; [by intros [= <- <-]|].
  destruct (hex_value c) as [d|] eqn:Ed; [|by intros [= <- <-]]. apply IH. apply hex_value_bounds in Ed.
  rewrite Nat2Z.inj_succ, Z.pow_succ_r by lia. lia.
Qed.

Lemma hex_group s acc off : hex_run s 0 0 = (acc, off) -> (off <= 4)%nat -> byte_ok (acc / 256) /\ byte_ok (acc mod 256).
Proof.
  intros Hr%hex_run_bounds Ho; [|cbn; lia]. assert (16 ^ Z.of_nat off <= 16 ^ 4) by (apply Z.pow_le_mono_r; lia).
  change (16 ^ 4) with 65536 in *. unfold byte_ok. split; [|apply Z.mod_pos_bound; lia].
  split; [apply Z.div_pos; lia|apply Z.div_lt_upper_bound; lia].
Qed.

Lemma v6_loop_ok n s ip e ip' e' rest :
  (length ip + 2 * n <= 16)%nat -> bytes_ok ip -> v6_loop n s ip e = Some (ip', e', rest) -> (length ip' <= 16)%nat /\ bytes_ok ip'.
Proof.
  revert s ip e. induction n as [|n IH]; intros s ip e Hl Hb; cbn [v6_loop]; [intros [= <- <- <-]; split; [lia|done]|].
  destruct (hex_run s 0 0) as [acc off] eqn:Eh. destruct (_ || _) eqn:Eo; [done|].
  destruct (hex_group s acc off Eh) as [B1 B2]; [lia|].
  assert (Hg : length (ip ++ [acc / 256; acc mod 256]) = (length ip + 2)%nat /\ bytes_ok (ip ++ [acc / 256; acc mod 256])).
  { rewrite length_app. split; [done|]. apply Forall_app; split; [done|]. by apply Forall_cons_2, Forall_cons_2. }
  destruct Hg as [Hgl Hgb]. destruct (drop off s) as [|c t]; [intros [= <- <- <-]; split; [lia|done]|].
  destruct (c =? dot).
  - destruct (_ && _); [done|]. destruct (Nat.ltb_spec 16 (length ip + 4)); [done|].
    intros (f & [Hfl Hf]%parseIPv4_ok & [= <- <- <-])%bind_Some. rewrite length_app. split; [lia|]. by apply Forall_app.
  - destruct (negb _); [done|]. destruct t as [|d t]; [done|]. destruct (d =? colon).
    + destruct e; [done|]. destruct t; [intros [= <- <- <-]; split; [lia|done]|apply IH; [lia|done]].
    + apply IH; [lia|done].
Qed.

Lemma parseIPv6_ok s b : parseIPv6 s = Some b -> arr 16 b.
Proof.
  unfold parseIPv6. cbv zeta. destruct (_ && _); [intros [= <-]; split; [done|by apply (Forall_replicate byte_ok 16 0)]|].
  intros ([[ip e] rest] & Hv & He)%bind_Some. apply v6_loop_ok in Hv as [Hl Hb]; [|cbn; lia|constructor].
  case_bool_decide; [|done]. unfold expand in He. cbv zeta in He. destruct e as [e|]; destruct (Nat.ltb_spec (length ip) 16); try done; injection He as <-.
  - split; [|apply Forall_app; split; [by apply Forall_take|apply Forall_app; split;
      [apply Forall_replicate; unfold byte_ok; lia|by apply Forall_drop]]].
    rewrite !length_app, length_take, length_replicate, length_drop. lia.
  - split; [lia|done].
Qed.

Lemma ParseAddr_ok s a : ParseAddr s = Some a -> addr_ok a /\ IsValid a = true.
Proof.
  unfold ParseAddr. generalize s at 1 as c. induction c as [|x c IH]; cbn [ParseAddr_at]; [done|].
  destruct (x =? dot); [intros (b & Hb%parseIPv4_ok & ->)%fmap_Some; done|].
  destruct (x =? colon); [intros (b & Hb%parseIPv6_ok & ->)%fmap_Some; done|exact IH].
Qed.

(** A prefix of net/netip with a length in range. *)
Definition prefix_ok (p : Prefix) : Prop := addr_ok (p_addr p) /\ IsValid (p_addr p) = true /\ 0 <= p_bits p <= BitLen (p_addr p).

Lemma ParsePrefix_ok s p : ParsePrefix s = Some p -> prefix_ok p.
Proof.
  unfold ParsePrefix. intros ([a bits] & _ & Hp)%bind_Some. case_bool_decide; [done|].
  apply bind_Some in Hp as (ip & [Ha Hv]%ParseAddr_ok & Hp). destruct bits as [|b more]; [done|].
  destruct (_ && _); [done|]. apply bind_Some in Hp as (n & Hn%Atoi_nonneg & Hp); [|done].
  destruct (Z.ltb_spec (BitLen ip) n); [done|]. injection Hp as <-. unfold prefix_ok, PrefixFrom. cbn [p_addr p_bits].
  rewrite Hv, (proj2 (Z.leb_le 0 n)), (proj2 (Z.leb_le n (BitLen ip))) by lia. done.
Qed.

Lemma mask_addr_ok n a : addr_ok a -> addr_ok (mask_addr n a).
Proof. destruct a as [|b|b]; [done|..]; intros [Hl Hb]; (split; [by rewrite length_mask_bytes|by apply mask_bytes_ok]). Qed.

(** A well-formed prefix is masked as one, of the same family and length. *)
Lemma Masked_ok p : prefix_ok p -> Masked p = mkPrefix (mask_addr (p_bits p) (p_addr p)) (p_bits p) /\ prefix_ok (Masked p).
Proof.
  destruct p as [a n]. unfold prefix_ok, Masked. cbn [p_addr p_bits]. intros (Ha & Hv & Hn).
  rewrite Hv, (proj2 (Z.ltb_ge n 0)), (proj2 (Z.ltb_ge (BitLen a) n)) by lia. cbn [orb negb p_addr p_bits]. split; [done|].
  split; [by apply mask_addr_ok|]. destruct a; done.
Qed.

(** ** Network entity titles *)

Definition undot (s : bytes) : bytes := List.filter (fun c => negb (c =? dot)) s.

Lemma undot_app a b : undot (a ++ b) = undot a ++ undot b.
Proof. apply List.filter_app. Qed.

Lemma hex_digit_value n : 0 <= n < 16 -> hex_value (hex_digit n) = Some n /\ hex_digit n <> dot.
Proof.
  intros Hn. unfold hex_value, hex_digit, dot. destruct (Z.ltb_spec n 10).
  - rewrite (proj2 (andb_true_iff _ _)) by lia. split; [f_equal; lia|lia].
  - rewrite (proj2 (andb_false_iff (48 <=? 87 + n) _)) by (right; lia). rewrite (proj2 (andb_true_iff _ _)) by lia. split; [f_equal; lia|lia].
Qed.

Lemma octet_digits x : byte_ok x -> 0 <= x / 16 < 16 /\ 0 <= x mod 16 < 16.
Proof. unfold byte_ok. intros Hx. pose proof (Z.div_lt_upper_bound x 16 16). pose proof (Z.div_pos x 16). pose proof (Z.mod_pos_bound x 16). lia. Qed.

Lemma undot_octet x : byte_ok x -> undot (hex_octet x) = hex_octet x.
Proof.
  intros [H1 H2]%octet_digits. apply hex_digit_value in H1 as [_ N1]. apply hex_digit_value in H2 as [_ N2]. unfold undot, hex_octet. cbn [List.filter].
  rewrite (proj2 (Z.eqb_neq _ _) N1), (proj2 (Z.eqb_neq _ _) N2). done.
Qed.

Lemma undot_area i a : bytes_ok a -> undot (area_octets i a) = concat (map hex_octet a).
Proof.
  intros Ha. revert i. induction Ha as [|x a Hx _ IH]; intros i; [done|]. cbn [area_octets map concat].
  rewrite !undot_app, undot_octet, IH by done. by destruct (_ =? _)%nat.
Qed.

Lemma undot_id id : arr 6 id -> undot (SystemID_String id) = concat (map hex_octet id).
Proof.
  intros [Hl Hb]. do 7 (destruct id as [|? id]; try discriminate). unfold SystemID_String. change 46 with dot.
  repeat (apply Forall_cons in Hb as [? Hb]). rewrite !undot_app, !undot_octet by done. done.
Qed.

Lemma decode_octets b : bytes_ok b -> DecodeString (concat (map hex_octet b)) = Some b.
Proof.
  intros Hb. induction Hb as [|x b Hx _ IH]; [done|]. cbn [map concat hex_octet app DecodeString].
  apply octet_digits in Hx as [H1 H2]. rewrite (proj1 (hex_digit_value _ H1)), (proj1 (hex_digit_value _ H2)), IH.
  cbn [mbind option_bind]. do 2 f_equal. pose proof (Z.div_mod x 16). lia.
Qed.

(** The network entity title a server reports is the one it could be
    configured with: [ParseNET] reads back from the text of [netString] the first
    area address, of one to thirteen octets, and the system ID. *)
Theorem net_roundtrip a areas id :
  bytes_ok a -> (1 <= length a <= 13)%nat -> arr 6 id -> ParseNET (netString (a :: areas) id) = Some (a, id).
Proof.
  intros Ha Hl Hi. unfold ParseNET, netString. fold (undot (AreaAddress_String a ++ [dot] ++ SystemID_String id ++ [dot; 48; 48])).
  assert (Eu : undot (AreaAddress_String a ++ [dot] ++ SystemID_String id ++ [dot; 48; 48]) = concat (map hex_octet (a ++ id ++ [0]))).
  { rewrite !undot_app. unfold AreaAddress_String. rewrite undot_area, undot_id by done. rewrite !map_app, !concat_app. done. }
  rewrite Eu, decode_octets; [|apply Forall_app; split; [done|apply Forall_app; split; [apply Hi|by constructor]]].
  destruct Hi as [Hli _]. cbn [mbind option_bind]. cbv zeta. rewrite !length_app, Hli. cbn [length].
  rewrite (proj2 (orb_false_iff _ _)) by (split; apply Nat.ltb_ge; lia).
  replace (length a + (6 + 1) - 1)%nat with (length a + 6)%nat by lia. replace (length a + (6 + 1) - 7)%nat with (length a) by lia.
  rewrite app_nth2 by lia. rewrite app_nth2 by lia. replace (length a + 6 - length a - length id)%nat with 0%nat by lia.
  cbn [nth Z.eqb negb]. rewrite take_app_length, drop_app_length. do 2 f_equal. rewrite <- Hli. by rewrite take_app_length.
Qed.

Lemma net_roundtrip_witness : ParseNET (netString [[73; 0; 1]] [0; 0; 0; 0; 0; 10]) = Some ([73; 0; 1], [0; 0; 0; 0; 0; 10]).
Proof.
  apply (net_roundtrip [73; 0; 1] [] [0; 0; 0; 0; 0; 10]); [|cbn; lia|split; [done|]].
  all: repeat constructor; unfold byte_ok; lia.
Defined.
