(* ===== verification/SummarySpec.v ===== *)
(** What a listing of the database shows: text of one line, valid UTF-8 and free of
    control characters, whatever the LSPs of other systems hold. *)

From stdpp Require Import sorting strings.
From S2P Require Import Prelude.
From S2P Require Import Codec.
From S2P Require Import Framing.
From S2P Require Import Netip.
From S2P Require Import Ids.
From S2P Require Import Sid.
From S2P Require Import SubTLV.
From S2P Require Import Entries.
From S2P Require Import Locator.
From S2P Require Import Tlv.
From S2P Require Import Pdu.
From S2P Require Import Circuit.
From S2P Require Import Lsdb.
From S2P Require Import Restart.
From S2P Require Import Server.
From S2P Require Import FlexAlgo.
From S2P Require Import Spf.
From S2P Require Import Rib.
From S2P Require Import EndX.
From S2P Require Import Mutate.
From S2P Require Import Text.
From S2P Require Import TextSpec.
From S2P Require Import Query.
Local Open Scope Z_scope.

Create HintDb shown discriminated.
#[local] Hint Resolve shown_nil shown_app : shown.

(** A text is shown if its parts are. *)
Ltac shows := repeat match goal with |- shown (_ ++ _) => apply shown_app end.

Lemma shown_literal s : forallb (within 32 126) s = true -> shown s.
Proof.
  intros H. apply shown_ascii, Forall_forall. intros c Hc%list_elem_of_In. rewrite forallb_forall in H.
  specialize (H c Hc). unfold within in H. lia.
Qed.

(** A literal evaluates. *)
#[local] Hint Extern 2 (shown (text _)) => (apply shown_literal; reflexivity) : shown.

Lemma displayString_shown s : shown (displayString s).
Proof.
  apply Map_shown. intros r Hr. destruct (IsControl r) eqn:E; [by apply shown_literal|].
  rewrite <- (app_nil_r r). constructor; [done|done|constructor].
Qed.

(** Text that may be shown is shown as it is. *)
Lemma displayString_id s : shown s -> displayString s = s.
Proof.
  intros Hs. unfold displayString. rewrite (ToValid_id s Hs). apply Map_id; [|done]. intros r _ Hc. by rewrite Hc.
Qed.

(** ** Numbers and identifiers *)

Lemma shown_decimal x : 0 <= x < 10 -> shown [48 + x].
Proof. intros Hx. apply shown_one. lia. Qed.

Lemma shown_digits n x : 0 <= x -> shown (digits n x).
Proof.
  revert x. induction n as [|n IH]; intros x Hx; cbn [digits]; [constructor|]. apply shown_app.
  - destruct (x <? 10); [constructor|]. apply IH. by apply Z.div_pos.
  - apply shown_decimal. by apply Z.mod_pos_bound.
Qed.

Lemma shown_Itoa x : 0 <= x -> shown (Itoa x).
Proof. apply shown_digits. Qed.

Lemma shown_length {A} (l : list A) : shown (Itoa (Z.of_nat (length l))).
Proof. apply shown_Itoa. lia. Qed.
#[local] Hint Resolve displayString_shown shown_Itoa shown_length : shown.

Lemma shown_hex n : 0 <= n < 16 -> shown [hex_digit n].
Proof. intros Hn. apply shown_one. unfold hex_digit. destruct (n <? 10) eqn:E; lia. Qed.

Lemma shown_octet x : byte_ok x -> shown (hex_octet x).
Proof. intros [H1 H2]%octet_digits. apply (shown_app [_] [_]); by apply shown_hex. Qed.

Lemma shown_octets b : bytes_ok b -> shown (concat (map hex_octet b)).
Proof. intros Hb. apply shown_concat. apply Forall_map. eapply Forall_impl; [exact Hb|]. apply shown_octet. Qed.

Lemma shown_id id : arr 6 id -> shown (SystemID_String id).
Proof.
  intros [Hl Hb]. do 7 (destruct id as [|? id]; try discriminate). unfold SystemID_String. repeat (apply Forall_cons in Hb as [? Hb]).
  shows; try (by apply shown_octet); by apply shown_literal.
Qed.

Lemma shown_node n : arr 7 n -> shown (NodeID_String n).
Proof.
  intros [Hl Hb]. unfold NodeID_String. shows; [|by apply shown_literal|].
  - apply shown_id. split; [unfold NodeID_SystemID; rewrite length_take; lia|by apply Forall_take].
  - apply shown_octet. do 8 (destruct n as [|? n]; try discriminate). repeat (apply Forall_cons in Hb as [? Hb]). done.
Qed.

Lemma shown_area i a : bytes_ok a -> shown (area_octets i a).
Proof.
  intros Ha. revert i. induction Ha as [|x a Hx _ IH]; intros i; cbn [area_octets]; [constructor|]. apply shown_app; [|apply shown_app; [by apply shown_octet|apply IH]].
  destruct (_ =? _)%nat; [by apply shown_literal|constructor].
Qed.

(** ** Addresses *)

Lemma shown_decimal_octet x : byte_ok x -> shown (decimal_octet x).
Proof.
  unfold byte_ok. intros Hx. unfold decimal_octet. shows.
  - destruct (100 <=? x) eqn:E; [|constructor]. apply shown_decimal. split; [apply Z.div_pos; lia|apply Z.div_lt_upper_bound; lia].
  - destruct (10 <=? x); [|constructor]. apply shown_decimal. by apply Z.mod_pos_bound.
  - apply shown_decimal. by apply Z.mod_pos_bound.
Qed.

Lemma shown_string4 b : bytes_ok b -> shown (string4 b).
Proof.
  intros Hb. destruct b as [|w [|x [|y [|z [|v b]]]]]; try exact shown_nil. repeat (apply Forall_cons in Hb as [? Hb]). cbn [string4].
  shows; try (by apply shown_decimal_octet); by apply shown_literal.
Qed.

Lemma shown_string_hex x : 0 <= x < 65536 -> shown (string_hex x).
Proof.
  intros Hx. unfold string_hex. shows; try (case_match; [|constructor]); apply shown_hex;
    first [by apply Z.mod_pos_bound | split; [apply Z.div_pos; lia|apply Z.div_lt_upper_bound; lia]].
Qed.

Lemma hextets_ok b : bytes_ok b -> Forall (fun x => 0 <= x < 65536) (hextets b).
Proof.
  unfold bytes_ok, byte_ok. intros Hb. remember (length b) as n eqn:E. revert b Hb E. induction n as [n IH] using lt_wf_ind. intros b Hb ->.
  destruct b as [|x [|y b]]; cbn [hextets]; [constructor..|]. apply Forall_cons in Hb as [Hx [Hy Hb]%Forall_cons].
  constructor; [lia|]. eapply (IH (length b)); [cbn; lia|done|done].
Qed.

Lemma shown_string6 n i start stop h : Forall (fun x => 0 <= x < 65536) h -> shown (string6_loop n i start stop h).
Proof.
  intros Hh. assert (Hn : forall k, shown (string_hex (nth k h 0))).
  { intros k. apply shown_string_hex. rewrite <- nth_default_eq. unfold nth_default. destruct (nth_error h k) as [x|] eqn:E; [|lia].
    rewrite Forall_forall in Hh. apply Hh. apply list_elem_of_In. by eapply nth_error_In. }
  revert i. induction n as [|n IH]; intros i; cbn [string6_loop]; [constructor|]. destruct (_ <=? _)%nat; [constructor|]. destruct (_ =? _)%nat.
  - apply (shown_app [58; 58]); [by apply shown_literal|]. destruct (_ <=? _)%nat; [constructor|]. by apply shown_app.
  - apply shown_app; [destruct (_ <? _)%nat; [by apply shown_literal|constructor]|]. by apply shown_app.
Qed.

Lemma shown_addr a : addr_ok a -> shown (Addr_String a).
Proof.
  destruct a as [|b|b]; cbn [addr_ok Addr_String]; [intros _; by apply shown_literal|intros [_ Hb]; by apply shown_string4|]. intros [_ Hb].
  destruct (Is4In6 _).
  - apply (shown_app [58; 58; 102; 102; 102; 102; 58]); [by apply shown_literal|]. by apply shown_string4, Forall_drop.
  - cbv zeta. by apply shown_string6, hextets_ok.
Qed.

Lemma shown_prefix p : addr_ok (p_addr p) -> 0 <= p_bits p -> shown (Prefix_String p).
Proof.
  intros Ha Hb. unfold Prefix_String. destruct (PrefixIsValid p); [|by apply shown_literal].
  shows; [by apply shown_addr|by apply shown_literal|by apply shown_Itoa].
Qed.

Lemma shown_join l sep : shown sep -> Forall shown l -> shown (Join l sep).
Proof.
  intros Hs Hl. induction Hl as [|p l Hp Hl IH]; [constructor|]. destruct l as [|q l]; [done|]. cbn [Join] in *. shows; done.
Qed.

(** ** Lines *)

Lemma shown_tag m : mtid_ok m -> shown (mtTag m).
Proof. intros Hm. unfold mtTag. shows; [by apply shown_literal|apply shown_Itoa; apply Hm|by apply shown_literal]. Qed.

Lemma shown_isReach label e : shown label -> ISReach_ok e -> shown (isReachSummary label e).
Proof.
  intros Hl (Hn & Hm & _). unfold isReachSummary. shows; try (by apply shown_literal); [done|by apply shown_node|apply shown_Itoa; lia|].
  destruct (_ <? _)%nat; [|constructor]. shows; [by apply shown_literal|apply shown_length|by apply shown_literal].
Qed.

Lemma shown_prefixSummary p m d : addr_ok (p_addr p) -> 0 <= p_bits p -> 0 <= m -> shown (prefixSummary p m d).
Proof.
  intros Ha Hb Hm. unfold prefixSummary. shows; [by apply shown_prefix|by apply shown_literal|by apply shown_Itoa|].
  destruct d; [by apply shown_literal|constructor].
Qed.

Lemma shown_ip_line label e : shown label -> IPReach_ok e -> shown (ip_line label e).
Proof.
  intros Hl ([Hm _] & (full & Hp & Ha & Hb & _) & _). unfold ip_line. shows; [done|by apply shown_literal|].
  apply shown_prefixSummary; [by rewrite Hp|lia|done].
Qed.

Lemma shown_ip6_line label e : shown label -> IPv6Reach_ok e -> shown (ip6_line label e).
Proof.
  intros Hl ([Hm _] & (full & Hp & Ha & Hb & _) & _). unfold ip6_line. shows; [done|by apply shown_literal|].
  apply shown_prefixSummary; [by rewrite Hp|lia|done].
Qed.

Lemma shown_topology e : mtid_ok (MT_MTID e) -> shown (topology_id e).
Proof.
  intros [Hm _]. unfold topology_id. shows; [by apply shown_Itoa|..]; (case_match; [by apply shown_literal|constructor]).
Qed.

Lemma shown_locator l : Locator_ok l -> shown (locator_line l).
Proof.
  intros ([Hm _] & _ & [Ha _] & (full & Hp & Hf & Hb & _) & Hs & _). unfold locator_line.
  shows; try (by apply shown_literal); [apply shown_prefix; [by rewrite Hp|lia]|by apply shown_Itoa|by apply shown_Itoa|].
  apply shown_concat, Forall_map. eapply Forall_impl; [exact Hs|]. intros e (_ & _ & (b & Eb & Hb') & _). apply shown_app; [by apply shown_literal|].
  rewrite Eb. by apply shown_addr.
Qed.

(** ** Capabilities and constraints *)

Lemma shown_capability ctx s l : sub_ok ctx s -> capability s = Some l -> shown l.
Proof.
  intros Hs. assert (Ht : typed_ok s \/ capability s = None) by (destruct s; [by right|..]; left; apply Hs). destruct Ht as [Ht| ->]; [|done].
  destruct s; cbn [capability]; try done; intros <-%(inj Some); cbn [typed_ok leaf_ok] in Ht.
  - shows; [by apply shown_literal|]. apply shown_join; [by apply shown_literal|]. apply Forall_map. eapply Forall_impl; [exact Ht|].
    intros x [Hx _]. by apply shown_Itoa.
  - destruct Ht as ([H1 _] & [H2 _] & _ & [H4 _] & _). shows; try (by apply shown_literal); try (by apply shown_Itoa).
    unfold flexAlgoMetricName. repeat (case_match; [by apply shown_literal|]). by apply shown_Itoa.
  - by apply shown_literal.
Qed.

Lemma shown_routerCap r : RouterCapability_ok r -> shown (routerCapSummary r).
Proof.
  intros ((b & Hr & Ha) & _ & Hs). unfold routerCapSummary. apply shown_join; [by apply shown_literal|]. rewrite Hr.
  apply Forall_app. split; [apply Forall_singleton; by apply shown_literal|]. apply Forall_app. split.
  - destruct (_ && _); [|constructor]. apply Forall_singleton. apply shown_app; [by apply shown_literal|]. by apply shown_addr.
  - apply Forall_forall. intros l Hl. apply list_elem_of_omap in Hl as (s & Hin & Hc). rewrite Forall_forall in Hs. by eapply shown_capability; [apply Hs|].
Qed.

Lemma words_ok v ws : bytes_ok v -> (length v <= 255)%nat -> flexAlgoWords v = Some ws -> Forall u32_ok ws.
Proof.
  unfold flexAlgoWords. intros Hv Hl. destruct (_ || _); [done|]. destruct (loop_chunks 4 admin_unit v) as [ws'| |] eqn:E; [|done..]. intros [= <-].
  by apply (value_fix (Value := admin_units_chunks) v ws').
Qed.

Lemma shown_adminGroup name v l : shown name -> bytes_ok v -> (length v <= 255)%nat -> adminGroupSummary name v = Some l -> shown l.
Proof.
  intros Hn Hv Hl. unfold adminGroupSummary. destruct (flexAlgoWords v) as [ws|]; [|done]. intros <-%(inj Some).
  shows; [done|by apply shown_literal|]. apply shown_join; [by apply shown_literal|]. apply Forall_map, Forall_true. intros w.
  apply shown_app; [by apply shown_literal|]. apply shown_octets. unfold put32. repeat constructor; apply Z.mod_pos_bound; lia.
Qed.

Lemma shown_flags v : shown (flexAlgoFlagNames v).
Proof.
  unfold flexAlgoFlagNames. assert (Hn : Forall shown (concat (imap (fun i b => concat (map (flag_name i b) (seq 0 8))) v))).
  { apply Forall_concat, Forall_forall. intros l Hl. apply elem_of_lookup_imap in Hl as (i & b & -> & _).
    apply Forall_concat, Forall_map, Forall_true. intros bit. unfold flag_name. cbv zeta. destruct (_ =? 0); [constructor|].
    destruct (_ && _); apply Forall_singleton; [by apply shown_literal|]. apply shown_app; [by apply shown_literal|]. apply shown_Itoa. lia. }
  destruct (concat _) as [|p l]; [by apply shown_literal|]. apply shown_join; [by apply shown_literal|exact Hn].
Qed.

(** The constraints of a definition, as the flex-algo listing shows them. *)
Lemma shown_constraint ss : fad_frame_ok ss -> (length (SubSubValue ss) <= 255)%nat -> shown (flexAlgoConstraintSummary ss).
Proof.
  intros [[Ht _] Hv] Hl. unfold flexAlgoConstraintSummary. cbv zeta.
  assert (Hp : shown (plain_constraint ss)) by (unfold plain_constraint; shows; try (by apply shown_literal); [by apply shown_Itoa|apply shown_length]).
  match goal with |- shown (default _ ?o) => enough (Ho : forall l, o = Some l -> shown l) by (destruct o; [by apply Ho|exact Hp]) end.
  intros l. repeat (case_match; [try (by apply shown_adminGroup; [apply shown_literal|..])|]); try done.
  - intros <-%(inj Some). apply shown_app; [by apply shown_literal|apply shown_flags].
  - destruct (flexAlgoWords _) as [ws|] eqn:E; [|done]. intros <-%(inj Some). apply words_ok in E; [|done..]. shows; [by apply shown_literal|].
    apply shown_join; [by apply shown_literal|]. apply Forall_map. eapply Forall_impl; [exact E|]. intros w [Hw _]. by apply shown_Itoa.
Qed.

(** ** TLVs *)

Definition rendered (m : outcome (list bytes)) : Prop := exists lines, m = Ok lines /\ Forall shown lines.

Lemma rendered_one (m : outcome bytes) : (exists l, m = Ok l /\ shown l) -> rendered (one m).
Proof. intros (l & -> & Hl). exists [l]. split; [done|]. by apply Forall_singleton. Qed.

Lemma rendered_lines ls : Forall shown ls -> rendered (mret ls).
Proof. intros Hl. by exists ls. Qed.

Lemma rendered_map {A} (f : A -> bytes) (P : A -> Prop) xs : (forall x, P x -> shown (f x)) -> Forall P xs -> rendered (mret (f <$> xs)).
Proof. intros Hf Hx. apply rendered_lines, Forall_map. by eapply Forall_impl. Qed.

(** A TLV as the codec reads it, which it can write again. *)
Definition listable (t : TLV) : Prop := tlv_body_ok t /\ exists b, TLV_Serialize t = Ok b.

Lemma TLV_Type_ok t : tlv_body_ok t -> 0 <= TLV_Type t.
Proof. destruct t; cbn; try (intros; done). by intros [[H _] _]. Qed.

Lemma rendered_raw t : listable t -> rendered (one (rawTLVSummary t)).
Proof.
  intros [Hok [b Hb]]. apply rendered_one. unfold rawTLVSummary. rewrite Hb. eexists. split; [reflexivity|]. apply TLV_Type_ok in Hok.
  unfold TLV_Serialize in Hb. apply bind_Ok in Hb as (v & _ & Hb). unfold encodeTLV in Hb. apply encodeTLV_Ok in Hb as [_ ->].
  shows; try (by apply shown_literal); apply shown_Itoa; [done|]. cbn [length]. lia.
Qed.

Lemma originators_ok n i v : bytes_ok v -> (1 + (i + n) * 6 <= length v)%nat -> exists ids, originators n i v = Ok ids /\ Forall shown ids.
Proof.
  intros Hv. revert i. induction n as [|n IH]; intros i Hl; cbn [originators]; [by exists []|].
  unfold slice. assert (E1 : ((1 + i * 6 <=? 7 + i * 6) && (7 + i * 6 <=? length v))%nat = true) by (apply andb_true_iff; split; apply Nat.leb_le; lia).
  rewrite E1. cbn [mbind outcome_bind]. set (b := take _ _). assert (Hb : length b = 6%nat) by (unfold b; rewrite length_take, length_drop; lia).
  unfold array. rewrite Hb. cbn [Nat.leb mbind outcome_bind]. destruct (IH (S i)) as (ids & -> & Hi); [lia|].
  eexists. split; [reflexivity|]. constructor; [|done]. apply shown_id. split; [by rewrite length_take, Hb|]. by repeat apply Forall_take; apply Forall_drop.
Qed.

Lemma rendered_tlv t : listable t -> rendered (tlvSummary t).
Proof.
  intros Hl. pose proof (rendered_raw t Hl) as Hraw. destruct Hl as [Hok _].
  destruct t as [ty v|areas|ns|n|es|a|ns|m|ns|xs|xs|ps|ps|h|r|m|ts|m|m|a|r]; cbn [tlvSummary tlv_body_ok] in *; try exact Hraw.
  - destruct Hok as (_ & Hv & _). destruct (ty =? _); [|exact Hraw]. unfold purgeOriginatorSummary. destruct v as [|k v]; [exact Hraw|].
    destruct (_ || _) eqn:E; [exact Hraw|]. apply orb_false_iff in E as [_ E%Nat.ltb_ge].
    destruct (originators_ok (Z.to_nat k) 0 (k :: v)) as (ids & -> & Hi); [done|lia|]. cbn [mbind outcome_bind mret outcome_ret].
    apply rendered_lines, Forall_singleton. apply shown_app; [by apply shown_literal|]. by apply shown_join; [apply shown_literal|].
  - apply rendered_lines, Forall_singleton. apply shown_app; [by apply shown_literal|]. apply shown_join; [by apply shown_literal|].
    apply Forall_map. eapply Forall_impl; [exact Hok|]. intros x Hx. by apply shown_area.
  - apply rendered_one. destruct Hok as [[Ht _] Hv]. unfold authSummary. cbv zeta. repeat (case_match; [by eexists; split; [|apply shown_literal]|]).
    case_match.
    + destruct (length (AuthValue a) <? 2)%nat eqn:E; [by eexists; split; [|apply shown_literal]|]. apply Nat.ltb_ge in E.
      destruct (AuthValue a) as [|x [|y b]]; [cbn in E; lia..|]. apply Forall_cons in Hv as [[Hx _] [[Hy _] _]%Forall_cons].
      eexists. split; [reflexivity|]. shows; try (by apply shown_literal). apply shown_Itoa. unfold join16. apply Z.lor_nonneg. split; [|done].
      by apply Z.shiftl_nonneg.
    + eexists. split; [reflexivity|]. apply shown_app; [by apply shown_literal|by apply shown_Itoa].
  - apply (rendered_map _ ISReach_ok); [|done]. intros e. apply shown_isReach. by apply shown_literal.
  - apply (rendered_map _ Locator_ok); [apply shown_locator|apply Hok].
  - apply rendered_lines, Forall_singleton. apply shown_app; [by apply shown_literal|]. apply shown_join; [by apply shown_literal|].
    apply Forall_map. eapply Forall_impl; [exact Hok|]. intros x Hx. unfold nlpid_name. repeat (case_match; [by apply shown_literal|]).
    apply shown_app; [by apply shown_literal|by apply shown_octet].
  - apply (rendered_map _ IPReach_ok); [|done]. intros e. apply shown_ip_line. by apply shown_literal.
  - apply (rendered_map _ IPv6Reach_ok); [|done]. intros e. apply shown_ip6_line. by apply shown_literal.
  - apply rendered_lines, Forall_singleton. apply shown_app; [by apply shown_literal|apply displayString_shown].
  - destruct Hok as [Hm Hn]. apply (rendered_map _ ISReach_ok); [|done]. intros e. apply shown_isReach. apply shown_app; [by apply shown_literal|by apply shown_tag].
  - destruct ts as [|e ts]; [exact Hraw|]. apply rendered_lines, Forall_singleton. apply shown_app; [by apply shown_literal|].
    apply shown_join; [by apply shown_literal|]. apply Forall_map. eapply Forall_impl; [exact Hok|]. apply shown_topology.
  - destruct Hok as [Hm Hn]. apply (rendered_map _ IPReach_ok); [|done]. intros e. apply shown_ip_line. apply shown_app; [by apply shown_literal|by apply shown_tag].
  - destruct Hok as [Hm Hn]. apply (rendered_map _ IPv6Reach_ok); [|done]. intros e. apply shown_ip6_line. apply shown_app; [by apply shown_literal|by apply shown_tag].
  - apply rendered_lines, Forall_singleton. by apply shown_routerCap.
Qed.

Lemma rendered_tlvs tlvs : Forall listable tlvs -> rendered (tlvSummaries tlvs).
Proof.
  induction 1 as [|t tlvs Ht _ (rest & IH & Hr)]; [by exists []|]. cbn [tlvSummaries]. destruct (rendered_tlv t Ht) as (ls & -> & Hls).
  cbn [mbind outcome_bind]. rewrite IH. eexists. split; [reflexivity|]. by apply Forall_app.
Qed.

(** ** Entries *)

Lemma serialized_each tlvs b : serializeTLVs tlvs = Ok b -> Forall (fun t => exists e, TLV_Serialize t = Ok e) tlvs.
Proof.
  revert b. induction tlvs as [|t tlvs IH]; intros b; [constructor|].
  intros (e & He & (rest & Hr & _)%bind_Ok)%bind_Ok. constructor; [by exists e|by eapply IH].
Qed.

Lemma received_listable raw p : bytes_ok raw -> DecodePDU raw = Ok (PDULSP p) -> Forall listable (LSP_TLVs p).
Proof.
  intros Hb (Hok & b & p' & Hs & _)%DecodePDU_fixpoint; [|done]. cbn [PDU_Serialize] in Hs.
  apply bind_Ok in Hs as ([b1 p1] & Hs & _). destruct (LSP_Serialize_inv p p1 b1 Hok Hs) as (tlvs & Ht & _).
  apply serialized_each in Ht. destruct Hok as (_ & _ & _ & _ & Hts). rewrite Forall_forall in Hts, Ht |- *. intros t Hin. split; [by apply Hts|by apply Ht].
Qed.

(** An entry that was received, or whose TLVs the codec can write. *)
Definition sound_entry (e : lspEntry) : Prop :=
  (exists raw, bytes_ok raw /\ DecodePDU raw = Ok (PDULSP (e_lsp e))) \/ Forall listable (LSP_TLVs (e_lsp e)).

Lemma index_shown now xs m :
  map_Forall (fun _ h => shown h) m -> map_Forall (fun _ h => shown h) (fold_left (index_step now) xs m).
Proof.
  revert m. induction xs as [|[id e] xs IH]; intros m Hm; [done|]. cbn [fold_left]. apply IH. unfold index_step.
  destruct (_ || _); [done|]. destruct (hostname_of e) as [h|]; [|done]. apply map_Forall_insert_2; [apply displayString_shown|done].
Qed.

Lemma hostnames_shown ls order now id : shown (default [] (hostnameIndex ls order now !! id)).
Proof.
  assert (H : map_Forall (fun _ h => shown h) (hostnameIndex ls order now)) by (apply index_shown; intros i h Hi; by rewrite lookup_empty in Hi).
  destruct (hostnameIndex ls order now !! id) as [h|] eqn:E; [by apply (H id)|constructor].
Qed.

Lemma renderTLVs_ok infos :
  Forall (fun i => Forall listable (i_tlvs i)) infos ->
  exists out, renderTLVs infos = Ok out /\ out.*1 = infos /\ Forall (fun il => Forall shown il.2) out.
Proof.
  induction 1 as [|i infos Hi _ (out & IH & Ho & Hs)]; [by exists []|]. cbn [renderTLVs]. destruct (rendered_tlvs _ Hi) as (ls & -> & Hls).
  cbn [mbind outcome_bind]. rewrite IH. eexists. split; [reflexivity|]. split; [cbn; by rewrite Ho|by constructor].
Qed.

(** C38: Nothing another system puts in an LSP reaches the operator as anything but
    text: whatever LSPs were received, `database --detail` answers (no TLV makes
    the rendering fail or panic), with one item for every entry of the databases,
    and every host name and every line it prints is valid UTF-8 without a control
    character, so that no LSP can forge a line or address the terminal.  The same
    holds of the host names in a listing of the adjacencies. *)
Theorem database_detail_shown s ls order adj_order now :
  (forall l db id e, dbs s !! l = Some db -> db !! id = Some e -> sound_entry e) ->
  (exists out, ListLSDBDetail s ls order now = Ok out /\ out.*1 = listLSDB s ls order now /\
    Forall (fun il => shown (i_Hostname il.1) /\ Forall shown il.2) out) /\
  Forall (fun a => shown (ai_Hostname a)) (ListAdjacencies s ls order adj_order now).
Proof.
  intros Hs. split.
  - assert (Hl : Forall (fun i => shown (i_Hostname i) /\ Forall listable (i_tlvs i)) (listLSDB s ls order now)).
    { apply Forall_forall. intros i (l & Hi & _)%list_elem_of_bind. destruct (dbs s !! l) as [db|] eqn:Ed; [|by apply not_elem_of_nil in Hi].
      apply list_elem_of_fmap in Hi as ([id e] & -> & He%elem_of_map_to_list). cbn [i_Hostname i_tlvs]. split; [apply hostnames_shown|].
      destruct (Hs l db id e Ed He) as [(raw & Hb & Hd)|Ht]; [by eapply received_listable|done]. }
    destruct (renderTLVs_ok (listLSDB s ls order now)) as (out & Ho & Ho1 & Ho2); [eapply Forall_impl; [exact Hl|]; by intros i [_ ?]|].
    exists out. split; [exact Ho|]. split; [done|]. rewrite <- Ho1 in Hl. apply Forall_fmap in Hl. apply Forall_and. split; [|done].
    eapply Forall_impl; [exact Hl|]. by intros [i l] [? _].
  - unfold ListAdjacencies. apply Forall_concat, Forall_forall. intros l Hl. apply elem_of_lookup_imap in Hl as (i & c & -> & _).
    apply Forall_fmap, Forall_true. intros a. apply hostnames_shown.
Qed.

(** ** An LSP whose host name clears the screen and forges a line *)

Definition forged_name : bytes := text "r1" ++ [10] ++ text "Purge" ++ [27] ++ text "[2J" ++ [255; 254] ++ text "x" ++ [194; 155].

Definition forged_raw : bytes := Eval vm_compute in
  match PDU_Serialize (PDULSP (mkLSP Level2 1200 [2; 0; 0; 0; 0; 1; 0; 0] 7 0 false false false false false false 3
    [DynamicHostnameTLV forged_name; UnknownTLV TLVTypePurgeOriginatorID [1; 2; 0; 0; 0; 0; 5];
     UnknownTLV TLVTypePurgeOriginatorID [9; 2]; MTopologiesTLV [];
     AuthenticationTLV (mkAuthentication AuthTypeCleartext (text "secret"))])) with
  | Ok (b, _) => b | _ => []
  end.
Definition forged_lsp : LSP := Eval vm_compute in
  match DecodePDU forged_raw with Ok (PDULSP p) => p | _ => mkLSP Level1 0 [] 0 0 false false false false false false 0 [] end.

Definition forged_server : Server :=
  mkServer [2; 0; 0; 0; 0; 9] [[73; 0; 1]] 6 ∅ 0 []
    {[ Level2 := {[ [2; 0; 0; 0; 0; 1; 0; 0] := mkLspEntry forged_lsp forged_raw 0 1200 false None 0 ]} ]}
    false false zeroTime ∅ 1492 zeroTime false ∅ ∅ ∅ ∅ ∅ ∅ false [].
Definition forged_visit : visits := fun l => map_to_list (default ∅ (dbs forged_server !! l)).

(** What the operator reads: one line for each TLV, the password not among them. *)
Definition forged_lines : list bytes :=
  [text "Dynamic Hostname: r1?Purge?[2J" ++ replacement ++ text "x?"; text "Purge Originator: 0200.0000.0005"; text "TLV 13: 2 octets";
   text "TLV 229: 0 octets"; text "Authentication: cleartext"].

Lemma database_detail_shown_witness :
  (exists out, ListLSDBDetail forged_server [Level1; Level2] forged_visit 0 = Ok out /\ out.*2 = [forged_lines] /\
    Forall (fun il => shown (i_Hostname il.1) /\ Forall shown il.2) out) /\
  bool_decide (Exists (fun r => r < 32) forged_name) = true.
Proof.
  assert (Hs : forall l db id e, dbs forged_server !! l = Some db -> db !! id = Some e -> sound_entry e).
  { intros l db id e Hl He. cbn [dbs forged_server] in Hl. apply lookup_singleton_Some in Hl as [<- <-].
    apply lookup_singleton_Some in He as [<- <-]. left. exists forged_raw.
    split; [repeat (constructor; [unfold byte_ok; lia|]); constructor|vm_compute; reflexivity]. }
  destruct (database_detail_shown forged_server [Level1; Level2] forged_visit (fun _ _ => []) 0 Hs) as [(out & Ho & _ & Hl) _].
  split; [|vm_compute; reflexivity]. exists out. split; [exact Ho|]. split; [|exact Hl].
  assert (E : match ListLSDBDetail forged_server [Level1; Level2] forged_visit 0 with Ok o => o.*2 | _ => [] end = [forged_lines])
    by (vm_compute; reflexivity).
  rewrite Ho in E. exact E.
Defined.
