(* ===== verification/NodeLspSpec.v ===== *)
(** This node's own LSP: the prefixes it says are reachable, and at what
    metric. *)

From stdpp Require Import sorting strings.
From S2P Require Import Prelude.
From S2P Require Import Netip.
From S2P Require Import Ids.
From S2P Require Import Sid.
From S2P Require Import SubTLV.
From S2P Require Import Entries.
From S2P Require Import Locator.
From S2P Require Import Tlv.
From S2P Require Import Checksum.
From S2P Require Import Pdu.
From S2P Require Import Auth.
From S2P Require Import Circuit.
From S2P Require Import Lsdb.
From S2P Require Import Server.
From S2P Require Import Lifetime.
From S2P Require Import Transmit.
From S2P Require Import Origination.
From S2P Require Import Topology.
From S2P Require Import Rib.
From S2P Require Import EndX.
From S2P Require Import NodeLsp.
From S2P Require Import RibSelect.
Local Open Scope Z_scope.

(** ** Lists and maps *)

(** Cutting entries into TLVs loses none and adds none. *)
Lemma tlvChunks_entries {E} (mk : list E -> TLV) (get : TLV -> list E) es out :
  (forall es, get (mk es) = es) -> tlvChunks mk es = Ok out -> out ≫= get = es.
Proof.
  intros Hg H. destruct (chunk_loop_chunked mk es [] out (or_introl eq_refl) H) as (ess & -> & E1 & _). cbn [app] in E1. subst es.
  clear H. induction ess as [|e ess IH]; cbn; [done|]. by rewrite Hg, IH.
Qed.

Lemma tlvChunks_none {E A} (mk : list E -> TLV) (get : TLV -> list A) es out :
  (forall es, get (mk es) = []) -> tlvChunks mk es = Ok out -> out ≫= get = [].
Proof.
  intros Hg H. destruct (chunk_loop_chunked mk es [] out (or_introl eq_refl) H) as (ess & -> & _ & _).
  clear H. induction ess as [|e ess IH]; cbn; [done|]. by rewrite Hg, IH.
Qed.

Lemma elem_sorted_keys m p : p ∈ sorted_keys m <-> is_Some (m !! p).
Proof.
  unfold sorted_keys. rewrite merge_sort_Permutation, list_elem_of_fmap. split.
  - intros ([q x] & -> & Hin%elem_of_map_to_list). by exists x.
  - intros [x Hx]. exists (p, x). split; [done|]. by apply elem_of_map_to_list.
Qed.

Lemma elem_filter {A} (f : A -> bool) l x : x ∈ List.filter f l <-> x ∈ l /\ f x = true.
Proof. by rewrite !list_elem_of_In, List.filter_In. Qed.

Lemma elem_map {A B} (f : A -> B) l y : y ∈ map f l <-> exists x, x ∈ l /\ f x = y.
Proof. rewrite list_elem_of_In, in_map_iff. setoid_rewrite list_elem_of_In. naive_solver. Qed.

Section Spec.
Context {F : Type} (n : Node F).

(** ** Metrics *)

Definition prefixes_of (c : circuit) : list Prefix := default [] (circuitPrefixes n !! Name (cfg c)).

(** The least of a set of metrics. *)
Definition least (S : Z -> Prop) (m : Z) : Prop := S m /\ forall x, S x -> m <= x.

(** What the circuits say of a prefix. *)
Definition conn_metric (cs : list circuit) (p : Prefix) (m : Z) : Prop :=
  exists c, c ∈ cs /\ p ∈ prefixes_of c /\ Metric (cfg c) = m.

Lemma better_least c m q p y :
  better_metric c m q !! p = Some y <-> least (fun x => m !! p = Some x \/ (p = q /\ x = Metric (cfg c))) y.
Proof.
  unfold better_metric, least. destruct (decide (p = q)) as [->|Hne].
  - destruct (m !! q) as [x|] eqn:E.
    + destruct (Z.ltb_spec (Metric (cfg c)) x); [rewrite lookup_insert_eq|rewrite E].
      * split; [intros [= <-]|intros [[[= ->]|[_ ->]] Hle]]; [|exfalso|done].
        -- split; [by right|]. intros z [[= ->]|[_ ->]]; lia.
        -- specialize (Hle (Metric (cfg c)) (or_intror (conj eq_refl eq_refl))). lia.
      * split; [intros [= <-]|intros [[[= ->]|[_ ->]] Hle]]; [|done|].
        -- split; [by left|]. intros z [[= ->]|[_ ->]]; lia.
        -- f_equal. specialize (Hle x (or_introl eq_refl)). lia.
    + rewrite lookup_insert_eq. split; [intros [= <-]|naive_solver]. split; [by right|]. intros z [?|[_ ->]]; [done|lia].
  - assert (E : better_metric c m q !! p = m !! p) by (unfold better_metric; destruct (m !! q); [case_match|]; by rewrite ?lookup_insert_ne).
    unfold better_metric in E. rewrite E. split; [|naive_solver].
    intros Hy. split; [by left|]. intros z [Hz|[? _]]; [|done]. rewrite Hy in Hz. injection Hz as ->. lia.
Qed.

(** The least of a set joined with the least of another. *)
Lemma least_join (A B : Z -> Prop) (o : option Z) y :
  (forall z, o = Some z <-> least A z) -> (o = None -> forall x, ~ A x) ->
  least (fun x => o = Some x \/ B x) y <-> least (fun x => A x \/ B x) y.
Proof.
  intros Ho Hn. unfold least in *. destruct o as [z|].
  - destruct (proj1 (Ho z) eq_refl) as [Hz Hmin]. split.
    + intros [[[= ->]|HB] Hle]; (split; [tauto|]); intros x [Hx|Hx]; [by apply Hmin|apply Hle; tauto| |apply Hle; tauto].
      transitivity z; [apply Hle; by left|by apply Hmin].
    + intros [[HA|HB] Hle]; (split; [|intros x [[= <-]|Hx]; apply Hle; tauto]); [left|by right].
      f_equal. specialize (Hmin y HA). specialize (Hle z (or_introl Hz)). lia.
  - specialize (Hn eq_refl). split; intros [[?|?] Hle]; try done; try (by exfalso; eapply Hn);
      (split; [by right|]); intros x [Hx|Hx]; try done; try (by exfalso; eapply Hn); apply Hle; by right.
Qed.

Lemma least_ext (S S' : Z -> Prop) y : (forall x, S x <-> S' x) -> least S y <-> least S' y.
Proof using. intros E. unfold least. setoid_rewrite E. done. Qed.

Lemma better_none c m q p : better_metric c m q !! p = None -> forall x, ~ (m !! p = Some x \/ (p = q /\ x = Metric (cfg c))).
Proof using.
  unfold better_metric. destruct (decide (p = q)) as [->|Hne].
  - destruct (m !! q) as [x|] eqn:E; [|by rewrite lookup_insert_eq]. case_match; [by rewrite lookup_insert_eq|congruence].
  - intros Hn x [Hx|[? _]]; [|done]. destruct (m !! q); [revert Hn; case_match|]; rewrite ?lookup_insert_ne in * by done; congruence.
Qed.

Lemma circuit_least c ps m p y :
  fold_left (better_metric c) ps m !! p = Some y <-> least (fun x => m !! p = Some x \/ (p ∈ ps /\ x = Metric (cfg c))) y.
Proof using.
  revert m. induction ps as [|q ps IH]; intros m; cbn [fold_left].
  - rewrite (least_ext _ (fun x => m !! p = Some x)) by (intros x; rewrite elem_of_nil; naive_solver). unfold least.
    split; [intros E; split; [done|]; intros x Hx; rewrite E in Hx; injection Hx as ->; lia|by intros [? _]].
  - rewrite IH, (least_join _ _ (better_metric c m q !! p) y (better_least c m q p) (better_none c m q p)).
    apply least_ext. intros x. rewrite elem_of_cons. naive_solver.
Qed.

Lemma fold_none c ps m p : fold_left (better_metric c) ps m !! p = None -> forall x, ~ (m !! p = Some x \/ (p ∈ ps /\ x = Metric (cfg c))).
Proof using.
  revert m. induction ps as [|q ps IH]; intros m; cbn [fold_left].
  - intros E x [Hx|[Hx _]]; [congruence|by apply not_elem_of_nil in Hx].
  - intros E x Hx. destruct (better_metric c m q !! p) as [z|] eqn:Ez; [by apply (IH _ E z); left|].
    rewrite elem_of_cons in Hx. destruct Hx as [Hx|[[->|Hx] ->]].
    + by apply (better_none _ _ _ _ Ez x); left.
    + apply (better_none _ _ _ _ Ez (Metric (cfg c))). by right.
    + apply (IH _ E (Metric (cfg c))). by right.
Qed.

Lemma conn_least cs m p y :
  fold_left (circuit_metrics n) cs m !! p = Some y <-> least (fun x => m !! p = Some x \/ conn_metric cs p x) y.
Proof using.
  revert m. induction cs as [|c cs IH]; intros m; cbn [fold_left].
  - rewrite (least_ext _ (fun x => m !! p = Some x)).
    + unfold least. split; [intros E; split; [done|]; intros x Hx; rewrite E in Hx; injection Hx as ->; lia|by intros [? _]].
    + intros x. split; [intros [?|(c & Hc & _)]; [done|by apply not_elem_of_nil in Hc]|by left].
  - rewrite IH. unfold circuit_metrics at 1.
    rewrite (least_join _ _ _ y (circuit_least c _ m p) (fold_none c _ m p)). apply least_ext. intros x.
    unfold conn_metric. setoid_rewrite elem_of_cons. fold (prefixes_of c). naive_solver.
Qed.

(** The metric a prefix is originated at: the configuration's, or else the least
    of the circuits that have it connected. *)
Definition own_metric (p : Prefix) (m : Z) : Prop :=
  match optionPrefixes (routing n) !! p with
  | Some ap => m = AP_Metric ap
  | None => least (conn_metric (circuits (core n)) p) m
  end.

Lemma prefix_metrics_spec p m : prefix_metrics n !! p = Some m <-> own_metric p m.
Proof using.
  unfold prefix_metrics, own_metric. rewrite lookup_union, lookup_fmap. destruct (optionPrefixes (routing n) !! p) as [ap|]; cbn.
  - destruct (fold_left _ _ _ !! p); cbn; split; congruence.
  - assert (E : forall x : option Z, None ∪ x = x) by (by intros []). rewrite E, conn_least. apply least_ext. intros x. rewrite lookup_empty. naive_solver.
Qed.

(** ** What the LSP says *)

Definition v4_entries (ts : list TLV) : list ExtendedIPReachEntry :=
  ts ≫= fun t => match t with ExtendedIPReachabilityTLV es => es | _ => [] end.
Definition v6_entries (ts : list TLV) : list IPv6ReachEntry :=
  ts ≫= fun t => match t with IPv6ReachabilityTLV es => es | _ => [] end.

Lemma variable_entries l ts : variableTLVs n l = Ok ts -> v4_entries ts = v4_reach n l /\ v6_entries ts = v6_reach n l.
Proof using.
  unfold variableTLVs. intros (nb & _ & (a & Ha & (b & Hb & (c & Hc & (d & Hd & [= <-])%bind_Ok)%bind_Ok)%bind_Ok)%bind_Ok)%bind_Ok.
  unfold v4_entries, v6_entries. rewrite !bind_app. split.
  - rewrite (tlvChunks_none _ _ _ _ (fun _ => eq_refl) Ha), (tlvChunks_entries _ _ _ _ (fun _ => eq_refl) Hb),
      (tlvChunks_none _ _ _ _ (fun _ => eq_refl) Hc), (tlvChunks_none _ _ _ _ (fun _ => eq_refl) Hd). by rewrite !app_nil_r.
  - rewrite (tlvChunks_none _ _ _ _ (fun _ => eq_refl) Ha), (tlvChunks_none _ _ _ _ (fun _ => eq_refl) Hb),
      (tlvChunks_entries _ _ _ _ (fun _ => eq_refl) Hc), (tlvChunks_none _ _ _ _ (fun _ => eq_refl) Hd). by rewrite !app_nil_r.
Qed.

(** That the LSP of level [l] says [p] is reachable at metric [m]. *)
Definition says (ts : list TLV) (p : Prefix) (m : Z) (down : bool) : Prop :=
  if Is4 (p_addr p) then mkIPReach m down p [] ∈ v4_entries ts else mkIPv6Reach m down false p [] ∈ v6_entries ts.

(** What a node has to say: its own prefixes, subject to the export policy; the
    locators of algorithm 0; upward what is reachable in its area, subject to the
    policy; downward what the operator leaks, marked down. *)
Definition to_say (l : Level) (p : Prefix) (m : Z) (down : bool) : Prop :=
  (own_metric p m /\ advertised n (mkAdvertised p m) = true /\ down = false) \/
  ((exists lc, lc ∈ locators (routing n) /\ LC_Algo lc = 0 /\ Masked (LC_Prefix lc) = p) /\ m = 0 /\ down = false /\ Is4 (p_addr p) = false) \/
  (l = Level2 /\ levelSet_has (levelCap (core n)) Level1 = true /\
   (exists x, l1Export (routing n) !! p = Some x /\ m = Z.min x (maxPathMetric - 1)) /\
   advertised n (mkAdvertised p m) = true /\ down = false) \/
  (l = Level1 /\ levelSet_has (levelCap (core n)) Level2 = true /\
   (exists x, l2Leak (routing n) !! p = Some x /\ m = Z.min x (maxPathMetric - 1)) /\ down = true).

Lemma elem_own r : r ∈ own_reach n <-> own_metric (rc_prefix r) (rc_metric r) /\
  advertised n (mkAdvertised (rc_prefix r) (rc_metric r)) = true /\ rc_down r = false.
Proof using.
  unfold own_reach. rewrite elem_map. setoid_rewrite elem_filter. unfold originatedPrefixes. setoid_rewrite elem_map.
  setoid_rewrite elem_sorted_keys. setoid_rewrite <- prefix_metrics_spec. split.
  - intros (ap & [(p & [m Hm] & <-) Ha] & <-). rewrite Hm in *. cbn in *. done.
  - destruct r as [p m d]. cbn. intros (Hm & Ha & ->). exists (mkAdvertised p m). split; [|done]. split; [|done].
    exists p. split; [by exists m|]. by rewrite Hm.
Qed.

Lemma elem_clamped (m : gmap Prefix Z) r :
  (exists p, p ∈ sorted_keys m /\ mkReach p (clamped m p) (rc_down r) = r) <->
  exists x, m !! rc_prefix r = Some x /\ rc_metric r = Z.min x (maxPathMetric - 1).
Proof using.
  setoid_rewrite elem_sorted_keys. unfold clamped. split.
  - intros (p & [x Hx] & <-). cbn. exists x. by rewrite Hx.
  - destruct r as [p y d]. cbn. intros (x & Hx & ->). exists p. split; [by exists x|]. by rewrite Hx.
Qed.

Lemma elem_export l r : r ∈ export_reach n l <-> l = Level2 /\ levelSet_has (levelCap (core n)) Level1 = true /\
  (exists x, l1Export (routing n) !! rc_prefix r = Some x /\ rc_metric r = Z.min x (maxPathMetric - 1)) /\
  advertised n (mkAdvertised (rc_prefix r) (rc_metric r)) = true /\ rc_down r = false.
Proof using.
  unfold export_reach. destruct (bool_decide _ && _) eqn:E.
  - apply andb_true_iff in E as [->%bool_decide_eq_true ->]. rewrite <- elem_clamped, elem_map. setoid_rewrite elem_filter. split.
    + intros (p & [Hp Ha] & <-). cbn. split_and!; [done..|by exists p|done|done].
    + intros (_ & _ & (p & Hp & Hr) & Ha & Hd). exists p. rewrite <- Hr in Ha, Hd |- *. cbn in *. by rewrite Hd.
  - split; [by intros ?%not_elem_of_nil|]. intros (-> & Hc & _). rewrite Hc in E. by rewrite bool_decide_true in E.
Qed.

Lemma elem_leak l r : r ∈ leak_reach n l <-> l = Level1 /\ levelSet_has (levelCap (core n)) Level2 = true /\
  (exists x, l2Leak (routing n) !! rc_prefix r = Some x /\ rc_metric r = Z.min x (maxPathMetric - 1)) /\ rc_down r = true.
Proof using.
  unfold leak_reach. destruct (bool_decide _ && _) eqn:E.
  - apply andb_true_iff in E as [->%bool_decide_eq_true ->]. rewrite <- elem_clamped, elem_map. split.
    + intros (p & Hp & <-). cbn. split_and!; [done..|by exists p|done].
    + intros (_ & _ & (p & Hp & Hr) & Hd). exists p. rewrite <- Hr in Hd |- *. cbn in *. by rewrite Hd.
  - split; [by intros ?%not_elem_of_nil|]. intros (-> & Hc & _). rewrite Hc in E. by rewrite bool_decide_true in E.
Qed.

Lemma elem_locators r : r ∈ locator_reach n <->
  (exists lc, lc ∈ locators (routing n) /\ LC_Algo lc = 0 /\ Masked (LC_Prefix lc) = rc_prefix r) /\ rc_metric r = 0 /\ rc_down r = false.
Proof using.
  unfold locator_reach. rewrite elem_map. setoid_rewrite elem_filter. setoid_rewrite Z.eqb_eq. destruct r as [p m d]. cbn. split.
  - intros (lc & [Hin Ha] & [= <- <- <-]). split_and!; [by exists lc|done|done].
  - intros ((lc & Hin & Ha & <-) & -> & ->). by exists lc.
Qed.

(** C36: this node's LSP of a level says exactly what it has to: its own prefixes,
    each at the metric the configuration names or else the least of the circuits
    that have it connected, where the export policy accepts it; its locators of
    algorithm 0; at level 2 what is reachable inside its area; at level 1 what the
    operator leaks down, and only that with the down bit; the metrics it passes on
    clamped below the ceiling that means unreachable.  Splitting the entries over
    TLVs loses none. *)
Theorem nodeLSP_says l ts p m down :
  variableTLVs n l = Ok ts -> says ts p m down <-> to_say l p m down.
Proof using.
  intros (E4 & E6)%variable_entries. unfold says, to_say. rewrite E4, E6.
  pose proof (elem_own (mkReach p m down)) as H1. pose proof (elem_export l (mkReach p m down)) as H2.
  pose proof (elem_leak l (mkReach p m down)) as H3. pose proof (elem_locators (mkReach p m down)) as H4.
  cbn [rc_prefix rc_metric rc_down] in *. destruct (Is4 (p_addr p)) eqn:Ep.
  - assert (Hv : mkIPReach m down p [] ∈ v4_reach n l <-> mkReach p m down ∈ own_reach n ++ export_reach n l ++ leak_reach n l).
    { unfold v4_reach. rewrite list_elem_of_fmap. setoid_rewrite elem_filter. split.
      - by intros ([p' m' d'] & [= -> -> ->] & Hin & _).
      - intros Hin. exists (mkReach p m down). split_and!; [done|done|exact Ep]. }
    rewrite Hv, !elem_of_app, H1, H2, H3. assert (true <> false) by done. tauto.
  - assert (Hv : mkIPv6Reach m down false p [] ∈ v6_reach n l <->
      mkReach p m down ∈ own_reach n ++ locator_reach n ++ export_reach n l ++ leak_reach n l).
    { unfold v6_reach. rewrite list_elem_of_fmap. setoid_rewrite elem_of_app. setoid_rewrite elem_of_app. setoid_rewrite elem_filter.
      setoid_rewrite elem_of_app. split.
      - intros ([p' m' d'] & [= -> -> ->] & Hin). tauto.
      - intros Hin. exists (mkReach p m down). split; [done|]. unfold is_v4. cbn [rc_prefix]. rewrite Ep. tauto. }
    rewrite Hv, !elem_of_app, H1, H2, H3, H4. assert (false = false) by done. tauto.
Qed.
End Spec.

(** ** A border router's LSPs *)

Definition site_net : Prefix := mkPrefix (Addr4 [10; 1; 0; 0]) 16.
Definition site_node : Node unit :=
  mkNode border (set_exchange border_rib {[ area_net := 15 ]} {[ far_net := 4294967295 ]} ∅) [] None
    {[ "eth0"%string := [site_net] ]} ∅ ∅ ∅ ∅ ∅ 0 0 0 0 0.

Definition site_tlvs (l : Level) : list TLV := match variableTLVs site_node l with Ok ts => ts | _ => [] end.

Lemma nodeLSP_says_witness :
  to_say site_node Level1 far_net 4261412863 true /\ says (site_tlvs Level1) far_net 4261412863 true /\
  to_say site_node Level1 site_net 10 false /\ ~ says (site_tlvs Level2) far_net 4261412863 true.
Proof.
  assert (E1 : variableTLVs site_node Level1 = Ok (site_tlvs Level1)) by (vm_compute; reflexivity).
  assert (E2 : variableTLVs site_node Level2 = Ok (site_tlvs Level2)) by (vm_compute; reflexivity).
  assert (V1 : v4_entries (site_tlvs Level1) = [mkIPReach 10 false site_net []; mkIPReach 4261412863 true far_net []])
    by (vm_compute; reflexivity).
  assert (V2 : v4_entries (site_tlvs Level2) = [mkIPReach 10 false site_net []; mkIPReach 15 false area_net []])
    by (vm_compute; reflexivity).
  assert (H1 : says (site_tlvs Level1) far_net 4261412863 true)
    by (unfold says; cbn [far_net p_addr Is4]; rewrite V1; right; left).
  assert (H2 : says (site_tlvs Level1) site_net 10 false) by (unfold says; cbn [site_net p_addr Is4]; rewrite V1; left).
  assert (H3 : ~ says (site_tlvs Level2) far_net 4261412863 true).
  { unfold says. cbn [far_net p_addr Is4]. rewrite V2. by intros [[=]|[[=]|[]%not_elem_of_nil]%elem_of_cons]%elem_of_cons. }
  split; [exact (proj1 (nodeLSP_says site_node Level1 _ far_net 4261412863 true E1) H1)|]. split; [exact H1|].
  split; [exact (proj1 (nodeLSP_says site_node Level1 _ site_net 10 false E1) H2)|exact H3].
Defined.
