(* ===== verification/ServeSpec.v ===== *)
(** The loop over a run: what every turn of [Serve] keeps of the node, from the
    node [NewIsisServer] builds on. *)

From stdpp Require Import sorting strings.
From S2P Require Import Prelude.
From S2P Require Import Netip.
From S2P Require Import Ids.
From S2P Require Import Sid.
From S2P Require Import SubTLV.
From S2P Require Import Entries.
From S2P Require Import Tlv.
From S2P Require Import Checksum.
From S2P Require Import Pdu.
From S2P Require Import Auth.
From S2P Require Import Circuit.
From S2P Require Import Lsdb.
From S2P Require Import EdgeLog.
From S2P Require Import Server.
From S2P Require Import Lifetime.
From S2P Require Import Transmit.
From S2P Require Import Origination.
From S2P Require Import HelloBuild.
From S2P Require Import Hello.
From S2P Require Import FlexAlgo.
From S2P Require Import Tent.
From S2P Require Import Topology.
From S2P Require Import Spf.
From S2P Require Import Rib.
From S2P Require Import EndX.
From S2P Require Import NodeLsp.
From S2P Require Import Loop.
From S2P Require Import Mutate.
From S2P Require Import RibSpec.
From S2P Require Import RibSelect.
From S2P Require Import EndXSpec.
From S2P Require Import NodeLspSpec.
From S2P Require Import Serve.
From S2P Require Import Watch.
From S2P Require Import PacketSpec.
Local Open Scope Z_scope.

Section Kept.
Context {F : Type} `{FIB F} (table : F -> gmap Prefix (list NextHopInfo)).

(** ** What most steps leave alone *)

(** The route changes reported so far. *)
Definition routed (b : RIB F) : list Event := route_events (rib_trace b).

Definition silent (e : rib_effect) : Prop := match e with RouteEvent _ _ => False | _ => True end.

Lemma routed_emit (b : RIB F) e : silent e -> routed (rib_emit b e) = routed b.
Proof.
  unfold routed, route_events. cbn [rib_emit rib_trace]. rewrite omap_app. intros He. destruct e; (done || by rewrite app_nil_r).
Qed.

(** The forwarding table and its bookkeeping, the SIDs, the runtime configuration,
    and what watchers are told of the routes. *)
Record kept (n n' : Node F) : Prop := {
  kept_table : table (fib (routing n')) = table (fib (routing n));
  kept_rib : rib (routing n') = rib (routing n);
  kept_pending : fibPending (routing n') = fibPending (routing n);
  kept_installed : fibInstalled (routing n') = fibInstalled (routing n);
  kept_filter : fibFilter (routing n') = fibFilter (routing n);
  kept_locators : locators (routing n') = locators (routing n);
  kept_sids : endXSIDs n' = endXSIDs n;
  kept_algos : flexAlgos (routing n') = flexAlgos (routing n);
  kept_prefixes : optionPrefixes (routing n') = optionPrefixes (routing n);
  kept_routed : routed (routing n') = routed (routing n)
}.

Ltac keep := split; (done || (unfold routed, route_events; cbn; by rewrite ?omap_app, ?app_nil_r)).

Lemma kept_refl n : kept n n.
Proof. by split. Qed.

Lemma kept_trans n1 n2 n3 : kept n1 n2 -> kept n2 n3 -> kept n1 n3.
Proof. intros [] []. split; congruence. Qed.

Lemma kept_fold {A} (f : Node F -> A -> Node F) xs n :
  (forall n x, kept n (f n x)) -> kept n (fold_left f xs n).
Proof.
  intros Hf. revert n. induction xs as [|x xs IH]; intros n; cbn [fold_left]; [apply kept_refl|].
  eapply kept_trans; [apply Hf|apply IH].
Qed.

Lemma kept_core n s : kept n (set_core n s).
Proof. by split. Qed.

Lemma kept_emit n e : silent e -> kept n (node_emit n e).
Proof. intros He. split; try done. by apply routed_emit. Qed.

Lemma on_core_kept n f n' : on_core n f = Ok n' -> kept n n'.
Proof. unfold on_core. intros (s & _ & [= <-])%bind_Ok. apply kept_core. Qed.

(** The prefixes the claims are about: all but those the sweep at startup spared. *)
Context (ours : Prefix -> Prop).

(** The forwarding table and its bookkeeping are in step with the routes. *)
Definition in_step (b : RIB F) : Prop := forall p, ours p -> agrees (rib b !! p) (status_of table b p).

(** What the table holds, and what is pending. *)
Definition current (b : RIB F) : Prop :=
  forall p, ours p ->
    (p ∉ fibPending b -> table (fib b) !! p = wanted b (rib b) p) /\ (p ∈ fibPending b -> is_Some (wanted b (rib b) p)).

(** What every turn keeps. *)
Record node_ok (n : Node F) : Prop := {
  ok_synced : in_step (routing n);
  ok_current : current (routing n);
  ok_hops : map_Forall (fun _ r => RI_NextHops r <> []) (rib (routing n));
  ok_sids : allocated (endXSIDs n);
  ok_locators : Forall config_ok (locators (routing n))
}.

Lemma node_ok_kept n n' : kept n n' -> node_ok n -> node_ok n'.
Proof.
  intros [K1 K2 K3 K4 K5 K6 K7 _ _ _] [H1 Hc H2 H3 H4]. split; [| |by rewrite K2|by rewrite K7|by rewrite K6].
  - intros p Hp. specialize (H1 p Hp). unfold status_of in *. by rewrite K1, K2, K3, K4.
  - intros p Hp. specialize (Hc p Hp). unfold wanted, accepted in *. by rewrite K1, K2, K3, K5.
Qed.

Context `{!FIBLaws F table}.

Lemma kept_programSID n ls : kept n (programSID n ls).
Proof using FIBLaws0.
  unfold programSID. pose proof (add_keeps (fib (routing n)) ls) as Hk.
  destruct (AddLocalSID _ _) as [f []]; cbn [fst] in Hk; [by split|].
  repeat case_match; keep.
Qed.

Lemma kept_unprogramSID n a : kept n (unprogramSID n a).
Proof using FIBLaws0.
  unfold unprogramSID. pose proof (remove_keeps (fib (routing n)) a) as Hk.
  destruct (RemoveLocalSID _ _) as [f []]; cbn [fst] in Hk; [by split|].
  repeat case_match; keep.
Qed.

(** ** Reconciling the SIDs *)

Definition same_fib (n n' : Node F) : Prop := kept n (set_endXSIDs n' (endXSIDs n)).

Lemma same_fib_trans n1 n2 n3 : same_fib n1 n2 -> same_fib n2 n3 -> same_fib n1 n3.
Proof using. intros [] []. split; cbn in *; congruence. Qed.

Lemma kept_same n n' : kept n n' -> same_fib n n'.
Proof using. intros []. by split. Qed.

Lemma same_fib_fold {A} (f : Node F -> A -> Node F) xs n :
  (forall n x, same_fib n (f n x)) -> same_fib n (fold_left f xs n).
Proof using.
  intros Hf. revert n. induction xs as [|x xs IH]; intros n; cbn [fold_left]; [by apply kept_same, kept_refl|].
  eapply same_fib_trans; [apply Hf|apply IH].
Qed.

Lemma release_same live n ke : same_fib n (release_step live n ke).
Proof using FIBLaws0.
  unfold release_step. case_bool_decide; [apply kept_same, kept_refl|].
  pose proof (kept_unprogramSID n (sid ke.2)) as []. by split.
Qed.

Lemma assign_same n w n' : assign_step n w = Ok n' -> same_fib n n'.
Proof using.
  unfold assign_step. destruct (endXSIDs n !! w_key w); [by intros [= <-]|].
  intros ([r n1] & Hr & H1)%bind_Ok. assert (Hs : same_fib n n1).
  { unfold allocEndXSID in Hr. destruct (functionBits _ =? 0); [injection Hr as <- <-; keep|].
    destruct (freeFunction _ _); [|injection Hr as <- <-; keep]. by apply bind_Ok in Hr as (a & _ & [= <- <-]). }
  injection H1 as <-. destruct r; [|done]. eapply same_fib_trans; [exact Hs|]. by split.
Qed.

Lemma assign_loop_same n ws n' : assign_loop n ws = Ok n' -> same_fib n n'.
Proof using.
  revert n. induction ws as [|w ws IH]; intros n; cbn [assign_loop]; [intros [= <-]; by apply kept_same, kept_refl|].
  intros (n1 & H1 & H2)%bind_Ok. eapply same_fib_trans; [by eapply assign_same|by apply IH].
Qed.

Lemma scan_same now cas x : same_fib (sc_node x) (sc_node (fold_left (scan_step now) cas x)).
Proof using.
  revert x. induction cas as [|ca cas IH]; intros x; cbn [fold_left]; [by apply kept_same, kept_refl|].
  eapply same_fib_trans; [|apply IH]. unfold scan_step. destruct (IsValid _); cbn [negb sc_node]; [by split|].
  case_bool_decide; keep.
Qed.

Lemma sync_same sid_order n now n' : syncEndXSIDs sid_order n now = Ok n' -> same_fib n n'.
Proof using FIBLaws0.
  unfold syncEndXSIDs. case_match; [by intros [= <-]|]. set (x := fold_left (scan_step now) _ _).
  intros (n2 & H2 & [= <-])%bind_Ok. apply assign_loop_same in H2.
  eapply same_fib_trans; [apply (scan_same now (endXAdjs (core n)) (mkScan n [] ∅ ∅))|]. fold x.
  eapply same_fib_trans; [|eapply same_fib_trans; [apply (same_fib_fold (release_step (live_keys x)))|eapply same_fib_trans; [exact H2|]]].
  - by split.
  - apply release_same.
  - unfold installEndXSIDs. apply kept_same, kept_fold, kept_programSID.
Qed.
End Kept.

(** What Go leaves open of the maps is the order of their entries. *)
Record fair (o : Oracle) : Prop := {
  fair_sids k m : sid_orders o k m ≡ₚ map_to_list m;
  fair_infos k m : info_orders o k m ≡ₚ map_to_list m
}.

Section Turns.
Context {F : Type} `{FIB F} (table : F -> gmap Prefix (list NextHopInfo)) `{!FIBLaws F table}.
Context (ours : Prefix -> Prop).
Context (reliable : forall f p, (Withdraw f p).2 = true).
Context {T : Type} `{TentativeSet T} (hmac : AuthAlgorithm -> bytes -> bytes -> bytes).

Section Turn.
Context (o : Oracle) (fair_o : fair o).

Lemma node_ok_sync n now n' : node_ok table ours n -> syncEndXSIDs (sid_orders o) n now = Ok n' -> node_ok table ours n'.
Proof using FIBLaws0 fair_o.
  intros [H1 Hc H2 H3 H4] Hs. destruct (sync_steps (sid_orders o) (fair_sids o fair_o) n now H4 H3) as (n1 & Hs1 & B & A & _).
  assert (n1 = n') as -> by congruence. pose proof (sync_same table _ _ _ _ Hs) as Hk.
  assert (Hok : node_ok table ours (set_endXSIDs n' (endXSIDs n))) by (by eapply node_ok_kept; [exact Hk|split]).
  destruct Hok as [K1 Kc K2 _ K4]. by split.
Qed.

Lemma regenerate_levels_core n ls force now n' :
  regenerate_levels hmac (jitter o) (lsp_orders o) n ls force now = Ok n' -> kept table n n'.
Proof using.
  revert n. induction ls as [|l ls IH]; intros n; cbn [regenerate_levels]; [intros [= <-]; apply kept_refl|].
  intros (n1 & H1 & (s & _ & H2)%bind_Ok)%bind_Ok. unfold regenerateNodeLSP in H1. ok_inv H1. subst n1.
  eapply kept_trans; [apply kept_core|]. eapply kept_trans; [apply kept_core|]. by apply IH.
Qed.

Lemma regenerate_ok n force now n' : node_ok table ours n -> regenerate hmac o n force now = Ok n' -> node_ok table ours n'.
Proof using FIBLaws0 fair_o.
  intros Hn. unfold regenerate, regenerateLSPs. intros (n1 & H1 & H2)%bind_Ok.
  eapply node_ok_kept; [by eapply regenerate_levels_core|by eapply node_ok_sync].
Qed.

Lemma drain_ok n now n' : node_ok table ours n -> drain hmac o n now = Ok n' -> node_ok table ours n'.
Proof using FIBLaws0 fair_o.
  intros Hn. unfold drain, drainLSPGen. case_match eqn:Ed; [by intros [= <-]|]. intros (n1 & H1 & [= <-])%bind_Ok.
  eapply node_ok_kept; [apply kept_core|]. eapply (regenerate_ok _ false now); [|exact H1].
  by eapply node_ok_kept; [apply kept_core|].
Qed.

Lemma on_core_ok n f n' : node_ok table ours n -> on_core n f = Ok n' -> node_ok table ours n'.
Proof using. intros Hn Hf. by eapply node_ok_kept; [eapply on_core_kept|]. Qed.

Lemma refresh_ok n now n' : node_ok table ours n -> refreshOwnLSPs hmac o n now = Ok n' -> node_ok table ours n'.
Proof using FIBLaws0 fair_o.
  intros Hn. unfold refreshOwnLSPs. cbv zeta. set (n0 := set_core n _).
  assert (Hn0 : node_ok table ours n0) by (by eapply node_ok_kept; [apply kept_core|]). intros (n1 & H1 & H2)%bind_Ok.
  assert (Hn1 : node_ok table ours n1) by (clear H2; revert H1; case_match; [by apply regenerate_ok|by intros [= <-]]).
  clear H1. revert H2. case_match; [by apply regenerate_ok|by intros [= <-]].
Qed.

(** ** Programming the forwarding table *)

(** The part of the runtime configuration that has operations of its own. *)
Definition setup (b : RIB F) := (locators b, flexAlgos b, optionPrefixes b).

Definition fibstate (b : RIB F) := (fib b, rib b, fibPending b, fibInstalled b, fibFilter b, setup b).

Lemma synced_state b b' : fibstate b' = fibstate b -> in_step table ours b -> in_step table ours b'.
Proof using. unfold fibstate, in_step, status_of. intros [= E1 E2 E3 E4 E5] Hs p. rewrite E1, E2, E3, E4. apply Hs. Qed.

Lemma current_state b b' : fibstate b' = fibstate b -> current table ours b -> current table ours b'.
Proof using. unfold fibstate, current, wanted, accepted. intros [= E1 E2 E3 E4 E5] Hs p. rewrite E1, E2, E3, E5. apply Hs. Qed.

(** A pass leaves what is in step in step. *)
Lemma program_in_step w b next :
  in_step table ours b -> map_Forall (fun _ r => RI_NextHops r <> []) next ->
  let b' := set_rib (programFIB w (info_orders o) b next) next in
  in_step table ours b' /\
  (forall p, ours p -> (p ∉ fibPending b' -> table (fib b') !! p = wanted b next p) /\ (p ∈ fibPending b' -> is_Some (wanted b next p))).
Proof using FIBLaws0 fair_o reliable.
  intros Hs Hn. split; intros p Hp;
    destruct (programFIB_at w table reliable (info_orders o) (fair_infos o fair_o) b next p (Hs p Hp) Hn) as (H1 & H2); [exact H1|exact H2].
Qed.

Definition fixed (b : RIB F) := (rib b, fibFilter b, setup b).

Lemma fixed_withdraw b p : fixed (withdraw_installed b p) = fixed b.
Proof using. unfold withdraw_installed. case_bool_decide; [|done]. by destruct (Withdraw _ _) as [f []]. Qed.

Lemma fixed_emit w b r wd : fixed (emitRoute w b r wd) = fixed b.
Proof using. by destruct w. Qed.

Lemma fixed_programFIB w order b next : fixed (programFIB w order b next) = fixed b.
Proof using.
  unfold programFIB. cbv zeta. rewrite (fold_frame fixed); [apply (fold_frame fixed)|].
  - intros b' [p r]. unfold program_route. cbv zeta. set (b1 := if changed b' p r then _ else b').
    assert (E : fixed b1 = fixed b') by (unfold b1; destruct (changed _ _ _); [apply fixed_emit|done]). rewrite <- E.
    destruct (negb _); [apply (fixed_withdraw b1 p)|]. destruct (_ && _); [done|].
    unfold write_route. by destruct (Update _ _ _) as [f []].
  - intros b' [p old]. unfold program_gone. case_bool_decide; [done|].
    transitivity (fixed (emitRoute w b' old true)); [apply (fixed_withdraw (emitRoute w b' old true) p)|apply fixed_emit].
Qed.

Lemma retry_fib_ok n : node_ok table ours n -> node_ok table ours (retry_fib o n).
Proof using FIBLaws0 fair_o reliable.
  intros [H1 Hc H2 H3 H4]. unfold retry_fib. case_bool_decide; [by split|]. set (b := routing n) in *.
  pose proof (fixed_programFIB (watched (core n)) (info_orders o) b (rib b)) as Hf.
  assert (F1 : rib (programFIB (watched (core n)) (info_orders o) b (rib b)) = rib b) by (by injection Hf).
  assert (F2 : fibFilter (programFIB (watched (core n)) (info_orders o) b (rib b)) = fibFilter b) by (by injection Hf).
  assert (F3 : locators (programFIB (watched (core n)) (info_orders o) b (rib b)) = locators b) by (by injection Hf).
  destruct (program_in_step (watched (core n)) b (rib b) H1 H2) as (S1 & S2).
  set (b' := programFIB _ _ b (rib b)) in *. assert (E : fibstate b' = fibstate (set_rib b' (rib b))).
  { unfold fibstate. cbn [set_rib fib rib fibPending fibInstalled fibFilter locators]. by rewrite F1. }
  split; cbn [set_routing routing endXSIDs]; [by eapply synced_state|eapply current_state; [exact E|]|by rewrite F1|done|by rewrite F3].
  intros p Hp. specialize (S2 p Hp). unfold wanted, accepted in *. cbn [set_rib rib fibFilter fibPending fib] in *. by rewrite F2.
Qed.

(** ** Recomputing the routes *)

Lemma level_turn_state s now algos l x x' :
  level_turn (T := T) (spf_orders o) (done_orders o) (route_orders o) (fa_orders o) s now algos l x = Ok x' ->
  fibstate (of_rib x') = fibstate (of_rib x).
Proof using.
  unfold level_turn. destruct (dbs s !! l) as [db|]; [|by intros [= <-]]. generalize (flexAlgoState l (fa_orders o l db) now) as st.
  intros st. revert x. induction algos as [|a algos IH]; intros x; cbn [algo_loop]; [by intros [= <-]|].
  intros (x1 & H1 & H2)%bind_Ok. rewrite (IH x1 H2). clear IH H2. unfold algo_turn, compute_algo in H1.
  destruct (a =? 0); [by apply bind_Ok in H1 as (c & _ & [= <-])|]. destruct (algo_gate _) as [why|aff].
  - destruct (edge_warn _ _) as [w []]; by injection H1 as <-.
  - by apply bind_Ok in H1 as (c & _ & [= <-]).
Qed.

Lemma state_warn s (b : RIB F) pr : fibstate (warn_unresolved s b pr) = fibstate b.
Proof using. destruct pr. unfold warn_unresolved. by destruct (unresolved _ _ _ _). Qed.

Lemma next_hops s (b : RIB F) (m : gmap Prefix route) :
  map_Forall (fun _ r => RI_NextHops r <> []) (map_imap (next_route s b) m).
Proof using.
  intros p r. rewrite map_lookup_imap. destruct (m !! p) as [x|]; [|done]. cbn [mbind option_bind]. unfold next_route.
  destruct (bool_decide _); [done|]. cbv zeta. set (nhs := resolveNextHops s b p (r_nextHops x)).
  destruct (length nhs =? 0)%nat eqn:E; [done|]. intros [= <-]. cbn [RI_NextHops]. intros Hn. by rewrite Hn in E.
Qed.

(** An update leaves the runtime configuration alone, whatever the state of the
    forwarding table. *)
Lemma updateRIB_setup s (b : RIB F) now s' b' :
  updateRIB (T := T) (info_orders o) (spf_orders o) (done_orders o) (route_orders o) (fa_orders o) s b now = Ok (s', b') ->
  setup b' = setup b.
Proof using.
  unfold updateRIB. cbv zeta. intros (x1 & H1 & (x & H2 & [= _ <-])%bind_Ok)%bind_Ok.
  apply level_turn_state in H1, H2. cbn [of_rib] in H1. rewrite H1 in H2. clear H1 x1.
  match goal with |- context [fold_left (warn_unresolved s) ?xs ?y] => set (b1 := fold_left (warn_unresolved s) xs y) end.
  assert (E1 : fibstate b1 = fibstate b) by (unfold b1; rewrite (fold_frame fibstate) by (intros; apply state_warn); exact H2).
  set (next := map_imap (next_route s b1) (merged x)) in *.
  pose proof (fixed_programFIB (watched s) (info_orders o) b1 next) as Hf.
  set (b2 := set_rib (programFIB (watched s) (info_orders o) b1 next) next) in *.
  assert (E2 : fibstate (report_counts s (routingAlgos b) next b2) = fibstate b2) by
    (unfold report_counts; apply (fold_frame fibstate); by intros ? []).
  set (b3 := report_counts _ _ next b2) in *.
  change (setup b3 = setup b). rewrite (f_equal snd E2 : setup b3 = setup b2), <- (f_equal snd E1 : setup b1 = setup b).
  exact (f_equal snd Hf).
Qed.

Lemma updateRIB_ok s b now s' b' :
  in_step table ours b ->
  updateRIB (T := T) (info_orders o) (spf_orders o) (done_orders o) (route_orders o) (fa_orders o) s b now = Ok (s', b') ->
  in_step table ours b' /\ current table ours b' /\ map_Forall (fun _ r => RI_NextHops r <> []) (rib b') /\ setup b' = setup b.
Proof using FIBLaws0 fair_o reliable.
  intros Hs Hu. apply updateRIB_setup in Hu as Hset. revert Hu. unfold updateRIB. cbv zeta. intros (x1 & H1 & (x & H2 & [= _ <-])%bind_Ok)%bind_Ok.
  apply level_turn_state in H1, H2. cbn [of_rib] in H1. rewrite H1 in H2. clear H1 x1.
  match goal with |- context [fold_left (warn_unresolved s) ?xs ?y] => set (b1 := fold_left (warn_unresolved s) xs y) end.
  assert (E1 : fibstate b1 = fibstate b) by (unfold b1; rewrite (fold_frame fibstate) by (intros; apply state_warn); exact H2).
  pose proof (next_hops s b1 (merged x)) as Hn. set (next := map_imap (next_route s b1) (merged x)) in *.
  destruct (program_in_step (watched s) b1 next) as (S1 & S2); [by eapply synced_state|done|].
  pose proof (fixed_programFIB (watched s) (info_orders o) b1 next) as Hf.
  set (b2 := set_rib (programFIB (watched s) (info_orders o) b1 next) next) in *.
  assert (E2 : fibstate (report_counts s (routingAlgos b) next b2) = fibstate b2) by
    (unfold report_counts; apply (fold_frame fibstate); by intros ? []).
  set (b3 := report_counts _ _ next b2) in *. cbn [rib_emit set_exchange rib locators].
  assert (Er : rib b3 = rib b2) by (by injection E2). assert (Ff : fibFilter (programFIB (watched s) (info_orders o) b1 next) = fibFilter b1) by (by injection Hf).
  split_and!.
  - eapply synced_state; [|exact S1]. exact E2.
  - eapply current_state; [exact E2|]. intros p Hp. specialize (S2 p Hp). fold b2 in S2. unfold wanted, accepted in *.
    cbn [b2 set_rib rib fibFilter] in *. by rewrite Ff.
  - by rewrite Er.
  - exact Hset.
Qed.

Lemma recompute_ok (x x' : Loop) now : node_ok table ours (node x) -> recompute (T := T) o x now = Ok x' -> node_ok table ours (node x').
Proof using FIBLaws0 fair_o reliable.
  intros [H1 Hc H2 H3 H4]. unfold recompute. cbv zeta. destruct (_ && _); [|by intros [= <-]].
  intros ([s b] & Hu & [= <-])%bind_Ok. apply updateRIB_ok in Hu as (U1 & Uc & U2 & U3); [|done].
  split; cbn [node set_routing set_core routing endXSIDs]; [done|done|done|done|].
  assert (El : locators b = locators (routing (node x))) by (by injection U3). by rewrite El.
Qed.

(** ** The arms *)

Lemma housekeeping_ok n now n' : node_ok table ours n -> housekeeping hmac o n now = Ok n' -> node_ok table ours n'.
Proof using FIBLaws0 fair_o reliable.
  intros Hn. unfold housekeeping. cbv zeta. intros (n1 & H1 & (n2 & H2 & (n3 & H3 & (n4 & H4 & (n5 & H5 & (n6 & H6 & H7)%bind_Ok)%bind_Ok)%bind_Ok)%bind_Ok)%bind_Ok)%bind_Ok.
  apply on_core_ok in H1; [|eapply node_ok_kept; [|exact Hn]; by split].
  assert (Hn2 : node_ok table ours n2).
  { unfold clear_overload in H2. cbv zeta in H2. destruct (_ && _); [|by injection H2 as <-].
    eapply regenerate_ok; [|exact H2]. by eapply node_ok_kept; [apply kept_core|]. }
  apply drain_ok in H3; [|done]. apply on_core_ok in H4; [|done]. apply refresh_ok in H5; [|done]. apply on_core_ok in H6; [|done].
  injection H7 as <-. eapply node_ok_kept; [apply kept_core|]. eapply node_ok_kept; [by apply kept_emit|].
  apply retry_fib_ok. eapply node_ok_kept; [apply kept_core|]. eapply node_ok_kept; [|exact H6].
  eapply kept_trans; [|apply kept_fold; intros; by apply kept_unprogramSID].
  unfold reassert_sids. destruct (_ && _); [|apply kept_refl]. unfold installLocalSIDs, installEndXSIDs.
  eapply kept_trans; apply kept_fold; intros; by apply kept_programSID.
Qed.

(** ** Operations *)

(** The prefixes a caller may pass are those of net/netip. *)
Definition operation_ok (op : operation) : Prop :=
  match op with
  | OpAddLocator lc => addr_ok (p_addr (LC_Prefix lc)) /\ 0 <= p_bits (LC_Prefix lc) <= 128
  | _ => True
  end.

(** The parts of a node an operation may write besides the protocol state. *)
Record kept_tables (n n' : Node F) : Prop := {
  kt_fib : fib (routing n') = fib (routing n);
  kt_rib : rib (routing n') = rib (routing n);
  kt_pending : fibPending (routing n') = fibPending (routing n);
  kt_installed : fibInstalled (routing n') = fibInstalled (routing n);
  kt_filter : fibFilter (routing n') = fibFilter (routing n);
  kt_sids : endXSIDs n' = endXSIDs n
}.

Lemma node_ok_tables n n' :
  kept_tables n n' -> Forall config_ok (locators (routing n')) -> node_ok table ours n -> node_ok table ours n'.
Proof using.
  intros [K1 K2 K3 K4 K5 K6] Hl [H1 Hc H2 H3 H4]. split; [| |by rewrite K2|by rewrite K6|done].
  - intros p Hp. specialize (H1 p Hp). unfold status_of in *. by rewrite K1, K2, K3, K4.
  - intros p Hp. specialize (Hc p Hp). unfold wanted, accepted in *. by rewrite K1, K2, K3, K5.
Qed.

Lemma prefixes_kept n name m : kept table n (setCircuitPrefixes n name m).
Proof using. by split. Qed.

Lemma AddLocator_ok n lc now n' e :
  operation_ok (OpAddLocator lc) -> node_ok table ours n -> perform hmac o (OpAddLocator lc) now n = Ok (n', e) -> node_ok table ours n'.
Proof using FIBLaws0.
  intros [Ha Hb] Hn. cbn [perform]. unfold AddLocator, refuse, agree. cbv zeta.
  destruct (_ || _) eqn:E6; [by intros [= <- <-]|]. destruct (_ && _); [by intros [= <- <-]|].
  destruct (list_find _ _) as [[i cur]|]; [by intros [= <- <-]|]. intros [= <- <-].
  eapply node_ok_kept; [apply kept_core|]. eapply node_ok_kept; [by apply kept_programSID|].
  apply (node_ok_tables n); [by split| |exact Hn]. cbn. apply Forall_app. split; [apply Hn|]. constructor; [|constructor].
  destruct (p_addr (LC_Prefix lc)) as [|b|b] eqn:E; [done..|]. by exists b.
Qed.

Lemma DeleteLocator_ok n p n' e : node_ok table ours n -> DeleteLocator n p = Ok (n', e) -> node_ok table ours n'.
Proof using FIBLaws0.
  intros Hn. unfold DeleteLocator, refuse, agree. destruct (list_find _ _) as [[i cur]|]; [|by intros [= <- <-]].
  intros [= <- <-]. eapply node_ok_kept; [apply kept_core|]. eapply node_ok_kept; [by apply kept_unprogramSID|].
  apply (node_ok_tables n); [by split| |exact Hn]. cbn. apply Forall_delete, Hn.
Qed.

Lemma config_ops_ok op now n n' e :
  match op with OpAddFlexAlgo _ | OpDeleteFlexAlgo _ | OpAddPrefix _ | OpDeletePrefix _ | OpSetOverload _ | OpClearAdjacency _ _ => True | _ => False end ->
  node_ok table ours n -> perform hmac o op now n = Ok (n', e) -> node_ok table ours n'.
Proof using.
  intros Hop Hn. destruct op; try done; cbn [perform];
    unfold AddFlexAlgo, DeleteFlexAlgo, AddPrefix, DeletePrefix, SetOverload, ClearAdjacency, refuse, agree; cbv zeta;
    repeat case_match; intros [= <- <-]; (apply (node_ok_tables n); [by split|apply Hn|exact Hn]).
Qed.

Lemma circuit_ops_ok op now n n' e :
  match op with OpSetCircuitAddresses _ _ _ _ | OpSetCircuitLinkState _ _ => True | _ => False end ->
  node_ok table ours n -> perform hmac o op now n = Ok (n', e) -> node_ok table ours n'.
Proof using.
  intros Hop Hn Hp. eapply node_ok_kept; [|exact Hn]. revert Hp.
  destruct op; try done; cbn [perform];
    unfold SetCircuitAddresses, SetCircuitLinkState, refuse, agree; cbv zeta;
    repeat (case_match; try (intros [= <- <-]; by split));
    intros (n1 & Hk%(on_core_kept table) & [= <- <-])%bind_Ok; destruct Hk; by split.
Qed.

Lemma addCircuit_ok n k conn now n' e : node_ok table ours n -> addCircuit hmac o n k conn now = Ok (n', e) -> node_ok table ours n'.
Proof using FIBLaws0 fair_o.
  intros Hn. unfold addCircuit, refuse, agree. intros (ok & _ & Ha)%bind_Ok. destruct (negb ok); [by injection Ha as <- <-|].
  cbv zeta in Ha. destruct (circuitNamed _ _) as [[i cur]|]; [by injection Ha as <- <-|].
  destruct (_ <? _); [by injection Ha as <- <-|]. unfold allocCircuitIDs in Ha. destruct (next_octet _ _ _) as [pn|]; [|by injection Ha as <- <-].
  apply bind_Ok in Ha as (n1 & H1 & (n2 & H2 & [= <- <-])%bind_Ok).
  eapply regenerate_ok; [|exact H2]. eapply on_core_ok; [|exact H1]. eapply node_ok_kept; [|exact Hn]. by split.
Qed.

Lemma deleteCircuit_ok n name now n' e : node_ok table ours n -> deleteCircuit hmac o n name now = Ok (n', e) -> node_ok table ours n'.
Proof using FIBLaws0 fair_o.
  intros Hn. unfold deleteCircuit, refuse, agree. destruct (circuitNamed _ _) as [[i c]|]; [|by intros [= <- <-]].
  cbv zeta. intros (n1 & H1 & (n2 & H2 & (n3 & H3 & (n4 & H4 & [= <- <-])%bind_Ok)%bind_Ok)%bind_Ok)%bind_Ok.
  apply on_core_ok in H1; [|eapply node_ok_kept; [|exact Hn]; by split].
  apply on_core_ok in H2; [|done]. apply on_core_ok in H3; [|done]. eapply node_ok_kept; [apply kept_core|].
  match type of H4 with (if _ then mret (ask_regen ?y) else _) = _ => assert (Hy : node_ok table ours y) end.
  { eapply node_ok_kept; [|exact H3]. by split. }
  destruct (_ =? _); [|by eapply regenerate_ok]. injection H4 as <-. by eapply node_ok_kept; [apply kept_core|].
Qed.

Lemma perform_ok op now n n' e : operation_ok op -> node_ok table ours n -> perform hmac o op now n = Ok (n', e) -> node_ok table ours n'.
Proof using FIBLaws0 fair_o.
  intros Hop Hn Hp. destruct op; try (by eapply config_ops_ok; [..|exact Hp]); try (by eapply circuit_ops_ok; [..|exact Hp]);
    [by eapply AddLocator_ok|by eapply DeleteLocator_ok|by eapply addCircuit_ok|by eapply deleteCircuit_ok].
Qed.

(** ** Turns *)

Definition arm_ok (a : arm) : Prop := match a with OnOperation op => operation_ok op | _ => True end.

Lemma turn_ok (x x' : Loop) a t :
  arm_ok a -> node_ok table ours (node x) -> turn (T := T) hmac o x a t = Ok x' -> node_ok table ours (node x').
Proof using FIBLaws0 fair_o reliable.
  intros Ha Hn. unfold turn, settle. intros (x1 & H1 & (n2 & H2 & H3)%bind_Ok)%bind_Ok.
  eapply recompute_ok; [|exact H3]. cbn [node]. eapply drain_ok; [|exact H2]. revert H1. destruct a as [ev| | |op]; cbn [handle].
  - intros (n1 & H1 & [= <-])%bind_Ok. by eapply on_core_ok.
  - intros (n1 & H1 & [= <-])%bind_Ok. by eapply housekeeping_ok.
  - by intros [= <-].
  - intros (n1 & ([n1' e] & H1 & [= ->])%bind_Ok & [= <-])%bind_Ok. by eapply perform_ok.
Qed.

(** A change of the topology is never left without a recomputation under way: it
    was done in the turn, or the hold that will end in one is running. *)
Lemma turn_held (x x' : Loop) a t :
  turn (T := T) hmac o x a t = Ok x' -> spfDirty (core (node x')) = true -> holding x' = true.
Proof using.
  unfold turn, settle. intros (x1 & _ & (n2 & _ & H3)%bind_Ok)%bind_Ok. unfold recompute in H3. cbn [node holding] in H3.
  destruct (spfDirty (core n2)) eqn:E; cbn [andb] in H3; [|injection H3 as <-; cbn; congruence].
  destruct (holding x1) eqn:Eh; cbn [negb] in H3; [by injection H3 as <-|].
  by apply bind_Ok in H3 as ([s b] & _ & [= <-]).
Qed.
End Turn.

Lemma run_keeps (x x' : Loop) turns :
  Forall (fun t => fair t.1.1 /\ arm_ok t.1.2) turns -> node_ok table ours (node x) ->
  run (T := T) hmac x turns = Ok x' -> node_ok table ours (node x').
Proof using FIBLaws0 reliable.
  intros Ht. revert x. induction Ht as [|[[o a] t] turns [Ho Ha] _ IH]; intros x Hn; cbn [run]; [by intros [= <-]|].
  intros (x1 & H1 & H2)%bind_Ok. apply (IH x1); [|done]. by eapply turn_ok.
Qed.

(** ** From the start *)

(** The locators of an option set, as net/netip has prefixes. *)
Definition options_ok (op : options F) : Prop :=
  Forall (fun lc => addr_ok (p_addr (LC_Prefix lc)) /\ 0 <= p_bits (LC_Prefix lc) <= 128) (o_locators op).

(** A node that has programmed nothing. *)
Record fresh (n : Node F) : Prop := {
  fresh_rib : rib (routing n) = ∅;
  fresh_pending : fibPending (routing n) = ∅;
  fresh_installed : fibInstalled (routing n) = ∅;
  fresh_locators : Forall config_ok (locators (routing n));
  fresh_sids : allocated (endXSIDs n)
}.

Lemma install_fresh kps n n' : fresh n -> install_circuits n kps = Some n' -> fresh n' /\ fib (routing n') = fib (routing n).
Proof using.
  revert n. induction kps as [|kp kps IH]; intros n Hn; cbn [install_circuits]; [by intros [= <-]|].
  destruct (install_circuit n kp) as [n1|] eqn:E; [|done]. cbn [mbind option_bind]. intros Hi.
  assert (Hf : fresh n1 /\ fib (routing n1) = fib (routing n)).
  { unfold install_circuit, allocCircuitIDs in E. cbv zeta in E. destruct (next_octet _ _ _); [|done]. cbn [mbind option_bind] in E.
    injection E as <-. destruct Hn. by split; [split|]. }
  destruct (IH n1 (proj1 Hf) Hi) as [? ?]. split; [done|]. destruct Hf. congruence.
Qed.

Lemma new_fresh op n : options_ok op -> NewIsisServer op = Ok (Some n) -> fresh n /\ fib (routing n) = o_fib op.
Proof using.
  intros Hop. unfold NewIsisServer. intros (ok & Hv & Hn)%bind_Ok. destruct ok; cbn [negb] in Hn; [|done].
  destruct (install_circuits _ _) as [n1|] eqn:E; [|done]. cbv zeta in Hn.
  assert (Hl : Forall config_ok (o_locators op)).
  { unfold options_validate in Hv. destruct (_ || _); [done|]. destruct (negb (forallb checkAdvertisedPrefix _)); [done|].
    destruct (valid_algos _ _) as [part|]; [|done]. destruct (forallb (valid_locator part) (o_locators op)) eqn:El; [|done].
    apply Forall_forall. intros lc Hin. pose proof (proj1 (Forall_forall _ _) Hop lc Hin) as [Ha Hb].
    rewrite forallb_forall in El. specialize (El lc (proj1 (list_elem_of_In _ _) Hin)). unfold valid_locator in El.
    destruct (p_addr (LC_Prefix lc)) as [|b|b] eqn:Ep; [done..|]. by exists b. }
  apply install_fresh in E as [[F1 F2 F3 F4 F5] Ef]; [|by split]. destruct (_ <? _) in Hn; [done|]. injection Hn as <-. by split; [split|].
Qed.

Lemma same_fib_fresh n n' :
  same_fib table n n' -> allocated (endXSIDs n') -> fresh n -> fresh n' /\ table (fib (routing n')) = table (fib (routing n)).
Proof using.
  intros [K1 K2 K3 K4 K5 K6 _ _ _] Ha [F1 F2 F3 F4 F5]. cbn in *. split; [|done]. split; congruence.
Qed.

Lemma regenerate_fresh o n force now n' : fair o -> fresh n -> regenerate hmac o n force now = Ok n' ->
  fresh n' /\ table (fib (routing n')) = table (fib (routing n)).
Proof using FIBLaws0.
  intros Ho Hn. unfold regenerate, regenerateLSPs. intros (n1 & H1 & H2)%bind_Ok.
  pose proof (sync_same table _ _ _ _ H1) as Hs.
  destruct (sync_steps (sid_orders o) (fair_sids o Ho) n now (fresh_locators n Hn) (fresh_sids n Hn)) as (n2 & Hn2 & _ & A & _).
  assert (n2 = n1) as -> by congruence. destruct (same_fib_fresh n n1 Hs A Hn) as [F1 E1].
  apply regenerate_levels_core in H2. pose proof H2 as [_ _ _ _ _ _ Ks _ _]. apply kept_same in H2.
  destruct (same_fib_fresh n1 n' H2) as [F2 E2]; [by rewrite Ks; apply F1|done|]. split; [done|congruence].
Qed.

(** A SID of the node's own: the End SID of a locator, or an End.X SID. *)
Definition own_sid (n : Node F) (a : Addr) : Prop :=
  (exists lc, lc ∈ locators (routing n) /\ endSID lc = a) \/ (exists k e, endXSIDs n !! k = Some e /\ sid e = a).

Lemma localSIDs_own o (n : Node F) a : fair o -> a ∈ localSIDs (sid_orders o) n -> own_sid n a.
Proof using.
  clear. intros Ho. unfold localSIDs, own_sid. rewrite elem_of_app, !list_elem_of_fmap. intros [(lc & -> & Hl)|([k e] & -> & He)].
  - left. by exists lc.
  - right. exists k, e. split; [|done]. rewrite (fair_sids o Ho) in He. by apply elem_of_map_to_list in He.
Qed.

(** What a previous run left is swept, the routes to the node's own SIDs apart. *)
Lemma start_ok o n now n' :
  fair o -> (forall f keep, (Sweep f keep).2 = true) ->
  (forall p a, ours p -> is_Some (table (fib (routing n)) !! p) -> own_sid n' a -> p <> PrefixFrom a 128) ->
  fresh n -> start hmac o n now = Ok n' -> node_ok table ours n'.
Proof using FIBLaws0.
  clear reliable. intros Ho Hsw Hours Hn. unfold start. cbv zeta. intros (n1 & H1 & (n2 & H2 & E)%bind_Ok)%bind_Ok.
  injection E as <-.
  assert (Hn1 : fresh n1 /\ fib (routing n1) = fib (routing n)).
  { apply bind_Ok in H1 as (s & _ & [= <-]). unfold startup_overload. case_match; destruct Hn; by split; [split|]. }
  destruct Hn1 as [Hn1 E1]. destruct (regenerate_fresh o n1 false now n2 Ho Hn1 H2) as [Hn2 E2]. rewrite E1 in E2. clear H1 H2 Hn1 E1.
  assert (Hk : kept table (startup_sweep o n2) (installLocalSIDs (sid_orders o) (startup_sweep o n2))).
  { unfold installLocalSIDs, installEndXSIDs. eapply kept_trans; apply kept_fold; intros; by apply kept_programSID. }
  assert (Hsids : forall a, own_sid n2 a -> own_sid (installLocalSIDs (sid_orders o) (startup_sweep o n2)) a).
  { intros a. destruct Hk as [_ _ _ _ _ Kl Ks _ _ _]. unfold own_sid. rewrite Kl, Ks. unfold startup_sweep. cbv zeta.
    by destruct (Sweep _ _) as [f []]. }
  eapply node_ok_kept; [exact Hk|]. clear Hk. revert Hours Hsids. generalize (installLocalSIDs (sid_orders o) (startup_sweep o n2)).
  intros n' Hours Hsids. unfold startup_sweep. cbv zeta. set (own := list_to_set _ : gset Prefix). set (keep := fun p => bool_decide _ || _).
  pose proof (Hsw (fib (routing n2)) keep) as Hok. pose proof (sweep_removes (fib (routing n2)) keep Hok) as Ht.
  destruct (Sweep _ _) as [f ok]. cbn [fst snd] in Ht, Hok. subst ok. destruct Hn2 as [F1 F2 F3 F4 F5].
  assert (Hempty : forall p, ours p -> table f !! p = None).
  { intros p Hp. rewrite Ht, E2, map_lookup_filter. destruct (table (fib (routing n)) !! p) as [nhs|] eqn:Ep; [|done].
    cbn [mbind option_bind]. unfold keep. rewrite F1, lookup_empty. rewrite bool_decide_false by (by intros []). cbn [orb].
    destruct (decide (p ∈ own)) as [Hin|Hin]; [|by rewrite bool_decide_false].
    exfalso. unfold own in Hin. rewrite elem_of_list_to_set in Hin. apply list_elem_of_fmap in Hin as (a & -> & Ha).
    apply (Hours _ a Hp); [by eexists|by eapply Hsids, localSIDs_own|done]. }
  split; cbn [set_routing set_fib routing rib fib fibInstalled fibPending locators endXSIDs]; [| |by rewrite F1; apply map_Forall_empty|done|done].
  2: { intros p Hp. unfold wanted. cbn [set_fib fib rib fibPending]. rewrite F1, F2, Hempty, !lookup_empty by done. set_solver. }
  intros p Hp. unfold agrees, status_of. cbn [set_fib rib fib fibInstalled fibPending s_table s_installed s_pending].
  rewrite F1, F2, F3, Hempty, !lookup_empty, !bool_decide_false by (set_solver || done). done.
Qed.
End Turns.

Section Served.
Context {F : Type} `{FIB F} (table : F -> gmap Prefix (list NextHopInfo)) `{!FIBLaws F table}.
Context (reliable : forall f p, (Withdraw f p).2 = true).
Context {T : Type} `{TentativeSet T} (hmac : AuthAlgorithm -> bytes -> bytes -> bytes).

(** A route a previous run left to what is now the address of one of the node's SIDs:
    the sweep takes it for the SID. *)
Definition spared (f : F) (n : Node F) (p : Prefix) : Prop :=
  is_Some (table f !! p) /\ exists a, own_sid n a /\ p = PrefixFrom a 128.

(** C6: whatever frames arrive, whatever a management client asks and whatever
    writes fail, in whatever order Go visits its maps: from the node
    [NewIsisServer] builds and [Serve] starts, after any number of turns the
    forwarding table holds, of every prefix that is not pending, exactly the next
    hops of its route in the RIB where the policy accepts it and nothing
    otherwise, whatever a previous run left there; nothing but routes of the RIB
    that the policy accepts is pending; every End.X SID is the one its locator gives
    its function, which no other of that locator has; and a topology change is
    either computed or waits for a hold that is running.  (Of the prefixes, one is
    excepted: the host route to the address of a SID the node starts with, where a
    previous run left a route to it, which the sweep takes for the SID.  Provided no
    withdrawal fails, nor the sweep at startup, and that addresses have the octets
    net/netip gives them.) *)
Theorem serve_keeps op n0 o now n1 turns (x : Loop) :
  options_ok op -> NewIsisServer op = Ok (Some n0) -> (forall f keep, (Sweep f keep).2 = true) ->
  fair o -> start hmac o n0 now = Ok n1 ->
  Forall (fun t => fair t.1.1 /\ arm_ok t.1.2) turns -> run (T := T) hmac (mkLoop n1 false) turns = Ok x ->
  let b := routing (node x) in
  (forall p, ~ spared (o_fib op) n1 p ->
    (p ∉ fibPending b -> table (fib b) !! p = wanted b (rib b) p) /\
    (p ∈ fibPending b -> exists r, rib b !! p = Some r /\ accepted b r = true)) /\
  allocated (endXSIDs (node x)) /\
  (turns <> [] -> spfDirty (core (node x)) = true -> holding x = true).
Proof using FIBLaws0 reliable.
  intros Hop Hnew Hsw Ho Hst Ht Hrun. destruct (new_fresh op n0 Hop Hnew) as [Hf Ef].
  set (ours p := ~ spared (o_fib op) n1 p).
  assert (Hn1 : node_ok table ours n1).
  { apply (start_ok table ours hmac o n0 now n1 Ho Hsw); [|done|done]. rewrite Ef. intros p a Hp Hs Ha ->. apply Hp.
    split; [done|]. by exists a. }
  pose proof (run_keeps table ours reliable hmac (mkLoop n1 false) x turns Ht Hn1 Hrun) as [_ Hc _ Ha _].
  cbv zeta. split; [|split; [done|]].
  - intros p Hp. destruct (Hc p Hp) as [H1 H2]. split; [done|]. intros Hpd. apply H2 in Hpd. unfold wanted in Hpd.
    destruct (rib (routing (node x)) !! p) as [r|]; [|by destruct Hpd]. cbn [mbind option_bind] in Hpd. exists r. split; [done|].
    by destruct (accepted _ r); [|destruct Hpd].
  - intros Hne. clear -Hrun Hne. revert Hrun. generalize (mkLoop n1 false) as x0. intros x0.
    destruct (exists_last Hne) as (ts & [[o' a] t] & ->). revert x0. induction ts as [|[[o1 a1] t1] ts IH]; intros x0; cbn [app run].
    + intros (x1 & H1 & [= <-])%bind_Ok. by eapply turn_held.
    + intros (x1 & _ & H1)%bind_Ok. apply (IH ltac:(by destruct ts) x1 H1).
Qed.
End Served.

(** ** A run

    A router with one LAN circuit and an SRv6 locator, over a kernel that holds
    two stale routes, one of them to a host, and fails the first update; a prefix is added, the circuit's
    addresses change and the circuit is deleted. *)
Definition map_orders : Oracle :=
  mkOracle (fun _ => 0) 0 (fun _ => true) 0 (fun s l => (map_to_list (default ∅ (dbs s !! l))).*1)
    (fun s => [Level1; Level2] ≫= fun l => pair l <$> (map_to_list (default ∅ (dbs s !! l))).*1)
    (fun _ => map_to_list)
    (fun s i l => match circuits s !! i with Some c => (map_to_list (default ∅ (srm c !! l))).*1 | None => [] end)
    (fun s i l => match circuits s !! i with Some c => elements (default ∅ (ssn c !! l)) | None => [] end)
    (fun _ => map_to_list) elements (fun _ => map_to_list) (fun _ => map_to_list) (fun _ _ _ => map_to_list)
    (fun _ _ _ => map_to_list) (fun _ => map_to_list).

Definition stale_net : Prefix := mkPrefix (Addr4 [10; 9; 0; 0]) 16.
Definition stale_host : Prefix := mkPrefix (Addr6 [32; 1; 13; 184; 0; 0; 0; 0; 0; 0; 0; 0; 0; 0; 0; 9]) 128.
Definition demo_options : options kernel :=
  mkOptions [2; 0; 0; 0; 0; 9] [[73; 0; 1]] []
    [(mkCircuitConfig "eth0" (mkTransport [2; 0; 0; 0; 0; 9] 1500) false false true None 0 0 0 [] [] [] (Some false) None []
        AuthMD5 0 [], [site_net])]
    [] [] [link_locator] [] ({[ stale_net := [mkNextHop "eth9" AddrZero]; stale_host := [mkNextHop "eth9" AddrZero] ]}, [false]) 0
    (mkAuthConfig AuthMD5 0 [] []) (mkAuthConfig AuthMD5 0 [] []) None None None 0 0.

Definition at_time (t : Z) : moment := mkMoment t (t + 1) (t + 2).

Definition demo_turns : list (Oracle * arm * moment) :=
  [(map_orders, OnTick, at_time Second);
   (map_orders, OnOperation (OpAddPrefix (mkAdvertised far_net 7)), at_time (Second + 5));
   (map_orders, OnEvent (RxEvent 1 [2; 0; 0; 0; 0; 7] [131; 27]), at_time (Second + 6));
   (map_orders, OnHold, at_time (2 * Second));
   (map_orders, OnOperation (OpSetCircuitAddresses "eth0" [Addr4 [10; 1; 0; 1]] [] [site_net]), at_time (3 * Second));
   (map_orders, OnOperation (OpDeleteCircuit "eth0"), at_time (4 * Second))].

Definition demo_start := start (H := flaky_updates) (fun _ _ _ => []) map_orders.
Definition demo_loop (n1 : Node kernel) := run (H := flaky_updates) (T := tentSet) (fun _ _ _ => []) (mkLoop n1 false) demo_turns.

(** Whether the hold runs, whether the topology changed since, and the circuits
    left. *)
Definition demo_facts (x : Loop (F := kernel)) : bool * bool * nat :=
  (holding x, spfDirty (core (node x)), length (circuits (core (node x)))).

Definition demo_run : option (bool * bool * nat) :=
  match NewIsisServer demo_options with
  | Ok (Some n0) =>
      match demo_start n0 0 with
      | Ok n1 => match demo_loop n1 with Ok x => Some (demo_facts x) | _ => None end
      | _ => None
      end
  | _ => None
  end.

Lemma run_steps {A B C D} (a : outcome (option A)) (f : A -> outcome B) (g : B -> outcome C) (h : C -> D) d :
  match a with
  | Ok (Some n0) => match f n0 with Ok n1 => match g n1 with Ok x => Some (h x) | _ => None end | _ => None end
  | _ => None
  end = Some d -> exists n0 n1 x, a = Ok (Some n0) /\ f n0 = Ok n1 /\ g n1 = Ok x /\ h x = d.
Proof.
  destruct a as [[n0|]| |]; [|discriminate..]. destruct (f n0) as [n1| |] eqn:E1; [|discriminate..].
  destruct (g n1) as [x| |] eqn:E2; [|discriminate..]. intros [= <-]. by exists n0, n1, x.
Qed.

(** The SIDs a node has. *)
Definition own_list (n : Node kernel) : list Addr :=
  (endSID <$> locators (routing n)) ++ ((fun ke => sid ke.2) <$> map_to_list (endXSIDs n)).

Lemma own_list_in (n : Node kernel) a : own_sid n a -> a ∈ own_list n.
Proof.
  unfold own_list. rewrite elem_of_app, !list_elem_of_fmap. intros [(lc & Hl & <-)|(k & e & He & <-)]; [left; by exists lc|right].
  exists (k, e). split; [done|]. by apply elem_of_map_to_list.
Qed.

Lemma demo_sids :
  match NewIsisServer demo_options with
  | Ok (Some n0) => match demo_start n0 0 with Ok n1 => own_list n1 | _ => [] end
  | _ => []
  end = [endSID link_locator].
Proof. vm_compute. reflexivity. Qed.

Lemma serve_keeps_witness :
  exists n0 n1 x, NewIsisServer demo_options = Ok (Some n0) /\ demo_start n0 0 = Ok n1 /\ demo_loop n1 = Ok x /\
    demo_facts x = (true, true, 0%nat) /\ allocated (endXSIDs (node x)) /\
    (stale_net ∉ fibPending (routing (node x)) ->
      (fib (routing (node x))).1 !! stale_net = wanted (routing (node x)) (rib (routing (node x))) stale_net) /\
    (stale_host ∉ fibPending (routing (node x)) ->
      (fib (routing (node x))).1 !! stale_host = wanted (routing (node x)) (rib (routing (node x))) stale_host).
Proof.
  destruct (run_steps (NewIsisServer demo_options) (fun n0 => demo_start n0 0) demo_loop demo_facts (true, true, 0%nat))
    as (n0 & n1 & x & E0 & E1 & E2 & Ef); [vm_compute; reflexivity|].
  destruct (serve_keeps (F := kernel) (H := flaky_updates) fst (FIBLaws0 := flaky_updates_laws) (fun _ _ => eq_refl) (T := tentSet)
    (fun _ _ _ => []) demo_options n0 map_orders 0 n1 demo_turns x) as (H1 & H4 & _).
  - apply Forall_cons. split; [|apply Forall_nil_2]. split; [|cbn; lia]. split; [reflexivity|]. apply octetsb_ok. vm_compute. reflexivity.
  - exact E0.
  - intros f keep. reflexivity.
  - split; reflexivity.
  - exact E1.
  - repeat apply Forall_cons_2; try apply Forall_nil_2; (split; [split; reflexivity|exact I]).
  - exact E2.
  - exists n0, n1, x. split; [exact E0|]. split; [exact E1|]. split; [exact E2|]. split; [exact Ef|]. split; [exact H4|].
    pose proof demo_sids as Hs. rewrite E0, E1 in Hs.
    split; apply H1; intros [_ (a & Ha%own_list_in & Ep)]; rewrite Hs in Ha; apply list_elem_of_singleton in Ha as ->;
      vm_compute in Ep; discriminate Ep.
Defined.

(** ** Readers *)

Definition receipt_event (ext : Z) (r : receipt) : option event :=
  match r with Received src pdu => Some (RxEvent ext src pdu) | RecvError => Some (RxErrEvent ext) | RecvErrClosed => None end.

(** How often a receive fails after one that did not; [out]: whether it fails now. *)
Fixpoint outages (out : bool) (rs : list receipt) : nat :=
  match rs with
  | [] => 0
  | RecvError :: rs => (if out then 0 else 1) + outages true rs
  | Received _ _ :: rs => outages false rs
  | RecvErrClosed :: _ => 0
  end%nat.

(** While the context runs, a reader hands the loop every frame in order and one
    event for each failed receive, warns once for each outage however long it lasts,
    and does not return before the transport is closed. *)
Theorem readLoop_forwards name ext warned rs :
  Forall (fun r => r <> RecvErrClosed) rs ->
  readLoop name ext warned ((fun r => (r, true, true)) <$> rs) = (omap (receipt_event ext) rs, outages (bool_decide (name ∈ warned)) rs, false) /\
  readLoop name ext warned ((fun r => (r, true, true)) <$> rs ++ [RecvErrClosed]) =
    (omap (receipt_event ext) rs, outages (bool_decide (name ∈ warned)) rs, true).
Proof.
  intros Hr. revert warned. induction Hr as [|r rs Hc _ IH]; intros warned; [done|]. cbn [app fmap list_fmap readLoop omap list_omap outages].
  destruct r as [src pdu| |]; [|done|]; cbn [read_turn].
  - destruct (IH (edge_clear name warned)) as [-> ->]. assert (Hn : name ∉ edge_clear name warned) by (unfold edge_clear; set_solver).
    by rewrite (bool_decide_false _ Hn).
  - destruct (decide (name ∈ warned)) as [Hw|Hw].
    + assert (E : edge_warn name warned = (warned, false)) by (unfold edge_warn; by rewrite decide_True).
      rewrite E. cbn [negb]. cbv iota beta. destruct (IH warned) as [-> ->]. by rewrite bool_decide_true by done.
    + assert (E : edge_warn name warned = ({[ name ]} ∪ warned, true)) by (unfold edge_warn; by rewrite decide_False).
      rewrite E. cbn [negb]. cbv iota beta. destruct (IH ({[ name ]} ∪ warned)) as [-> ->]. rewrite (bool_decide_false (name ∈ warned)) by done. by rewrite bool_decide_true by set_solver.
Qed.

(** ** The data link *)

(** [frames_received], as one pass over the events of the socket. *)
Fixpoint unrolled (mtu : Z) (closed : bool) (evs : list sock_event) : list receipt :=
  match evs with
  | [] => []
  | SockClosed :: evs => unrolled mtu true evs
  | SockError :: evs => (if closed then RecvErrClosed else RecvError) :: unrolled mtu closed evs
  | SockData data from :: evs =>
      let d := take (Z.to_nat mtu + length llcHeader + 64) data in
      (if (length d <? length llcHeader)%nat then [] else
       match from with
       | Some mac => if (length mac =? 6)%nat then [Received mac (drop (length llcHeader) d)] else []
       | None => []
       end) ++ unrolled mtu closed evs
  end.

Lemma receipts_unrolled n mtu closed evs : (length evs <= n)%nat -> receipts n mtu closed evs = unrolled mtu closed evs.
Proof.
  revert n closed. induction evs as [|e evs IH]; intros n closed Hn; [by destruct n|]. destruct n as [|n]; [cbn in Hn; lia|]. cbn in Hn.
  assert (Hskip : forall c, receipts (S n) mtu c evs = unrolled mtu c evs) by (intros c; apply IH; lia). cbn [receipts Recv unrolled]. cbn [receipts] in Hskip.
  destruct e as [data from| |]; cbv zeta; [|by rewrite IH by lia|by rewrite <- Hskip].
  destruct (_ <? _)%nat; [by rewrite <- Hskip|]. destruct from as [mac|]; [|by rewrite <- Hskip].
  destruct (length mac =? 6)%nat; [|by rewrite <- Hskip]. cbn [negb app]. by rewrite IH by lia.
Qed.

Lemma unrolled_app mtu evs evs' : Forall (fun e => e <> SockClosed) evs -> unrolled mtu false (evs ++ evs') = unrolled mtu false evs ++ unrolled mtu false evs'.
Proof. induction 1 as [|e evs He _ IH]; [done|]. cbn [app unrolled]. destruct e; [|by rewrite IH|done]. cbv zeta. by rewrite IH, app_assoc. Qed.

(** What happens on the link of a circuit: a frame comes, or a receive fails. *)
Inductive link_event : Type := Arrives (src : SNPA) (frame : bytes) | Fails.

(** What the kernel hands the socket of it. *)
Definition socket (w : link_event) : list sock_event :=
  match w with Arrives src f => if llcFilter f then [SockData f (Some src)] else [] | Fails => [SockError] end.

(** The event the loop is to get. *)
Definition heard (ext : Z) (w : link_event) : option event :=
  match w with
  | Arrives src f => if llcFilter f then Some (RxEvent ext src (drop (length llcHeader) f)) else None
  | Fails => Some (RxErrEvent ext)
  end.

(** A frame with an LLC header, no longer than the receive buffer. *)
Definition fits (mtu : Z) (w : link_event) : Prop :=
  match w with Arrives src f => length src = 6%nat /\ (3 <= length f <= Z.to_nat mtu + 67)%nat | Fails => True end.

Definition link_receipt (w : link_event) : option receipt :=
  match w with Arrives src f => if llcFilter f then Some (Received src (drop (length llcHeader) f)) else None | Fails => Some RecvError end.

Lemma unrolled_link mtu ws evs : Forall (fits mtu) ws -> unrolled mtu false ((ws ≫= socket) ++ evs) = omap link_receipt ws ++ unrolled mtu false evs.
Proof.
  induction 1 as [|w ws Hw _ IH]; [done|]. cbn [mbind list_bind omap list_omap]. rewrite <- app_assoc. destruct w as [src f|]; cbn [socket link_receipt].
  - destruct Hw as [Hs Hf]. destruct (llcFilter f); [|exact IH]. cbn [app unrolled]. cbv zeta. rewrite take_ge by (cbn; lia).
    rewrite (proj2 (Nat.ltb_ge _ _)) by (cbn; lia). rewrite Hs. cbn [Nat.eqb app]. by rewrite IH.
  - cbn [app unrolled]. by rewrite IH.
Qed.

Lemma link_receipts_open (ws : list link_event) : Forall (fun r => r <> RecvErrClosed) (omap link_receipt ws).
Proof. induction ws as [|w ws IH]; [constructor|]. cbn [omap list_omap]. destruct w as [src f|]; cbn [link_receipt]; [destruct (llcFilter f)|]; by try constructor. Qed.

Lemma link_events ext (ws : list link_event) : omap (receipt_event ext) (omap link_receipt ws) = omap (heard ext) ws.
Proof. induction ws as [|w ws IH]; [done|]. cbn [omap list_omap]. rewrite <- IH. destruct w as [src f|]; cbn; [by destruct (llcFilter f)|done]. Qed.

(** C28: What one node sends on a link is what the loop of the next is handed: the
    reader turns every frame the kernel passes into one event, in order, with the
    sender's address and the octets after the LLC header, and every failed receive
    into one; a failing socket never ends it, closing the transport does.  The frame
    of a PDU passes the filter however the link pads it, and trimming gives back
    exactly the octets that were serialized, which decode to the PDU. *)
Theorem link_delivers name ext mtu (ws : list link_event) :
  Forall (fits mtu) ws ->
  let reader evs := readLoop name ext ∅ ((fun r => (r, true, true)) <$> frames_received mtu evs) in
  let open := reader (ws ≫= socket) in
  let closed := reader ((ws ≫= socket) ++ [SockClosed; SockError]) in
  open.1.1 = omap (heard ext) ws /\ open.2 = false /\ closed.1.1 = omap (heard ext) ws /\ closed.2 = true /\
  forall src p p' b pad, PDU_ok p -> PDU_Serialize p = Ok (b, p') -> Z.of_nat (length b) <= 65535 ->
    heard ext (Arrives src (Send b ++ pad)) = Some (RxEvent ext src (b ++ pad)) /\
    TrimToPDULength (b ++ pad) = Ok b /\ DecodePDU b = Ok p'.
Proof.
  intros Hf reader. cbv zeta. subst reader. cbv beta. unfold frames_received. rewrite !receipts_unrolled by done.
  pose proof (unrolled_link mtu ws [] Hf) as E. cbn [unrolled] in E. rewrite !app_nil_r in E. rewrite E, unrolled_link by done. cbn [unrolled].
  destruct (readLoop_forwards name ext ∅ (omap link_receipt ws) (link_receipts_open ws)) as [-> ->]. rewrite link_events. split_and!; [done..|].
  intros src p p' b pad Hok Hs Hl. split; [done|]. split; [by eapply Serialize_trim|by eapply DecodePDU_Serialize].
Qed.

(** A link with a failure, a frame of another protocol, and a padded LSP. *)
Definition busy_link : list link_event :=
  [Fails; Arrives [2; 0; 0; 0; 0; 9] (Send sample_bytes ++ [0; 0; 0]); Arrives [2; 0; 0; 0; 0; 9] [66; 66; 3; 0]].

Lemma link_delivers_witness :
  readLoop "eth0" 7 ∅ ((fun r => (r, true, true)) <$> frames_received 1500 ((busy_link ≫= socket) ++ [SockClosed; SockError])) =
    ([RxErrEvent 7; RxEvent 7 [2; 0; 0; 0; 0; 9] (sample_bytes ++ [0; 0; 0])], 1%nat, true) /\
  (readLoop "eth0" 7 ∅ ((fun r => (r, true, true)) <$> frames_received 1500 (busy_link ≫= socket))).2 = false.
Proof.
  assert (Hf : Forall (fits 1500) busy_link) by (repeat constructor; by apply Nat.leb_le).
  destruct (link_delivers "eth0" 7 1500 busy_link Hf) as (_ & Ho & _ & _ & _). split; [by vm_compute|exact Ho].
Defined.
