(* ===== verification/SettingsSpec.v ===== *)
(** The settings of a running server.  What a turn of the loop leaves alone, for any
    part of the routing state that the steps of [kept] leave alone; and the operations
    that change the settings against their specification. *)

From stdpp Require Import sorting strings.
From S2P Require Import Prelude.
From S2P Require Import Netip.
From S2P Require Import Ids.
From S2P Require Import Sid.
From S2P Require Import SubTLV.
From S2P Require Import Entries.
From S2P Require Import Tlv.
From S2P Require Import Checksum.
From S2P Require Import Pdu.
From S2P Require Import Auth.
From S2P Require Import Circuit.
From S2P Require Import Lsdb.
From S2P Require Import EdgeLog.
From S2P Require Import Server.
From S2P Require Import Lifetime.
From S2P Require Import Transmit.
From S2P Require Import Origination.
From S2P Require Import HelloBuild.
From S2P Require Import Hello.
From S2P Require Import FlexAlgo.
From S2P Require Import Tent.
From S2P Require Import Topology.
From S2P Require Import Spf.
From S2P Require Import Rib.
From S2P Require Import RibSpec.
From S2P Require Import RibSelect.
From S2P Require Import EndX.
From S2P Require Import EndXSpec.
From S2P Require Import NodeLsp.
From S2P Require Import Loop.
From S2P Require Import Mutate.
From S2P Require Import Serve.
From S2P Require Import Settings.
From S2P Require Import NodeLspSpec.
From S2P Require Import ServeSpec.
Local Open Scope Z_scope.

Section Frames.
Context {F : Type} `{FIB F} (table : F -> gmap Prefix (list NextHopInfo)) `{!FIBLaws F table}.
Context (hmac : AuthAlgorithm -> bytes -> bytes -> bytes) (o : Oracle).
Context {X : Type} (part : RIB F -> X) (part_kept : forall n n' : Node F, kept table n n' -> part (routing n') = part (routing n)).

Lemma part_regenerate n force now n' : regenerate hmac o n force now = Ok n' -> part (routing n') = part (routing n).
Proof using FIBLaws0 part_kept.
  unfold regenerate, regenerateLSPs. intros (n1 & H1 & H2)%bind_Ok.
  apply (sync_same table), part_kept in H1. apply (regenerate_levels_core table), part_kept in H2. cbn in H1. congruence.
Qed.

Lemma part_drain n now n' : drain hmac o n now = Ok n' -> part (routing n') = part (routing n).
Proof using FIBLaws0 part_kept.
  unfold drain, drainLSPGen. case_match eqn:Ed; [by intros [= <-]|]. intros (n1 & H1 & [= <-])%bind_Ok.
  exact (part_regenerate _ false now n1 H1).
Qed.

Lemma part_refresh n now n' : refreshOwnLSPs hmac o n now = Ok n' -> part (routing n') = part (routing n).
Proof using FIBLaws0 part_kept.
  unfold refreshOwnLSPs. cbv zeta. intros (n1 & H1 & H2)%bind_Ok.
  assert (E1 : part (routing n1) = part (routing n)).
  { clear H2. revert H1. case_match eqn:Ec; [intros Hg%part_regenerate; exact Hg|by intros [= <-]]. }
  rewrite <- E1. clear H1. revert H2. case_match eqn:Ec; [apply part_regenerate|by intros [= <-]].
Qed.

Lemma part_housekeeping n now n' :
  (forall n, part (routing (retry_fib o n)) = part (routing n)) ->
  housekeeping hmac o n now = Ok n' -> part (routing n') = part (routing n).
Proof using FIBLaws0 part_kept.
  intros Hretry. unfold housekeeping, on_core. cbv zeta.
  intros (n1 & (s1 & _ & [= <-])%bind_Ok & (n2 & H2 & (n3 & H3 & (n4 & (s4 & _ & [= <-])%bind_Ok & (n5 & H5 & (n6 & (s6 & _ & [= <-])%bind_Ok & [= <-])%bind_Ok)%bind_Ok)%bind_Ok)%bind_Ok)%bind_Ok)%bind_Ok.
  apply part_refresh in H5. apply part_drain in H3.
  assert (E2 : part (routing n2) = part (routing n)).
  { unfold clear_overload in H2. cbv zeta in H2. destruct (_ && _); [by apply part_regenerate in H2|by injection H2 as <-]. }
  cbn [set_core routing]. etransitivity; [apply part_kept; by apply kept_emit|]. etransitivity; [apply Hretry|].
  cbn [set_core routing] in *. transitivity (part (routing n5)); [|congruence].
  apply (part_kept (set_core n5 s6)). eapply kept_trans; [|apply kept_fold; intros; by apply kept_unprogramSID].
  unfold reassert_sids. destruct (_ && _); [|apply kept_refl]. unfold installLocalSIDs, installEndXSIDs.
  eapply kept_trans; apply kept_fold; intros; by apply kept_programSID.
Qed.

Context (part_connected : forall (b : RIB F) conn, part (set_config b (flexAlgos b) (locators b) (optionPrefixes b) conn) = part b).

Lemma part_other op now n n' e :
  is_setting op = false -> perform hmac o op now n = Ok (n', e) -> part (routing n') = part (routing n).
Proof using FIBLaws0 part_kept part_connected.
  intros Hop. destruct op; try done; cbn [perform].
  - by intros [= <- <-].
  - unfold ClearAdjacency, refuse, agree. repeat case_match; by intros [= <- <-].
  - unfold SetCircuitAddresses, on_core, refuse, agree. cbv zeta. repeat (case_match; try by intros [= <- <-]).
    intros (n1 & (s & _ & [= <-])%bind_Ok & [= <- <-])%bind_Ok. exact (part_connected (routing n) _).
  - unfold SetCircuitLinkState, on_core, refuse, agree. cbv zeta. repeat (case_match; try by intros [= <- <-]).
    by intros (n1 & (s & _ & [= <-])%bind_Ok & [= <- <-])%bind_Ok.
  - unfold addCircuit, on_core, refuse, agree. cbv zeta. intros (ok & _ & Ha)%bind_Ok. destruct (negb ok); [by injection Ha as <- <-|].
    destruct (circuitNamed _ _) as [[i cur]|]; [by injection Ha as <- <-|]. destruct (_ <? _); [by injection Ha as <- <-|].
    unfold allocCircuitIDs in Ha. destruct (next_octet _ _ _) as [pn|]; [|by injection Ha as <- <-].
    apply bind_Ok in Ha as (n1 & (s & _ & [= <-])%bind_Ok & (n2 & H2 & [= <- <-])%bind_Ok). apply part_regenerate in H2. etransitivity; [exact H2|].
    exact (part_connected (routing n) _).
  - unfold deleteCircuit, on_core, refuse, agree. destruct (circuitNamed _ _) as [[i c]|]; [|by intros [= <- <-]].
    cbv zeta. intros (n1 & (s1 & _ & [= <-])%bind_Ok & (n2 & (s2 & _ & [= <-])%bind_Ok & (n3 & (s3 & _ & [= <-])%bind_Ok & (n4 & H4 & [= <- <-])%bind_Ok)%bind_Ok)%bind_Ok)%bind_Ok.
    transitivity (part (routing n4)); [done|]. destruct (_ =? _) in H4; [injection H4 as <-|apply part_regenerate in H4; etransitivity; [exact H4|]];
      exact (part_connected (routing n) _).
Qed.
End Frames.

Section Operations.
Context {F : Type} `{FIB F}.

Lemma setup_realises (b b' : RIB F) st : setup b' = setup b -> realises b st -> realises b' st.
Proof. intros Hs [H1 H2 H3]. injection Hs as E1 E2 E3. split; congruence. Qed.

Lemma setup_programSID (n : Node F) ls : setup (routing (programSID n ls)) = setup (routing n).
Proof. unfold programSID. destruct (AddLocalSID _ _) as [f []]; [done|]. by destruct (edge_warn _ _) as [w []]. Qed.

Lemma setup_unprogramSID (n : Node F) a : setup (routing (unprogramSID n a)) = setup (routing n).
Proof. unfold unprogramSID. destruct (RemoveLocalSID _ _) as [f []]; [done|]. by destruct (edge_warn _ _) as [w []]. Qed.

Lemma participates_takes_part (n : Node F) st a : realises (routing n) st -> participatesInAlgo n a = takes_part st a.
Proof.
  intros [_ [_ Hm] _]. unfold participatesInAlgo, takes_part. f_equal. apply eq_true_iff_eq.
  rewrite existsb_exists, bool_decide_eq_true. split.
  - intros (fa & Hin & E%Z.eqb_eq). exists fa. apply Hm. exists fa. by split; [apply list_elem_of_In|].
  - intros [fa (b & Hb & <- & _)%Hm]. exists b. split; [by apply list_elem_of_In|lia].
Qed.

Lemma AddLocator_spec (n : Node F) st lc n' e conn :
  realises (routing n) st -> AddLocator n lc = Ok (n', e) ->
  realises (routing n') (spec conn (OpAddLocator lc) st).1 /\ e = (spec conn (OpAddLocator lc) st).2.
Proof.
  intros Hr. pose proof (participates_takes_part n st (LC_Algo lc) Hr) as Hp. destruct Hr as [H1 H2 H3].
  unfold AddLocator, refuse, agree. destruct st as [locs algos ps], lc as [p a]. cbn [spec LC_Prefix LC_Algo st_locators] in *.
  rewrite Hp. destruct (negb (Is6 (p_addr p)) || Is4In6 (p_addr p)); [by intros [= <- <-]|]. cbn [orb].
  destruct (a =? 0) eqn:Ea; cbn [negb andb].
  2: destruct (takes_part _ a) eqn:Et; cbn [negb]; [|by intros [= <- <-]].
  all: try (assert (takes_part (mkSettings locs algos ps) a = true) as -> by (unfold takes_part; by rewrite Ea); cbn [negb]).
  all: destruct (list_find _ _) as [[i cur]|] eqn:Ef;
    [rewrite (keyed_Some loc_key LC_Algo _ _ _ _ _ H1 Ef); by intros [= <- <-]|].
  all: pose proof (keyed_None loc_key LC_Algo _ _ _ H1 Ef) as En; rewrite En; intros [= <- <-]; split; [|done];
    apply (setup_realises (routing (set_locators n (locators (routing n) ++ [mkLocatorConfig p a])))); [by apply setup_programSID|];
    split; [by apply (keyed_snoc loc_key LC_Algo _ _ (mkLocatorConfig p a))|done|done].
Qed.

Lemma DeleteLocator_spec (n : Node F) st p n' e conn :
  realises (routing n) st -> DeleteLocator n p = Ok (n', e) ->
  realises (routing n') (spec conn (OpDeleteLocator p) st).1 /\ e = (spec conn (OpDeleteLocator p) st).2.
Proof.
  intros [H1 H2 H3]. unfold DeleteLocator, refuse, agree. destruct st as [locs algos ps]. cbn [spec st_locators] in *.
  destruct (list_find _ _) as [[i cur]|] eqn:Ef.
  - rewrite (keyed_Some loc_key LC_Algo _ _ _ _ _ H1 Ef). intros [= <- <-]. split; [|done].
    apply (setup_realises (routing (set_locators n (delete i (locators (routing n)))))); [by apply setup_unprogramSID|].
    split; [by eapply (keyed_delete loc_key LC_Algo)|done|done].
  - rewrite (keyed_None loc_key LC_Algo _ _ _ H1 Ef). by intros [= <- <-].
Qed.

Lemma AddFlexAlgo_spec (n : Node F) st fa n' e conn :
  realises (routing n) st -> AddFlexAlgo n fa = Ok (n', e) ->
  realises (routing n') (spec conn (OpAddFlexAlgo fa) st).1 /\ e = (spec conn (OpAddFlexAlgo fa) st).2.
Proof.
  intros [H1 H2 H3]. unfold AddFlexAlgo, refuse, agree. destruct st as [locs algos ps]. cbn [spec st_algos] in *.
  destruct (_ <? 128); [by intros [= <- <-]|]. destruct (list_find _ _) as [[i cur]|] eqn:Ef.
  - rewrite (keyed_Some FC_Algo id _ _ _ _ _ H2 Ef). by intros [= <- <-].
  - pose proof (keyed_None FC_Algo id _ _ _ H2 Ef) as En. rewrite En. intros [= <- <-]. split; [|done].
    split; [done|by apply (keyed_snoc FC_Algo id)|done].
Qed.

Lemma DeleteFlexAlgo_spec (n : Node F) st a n' e conn :
  realises (routing n) st -> DeleteFlexAlgo n a = Ok (n', e) ->
  realises (routing n') (spec conn (OpDeleteFlexAlgo a) st).1 /\ e = (spec conn (OpDeleteFlexAlgo a) st).2.
Proof.
  intros [H1 H2 H3]. unfold DeleteFlexAlgo, refuse, agree. destruct st as [locs algos ps]. cbn [spec st_algos st_locators] in *.
  destruct (list_find _ _) as [[i cur]|] eqn:Ef.
  2: { rewrite (keyed_None FC_Algo id _ _ _ H2 Ef). by intros [= <- <-]. }
  rewrite (keyed_Some FC_Algo id _ _ _ _ _ H2 Ef).
  assert (E : existsb (fun lc => LC_Algo lc =? a) (locators (routing n)) = negb (bool_decide (map_Forall (fun _ b => b <> a) locs))).
  { apply eq_true_iff_eq. rewrite negb_true_iff, bool_decide_eq_false, existsb_exists.
    rewrite (keyed_all loc_key LC_Algo (fun b => b <> a) _ _ H1), Forall_forall. split.
    - intros (lc & Hin%list_elem_of_In & E) Hf. specialize (Hf lc Hin). lia.
    - intros Hn. destruct (List.existsb (fun lc => LC_Algo lc =? a) (locators (routing n))) eqn:Ex.
      + by apply existsb_exists in Ex.
      + destruct Hn. intros lc Hin Ea. apply not_true_iff_false in Ex. apply Ex, existsb_exists.
        exists lc. split; [by apply list_elem_of_In|lia]. }
  rewrite E. case_bool_decide; cbn [negb]; intros [= <- <-]; [|done]. split; [|done].
  split; [done|by eapply (keyed_delete FC_Algo id)|done].
Qed.

Lemma AddPrefix_spec (n : Node F) st ap n' e conn :
  realises (routing n) st -> AddPrefix n ap = Ok (n', e) ->
  realises (routing n') (spec conn (OpAddPrefix ap) st).1 /\ e = (spec conn (OpAddPrefix ap) st).2.
Proof.
  intros [H1 H2 H3]. unfold AddPrefix, refuse, agree. destruct st as [locs algos ps], ap as [p m]. cbn [spec st_prefixes AP_Prefix AP_Metric] in *.
  destruct (negb (checkAdvertisedPrefix _)); [by intros [= <- <-]|]. rewrite <- H3, lookup_fmap.
  destruct (optionPrefixes (routing n) !! Masked p) as [cur|]; cbn [fmap option_fmap option_map]; [by intros [= <- <-]|].
  intros [= <- <-]. split; [|done]. split; [done|done|]. cbn. by rewrite fmap_insert, H3.
Qed.

Lemma DeletePrefix_spec (n : Node F) st p n' e :
  realises (routing n) st -> DeletePrefix n p = Ok (n', e) ->
  realises (routing n') (spec (is_connected n) (OpDeletePrefix p) st).1 /\ e = (spec (is_connected n) (OpDeletePrefix p) st).2.
Proof.
  intros [H1 H2 H3]. unfold DeletePrefix, refuse, agree. destruct st as [locs algos ps]. cbn [spec st_prefixes] in *.
  rewrite <- H3, lookup_fmap. destruct (optionPrefixes (routing n) !! Masked p) as [cur|]; cbn [fmap option_fmap option_map].
  - intros [= <- <-]. split; [|done]. split; [done|done|]. cbn. by rewrite fmap_delete, H3.
  - by intros [= <- <-].
Qed.

(** Each operation on the settings does what the specification says, and answers
    so. *)
Lemma setting_refines hmac o op now (n : Node F) st n' e :
  is_setting op = true -> realises (routing n) st -> perform hmac o op now n = Ok (n', e) ->
  realises (routing n') (spec (is_connected n) op st).1 /\ e = (spec (is_connected n) op st).2.
Proof.
  intros Hop Hr. destruct op; try done; cbn [perform];
    eauto using AddLocator_spec, DeleteLocator_spec, AddFlexAlgo_spec, DeleteFlexAlgo_spec, AddPrefix_spec, DeletePrefix_spec.
Qed.

(** They are always answered. *)
Lemma setting_answered hmac o op now (n : Node F) : is_setting op = true -> exists r, perform hmac o op now n = Ok r.
Proof.
  destruct op; try done; intros _; cbn [perform];
    unfold AddLocator, DeleteLocator, AddFlexAlgo, DeleteFlexAlgo, AddPrefix, DeletePrefix, refuse, agree; cbv zeta;
    repeat case_match; by eexists.
Qed.
End Operations.

(** ** Everything else leaves the settings alone *)

Section Frames.
Context {F : Type} `{FIB F} (table : F -> gmap Prefix (list NextHopInfo)) `{!FIBLaws F table}.
Context {T : Type} `{TentativeSet T} (hmac : AuthAlgorithm -> bytes -> bytes -> bytes).

Lemma setup_kept (n n' : Node F) : kept table n n' -> setup (routing n') = setup (routing n).
Proof using. intros []. unfold setup. congruence. Qed.

Section Turn.
Context (o : Oracle).

Lemma setup_retry n : setup (routing (retry_fib o n)) = setup (routing n).
Proof using.
  unfold retry_fib. case_bool_decide; [done|].
  exact (f_equal snd (fixed_programFIB (watched (core n)) (info_orders o) (routing n) (rib (routing n)))).
Qed.

Lemma setup_recompute (x x' : Loop) now :
  recompute (T := T) o x now = Ok x' -> setup (routing (node x')) = setup (routing (node x)).
Proof using.
  unfold recompute. cbv zeta. destruct (_ && _); [|by intros [= <-]].
  intros ([s b] & Hu & [= <-])%bind_Ok. by apply updateRIB_setup in Hu.
Qed.
End Turn.
End Frames.

(** ** What every reachable configuration satisfies *)

(** A locator is for algorithm 0 or one the node takes part in; algorithms are in
    the range of RFC 9350; prefixes are routable, at a metric that can be
    reached. *)
Record settings_ok (st : settings) : Prop := {
  so_locators : map_Forall (fun _ a => takes_part st a = true) (st_locators st);
  so_algos : map_Forall (fun a fa => FC_Algo fa = a /\ 128 <= a) (st_algos st);
  so_prefixes : map_Forall (fun p m => m < maxPathMetric /\ Is4In6 (p_addr p) = false /\ IsMulticast (p_addr p) = false /\
                                       IsLinkLocalUnicast (p_addr p) = false) (st_prefixes st)
}.

Lemma spec_conn c c' op st : (spec c op st).1 = (spec c' op st).1.
Proof. destruct st, op; try done; cbn [spec]; repeat case_match; done. Qed.

Lemma checked_prefix p m :
  checkAdvertisedPrefix (mkAdvertised p m) = true ->
  m < maxPathMetric /\ Is4In6 (p_addr (Masked p)) = false /\ IsMulticast (p_addr (Masked p)) = false /\
  IsLinkLocalUnicast (p_addr (Masked p)) = false.
Proof.
  unfold checkAdvertisedPrefix. cbv zeta. cbn [AP_Prefix AP_Metric]. intros [[_ Hc]%andb_true_iff Hm]%andb_true_iff.
  apply negb_true_iff in Hc. apply orb_false_iff in Hc as [[[H1 H2]%orb_false_iff H3]%orb_false_iff _].
  split_and!; [lia|done..].
Qed.

Lemma spec_ok c op st : settings_ok st -> settings_ok (spec c op st).1.
Proof.
  intros [H1 H2 H3]. destruct st as [locs algos ps]; cbn [st_locators st_algos st_prefixes] in *.
  destruct op as [[p a]|p|fa|a|[p m]|p| | | | | |]; try done; cbn [spec].
  - destruct (_ || _) eqn:E; [done|]. destruct (locs !! _); [done|]. apply orb_false_iff in E as [_ E%negb_false_iff].
    split; [|done..]. cbn in *. by apply map_Forall_insert_2.
  - destruct (locs !! _); [|done]. split; [|done..]. cbn in *. by apply map_Forall_delete.
  - destruct (_ <? _) eqn:E; [done|]. destruct (algos !! _); [done|]. split; [|by apply map_Forall_insert_2; [lia|]|done].
    intros p b Hb. specialize (H1 p b Hb). unfold takes_part in *. cbn in *. destruct (b =? 0); [done|]. cbn in *.
    apply bool_decide_eq_true in H1. apply bool_decide_eq_true. rewrite lookup_insert_is_Some'. tauto.
  - destruct (algos !! a); [|done]. case_bool_decide as Hf; [|done]. split; [|by apply map_Forall_delete|done].
    intros p b Hb. specialize (H1 p b Hb). specialize (Hf p b Hb). unfold takes_part in *. cbn in *. destruct (b =? 0); [done|].
    cbn in *. apply bool_decide_eq_true in H1. apply bool_decide_eq_true. by rewrite lookup_delete_ne.
  - destruct (checkAdvertisedPrefix _) eqn:E; [|done]. cbn [negb]. destruct (ps !! _); [done|]. split; [done|done|].
    cbn in *. apply map_Forall_insert_2; [by apply checked_prefix|done].
  - destruct (ps !! _); [|done]. split; [done|done|]. cbn in *. by apply map_Forall_delete.
Qed.

(** ** The settings a node starts with *)

Lemma keyed_list_to_map {A K V} `{Countable K} (k : A -> K) (v : A -> V) l :
  NoDup (k <$> l) -> keyed k v l (list_to_map ((fun a => (k a, v a)) <$> l)).
Proof.
  intros Hd. split; [done|]. intros x y. rewrite <- elem_of_list_to_map.
  - rewrite list_elem_of_fmap. split; [intros (a & [= -> ->] & Ha); by exists a|intros (a & Ha & <- & <-); by exists a].
  - rewrite <- list_fmap_compose. exact Hd.
Qed.

Definition configured {F} (op : options F) : settings :=
  mkSettings (list_to_map ((fun lc => (loc_key lc, LC_Algo lc)) <$> o_locators op))
    (list_to_map ((fun fa => (FC_Algo fa, fa)) <$> o_flexAlgos op))
    (AP_Metric <$> fold_left option_prefix (o_prefixes op) ∅).

Lemma option_prefixes_all (P : Prefix -> Z -> Prop) l :
  Forall (fun ap => P (Masked (AP_Prefix ap)) (AP_Metric ap)) l -> map_Forall P (AP_Metric <$> fold_left option_prefix l ∅).
Proof.
  intros Hl. apply map_Forall_fmap. revert Hl. assert (H0 : map_Forall (fun p ap => P p (AP_Metric ap)) ∅) by apply map_Forall_empty.
  revert H0. generalize (∅ : gmap Prefix AdvertisedPrefix) as m0. induction l as [|ap l IH]; intros m0 H0; [done|].
  intros [Hp Hl]%Forall_cons. apply IH; [|done]. by apply map_Forall_insert_2.
Qed.

Lemma valid_algos_ok seen fas part :
  valid_algos seen fas = Some part ->
  NoDup (FC_Algo <$> fas) /\ Forall (fun fa => 128 <= FC_Algo fa /\ FC_Algo fa ∉ seen) fas /\ part = list_to_set (FC_Algo <$> fas) ∪ seen.
Proof.
  revert seen. induction fas as [|fa fas IH]; intros seen; cbn [valid_algos]; [intros [= <-]; split_and!; [constructor|done|set_solver]|].
  destruct (_ || _) eqn:E; [done|]. apply orb_false_iff in E as [E1 E2%bool_decide_eq_false]. intros (H1 & H2 & H3)%IH.
  split_and!.
  - cbn. constructor; [|done]. intros (g & Eg & Hg)%list_elem_of_fmap. rewrite Forall_forall in H2. destruct (H2 g Hg). set_solver.
  - constructor; [split; [lia|done]|]. eapply Forall_impl; [exact H2|]. intros g []. split; [done|set_solver].
  - rewrite H3. cbn. set_solver.
Qed.

Section Start.
Context {F : Type} `{FIB F}.

Lemma validated (op : options F) :
  options_validate op = Ok true ->
  exists part, valid_algos ∅ (o_flexAlgos op) = Some part /\ forallb (valid_locator part) (o_locators op) = true /\
    forallb checkAdvertisedPrefix (o_prefixes op) = true.
Proof using.
  unfold options_validate. destruct (_ || _); [done|]. destruct (forallb checkAdvertisedPrefix _) eqn:E; [|done]. cbn [negb].
  destruct (valid_algos _ _) as [part|]; [|done]. destruct (forallb (valid_locator part) _) eqn:E'; [|done].
  intros _. by exists part.
Qed.

Lemma configured_ok (op : options F) : options_validate op = Ok true -> settings_ok (configured op).
Proof using.
  intros (part & (H1 & H2 & ->)%valid_algos_ok & H3 & H4)%validated. rewrite Forall_forall in H2. split; cbn [configured st_locators st_algos st_prefixes].
  - intros p a Hp%elem_of_list_to_map_2. apply list_elem_of_fmap in Hp as (lc & [= -> ->] & Hl).
    rewrite forallb_forall in H3. specialize (H3 lc (proj1 (list_elem_of_In _ _) Hl)). unfold valid_locator in H3. unfold takes_part.
    apply andb_true_iff in H3 as [_ H3]. destruct (LC_Algo lc =? 0); [done|]. cbn [orb] in *. apply bool_decide_eq_true in H3.
    apply bool_decide_eq_true. assert (LC_Algo lc ∈ (FC_Algo <$> o_flexAlgos op)) as (fa & E & Hfa)%list_elem_of_fmap by set_solver.
    exists fa. cbn. apply elem_of_list_to_map_1; [by rewrite <- list_fmap_compose|]. rewrite E. apply list_elem_of_fmap. by exists fa.
  - intros a fa Hp%elem_of_list_to_map_2. apply list_elem_of_fmap in Hp as (g & [= -> ->] & Hg). split; [done|by apply H2].
  - apply option_prefixes_all, Forall_forall. intros [p m] Hp. apply checked_prefix.
    rewrite forallb_forall in H4. by apply H4, list_elem_of_In.
Qed.

Lemma install_setup kps (n n' : Node F) : install_circuits n kps = Some n' -> setup (routing n') = setup (routing n).
Proof using.
  revert n. induction kps as [|kp kps IH]; intros n; cbn [install_circuits]; [by intros [= <-]|].
  destruct (install_circuit n kp) as [n1|] eqn:E; [|done]. cbn [mbind option_bind]. intros Hi%IH. rewrite Hi.
  unfold install_circuit, allocCircuitIDs in E. cbv zeta in E. destruct (next_octet _ _ _); [|done]. cbn [mbind option_bind] in E.
  by injection E as <-.
Qed.

Lemma new_setup (op : options F) n :
  NewIsisServer op = Ok (Some n) ->
  options_validate op = Ok true /\ setup (routing n) = (o_locators op, o_flexAlgos op, fold_left option_prefix (o_prefixes op) ∅).
Proof using.
  unfold NewIsisServer. intros (ok & Hv & Hn)%bind_Ok. destruct ok; cbn [negb] in Hn; [|done]. split; [done|].
  destruct (install_circuits _ _) as [n1|] eqn:E; [|done]. apply install_setup in E. cbv zeta in Hn.
  destruct (_ <? _) in Hn; [done|]. injection Hn as <-. exact E.
Qed.

(** A new node realises the settings of its options. *)
Lemma new_realises (op : options F) n :
  NoDup (loc_key <$> o_locators op) -> NewIsisServer op = Ok (Some n) ->
  realises (routing n) (configured op) /\ settings_ok (configured op).
Proof using.
  intros Hd [Hv Es]%new_setup. split; [|by apply configured_ok].
  apply validated in Hv as (part & (H1 & _)%valid_algos_ok & _). injection Es as E1 E2 E3.
  split; rewrite ?E1, ?E2, ?E3; cbn [configured st_locators st_algos st_prefixes]; [by apply keyed_list_to_map|by apply keyed_list_to_map|done].
Qed.
End Start.

(** ** Over a run *)

(** What the operations among the turns make of the settings. *)
Definition settings_step (st : settings) (t : Oracle * arm * moment) : settings :=
  match t.1.2 with OnOperation op => (spec (fun _ => false) op st).1 | _ => st end.
Definition settings_after (turns : list (Oracle * arm * moment)) (st : settings) : settings := fold_left settings_step turns st.

Lemma settings_step_ok st t : settings_ok st -> settings_ok (settings_step st t).
Proof. destruct t as [[o []] m]; cbn; [done..|]. apply spec_ok. Qed.

Lemma settings_after_ok turns st : settings_ok st -> settings_ok (settings_after turns st).
Proof. revert st. induction turns as [|t turns IH]; intros st; [done|]. intros Ho. apply IH. by apply settings_step_ok. Qed.

Section Run.
Context {F : Type} `{FIB F} (table : F -> gmap Prefix (list NextHopInfo)) `{!FIBLaws F table}.
Context {T : Type} `{TentativeSet T} (hmac : AuthAlgorithm -> bytes -> bytes -> bytes).

Lemma perform_settings o op now n n' e st :
  realises (routing n) st -> perform hmac o op now n = Ok (n', e) ->
  realises (routing n') (spec (fun _ => false) op st).1.
Proof using FIBLaws0.
  intros Hr Hp. destruct (is_setting op) eqn:E.
  - destruct (setting_refines hmac o op now n st n' e E Hr Hp) as [Hr' _]. by rewrite (spec_conn _ (is_connected n)).
  - assert ((spec (fun _ => false) op st).1 = st) as -> by (by destruct st, op).
    eapply setup_realises; [|exact Hr]. by eapply (part_other table hmac o setup (setup_kept table)); [by intros|..].
Qed.

Lemma turn_settings (x x' : Loop) o a t st :
  realises (routing (node x)) st ->
  turn (T := T) hmac o x a t = Ok x' -> realises (routing (node x')) (settings_step st (o, a, t)).
Proof using FIBLaws0.
  intros Hr Ht. unfold turn, settle in Ht. apply bind_Ok in Ht as (x1 & H1 & (n2 & H2 & H3)%bind_Ok).
  assert (Hr1 : realises (routing (node x1)) (settings_step st (o, a, t))).
  { destruct a as [ev| | |op]; cbn [handle settings_step fst snd] in *.
    - apply bind_Ok in H1 as (n1 & Hk & [= <-]). unfold on_core in Hk. by apply bind_Ok in Hk as (s & _ & [= <-]).
    - apply bind_Ok in H1 as (n1 & Hk & [= <-]).
      eapply setup_realises; [|exact Hr]. by eapply (part_housekeeping table hmac o setup (setup_kept table)); [apply setup_retry|].
    - by injection H1 as <-.
    - apply bind_Ok in H1 as (n1 & ([n1' e] & Hp & [= ->])%bind_Ok & [= <-]). by eapply perform_settings. }
  eapply setup_realises; [by eapply setup_recompute|]. cbn [node].
  eapply setup_realises; [by eapply (part_drain table hmac o setup (setup_kept table))|done].
Qed.

Lemma run_settings turns (x x' : Loop) st :
  realises (routing (node x)) st -> run (T := T) hmac x turns = Ok x' -> realises (routing (node x')) (settings_after turns st).
Proof using FIBLaws0.
  revert x st. induction turns as [|[[o a] t] turns IH]; intros x st Hr; cbn [run]; [by intros [= <-]|].
  intros (x1 & H1 & H2)%bind_Ok. apply (IH x1 (settings_step st (o, a, t))); [|done]. by eapply turn_settings.
Qed.

(** The node that starts serving is configured as its options say. *)
Lemma start_settings op n0 o now n1 :
  NoDup (loc_key <$> o_locators op) -> NewIsisServer op = Ok (Some n0) -> start hmac o n0 now = Ok n1 ->
  realises (routing n1) (configured op) /\ settings_ok (configured op).
Proof using FIBLaws0.
  intros Hd Hnew Hst. destruct (new_realises op n0 Hd Hnew) as [Hr0 Hok]. split; [|done].
  eapply setup_realises; [|exact Hr0]. clear -Hst FIBLaws0. unfold start in Hst. cbv zeta in Hst.
  apply bind_Ok in Hst as (n2 & H2 & (n3 & H3 & [= <-])%bind_Ok). unfold on_core in H2. apply bind_Ok in H2 as (s & _ & [= <-]).
  apply (part_regenerate table hmac o setup (setup_kept table)) in H3. cbn [set_core routing] in H3.
  transitivity (setup (routing (startup_sweep o n3))).
  { unfold installLocalSIDs, installEndXSIDs. apply (setup_kept table). eapply kept_trans; apply kept_fold; intros; by apply kept_programSID. }
  unfold startup_sweep. cbv zeta. destruct (Sweep _ _) as [f ok]. transitivity (setup (routing n3)); [by destruct ok|].
  rewrite H3. unfold startup_overload. by case_match.
Qed.

(** C9: The runtime configuration of a running node is the one its operations add
    up to: from the node [NewIsisServer] builds of options that give no locator twice
    (nothing checks that they do not), over any turns, whatever comes in and whatever
    calls of the forwarding table fail, the locators, the Flexible Algorithms and the
    prefixes are those of the options changed by the management operations alone, in
    the way the abstract maps say; every locator is for an algorithm the node takes
    part in, every algorithm is in range, every prefix can be advertised; and any
    further operation on them is answered as specified: refused, found already in
    state, or done. *)
Theorem serve_refines op n0 o now n1 turns (x : Loop) :
  NoDup (loc_key <$> o_locators op) -> NewIsisServer op = Ok (Some n0) -> start hmac o n0 now = Ok n1 ->
  run (T := T) hmac (mkLoop n1 false) turns = Ok x ->
  let st := settings_after turns (configured op) in
  realises (routing (node x)) st /\ settings_ok st /\
  forall o' op' now', is_setting op' = true ->
    exists n' e, perform hmac o' op' now' (node x) = Ok (n', e) /\
      realises (routing n') (spec (is_connected (node x)) op' st).1 /\ e = (spec (is_connected (node x)) op' st).2.
Proof using FIBLaws0.
  intros Hd Hnew Hst Hrun. destruct (start_settings op n0 o now n1 Hd Hnew Hst) as (Hr1 & Hok).
  pose proof (run_settings turns (mkLoop n1 false) x (configured op) Hr1 Hrun) as Hr. cbv zeta.
  split_and!; [done|by apply settings_after_ok|]. intros o' op' now' Hs.
  destruct (setting_answered hmac o' op' now' (node x) Hs) as [[n' e] Hp]. exists n', e. split; [done|].
  by apply (setting_refines hmac o' op' now').
Qed.
End Run.

Lemma serve_refines_witness :
  exists n0 n1 x, NewIsisServer demo_options = Ok (Some n0) /\ demo_start n0 0 = Ok n1 /\ demo_loop n1 = Ok x /\
    st_prefixes (settings_after demo_turns (configured demo_options)) !! Masked far_net = Some 7 /\
    realises (routing (node x)) (settings_after demo_turns (configured demo_options)).
Proof.
  destruct (run_steps (NewIsisServer demo_options) (fun n0 => demo_start n0 0) demo_loop demo_facts (true, true, 0%nat))
    as (n0 & n1 & x & E0 & E1 & E2 & _); [vm_compute; reflexivity|].
  destruct (serve_refines (F := kernel) (H := flaky_updates) fst (FIBLaws0 := flaky_updates_laws) (T := tentSet)
    (fun _ _ _ => []) demo_options n0 map_orders 0 n1 demo_turns x) as (H1 & _ & _).
  - apply NoDup_singleton.
  - exact E0.
  - exact E1.
  - exact E2.
  - exists n0, n1, x. split_and!; [exact E0|exact E1|exact E2| |exact H1]. vm_compute. reflexivity.
Defined.

(** ** A locator given twice

    [options.validate] refuses a circuit or an algorithm given twice, but not a
    locator: deleting it then leaves its twin advertised, with the End SID of both
    taken down. *)
Definition twin_options : options kernel :=
  let op := demo_options in
  mkOptions (o_systemID op) (o_areaAddrs op) (o_hostname op) (o_circuits op) (o_prefixes op) (o_connected op)
    [link_locator; link_locator] (o_flexAlgos op) (o_fib op) (o_overloadOnStartup op) (o_areaAuth op) (o_domainAuth op)
    (o_advertiseFilter op) (o_l2LeakFilter op) (o_fibFilter op) (o_lsdbEntryLimit op) (o_lspMTU op).

Example twin_locators :
  match NewIsisServer twin_options with
  | Ok (Some n) =>
      match DeleteLocator (H := flaky_updates) n (LC_Prefix link_locator) with
      | Ok (n', None) => Some (locators (routing n'), bool_decide (sidPending n' = sidPending n))
      | _ => None
      end
  | _ => None
  end = Some ([link_locator], true).
Proof. vm_compute. reflexivity. Qed.
