(* ===== verification/ConfigSpec.v ===== *)
(** A configuration as settings: the locators, the algorithms and the prefixes a
    node built from it starts with are those [Diff] compares. *)

From stdpp Require Import sorting strings.
From S2P Require Import Prelude.
From S2P Require Import Netip.
From S2P Require Import Ids.
From S2P Require Import Auth.
From S2P Require Import Circuit.
From S2P Require Import Policy.
From S2P Require Import FlexAlgo.
From S2P Require Import Rib.
From S2P Require Import EndX.
From S2P Require Import Mutate.
From S2P Require Import Serve.
From S2P Require Import Options.
From S2P Require Import Text.
From S2P Require Import Config.
From S2P Require Import Reload.
From S2P Require Import Settings.
From S2P Require Import TextSpec.
From S2P Require Import SettingsSpec.
Local Open Scope Z_scope.

(** What a file says of them. *)
Definition settings_of (c : Config) : option settings :=
  l ← locatorSet c; a ← flexAlgoSet c; p ← prefixSet c; Some (mkSettings l a p).

(** ** [collect] *)

Section Collect.
Context {A K V : Type} `{Countable K} (f : A -> option (K * V)).

Lemma collect_pairs l m : collect f l m = (fun kvs => fold_left (fun m kv => <[kv.1 := kv.2]> m) kvs m) <$> mapM f l.
Proof.
  revert m. induction l as [|a l IH]; intros m; [done|]. cbn [collect mapM]. destruct (f a) as [[k v]|]; [|done].
  cbn [mbind option_bind]. rewrite IH. by destruct (mapM f l).
Qed.

(** Without a repeated key the order is of no matter. *)
Lemma fold_insert_list_to_map (kvs : list (K * V)) (m : gmap K V) :
  NoDup kvs.*1 -> fold_left (fun m kv => <[kv.1 := kv.2]> m) kvs m = list_to_map kvs ∪ m.
Proof.
  revert m. induction kvs as [|[k v] kvs IH]; intros m; [cbn; by rewrite map_empty_union|]. cbn. intros [Hk Hd]%NoDup_cons.
  rewrite IH by done. rewrite <- insert_union_r; [by rewrite insert_union_l|]. by apply not_elem_of_list_to_map_1.
Qed.
End Collect.

Lemma mapM_app {A B} (f : A -> option B) l k : mapM f (l ++ k) = x ← mapM f l; y ← mapM f k; Some (x ++ y).
Proof.
  induction l as [|a l IH]; [cbn; by destruct (mapM f k)|]. cbn [app mapM]. destruct (f a); [|done]. cbn [mbind option_bind].
  rewrite IH. destruct (mapM f l); [|done]. cbn [mbind option_bind]. by destruct (mapM f k).
Qed.

(** ** The options *)

Section Plan.
Context {F : Type} (netlinkFIB : Z -> F) (noop : F).
Context (ParseDuration : bytes -> option Z) (connectedPrefixes : string -> list Prefix).

Definition plan (o : options F) := (o_locators o, o_flexAlgos o, o_prefixes o).

Definition fold_options (opts : list (ServerOption (F := F))) (o : options F) : options F := fold_left (fun o f => f o) opts o.

(** An option that leaves the three lists alone. *)
Definition neutral (f : ServerOption (F := F)) : Prop := forall o, plan (f o) = plan o.

Lemma fold_neutral opts o : Forall neutral opts -> plan (fold_options opts o) = plan o.
Proof. intros Hn. revert o. induction Hn as [|f opts Hf _ IH]; intros o; [done|]. cbn. rewrite IH. apply Hf. Qed.

Lemma fold_app a b o : fold_options (a ++ b) o = fold_options b (fold_options a o).
Proof. apply fold_left_app. Qed.

Lemma neutral_mapM {A} (f : A -> option (ServerOption (F := F))) l opts :
  (forall a g, f a = Some g -> neutral g) -> mapM f l = Some opts -> Forall neutral opts.
Proof. intros Hf Hm%mapM_Some. induction Hm; constructor; eauto. Qed.

Lemma plan_prefixes ps opts o :
  mapM prefix_option ps = Some opts ->
  exists qs, mapM (fun p => ParsePrefix (cp_Prefix p)) ps = Some qs /\
    plan (fold_options opts o) = (o_locators o, o_flexAlgos o, o_prefixes o ++ zip_with (fun p q => mkAdvertised q (metric p)) ps qs).
Proof.
  revert opts o. induction ps as [|p ps IH]; intros opts o; cbn [mapM].
  - intros [= <-]. exists []. split; [done|]. unfold plan. cbn. by rewrite app_nil_r.
  - destruct (prefix_option p) as [f|] eqn:Ef; [|discriminate]. unfold prefix_option in Ef.
    destruct (ParsePrefix (cp_Prefix p)) as [q|]; [|discriminate]. injection Ef as <-. cbn [mbind option_bind].
    destruct (mapM prefix_option ps) as [opts'|]; [|done]. cbn [mbind option_bind]. intros [= <-].
    destruct (IH opts' (WithAdvertisedPrefix q (metric p) o) eq_refl) as (qs & E & Hp). exists (q :: qs). rewrite E. split; [done|].
    etransitivity; [exact Hp|]. cbn. by rewrite <- app_assoc.
Qed.

Lemma plan_locators ls opts o :
  mapM locator_option ls = Some opts ->
  exists qs, mapM ParsePrefix ls = Some qs /\
    plan (fold_options opts o) = (o_locators o ++ map (fun q => mkLocatorConfig q 0) qs, o_flexAlgos o, o_prefixes o).
Proof.
  revert opts o. induction ls as [|l ls IH]; intros opts o; cbn [mapM].
  - intros [= <-]. exists []. split; [done|]. unfold plan. cbn. by rewrite app_nil_r.
  - destruct (locator_option l) as [f|] eqn:Ef; [|discriminate]. unfold locator_option in Ef.
    destruct (ParsePrefix l) as [q|]; [|discriminate]. injection Ef as <-. cbn [mbind option_bind].
    destruct (mapM locator_option ls) as [opts'|]; [|done]. cbn [mbind option_bind]. intros [= <-].
    destruct (IH opts' (WithSRv6Locator q o) eq_refl) as (qs & E & Hp). exists (q :: qs). rewrite E. split; [done|].
    etransitivity; [exact Hp|]. cbn. by rewrite <- app_assoc.
Qed.

(** The locators of the algorithms that have one. *)
Definition algo_locators (fas : list cfgFlexAlgo) : list cfgFlexAlgo :=
  List.filter (fun fa => negb (bool_decide (cf_Locator fa = []))) fas.

Lemma plan_algos fas opts o :
  mapM flexAlgo_options fas = Some opts ->
  exists ks qs, mapM flex_algo fas = Some ks /\ mapM (fun fa => ParsePrefix (cf_Locator fa)) (algo_locators fas) = Some qs /\
    plan (fold_options (concat opts) o) =
      (o_locators o ++ zip_with (fun fa q => mkLocatorConfig q (cf_Algo fa)) (algo_locators fas) qs, o_flexAlgos o ++ ks, o_prefixes o).
Proof.
  revert opts o. induction fas as [|fa fas IH]; intros opts o; cbn [mapM].
  - intros [= <-]. exists [], []. split_and!; [done..|]. unfold plan. cbn. by rewrite !app_nil_r.
  - destruct (flexAlgo_options fa) as [fs|] eqn:Ef; [|discriminate]. unfold flexAlgo_options in Ef.
    destruct (flex_algo fa) as [k|]; [|discriminate]. cbn [mbind option_bind] in *.
    destruct (mapM flexAlgo_options fas) as [opts'|]; [|discriminate]. cbn [mbind option_bind]. intros [= <-].
    unfold algo_locators. cbn [List.filter]. fold (algo_locators fas). case_bool_decide as El; cbn [negb].
    + injection Ef as <-. destruct (IH opts' (WithFlexAlgo k o) eq_refl) as (ks & qs & E1 & E2 & Hp). exists (k :: ks), qs.
      rewrite E1. split_and!; [done..|]. etransitivity; [exact Hp|]. cbn. by rewrite <- app_assoc.
    + destruct (ParsePrefix (cf_Locator fa)) as [q|] eqn:Eq; [|discriminate]. injection Ef as <-.
      destruct (IH opts' (WithSRv6LocatorForAlgo q (cf_Algo fa) (WithFlexAlgo k o)) eq_refl) as (ks & qs & E1 & E2 & Hp).
      exists (k :: ks), (q :: qs). rewrite E1. cbn [mapM]. rewrite Eq, E2. split_and!; [done..|].
      etransitivity; [exact Hp|]. cbn. by rewrite <- !app_assoc.
Qed.
End Plan.

Lemma mapM_zip {A B C} (f : A -> option B) (g : A -> B -> C) l :
  mapM (fun a => b ← f a; Some (g a b)) l = zip_with g l <$> mapM f l.
Proof.
  induction l as [|a l IH]; [done|]. cbn [mapM]. destruct (f a) as [b|]; [|done]. cbn [mbind option_bind]. rewrite IH.
  by destruct (mapM f l).
Qed.

Lemma fold_zip_prefixes (ps : list cfgPrefix) qs (m : gmap Prefix AdvertisedPrefix) :
  AP_Metric <$> fold_left option_prefix (zip_with (fun p q => mkAdvertised q (metric p)) ps qs) m =
  fold_left (fun m kv => <[kv.1 := kv.2]> m) (zip_with (fun p q => (Masked q, metric p)) ps qs) (AP_Metric <$> m).
Proof.
  revert qs m. induction ps as [|p ps IH]; intros [|q qs] m; [done..|]. cbn [zip_with fold_left]. rewrite IH. f_equal.
  unfold option_prefix. cbn. by rewrite fmap_insert.
Qed.

Lemma flex_algo_key fa k : flex_algo fa = Some k -> FC_Algo k = cf_Algo fa.
Proof. unfold flex_algo. destruct (flexAlgoMetricType _); [|done]. by intros [= <-]. Qed.

Lemma zip_keys fas ks : mapM flex_algo fas = Some ks -> zip_with (fun fa k => (cf_Algo fa, k)) fas ks = (fun k => (FC_Algo k, k)) <$> ks.
Proof.
  intros Hm%mapM_Some. induction Hm as [|fa k fas ks Hk _ IH]; [done|]. cbn. rewrite (flex_algo_key fa k Hk). f_equal. exact IH.
Qed.

Section Build.
Context {F : Type} (netlinkFIB : Z -> F) (noop : F).
Context (ParseDuration : bytes -> option Z) (connectedPrefixes : string -> list Prefix).

Lemma neutral_if (b : bool) (opts : list (ServerOption (F := F))) : Forall neutral opts -> Forall neutral (if b then opts else []).
Proof. by destruct b. Qed.

Lemma neutral_else (b : bool) (opts : list (ServerOption (F := F))) : Forall neutral opts -> Forall neutral (if b then [] else opts).
Proof. by destruct b. Qed.

Lemma neutral_policy p opts : policy_options p = Some opts -> Forall (neutral (F := F)) opts.
Proof.
  destruct p as [[a f k]|]; cbn [policy_options po_Advertise po_FIB po_LeakL2ToL1]; [|by intros [= <-]]. unfold policy_option.
  intros (fa & Ha & (ff & Hf & (fk & Hk & [= <-])%bind_Some)%bind_Some)%bind_Some. rewrite !Forall_app.
  split_and!; [destruct a|destruct f|destruct k];
    repeat match goal with Hx : Some _ = Some _ |- _ => injection Hx as <- | Hx : _ ≫= _ = Some _ |- _ => apply bind_Some in Hx as (? & _ & Hx) end;
    repeat constructor.
Qed.

Lemma neutral_auth f pw acc algo id opts :
  (forall a, neutral (F := F) (f a)) -> auth_option f pw acc algo id = Some opts -> Forall neutral opts.
Proof.
  intros Hf. unfold auth_option. destruct (_ && _); [by intros [= <-]|]. intros (a & _ & [= <-])%bind_Some. by repeat constructor.
Qed.

Lemma neutral_overload s opts : overload_option (F := F) ParseDuration s = Some opts -> Forall neutral opts.
Proof. unfold overload_option. case_bool_decide; [by intros [= <-]|]. intros (d & _ & [= <-])%bind_Some. by repeat constructor. Qed.

Lemma neutral_circuits open cs opts :
  mapM (circuit_option (F := F) ParseDuration connectedPrefixes open) cs = Some opts -> Forall neutral opts.
Proof. apply neutral_mapM. intros cc g. unfold circuit_option. by intros (k & _ & [= <-])%bind_Some. Qed.

(** The three lists of the options a file becomes. *)
Lemma build_plan open c opts :
  build_options netlinkFIB ParseDuration connectedPrefixes open c = Some opts ->
  exists qs ls ks ps,
    mapM (fun p => ParsePrefix (cp_Prefix p)) (c_Prefixes c) = Some qs /\ mapM ParsePrefix (default [] (c_SRv6 c)) = Some ls /\
    mapM flex_algo (c_FlexAlgo c) = Some ks /\ mapM (fun fa => ParsePrefix (cf_Locator fa)) (algo_locators (c_FlexAlgo c)) = Some ps /\
    plan (apply_options noop opts) =
      (map (fun q => mkLocatorConfig q 0) ls ++ zip_with (fun fa q => mkLocatorConfig q (cf_Algo fa)) (algo_locators (c_FlexAlgo c)) ps,
       ks, zip_with (fun p q => mkAdvertised q (metric p)) (c_Prefixes c) qs).
Proof.
  unfold build_options. intros ([area id] & _ & (o1 & H1 & (o2 & H2 & (o3 & H3 & (o4 & H4 & (o5 & H5 & (o6 & H6 & (o7 & H7 & (o8 & H8 &
    [= <-])%bind_Some)%bind_Some)%bind_Some)%bind_Some)%bind_Some)%bind_Some)%bind_Some)%bind_Some)%bind_Some.
  apply neutral_overload in H4. apply neutral_policy in H5. apply neutral_auth in H6; [|done]. apply neutral_auth in H7; [|done].
  apply neutral_circuits in H8. unfold apply_options.
  match goal with |- context [fold_left ?f (?a :: ?b :: ?l) ?x] => change (fold_left f (a :: b :: l) x) with (fold_options l (b (a x))) end.
  rewrite !fold_app.
  rewrite (fold_neutral o8), (fold_neutral o7), (fold_neutral o6), (fold_neutral o5), (fold_neutral o4) by done.
  rewrite !fold_neutral by (apply neutral_if; by repeat constructor).
  match goal with |- context [fold_options o1 ?x] => set (o0 := x) end.
  assert (E0 : plan o0 = ([], [], [])).
  { unfold o0. rewrite fold_neutral by (apply neutral_if; by repeat constructor).
    rewrite fold_neutral by (apply neutral_else; by repeat constructor). done. }
  clearbody o0. injection E0 as L0 A0 P0.
  destruct (plan_prefixes _ _ o0 H1) as (qs & E1 & Hp1). destruct (plan_locators _ _ (fold_options o1 o0) H2) as (ls & E2 & Hp2).
  destruct (plan_algos _ _ (fold_options o2 (fold_options o1 o0)) H3) as (ks & ps & E3 & E4 & Hp3).
  exists qs, ls, ks, ps. split_and!; [done..|]. rewrite Hp3. injection Hp1 as L1 A1 P1. injection Hp2 as L2 A2 P2.
  by rewrite L2, A2, P2, L1, A1, P1, L0, A0, P0.
Qed.

(** The settings of a file are those of the options it becomes, if it names no
    locator twice. *)
Lemma settings_configured open c opts :
  build_options netlinkFIB ParseDuration connectedPrefixes open c = Some opts ->
  let op := apply_options noop opts in
  NoDup (loc_key <$> o_locators op) -> NoDup (FC_Algo <$> o_flexAlgos op) -> settings_of c = Some (configured op).
Proof.
  intros (qs & ls & ks & ps & E1 & E2 & E3 & E4 & Hp)%build_plan. cbv zeta. injection Hp as L A P. intros Hl Ha.
  assert (Hs : prefixSet c = Some (AP_Metric <$> fold_left option_prefix (o_prefixes (apply_options noop opts)) ∅)).
  { unfold prefixSet. rewrite collect_pairs, (mapM_zip _ (fun p q => (Masked q, metric p))), E1. cbn. by rewrite P, fold_zip_prefixes, fmap_empty. }
  assert (Hf : flexAlgoSet c = Some (list_to_map ((fun fa => (FC_Algo fa, fa)) <$> o_flexAlgos (apply_options noop opts)))).
  { unfold flexAlgoSet. rewrite collect_pairs, (mapM_zip _ (fun fa k => (cf_Algo fa, k))), E3. cbn. rewrite A in Ha. rewrite (zip_keys _ _ E3), A.
    rewrite fold_insert_list_to_map; [by rewrite map_union_empty|]. by rewrite <- list_fmap_compose. }
  assert (Hk : locatorSet c = Some (list_to_map ((fun lc => (loc_key lc, LC_Algo lc)) <$> o_locators (apply_options noop opts)))).
  { unfold locatorSet. rewrite collect_pairs, (mapM_zip _ (fun _ q => (Masked q, 0))), E2. cbn [fmap option_fmap option_map mbind option_bind].
    fold (algo_locators (c_FlexAlgo c)).
    rewrite collect_pairs, (mapM_zip _ (fun fa q => (Masked q, cf_Algo fa))), E4. cbn [fmap option_fmap option_map]. f_equal.
    rewrite L in Hl. rewrite L. clear -E2 Hl.
    assert (Ez : zip_with (fun (_ : bytes) q => (Masked q, 0)) (default [] (c_SRv6 c)) ls = (fun lc => (loc_key lc, LC_Algo lc)) <$> map (fun q => mkLocatorConfig q 0) ls).
    { clear Hl. apply mapM_Some in E2. induction E2 as [|b q bs qs' Hq _ IH]; [done|]. cbn. f_equal. exact IH. }
    assert (Ey : zip_with (fun fa q => (Masked q, cf_Algo fa)) (algo_locators (c_FlexAlgo c)) ps =
      (fun lc => (loc_key lc, LC_Algo lc)) <$> zip_with (fun fa q => mkLocatorConfig q (cf_Algo fa)) (algo_locators (c_FlexAlgo c)) ps).
    { clear. generalize (algo_locators (c_FlexAlgo c)) as fas. clear c. intros fas. revert ps. induction fas as [|fa fas IH]; intros [|q ps]; [done..|]. cbn. f_equal. apply IH. }
    rewrite Ez, Ey, <- fold_left_app, <- fmap_app, fold_insert_list_to_map; [by rewrite map_union_empty|]. by rewrite <- list_fmap_compose. }
  unfold settings_of. rewrite Hk, Hf, Hs. done.
Qed.

(** The prefixes of the options are well-formed. *)
Lemma build_prefixes open c opts :
  build_options netlinkFIB ParseDuration connectedPrefixes open c = Some opts ->
  let op := apply_options noop opts in
  Forall (fun lc => prefix_ok (LC_Prefix lc)) (o_locators op) /\ Forall (fun ap => prefix_ok (AP_Prefix ap)) (o_prefixes op).
Proof.
  intros (qs & ls & ks & ps & E1 & E2 & E3 & E4 & Hp)%build_plan. cbv zeta. injection Hp as -> _ ->.
  assert (Hok : forall {A} (f : A -> bytes) l qs, mapM (fun a => ParsePrefix (f a)) l = Some qs -> Forall prefix_ok qs).
  { intros A f l qs0 Hm%mapM_Some. induction Hm as [|x q l' qs' Hq _ IH]; constructor; [by eapply ParsePrefix_ok|done]. }
  assert (Hzip : forall {A B} (g : A -> Prefix -> B) (h : B -> Prefix) (l : list A) qs,
    (forall a q, h (g a q) = q) -> Forall prefix_ok qs -> Forall (fun b => prefix_ok (h b)) (zip_with g l qs)).
  { intros A B g h l qs0 Hg Hq. revert l. induction Hq as [|q qs' Hq _ IH]; intros [|x l]; constructor; [by rewrite Hg|apply IH]. }
  split.
  - apply Forall_app. split; [|apply Hzip; [done|by eapply Hok]]. apply Forall_map. exact (Hok _ id _ _ E2).
  - apply Hzip; [done|by eapply Hok].
Qed.
End Build.
