(* ===== verification/ReloadSpec.v ===== *)
(** A reload: what the batch of [Diff] makes of the settings, from any point at
    which an earlier attempt may have left them.

    The server is any that behaves as the specification of its settings says
    ([ApiLaws]); a node is one, and so is the loop with turns of its own between
    two calls. *)

From stdpp Require Import sorting strings.
From S2P Require Import Prelude.
From S2P Require Import Netip.
From S2P Require Import Ids.
From S2P Require Import Auth.
From S2P Require Import Circuit.
From S2P Require Import Server.
From S2P Require Import FlexAlgo.
From S2P Require Import Tent.
From S2P Require Import Rib.
From S2P Require Import EndX.
From S2P Require Import NodeLsp.
From S2P Require Import Loop.
From S2P Require Import Mutate.
From S2P Require Import Serve.
From S2P Require Import Options.
From S2P Require Import Text.
From S2P Require Import Config.
From S2P Require Import Reload.
From S2P Require Import Settings.
From S2P Require Import TextSpec.
From S2P Require Import RibSpec.
From S2P Require Import ServeSpec.
From S2P Require Import SettingsSpec.
From S2P Require Import ConfigSpec.
Local Open Scope Z_scope.

(** ** Servers *)

Class ApiLaws (S : Type) `{Api S} (view : S -> settings -> Prop) : Prop := {
  api_setting s st op s' e :
    is_setting op = true -> operation_ok op -> view s st -> issue op s = Ok (s', e) ->
    exists conn, view s' (spec conn op st).1 /\ e = (spec conn op st).2;
  api_other s st op s' e : is_setting op = false -> view s st -> issue op s = Ok (s', e) -> view s' st
}.

(** ** Batches of calls in the abstract *)

Inductive answered : list operation -> settings -> settings -> list opError -> Prop :=
  | answered_nil st : answered [] st st []
  | answered_cons conn op ops st st' es :
      answered ops (spec conn op st).1 st' es -> answered (op :: ops) st st' (refused (spec conn op st).2 ++ es).

Lemma answered_cons_inv op ops st st' es :
  answered (op :: ops) st st' es ->
  exists conn es', answered ops (spec conn op st).1 st' es' /\ es = refused (spec conn op st).2 ++ es'.
Proof. intros Ha. inversion Ha; subst. eauto. Qed.

Lemma calls_answered {S A} `{ApiLaws S view} (f : A -> operation) l s st s' es :
  (forall a, is_setting (f a) = true) -> Forall (fun a => operation_ok (f a)) l -> view s st -> calls (fun a => issue (f a)) l s = Ok (s', es) ->
  exists st', view s' st' /\ answered (f <$> l) st st' es.
Proof.
  intros Hf Hok. revert s st es. induction Hok as [|a l Ha _ IH]; intros s st es Hv; cbn [calls].
  - intros [= <- <-]. exists st. split; [done|constructor].
  - intros ([s1 e] & H1 & ([s2 es2] & H2 & [= <- <-])%bind_Ok)%bind_Ok.
    destruct (api_setting s st (f a) s1 e (Hf a) Ha Hv H1) as (conn & Hv1 & ->).
    destruct (IH s1 _ es2 Hv1 H2) as (st' & Hv' & Hs). exists st'. split; [done|]. by constructor.
Qed.

Section Removed.
Context {K V : Type} `{Countable K}.
Implicit Types (m : gmap K V).

Lemma filter_gone (k : K) ks m : filter (fun '(q, _) => q ∉ ks) (delete k m) = filter (fun '(q, _) => q ∉ k :: ks) m.
Proof.
  apply map_eq. intros q. rewrite option_eq. intros a. rewrite !map_lookup_filter_Some, lookup_delete_Some, not_elem_of_cons.
  naive_solver.
Qed.

Lemma filter_absent (k : K) ks m : m !! k = None -> filter (fun '(q, _) => q ∉ ks) m = filter (fun '(q, _) => q ∉ k :: ks) m.
Proof. intros Hk. rewrite <- filter_gone, delete_id; done. Qed.

Lemma filter_none m : filter (fun '(q, _) => q ∉ ([] : list K)) m = m.
Proof. apply map_filter_id. set_solver. Qed.
End Removed.

(** Removals: an element that is not there is found already in state. *)
Lemma removed_locators ps locs algos prefixes st' es :
  Forall (fun p => Masked p = p) ps ->
  answered (OpDeleteLocator <$> ps) (mkSettings locs algos prefixes) st' es ->
  es = [] /\ st' = mkSettings (filter (fun '(p, _) => p ∉ ps) locs) algos prefixes.
Proof.
  intros Hm. revert locs es. induction Hm as [|p ps Hp _ IH]; intros locs es.
  - intros Ha. inversion Ha; subst. split; [done|]. by rewrite filter_none.
  - intros (conn & es' & Ha & ->)%answered_cons_inv. cbn [spec] in Ha |- *. rewrite Hp in *.
    destruct (locs !! p) as [a|] eqn:El; cbn [fst snd refused app] in *.
    + apply IH in Ha as [-> ->]. by rewrite filter_gone.
    + apply IH in Ha as [-> ->]. by rewrite (filter_absent p).
Qed.

(** Removing algorithms, where none that is there has a locator bound to it. *)
Lemma removed_algos ks locs algos prefixes st' es :
  (forall a p, a ∈ ks -> is_Some (algos !! a) -> locs !! p <> Some a) ->
  answered (OpDeleteFlexAlgo <$> ks) (mkSettings locs algos prefixes) st' es ->
  es = [] /\ st' = mkSettings locs (filter (fun '(a, _) => a ∉ ks) algos) prefixes.
Proof.
  revert algos es. induction ks as [|a ks IH]; intros algos es Hb.
  - intros Ha. inversion Ha; subst. split; [done|]. by rewrite filter_none.
  - intros (conn & es' & Ha & ->)%answered_cons_inv. cbn [spec] in Ha |- *.
    destruct (algos !! a) as [fa|] eqn:El; cbn [fst snd refused app] in *.
    + rewrite bool_decide_true in * by (intros p b Hp ->; apply (Hb a p); [by left|by eexists|done]). cbn [fst snd refused app] in *.
      apply IH in Ha as [-> ->]; [by rewrite filter_gone|].
      intros b p Hin [fb [_ Hs]%lookup_delete_Some]. apply Hb; [by right|by eexists].
    + apply IH in Ha as [-> ->]; [|intros b p Hin; apply Hb; by right]. by rewrite (filter_absent a).
Qed.

(** Removing algorithms that may have a locator: what is refused stays. *)
Lemma kept_algos ks locs algos prefixes st' es :
  answered (OpDeleteFlexAlgo <$> ks) (mkSettings locs algos prefixes) st' es ->
  exists algos', st' = mkSettings locs algos' prefixes /\ (forall a fa, algos' !! a = Some fa -> algos !! a = Some fa) /\
    (forall a fa, algos !! a = Some fa -> algos' !! a = Some fa \/ a ∈ ks) /\
    (forall a p, a ∈ ks -> is_Some (algos !! a) -> locs !! p = Some a -> Refusal ∈ es).
Proof.
  revert algos es. induction ks as [|a ks IH]; intros algos es.
  - intros Ha. inversion Ha; subst. exists algos. split_and!; [done|done|auto|]. by intros a p ?%elem_of_nil.
  - intros (conn & es' & Ha & ->)%answered_cons_inv. cbn [spec] in Ha |- *.
    destruct (algos !! a) as [fa|] eqn:El; [case_bool_decide as Hb|]; cbn [fst snd refused app] in *;
      apply IH in Ha as (algos' & -> & H1 & H2 & H3); exists algos'; (split; [done|]).
    + split_and!.
      * by intros b fb [_ ?]%H1%lookup_delete_Some.
      * intros b fb Hf. destruct (decide (b = a)) as [-> |Hne]; [right; by left|].
        destruct (H2 b fb) as [?|?]; [by rewrite lookup_delete_ne|by left|right; by right].
      * intros b p [-> |Hin]%elem_of_cons Hs Hp; [by destruct (Hb p a Hp)|]. apply (H3 b p); [done| |done].
        rewrite lookup_delete_ne; [done|]. intros ->. by destruct (Hb p b Hp).
    + split_and!; [done|intros b fb Hf; destruct (H2 b fb Hf); [by left|right; by right]|]. intros b p _ _ _. by left.
    + split_and!; [done|intros b fb Hf; destruct (H2 b fb Hf); [by left|right; by right]|].
      intros b p [-> |Hin]%elem_of_cons Hs Hp; [destruct Hs; congruence|by apply (H3 b p)].
Qed.

(** Removing prefixes: only one that is not there may be refused. *)
Lemma removed_prefixes ps locs algos prefixes st' es :
  Forall (fun p => Masked p = p) ps ->
  answered (OpDeletePrefix <$> ps) (mkSettings locs algos prefixes) st' es ->
  (NoDup ps -> Forall (fun p => is_Some (prefixes !! p)) ps -> es = []) /\
  st' = mkSettings locs algos (filter (fun '(p, _) => p ∉ ps) prefixes).
Proof.
  intros Hm. revert prefixes es. induction Hm as [|p ps Hp _ IH]; intros prefixes es.
  - intros Ha. inversion Ha; subst. split; [done|]. by rewrite filter_none.
  - intros (conn & es' & Ha & ->)%answered_cons_inv. cbn [spec] in Ha |- *. rewrite Hp in *.
    destruct (prefixes !! p) as [a|] eqn:El; cbn [fst snd] in *.
    + apply IH in Ha as [He ->]. split; [|by rewrite filter_gone]. cbn [refused app]. intros [Hnp Hd]%NoDup_cons [_ Hs]%Forall_cons.
      apply He; [done|]. rewrite Forall_forall in *. intros q Hq. rewrite lookup_delete_ne by (by intros ->). by apply Hs.
    + apply IH in Ha as [He ->]. split; [|by rewrite (filter_absent p)]. intros _ [[? Hs] _]%Forall_cons. congruence.
Qed.

(** Additions: an element that is there as asked for is found already in state. *)
Section Added.
Context {A K V : Type} `{Countable K} (k : A -> K) (v : A -> V).

Definition add_all (l : list A) (m : gmap K V) : gmap K V := fold_left (fun m a => <[k a := v a]> m) l m.

(** What is there agrees with what is added, and no two that are added disagree. *)
Definition agreeable (l : list A) (m : gmap K V) : Prop :=
  NoDup (k <$> l) /\ Forall (fun a => m !! k a = None \/ m !! k a = Some (v a)) l.

Lemma agreeable_cons a l m : agreeable (a :: l) m -> agreeable l (<[k a := v a]> m).
Proof.
  intros [[Hn Hd]%NoDup_cons [_ Hf]%Forall_cons]. split; [done|]. rewrite Forall_forall in *. intros b Hb.
  rewrite lookup_insert_ne; [by apply Hf|]. intros E. apply Hn. rewrite E. by apply list_elem_of_fmap_2.
Qed.

Lemma lookup_add_all l m x y :
  NoDup (k <$> l) -> add_all l m !! x = Some y <-> (exists a, a ∈ l /\ k a = x /\ v a = y) \/ (x ∉ k <$> l /\ m !! x = Some y).
Proof.
  revert m. induction l as [|a l IH]; intros m; cbn [add_all fold_left fmap list_fmap].
  - intros _. split; [right; split; [set_solver|done]|]. intros [(a & Ha & _)|[_ ?]]; [by apply elem_of_nil in Ha|done].
  - intros [Hn Hd]%NoDup_cons. fold (add_all l (<[k a := v a]> m)). rewrite IH by done. rewrite lookup_insert_Some, not_elem_of_cons. split.
    + intros [(b & Hb & E)|[Hx [[<- <-]|[Hne E]]]]; [left; exists b; split; [by right|done]|left; exists a; split; [by left|done]|].
      right. split; [split; [congruence|done]|done].
    + intros [(b & [-> |Hb]%elem_of_cons & <- & <-)|[[Hne Hx] E]]; [right; split; [done|by left]|left; by exists b|].
      right. split; [done|]. right. split; [congruence|done].
Qed.
End Added.

Lemma added_algos fas locs algos prefixes st' es :
  Forall (fun fa => 128 <= FC_Algo fa) fas -> agreeable FC_Algo id fas algos ->
  answered (OpAddFlexAlgo <$> fas) (mkSettings locs algos prefixes) st' es ->
  es = [] /\ st' = mkSettings locs (add_all FC_Algo id fas algos) prefixes.
Proof.
  intros Hr. revert algos es. induction Hr as [|fa fas Hk _ IH]; intros algos es Hg.
  - intros Ha. by inversion Ha; subst.
  - intros (conn & es' & Ha & ->)%answered_cons_inv. cbn [spec] in Ha |- *.
    rewrite (proj2 (Z.ltb_ge _ _)) in * by lia. pose proof (agreeable_cons FC_Algo id fa fas algos Hg) as Hg'.
    destruct Hg as [_ [[E|E] _]%Forall_cons]; rewrite E in *; cbn [fst snd id] in *.
    + by apply IH in Ha as [-> ->].
    + rewrite bool_decide_true by done. cbn [refused app]. rewrite insert_id in Hg' by done. apply IH in Ha as [-> ->]; [|done].
      split; [done|]. cbn [add_all fold_left]. by rewrite insert_id.
Qed.

Lemma added_locators lcs locs algos prefixes st' es :
  Forall (fun lc => Is6 (p_addr (LC_Prefix lc)) = true /\ Is4In6 (p_addr (LC_Prefix lc)) = false /\
                    takes_part (mkSettings locs algos prefixes) (LC_Algo lc) = true) lcs ->
  agreeable loc_key LC_Algo lcs locs ->
  answered (OpAddLocator <$> lcs) (mkSettings locs algos prefixes) st' es ->
  es = [] /\ st' = mkSettings (add_all loc_key LC_Algo lcs locs) algos prefixes.
Proof.
  revert locs es. induction lcs as [|[p a] lcs IH]; intros locs es Hr Hg.
  - intros Ha. by inversion Ha; subst.
  - intros (conn & es' & Ha & ->)%answered_cons_inv. cbn [spec] in Ha |- *.
    apply Forall_cons in Hr as [(R1 & R2 & R3) Hr]. cbn [LC_Prefix LC_Algo] in *. rewrite R1, R2, R3 in *. cbn [negb orb] in *.
    pose proof (agreeable_cons loc_key LC_Algo _ lcs locs Hg) as Hg'. destruct Hg as [_ [[E|E] _]%Forall_cons];
      change (loc_key (mkLocatorConfig p a)) with (Masked p) in *; cbn [LC_Algo] in *; rewrite E in *; cbn [fst snd] in *.
    + apply IH in Ha as [-> ->]; [done| |done]. exact Hr.
    + rewrite Z.eqb_refl. cbn [refused app]. rewrite insert_id in Hg' by done. apply IH in Ha as [-> ->]; [|done..].
      split; [done|]. cbn [add_all fold_left]. change (loc_key (mkLocatorConfig p a)) with (Masked p). cbn [LC_Algo]. by rewrite insert_id.
Qed.

Lemma added_prefixes aps locs algos prefixes st' es :
  Forall (fun ap => checkAdvertisedPrefix ap = true) aps -> agreeable (fun ap => Masked (AP_Prefix ap)) AP_Metric aps prefixes ->
  answered (OpAddPrefix <$> aps) (mkSettings locs algos prefixes) st' es ->
  es = [] /\ st' = mkSettings locs algos (add_all (fun ap => Masked (AP_Prefix ap)) AP_Metric aps prefixes).
Proof.
  intros Hr. revert prefixes es. induction Hr as [|[p m] aps Hk _ IH]; intros prefixes es Hg.
  - intros Ha. by inversion Ha; subst.
  - intros (conn & es' & Ha & ->)%answered_cons_inv. cbn [spec] in Ha |- *. rewrite Hk in *. cbn [negb] in *.
    pose proof (agreeable_cons (fun ap => Masked (AP_Prefix ap)) AP_Metric _ aps prefixes Hg) as Hg'.
    destruct Hg as [_ [[E|E] _]%Forall_cons]; cbn [AP_Prefix AP_Metric] in *; rewrite E in *; cbn [fst snd] in *.
    + by apply IH in Ha as [-> ->].
    + rewrite Z.eqb_refl. cbn [refused app]. rewrite insert_id in Hg' by done. apply IH in Ha as [-> ->]; [|done].
      split; [done|]. cbn [add_all fold_left AP_Prefix AP_Metric]. by rewrite insert_id.
Qed.

(** ** The batch of a difference *)

(** What a file can say: valid settings, keyed by masked prefixes. *)
Record filed (st : settings) : Prop := {
  fl_ok : settings_ok st;
  fl_locators : map_Forall (fun p _ => Masked p = p /\ prefix_ok p /\ Is6 (p_addr p) = true /\ Is4In6 (p_addr p) = false) (st_locators st);
  fl_prefixes : map_Forall (fun p m => Masked p = p /\ checkAdvertisedPrefix (mkAdvertised p m) = true) (st_prefixes st)
}.

Section Sorted.
Context {A : Type} (R : A -> A -> Prop) `{!forall x y, Decision (R x y)}.
Lemma elem_of_sorted l x : x ∈ merge_sort R l <-> x ∈ l.
Proof. by rewrite (merge_sort_Permutation R l). Qed.
End Sorted.

Lemma elem_of_keys {K V} `{Countable K} (m : gmap K V) k : k ∈ (map_to_list m).*1 <-> is_Some (m !! k).
Proof.
  rewrite list_elem_of_fmap. split; [intros ([k' v] & -> & Hv%elem_of_map_to_list); by exists v|].
  intros [v Hv]. exists (k, v). split; [done|by apply elem_of_map_to_list].
Qed.

Lemma settings_eta st : mkSettings (st_locators st) (st_algos st) (st_prefixes st) = st.
Proof. by destruct st. Qed.

Section Changes.
Context (x : list string * list cfgCircuit) (old next : settings) (keys : list string).
Context (filed_old : filed old) (filed_next : filed next).

Definition batch : Changes :=
  changes x (st_locators old) (st_locators next) (st_algos old) (st_algos next) (st_prefixes old) (st_prefixes next) keys.

Definition gone (a : Z) : Prop := is_Some (unlike (st_algos old) (st_algos next) !! a).
Definition new (a : Z) : Prop := is_Some (unlike (st_algos next) (st_algos old) !! a).

Lemma unlike_Some {K V} `{Countable K} `{EqDecision V} (a b : gmap K V) k v :
  unlike a b !! k = Some v <-> a !! k = Some v /\ b !! k <> Some v.
Proof using. unfold unlike. by rewrite map_lookup_filter_Some. Qed.

Lemma delete_locators_spec p :
  p ∈ DeleteLocators batch <-> exists a, st_locators old !! p = Some a /\ (st_locators next !! p <> Some a \/ gone a).
Proof using.
  unfold batch, changes. cbn [DeleteLocators]. rewrite elem_of_sorted, elem_of_keys. split.
  - intros [a Ha%map_lookup_filter_Some]. by exists a.
  - intros (a & Ha). exists a. by apply map_lookup_filter_Some.
Qed.

Lemma add_locators_spec lc :
  lc ∈ AddLocators batch <-> st_locators next !! LC_Prefix lc = Some (LC_Algo lc) /\
    (st_locators old !! LC_Prefix lc <> Some (LC_Algo lc) \/ new (LC_Algo lc)).
Proof using.
  unfold batch, changes. cbn [AddLocators]. rewrite elem_of_sorted, list_elem_of_fmap. split.
  - intros ([p a] & -> & [Hp Hc]%elem_of_map_to_list%map_lookup_filter_Some). done.
  - intros [Hp Hc]. exists (LC_Prefix lc, LC_Algo lc). split; [by destruct lc|]. by apply elem_of_map_to_list, map_lookup_filter_Some.
Qed.

Lemma delete_algos_spec a : a ∈ DeleteFlexAlgos batch <-> gone a.
Proof using. unfold batch, changes. cbn [DeleteFlexAlgos]. by rewrite elem_of_sorted, elem_of_keys. Qed.

Lemma add_algos_spec fa :
  fa ∈ AddFlexAlgos batch <-> exists a, st_algos next !! a = Some fa /\ st_algos old !! a <> Some fa.
Proof using.
  unfold batch, changes. cbn [AddFlexAlgos]. rewrite elem_of_sorted, list_elem_of_fmap. split.
  - intros ([a fb] & -> & Hf%elem_of_map_to_list%unlike_Some). by exists a.
  - intros (a & Ha). exists (a, fa). split; [done|]. by apply elem_of_map_to_list, unlike_Some.
Qed.

Lemma delete_prefixes_spec p :
  p ∈ DeletePrefixes batch <-> exists m, st_prefixes old !! p = Some m /\ st_prefixes next !! p <> Some m.
Proof using.
  unfold batch, changes. cbn [DeletePrefixes]. rewrite elem_of_sorted, elem_of_keys. split.
  - intros [m Hm%unlike_Some]. by exists m.
  - intros (m & Hm). exists m. by apply unlike_Some.
Qed.

Lemma add_prefixes_spec ap :
  ap ∈ AddPrefixes batch <-> st_prefixes next !! AP_Prefix ap = Some (AP_Metric ap) /\ st_prefixes old !! AP_Prefix ap <> Some (AP_Metric ap).
Proof using.
  unfold batch, changes. cbn [AddPrefixes]. rewrite elem_of_sorted, list_elem_of_fmap. split.
  - intros ([p m] & -> & Hm%elem_of_map_to_list%unlike_Some). done.
  - intros Hm. exists (AP_Prefix ap, AP_Metric ap). split; [by destruct ap|]. by apply elem_of_map_to_list, unlike_Some.
Qed.

(** No key twice among the additions. *)
Lemma nodup_add_algos : NoDup (FC_Algo <$> AddFlexAlgos (batch)).
Proof using filed_next.
  unfold batch, changes. cbn [AddFlexAlgos]. rewrite merge_sort_Permutation, <- list_fmap_compose.
  erewrite list_fmap_ext; [apply NoDup_fst_map_to_list|].
  intros i [a fa] Hi. cbn. apply list_elem_of_lookup_2, elem_of_map_to_list, unlike_Some in Hi as [Hi _].
  by destruct (so_algos next (fl_ok next filed_next) a fa Hi).
Qed.

Lemma nodup_add_locators : NoDup (loc_key <$> AddLocators batch).
Proof using filed_next.
  unfold batch, changes. cbn [AddLocators]. rewrite merge_sort_Permutation, <- list_fmap_compose.
  erewrite list_fmap_ext; [apply NoDup_fst_map_to_list|].
  intros i [p a] Hi. cbn. apply list_elem_of_lookup_2, elem_of_map_to_list, map_lookup_filter_Some in Hi as [Hi _].
  by destruct (fl_locators next filed_next p a Hi).
Qed.

Lemma nodup_add_prefixes : NoDup ((fun ap => Masked (AP_Prefix ap)) <$> AddPrefixes batch).
Proof using filed_next.
  unfold batch, changes. cbn [AddPrefixes]. rewrite merge_sort_Permutation, <- list_fmap_compose.
  erewrite list_fmap_ext; [apply NoDup_fst_map_to_list|].
  intros i [p m] Hi. cbn. apply list_elem_of_lookup_2, elem_of_map_to_list, unlike_Some in Hi as [Hi _].
  by destruct (fl_prefixes next filed_next p m Hi).
Qed.

(** ** From any point between the two *)

(** Each entry is as one of the two files has it. *)
Record between (st : settings) : Prop := {
  bt_locators p : st_locators st !! p = st_locators old !! p \/ st_locators st !! p = st_locators next !! p;
  bt_algos a : st_algos st !! a = st_algos old !! a \/ st_algos st !! a = st_algos next !! a;
  bt_prefixes p : st_prefixes st !! p = st_prefixes old !! p \/ st_prefixes st !! p = st_prefixes next !! p
}.

(** No locator that stays is bound to an algorithm that is to be deleted. *)
Definition unstuck (st : settings) : Prop :=
  forall a p, gone a -> is_Some (st_algos st !! a) -> st_locators st !! p = Some a -> p ∈ DeleteLocators batch.

Lemma mid_prefixes P :
  (forall p, P !! p = st_prefixes old !! p \/ P !! p = st_prefixes next !! p) ->
  let P1 := filter (fun '(p, _) => p ∉ DeletePrefixes batch) P in
  agreeable (fun ap => Masked (AP_Prefix ap)) AP_Metric (AddPrefixes batch) P1 /\
  add_all (fun ap => Masked (AP_Prefix ap)) AP_Metric (AddPrefixes batch) P1 = st_prefixes next.
Proof using filed_old filed_next.
  intros Hb P1. assert (Hin : forall ap, ap ∈ AddPrefixes batch -> Masked (AP_Prefix ap) = AP_Prefix ap).
  { intros ap [Hn _]%add_prefixes_spec. by destruct (fl_prefixes next filed_next _ _ Hn). }
  assert (H1 : forall p m, P1 !! p = Some m <-> P !! p = Some m /\ p ∉ DeletePrefixes batch) by (intros; apply map_lookup_filter_Some).
  assert (Hst : forall p m, P1 !! p = Some m -> st_prefixes next !! p = Some m).
  { intros p m [Hp Hnd]%H1. destruct (Hb p) as [E|E]; [|congruence]. destruct (decide (st_prefixes next !! p = Some m)); [done|].
    destruct Hnd. apply delete_prefixes_spec. exists m. by split; [congruence|]. }
  split.
  - split; [apply nodup_add_prefixes|]. apply Forall_forall. intros ap Hap. rewrite (Hin ap Hap).
    apply add_prefixes_spec in Hap as [Hn _]. destruct (P1 !! AP_Prefix ap) as [m|] eqn:E; [right|by left]. apply Hst in E. congruence.
  - apply map_eq. intros p. rewrite option_eq. intros m. rewrite lookup_add_all by apply nodup_add_prefixes. split.
    + intros [(ap & Hap & <- & <-)|[_ E]]; [|by apply Hst]. rewrite (Hin ap Hap). by apply add_prefixes_spec in Hap as [Hn _].
    + intros Hn. destruct (decide (st_prefixes old !! p = Some m)) as [Eo|Eo].
      * right. split.
        -- intros (ap & -> & Hap)%list_elem_of_fmap. rewrite (Hin ap Hap) in *. apply add_prefixes_spec in Hap as [Hn' Ho']. congruence.
        -- apply H1. split; [destruct (Hb p); congruence|]. intros (m' & Ho & Hne)%delete_prefixes_spec. congruence.
      * left. exists (mkAdvertised p m). assert (Hap : mkAdvertised p m ∈ AddPrefixes batch) by (by apply add_prefixes_spec).
        split_and!; [done|by apply (Hin _ Hap)|done].
Qed.

(** Additions bring back what is missing of the new algorithms. *)
Lemma refill_algos A1 :
  (forall a fa, A1 !! a = Some fa -> st_algos next !! a = Some fa) ->
  (forall a fa, st_algos next !! a = Some fa -> A1 !! a = Some fa \/ st_algos old !! a <> Some fa) ->
  agreeable FC_Algo id (AddFlexAlgos batch) A1 /\ add_all FC_Algo id (AddFlexAlgos batch) A1 = st_algos next.
Proof using filed_next.
  intros Hst Hre. assert (Hin : forall fa, fa ∈ AddFlexAlgos batch -> st_algos next !! FC_Algo fa = Some fa /\ st_algos old !! FC_Algo fa <> Some fa).
  { intros fa (a & Hn & Ho)%add_algos_spec. by destruct (so_algos next (fl_ok next filed_next) _ _ Hn) as [-> _]. }
  split.
  - split; [apply nodup_add_algos|]. apply Forall_forall. intros fa [Hn _]%Hin.
    destruct (A1 !! FC_Algo fa) as [fb|] eqn:E; [right|by left]. apply Hst in E. unfold id. congruence.
  - apply map_eq. intros a. rewrite option_eq. intros fa. rewrite lookup_add_all by apply nodup_add_algos. split.
    + intros [(fb & [Hn _]%Hin & <- & <-)|[_ E]]; [done|by apply Hst].
    + intros Hn. destruct (decide (st_algos old !! a = Some fa)) as [Eo|Eo].
      * right. split; [intros (fb & -> & [Hn' Ho']%Hin)%list_elem_of_fmap; congruence|]. by destruct (Hre a fa Hn).
      * left. exists fa. destruct (so_algos next (fl_ok next filed_next) _ _ Hn) as [E _].
        split_and!; [|done|done]. apply add_algos_spec. by exists a.
Qed.

Lemma mid_algos A :
  (forall a, A !! a = st_algos old !! a \/ A !! a = st_algos next !! a) ->
  let A1 := filter (fun '(a, _) => a ∉ DeleteFlexAlgos batch) A in
  agreeable FC_Algo id (AddFlexAlgos batch) A1 /\ add_all FC_Algo id (AddFlexAlgos batch) A1 = st_algos next.
Proof using filed_next.
  intros Hb A1. assert (H1 : forall a fa, A1 !! a = Some fa <-> A !! a = Some fa /\ a ∉ DeleteFlexAlgos batch) by (intros; apply map_lookup_filter_Some).
  apply refill_algos.
  - intros a fa [Ha Hnd]%H1. destruct (Hb a) as [E|E]; [|congruence]. destruct (decide (st_algos next !! a = Some fa)); [done|].
    destruct Hnd. apply delete_algos_spec. exists fa. apply unlike_Some. by split; [congruence|].
  - intros a fa Hn. destruct (decide (st_algos old !! a = Some fa)) as [Eo|Eo]; [left|by right].
    apply H1. split; [destruct (Hb a); congruence|]. intros [fb [Ho Hne]%unlike_Some]%delete_algos_spec. congruence.
Qed.

(** A locator bound to a new algorithm, if it was there, goes and comes back. *)
Lemma new_gone p a : st_locators old !! p = Some a -> new a -> gone a.
Proof using filed_old filed_next.
  intros Hp [fa [Hn Hne]%unlike_Some]. pose proof (so_locators old (fl_ok old filed_old) p a Hp) as Ht. unfold takes_part in Ht.
  destruct (a =? 0) eqn:Ea; cbn [orb] in Ht.
  - destruct (so_algos next (fl_ok next filed_next) _ _ Hn). lia.
  - apply bool_decide_eq_true in Ht as [fb Ho]. exists fb. apply unlike_Some. split; [done|congruence].
Qed.

(** A locator of the new file that stays keeps its algorithm. *)
Lemma gone_new p a : st_locators next !! p = Some a -> gone a -> new a.
Proof using filed_old filed_next.
  intros Hp [fa [Ho Hne]%unlike_Some]. pose proof (so_locators next (fl_ok next filed_next) p a Hp) as Ht. unfold takes_part in Ht.
  destruct (a =? 0) eqn:Ea; cbn [orb] in Ht.
  - destruct (so_algos old (fl_ok old filed_old) _ _ Ho). lia.
  - apply bool_decide_eq_true in Ht as [fb Hn]. exists fb. apply unlike_Some. split; [done|congruence].
Qed.

Lemma mid_locators L :
  (forall p, L !! p = st_locators old !! p \/ L !! p = st_locators next !! p) ->
  let L1 := filter (fun '(p, _) => p ∉ DeleteLocators batch) L in
  agreeable loc_key LC_Algo (AddLocators batch) L1 /\ add_all loc_key LC_Algo (AddLocators batch) L1 = st_locators next.
Proof using filed_old filed_next.
  intros Hb L1. assert (Hin : forall lc, lc ∈ AddLocators batch -> loc_key lc = LC_Prefix lc).
  { intros lc [Hn _]%add_locators_spec. by destruct (fl_locators next filed_next _ _ Hn). }
  assert (H1 : forall p a, L1 !! p = Some a <-> L !! p = Some a /\ p ∉ DeleteLocators batch) by (intros; apply map_lookup_filter_Some).
  assert (Hst : forall p a, L1 !! p = Some a -> st_locators next !! p = Some a).
  { intros p a [Hp Hnd]%H1. destruct (Hb p) as [E|E]; [|congruence]. destruct (decide (st_locators next !! p = Some a)); [done|].
    destruct Hnd. apply delete_locators_spec. exists a. split; [congruence|by left]. }
  split.
  - split; [apply nodup_add_locators|]. apply Forall_forall. intros lc Hlc. rewrite (Hin lc Hlc).
    apply add_locators_spec in Hlc as [Hn _]. destruct (L1 !! LC_Prefix lc) as [a|] eqn:E; [right|by left]. apply Hst in E. congruence.
  - apply map_eq. intros p. rewrite option_eq. intros a. rewrite lookup_add_all by apply nodup_add_locators. split.
    + intros [(lc & Hlc & <- & <-)|[_ E]]; [|by apply Hst]. rewrite (Hin lc Hlc). by apply add_locators_spec in Hlc as [Hn _].
    + intros Hn. destruct (decide (st_locators old !! p <> Some a \/ new a)) as [Ea|Ea].
      * left. exists (mkLocatorConfig p a). assert (Hlc : mkLocatorConfig p a ∈ AddLocators batch) by (by apply add_locators_spec).
        split_and!; [done|by apply (Hin _ Hlc)|done].
      * right. assert (Eo : st_locators old !! p = Some a) by (destruct (decide (st_locators old !! p = Some a)); [done|tauto]). split.
        -- intros (lc & -> & Hlc)%list_elem_of_fmap. rewrite (Hin lc Hlc) in *. apply add_locators_spec in Hlc as [Hn' Ho'].
           assert (LC_Algo lc = a) by congruence. subst a. tauto.
        -- apply H1. split; [destruct (Hb p); congruence|]. intros (b & Ho & Hc)%delete_locators_spec.
           assert (b = a) as -> by congruence. destruct Hc as [Hc|Hc]; [done|]. apply Ea. right. by eapply gone_new.
Qed.

Lemma masked_deletes : Forall (fun p => Masked p = p) (DeleteLocators batch) /\ Forall (fun p => Masked p = p) (DeletePrefixes batch).
Proof using filed_old.
  clear filed_next. split; apply Forall_forall.
  - intros p (a & Hp & _)%delete_locators_spec. by destruct (fl_locators old filed_old _ _ Hp).
  - intros p (m & Hp & _)%delete_prefixes_spec. by destruct (fl_prefixes old filed_old _ _ Hp).
Qed.

(** The additions and the prefixes, once what has to go is gone. *)
Lemma batch_refills L1 A1 P st4 st5 st6 st7 e4 e5 e6 e7 :
  agreeable FC_Algo id (AddFlexAlgos batch) A1 /\ add_all FC_Algo id (AddFlexAlgos batch) A1 = st_algos next ->
  agreeable loc_key LC_Algo (AddLocators batch) L1 /\ add_all loc_key LC_Algo (AddLocators batch) L1 = st_locators next ->
  (forall p, P !! p = st_prefixes old !! p \/ P !! p = st_prefixes next !! p) ->
  answered (OpAddFlexAlgo <$> AddFlexAlgos batch) (mkSettings L1 A1 P) st4 e4 ->
  answered (OpAddLocator <$> AddLocators batch) st4 st5 e5 ->
  answered (OpDeletePrefix <$> DeletePrefixes batch) st5 st6 e6 ->
  answered (OpAddPrefix <$> AddPrefixes batch) st6 st7 e7 ->
  st7 = next /\ e4 = [] /\ e5 = [] /\ e7 = [] /\
  (Forall (fun p => is_Some (P !! p)) (DeletePrefixes batch) -> e6 = []).
Proof using filed_old filed_next.
  intros [Ga Ea] [Gl El] Bp H4 H5 H6 H7. destruct masked_deletes as [_ Mp]. destruct (mid_prefixes P Bp) as [Gp Ep].
  apply added_algos in H4 as [-> ->]; [|apply Forall_forall; intros fa (a & Hn & _)%add_algos_spec;
    destruct (so_algos next (fl_ok next filed_next) a fa Hn); lia|done]. rewrite Ea in H5.
  apply added_locators in H5 as [-> ->]; [|apply Forall_forall; intros lc [Hn _]%add_locators_spec;
    destruct (fl_locators next filed_next _ _ Hn) as (_ & _ & ? & ?); split_and!; [done..|]; exact (so_locators next (fl_ok next filed_next) _ _ Hn)|done].
  apply removed_prefixes in H6 as [He ->]; [|done].
  apply added_prefixes in H7 as [-> ->]; [|apply Forall_forall; intros [p m] [Hn _]%add_prefixes_spec; by destruct (fl_prefixes next filed_next p m Hn)|done].
  rewrite El, Ep. split_and!; [by destruct next|done..|]. apply He.
  unfold batch, changes. cbn [DeletePrefixes]. rewrite merge_sort_Permutation. apply NoDup_fst_map_to_list.
Qed.

(** The batch takes any point between the two to the new settings; a call refused
    is the deletion of a prefix that is not there. *)
Lemma batch_settles st st2 st3 st4 st5 st6 st7 e2 e3 e4 e5 e6 e7 :
  between st -> unstuck st ->
  answered (OpDeleteLocator <$> DeleteLocators batch) st st2 e2 ->
  answered (OpDeleteFlexAlgo <$> DeleteFlexAlgos batch) st2 st3 e3 ->
  answered (OpAddFlexAlgo <$> AddFlexAlgos batch) st3 st4 e4 ->
  answered (OpAddLocator <$> AddLocators batch) st4 st5 e5 ->
  answered (OpDeletePrefix <$> DeletePrefixes batch) st5 st6 e6 ->
  answered (OpAddPrefix <$> AddPrefixes batch) st6 st7 e7 ->
  st7 = next /\ e2 ++ e3 ++ e4 ++ e5 ++ e6 ++ e7 = e6 /\
  (Forall (fun p => is_Some (st_prefixes st !! p)) (DeletePrefixes batch) -> e6 = []).
Proof using filed_old filed_next.
  intros [Bl Ba Bp] Hu H2 H3 H4 H5 H6 H7. destruct masked_deletes as [Ml _]. destruct st as [L A P]; cbn in Bl, Ba, Bp, Hu |- *.
  apply removed_locators in H2 as [-> ->]; [|done]. apply removed_algos in H3 as [-> ->].
  2: { intros a p Ha%delete_algos_spec Hs [Hp Hnd]%map_lookup_filter_Some. apply Hnd. by apply (Hu a). }
  destruct (batch_refills _ _ P _ _ _ _ _ _ _ _ (mid_algos A Ba) (mid_locators L Bl) Bp H4 H5 H6 H7) as (-> & -> & -> & -> & He).
  split_and!; [done|by rewrite app_nil_r|done].
Qed.

(** An algorithm that has to go while a locator that stays is bound to it: its
    deletion is refused, and the settings end as the new file has them all the
    same. *)
Lemma batch_latches a p st2 st3 st4 st5 st6 st7 e2 e3 e4 e5 e6 e7 :
  gone a -> st_locators next !! p = Some a -> p ∉ DeleteLocators batch ->
  answered (OpDeleteLocator <$> DeleteLocators batch) next st2 e2 ->
  answered (OpDeleteFlexAlgo <$> DeleteFlexAlgos batch) st2 st3 e3 ->
  answered (OpAddFlexAlgo <$> AddFlexAlgos batch) st3 st4 e4 ->
  answered (OpAddLocator <$> AddLocators batch) st4 st5 e5 ->
  answered (OpDeletePrefix <$> DeletePrefixes batch) st5 st6 e6 ->
  answered (OpAddPrefix <$> AddPrefixes batch) st6 st7 e7 ->
  st7 = next /\ Refusal ∈ e3.
Proof using filed_old filed_next.
  intros Hg Hp Hnp H2 H3 H4 H5 H6 H7. destruct masked_deletes as [Ml _].
  pose proof (mid_locators (st_locators next) (fun _ => or_intror eq_refl)) as Hl. rewrite <- (settings_eta next) in H2.
  apply removed_locators in H2 as [-> ->]; [|done]. apply kept_algos in H3 as (A1 & -> & Hin & Hre & Hrf).
  assert (Ha : is_Some (st_algos next !! a)).
  { pose proof (so_locators _ (fl_ok _ filed_next) p a Hp) as Ht. unfold takes_part in Ht. destruct Hg as [fa [Ho _]%unlike_Some].
    destruct (so_algos old (fl_ok old filed_old) _ _ Ho). apply orb_true_iff in Ht as [Ht|Ht%bool_decide_eq_true]; [lia|exact Ht]. }
  destruct (batch_refills (filter (fun '(p, _) => p ∉ DeleteLocators batch) (st_locators next)) A1 (st_prefixes next) st4 st5 st6 st7 e4 e5 e6 e7) as (E7 & _); [|exact Hl|by right|done..|].
  { apply refill_algos; [exact Hin|]. intros b fb Hb. destruct (Hre b fb Hb) as [?|Hd%delete_algos_spec]; [by left|right].
    intros Ho. destruct Hd as [fc [Ho' Hn]%unlike_Some]. apply Hn. congruence. }
  split; [done|]. apply (Hrf a p); [by apply delete_algos_spec|done|]. by apply map_lookup_filter_Some.
Qed.

Lemma old_between : between old /\ unstuck old /\ Forall (fun p => is_Some (st_prefixes old !! p)) (DeletePrefixes batch).
Proof using.
  clear filed_old filed_next. split_and!.
  - split; by left.
  - intros a p Hg _ Hp. apply delete_locators_spec. exists a. split; [done|by right].
  - apply Forall_forall. intros p (m & Hp & _)%delete_prefixes_spec. by exists m.
Qed.

Lemma next_between : between next.
Proof using. split; by right. Qed.
End Changes.
