(* ===== verification/ReloadRun.v ===== *)
(** A reload of a running server against a restart on the same file, and what a
    reload that is retried makes of the refusals of the first.

    The theorems are proved for any server that keeps [ApiLaws]; the event loop of
    a node, with any turns between two calls, is one. *)

From stdpp Require Import sorting strings.
From S2P Require Import Prelude.
From S2P Require Import Netip.
From S2P Require Import Ids.
From S2P Require Import Auth.
From S2P Require Import Circuit.
From S2P Require Import Server.
From S2P Require Import FlexAlgo.
From S2P Require Import Tent.
From S2P Require Import Rib.
From S2P Require Import EndX.
From S2P Require Import NodeLsp.
From S2P Require Import Loop.
From S2P Require Import Mutate.
From S2P Require Import Serve.
From S2P Require Import Options.
From S2P Require Import Text.
From S2P Require Import Config.
From S2P Require Import Reload.
From S2P Require Import Settings.
From S2P Require Import TextSpec.
From S2P Require Import RibSpec.
From S2P Require Import EndXSpec.
From S2P Require Import ServeSpec.
From S2P Require Import SettingsSpec.
From S2P Require Import ConfigSpec.
From S2P Require Import ReloadSpec.
Local Open Scope Z_scope.

(** ** Files a restart accepts *)

Section Files.
Context {F : Type} (netlinkFIB : Z -> F) (noop : F).
Context (ParseDuration : bytes -> option Z) (connectedPrefixes : string -> list Prefix).

(** The file becomes options that validate, and names no locator twice. *)
Record accepted (open : opener) (c : Config) (op : options F) : Prop := {
  ac_options : exists opts, Config_Options netlinkFIB noop ParseDuration connectedPrefixes open c = Ok (Some opts) /\
                            op = apply_options noop opts;
  ac_locators : NoDup (loc_key <$> o_locators op)
}.

Lemma configured_filed (op : options F) :
  options_validate op = Ok true -> Forall (fun lc => prefix_ok (LC_Prefix lc)) (o_locators op) ->
  Forall (fun ap => prefix_ok (AP_Prefix ap)) (o_prefixes op) -> filed (configured op).
Proof.
  intros Hv Hl Hp. split; [by apply configured_ok|..]; apply validated in Hv as (part & _ & H3 & H4).
  - intros p a Hin%elem_of_list_to_map_2. apply list_elem_of_fmap in Hin as ([q b] & [= -> ->] & Hin).
    rewrite Forall_forall in Hl. specialize (Hl _ Hin). rewrite forallb_forall in H3. apply list_elem_of_In, H3 in Hin.
    unfold valid_locator in Hin. unfold loc_key. cbn [LC_Prefix LC_Algo] in *. rewrite Masked_idem.
    destruct (Masked_ok q Hl) as [Em Hm]. apply andb_true_iff in Hin as [[H6 H4n%negb_true_iff]%andb_true_iff _].
    split_and!; [done|done| |].
    + rewrite Em. cbn [p_addr]. by destruct (p_addr q).
    + apply not_true_iff_false. intros E%Masked_4in6. congruence.
  - apply option_prefixes_all, Forall_forall. intros [p m] Hin. cbn [AP_Prefix AP_Metric]. rewrite Masked_idem. split; [done|].
    rewrite Forall_forall in Hp. specialize (Hp _ Hin). rewrite forallb_forall in H4. apply list_elem_of_In, H4 in Hin.
    unfold checkAdvertisedPrefix in *. cbv zeta in *. cbn [AP_Prefix AP_Metric] in *. rewrite Masked_idem.
    destruct (Masked_ok p Hp) as [Em (_ & _ & Hb & _)]. apply andb_true_iff in Hin as [Hin ->]. apply andb_true_iff in Hin as [_ ->].
    unfold PrefixIsValid. by rewrite (proj2 (Z.leb_le _ _) Hb).
Qed.

Lemma accepted_filed open c op : accepted open c op -> settings_of c = Some (configured op) /\ filed (configured op).
Proof.
  intros [(opts & Ho & ->) Hd]. unfold Config_Options in Ho. destruct (build_options _ _ _ _ _) as [opts'|] eqn:Eb; [|done].
  apply bind_Ok in Ho as (ok & Hv & Ho). destruct ok; [|done]. injection Ho as ->. unfold ValidateOptions in Hv.
  destruct (build_prefixes netlinkFIB noop _ _ _ _ _ Eb) as [Hl Hp]. split; [|by apply configured_filed].
  eapply settings_configured; [exact Eb|exact Hd|]. apply validated in Hv as (part & (H1 & _)%valid_algos_ok & _). done.
Qed.

Lemma accepted_ok open c op : accepted open c op -> options_ok op.
Proof.
  intros [(opts & Ho & ->) _]. unfold Config_Options in Ho. destruct (build_options _ _ _ _ _) as [opts'|] eqn:Eb; [|done].
  apply bind_Ok in Ho as (ok & _ & Ho). destruct ok; [|done]. injection Ho as ->.
  destruct (build_prefixes netlinkFIB noop _ _ _ _ _ Eb) as [Hl _]. unfold options_ok. eapply Forall_impl; [exact Hl|].
  intros lc (Ha & _ & Hb). split; [done|]. by destruct (p_addr (LC_Prefix lc)); cbn in *; lia.
Qed.

(** What [Diff] computes for a file it accepts. *)
Lemma Diff_batch cur next st opn :
  settings_of cur = Some st -> accepted probe next opn ->
  Diff netlinkFIB noop ParseDuration connectedPrefixes cur next =
    Ok (Some (batch (circuitChanges (c_Circuits cur) (c_Circuits next)) st (configured opn) (ignored cur next))).
Proof.
  intros Hc Hn. destruct (accepted_filed _ _ _ Hn) as [Es _]. destruct Hn as [(opts & Ho & _) _]. unfold Diff. rewrite Ho.
  unfold mbind, outcome_bind, mret, outcome_ret. unfold settings_of in Hc, Es.
  destruct (locatorSet cur), (flexAlgoSet cur), (prefixSet cur); try discriminate.
  destruct (locatorSet next), (flexAlgoSet next), (prefixSet next); try discriminate.
  generalize dependent (configured opn). intros nx [= <-]. by injection Hc as <-.
Qed.
End Files.

(** ** Reloading a server *)

Section Server.
Context {S : Type} `{ApiLaws S view}.
Context (ParseDuration : bytes -> option Z) (connectedPrefixes : string -> list Prefix) (open : opener).

Lemma calls_keep {A} (f : A -> S -> outcome (S * option opError)) l s s' es st :
  (forall a s s' e, view s st -> f a s = Ok (s', e) -> view s' st) -> view s st -> calls f l s = Ok (s', es) -> view s' st.
Proof.
  intros Hf. revert s es. induction l as [|a l IH]; intros s es Hv; cbn [calls]; [by intros [= <- _]|].
  intros ([s1 e] & H1 & ([s2 es2] & H2 & [= <- <-])%bind_Ok)%bind_Ok. eapply IH; [|exact H2]. by eapply Hf.
Qed.

Lemma add_circuit_keeps cc s s' e st :
  view s st -> add_circuit ParseDuration connectedPrefixes open cc s = Ok (s', e) -> view s' st.
Proof.
  intros Hv. unfold add_circuit. destruct (to_circuit _ _ _) as [k|]; [|by intros [= <- _]]. intros Hi. by eapply api_other; [..|exact Hi].
Qed.

Lemma addCircuit_keeps ch cc s s' e st :
  view s st -> addCircuit ParseDuration connectedPrefixes open ch cc s = Ok (s', e) -> view s' st.
Proof.
  intros Hv. unfold addCircuit. intros ([s1 e1] & H1 & H2)%bind_Ok. apply (add_circuit_keeps _ _ _ _ st) in H1; [|done].
  assert (Hagain : forall sd d, issue (OpDeleteCircuit (cc_Interface cc)) s1 = Ok (sd, d) -> view sd st).
  { intros sd d Hd. by eapply api_other; [..|exact Hd]. }
  assert (Hrest : (if negb (rebuilds ch (cc_Interface cc)) then mret (s1, e1) else
    '(s, d) ← issue (OpDeleteCircuit (cc_Interface cc)) s1;
    match refused d with [] => add_circuit ParseDuration connectedPrefixes open cc s | _ => mret (s, d) end) = Ok (s', e) -> view s' st).
  { destruct (negb _); [by intros [= <- _]|]. intros ([sd d] & Hd & Ha)%bind_Ok. apply Hagain in Hd.
    destruct (refused d); [by eapply add_circuit_keeps|by injection Ha as <- _]. }
  destruct e1 as [[]|]; first [exact (Hrest H2)|by injection H2 as <- _].
Qed.

(** The calls of [apply], by what they are about: those on the settings between
    those on the circuits. *)
Definition phases (ch : Changes) (s s' : S) (st st' : settings) (errs : list opError) : Prop :=
  exists (s1 s7 : S) (e1 e2 e3 e4 e5 e6 e7 e8 : list opError) (st2 st3 st4 st5 st6 : settings),
    calls (fun n => issue (OpDeleteCircuit n)) (List.filter (fun n => negb (rebuilds ch n)) (DeleteCircuits ch)) s = Ok (s1, e1) /\
    (answered (OpDeleteLocator <$> DeleteLocators ch) st st2 e2 /\
     answered (OpDeleteFlexAlgo <$> DeleteFlexAlgos ch) st2 st3 e3 /\
     answered (OpAddFlexAlgo <$> AddFlexAlgos ch) st3 st4 e4 /\
     answered (OpAddLocator <$> AddLocators ch) st4 st5 e5 /\
     answered (OpDeletePrefix <$> DeletePrefixes ch) st5 st6 e6 /\
     answered (OpAddPrefix <$> AddPrefixes ch) st6 st' e7) /\
    calls (addCircuit ParseDuration connectedPrefixes open ch) (AddCircuits ch) s7 = Ok (s', e8) /\
    errs = e1 ++ (e2 ++ e3 ++ e4 ++ e5 ++ e6 ++ e7) ++ e8.

Lemma calls_free {A} (f : A -> operation) l s st s' es :
  (forall a, is_setting (f a) = true) -> (forall a, operation_ok (f a)) -> view s st -> calls (fun a => issue (f a)) l s = Ok (s', es) ->
  exists st', view s' st' /\ answered (f <$> l) st st' es.
Proof. intros Hf Ho. apply calls_answered; [done|]. by apply Forall_forall. Qed.

Lemma apply_phases ch s s' st errs :
  Forall (fun lc => operation_ok (OpAddLocator lc)) (AddLocators ch) -> view s st ->
  apply ParseDuration connectedPrefixes open ch s = Ok (s', errs) ->
  exists st', view s' st' /\ phases ch s s' st st' errs.
Proof.
  intros Hl Hv. unfold apply.
  intros ([s1 e1] & C1 & ([s2 e2] & C2 & ([s3 e3] & C3 & ([s4 e4] & C4 & ([s5 e5] & C5 & ([s6 e6] & C6 & ([s7 e7] & C7 & ([s8 e8] & C8 &
    [= <- <-])%bind_Ok)%bind_Ok)%bind_Ok)%bind_Ok)%bind_Ok)%bind_Ok)%bind_Ok)%bind_Ok.
  assert (V1 : view s1 st) by (eapply calls_keep; [|exact Hv|exact C1]; intros n x x' e Hx Hi; by eapply api_other; [..|exact Hi]).
  destruct (calls_free OpDeleteLocator _ _ _ _ _ (fun _ => eq_refl) (fun _ => I) V1 C2) as (st2 & V2 & A2).
  destruct (calls_free OpDeleteFlexAlgo _ _ _ _ _ (fun _ => eq_refl) (fun _ => I) V2 C3) as (st3 & V3 & A3).
  destruct (calls_free OpAddFlexAlgo _ _ _ _ _ (fun _ => eq_refl) (fun _ => I) V3 C4) as (st4 & V4 & A4).
  destruct (calls_answered OpAddLocator _ _ _ _ _ (fun _ => eq_refl) Hl V4 C5) as (st5 & V5 & A5).
  destruct (calls_free OpDeletePrefix _ _ _ _ _ (fun _ => eq_refl) (fun _ => I) V5 C6) as (st6 & V6 & A6).
  destruct (calls_free OpAddPrefix _ _ _ _ _ (fun _ => eq_refl) (fun _ => I) V6 C7) as (st7 & V7 & A7).
  exists st7. split; [eapply calls_keep; [|exact V7|exact C8]; intros a x x' e Hx; by apply addCircuit_keeps|].
  exists s1, s7, e1, e2, e3, e4, e5, e6, e7, e8, st2, st3, st4, st5, st6. split_and!; [done..|]. by rewrite <- !app_assoc.
Qed.

Lemma filed_operations x old next keys :
  filed next -> Forall (fun lc => operation_ok (OpAddLocator lc)) (AddLocators (batch x old next keys)).
Proof using.
  intros Hn. apply Forall_forall. intros lc [Hp _]%add_locators_spec.
  destruct (fl_locators next Hn _ _ Hp) as (_ & (Ha & _ & Hb) & H6 & _). split; [done|]. by destruct (p_addr (LC_Prefix lc)).
Qed.

Section Reloads.
Context {F : Type} (netlinkFIB : Z -> F) (noop : F).

(** A reload from any point between the two files at which no algorithm that has
    to go is held by a locator that stays. *)
Lemma reload_settles o0 cur next (opc opn : options F) s st s' run reps :
  accepted netlinkFIB noop ParseDuration connectedPrefixes o0 cur opc ->
  accepted netlinkFIB noop ParseDuration connectedPrefixes probe next opn ->
  let x := circuitChanges (c_Circuits cur) (c_Circuits next) in
  let ch := batch x (configured opc) (configured opn) (ignored cur next) in
  between (configured opc) (configured opn) st -> unstuck x (configured opc) (configured opn) (ignored cur next) st -> view s st ->
  Reload ParseDuration connectedPrefixes open netlinkFIB noop cur (Some next) s = Ok (s', run, reps) ->
  view s' (configured opn) /\
  (x = ([], []) -> Forall (fun p => is_Some (st_prefixes st !! p)) (DeletePrefixes ch) ->
   run = adopt cur next /\ reps = [ReloadApplied; ReloadUnapplied (length (ignored cur next))]).
Proof.
  intros Hc Hn x ch Hb Hu Hv. destruct (accepted_filed _ _ _ _ _ _ _ Hc) as [Sc Fc]. destruct (accepted_filed _ _ _ _ _ _ _ Hn) as [Sn Fn].
  unfold Reload. rewrite (Diff_batch _ _ _ _ _ _ _ _ Sc Hn). fold x ch. cbn [mbind outcome_bind].
  intros ([s1 errs] & Ha & Hr)%bind_Ok.
  destruct (apply_phases ch s s1 st errs (filed_operations _ _ _ _ Fn) Hv Ha) as
    (st' & Hv' & s2 & s7 & e1 & e2 & e3 & e4 & e5 & e6 & e7 & e8 & st2 & st3 & st4 & st5 & st6 & C1 & (A2 & A3 & A4 & A5 & A6 & A7) & C8 & ->).
  destruct (batch_settles x _ _ _ Fc Fn _ _ _ _ _ _ _ _ _ _ _ _ _ Hb Hu A2 A3 A4 A5 A6 A7) as (-> & Ee & He6).
  split; [cbv zeta in Hr; by destruct (e1 ++ _ ++ e8); injection Hr as <- _ _|]. intros Ex Hp. rewrite Ee, (He6 Hp) in Hr.
  unfold ch, batch, changes in C1, C8. cbn [DeleteCircuits AddCircuits] in C1, C8. rewrite Ex in C1, C8. injection C1 as _ <-. injection C8 as _ <-.
  assert (Ei : Ignored ch = ignored cur next) by reflexivity. clearbody ch. rewrite Ei, Nat.add_0_r in Hr. by injection Hr as _ <- <-.
Qed.

(** From the settings of the old file a reload ends in those of the new one. *)
Lemma reload_adopts o0 cur next (opc opn : options F) s s' run reps :
  accepted netlinkFIB noop ParseDuration connectedPrefixes o0 cur opc ->
  accepted netlinkFIB noop ParseDuration connectedPrefixes probe next opn ->
  view s (configured opc) ->
  Reload ParseDuration connectedPrefixes open netlinkFIB noop cur (Some next) s = Ok (s', run, reps) ->
  view s' (configured opn) /\
  (circuitChanges (c_Circuits cur) (c_Circuits next) = ([], []) ->
   run = adopt cur next /\ reps = [ReloadApplied; ReloadUnapplied (length (ignored cur next))] /\
   settings_of run = Some (configured opn)).
Proof.
  intros Hc Hn Hv Hr.
  destruct (old_between (circuitChanges (c_Circuits cur) (c_Circuits next)) (configured opc) (configured opn) (ignored cur next)) as (Hb & Hu & Hp).
  destruct (reload_settles o0 cur next opc opn s _ s' run reps Hc Hn Hb Hu Hv Hr) as [Hv' Ha]. split; [done|].
  intros Ex. destruct (Ha Ex Hp) as [-> ->]. split_and!; [done..|]. by destruct (accepted_filed _ _ _ _ _ _ _ Hn) as [<- _].
Qed.

(** The second attempt, everything of the first having landed but a circuit: no
    prefix has gone for good, and no locator has come to an algorithm that changed. *)
Lemma reload_retried o0 cur next (opc opn : options F) s s' run reps :
  accepted netlinkFIB noop ParseDuration connectedPrefixes o0 cur opc ->
  accepted netlinkFIB noop ParseDuration connectedPrefixes probe next opn ->
  map_Forall (fun p _ => is_Some (st_prefixes (configured opn) !! p)) (st_prefixes (configured opc)) ->
  map_Forall (fun p a => gone (configured opc) (configured opn) a -> is_Some (st_locators (configured opc) !! p)) (st_locators (configured opn)) ->
  view s (configured opn) ->
  Reload ParseDuration connectedPrefixes open netlinkFIB noop cur (Some next) s = Ok (s', run, reps) ->
  view s' (configured opn) /\
  (circuitChanges (c_Circuits cur) (c_Circuits next) = ([], []) ->
   run = adopt cur next /\ reps = [ReloadApplied; ReloadUnapplied (length (ignored cur next))]).
Proof.
  intros Hc Hn Hp Hl Hv Hr. destruct (accepted_filed _ _ _ _ _ _ _ Hc) as [_ Fc]. destruct (accepted_filed _ _ _ _ _ _ _ Hn) as [_ Fn].
  destruct (reload_settles o0 cur next opc opn s _ s' run reps Hc Hn (next_between _ _)) with (2 := Hv) (3 := Hr) as [Hv' Ha].
  - intros a p Hg _ Ep. destruct (Hl p a Ep Hg) as [b Eo]. apply delete_locators_spec. exists b. split; [done|].
    destruct (decide (b = a)) as [-> |Hne]; [by right|left; congruence].
  - split; [done|]. intros Ex. apply Ha; [done|]. apply Forall_forall. intros p (m & Ho & _)%delete_prefixes_spec. exact (Hp p m Ho).
Qed.

(** One attempt while a locator the new file brings holds an algorithm that
    changed. *)
Lemma reload_held o0 cur next (opc opn : options F) a p s s' run reps :
  accepted netlinkFIB noop ParseDuration connectedPrefixes o0 cur opc ->
  accepted netlinkFIB noop ParseDuration connectedPrefixes probe next opn ->
  gone (configured opc) (configured opn) a -> st_locators (configured opn) !! p = Some a -> st_locators (configured opc) !! p = None ->
  view s (configured opn) -> Reload ParseDuration connectedPrefixes open netlinkFIB noop cur (Some next) s = Ok (s', run, reps) ->
  view s' (configured opn) /\ run = cur /\ exists n, reps = [ReloadPartial; ReloadUnapplied n].
Proof.
  intros Hc Hn Hg Hp Hpo Hv. destruct (accepted_filed _ _ _ _ _ _ _ Hc) as [Sc Fc]. destruct (accepted_filed _ _ _ _ _ _ _ Hn) as [Sn Fn].
  unfold Reload. rewrite (Diff_batch _ _ _ _ _ _ _ _ Sc Hn). set (ch := batch _ _ _ _). cbn [mbind outcome_bind].
  intros ([s1 errs] & Ha & Hr)%bind_Ok.
  destruct (apply_phases ch s s1 _ errs (filed_operations _ _ _ _ Fn) Hv Ha) as
    (st' & Hv' & s2 & s7 & e1 & e2 & e3 & e4 & e5 & e6 & e7 & e8 & st2 & st3 & st4 & st5 & st6 & _ & (A2 & A3 & A4 & A5 & A6 & A7) & _ & ->).
  assert (Hnd : p ∉ DeleteLocators ch) by (intros (b & Hb & _)%delete_locators_spec; congruence).
  destruct (batch_latches _ _ _ _ Fc Fn a p _ _ _ _ _ _ _ _ _ _ _ _ Hg Hp Hnd A2 A3 A4 A5 A6 A7) as (-> & Hin).
  clearbody ch. cbv zeta in Hr. destruct (e1 ++ _ ++ e8) as [|e es] eqn:Ee.
  - apply app_eq_nil in Ee as [_ [[_ [-> _]%app_eq_nil]%app_eq_nil _]%app_eq_nil]. by apply elem_of_nil in Hin.
  - injection Hr as <- <- <-. split_and!; [done..|by eexists].
Qed.

(** C12: A reload that was refused part way can latch: where the new file changes
    an algorithm and binds a locator to it that the old file does not have, and all
    of that has landed, every further signal is refused again - the deletion of the
    algorithm, by the locator the reload itself added - however often it is sent;
    the old configuration stays the baseline and the node in the state of the new
    one. *)
Theorem reload_latches o0 cur next (opc opn : options F) a p k s s' run reps :
  accepted netlinkFIB noop ParseDuration connectedPrefixes o0 cur opc ->
  accepted netlinkFIB noop ParseDuration connectedPrefixes probe next opn ->
  gone (configured opc) (configured opn) a -> st_locators (configured opn) !! p = Some a -> st_locators (configured opc) !! p = None ->
  view s (configured opn) ->
  hups ParseDuration connectedPrefixes open netlinkFIB noop (Some cur) (replicate k (Some next)) s = Ok (s', run, reps) ->
  view s' (configured opn) /\ run = Some cur /\ length reps = k /\
  Forall (fun r => exists n, r = [ReloadPartial; ReloadUnapplied n]) reps.
Proof.
  intros Hc Hn Hg Hp Hpo. revert s reps. induction k as [|k IH]; intros s reps Hv; cbn [replicate hups]; [by intros [= <- <- <-]|].
  unfold hup. intros ([[s1 run1] r] & ([[s2 nx] r2] & Hr & [= <- <- <-])%bind_Ok & ([[s3 run3] rs] & Hs & [= <- <- <-])%bind_Ok)%bind_Ok.
  destruct (reload_held o0 cur next opc opn a p _ _ _ _ Hc Hn Hg Hp Hpo Hv Hr) as (Hv2 & -> & Hp2).
  destruct (IH _ _ Hv2 Hs) as (? & ? & <- & ?). split_and!; [done..|]. by constructor.
Qed.
End Reloads.
End Server.
