(* ===== verification/ReloadServe.v ===== *)
(** A reload of the event loop: between two calls the loop takes whatever turns it
    takes, and a call is one of its turns.

    [Served] is the loop with the number of calls made; what happens before each
    call, and what Go left open in it, is given by [before_call] and [at_call]. *)

From stdpp Require Import sorting strings.
From S2P Require Import Prelude.
From S2P Require Import Netip.
From S2P Require Import Ids.
From S2P Require Import Auth.
From S2P Require Import Circuit.
From S2P Require Import Server.
From S2P Require Import FlexAlgo.
From S2P Require Import Tent.
From S2P Require Import Rib.
From S2P Require Import EndX.
From S2P Require Import NodeLsp.
From S2P Require Import Loop.
From S2P Require Import Mutate.
From S2P Require Import Serve.
From S2P Require Import Options.
From S2P Require Import Text.
From S2P Require Import Config.
From S2P Require Import Reload.
From S2P Require Import Settings.
From S2P Require Import TextSpec.
From S2P Require Import RibSpec.
From S2P Require Import EndXSpec.
From S2P Require Import RibSelect.
From S2P Require Import NodeLspSpec.
From S2P Require Import ServeSpec.
From S2P Require Import SettingsSpec.
From S2P Require Import ConfigSpec.
From S2P Require Import ReloadSpec.
From S2P Require Import ReloadRun.
Local Open Scope Z_scope.

Section Served.
Context {F : Type} `{FIB F} (table : F -> gmap Prefix (list NextHopInfo)) `{!FIBLaws F table}.
Context {T : Type} `{TentativeSet T} (hmac : AuthAlgorithm -> bytes -> bytes -> bytes).
Context (before_call : nat -> list (Oracle * arm * moment)) (at_call : nat -> Oracle * moment).

Record Served : Type := mkServed { served : Loop (F := F); calls_made : nat }.

(** A management call: the turns before it, the operation, and what follows every
    event; the caller gets the operation's answer. *)
#[export] Instance served_api : Api Served := fun op y =>
  let '(o, t) := at_call (calls_made y) in
  x ← run (T := T) hmac (served y) (before_call (calls_made y));
  '(n, e) ← perform hmac o op (at_event t) (node x);
  x ← settle (T := T) hmac o (mkLoop n (holding x)) t;
  mret (mkServed x (S (calls_made y)), e).

Lemma run_app a b (x : Loop (F := F)) : run (T := T) hmac x (a ++ b) = (x ← run (T := T) hmac x a; run (T := T) hmac x b).
Proof using.
  revert x. induction a as [|[[o m] t] a IH]; intros x; [done|]. cbn [app run]. destruct (turn _ _ _ _ _); [apply IH|done..].
Qed.

(** The call is a turn of the loop. *)
Lemma issue_run op y y' e :
  issue op y = Ok (y', e) ->
  run (T := T) hmac (served y) (before_call (calls_made y) ++ [((at_call (calls_made y)).1, OnOperation op, (at_call (calls_made y)).2)]) = Ok (served y').
Proof using.
  unfold issue, served_api. destruct (at_call (calls_made y)) as [o t]. intros (x & H1 & ([n e'] & H2 & (x2 & H3 & [= <- <-])%bind_Ok)%bind_Ok)%bind_Ok.
  rewrite run_app, H1. cbn [run fst snd]. unfold turn, handle, operate. unfold mbind, outcome_bind. rewrite H2.
  unfold mret, outcome_ret. cbn [served]. by rewrite H3.
Qed.

(** Turns in which nobody else asks for a change of the settings. *)
Definition quiet (t : Oracle * arm * moment) : Prop :=
  match t.1.2 with OnOperation op => is_setting op = false | _ => True end.

Context (quiet_before : forall i, Forall quiet (before_call i)).

Lemma quiet_settings turns st : Forall quiet turns -> settings_after turns st = st.
Proof using.
  intros Hq. revert st. induction Hq as [|[[o a] t] turns Hs _ IH]; intros st; [done|]. cbn [settings_after fold_left].
  fold (settings_after turns). rewrite IH. cbn in *. destruct a as [| | |op]; [done..|]. by destruct st, op.
Qed.

(** What is known of the loop since [x0]. *)
Definition follows (x0 : Loop) (y : Served) (st : settings) : Prop :=
  realises (routing (node (served y))) st /\ exists turns, run (T := T) hmac x0 turns = Ok (served y).

Lemma follows_call x0 y st op y' e :
  follows x0 y st -> issue op y = Ok (y', e) ->
  exists n, realises (routing n) st /\
    (exists n' o now, perform hmac o op now n = Ok (n', e)) /\
    follows x0 y' (settings_after [((at_call (calls_made y)).1, OnOperation op, (at_call (calls_made y)).2)] st).
Proof using FIBLaws0 quiet_before.
  intros (Hr & turns & Hrun) Hi. pose proof (issue_run _ _ _ _ Hi) as Hrun'.
  unfold issue, served_api in Hi. destruct (at_call (calls_made y)) as [o t] eqn:Ec. cbn [fst snd] in *.
  apply bind_Ok in Hi as (x & H1 & ([n e'] & H2 & (x2 & H3 & [= <- <-])%bind_Ok)%bind_Ok).
  pose proof (quiet_before (calls_made y)) as Hq.
  pose proof (run_settings table hmac (before_call (calls_made y)) (served y) x st Hr H1) as Hr1.
  rewrite (quiet_settings _ _ Hq) in Hr1. exists (node x). split_and!; [done|by eexists _, _, _|].
  pose proof (run_settings table hmac _ (served y) _ st Hr Hrun') as Hr2.
  unfold settings_after in Hr2. rewrite fold_left_app in Hr2. fold (settings_after (before_call (calls_made y)) st) in Hr2.
  rewrite (quiet_settings _ _ Hq) in Hr2. split; [done|]. exists (turns ++ (before_call (calls_made y) ++ [(o, OnOperation op, t)])).
  by rewrite run_app, Hrun.
Qed.

#[export] Instance served_laws x0 : ApiLaws Served (follows x0).
Proof using FIBLaws0 quiet_before.
  split.
  - intros y st op y' e Hs Hop Hv Hi. destruct (follows_call x0 y st op y' e Hv Hi) as (n & Hr & (n' & o & now & Hp) & Hv').
    exists (is_connected n). destruct (setting_refines hmac o op now n st n' e Hs Hr Hp) as [_ He]. split; [|done].
    cbn [settings_after fold_left settings_step fst snd] in Hv'. by rewrite (spec_conn _ (fun _ => false)).
  - intros y st op y' e Hs Hv Hi. destruct (follows_call x0 y st op y' e Hv Hi) as (n & _ & _ & Hv').
    cbn [settings_after fold_left settings_step fst snd] in Hv'. by destruct st, op.
Qed.
End Served.

(** ** A reload of a node that serves *)

Section Reloaded.
Context {F : Type} `{FIB F} (table : F -> gmap Prefix (list NextHopInfo)) `{!FIBLaws F table}.
Context {T : Type} `{TentativeSet T} (hmac : AuthAlgorithm -> bytes -> bytes -> bytes).
Context (netlinkFIB : Z -> F) (noop : F).
Context (ParseDuration : bytes -> option Z) (connectedPrefixes : string -> list Prefix) (open : opener).

(** A node built from a file and served is where a reload can start. *)
Lemma served_follows cur (opc : options F) n0 o now n1 turns x :
  accepted netlinkFIB noop ParseDuration connectedPrefixes open cur opc ->
  NewIsisServer opc = Ok (Some n0) -> start hmac o n0 now = Ok n1 ->
  Forall quiet turns -> run (T := T) hmac (mkLoop n1 false) turns = Ok x ->
  follows (T := T) hmac (mkLoop n1 false) (mkServed x 0) (configured opc).
Proof using FIBLaws0.
  intros Hc Hnew Hst Ht Hrun.
  destruct (start_settings table hmac opc n0 o now n1 (ac_locators _ _ _ _ _ _ _ Hc) Hnew Hst) as (Hr1 & _).
  pose proof (run_settings table hmac turns (mkLoop n1 false) x (configured opc) Hr1 Hrun) as Hr2.
  rewrite (quiet_settings _ _ Ht) in Hr2. split; [done|]. by exists turns.
Qed.

(** C11: A reload is a restart without one: a node built from one file, started, and
    served, that reloads another file ends with the locators, the Flexible Algorithms
    and the prefixes of a node built from that file; where the two files have the
    same circuits the file is adopted, nothing of it refused, and what is reported as
    unapplied is what only a restart applies.  Before the reload and between its
    calls the loop takes any turns - frames, ticks, other operations, whatever calls
    of the forwarding table fail - in which nobody else changes those settings, and
    all along the node runs turns of its loop and nothing else.  (The files are ones
    a node starts on, and neither gives a locator twice.) *)
Theorem reload_restarts cur next (opc opn : options F) n0 o now n1 turns x before_call at_call y run_cfg reps :
  accepted netlinkFIB noop ParseDuration connectedPrefixes open cur opc ->
  accepted netlinkFIB noop ParseDuration connectedPrefixes probe next opn ->
  NewIsisServer opc = Ok (Some n0) -> start hmac o n0 now = Ok n1 ->
  Forall quiet turns -> run (T := T) hmac (mkLoop n1 false) turns = Ok x ->
  (forall i, Forall quiet (before_call i)) ->
  Reload (S := Served) (H := served_api (T := T) hmac before_call at_call) ParseDuration connectedPrefixes open netlinkFIB noop cur (Some next)
    (mkServed x 0) = Ok (y, run_cfg, reps) ->
  (realises (routing (node (served y))) (configured opn) /\
   forall opr n, accepted netlinkFIB noop ParseDuration connectedPrefixes open next opr -> NewIsisServer opr = Ok (Some n) ->
     realises (routing n) (configured opn)) /\
  (circuitChanges (c_Circuits cur) (c_Circuits next) = ([], []) ->
   run_cfg = adopt cur next /\ reps = [ReloadApplied; ReloadUnapplied (length (ignored cur next))] /\
   settings_of run_cfg = Some (configured opn)) /\
  exists turns', run (T := T) hmac (mkLoop n1 false) turns' = Ok (served y).
Proof using FIBLaws0.
  intros Hc Hn Hnew Hst Ht Hrun Hqb Hre.
  pose proof (served_laws table (T := T) hmac before_call at_call Hqb (mkLoop n1 false)) as Hlaws.
  pose proof (served_follows cur opc n0 o now n1 turns x Hc Hnew Hst Ht Hrun) as Hv.
  destruct (reload_adopts (S := Served) (H := served_api (T := T) hmac before_call at_call) (H0 := Hlaws) ParseDuration connectedPrefixes open
    netlinkFIB noop open cur next opc opn _ y run_cfg reps Hc Hn Hv Hre) as [(Hry & turns' & Hrun') Ha].
  split_and!; [done| |done|by exists turns']. intros opr n Hr Hnew'.
  destruct (new_realises opr n (ac_locators _ _ _ _ _ _ _ Hr) Hnew') as [Hrn _].
  destruct (accepted_filed _ _ _ _ _ _ _ Hr) as [E1 _], (accepted_filed _ _ _ _ _ _ _ Hn) as [E2 _]. by assert (configured opn = configured opr) as -> by congruence.
Qed.
End Reloaded.

(** ** A run

    A router with one circuit reloads a file with another metric for its prefix,
    another priority for its algorithm, a locator for it and another host name; a
    tick comes before each call. *)
Definition site_circuit : cfgCircuit :=
  mkCfgCircuit "eth0" (text "2") false None 0 [] [] 0 (Some false) None [] [] [] 0.
Definition site_config (hostname locator : bytes) (metric priority : Z) (circuits : list cfgCircuit) : Config :=
  mkConfig (text "49.0001.0200.0000.0009.00") hostname true 254 circuits [mkCfgPrefix (text "10.20.0.0/16") metric] None
    [mkCfgFlexAlgo 128 (text "igp") priority true locator] None [] [] [] [] 0 [] [] [] 0 0 0.
Definition site_old : Config := site_config (text "r9") [] 5 100 [site_circuit].
Definition site_new : Config := site_config (text "r10") (text "fc00:0:9::/48") 7 200 [site_circuit].

Definition site_fib (_ : Z) : kernel := ({[ stale_net := [mkNextHop "eth9" AddrZero] ]}, [false]).
Definition no_fib : kernel := (∅, []).
Definition site_open : opener := fun _ => Some (mkTransport [2; 0; 0; 0; 0; 9] 1500, [Addr4 [10; 1; 0; 1]], []).
Definition no_duration (_ : bytes) : option Z := None.
Definition site_connected (_ : string) : list Prefix := [site_net].

Definition options_of (open : opener) (c : Config) : list (ServerOption (F := kernel)) :=
  match Config_Options site_fib no_fib no_duration site_connected open c with Ok (Some opts) => opts | _ => [] end.
Definition site_options (open : opener) (c : Config) : options kernel := apply_options no_fib (options_of open c).

Definition a_tick (i : nat) : list (Oracle * arm * moment) := [(map_orders, OnTick, at_time ((10 + Z.of_nat i) * Second))].
Definition a_call (i : nat) : Oracle * moment := (map_orders, at_time ((10 + Z.of_nat i) * Second + 7)).
Abbreviation site_api := (served_api (F := kernel) (H := flaky_updates) (T := tentSet) (fun _ _ _ => []) a_tick a_call).
Definition site_start := start (H := flaky_updates) (fun _ _ _ => []) map_orders.
Definition site_turns : list (Oracle * arm * moment) := [(map_orders, OnTick, at_time Second); (map_orders, OnHold, at_time (2 * Second))].
Definition site_run (n1 : Node kernel) := run (H := flaky_updates) (T := tentSet) (fun _ _ _ => []) (mkLoop n1 false) site_turns.
Abbreviation site_reload cur next x :=
  (Reload (S := Served) (H := site_api) no_duration site_connected site_open site_fib no_fib cur (Some next) (mkServed x 0)).

(** What is reported, the calls made and the metrics of the prefixes. *)
Definition site_facts (r : outcome (Served (F := kernel) * Config * list report)) : option (list report * nat * list Z) :=
  match r with
  | Ok (y, _, reps) => Some (reps, calls_made y, AP_Metric <$> (map_to_list (optionPrefixes (routing (node (served y))))).*2)
  | _ => None
  end.
Lemma site_accepted open c :
  (match Config_Options site_fib no_fib no_duration site_connected open c with Ok (Some _) => true | _ => false end = true) ->
  bool_decide (NoDup (loc_key <$> o_locators (site_options open c))) = true ->
  accepted site_fib no_fib no_duration site_connected open c (site_options open c).
Proof.
  intros Ho Hd%bool_decide_eq_true. split; [|done]. exists (options_of open c). split; [|done]. unfold options_of.
  destruct (Config_Options _ _ _ _ _ _) as [[opts|]| |]; done.
Qed.

Lemma site_turns_quiet : Forall quiet site_turns.
Proof. by repeat constructor. Qed.

Lemma site_quiet i : Forall quiet (a_tick i).
Proof. by repeat constructor. Qed.

Lemma reload_restarts_witness :
  exists n0 n1 x y run_cfg reps, NewIsisServer (site_options site_open site_old) = Ok (Some n0) /\ site_start n0 0 = Ok n1 /\
    site_run n1 = Ok x /\ site_reload site_old site_new x = Ok (y, run_cfg, reps) /\
    reps = [ReloadApplied; ReloadUnapplied 1] /\ run_cfg = adopt site_old site_new /\
    realises (routing (node (served y))) (configured (site_options probe site_new)).
Proof.
  destruct (run_steps (NewIsisServer (site_options site_open site_old)) (fun n0 => site_start n0 0) site_run (fun x => site_facts (site_reload site_old site_new x))
    (Some ([ReloadApplied; ReloadUnapplied 1], 5%nat, [7]))) as (n0 & n1 & x & E0 & E1 & E2 & Ef); [vm_compute; reflexivity|].
  cbv beta in Ef. destruct (site_reload site_old site_new x) as [[[y run_cfg] reps]| |] eqn:Er; [|discriminate..].
  destruct (reload_restarts (F := kernel) (H := flaky_updates) fst (FIBLaws0 := flaky_updates_laws) (T := tentSet)
    (fun _ _ _ => []) site_fib no_fib no_duration site_connected site_open site_old site_new (site_options site_open site_old)
    (site_options probe site_new) n0 map_orders 0 n1 site_turns x a_tick a_call y run_cfg reps) as ((H1 & _) & H2 & _).
  - apply site_accepted; vm_compute; reflexivity.
  - apply site_accepted; vm_compute; reflexivity.
  - exact E0.
  - exact E1.
  - exact site_turns_quiet.
  - exact E2.
  - exact site_quiet.
  - exact Er.
  - exists n0, n1, x, y, run_cfg, reps. destruct H2 as (Ec & Ep & _); [vm_compute; reflexivity|]. split_and!; [exact E0|exact E1|exact E2|exact Er| |exact Ec|exact H1].
    rewrite Ep. vm_compute. reflexivity.
Defined.

(** The second attempt and the third, the first having missed another circuit,
    which is there since: both refused, for the locator the first one added. *)
Definition site_more : Config :=
  site_config (text "r9") (text "fc00:0:9::/48") 7 200
    [site_circuit; mkCfgCircuit "eth9" (text "2") false None 0 [] [] 0 (Some false) None [] [] [] 0].
Definition one_open : opener := fun name => if bool_decide (name = "eth9"%string) then None else site_open name.
Abbreviation site_missed x :=
  (Reload (S := Served) (H := site_api) no_duration site_connected one_open site_fib no_fib site_old (Some site_more) (mkServed x 0)).
Abbreviation site_retries y :=
  (hups (S := Served) (H := site_api) no_duration site_connected site_open site_fib no_fib (Some site_old) (replicate 2 (Some site_more)) y).

Lemma reload_latches_witness :
  exists x y y' c1 r1 reps, site_missed x = Ok (y, c1, r1) /\ site_retries y = Ok (y', Some site_old, reps) /\
    r1 = [ReloadPartial; ReloadUnapplied 1] /\ Forall (fun r => exists n, r = [ReloadPartial; ReloadUnapplied n]) reps /\
    length (circuits (core (node (served y')))) = 2%nat.
Proof.
  destruct (run_steps (NewIsisServer (site_options site_open site_old)) (fun n0 => site_start n0 0) site_run
    (fun x => match site_missed x with
              | Ok (y, _, r1) => match site_retries y with
                                 | Ok (y', _, _) => Some (r1, length (circuits (core (node (served y'))))) | _ => None end
              | _ => None end)
    (Some ([ReloadPartial; ReloadUnapplied 1], 2%nat))) as (n0 & n1 & x & E0 & E1 & E2 & Ef); [vm_compute; reflexivity|].
  cbv beta in Ef. destruct (site_missed x) as [[[y c1] r1]| |] eqn:Er; [|discriminate..].
  destruct (site_retries y) as [[[y' c2] reps]| |] eqn:Es; [|discriminate..].
  assert (Ha : accepted site_fib no_fib no_duration site_connected site_open site_old (site_options site_open site_old))
    by (apply site_accepted; vm_compute; reflexivity).
  assert (Hn : accepted site_fib no_fib no_duration site_connected probe site_more (site_options probe site_more))
    by (apply site_accepted; vm_compute; reflexivity).
  assert (Hv : follows (H := flaky_updates) (T := tentSet) (fun _ _ _ => []) (mkLoop n1 false) (mkServed x 0) (configured (site_options site_open site_old))).
  { apply (served_follows (F := kernel) (H := flaky_updates) fst (FIBLaws0 := flaky_updates_laws) (T := tentSet)
      (fun _ _ _ => []) site_fib no_fib no_duration site_connected site_open site_old (site_options site_open site_old) n0 map_orders 0 n1 site_turns x Ha E0).
    - exact E1.
    - exact site_turns_quiet.
    - exact E2. }
  pose proof (served_laws (H := flaky_updates) fst (FIBLaws0 := flaky_updates_laws) (T := tentSet) (fun _ _ _ => []) a_tick a_call site_quiet (mkLoop n1 false)) as Hlaws.
  destruct (reload_adopts (S := Served) (H := site_api) (H0 := Hlaws) no_duration site_connected one_open site_fib no_fib site_open
    site_old site_more _ _ _ y c1 r1 Ha Hn Hv Er) as [Hv2 _].
  destruct (reload_latches (S := Served) (H := site_api) (H0 := Hlaws) no_duration site_connected site_open site_fib no_fib site_open
    site_old site_more _ _ 128 (mkPrefix (Addr6 [252; 0; 0; 0; 0; 9; 0; 0; 0; 0; 0; 0; 0; 0; 0; 0]) 48) 2 y y' c2 reps Ha Hn) as (_ & -> & _ & Hp);
    [by apply (bool_decide_unpack _); vm_compute|vm_compute; reflexivity|vm_compute; reflexivity|exact Hv2|exact Es|].
  injection Ef as Er1 El. exists x, y, y', c1, r1, reps.
  split_and!; [exact Er|exact Es|exact Er1|exact Hp|exact El].
Defined.
