(* ===== verification/WatchFrame.v ===== *)
(** What a turn of the loop leaves alone: whether the server is watched, which only a
    subscription changes, and what the management of circuits decides of them (their
    configuration, identifiers and link state, and their connected subnets), which
    only the operations on circuits change. *)

From stdpp Require Import sorting strings.
From S2P Require Import Prelude.
From S2P Require Import Netip.
From S2P Require Import Ids.
From S2P Require Import Sid.
From S2P Require Import SubTLV.
From S2P Require Import Entries.
From S2P Require Import Tlv.
From S2P Require Import Checksum.
From S2P Require Import Pdu.
From S2P Require Import Auth.
From S2P Require Import Circuit.
From S2P Require Import Dis.
From S2P Require Import Restart.
From S2P Require Import Lsdb.
From S2P Require Import EdgeLog.
From S2P Require Import Server.
From S2P Require Import Lifetime.
From S2P Require Import Flooding.
From S2P Require Import Transmit.
From S2P Require Import Origination.
From S2P Require Import HelloBuild.
From S2P Require Import Hello.
From S2P Require Import FlexAlgo.
From S2P Require Import Tent.
From S2P Require Import Topology.
From S2P Require Import Spf.
From S2P Require Import Rib.
From S2P Require Import EndX.
From S2P Require Import NodeLsp.
From S2P Require Import Loop.
From S2P Require Import Mutate.
From S2P Require Import Serve.
Local Open Scope Z_scope.

(** ** What is kept *)

(** What the management of circuits decides of a circuit. *)
Record port_view : Type := mkPort { po_cfg : CircuitConfig; po_pseudonodeID : Z; po_extCircID : Z; po_linkDown : bool; po_detached : bool }.
Definition port (c : circuit) : port_view := mkPort (cfg c) (pseudonodeID c) (extCircID c) (linkDown c) (detached c).

(** Whether the server is watched, and its circuits. *)
Definition still (s : Server) : bool * list port_view := (watched s, port <$> circuits s).

Definition keeps {A X} (flag : A -> X) (w : X) (m : outcome A) : Prop := forall a, m = Ok a -> flag a = w.

Abbreviation stays := (keeps still).
Abbreviation stays2 := (keeps (fun x : _ * Server => still x.2)).

Section Keeps.
Context {A B : Type} {X : Type} (flag : A -> X) (flagB : B -> X) (w : X).

Lemma keeps_ret (a : A) : flag a = w -> keeps flag w (mret a).
Proof using. by intros E b [= <-]. Qed.

Lemma keeps_Ok (a : A) : flag a = w -> keeps flag w (Ok a).
Proof using. apply keeps_ret. Qed.

Lemma keeps_Panic : keeps flag w Panic.
Proof using. done. Qed.

Lemma keeps_bind (m : outcome A) (f : A -> outcome B) :
  keeps flag w m -> (forall a, flag a = w -> keeps flagB w (f a)) -> keeps flagB w (m ≫= f).
Proof using. intros Hm Hf b (a & Ha & Hb)%bind_Ok. by eapply Hf; [apply Hm|]. Qed.

Lemma keeps_pure (m : outcome A) (f : A -> outcome B) : (forall a, keeps flagB w (f a)) -> keeps flagB w (m ≫= f).
Proof using. intros Hf b (a & _ & Hb)%bind_Ok. by eapply Hf. Qed.

Lemma keeps_unless (m : outcome A) (b : B) (f : A -> outcome B) :
  flagB b = w -> (forall a, keeps flagB w (f a)) -> keeps flagB w (unless_err m b f).
Proof using. intros Hb Hf. destruct m as [a|e|]; [apply Hf|by intros x [= <-]|done]. Qed.
End Keeps.

Lemma still_fold {X} (f : Server -> X -> Server) xs s :
  (forall s x, still (f s x) = still s) -> still (fold_left f xs s) = still s.
Proof. intros Hf. revert s. induction xs as [|x xs IH]; intros s; [done|]. cbn [fold_left]. by rewrite IH. Qed.

Lemma port_fold {X} (f : circuit -> X -> circuit) xs c : (forall c x, port (f c x) = port c) -> port (fold_left f xs c) = port c.
Proof. intros Hf. revert c. induction xs as [|x xs IH]; intros c; [done|]. cbn [fold_left]. by rewrite IH. Qed.

Lemma port_windows l now c : port (open_windows l now c) = port c.
Proof. unfold open_windows. by repeat case_match. Qed.

Lemma port_elect self c l xs ys : port (electDIS self c l xs ys) = port c.
Proof. unfold electDIS. cbv zeta. by repeat case_match. Qed.

Lemma port_ack c l e : port (setSSNAck c l e) = port c.
Proof. unfold setSSNAck. by case_match. Qed.

Ltac ported := intros; rewrite ?port_windows, ?port_elect, ?port_ack; repeat (rewrite port_fold; [|intros]); unfold port; repeat case_match; reflexivity.

Lemma still_upd s i f : (forall c, port (f c) = port c) -> still (upd_circuit s i f) = still s.
Proof.
  intros Hf. unfold still. cbn [upd_circuit set_circuits watched circuits]. f_equal. apply list_eq. intros j. rewrite !list_lookup_fmap.
  destruct (decide (i = j)) as [-> |Hne]; [|by rewrite list_lookup_alter_ne]. rewrite list_lookup_alter_eq. destruct (circuits s !! j); [|done].
  cbn. by rewrite Hf.
Qed.

Lemma still_flood s l id except now : still (floodLSP s l id except now) = still s.
Proof.
  unfold still. cbn [floodLSP set_circuits watched circuits]. f_equal. apply list_eq. intros j. rewrite !list_lookup_fmap, list_lookup_imap.
  destruct (circuits s !! j) as [c|]; [|done]. cbn. f_equal. unfold flood_one. by repeat case_match.
Qed.

(** What does not touch the circuits. *)
Lemma still_same s s' : watched s' = watched s -> circuits s' = circuits s -> still s' = still s.
Proof. unfold still. by intros -> ->. Qed.

Lemma still_dbs s m : still (set_dbs s m) = still s.
Proof. done. Qed.
Lemma still_gen s a b c : still (set_gen s a b c) = still s.
Proof. done. Qed.
Lemma still_seqWrap s m : still (set_seqWrap s m) = still s.
Proof. done. Qed.
Lemma still_warned s a b c d e f : still (set_warned s a b c d e f) = still s.
Proof. done. Qed.
Lemma still_overload s a b : still (set_overload s a b) = still s.
Proof. done. Qed.
Lemma still_cap s a b : still (Server.set_levels s a b) = still s.
Proof. done. Qed.
Lemma still_trace s t : still (set_trace s t) = still s.
Proof. done. Qed.
Lemma still_emit s e : still (emit s e) = still s.
Proof. done. Qed.
Lemma still_dirty s : still (markDirty s) = still s.
Proof. done. Qed.
Lemma still_regen s : still (requestLSPRegen s) = still s.
Proof. done. Qed.
Lemma kept_db_put s l id e : still (db_put s l id e) = still s.
Proof. done. Qed.
Lemma kept_db_del s l id : still (db_del s l id) = still s.
Proof. done. Qed.

Create HintDb watch discriminated.
#[local] Hint Rewrite still_upd using (solve [ported]) : watch.
#[local] Hint Rewrite still_flood still_dbs still_gen still_seqWrap still_warned still_overload still_cap still_trace still_emit still_dirty still_regen kept_db_put kept_db_del : watch.

(** The setters and the emissions compute; a computation is taken apart to those
    and to what the database knows. *)
Ltac flag := cbn [fst snd]; unfold set_txFail, set_limitWarned, set_oversize, set_dupWarned, set_adjLimitWarned, dropHello;
  autorewrite with watch; cbn [fst snd].

#[local] Hint Extern 1 (still _ = _) => (flag; autorewrite with watch; flag; congruence) : watch.

Ltac stay := repeat (cbv zeta; match goal with
  | |- keeps _ _ (mret _) => apply keeps_ret
  | |- keeps _ _ (Ok _) => apply keeps_Ok
  | |- keeps _ _ Panic => done
  | |- keeps _ _ (Err _) => done
  | |- keeps _ _ (unless_err _ _ _) => apply keeps_unless; [|intros ?]
  | |- keeps _ _ (@mbind _ _ Server _ _ _) => apply (keeps_bind still); [|intros ? ?]
  | |- keeps _ _ (@mbind _ _ (_ * Server)%type _ _ _) => 
      let E := fresh "E" in apply (keeps_bind (fun x => still x.2)); [|intros [? ?] E; cbn [snd] in E]
  | |- keeps _ _ (@mbind _ _ _ _ _ _) => apply keeps_pure; intros ?
  | |- context [match ?x with _ => _ end] =>
      lazymatch type of x with
      | (_ * Server)%type =>
          let E := fresh "E" in
          eassert (E : still x.2 = _) by (lazymatch x with (match _ with _ => _ end) => case_match | _ => idtac end; cbn [snd]; autorewrite with watch; reflexivity); destruct x as [? ?]; cbn [snd] in E
      | (Server * _)%type =>
          let E := fresh "E" in
          eassert (E : still x.1 = _) by (repeat case_match; cbn [fst]; flag; autorewrite with watch; reflexivity); destruct x as [? ?]; cbn [fst] in E
      | _ => destruct x eqn:?
      end
  end); flag; autorewrite with watch; try congruence; eauto 2 with watch.

(** ** Pieces *)

Lemma still_noteRefused s c lsp : still (noteRefusedSubTLV s c lsp) = still s.
Proof. unfold noteRefusedSubTLV. stay. Qed.

Lemma still_txFailed s c r : still (txFailed s c r) = still s.
Proof. unfold txFailed. stay. Qed.

Lemma still_dropAtLimit s c l : still (drop_at_limit s c l) = still s.
Proof. unfold drop_at_limit. stay. Qed.

Lemma still_emitAdjacency s i : still (emitAdjacency s i) = still s.
Proof. unfold emitAdjacency. stay. Qed.

Lemma still_emitDown s c a l now : still (emitAdjacencyDown s c a l now) = still s.
Proof. unfold emitAdjacencyDown. by rewrite still_emitAdjacency. Qed.

#[local] Hint Rewrite still_noteRefused still_txFailed still_dropAtLimit still_emitAdjacency still_emitDown : watch.

Lemma still_teardown s i c a now : still (teardownP2PAdj s i c a now) = still s.
Proof. unfold teardownP2PAdj, emit_levels. flag. rewrite still_fold; [by flag|]. intros. by rewrite still_emitDown. Qed.

Lemma still_processCSNP s i p now : still (processCSNP s i p now) = still s.
Proof.
  unfold processCSNP. destruct (dbs s !! _); [|done]. apply still_upd. intros c. unfold csnp_circuit.
  rewrite !port_fold; [done| |]; intros c1 x; [unfold csnp_entry|unfold csnp_missing]; by repeat case_match.
Qed.

Lemma still_processPSNP s i p now : still (processPSNP s i p now) = still s.
Proof.
  unfold processPSNP. destruct (dbs s !! _); [|done]. apply still_upd. intros c. unfold psnp_circuit. destruct (_ && _); [done|].
  apply port_fold. intros c1 x. unfold psnp_entry. by repeat case_match.
Qed.

Lemma still_helloFromSelf s c src : still (helloFromSelf s c src).2 = still s.
Proof. unfold helloFromSelf. stay. Qed.

Lemma still_adjacencyLimited s c src : still (adjacencyLimited s c src).2 = still s.
Proof. unfold adjacencyLimited. stay. Qed.

Lemma still_install s i c raw lsp adj now : still (install s i c raw lsp adj now) = still s.
Proof.
  unfold install. cbv zeta. set (s1 := if receivedLifetime _ =? _ then s else _).
  assert (E1 : still s1 = still s) by (unfold s1; stay). set (s2 := if corruptLifetime _ _ _ then _ else s1).
  assert (E2 : still s2 = still s1) by (unfold s2; stay). rewrite <- E1, <- E2, <- (still_noteRefused s2 c lsp). stay.
Qed.

Section Watched.
Context (hmac : AuthAlgorithm -> bytes -> bytes -> bytes) (send_ok : list effect -> bool).

Lemma still_send s c dst b : still (send send_ok s c dst b).2 = still s.
Proof using. unfold send. stay. Qed.
#[local] Hint Rewrite still_send : watch.

Lemma stays_sendSNP w s c l p : still s = w -> stays w (sendSNP hmac send_ok s c l p).
Proof using. intros <-. unfold sendSNP. stay. Qed.

Lemma stays_sendOne w s c dst p : still s = w -> stays w (sendOne hmac send_ok s c dst p).
Proof using. intros <-. unfold sendOne. stay. Qed.
#[local] Hint Resolve stays_sendSNP stays_sendOne : watch.

Lemma stays_send_all w s c l ps : still s = w -> stays w (send_all hmac send_ok s c l ps).
Proof using. revert s. induction ps as [|p ps IH]; intros s E; cbn [send_all]; stay. Qed.
#[local] Hint Resolve stays_send_all : watch.

Lemma stays_sendCSNP w s c l now : still s = w -> stays w (sendCSNP hmac send_ok s c l now).
Proof using. intros E. unfold sendCSNP. stay. Qed.
#[local] Hint Resolve stays_sendCSNP : watch.

Lemma stays_sync w s i c l now : still s = w -> stays w (syncCircuitLevel hmac send_ok s i c l now).
Proof using. intros E. unfold syncCircuitLevel. stay. Qed.
#[local] Hint Resolve stays_sync : watch.

Lemma stays_transmit_one w s i c l id now : still s = w -> stays2 w (transmit_one send_ok s i c l id now).
Proof using. intros E. unfold transmit_one. stay. Qed.
#[local] Hint Resolve stays_transmit_one : watch.

Lemma stays_srm_loop w s i l order sent now : still s = w -> stays w (srm_loop send_ok s i l order sent now).
Proof using. revert s sent. induction order as [|id order IH]; intros s sent E; cbn [srm_loop]; stay. Qed.
#[local] Hint Resolve stays_srm_loop : watch.

Lemma stays_transmitSRM w s i c l order now : still s = w -> stays w (transmitSRM send_ok s i c l order now).
Proof using. intros E. unfold transmitSRM. stay. Qed.

Lemma stays_transmitPSNP w s i c l order now : still s = w -> stays w (transmitPSNP hmac send_ok s i c l order now).
Proof using. intros E. unfold transmitPSNP. stay. Qed.
#[local] Hint Resolve stays_transmitSRM stays_transmitPSNP : watch.

Lemma stays_transmit_level srm_order ssn_order w s i l now :
  still s = w -> stays w (transmit_level hmac send_ok srm_order ssn_order s i l now).
Proof using. intros E. unfold transmit_level. stay. Qed.
#[local] Hint Resolve stays_transmit_level : watch.

Lemma stays_transmit_levels srm_order ssn_order w s i ls now :
  still s = w -> stays w (transmit_levels hmac send_ok srm_order ssn_order s i ls now).
Proof using. revert s. induction ls as [|l ls IH]; intros s E; cbn [transmit_levels]; stay. Qed.
#[local] Hint Resolve stays_transmit_levels : watch.

Lemma stays_floodTransmit srm_order ssn_order w s now :
  still s = w -> stays w (floodTransmit hmac send_ok srm_order ssn_order s now).
Proof using.
  unfold floodTransmit. generalize (seq 0 (length (circuits s))) as js. intros js. revert s.
  induction js as [|i js IH]; intros s E; cbn [transmit_circuits]; stay.
Qed.

Lemma stays_drainSRM srm_order w s i l now : still s = w -> stays w (drainSRM send_ok srm_order s i l now).
Proof using.
  unfold drainSRM. generalize (srm_left s i l) at 1 as k. generalize (srm_left s i l) as left. intros left k. revert s left.
  induction k as [|k IH]; intros s left E; cbn [drain_fuel]; stay.
Qed.

(** ** The LSPs of the node *)

Lemma stays_exhaustSeq w s l id now : still s = w -> stays w (exhaustSeq hmac s l id now).
Proof using. intros E. unfold exhaustSeq. stay. Qed.
#[local] Hint Resolve stays_exhaustSeq : watch.

Lemma stays_purgeOwn w s l id now : still s = w -> stays w (purgeOwn hmac s l id now).
Proof using. intros E. unfold purgeOwn. stay. Qed.

Lemma stays_expirePurge w s l id e now : still s = w -> stays w (expirePurge hmac s l id e now).
Proof using. intros E. unfold expirePurge. stay. Qed.

Lemma stays_reoriginate w s l id seen now rand : still s = w -> stays w (reoriginateOwn hmac s l id seen now rand).
Proof using. intros E. unfold reoriginateOwn. stay. Qed.
#[local] Hint Resolve stays_purgeOwn stays_expirePurge stays_reoriginate : watch.

Lemma stays_ageLSPs w s order now : still s = w -> stays w (ageLSPs hmac s order now).
Proof using. revert s. induction order as [|[l id] order IH]; intros s E; cbn [ageLSPs]; unfold age_one; stay. Qed.

Lemma stays_originate rand w s l id tlvs att force now : still s = w -> stays w (originate hmac rand s l id tlvs att force now).
Proof using. intros E. unfold originate. stay. Qed.
#[local] Hint Resolve stays_originate : watch.

Lemma stays_purgeStale w s l pn keep order now : still s = w -> stays w (purgeStaleFragments hmac s l pn keep order now).
Proof using.
  intros E. unfold purgeStaleFragments. stay. revert s E. induction order as [|id order IH]; intros s E; cbn [stale_loop]; stay.
Qed.
#[local] Hint Resolve stays_purgeStale : watch.

Lemma stays_frags rand w s l pn frags n att force now :
  still s = w -> stays w (originate_frags hmac rand s l pn frags n att force now).
Proof using. revert s n. induction frags as [|f frags IH]; intros s n E; cbn [originate_frags]; stay. Qed.
#[local] Hint Resolve stays_frags : watch.

Lemma stays_fragmented rand order w s l pn fixed variable att force now :
  still s = w -> stays w (originateFragmented hmac rand order s l pn fixed variable att force now).
Proof using. intros E. unfold originateFragmented. stay. Qed.
#[local] Hint Resolve stays_fragmented : watch.

Lemma stays_pseudonodes rand order w s l force now :
  still s = w -> stays w (regeneratePseudonodeLSPs hmac rand order s l force now).
Proof using.
  unfold regeneratePseudonodeLSPs. generalize (circuits s) as cs. intros cs. revert s.
  induction cs as [|c cs IH]; intros s E; cbn [pseudonode_loop]; unfold regeneratePseudonode; stay.
Qed.
#[local] Hint Resolve stays_pseudonodes : watch.

(** ** Hellos *)

Context (adj_order : nat -> gmap SystemID adjacency -> list (SystemID * adjacency)).

Lemma stays_sendHellos order w s i c now : still s = w -> stays w (sendHellos hmac send_ok s i c order now).
Proof using.
  intros E. unfold sendHellos. stay. generalize (cfg_levels (cfg c)) as ls. intros ls.
  assert (E' : still (upd_circuit s i (fun c => set_nextHello c (now + HelloInterval (cfg c)))) = w) by (by flag).
  revert E'. generalize (upd_circuit s i (fun c => set_nextHello c (now + HelloInterval (cfg c)))) as s1.
  induction ls as [|l ls IH]; intros s1 E1; cbn [send_hellos_levels]; stay.
Qed.

Lemma still_reportRestart s c a h wr ws : still (reportRestart s c a h wr ws).1 = still s.
Proof using. unfold reportRestart. stay. Qed.

Lemma stays_lanReact w s i c l a prev held ec ac re sc ack now :
  still s = w -> stays w (lanReact hmac send_ok adj_order s i c l a prev held ec ac re sc ack now).
Proof using. intros E. unfold lanReact. stay. Qed.
#[local] Hint Resolve stays_lanReact : watch.

Lemma stays_acceptLAN w s i c m src h now : still s = w -> stays w (acceptLANHello hmac send_ok adj_order s i c m src h now).
Proof using.
  intros E. unfold acceptLANHello. cbv zeta. destruct (lanAdjacency _ _ _ _ _ _) as [a ac]. rewrite <- E.
  match goal with |- context [reportRestart s c a ?h ?x ?y] => rewrite <- (still_reportRestart s c a h x y); destruct (reportRestart s c a h x y) as [s1 re] end.
  apply stays_lanReact. by flag.
Qed.
#[local] Hint Resolve stays_acceptLAN : watch.
#[local] Hint Rewrite still_helloFromSelf still_adjacencyLimited still_teardown still_processCSNP still_processPSNP still_install : watch.

Lemma stays_LANHello w s i c src h now : still s = w -> stays w (processLANHello hmac send_ok adj_order s i c src h now).
Proof using. intros E. unfold processLANHello. stay. Qed.
#[local] Hint Resolve stays_LANHello : watch.

Lemma stays_sync_levels w s i ls now : still s = w -> stays w (sync_levels hmac send_ok s i ls now).
Proof using. revert s. induction ls as [|l ls IH]; intros s E; cbn [sync_levels]; stay. Qed.
#[local] Hint Resolve stays_sync_levels : watch.

Lemma still_levels (f : Server -> Level -> Server) s ls : (forall s l, still (f s l) = still s) -> still (emit_levels f s ls) = still s.
Proof using. apply still_fold. Qed.

Lemma stays_p2pReact w s i c a prev pl held ac re sc ack now :
  still s = w -> stays w (p2pReact hmac send_ok s i c a prev pl held ac re sc ack now).
Proof using.
  intros E. unfold p2pReact. cbv zeta. match goal with |- keeps _ _ (mbind _ (if _ then (mbind _ (buildP2PHello ?x _ _)) else _)) => set (s1 := x) end.
  assert (E1 : still s1 = w).
  { unfold s1. repeat case_match; flag; rewrite ?still_levels; try done; intros; by rewrite ?still_emitDown, ?still_emitAdjacency. }
  clearbody s1. stay.
Qed.
#[local] Hint Resolve stays_p2pReact : watch.

Lemma stays_acceptP2P w s i c src h common now : still s = w -> stays w (acceptP2PHello hmac send_ok s i c src h common now).
Proof using.
  intros E. unfold acceptP2PHello. cbv zeta. case_match; [stay|]. set (s1 := match p2pAdj c with Some _ => _ | None => s end).
  assert (E1 : still s1 = w) by (unfold s1; stay). clearbody s1. rewrite <- E1. destruct (p2pAdjacency _ _ _ _ _ _ _) as [a ac].
  match goal with |- context [reportRestart s1 c a ?h ?x ?y] => rewrite <- (still_reportRestart s1 c a h x y); destruct (reportRestart s1 c a h x y) as [s2 re] end.
  apply stays_p2pReact. by flag.
Qed.
#[local] Hint Resolve stays_acceptP2P : watch.

Lemma stays_P2PHello w s i c src h now : still s = w -> stays w (processP2PHello hmac send_ok s i c src h now).
Proof using. intros E. unfold processP2PHello. stay. Qed.
#[local] Hint Resolve stays_P2PHello : watch.

Lemma still_dropAdjacencies s i c drop now : still (dropAdjacencies adj_order s i c drop now) = still s.
Proof using.
  assert (Hl : forall l order s, still (drop_loop adj_order drop s i l order now).2 = still s).
  { intros l order. induction order as [|[id a] order IH]; intros s0; [done|]. cbn [drop_loop].
    destruct (drop a); cbn [snd]; rewrite IH; [|done]. unfold drop_one. stay. }
  assert (Hls : forall ls s, still (drop_levels adj_order drop s i ls now).2 = still s).
  { induction ls as [|l ls IH]; intros s0; [done|]. cbn [drop_levels]. set (order := match circuits s0 !! i with Some _ => _ | None => _ end).
    rewrite <- (Hl l order s0). destruct (drop_loop _ _ _ _ _ _ _) as [ch s1]. cbn [snd]. rewrite <- (IH s1). by destruct (drop_levels _ _ _ _ _ _) as [ch' s2]. }
  unfold dropAdjacencies. case_match; [stay|]. rewrite <- (Hls (cfg_levels (cfg c)) s). destruct (drop_levels _ _ _ _ _ _) as [ch s1]. cbn [snd]. stay.
Qed.

(** ** Received frames *)

Lemma stays_handleOwn rand w s c lsp ex now : still s = w -> stays2 w (handleOwnSystemID hmac rand s c lsp ex now).
Proof using. intros E. unfold handleOwnSystemID. stay. Qed.

Lemma stays_not_newer rand w s i c lsp ex now : still s = w -> stays w (not_newer hmac rand s i c lsp ex now).
Proof using. intros E. unfold not_newer. stay. Qed.
#[local] Hint Resolve stays_handleOwn stays_not_newer : watch.

Lemma stays_processLSP rand w s i c raw lsp adj now : still s = w -> stays w (processLSP hmac rand s i c raw lsp adj now).
Proof using. intros E. unfold processLSP. stay. Qed.
#[local] Hint Resolve stays_processLSP : watch.

Lemma stays_authOK w s c raw p : still s = w -> stays2 w (authOK hmac s c raw p).
Proof using. intros E. unfold authOK, helloAuthOK, pduAuthOK. stay. Qed.

Lemma still_gate s c l src : still (adjacencyGate adj_order s c l src).2 = still s.
Proof using. unfold adjacencyGate. stay. Qed.
#[local] Hint Resolve stays_authOK : watch.
#[local] Hint Rewrite still_gate : watch.

Lemma stays_handleRx rand w s i c src frame now : still s = w -> stays w (handleRxEvent hmac send_ok adj_order rand s i c src frame now).
Proof using. intros E. unfold handleRxEvent, handleRx, handlePDU. stay. Qed.
End Watched.

(** ** The node *)

Section Node.
Context {F : Type} `{HF : FIB F} {T : Type} `{HT : TentativeSet T}.
Context (hmac : AuthAlgorithm -> bytes -> bytes -> bytes).

Definition watching (n : Node F) : bool := watched (core n).

(** Of a node, also the subnets of its circuits. *)
Definition resting (n : Node F) := (still (core n), circuitPrefixes n).
Abbreviation rests := (keeps resting).
Abbreviation rests_answer := (keeps (fun x : Node F * option opError => resting x.1)).
Abbreviation watch_answer := (keeps (fun x : Node F * option opError => watching x.1)).

Lemma resting_intro n n' : still (core n') = still (core n) -> circuitPrefixes n' = circuitPrefixes n -> resting n' = resting n.
Proof using. unfold resting. by intros -> ->. Qed.

Lemma resting_watching n n' : resting n' = resting n -> watching n' = watching n.
Proof using. intros [E _]%pair_eq. by apply pair_eq in E as [? _]. Qed.

(** The protocol state and the subnets. *)
Definition base (n : Node F) := (core n, circuitPrefixes n).

Lemma resting_base n n' : base n' = base n -> resting n' = resting n.
Proof using. intros [E1 E2]%pair_eq. unfold resting. by rewrite E1, E2. Qed.

Lemma base_programSID n ls : base (programSID n ls) = base n.
Proof using. unfold programSID. by repeat case_match. Qed.

Lemma base_unprogramSID n a : base (unprogramSID n a) = base n.
Proof using. unfold unprogramSID. by repeat case_match. Qed.

Lemma base_fold {X} (f : Node F -> X -> Node F) xs n : (forall (n : Node F) x, base (f n x) = base n) -> base (fold_left f xs n) = base n.
Proof using. intros Hf. revert n. induction xs as [|x xs IH]; intros n; [done|]. cbn [fold_left]. by rewrite IH. Qed.

Lemma base_installEndX sid_order n : base (installEndXSIDs sid_order n) = base n.
Proof using. apply base_fold, base_programSID. Qed.

Lemma base_assign_loop (n : Node F) ws n' : assign_loop n ws = Ok n' -> base n' = base n.
Proof using.
  revert n. induction ws as [|w ws IH]; intros n; [by intros [= <-]|]. cbn [assign_loop]. intros (n1 & H1 & ->%IH)%bind_Ok.
  unfold assign_step in H1. destruct (endXSIDs n !! w_key w); [by injection H1 as <-|].
  apply bind_Ok in H1 as ([r n2] & Ha & [= <-]). assert (E : base n2 = base n); [|by destruct r].
  unfold allocEndXSID in Ha. destruct (_ =? 0); [by injection Ha as <- <-|]. destruct (freeFunction _ _); [|by injection Ha as <- <-].
  by apply bind_Ok in Ha as (a & _ & [= <- <-]).
Qed.

Lemma base_scan now cas (x : scan (F := F)) : base (sc_node (fold_left (scan_step now) cas x)) = base (sc_node x).
Proof using.
  revert x. induction cas as [|ca cas IH]; intros x; [done|]. cbn [fold_left]. rewrite IH. unfold scan_step.
  destruct (IsValid _); cbn [negb sc_node]; [done|]. by case_bool_decide.
Qed.

Lemma base_sync sid_order (n : Node F) now n' : syncEndXSIDs sid_order n now = Ok n' -> base n' = base n.
Proof using.
  unfold syncEndXSIDs. destruct (_ && _); [by intros [= <-]|]. cbv zeta. intros (n1 & H1%base_assign_loop & [= <-])%bind_Ok.
  rewrite base_installEndX, H1, base_fold; [apply base_scan|]. intros n0 ke. unfold release_step. case_bool_decide; [done|]. apply base_unprogramSID.
Qed.

Lemma rests_core (f : Server -> outcome Server) n : stays (still (core n)) (f (core n)) -> rests (resting n) (on_core n f).
Proof using. intros Hf n' (s & Hs & [= <-])%bind_Ok. apply resting_intro; [|done]. by apply Hf. Qed.

Section Turn.
Context (o : Oracle).

Lemma rests_regenerate n force now : rests (resting n) (regenerate hmac o n force now).
Proof using.
  unfold regenerate, regenerateLSPs. intros n' (n1 & H1%base_sync%resting_base & H2)%bind_Ok. rewrite <- H1. clear H1. revert n' H2.
  generalize (levelSet_levels (levelCap (core n1))) as ls. intros ls. revert n1. induction ls as [|l ls IH]; intros n1 n'; [by intros [= <-]|]. cbn [regenerate_levels].
  intros (n2 & H2 & (s & Hs & H3)%bind_Ok)%bind_Ok. rewrite (IH _ _ H3). apply resting_intro; cbn [core set_core circuitPrefixes].
  - eapply stays_pseudonodes; [|exact Hs]. unfold regenerateNodeLSP in H2. apply bind_Ok in H2 as (fx & _ & (vr & _ & (s2 & H2 & [= <-])%bind_Ok)%bind_Ok).
    cbn [core set_core]. by eapply stays_fragmented; [|exact H2].
  - unfold regenerateNodeLSP in H2. by apply bind_Ok in H2 as (fx & _ & (vr & _ & (s2 & H2 & [= <-])%bind_Ok)%bind_Ok).
Qed.

Lemma rests_drain n now : rests (resting n) (drain hmac o n now).
Proof using.
  unfold drain, drainLSPGen. case_match; [by intros ? [= <-]|]. cbv zeta. intros n' (n1 & H1%rests_regenerate & [= <-])%bind_Ok. exact H1.
Qed.

Lemma stays_hellos w s i now : still s = w -> stays w (hellos_on hmac o s i now).
Proof using. intros E. unfold hellos_on. case_match; [by apply stays_sendHellos|by apply keeps_ret]. Qed.

Lemma stays_tend w s js now : still s = w -> stays w (tend_circuits hmac o s js now).
Proof using.
  revert s. induction js as [|i js IH]; intros s E s'; [by intros [= <-]|]. cbn [tend_circuits]. intros (s1 & H1 & H2)%bind_Ok.
  eapply IH; [|exact H2]. unfold tend_circuit in H1. apply bind_Ok in H1 as (s2 & H1 & [= <-]).
  assert (E2 : still s2 = w).
  { revert H1. destruct (circuits s !! i); [|by intros [= <-]]. destruct (_ <? _); [by intros [= <-]|]. by apply stays_hellos. }
  destruct (circuits s2 !! i) as [c|]; [|done]. unfold expireAdjacencies. by rewrite still_dropAdjacencies.
Qed.

Lemma rests_refresh n now : rests (resting n) (refreshOwnLSPs hmac o n now).
Proof using.
  unfold refreshOwnLSPs. cbv zeta. set (n0 := set_core n _). change (resting n) with (resting n0). clearbody n0.
  intros n' (n1 & H1 & H2)%bind_Ok. transitivity (resting n1); [clear H1; revert H2|clear H2; revert H1]; (case_match; [by intros Hg%rests_regenerate|by intros [= <-]]).
Qed.

Lemma still_reports s : still (report_adjacencies (report_sizes s)) = still s.
Proof.
  unfold report_adjacencies, report_sizes. rewrite still_fold; [apply still_fold|].
  - intros s1 l. by case_match.
  - intros s1 c. unfold report_circuit. by apply still_fold.
Qed.

Lemma rests_housekeeping n now : rests (resting n) (housekeeping hmac o n now).
Proof using.
  unfold housekeeping. cbv zeta.
  intros n' (n1 & H1 & (n2 & H2 & (n3 & H3%rests_drain & (n4 & H4 & (n5 & H5%rests_refresh & (n6 & H6 & [= <-])%bind_Ok)%bind_Ok)%bind_Ok)%bind_Ok)%bind_Ok)%bind_Ok.
  apply rests_core in H1; [|by apply stays_tend]. assert (E2 : resting n2 = resting n1).
  { unfold clear_overload in H2. cbv zeta in H2. destruct (_ && _) in H2; [|by injection H2 as <-]. apply rests_regenerate in H2. exact H2. }
  apply rests_core in H4; [|by apply stays_ageLSPs]. apply rests_core in H6; [|by apply stays_floodTransmit].
  assert (E1 : resting n1 = resting n) by exact H1. rewrite <- E1, <- E2, <- H3, <- H4, <- H5, <- H6. clear H1 E1 H2 E2 H3 H4 H5 H6.
  assert (Er : forall n : Node F, base (retry_fib o n) = base n) by (intros; unfold retry_fib; by case_bool_decide).
  match goal with |- context [retry_fib o ?x] => transitivity (resting (retry_fib o x)); [done|]; rewrite (resting_base _ _ (Er x)) end.
  match goal with |- context [report_adjacencies (report_sizes (core ?x))] => transitivity (resting x); [apply resting_intro; [apply still_reports|done]|] end.
  apply resting_base. unfold retry_removals. rewrite base_fold by (intros; apply base_unprogramSID). unfold reassert_sids. case_match; [|done].
  unfold installLocalSIDs. rewrite base_installEndX, base_fold; [done|intros; apply base_programSID].
Qed.

(** ** Operations and turns *)

Lemma still_dropOn s i drop now : still (drop_on o s i drop now) = still s.
Proof. unfold drop_on. case_match; [apply still_dropAdjacencies|done]. Qed.

Lemma stays_purge_octets w s ls pn now : still s = w -> stays w (purge_octets hmac o s ls pn now).
Proof using.
  revert s. induction ls as [|l ls IH]; intros s E; cbn [purge_octets]; [by apply keeps_ret|].
  apply (keeps_bind still); [by apply stays_purgeStale|done].
Qed.

Lemma stays_drain_levels w s i ls now : still s = w -> stays w (drain_levels o s i ls now).
Proof using.
  revert s. induction ls as [|l ls IH]; intros s E; cbn [drain_levels]; [by apply keeps_ret|].
  apply (keeps_bind still); [by apply stays_drainSRM|done].
Qed.

(** The circuits are changed by the operations that manage them, and by nothing
    else. *)
Definition on_circuits (op : operation) : bool :=
  match op with OpSetCircuitAddresses _ _ _ _ | OpSetCircuitLinkState _ _ | OpAddCircuit _ _ | OpDeleteCircuit _ => true | _ => false end.

Lemma resting_ask (n : Node F) : resting (ask_regen n) = resting n.
Proof using. done. Qed.

Lemma rests_perform n op now : on_circuits op = false -> rests_answer (resting n) (perform hmac o op now n).
Proof using.
  intros Hop. destruct op; try done; cbn [perform];
    unfold AddLocator, DeleteLocator, AddFlexAlgo, DeleteFlexAlgo, AddPrefix, DeletePrefix, SetOverload, ClearAdjacency, refuse, agree; cbv zeta;
    intros [n' e]; repeat case_match; intros [= <- <-]; cbn [fst]; try done; first [by rewrite resting_ask, (resting_base _ _ (base_programSID _ _))
      | by rewrite resting_ask, (resting_base _ _ (base_unprogramSID _ _)) | by apply resting_intro; [apply still_dropOn|]].
Qed.

Lemma rests_watch_core (f : Server -> outcome Server) n w : watching n = w -> stays (still (core n)) (f (core n)) -> keeps watching w (on_core n f).
Proof using. intros <- Hf n' Hn. by apply resting_watching, (rests_core f n Hf). Qed.

Lemma watch_regenerate n force now w : watching n = w -> keeps watching w (regenerate hmac o n force now).
Proof using. intros <- n' Hn. by apply resting_watching, (rests_regenerate n force now). Qed.

Lemma watch_deleteCircuit n name now : watch_answer (watching n) (deleteCircuit hmac o n name now).
Proof using.
  unfold deleteCircuit, refuse, agree. destruct (circuitNamed _ _) as [[i c]|]; [|by apply keeps_ret]. cbv zeta.
  apply (keeps_bind watching); [by apply rests_watch_core; [|apply stays_purge_octets]|intros n1 E1].
  apply (keeps_bind watching); [by apply rests_watch_core; [|apply stays_purge_octets]|intros n2 E2].
  apply (keeps_bind watching); [by apply rests_watch_core; [|apply stays_drain_levels]|intros n3 E3].
  assert (Ed : watched (drop_on o (core n3) i (fun _ => true) now) = watching n) by (rewrite <- E3; exact (f_equal fst (still_dropOn _ _ _ _))).
  apply (keeps_bind watching); [|intros n4 E4; by apply keeps_ret]. case_match; [by apply keeps_ret|by apply watch_regenerate].
Qed.

Lemma watch_addCircuit n k conn now : watch_answer (watching n) (addCircuit hmac o n k conn now).
Proof using.
  unfold addCircuit, refuse, agree. intros [n' e] (ok & _ & Ha)%bind_Ok. cbn [fst]. destruct (negb ok); [by injection Ha as <- <-|].
  cbv zeta in Ha. destruct (circuitNamed _ _) as [[i cur]|]; [by injection Ha as <- <-|].
  destruct (_ <? _); [by injection Ha as <- <-|]. unfold allocCircuitIDs in Ha. destruct (next_octet _ _ _) as [pn|]; [|by injection Ha as <- <-].
  apply bind_Ok in Ha as (n1 & H1 & (n2 & H2 & [= <- <-])%bind_Ok). rewrite (watch_regenerate _ _ _ _ eq_refl n2 H2).
  apply (rests_watch_core _ _ (watching n)) in H1; [exact H1| |by apply stays_hellos]. unfold watching. cbn [core setLSPBufferSize set_core set_levels watched].
  assert (Hl : forall ls s, watched (fold_left add_level ls s) = watched s); [|etransitivity; [apply Hl|done]].
  induction ls as [|l ls IH]; intros s; [done|]. cbn [fold_left]. rewrite IH. unfold add_level. by case_match.
Qed.

Lemma watch_circuits n op now : on_circuits op = true -> watch_answer (watching n) (perform hmac o op now n).
Proof using.
  intros Hop. destruct op as [| | | | | | | |name v4 v6 conn|name up| |]; try done; cbn [perform]; [..|apply watch_addCircuit|apply watch_deleteCircuit];
    unfold SetCircuitAddresses, SetCircuitLinkState, refuse, agree; cbv zeta; (destruct (circuitNamed _ _) as [[i c]|]; [|by apply keeps_ret]).
  - destruct (_ && _); [by apply keeps_ret|]. apply (keeps_bind watching); [|intros n1 E1; by apply keeps_ret].
    by apply rests_watch_core; [|apply stays_hellos].
  - destruct (Bool.eqb _ _); [by apply keeps_ret|]. destruct (negb up); [apply keeps_ret; exact (f_equal fst (still_dropOn _ _ _ _))|].
    apply (keeps_bind watching); [|intros n1 E1; by apply keeps_ret]. by apply rests_watch_core; [|apply stays_hellos].
Qed.

Lemma stays_handleEvent w s ev now : still s = w -> stays w (handleEvent hmac o s ev now).
Proof using.
  intros E. destruct ev as [ext src frame|ext]; cbn [handleEvent]; destruct (circuit_at s ext) as [[i c]|]; try (by apply keeps_ret).
  - by apply stays_handleRx.
  - destruct (detached c); by apply keeps_ret.
Qed.

(** What an event does before the loop recomputes. *)
Lemma rests_event x a now x' :
  match a with OnOperation op => on_circuits op = false | _ => True end -> handle hmac o x a now = Ok x' -> resting (node x') = resting (node x).
Proof using.
  destruct a as [ev| | |op]; cbn [handle]; intros Ha.
  - intros (n & Hn & [= <-])%bind_Ok. refine (rests_core _ _ _ n Hn). by apply stays_handleEvent.
  - intros (n & Hn%rests_housekeeping & [= <-])%bind_Ok. exact Hn.
  - by intros [= <-].
  - intros (n & Hn & [= <-])%bind_Ok. unfold operate in Hn. apply bind_Ok in Hn as ([n1 e] & H1 & [= <-]). exact (rests_perform _ op now Ha (n1, e) H1).
Qed.

Lemma rests_handle w x a now x' : watching (node x) = w -> handle hmac o x a now = Ok x' -> watching (node x') = w.
Proof using.
  intros <- Hx. destruct (match a with OnOperation op => on_circuits op | _ => false end) eqn:Ea.
  - destruct a as [| | |op]; try done. cbn [handle] in Hx. apply bind_Ok in Hx as (n & Hn & [= <-]). unfold operate in Hn.
    apply bind_Ok in Hn as ([n1 e] & H1 & [= <-]). exact (watch_circuits _ op now Ea (n1, e) H1).
  - apply resting_watching, (rests_event x a now x'); [by destruct a|done].
Qed.
End Turn.
End Node.
