(* ===== verification/WatchSpec.v ===== *)
(** Subscribers of the loop: what one has received and has waiting in its channel,
    played over the snapshot it began with, is the routing table.

    Routes are compared as [programFIB] compares them ([sameRoute]): by metric,
    algorithm and next hops; the level and the preference class of a route are not
    compared, and a change of them alone is not reported. *)

From stdpp Require Import sorting strings.
From S2P Require Import Prelude.
From S2P Require Import Netip.
From S2P Require Import Ids.
From S2P Require Import Auth.
From S2P Require Import Circuit.
From S2P Require Import Restart.
From S2P Require Import EdgeLog.
From S2P Require Import Server.
From S2P Require Import FlexAlgo.
From S2P Require Import Tent.
From S2P Require Import Topology.
From S2P Require Import Spf.
From S2P Require Import Rib.
From S2P Require Import EndX.
From S2P Require Import NodeLsp.
From S2P Require Import Loop.
From S2P Require Import Mutate.
From S2P Require Import Serve.
From S2P Require Import Watch.
From S2P Require Import Settings.
From S2P Require Import RibSpec.
From S2P Require Import RibSelect.
From S2P Require Import ServeSpec.
From S2P Require Import SettingsSpec.
From S2P Require Import WatchFrame.
Local Open Scope Z_scope.

(** ** Views *)

(** A view of the routing table, up to what [sameRoute] does not tell apart. *)
#[export] Instance route_equiv : Equiv RouteInfo := fun a b => sameRoute a b = true.

Lemma same_hops_eq a b : sameHops a b = true <-> a = b.
Proof.
  revert b. induction a as [|x a IH]; intros [|y b]; cbn [sameHops]; [done..|].
  rewrite andb_true_iff, bool_decide_eq_true, IH. naive_solver.
Qed.

Lemma sameRoute_iff a b :
  a ≡ b <-> RI_Metric a = RI_Metric b /\ RI_Algorithm a = RI_Algorithm b /\ RI_NextHops a = RI_NextHops b.
Proof.
  unfold equiv, route_equiv, sameRoute. destruct (_ || _) eqn:E.
  - split; [done|]. intros (E1 & E2 & E3). rewrite E1, E2, E3, !Z.eqb_refl, Nat.eqb_refl in E. done.
  - apply orb_false_iff in E as [[E1%negb_false_iff E2%negb_false_iff]%orb_false_iff _]. rewrite same_hops_eq.
    split; [intros ?; split_and!; [lia|lia|done]|tauto].
Qed.

#[export] Instance route_equivalence : Equivalence (≡@{RouteInfo}).
Proof.
  split.
  - intros a. by apply sameRoute_iff.
  - intros a b (? & ? & ?)%sameRoute_iff. by apply sameRoute_iff.
  - intros a b c (? & ? & ?)%sameRoute_iff (? & ? & ?)%sameRoute_iff. apply sameRoute_iff. split_and!; congruence.
Qed.

Abbreviation view := (gmap Prefix RouteInfo).

(** What an event makes of a view. *)
Definition play (v : view) (ev : Event) : view :=
  match ev with
  | AdjacencyChange _ => v
  | RouteChange r false => <[RI_Prefix r := r]> v
  | RouteChange r true => delete (RI_Prefix r) v
  end.
Definition replay (evs : list Event) (v : view) : view := fold_left play evs v.

Lemma replay_app a b v : replay (a ++ b) v = replay b (replay a v).
Proof. apply fold_left_app. Qed.

#[export] Instance play_proper : Proper ((≡) ==> (=) ==> (≡)) play.
Proof. intros v w E ev ? <-. destruct ev as [|r []]; cbn [play]; [done|by rewrite E|by rewrite E]. Qed.

#[export] Instance replay_proper : Proper ((=) ==> (≡) ==> (≡)) replay.
Proof. intros evs ? <-. induction evs as [|ev evs IH]; intros v w E; [done|]. apply IH. by apply play_proper. Qed.

(** ** What programming the forwarding table reports *)

Definition announced (w : bool) (b : view) (pr : Prefix * RouteInfo) : option Event :=
  if w && (match b !! pr.1 with Some old => negb (sameRoute old pr.2) | None => true end) then Some (RouteChange pr.2 false) else None.
Definition withdrawn (w : bool) (next : view) (pr : Prefix * RouteInfo) : option Event :=
  if w && negb (bool_decide (is_Some (next !! pr.1))) then Some (RouteChange pr.2 true) else None.

Section Programming.
Context {F : Type} `{FIB F} (w : bool) (info_order : nat -> gmap Prefix RouteInfo -> list (Prefix * RouteInfo)).

Lemma routed_withdraw (b : RIB F) p : routed (withdraw_installed b p) = routed b.
Proof.
  unfold withdraw_installed. case_bool_decide; [|done]. destruct (Withdraw _ _) as [f []]; [done|].
  change (routed (rib_emit (set_fib b f (fibPending b) (fibInstalled b)) (FIBError fibOpWithdraw)) = routed b). by rewrite routed_emit.
Qed.

Lemma routed_report (b : RIB F) r wd : routed (emitRoute w b r wd) = routed b ++ (if w then [RouteChange r wd] else []).
Proof. unfold emitRoute. destruct w; [|by rewrite app_nil_r]. unfold routed, route_events. cbn [rib_emit rib_trace]. by rewrite omap_app. Qed.

Lemma routed_route (b : RIB F) pr : routed (program_route w b pr) = routed b ++ option_list (announced w (rib b) pr).
Proof.
  destruct pr as [p r]. unfold program_route, announced. cbv zeta. fold (changed b p r). cbn [fst snd].
  set (b1 := if changed b p r then emitRoute w b r false else b).
  assert (E1 : routed b1 = routed b ++ option_list (if w && changed b p r then Some (RouteChange r false) else None)).
  { unfold b1. destruct (changed b p r); [rewrite routed_report|]; destruct w; cbn; by rewrite ?app_nil_r. }
  transitivity (routed b1); [clear E1|exact E1]. destruct (negb (Rib.accepted b1 r)); [apply (routed_withdraw b1 p)|]. destruct (_ && _); [done|].
  unfold write_route. destruct (Update _ _ _) as [f []]; [done|].
  change (routed (rib_emit (set_fib b1 f ({[ p ]} ∪ fibPending b1) (fibInstalled b1)) (FIBError fibOpUpdate)) = routed b1). by rewrite routed_emit.
Qed.

Lemma routed_gone next (b : RIB F) pr : routed (program_gone w next b pr) = routed b ++ option_list (withdrawn w next pr).
Proof.
  destruct pr as [p old]. unfold program_gone, withdrawn. cbn [fst snd]. case_bool_decide; [destruct w; cbn; by rewrite app_nil_r|].
  change (routed (withdraw_installed (emitRoute w b old true) p) = routed b ++ option_list (if w && negb false then Some (RouteChange old true) else None)).
  rewrite routed_withdraw, routed_report. by destruct w.
Qed.

Lemma rib_route (b : RIB F) pr : rib (program_route w b pr) = rib b.
Proof.
  destruct pr as [p r]. unfold program_route. cbv zeta. set (b1 := if changed b p r then _ else b).
  assert (E : rib b1 = rib b) by (unfold b1; destruct (changed _ _ _); [by destruct w|done]). rewrite <- E.
  destruct (negb _); [exact (f_equal (fun x => x.1.1) (fixed_withdraw b1 p))|]. destruct (_ && _); [done|].
  unfold write_route. by destruct (Update _ _ _) as [f []].
Qed.

Lemma routed_routes xs (b : RIB F) :
  routed (fold_left (program_route w) xs b) = routed b ++ omap (announced w (rib b)) xs.
Proof.
  revert b. induction xs as [|pr xs IH]; intros b; cbn [fold_left omap list_omap]; [by rewrite app_nil_r|].
  rewrite IH, rib_route, routed_route, <- app_assoc. f_equal. by destruct (announced _ _ _).
Qed.

Lemma routed_gones next xs (b : RIB F) :
  routed (fold_left (program_gone w next) xs b) = routed b ++ omap (withdrawn w next) xs.
Proof.
  revert b. induction xs as [|pr xs IH]; intros b; cbn [fold_left omap list_omap]; [by rewrite app_nil_r|].
  rewrite IH, routed_gone, <- app_assoc. f_equal. by destruct (withdrawn _ _ _).
Qed.

Lemma routed_programFIB (b : RIB F) next :
  routed (programFIB w info_order b next) =
    routed b ++ omap (announced w (rib b)) (info_order 0%nat next) ++ omap (withdrawn w next) (info_order 1%nat (rib b)).
Proof.
  unfold programFIB. cbv zeta. rewrite routed_gones, routed_routes, <- app_assoc. do 2 f_equal.
  rewrite (fold_frame rib); [done|]. intros. apply rib_route.
Qed.
End Programming.

(** ** The new table from the events *)

(** Routes are kept under their own prefix. *)
Definition own_keys (m : view) : Prop := map_Forall (fun p r => RI_Prefix r = p) m.

Lemma replay_announced b xs v p :
  NoDup xs.*1 -> Forall (fun pr => RI_Prefix pr.2 = pr.1) xs ->
  replay (omap (announced true b) xs) v !! p =
    match (list_to_map xs : view) !! p with
    | Some r => if announced true b (p, r) then Some r else v !! p
    | None => v !! p
    end.
Proof.
  intros Hd Hk. revert v. induction xs as [|[q r] xs IH]; intros v; [done|]. cbn [fmap list_fmap fst] in Hd.
  apply NoDup_cons in Hd as [Hq Hd]. apply Forall_cons in Hk as [Eq Hk]. cbn [fst snd] in Eq. cbn [omap list_omap list_to_map fst snd foldr].
  assert (Hno : (list_to_map xs : view) !! q = None) by (by apply not_elem_of_list_to_map_1).
  destruct (announced true b (q, r)) as [ev|] eqn:Ea; [cbn [replay fold_left]; fold (replay (omap (announced true b) xs) (play v ev))|]; rewrite (IH Hd Hk).
  - assert (ev = RouteChange r false) as -> by (unfold announced in Ea; destruct (_ && _); [by injection Ea as <-|done]). cbn [play]. rewrite Eq.
    destruct (decide (p = q)) as [-> |Hne]; [|by rewrite !lookup_insert_ne].
    by rewrite Hno, !lookup_insert_eq, Ea.
  - destruct (decide (p = q)) as [-> |Hne]; [|by rewrite !lookup_insert_ne]. by rewrite Hno, lookup_insert_eq, Ea.
Qed.

Lemma replay_withdrawn next xs v p :
  Forall (fun pr => RI_Prefix pr.2 = pr.1) xs ->
  replay (omap (withdrawn true next) xs) v !! p =
    if bool_decide (p ∈ xs.*1) && negb (bool_decide (is_Some (next !! p))) then None else v !! p.
Proof.
  intros Hk. revert v. induction Hk as [|[q r] xs Eq Hk IH]; intros v; [done|]. cbn [fst snd] in Eq. cbn [omap list_omap fmap list_fmap fst].
  assert (Ein : bool_decide (p ∈ q :: xs.*1) = bool_decide (p = q) || bool_decide (p ∈ xs.*1)).
  { apply eq_true_iff_eq. rewrite orb_true_iff, !bool_decide_eq_true. apply elem_of_cons. }
  rewrite Ein. unfold withdrawn at 1. cbn [fst snd andb]. destruct (bool_decide (is_Some (next !! q))) eqn:En; cbn [negb].
  - rewrite IH. destruct (decide (p = q)) as [-> |Hne]; [|by rewrite (bool_decide_false (p = q))].
    by rewrite En, !andb_false_r.
  - cbn [replay fold_left]. fold (replay (omap (withdrawn true next) xs) (play v (RouteChange r true))). rewrite IH. cbn [play]. rewrite Eq.
    destruct (decide (p = q)) as [-> |Hne]; [rewrite (bool_decide_true (q = q)) by done; rewrite En, lookup_delete_eq; by destruct (bool_decide (q ∈ xs.*1))|].
    by rewrite (bool_decide_false (p = q)), lookup_delete_ne.
Qed.

(** Whoever sees the table as it was sees it as it is. *)
Lemma replay_programmed (order : nat -> view -> list (Prefix * RouteInfo)) (v b next : view) :
  (forall k m, order k m ≡ₚ map_to_list m) -> own_keys b -> own_keys next -> v ≡ b ->
  replay (omap (announced true b) (order 0%nat next) ++ omap (withdrawn true next) (order 1%nat b)) v ≡ next.
Proof.
  intros Ho Hb Hn Hv p. specialize (Hv p).
  assert (Hkeys : forall m k, own_keys m -> Forall (fun pr => RI_Prefix pr.2 = pr.1) (order k m)).
  { intros m k Hm. rewrite Ho. apply Forall_forall. intros [q r] Hq%elem_of_map_to_list. by apply Hm in Hq. }
  rewrite replay_app, replay_withdrawn by (by apply Hkeys).
  rewrite replay_announced; [|rewrite Ho; apply NoDup_fst_map_to_list|by apply Hkeys].
  assert (El : (list_to_map (order 0%nat next) : view) !! p = next !! p).
  { rewrite <- (list_to_map_to_list next) at 2. f_equal. apply list_to_map_proper; [rewrite Ho; apply NoDup_fst_map_to_list|apply Ho]. }
  rewrite El. assert (Ed : bool_decide (p ∈ (order 1%nat b).*1) = bool_decide (is_Some (b !! p))).
  { apply bool_decide_ext. rewrite Ho, list_elem_of_fmap. split.
    - intros ([q r] & -> & Hq%elem_of_map_to_list). by exists r.
    - intros [r Hr]. exists (p, r). split; [done|]. by apply elem_of_map_to_list. }
  rewrite Ed. clear Ed. destruct (next !! p) as [r|] eqn:En.
  - rewrite (bool_decide_true (is_Some (Some r))), andb_false_r by (by eexists). unfold announced. cbn [fst snd andb].
    destruct (b !! p) as [old|] eqn:Eb; [|done]. destruct (sameRoute old r) eqn:Es; cbn [negb]; [|done].
    rewrite Hv. by constructor.
  - rewrite (bool_decide_false (is_Some None)) by (by intros []). rewrite andb_true_r. case_bool_decide as Hs; [constructor|].
    rewrite Hv. apply eq_None_not_Some in Hs. by rewrite Hs.
Qed.

(** ** What a turn reports *)

Lemma omap_none {A B} (f : A -> option B) xs : (forall x, x ∈ xs -> f x = None) -> omap f xs = [].
Proof.
  intros Hf. induction xs as [|x xs IH]; [done|]. cbn [omap list_omap]. rewrite Hf by left. apply IH. intros y Hy. apply Hf. by right.
Qed.

Section Turns.
Context {F : Type} `{FIB F} {T : Type} `{TentativeSet T}.
Context (table : F -> gmap Prefix (list NextHopInfo)) `{!FIBLaws F table}.
Context (hmac : AuthAlgorithm -> bytes -> bytes -> bytes) (o : Oracle) (fair_o : fair o).

(** The table, and what has been reported of it. *)
Definition ledger (b : RIB F) : view * list Event := (rib b, routed b).

Lemma ledger_emit (b : RIB F) e : silent e -> ledger (rib_emit b e) = ledger b.
Proof using. intros He. unfold ledger. by rewrite routed_emit. Qed.

Lemma ledger_kept (n n' : Node F) : kept table n n' -> ledger (routing n') = ledger (routing n).
Proof using. intros []. unfold ledger. congruence. Qed.

(** The retry programs the table it has: no route has changed. *)
Lemma ledger_retry (n : Node F) : ledger (routing (retry_fib o n)) = ledger (routing n).
Proof using fair_o.
  unfold retry_fib. case_bool_decide; [done|]. cbn [set_routing routing]. unfold ledger. rewrite routed_programFIB.
  assert (Er : rib (programFIB (watched (core n)) (info_orders o) (routing n) (rib (routing n))) = rib (routing n)) by
    exact (f_equal (fun x => x.1.1) (fixed_programFIB _ _ _ _)).
  rewrite Er. f_equal.
  set (m := rib (routing n)). rewrite <- (app_nil_r (routed (routing n))) at 2. f_equal.
  rewrite (omap_none (announced _ _)), (omap_none (withdrawn _ _)); [done| |].
  - intros [p r] Hp. rewrite (fair_infos o fair_o), elem_of_map_to_list in Hp. unfold withdrawn. cbn [fst snd]. rewrite Hp.
    by rewrite (bool_decide_true (is_Some (Some r))), andb_false_r by (by eexists).
  - intros [p r] Hp. rewrite (fair_infos o fair_o), elem_of_map_to_list in Hp. unfold announced. cbn [fst snd]. rewrite Hp.
    assert (E : sameRoute r r = true) by (by change (r ≡ r)). rewrite E. by rewrite andb_false_r.
Qed.

Lemma ledger_setting op now (n n' : Node F) e : is_setting op = true -> perform hmac o op now n = Ok (n', e) -> ledger (routing n') = ledger (routing n).
Proof using FIBLaws0.
  intros Hop. destruct op; try done; cbn [perform];
    unfold AddLocator, DeleteLocator, AddFlexAlgo, DeleteFlexAlgo, AddPrefix, DeletePrefix, refuse, agree; cbv zeta;
    repeat case_match; intros [= <- <-]; try done.
  - exact (ledger_kept (set_locators n (locators (routing n) ++ [lc])) _ (kept_programSID table _ (end_localSID lc))).
  - match goal with |- context [delete ?i (locators (routing n))] =>
      exact (ledger_kept (set_locators n (delete i (locators (routing n)))) _ (kept_unprogramSID table _ _)) end.
Qed.

Lemma ledger_handle (x x' : Loop) a now : handle hmac o x a now = Ok x' -> ledger (routing (node x')) = ledger (routing (node x)).
Proof using FIBLaws0 fair_o.
  destruct a as [ev| | |op]; cbn [handle].
  - by intros (n & (s & _ & [= <-])%bind_Ok & [= <-])%bind_Ok.
  - intros (n & Hn & [= <-])%bind_Ok. refine (part_housekeeping table hmac o ledger ledger_kept _ now n _ Hn). apply ledger_retry.
  - by intros [= <-].
  - unfold operate. intros (n & ([n1 e] & Hp & [= ->])%bind_Ok & [= <-])%bind_Ok. destruct (is_setting op) eqn:Eop.
    + exact (ledger_setting op now _ _ e Eop Hp).
    + refine (part_other table hmac o ledger ledger_kept _ op now _ n e Eop Hp). done.
Qed.

Lemma ledger_level s now algos l x x' :
  level_turn (T := T) (spf_orders o) (done_orders o) (route_orders o) (fa_orders o) s now algos l x = Ok x' ->
  ledger (of_rib x') = ledger (of_rib x).
Proof using.
  unfold level_turn. destruct (dbs s !! l) as [db|]; [|by intros [= <-]]. generalize (flexAlgoState l (fa_orders o l db) now) as st.
  intros st. revert x. induction algos as [|a algos IH]; intros x; cbn [algo_loop]; [by intros [= <-]|].
  intros (x1 & H1 & H2)%bind_Ok. rewrite (IH x1 H2). clear IH H2. unfold algo_turn, compute_algo in H1.
  destruct (a =? 0); [by apply bind_Ok in H1 as (c & _ & [= <-])|]. destruct (algo_gate _) as [why|aff].
  - destruct (edge_warn _ _) as [w []]; injection H1 as <-; [exact (ledger_emit (set_algoWarned (of_rib x) w) (RibWarned why) I)|done].
  - by apply bind_Ok in H1 as (c & _ & [= <-]).
Qed.

Lemma next_keys s (b : RIB F) (m : gmap Prefix route) : own_keys (map_imap (next_route s b) m).
Proof using.
  intros p r. rewrite map_lookup_imap. destruct (m !! p) as [x|]; [|done]. cbn [mbind option_bind]. unfold next_route.
  destruct (bool_decide _); [done|]. cbv zeta. destruct (_ =? _)%nat; [done|]. by intros [= <-].
Qed.

(** The recomputation reports the difference of the two tables. *)
Lemma updateRIB_reports s (b : RIB F) now s' b' :
  updateRIB (T := T) (info_orders o) (spf_orders o) (done_orders o) (route_orders o) (fa_orders o) s b now = Ok (s', b') ->
  own_keys (rib b') /\
  routed b' = routed b ++ omap (announced (watched s) (rib b)) (info_orders o 0%nat (rib b')) ++
                          omap (withdrawn (watched s) (rib b')) (info_orders o 1%nat (rib b)).
Proof using.
  unfold updateRIB. cbv zeta. intros (x1 & H1 & (x & H2 & [= _ <-])%bind_Ok)%bind_Ok.
  apply ledger_level in H1, H2. cbn [of_rib] in H1. rewrite H1 in H2. clear H1 x1.
  match goal with |- context [fold_left (warn_unresolved s) ?xs ?y] => set (b1 := fold_left (warn_unresolved s) xs y) end.
  assert (E1 : ledger b1 = ledger b).
  { unfold b1. rewrite (fold_frame ledger); [exact H2|]. intros b0 [p r]. unfold warn_unresolved.
    destruct (unresolved _ _ _ _); [exact (ledger_emit b0 (RibWarned _) I)|done]. }
  pose proof (next_keys s b1 (merged x)) as Hn. set (next := map_imap (next_route s b1) (merged x)) in *.
  set (b2 := set_rib (programFIB (watched s) (info_orders o) b1 next) next).
  assert (E3 : ledger (report_counts s (routingAlgos b) next b2) = ledger b2).
  { unfold report_counts. apply (fold_frame ledger). intros b0 [l a]. exact (ledger_emit b0 (RouteCount _ _ _) I). }
  set (b3 := report_counts _ _ next b2) in *. clearbody b3. injection E1 as R1 T1.
  match goal with |- context [rib_emit (rib_emit ?b4 ?e1) ?e2] =>
    assert (E5 : ledger (rib_emit (rib_emit b4 e1) e2) = ledger b2);
      [rewrite (ledger_emit (rib_emit b4 e1) e2 I), (ledger_emit b4 e1 I); exact E3|set (b5 := rib_emit (rib_emit b4 e1) e2) in *] end.
  clearbody b5. injection E5 as R5 T5. change (rib b2) with next in R5. rewrite R5, T5. split; [exact Hn|].
  change (routed (programFIB (watched s) (info_orders o) b1 next) = routed b ++ omap (announced (watched s) (rib b)) (info_orders o 0%nat next) ++
    omap (withdrawn (watched s) next) (info_orders o 1%nat (rib b))).
  by rewrite routed_programFIB, R1, T1.
Qed.

(** What comes before the recomputation leaves the table; what follows it is
    played over any view of the table. *)
Record reports (w : bool) (n n' : Node F) : Prop := {
  rep_keys : own_keys (rib (routing n'));
  rep_events : exists evs, routed (routing n') = routed (routing n) ++ evs /\
    (w = true -> forall v, v ≡ rib (routing n) -> replay evs v ≡ rib (routing n'))
}.

Lemma settle_reports (x x' : Loop) t :
  own_keys (rib (routing (node x))) -> settle (T := T) hmac o x t = Ok x' -> reports (watched (core (node x))) (node x) (node x').
Proof using FIBLaws0 fair_o.
  intros Hk. unfold settle. intros (n & Hd & Hr)%bind_Ok. pose proof (resting_watching _ _ (rests_drain hmac o _ _ n Hd)) as Hw.
  apply (part_drain table hmac o ledger ledger_kept) in Hd. injection Hd as R1 T1. unfold recompute in Hr. cbn [node] in Hr.
  destruct (_ && _) in Hr; [|injection Hr as <-; cbn [node]; split; [by rewrite R1|]; exists []; rewrite T1, R1, app_nil_r; split; [done|by intros _ v]].
  apply bind_Ok in Hr as ([s b] & Hu & [= <-]). cbn [node set_routing routing].
  apply updateRIB_reports in Hu as [Hn Ht]. cbn [set_gen watched] in Ht. change (watched (core n)) with (watching n) in Ht. rewrite Hw in Ht.
  split; [exact Hn|]. change (routing (set_routing (set_core n s) b)) with b. eexists. split; [rewrite Ht, T1; reflexivity|]. intros Ew v Hv. unfold watching in Ht |- *. rewrite Ew, R1.
  apply replay_programmed; [intros; apply (fair_infos o fair_o)|done|done|done].
Qed.

Lemma turn_reports (x x' : Loop) a t :
  own_keys (rib (routing (node x))) -> turn (T := T) hmac o x a t = Ok x' -> reports (watched (core (node x))) (node x) (node x').
Proof using FIBLaws0 fair_o.
  intros Hk. unfold turn. intros (x1 & Hh & Hs)%bind_Ok. pose proof (rests_handle hmac o _ _ _ _ x1 eq_refl Hh) as Hw.
  apply ledger_handle in Hh. injection Hh as R1 T1. apply settle_reports in Hs as [Hn (evs & Ht & Hp)]; [|by rewrite R1].
  split; [exact Hn|]. exists evs. split; [congruence|]. intros Ew v. rewrite <- R1. apply Hp. unfold watching in Hw. congruence.
Qed.
End Turns.
