(* ===== verification/WatchHub.v ===== *)
(** The subscribers of the loop: none has a gap.  What a live subscription began
    with, what its subscriber has taken and what waits in its channel, played in
    that order, is the routing table; a subscription whose channel was full when
    something was reported is closed, and says so; and a server that stops closes
    them all. *)

From stdpp Require Import sorting strings.
From S2P Require Import Prelude.
From S2P Require Import Netip.
From S2P Require Import Ids.
From S2P Require Import Auth.
From S2P Require Import Circuit.
From S2P Require Import Restart.
From S2P Require Import Server.
From S2P Require Import FlexAlgo.
From S2P Require Import Tent.
From S2P Require Import Topology.
From S2P Require Import Spf.
From S2P Require Import Rib.
From S2P Require Import EndX.
From S2P Require Import NodeLsp.
From S2P Require Import Loop.
From S2P Require Import Mutate.
From S2P Require Import Serve.
From S2P Require Import Query.
From S2P Require Import Watch.
From S2P Require Import RibSpec.
From S2P Require Import RibSelect.
From S2P Require Import ServeSpec.
From S2P Require Import WatchSpec.
Local Open Scope Z_scope.

(** ** The subscriptions *)

(** All that a subscription has been told. *)
Definition told (rec : gmap nat (list Event)) (k : nat) (w : Subscription) : list Event :=
  Initial w ++ default [] (rec !! k) ++ ch w.

Definition taken (rec : gmap nat (list Event)) (k : nat) (w : Subscription) : nat := length (default [] (rec !! k) ++ ch w).

Section Subscriptions.
(** The subscriptions that someone has ended, and those whose channel was full when
    an event was reported. *)
Context (gone full : nat -> Prop).

(** [goal k]: the table as the subscription [k] should know it. *)
Record hub_ok (goal : nat -> view) (h : Hub) (rec : gmap nat (list Event)) : Prop := {
  hub_live k w : subs h !! k = Some w -> closed w = negb (bool_decide (k ∈ watchers h));
  hub_known k : k ∈ watchers h -> is_Some (subs h !! k);
  hub_bound k w : subs h !! k = Some w -> (length (ch w) <= watcherBuffer)%nat;
  hub_lagged k w : subs h !! k = Some w -> lagged w = true -> closed w = true /\ full k /\ (watcherBuffer <= taken rec k w)%nat;
  hub_ended k w : subs h !! k = Some w -> closed w = true -> lagged w = true \/ gone k;
  hub_fresh k : (drawn h <= k)%nat -> subs h !! k = None /\ rec !! k = None;
  hub_view k w : k ∈ watchers h -> subs h !! k = Some w -> replay (told rec k w) ∅ ≡ goal k
}.

Lemma hub_goal goal goal' h rec : (forall k, k ∈ watchers h -> goal k ≡ goal' k) -> hub_ok goal h rec -> hub_ok goal' h rec.
Proof using. intros Hg [H1 H2 H3 H4 H5 H6 H7]. split; try done. intros k w Hk Hw. rewrite <- Hg by done. by apply H7. Qed.

(** A subscription [k] replaced by [w'], of the live set [ws]. *)
Lemma hub_put goal h rec rec' k w w' ws v :
  hub_ok goal h rec -> subs h !! k = Some w -> (forall j, j <> k -> rec' !! j = rec !! j) -> (forall j, j <> k -> j ∈ ws <-> j ∈ watchers h) ->
  closed w' = negb (bool_decide (k ∈ ws)) -> (length (ch w') <= watcherBuffer)%nat ->
  (lagged w' = true -> closed w' = true /\ full k /\ (watcherBuffer <= taken rec' k w')%nat) -> (closed w' = true -> lagged w' = true \/ gone k) ->
  (k ∈ ws -> replay (told rec' k w') ∅ ≡ v) ->
  hub_ok (fun j => if decide (j = k) then v else goal j) (mkHub (<[k := w']> (subs h)) ws (drawn h)) rec'.
Proof using.
  intros [H1 H2 H3 H4 H5 H6 H7] Hw Hr Hws Ec Hl Hg He Hv.
  assert (Hcase : forall j x (P : Subscription -> Prop), (j = k -> P w') -> (j <> k -> subs h !! j = Some x -> P x) ->
    <[k := w']> (subs h) !! j = Some x -> P x).
  { intros j x P Pk Pj. destruct (decide (j = k)) as [-> |Hne]; [rewrite lookup_insert_eq; intros [= <-]; by apply Pk|].
    rewrite lookup_insert_ne by done. by apply Pj. }
  split; cbn [subs watchers drawn].
  - intros j x. apply (Hcase j x (fun x => closed x = negb (bool_decide (j ∈ ws)))); [by intros ->|]. intros Hne Hx. rewrite (H1 j x Hx). f_equal. apply bool_decide_ext. by rewrite Hws.
  - intros j Hj. destruct (decide (j = k)) as [-> |Hne]; [rewrite lookup_insert_eq; by eexists|]. rewrite lookup_insert_ne by done. apply H2. by apply Hws.
  - intros j x. apply (Hcase j x (fun x => (length (ch x) <= watcherBuffer)%nat)); [done|]. intros _. apply H3.
  - intros j x. apply (Hcase j x (fun x => lagged x = true -> closed x = true /\ full j /\ (watcherBuffer <= taken rec' j x)%nat)); [by intros ->|].
    intros Hne Hx. unfold taken. rewrite Hr by done. by apply H4.
  - intros j x. apply (Hcase j x (fun x => closed x = true -> lagged x = true \/ gone j)); [by intros ->|]. intros _. apply H5.
  - intros j Hj. destruct (H6 j Hj) as [Hn Hn']. assert (j <> k) by congruence. by rewrite lookup_insert_ne, Hr.
  - intros j x Hj. apply (Hcase j x (fun x => replay (told rec' j x) ∅ ≡ if decide (j = k) then v else goal j)).
    + intros ->. rewrite decide_True by done. by apply Hv.
    + intros Hne Hx. rewrite decide_False by done. unfold told. rewrite Hr by done. apply H7; [by apply Hws|done].
Qed.

Lemma hub_same goal h rec k : hub_ok (fun j => if decide (j = k) then goal k else goal j) h rec -> hub_ok goal h rec.
Proof using. apply hub_goal. intros j _. cbv beta. case_decide as E; [by subst|done]. Qed.

(** The channel of [k] is open and full. *)
Definition brims (h : Hub) (k : nat) : Prop := exists w, subs h !! k = Some w /\ closed w = false /\ length (ch w) = watcherBuffer.

Lemma hub_drop goal h rec k (lag : bool) :
  (if lag then brims h k -> full k else gone k) -> (lag = true -> forall w, subs h !! k = Some w -> (watcherBuffer <= length (ch w))%nat) ->
  hub_ok goal h rec -> hub_ok goal (dropWatcher h k lag) rec.
Proof using.
  intros Hlag Hlen Hh. unfold dropWatcher. destruct (subs h !! k) as [w|] eqn:Ew; [|done]. destruct (closed w) eqn:Ec; [done|].
  assert (Eg : lagged w = false) by (apply not_true_is_false; intros [? _]%(hub_lagged _ _ _ Hh k w Ew); congruence).
  apply (hub_same goal _ rec k), (hub_put goal h rec rec k w _ _ (goal k) Hh Ew); cbn [ch closed lagged]; rewrite ?Eg; try done.
  - set_solver.
  - rewrite bool_decide_false; [done|set_solver].
  - by apply (hub_bound _ _ _ Hh k w).
  - cbn [orb]. intros ->. specialize (Hlen eq_refl w eq_refl). pose proof (hub_bound _ _ _ Hh k w Ew). split_and!; [done| |].
    + apply Hlag. exists w. split_and!; [done..|lia].
    + unfold taken. cbn [ch]. rewrite length_app. lia.
  - cbn [orb]. destruct lag; [by left|by right].
  - set_solver.
Qed.

Lemma watchers_drop goal h rec k lag : hub_ok goal h rec -> watchers (dropWatcher h k lag) = watchers h ∖ {[ k ]}.
Proof using.
  intros Hh. unfold dropWatcher. destruct (subs h !! k) as [w|] eqn:Ew; [destruct (closed w) eqn:Ec; [|done]|].
  - rewrite (hub_live _ _ _ Hh k w Ew), negb_true_iff, bool_decide_eq_false in Ec. set_solver.
  - assert (k ∉ watchers h) by (intros [x Hx]%(hub_known _ _ _ Hh); congruence). set_solver.
Qed.

Lemma watchers_emit_to ev h k : watchers (emit_to ev h k) ⊆ watchers h.
Proof using. unfold emit_to, dropWatcher. destruct (subs h !! k) as [w|] eqn:E; [|done]. destruct (_ <? _)%nat; [done|]. destruct (closed w); [done|]. cbn. set_solver. Qed.

(** One subscriber is told of an event, or dropped. *)
Lemma hub_emit_to goal ev h rec k :
  (brims h k -> full k) -> hub_ok goal h rec -> hub_ok (fun j => if decide (j = k) then play (goal k) ev else goal j) (emit_to ev h k) rec.
Proof using.
  intros Hfull Hh. unfold emit_to. destruct (subs h !! k) as [w|] eqn:Ew.
  - destruct (length (ch w) <? watcherBuffer)%nat eqn:El.
    + apply (hub_put goal h rec rec k w); cbn [ch closed lagged]; try done.
      * by apply (hub_live _ _ _ Hh).
      * rewrite length_app. cbn. apply Nat.ltb_lt in El. lia.
      * intros Hg. destruct (hub_lagged _ _ _ Hh k w Ew Hg) as (Hc & Hf & Ht). split_and!; [done..|]. unfold taken in *. cbn [ch]. rewrite !length_app in *. lia.
      * by apply (hub_ended _ _ _ Hh).
      * intros Hk. pose proof (hub_view _ _ _ Hh k w Hk Ew) as Hv. unfold told in *. cbn [Initial ch].
        assert (Ea : forall a b : list Event, a ++ b ++ ch w ++ [ev] = (a ++ b ++ ch w) ++ [ev]) by (intros; by rewrite <- !app_assoc).
        by rewrite Ea, replay_app, Hv.
    + apply (hub_goal goal); [|apply hub_drop; [done| |done]; intros _ x Hx; apply Nat.ltb_ge in El; congruence].
      intros j Hj. case_decide as E; [|done]. subst j. exfalso. revert Hj.
      unfold dropWatcher. rewrite Ew. destruct (closed w) eqn:Ec; [|cbn; set_solver].
      rewrite (hub_live _ _ _ Hh k w Ew) in Ec. intros Hj. by rewrite bool_decide_true in Ec.
  - apply (hub_goal goal); [|done]. intros j Hj. case_decide as E; [|done]. subst j. destruct (hub_known _ _ _ Hh k Hj) as [w Hw]. congruence.
Qed.

Lemma brims_emit_to ev h k j : j <> k -> brims (emit_to ev h k) j -> brims h j.
Proof using.
  intros Hj. unfold brims, emit_to, dropWatcher. by repeat (case_match; cbn [subs]; rewrite ?lookup_insert_ne by done).
Qed.

Lemma hub_emit_all ev ks goal h rec :
  NoDup ks -> (forall k, k ∈ ks -> brims h k -> full k) -> hub_ok goal h rec ->
  hub_ok (fun j => if decide (j ∈ ks) then play (goal j) ev else goal j) (fold_left (emit_to ev) ks h) rec /\
  watchers (fold_left (emit_to ev) ks h) ⊆ watchers h.
Proof using.
  intros Hd. revert goal h. induction Hd as [|k ks Hk Hd IH]; intros goal h Hf Hh; cbn [fold_left]; [by split|].
  destruct (fun P => IH _ (emit_to ev h k) P (hub_emit_to goal ev h rec k (Hf k ltac:(left)) Hh)) as [Ho Hs].
  { intros j Hj Hb. apply Hf; [by right|]. apply (brims_emit_to ev h k); [by intros ->|done]. }
  split; [|etransitivity; [exact Hs|apply watchers_emit_to]].
  eapply hub_goal; [|exact Ho]. intros j _. cbv beta. destruct (decide (j ∈ ks)) as [Hj|Hj].
  - rewrite (decide_False (P := j = k)) by (by intros ->). by rewrite decide_True by (by right).
  - destruct (decide (j = k)) as [-> |Hne]; [by rewrite decide_True by left|]. rewrite decide_False; [done|]. by intros [?|?]%elem_of_cons.
Qed.

Context (watcher_order : gset nat -> list nat) (fair_watchers : forall X, watcher_order X ≡ₚ elements X).

Lemma hub_emit ev v h rec : (forall k, brims h k -> full k) -> hub_ok (fun _ => v) h rec -> hub_ok (fun _ => play v ev) (emit_event watcher_order h ev) rec.
Proof using fair_watchers.
  intros Hf Hh. unfold emit_event. assert (Hd : NoDup (watcher_order (watchers h))) by (rewrite fair_watchers; apply NoDup_elements).
  destruct (hub_emit_all ev _ _ h rec Hd (fun k _ => Hf k) Hh) as [Ho Hs]. eapply hub_goal; [|exact Ho]. intros k Hk%Hs. cbv beta.
  rewrite decide_True; [done|]. rewrite fair_watchers. by apply elem_of_elements.
Qed.

(** Closing them all leaves none. *)
Lemma hub_close goal h rec :
  (forall k, gone k) -> hub_ok goal h rec ->
  hub_ok goal (closeWatchers watcher_order h) rec /\ watchers (closeWatchers watcher_order h) = ∅.
Proof using fair_watchers.
  intros Hg Hh. unfold closeWatchers.
  assert (Hks : forall ks h, hub_ok goal h rec -> let h' := fold_left (fun h k => dropWatcher h k false) ks h in
    hub_ok goal h' rec /\ watchers h' = watchers h ∖ list_to_set ks).
  { intros ks. induction ks as [|k ks IH]; intros h1 H1; cbn [fold_left]; [split; [done|set_solver]|].
    destruct (IH (dropWatcher h1 k false)) as [Ho Hw]; [by apply hub_drop|]. split; [done|]. cbv zeta in Hw.
    rewrite Hw, (watchers_drop goal h1 rec k false H1). set_solver. }
  destruct (Hks (watcher_order (watchers h)) h Hh) as [Ho Hw]. split; [done|]. cbv zeta in Hw. rewrite Hw.
  apply elem_of_equiv_empty_L. intros k [Hk Hn]%elem_of_difference. apply Hn. rewrite elem_of_list_to_set, fair_watchers. by apply elem_of_elements.
Qed.

Context {F : Type} `{FIB F} {T : Type} `{TentativeSet T}.
Implicit Types y : System (F := F).

Definition sys_ok (v : view) y : Prop := hub_ok (fun _ => v) (hub y) (received y).

Lemma sys_receive v y k : sys_ok v y -> sys_ok v (receive y k).
Proof using.
  unfold sys_ok, receive. intros Hh. destruct (subs (hub y) !! k) as [w|] eqn:Ew; [|done]. destruct (ch w) as [|ev rest] eqn:Ec; [done|]. cbn [hub received].
  pose proof (hub_bound _ _ _ Hh k w Ew) as Hb. rewrite Ec in Hb. cbn in Hb.
  assert (Et : taken (<[k := default [] (received y !! k) ++ [ev]]> (received y)) k (mkSubscription (Initial w) rest (closed w) (lagged w)) = taken (received y) k w).
  { unfold taken. cbn [ch]. rewrite Ec, lookup_insert_eq. cbn [from_option id]. by rewrite <- app_assoc. }
  apply (hub_same _ _ _ k), (hub_put _ _ _ _ k w _ _ v Hh Ew); cbn [ch closed lagged]; rewrite ?Et; try done.
  - intros j Hj. by rewrite lookup_insert_ne.
  - by apply (hub_live _ _ _ Hh).
  - lia.
  - by apply (hub_lagged _ _ _ Hh).
  - by apply (hub_ended _ _ _ Hh).
  - intros Hk. pose proof (hub_view _ _ _ Hh k w Hk Ew) as Hv. unfold told in *. cbn [Initial ch]. rewrite Ec in Hv.
    rewrite lookup_insert_eq. cbn [from_option id]. by rewrite <- (app_assoc (default [] (received y !! k))).
Qed.

Lemma sys_receives v y ks : sys_ok v y -> sys_ok v (fold_left receive ks y).
Proof using. revert y. induction ks as [|k ks IH]; intros y Hy; [done|]. apply IH. by apply sys_receive. Qed.

Lemma loop_receives y ks : loop (fold_left receive ks y) = loop y.
Proof using.
  revert y. induction ks as [|k ks IH]; intros y; [done|]. cbn [fold_left]. rewrite IH. unfold receive. by repeat case_match.
Qed.

Lemma watchers_receives y ks : watchers (hub (fold_left receive ks y)) = watchers (hub y).
Proof using.
  revert y. induction ks as [|k ks IH]; intros y; [done|]. cbn [fold_left]. rewrite IH. unfold receive. by repeat case_match.
Qed.

Lemma stopped_receives y ks : stopped (fold_left receive ks y) = stopped y.
Proof using.
  revert y. induction ks as [|k ks IH]; intros y; [done|]. cbn [fold_left]. rewrite IH. unfold receive. by repeat case_match.
Qed.

Lemma watchers_emit ev h : watchers (emit_event watcher_order h ev) ⊆ watchers h.
Proof using.
  unfold emit_event. generalize (watcher_order (watchers h)) as ks. intros ks. revert h. induction ks as [|k ks IH]; intros h; [done|].
  cbn [fold_left]. etransitivity; [apply IH|apply watchers_emit_to].
Qed.

(** While [kevs] are reported from [y], one is when the channel of [k] is open and
    full. *)
Definition brimmed takes (kevs : list (nat * Event)) y (k : nat) : Prop :=
  exists before kev after, kevs = before ++ kev :: after /\
    brims (hub (fold_left receive (takes kev.1) (fold_left (report watcher_order takes) before y))) k.

Lemma sys_reports takes kevs v y :
  (forall k, brimmed takes kevs y k -> full k) -> sys_ok v y -> let y' := fold_left (report watcher_order takes) kevs y in
  sys_ok (replay kevs.*2 v) y' /\ loop y' = loop y /\ stopped y' = stopped y /\ watchers (hub y') ⊆ watchers (hub y).
Proof using fair_watchers.
  revert v y. induction kevs as [|[i ev] kevs IH]; intros v y Hf Hy; [done|]. cbn [fmap list_fmap snd fold_left replay].
  set (y1 := report watcher_order takes y (i, ev)).
  assert (Hy1 : sys_ok (play v ev) y1).
  { apply hub_emit; [|by apply sys_receives]. intros k Hk. apply Hf. by exists [], (i, ev), kevs. }
  destruct (fun P => IH _ y1 P Hy1) as (Ho & Hl & Hs & Hw).
  { intros k (before & kev & after & -> & Hk). apply Hf. by exists ((i, ev) :: before), kev, after. }
  split; [exact Ho|]. split; [rewrite Hl; apply loop_receives|]. split; [rewrite Hs; apply stopped_receives|].
  etransitivity; [exact Hw|]. etransitivity; [apply watchers_emit|]. by rewrite watchers_receives.
Qed.

Lemma replay_adjacencies l v : Forall (fun ev => exists i, ev = AdjacencyChange i) l -> replay l v = v.
Proof using. induction 1 as [|ev l [i ->] _ IH]; [done|]. exact IH. Qed.

Lemma adjacencies_only es : Forall (fun ev => exists i, ev = AdjacencyChange i) (adjacency_events es).
Proof using. induction es as [|[] es IH]; cbn; [done|..]; try exact IH. constructor; [by eexists|exact IH]. Qed.

(** What the loop reports while it takes something up. *)
Definition tidings y (x' : Loop (F := F)) : list (nat * Event) := imap pair (reported (node (loop y)) (node x')).
Definition untold y (x' : Loop (F := F)) : System (F := F) := mkSystem x' (hub y) (received y) (stopped y).

Lemma tidings_events y x' : (tidings y x').*2 = reported (node (loop y)) (node x').
Proof using.
  unfold tidings. generalize (reported (node (loop y)) (node x')) as evs. intros evs.
  rewrite fmap_imap. rewrite (imap_ext _ (const id)) by done. by rewrite imap_const, list_fmap_id.
Qed.

Lemma deliver_ok takes (x' : Loop (F := F)) y w :
  reports w (node (loop y)) (node x') -> (w = false -> watchers (hub y) = ∅) ->
  (forall k, brimmed takes (tidings y x') (untold y x') k -> full k) ->
  sys_ok (rib (routing (node (loop y)))) y -> let y' := deliver watcher_order takes y x' in
  sys_ok (rib (routing (node x'))) y' /\ loop y' = x' /\ stopped y' = stopped y.
Proof using fair_watchers.
  intros [Hk (evs & Ht & Hp)] Hw Hf Hy. unfold deliver.
  destruct (sys_reports takes (tidings y x') _ (untold y x') Hf Hy) as (Ho & Hl & Hst & Hs).
  split; [|by split]. rewrite tidings_events in Ho. assert (Er : forall v, replay (reported (node (loop y)) (node x')) v = replay evs v).
  { intros v. unfold reported, since. rewrite replay_app, (replay_adjacencies (drop _ (adjacency_events _))) by (apply Forall_drop; apply adjacencies_only).
    fold (routed (routing (node (loop y)))) (routed (routing (node x'))). by rewrite Ht, drop_app_length. }
  rewrite Er in Ho.
  eapply hub_goal; [|exact Ho]. intros k Hkw. cbv beta. destruct w; [by apply Hp|]. specialize (Hw eq_refl). set_solver.
Qed.
End Subscriptions.

(** ** Snapshots *)

Lemma replay_snapshot (m : view) (rs : list RouteInfo) :
  own_keys m -> rs ≡ₚ (map_to_list m).*2 -> replay (map (fun r => RouteChange r false) rs) ∅ = m.
Proof.
  intros Hm Hrs. set (xs := (fun r => (RI_Prefix r, r)) <$> rs).
  assert (Hxs : xs ≡ₚ map_to_list m).
  { unfold xs. rewrite Hrs, <- list_fmap_compose. assert (E : ((fun r => (RI_Prefix r, r)) ∘ snd) <$> map_to_list m = map_to_list m); [|by rewrite E].
    rewrite <- (list_fmap_id (map_to_list m)) at 2. apply list_fmap_ext.
    intros i [p r] Hp. cbn. apply list_elem_of_lookup_2, elem_of_map_to_list in Hp. by rewrite (Hm p r Hp). }
  assert (Ee : map (fun r => RouteChange r false) rs = omap (announced true ∅) xs).
  { unfold xs. clear Hxs Hrs. induction rs as [|r rs IH]; [done|]. cbn. by rewrite IH. }
  rewrite Ee. apply map_eq. intros p. rewrite replay_announced.
  - assert (El : (list_to_map xs : view) = m).
    { rewrite <- (list_to_map_to_list m). apply list_to_map_proper; [rewrite Hxs; apply NoDup_fst_map_to_list|done]. }
    rewrite El. destruct (m !! p) as [r|]; [done|]. apply lookup_empty.
  - rewrite Hxs. apply NoDup_fst_map_to_list.
  - unfold xs. apply Forall_fmap, Forall_true. done.
Qed.

Lemma initial_view (m : view) adjs rs : own_keys m -> rs ≡ₚ (map_to_list m).*2 -> replay (initialEvents adjs rs) ∅ = m.
Proof.
  intros Hm Hrs. unfold initialEvents. rewrite replay_app, (replay_adjacencies (map AdjacencyChange _)).
  - apply replay_snapshot; [done|]. by rewrite merge_sort_Permutation.
  - apply Forall_map, Forall_true. by eexists.
Qed.

(** ** The arms *)

Section Arms.
Context {F : Type} `{FIB F} {T : Type} `{TentativeSet T}.
Context (table : F -> gmap Prefix (list NextHopInfo)) `{!FIBLaws F table}.
Context (hmac : AuthAlgorithm -> bytes -> bytes -> bytes).
Context (watcher_order : gset nat -> list nat) (fair_watchers : forall X, watcher_order X ≡ₚ elements X).
Context (gone full : nat -> Prop).
Implicit Types y : System (F := F).

Definition event_ok (c : loop_event) : Prop :=
  match c with
  | Turning o _ _ => fair o
  | Subscribing o _ g => fair o /\ forall m, rib_visits g m ≡ₚ map_to_list m
  | Unsubscribing o _ k => fair o /\ gone k
  | Stopping o _ => forall k, gone k
  end.
Definition act_ok (c : act) : Prop := match c with Looping c _ => event_ok c | Receiving _ => True end.

Record system_ok y : Prop := {
  sys_keys : own_keys (rib (routing (node (loop y))));
  sys_hub : sys_ok gone full (rib (routing (node (loop y)))) y;
  sys_stopped : stopped y = true -> watchers (hub y) = ∅
}.

Lemma unwatched (x : Loop (F := F)) h : watched (core (node (with_watch x h))) = false -> watchers h = ∅.
Proof using.
  cbn. unfold watched_by. intros E%negb_false_iff%Nat.eqb_eq. by apply leibniz_equiv, size_empty_iff.
Qed.

(** What follows the event of an arm, once the subscriptions are as it leaves
    them. *)
Lemma after_ok takes (x x' : Loop) h rec :
  let y := mkSystem (with_watch x h) h rec false in
  reports (watched (core (node (loop y)))) (node (loop y)) (node x') ->
  (forall k, brimmed watcher_order takes (tidings y x') (untold y x') k -> full k) ->
  hub_ok gone full (fun _ => rib (routing (node x))) h rec -> system_ok (deliver watcher_order takes y x').
Proof using fair_watchers.
  intros y Hr Hf Hh. destruct (deliver_ok gone full watcher_order fair_watchers takes x' y _ Hr (unwatched x h) Hf Hh) as (Ho & Hl & Hs).
  split; [rewrite Hl; apply (rep_keys _ _ _ Hr)|by rewrite Hl|by rewrite Hs].
Qed.

(** [shutdown] leaves the routes. *)
Lemma shutdown_reports o (n n' : Node F) now w : own_keys (rib (routing n)) -> shutdown hmac o n now = Ok n' -> reports w n n'.
Proof using FIBLaws0.
  intros Hk. unfold shutdown. intros (n1 & K1%(on_core_kept table) & (n2 & K2%(on_core_kept table) & [= <-])%bind_Ok)%bind_Ok.
  assert (E : ledger (routing (removeLocalSIDs (sid_orders o) n2)) = ledger (routing n)).
  { rewrite <- (ledger_kept table _ _ K1), <- (ledger_kept table _ _ K2). apply (ledger_kept table).
    unfold removeLocalSIDs. apply kept_fold. intros. by apply kept_unprogramSID. }
  injection E as R1 T1. split; cbn [set_core routing]; rewrite R1; [done|]. exists []. rewrite T1, app_nil_r. by split; [|intros _ v].
Qed.

Lemma Subscribe_ok (n : Node F) h rec g now :
  own_keys (rib (routing n)) -> (forall m, rib_visits g m ≡ₚ map_to_list m) -> hub_ok gone full (fun _ => rib (routing n)) h rec ->
  hub_ok gone full (fun _ => rib (routing n)) (Subscribe n h g now) rec.
Proof using.
  clear fair_watchers watcher_order FIBLaws0 table. intros Hk Ho [H1 H2 H3 H4 H5 H6 H7]. unfold Subscribe, snapshotState, ListRoutes. set (w := mkSubscription _ _ _ _). destruct (H6 (drawn h)) as [Hn Hr]; [done|].
  assert (Hd : drawn h ∉ watchers h) by (intros [x Hx]%H2; congruence).
  split; cbn [subs watchers drawn].
  - intros k x. rewrite lookup_insert_Some. intros [[<- <-]|[Hne Hx]]; [by rewrite bool_decide_true by set_solver|].
    rewrite (H1 k x Hx). f_equal. apply bool_decide_ext. set_solver.
  - intros k [->%elem_of_singleton|Hk']%elem_of_union; [rewrite lookup_insert_eq; by eexists|]. rewrite lookup_insert_ne by congruence. by apply H2.
  - intros k x. rewrite lookup_insert_Some. intros [[<- <-]|[Hne Hx]]; [cbn; lia|by apply (H3 k)].
  - intros k x. rewrite lookup_insert_Some. intros [[<- <-]|[Hne Hx]]; [done|by apply H4].
  - intros k x. rewrite lookup_insert_Some. intros [[<- <-]|[Hne Hx]]; [done|by apply H5].
  - intros k Hk'. rewrite lookup_insert_ne by lia. apply H6. lia.
  - intros k x Hk'. rewrite lookup_insert_Some. intros [[<- <-]|[Hne Hx]]; [|apply H7; [set_solver|done]].
    unfold told. cbn [w Initial ch]. rewrite Hr, !app_nil_r. by rewrite (initial_view (rib (routing n))) by (done || by rewrite Ho).
Qed.

(** What one step lets through. *)
Definition brims_in y (c : act) (k : nat) : Prop :=
  match c with
  | Looping c takes => stopped y = false /\ exists z x, take_up (T := T) hmac y c = Ok (z, x) /\ brimmed watcher_order takes (tidings z x) (untold z x) k
  | Receiving _ => False
  end.

Lemma take_up_ok y c z x takes :
  event_ok c -> system_ok y -> stopped y = false -> take_up (T := T) hmac y c = Ok (z, x) ->
  (forall k, brimmed watcher_order takes (tidings z x) (untold z x) k -> full k) ->
  system_ok (deliver watcher_order takes z x).
Proof using fair_watchers FIBLaws0.
  intros Hc [Hk Hy _] Es. destruct c as [o a t|o t g|o t k|o t]; cbn [take_up event_ok] in *; cbv zeta; rewrite Es.
  - intros (x1 & Hx & [= <- <-])%bind_Ok Hf. apply after_ok; [|exact Hf|exact Hy].
    exact (turn_reports table hmac o Hc (with_watch (loop y) (hub y)) x1 a t Hk Hx).
  - destruct Hc as [Ho Hr]. intros (x1 & Hx & [= <- <-])%bind_Ok Hf. apply after_ok; [|exact Hf|by apply Subscribe_ok].
    exact (settle_reports table hmac o Ho (with_watch (loop y) _) x1 t Hk Hx).
  - destruct Hc as [Ho Hg]. intros (x1 & Hx & [= <- <-])%bind_Ok Hf. apply after_ok; [|exact Hf|by apply hub_drop].
    exact (settle_reports table hmac o Ho (with_watch (loop y) _) x1 t Hk Hx).
  - intros (n & Hn & [= <- <-])%bind_Ok Hf. apply after_ok; [|exact Hf|exact Hy]. eapply shutdown_reports; [exact Hk|exact Hn].
Qed.

Lemma proceed_ok y c y' :
  act_ok c -> (forall k, brims_in y c k -> full k) -> system_ok y -> proceed (T := T) hmac watcher_order y c = Ok y' -> system_ok y'.
Proof using fair_watchers FIBLaws0.
  intros Hc Hf Hy. destruct c as [c takes|k]; cbn [proceed act_ok brims_in] in *.
  - destruct (stopped y) eqn:Es; [by intros [= <-]|]. intros ([z x] & Hx & [= <-])%bind_Ok.
    assert (Hd : system_ok (deliver watcher_order takes z x)).
    { eapply take_up_ok; [done..|]. intros k Hk. apply Hf. split; [done|]. by exists z, x. }
    destruct c as [| | |o t]; [exact Hd..|]. destruct Hd as [H1 H2 _]. cbn [stop_after].
    destruct (hub_close gone full watcher_order fair_watchers _ _ _ Hc H2) as [Ho Hw]. by split.
  - intros [= <-]. assert (El : loop (receive y k) = loop y) by (unfold receive; by repeat case_match).
    destruct Hy as [H1 H2 H3]. split; rewrite ?El; [done|by apply sys_receive|].
    unfold receive. repeat case_match; done.
Qed.

(** A run lets it through. *)
Inductive overrun : System (F := F) -> list act -> nat -> Prop :=
  | overrun_now y c acts k : brims_in y c k -> overrun y (c :: acts) k
  | overrun_later y c y' acts k : proceed (T := T) hmac watcher_order y c = Ok y' -> overrun y' acts k -> overrun y (c :: acts) k.

Lemma proceed_all_ok y acts y' :
  Forall act_ok acts -> (forall k, overrun y acts k -> full k) -> system_ok y ->
  proceed_all (T := T) hmac watcher_order y acts = Ok y' -> system_ok y'.
Proof using fair_watchers FIBLaws0.
  intros Ha. revert y. induction Ha as [|c acts Hc _ IH]; intros y Hf Hy; cbn [proceed_all]; [by intros [= <-]|].
  intros (y1 & H1 & H2)%bind_Ok. eapply IH; [| |exact H2].
  - intros k Hk. apply Hf. by eapply overrun_later.
  - eapply proceed_ok; [exact Hc| |exact Hy|exact H1]. intros k Hk. apply Hf. by apply overrun_now.
Qed.

Lemma unsubscribed_ok (x : Loop) : rib (routing (node x)) = ∅ -> system_ok (mkSystem x no_subscribers ∅ false).
Proof using.
  intros E. split; cbn [loop]; [rewrite E; intros p r Hp; by rewrite lookup_empty in Hp|rewrite E|done]. unfold sys_ok. cbn [hub received].
  split; cbn [no_subscribers subs watchers drawn]; intros k; rewrite ?lookup_empty; try done; set_solver.
Qed.

(** A server that has stopped stays so. *)
Lemma proceed_stops y c y' :
  proceed (T := T) hmac watcher_order y c = Ok y' -> (stopped y = true -> stopped y' = true) /\ ((exists o t takes, c = Looping (Stopping o t) takes) -> stopped y' = true).
Proof using.
  destruct c as [c takes|k]; cbn [proceed].
  - destruct (stopped y) eqn:Es; [by intros [= <-]|]. intros ([z x] & _ & [= <-])%bind_Ok. split; [done|]. by intros (o & t & ? & [= -> _]).
  - intros [= <-]. split; [|by intros (? & ? & ? & ?)]. intros Es. unfold receive. by repeat case_match.
Qed.

Lemma proceed_all_stops y acts y' :
  proceed_all (T := T) hmac watcher_order y acts = Ok y' ->
  (stopped y = true \/ exists o t takes, Looping (Stopping o t) takes ∈ acts) -> stopped y' = true.
Proof using.
  revert y. induction acts as [|c acts IH]; intros y; cbn [proceed_all].
  - intros [= <-] [Hs|(o & t & takes & Hin)]; [done|]. by apply elem_of_nil in Hin.
  - intros (y1 & H1 & H2)%bind_Ok Hs. apply (IH y1 H2). destruct (proceed_stops _ _ _ H1) as [S1 S2].
    destruct Hs as [Hs|(o & t & takes & [<- |Hin]%elem_of_cons)]; [left; by apply S1|left; apply S2; by eexists _, _, _|right; by eexists _, _, _].
Qed.
End Arms.

(** ** The property *)

(** The subscriptions that were ended. *)
Definition unsubscribes (acts : list act) : list nat :=
  omap (fun c => match c with Looping (Unsubscribing _ _ k) _ => Some k | _ => None end) acts.

(** Visits of maps miss nothing. *)
Definition act_fair (c : act) : Prop :=
  match c with
  | Looping (Turning o _ _ | Unsubscribing o _ _ | Stopping o _) _ => fair o
  | Looping (Subscribing o _ g) _ => fair o /\ forall m, rib_visits g m ≡ₚ map_to_list m
  | Receiving _ => True
  end.

Definition may_end (acts : list act) (k : nat) : Prop := k ∈ unsubscribes acts \/ exists o t takes, Looping (Stopping o t) takes ∈ acts.

Lemma acts_ok acts : Forall act_fair acts -> Forall (act_ok (may_end acts)) acts.
Proof.
  rewrite !Forall_forall. intros Ha c Hc. specialize (Ha c Hc). destruct c as [[o a t|o t g|o t k|o t] takes|k]; try done.
  - split; [exact Ha|]. left. apply list_elem_of_omap. by exists (Looping (Unsubscribing o t k) takes).
  - intros k. right. by eexists _, _, _.
Qed.

Section Run.
Context {F : Type} `{FIB F} {T : Type} `{TentativeSet T} (table : F -> gmap Prefix (list NextHopInfo)) `{!FIBLaws F table}.
Context (hmac : AuthAlgorithm -> bytes -> bytes -> bytes).
Context (watcher_order : gset nat -> list nat) (fair_watchers : forall X, watcher_order X ≡ₚ elements X).
Context (x : Loop (F := F)) (empty : rib (routing (node x)) = ∅) (acts : list act) (fair_acts : Forall act_fair acts).

Definition ready : System (F := F) := mkSystem x no_subscribers ∅ false.

(** How subscriptions end. *)
Lemma run_ok y :
  proceed_all (T := T) hmac watcher_order ready acts = Ok y ->
  system_ok (may_end acts) (overrun (T := T) hmac watcher_order ready acts) y /\
  forall k w, subs (hub y) !! k = Some w ->
    (stopped y = true -> closed w = true) /\
    (closed w = true -> lagged w = false -> k ∈ unsubscribes acts \/ stopped y = true).
Proof using fair_watchers FIBLaws0 empty fair_acts.
  intros Hr. pose proof (proceed_all_ok table hmac watcher_order fair_watchers _ _ ready acts y (acts_ok acts fair_acts) (fun k Hk => Hk) (unsubscribed_ok _ _ x empty) Hr) as Hy.
  split; [exact Hy|]. intros k w Hk. pose proof (sys_hub _ _ _ Hy) as Hh. split.
  - intros Hs. by rewrite (hub_live _ _ _ _ _ Hh k w Hk), (sys_stopped _ _ _ Hy Hs).
  - intros Hc Hl. destruct (hub_ended _ _ _ _ _ Hh k w Hk Hc) as [Hl'|[Hg|Hs]]; [congruence|by left|right].
    eapply proceed_all_stops; [exact Hr|by right].
Qed.
End Run.

(** C13: From a loop with no route and no subscriber yet, whatever it does, and however
    its subscribers subscribe, receive and end their subscriptions in between, until
    the server stops and after, no subscription has a gap.  Of every one that is not closed, its snapshot, then what
    its subscriber has received, then what waits in its channel, played over an empty
    table, is the routing table now (up to what [sameRoute] does not compare); its
    channel never holds more than [watcherBuffer] events, so that the loop never waits
    for a subscriber.  A subscription that is closed was ended, or the server has
    stopped, or it is marked as lagging; and it is only marked so if at one moment of
    the run an event was reported while its channel was open and held [watcherBuffer]
    events.  Once the server has stopped every subscription is closed. *)
Theorem watch_gap_free {F : Type} `{FIB F} {T : Type} `{TentativeSet T} (table : F -> gmap Prefix (list NextHopInfo)) `{!FIBLaws F table}
    hmac (watcher_order : gset nat -> list nat) (x : Loop (F := F)) acts (y : System (F := F)) :
  (forall X, watcher_order X ≡ₚ elements X) -> rib (routing (node x)) = ∅ -> Forall act_fair acts ->
  proceed_all (T := T) hmac watcher_order (ready x) acts = Ok y ->
  forall k w, subs (hub y) !! k = Some w ->
    (length (ch w) <= watcherBuffer)%nat /\
    (closed w = false -> replay (Initial w ++ default [] (received y !! k) ++ ch w) ∅ ≡ rib (routing (node (loop y)))) /\
    (closed w = true -> lagged w = false -> k ∈ unsubscribes acts \/ stopped y = true) /\
    (lagged w = true -> closed w = true /\ overrun (T := T) hmac watcher_order (ready x) acts k /\
      (watcherBuffer <= length (default [] (received y !! k) ++ ch w))%nat) /\
    (stopped y = true -> closed w = true).
Proof.
  intros Hw Hx Ha Hr k w Hk. destruct (run_ok table hmac watcher_order Hw x Hx acts Ha y Hr) as [[_ Hy _] He].
  destruct (He k w Hk) as [E1 E2]. split_and!; [| |exact E2| |exact E1].
  - by apply (hub_bound _ _ _ _ _ Hy k).
  - intros Hc. apply (hub_view _ _ _ _ _ Hy k w); [|done]. rewrite (hub_live _ _ _ _ _ Hy k w Hk) in Hc. by apply negb_false_iff, bool_decide_eq_true in Hc.
  - by apply (hub_lagged _ _ _ _ _ Hy k w).
Qed.

(** ** Two subscribers of a border router

    The first subscribes before the routes are computed, the second after; the
    adjacency is torn down, the hold ends and the routes go; then the server stops. *)
Definition border_loop : Loop (F := kernel) :=
  mkLoop (mkNode (set_gen border true false zeroTime)
    (mkRIB [] [] ∅ ∅ (∅, []) ∅ ∅ ∅ ∅ ∅ ∅ ∅ (Some (fun _ => true)) None []) [] None ∅ ∅ ∅ ∅ ∅ ∅ 0 0 0 0 0) false.

Definition border_glance : glance := mkGlance [Level1; Level2] (fun l => map_to_list (default ∅ (dbs border !! l))) (fun _ _ => []) map_to_list.

Definition border_acts : list act :=
  let quickly := fun _ : nat => [0%nat] in let later := fun _ : nat => [] : list nat in
  [Looping (Subscribing map_orders (at_time 0) border_glance) later; Receiving 0;
   Looping (Subscribing map_orders (at_time 1) border_glance) later;
   Looping (Turning map_orders (OnOperation (OpClearAdjacency "eth0" None)) (at_time 2)) quickly;
   Looping (Turning map_orders OnHold (at_time 3)) later; Looping (Unsubscribing map_orders (at_time 4) 1%nat) later].

Definition border_stops : list act := [Looping (Stopping map_orders (at_time 5)) (fun _ => []); Receiving 0].

Definition border_watch (acts : list act) : outcome (System (F := kernel)) :=
  proceed_all (H := flaky_updates) (T := tentSet) (fun _ _ _ => []) elements (ready border_loop) acts.

(** What a subscriber began with, has received and has waiting; whether its
    subscription ended, and whether the server has. *)
Definition stream (y : System (F := kernel)) (k : nat) : option (nat * nat * nat * bool * bool) :=
  (fun w => (length (Initial w), length (default [] (received y !! k)), length (ch w), closed w, stopped y)) <$> subs (hub y) !! k.

Lemma ran {A B} (m : outcome A) (f : A -> B) (b : B) :
  match m with Ok a => Some (f a) | _ => None end = Some b -> exists a, m = Ok a /\ f a = b.
Proof. destruct m as [a|e|]; [|discriminate..]. intros [= <-]. by exists a. Qed.

Lemma stream_some y k b : stream y k = Some b ->
  exists w, subs (hub y) !! k = Some w /\ (length (Initial w), length (default [] (received y !! k)), length (ch w), closed w, stopped y) = b.
Proof. unfold stream. destruct (subs (hub y) !! k) as [w|]; [|done]. intros [= E]. by exists w. Qed.

Lemma border_fair : Forall act_fair (border_acts ++ border_stops).
Proof. repeat apply Forall_cons_2; try apply Forall_nil_2; try exact I; (split; [split; reflexivity|reflexivity]) || (split; reflexivity). Qed.

Lemma watch_gap_free_witness :
  exists y z w0 w1 v0, border_watch border_acts = Ok y /\ border_watch (border_acts ++ border_stops) = Ok z /\
    subs (hub y) !! 0%nat = Some w0 /\ subs (hub y) !! 1%nat = Some w1 /\ subs (hub z) !! 0%nat = Some v0 /\
    (length (Initial w0), length (default [] (received y !! 0%nat)), length (ch w0), closed w0, stopped y) = (2, 3, 3, false, false)%nat /\
    (length (Initial w1), length (default [] (received y !! 1%nat)), length (ch w1), closed w1, stopped y) = (4, 0, 4, true, false)%nat /\
    (length (Initial v0), length (default [] (received z !! 0%nat)), length (ch v0), closed v0, stopped z) = (2, 4, 2, true, true)%nat /\
    (closed w0 = false -> replay (Initial w0 ++ default [] (received y !! 0%nat) ++ ch w0) ∅ ≡ rib (routing (node (loop y)))) /\
    (closed w1 = true -> lagged w1 = false -> 1%nat ∈ unsubscribes border_acts \/ stopped y = true) /\
    (stopped z = true -> closed v0 = true).
Proof.
  destruct (ran (border_watch border_acts) (fun y => (stream y 0, stream y 1)) (Some (2, 3, 3, false, false), Some (4, 0, 4, true, false))%nat)
    as (y & E & [= (w0 & E0 & F0)%stream_some (w1 & E1 & F1)%stream_some]); [vm_compute; reflexivity|].
  destruct (ran (border_watch (border_acts ++ border_stops)) (fun y => stream y 0) (Some (2, 4, 2, true, true))%nat)
    as (z & Ez & (v0 & Ev & Fv)%stream_some); [vm_compute; reflexivity|].
  assert (Hw : forall X : gset nat, elements X ≡ₚ elements X) by (intros X; reflexivity).
  pose proof border_fair as Hz. pose proof (proj1 (proj1 (Forall_app _ _ _) Hz)) as Ha.
  pose proof (watch_gap_free (H := flaky_updates) (T := tentSet) fst (FIBLaws0 := flaky_updates_laws) (fun _ _ _ => []) elements
    border_loop border_acts y Hw eq_refl Ha E) as Hg.
  pose proof (watch_gap_free (H := flaky_updates) (T := tentSet) fst (FIBLaws0 := flaky_updates_laws) (fun _ _ _ => []) elements
    border_loop _ z Hw eq_refl Hz Ez) as Hs.
  destruct (Hg 0%nat w0 E0) as (_ & G0 & _). destruct (Hg 1%nat w1 E1) as (_ & _ & G1 & _). destruct (Hs 0%nat v0 Ev) as (_ & _ & _ & _ & G2).
  exists y, z, w0, w1, v0.
  exact (conj E (conj Ez (conj E0 (conj E1 (conj Ev (conj F0 (conj F1 (conj Fv (conj G0 (conj G1 G2)))))))))).
Defined.
