(* ===== verification/ConnectSpec.v ===== *)
(** The management service: what its listings show can be given back, what its
    handlers answer, who may reach it, what becomes of the transport of an added
    circuit, and that the client speaks its language. *)

From stdpp Require Import strings sorting.
From S2P Require Import Prelude.
From S2P Require Import Netip.
From S2P Require Import Ids.
From S2P Require Import Auth.
From S2P Require Import Circuit.
From S2P Require Import Lsdb.
From S2P Require Import Restart.
From S2P Require Import Server.
From S2P Require Import Hello.
From S2P Require Import Tent.
From S2P Require Import Spf.
From S2P Require Import FlexAlgo.
From S2P Require Import Rib.
From S2P Require Import EndX.
From S2P Require Import Loop.
From S2P Require Import Mutate.
From S2P Require Import Serve.
From S2P Require Import Text.
From S2P Require Import Query.
From S2P Require Import Metrics.
From S2P Require Import Watch.
From S2P Require Import Reload.
From S2P Require Import TextSpec.
From S2P Require Import UpdateSpec.
From S2P Require Import RibSpec.
From S2P Require Import RibSelect.
From S2P Require Import ServeSpec.
From S2P Require Import HelloSpec.
From S2P Require Import WatchSpec.
From S2P Require Import WatchHub.
From S2P Require Import Connect.
Local Open Scope Z_scope.

(** ** IPv4 addresses *)

Lemma decimal_digit d : 0 <= d < 10 -> decimal_value (48 + d) = Some d.
Proof. intros Hd. unfold decimal_value. rewrite (proj2 (andb_true_iff _ _)) by lia. f_equal. lia. Qed.

Lemma v4_digit d s first dotted fields val digLen :
  0 <= d < 10 -> 0 <= val -> (digLen <> 1%nat \/ val <> 0) -> val * 10 + d <= 255 ->
  parseIPv4Fields (48 + d :: s) first dotted fields val digLen = parseIPv4Fields s false false fields (val * 10 + d) (S digLen).
Proof.
  intros Hd Hv Hz Hb. cbn [parseIPv4Fields]. rewrite decimal_digit by done.
  rewrite (proj2 (andb_false_iff _ _)) by (destruct Hz; [left; by apply Nat.eqb_neq|right; by apply Z.eqb_neq]).
  by rewrite (proj2 (Z.ltb_ge _ _)) by lia.
Qed.

(** One octet of the text. *)
Lemma v4_octet x s first dotted fields : byte_ok x -> exists k,
  parseIPv4Fields (decimal_octet x ++ s) first dotted fields 0 0 = parseIPv4Fields s false false fields x k.
Proof.
  unfold byte_ok, decimal_octet. intros Hx.
  pose proof (Z.div_mod x 10). pose proof (Z.mod_pos_bound x 10). pose proof (Z.div_mod (x / 10) 10). pose proof (Z.mod_pos_bound (x / 10) 10).
  assert (E100 : x / 100 = x / 10 / 10) by (rewrite Z.div_div by lia; done).
  destruct (Z.leb_spec 100 x); [rewrite (proj2 (Z.leb_le 10 x)) by lia|destruct (Z.leb_spec 10 x)].
  - exists 3%nat. rewrite E100. cbn [app]. rewrite !v4_digit by lia. do 2 f_equal. lia.
  - exists 2%nat. cbn [app]. assert (E10 : (x / 10) mod 10 = x / 10) by (apply Z.mod_small; lia). rewrite E10 in *. rewrite !v4_digit by lia. do 2 f_equal. lia.
  - exists 1%nat. cbn [app]. rewrite v4_digit by lia. do 2 f_equal. rewrite Z.mod_small; lia.
Qed.

Lemma v4_dot x s fields k :
  s <> [] -> length fields <> 3%nat -> parseIPv4Fields (dot :: s) false false fields x k = parseIPv4Fields s false true (fields ++ [x]) 0 0.
Proof.
  intros Hs Hf. cbn [parseIPv4Fields]. change (decimal_value dot) with (@None Z). rewrite Z.eqb_refl. cbn [negb orb].
  rewrite bool_decide_false by done. by rewrite (proj2 (Nat.eqb_neq _ _) Hf).
Qed.

Lemma decimal_octet_not_nil x : decimal_octet x <> [].
Proof. unfold decimal_octet. repeat case_match; done. Qed.

Lemma octet_app_not_nil x s : decimal_octet x ++ s <> [].
Proof. intros [Hx _]%app_eq_nil. by apply decimal_octet_not_nil in Hx. Qed.

Lemma parse_string4 b : arr 4 b -> parseIPv4 (string4 b) = Some b.
Proof.
  intros [Hl Hb]. do 5 (destruct b as [|? b]; try discriminate). repeat (apply Forall_cons in Hb as [? Hb]).
  unfold string4, parseIPv4. change 46 with dot. cbn [app].
  do 3 (edestruct v4_octet as [? ->]; [done|]; rewrite v4_dot; [|first [apply decimal_octet_not_nil|apply octet_app_not_nil]|done]).
  rewrite <- (app_nil_r (decimal_octet _)). edestruct v4_octet as [? ->]; done.
Qed.

(** ** IPv6 addresses *)

Abbreviation word x := (0 <= x < 65536).

(** Where a run of hexadecimal digits ends. *)
Definition stops (s : bytes) : Prop := match s with [] => True | c :: _ => hex_value c = None end.

Lemma hex_run_digit d s acc off : 0 <= d < 16 -> hex_run (hex_digit d :: s) acc off = hex_run s (16 * acc + d) (S off).
Proof. intros [Hd _]%hex_digit_value. cbn [hex_run]. by rewrite Hd. Qed.

Lemma hex_run_stops s acc off : stops s -> hex_run s acc off = (acc, off).
Proof. destruct s as [|c s]; cbn [stops hex_run]; [done|by intros ->]. Qed.

Lemma hex_run_word x s : word x -> stops s ->
  hex_run (string_hex x ++ s) 0 0 = (x, length (string_hex x)) /\ (1 <= length (string_hex x) <= 4)%nat.
Proof.
  intros Hx Hs. unfold string_hex.
  pose proof (Z.div_mod x 16). pose proof (Z.mod_pos_bound x 16). pose proof (Z.div_mod (x / 16) 16). pose proof (Z.mod_pos_bound (x / 16) 16).
  pose proof (Z.div_mod (x / 16 / 16) 16). pose proof (Z.mod_pos_bound (x / 16 / 16) 16).
  assert (E2 : x / 256 = x / 16 / 16) by (rewrite Z.div_div by lia; done).
  assert (E3 : x / 4096 = x / 16 / 16 / 16) by (rewrite !Z.div_div by lia; done).
  rewrite E2, E3. split; [|repeat case_match; cbn; lia].
  destruct (Z.leb_spec 4096 x), (Z.leb_spec 256 x), (Z.leb_spec 16 x); try lia;
    cbn [app length]; rewrite !hex_run_digit by lia; rewrite hex_run_stops by done; f_equal; lia.
Qed.

Fixpoint groups (ws : list Z) : bytes :=
  match ws with [] => [] | [w] => string_hex w | w :: ws => string_hex w ++ colon :: groups ws end.
Definition octets (ws : list Z) : bytes := ws ≫= fun w => [w / 256; w mod 256].

Lemma octets_hextets b n : length b = (2 * n)%nat -> bytes_ok b -> octets (hextets b) = b.
Proof.
  revert b. induction n as [|n IH]; intros b Hl Hb; [by destruct b|]. destruct b as [|x [|y b]]; [cbn in Hl; lia..|].
  apply Forall_cons in Hb as [Hx Hb]. apply Forall_cons in Hb as [Hy Hb]. cbn [hextets]. unfold octets. cbn [mbind list_bind app].
  fold (octets (hextets b)). rewrite IH by (done || (cbn in Hl; lia)). unfold byte_ok in *.
  pose proof (Z.div_mod (256 * x + y) 256). pose proof (Z.mod_pos_bound (256 * x + y) 256). repeat f_equal; lia.
Qed.
Lemma hextets_words b : bytes_ok b -> Forall (fun x => word x) (hextets b).
Proof.
  revert b. fix IH 1. intros [|x [|y b]] Hb; [constructor..|]. apply Forall_cons in Hb as [Hx Hb]. apply Forall_cons in Hb as [Hy Hb].
  cbn [hextets]. constructor; [unfold byte_ok in *; lia|by apply IH].
Qed.
Lemma hextets_length b n : length b = (2 * n)%nat -> length (hextets b) = n.
Proof. revert b. induction n as [|n IH]; intros b Hl; [by destruct b|]. destruct b as [|x [|y b]]; [cbn in Hl; lia..|]. cbn. f_equal. apply IH. cbn in Hl. lia. Qed.

Lemma octets_length ws : length (octets ws) = (2 * length ws)%nat.
Proof. induction ws as [|w ws IH]; [done|]. unfold octets. cbn [mbind list_bind app length]. fold (octets ws). rewrite IH. lia. Qed.
Lemma octets_app a b : octets (a ++ b) = octets a ++ octets b.
Proof. apply bind_app. Qed.
Lemma octets_zeros n : octets (replicate n 0) = replicate (2 * n) 0.
Proof. induction n as [|n IH]; [done|]. cbn [replicate]. unfold octets. cbn [mbind list_bind app]. fold (octets (replicate n 0)). rewrite IH. by replace (2 * S n)%nat with (S (S (2 * n))) by lia. Qed.

(** The text of a word starts with a digit. *)
Lemma string_hex_head x : word x -> exists d s, string_hex x = hex_digit d :: s /\ 0 <= d < 16.
Proof.
  intros Hx. unfold string_hex. pose proof (Z.mod_pos_bound x 16). pose proof (Z.mod_pos_bound (x / 16) 16). pose proof (Z.mod_pos_bound (x / 256) 16).
  pose proof (Z.div_lt_upper_bound x 4096 16). pose proof (Z.div_pos x 4096). repeat case_match; cbn [app]; eexists _, _; (split; [done|lia]).
Qed.
Lemma groups_head w ws : Forall (fun x => word x) (w :: ws) -> exists d s, groups (w :: ws) = hex_digit d :: s /\ 0 <= d < 16.
Proof.
  intros Hw. apply Forall_cons in Hw as [(d & s & E & Hd)%string_hex_head _]. cbn [groups]. rewrite E. destruct ws; cbn [app]; eauto.
Qed.
Lemma digit_not_colon d : 0 <= d < 16 -> (hex_digit d =? colon) = false.
Proof. intros Hd. unfold hex_digit, colon. destruct (Z.ltb_spec d 10); lia. Qed.

(** One group of the loop. *)
Lemma v6_group w n s ip e : word w -> stops s -> (forall t, s <> dot :: t) ->
  v6_loop (S n) (string_hex w ++ s) ip e =
    match s with
    | [] => Some (ip ++ octets [w], e, [])
    | c :: rest =>
        if negb (c =? colon) then None else
        match rest with
        | [] => None
        | d :: rest' =>
            if d =? colon then
              match e, rest' with
              | Some _, _ => None
              | None, [] => Some (ip ++ octets [w], Some (length ip + 2)%nat, [])
              | None, _ => v6_loop n rest' (ip ++ octets [w]) (Some (length ip + 2)%nat)
              end
            else v6_loop n rest (ip ++ octets [w]) e
        end
    end.
Proof.
  intros Hw Hs Hd. cbn [v6_loop]. destruct (hex_run_word w s Hw Hs) as [-> Hl]. cbv zeta.
  rewrite (proj2 (orb_false_iff _ _)) by (split; [apply Nat.eqb_neq|apply Nat.ltb_ge]; lia). rewrite drop_app_length.
  destruct s as [|c rest]; [done|]. destruct (Z.eqb_spec c dot) as [->|_]; [by destruct (Hd rest)|]. done.
Qed.

Lemma colon_stops s : stops (colon :: s) /\ forall t, colon :: s <> dot :: t.
Proof. done. Qed.

Lemma v6_groups w ws n ip e : (length (w :: ws) <= n)%nat -> Forall (fun x => word x) (w :: ws) ->
  v6_loop n (groups (w :: ws)) ip e = Some (ip ++ octets (w :: ws), e, []).
Proof.
  revert w n ip. induction ws as [|w' ws IH]; intros w n ip Hn Hw; destruct n as [|n]; cbn [length] in Hn; try lia; apply Forall_cons in Hw as [Hw Hws].
  - cbn [groups]. rewrite <- (app_nil_r (string_hex w)). by rewrite v6_group.
  - change (groups (w :: w' :: ws)) with (string_hex w ++ colon :: groups (w' :: ws)). rewrite v6_group by (done || apply colon_stops).
    cbn [negb Z.eqb Pos.eqb colon]. fold colon. destruct (groups_head w' ws Hws) as (d & s & E & Hd). rewrite E, digit_not_colon, <- E by done.
    rewrite IH by (cbn; done || lia). by rewrite <- app_assoc, <- octets_app.
Qed.

Lemma v6_ellipsis w ws n ip rest : (length (w :: ws) <= n)%nat -> Forall (fun x => word x) (w :: ws) ->
  v6_loop n (groups (w :: ws) ++ [colon; colon] ++ rest) ip None =
    let ip' := ip ++ octets (w :: ws) in
    match rest with
    | [] => Some (ip', Some (length ip'), [])
    | _ => v6_loop (n - length (w :: ws)) rest ip' (Some (length ip'))
    end.
Proof.
  revert w n ip. induction ws as [|w' ws IH]; intros w n ip Hn Hw; destruct n as [|n]; cbn [length] in Hn; try lia; apply Forall_cons in Hw as [Hw Hws].
  - cbn [groups app]. rewrite v6_group by (done || apply colon_stops). cbv zeta. rewrite length_app, octets_length.
    cbn [length]. rewrite Nat.sub_succ, Nat.sub_0_r. by destruct rest.
  - change (groups (w :: w' :: ws)) with (string_hex w ++ colon :: groups (w' :: ws)). rewrite <- app_assoc. cbn [app].
    rewrite v6_group by (done || apply colon_stops).
    change (colon :: colon :: rest) with ([colon; colon] ++ rest).
    destruct (groups_head w' ws Hws) as (d & s & E & Hd). rewrite E. cbn [app negb Z.eqb Pos.eqb colon]. fold colon. rewrite digit_not_colon by done.
    change (hex_digit d :: s ++ colon :: colon :: rest) with ((hex_digit d :: s) ++ [colon; colon] ++ rest). rewrite <- E.
    rewrite IH by (cbn; done || lia). cbv zeta. rewrite <- !app_assoc, <- octets_app. done.
Qed.

(** ** The longest run of zeros *)

Lemma zero_run_spec h : (zero_run h <= length h)%nat /\ take (zero_run h) h = replicate (zero_run h) 0.
Proof.
  induction h as [|x h [IH1 IH2]]; [done|]. cbn [zero_run]. destruct (Z.eqb_spec x 0) as [->|_]; [|split; [cbn; lia|done]].
  cbn [length take replicate]. rewrite IH2. split; [lia|done].
Qed.

(** A run that is elided: of two zeros or more. *)
Definition elides (h : list Z) (z : nat * nat) : Prop :=
  (z.1 + 2 <= z.2 <= length h)%nat /\ h = take z.1 h ++ replicate (z.2 - z.1) 0 ++ drop z.2 h.

Definition choice (h : list Z) (z : nat * nat) : Prop := z = (255%nat, 255%nat) \/ elides h z.

Lemma zero_step_spec h best i : (i <= length h)%nat -> choice h best -> choice h (zero_step h best i).
Proof.
  intros Hi Hb. unfold zero_step. cbv zeta. destruct (zero_run_spec (drop i h)) as [Hz Ez]. rewrite length_drop in Hz.
  destruct (_ && _) eqn:Ec; [|exact Hb]. right. unfold elides. cbn [fst snd]. split; [lia|].
  replace (i + zero_run (drop i h) - i)%nat with (zero_run (drop i h)) by lia. by rewrite <- Ez, <- drop_drop, take_drop, take_drop.
Qed.

Lemma longest_zeros_spec h : length h = 8%nat -> choice h (longest_zeros h).
Proof.
  intros Hl. unfold longest_zeros. cbn [seq fold_left]. do 8 (apply zero_step_spec; [lia|]). by left.
Qed.

(** The text with an elision, and without. *)
Lemma string6_plain h : length h = 8%nat -> string6_loop 8 0 255 255 h = groups h.
Proof. intros Hl. do 9 (destruct h as [|? h]; try discriminate). cbn [string6_loop Nat.leb Nat.ltb Nat.eqb nth groups app]. by rewrite ?app_nil_r. Qed.

Lemma string6_elided h s e : length h = 8%nat -> (s + 2 <= e <= 8)%nat ->
  string6_loop 8 0 s e h = groups (take s h) ++ [colon; colon] ++ groups (drop e h).
Proof.
  intros Hl Hse. do 9 (destruct h as [|? h]; try discriminate).
  destruct s as [|[|[|[|[|[|[|s]]]]]]]; [..|lia]; destruct e as [|[|[|[|[|[|[|[|[|e]]]]]]]]]; try lia;
    cbn [string6_loop Nat.leb Nat.ltb Nat.eqb nth take drop groups app]; repeat (rewrite <- app_assoc; cbn [app]); by rewrite ?app_nil_r.
Qed.

(** ** Addresses *)

Lemma groups_lead w ws s : Forall (fun x => word x) (w :: ws) -> bool_decide (take 2 (groups (w :: ws) ++ s) = [colon; colon]) = false.
Proof.
  intros (d & t & -> & Hd)%groups_head. apply bool_decide_eq_false. cbn [app take]. intros [= E _].
  apply digit_not_colon in Hd. by rewrite E, Z.eqb_refl in Hd.
Qed.

(** The groups of [parseIPv6] after an elision at [e]. *)
Lemma expand_elided pre post (e : nat) : e = length pre -> (length (pre ++ post) < 16)%nat ->
  expand (pre ++ post) (Some e) = Some (pre ++ replicate (16 - length (pre ++ post)) 0 ++ post).
Proof.
  intros -> Hl. unfold expand. cbv zeta. rewrite (proj2 (Nat.ltb_lt _ _)) by done. by rewrite take_app_length, drop_app_length.
Qed.

Lemma parse_elided pre post :
  (length pre + 2 + length post <= 8)%nat -> Forall (fun x => word x) pre -> Forall (fun x => word x) post ->
  parseIPv6 (groups pre ++ [colon; colon] ++ groups post) =
    Some (octets pre ++ replicate (16 - 2 * (length pre + length post)) 0 ++ octets post).
Proof.
  intros Hl Hpre Hpost. unfold parseIPv6. cbv zeta.
  assert (Hx : expand (octets pre ++ octets post) (Some (length (octets pre))) =
      Some (octets pre ++ replicate (16 - 2 * (length pre + length post)) 0 ++ octets post)).
  { rewrite expand_elided; [|done|rewrite length_app, !octets_length; lia]. rewrite length_app, !octets_length. do 4 f_equal. lia. }
  destruct pre as [|w pre].
  - cbn [groups app take drop]. rewrite bool_decide_true by done. cbn [andb]. destruct post as [|w post]; [done|].
    rewrite bool_decide_false by (destruct (groups_head w post Hpost) as (d & t & -> & _); done).
    rewrite (v6_groups w post 8 [] _) by (done || cbn in *; lia). cbn [mbind option_bind]. rewrite bool_decide_true by done. exact Hx.
  - rewrite groups_lead by done. cbn [andb]. rewrite (v6_ellipsis w pre 8 [] (groups post)) by (done || cbn in *; lia). cbv zeta. cbn [app].
    destruct post as [|w' post].
    + cbn [groups mbind option_bind]. rewrite bool_decide_true by done. rewrite <- (app_nil_r (octets (w :: pre))) at 1. exact Hx.
    + destruct (groups_head w' post Hpost) as (d & t & E & _). rewrite E, <- E.
      rewrite v6_groups by (done || cbn in *; lia). cbn [mbind option_bind]. rewrite bool_decide_true by done. exact Hx.
Qed.

(** An IPv4 address after an elision. *)
Lemma hex_run_octet x s : byte_ok x -> stops s -> exists v,
  hex_run (decimal_octet x ++ s) 0 0 = (v, length (decimal_octet x)) /\ (1 <= length (decimal_octet x) <= 3)%nat.
Proof.
  intros Hx Hs. assert (Hd : forall d s acc off, 0 <= d < 10 -> hex_run (48 + d :: s) acc off = hex_run s (16 * acc + d) (S off)).
  { intros d s' acc off Hd. rewrite <- hex_run_digit by lia. unfold hex_digit. by rewrite (proj2 (Z.ltb_lt d 10)) by lia. }
  unfold byte_ok, decimal_octet in *. pose proof (Z.mod_pos_bound x 10). pose proof (Z.mod_pos_bound (x / 10) 10).
  pose proof (Z.div_lt_upper_bound x 100 10). pose proof (Z.div_pos x 100).
  destruct (Z.leb_spec 100 x), (Z.leb_spec 10 x); try lia; cbn [app length]; rewrite !Hd by lia; rewrite hex_run_stops by done; eexists; (split; [done|lia]).
Qed.

Lemma v6_tail4 n b ip e : arr 4 b -> (length ip + 4 <= 16)%nat -> v6_loop (S n) (string4 b) ip (Some e) = Some (ip ++ b, Some e, []).
Proof.
  intros Hb Hl. pose proof (parse_string4 b Hb) as Hp. cbn [v6_loop].
  assert (exists x t, byte_ok x /\ string4 b = decimal_octet x ++ dot :: t) as (x & t & Hx & E).
  { destruct Hb as [Hn Hr]. do 5 (destruct b as [|? b]; try discriminate). apply Forall_cons in Hr as [Hx _]. unfold string4. eauto. }
  rewrite E in *. destruct (hex_run_octet x (dot :: t) Hx eq_refl) as (v & -> & Hv). cbv zeta.
  rewrite (proj2 (orb_false_iff _ _)) by (split; [apply Nat.eqb_neq|apply Nat.ltb_ge]; lia). rewrite drop_app_length, Z.eqb_refl.
  rewrite bool_decide_false by done. cbn [andb]. rewrite (proj2 (Nat.ltb_ge _ _)) by lia. by rewrite Hp.
Qed.

Lemma parse_mapped b : arr 4 b -> parseIPv6 ([58; 58; 102; 102; 102; 102; 58] ++ string4 b) = Some (v4in6 ++ b).
Proof.
  intros Hb. unfold parseIPv6. cbv zeta. rewrite bool_decide_true by done. cbn [andb app drop]. rewrite bool_decide_false by done.
  change (102 :: 102 :: 102 :: 102 :: 58 :: string4 b) with (string_hex 65535 ++ colon :: string4 b).
  rewrite v6_group by (lia || apply colon_stops). cbn [negb Z.eqb Pos.eqb colon].
  assert (exists d t, string4 b = 48 + d :: t /\ 0 <= d < 10) as (d & t & E & Hd).
  { destruct Hb as [Hn Hr]. do 5 (destruct b as [|? b]; try discriminate). apply Forall_cons in Hr as [Hx _]. unfold string4, decimal_octet, byte_ok in *.
    pose proof (Z.mod_pos_bound z 10). pose proof (Z.mod_pos_bound (z / 10) 10). pose proof (Z.div_lt_upper_bound z 100 10). pose proof (Z.div_pos z 100).
    repeat case_match; cbn [app]; eexists _, _; (split; [done|lia]). }
  rewrite E. fold colon. rewrite (proj2 (Z.eqb_neq (48 + d) colon)) by (unfold colon; lia). rewrite <- E.
  rewrite v6_tail4 by (done || cbn; lia). cbn [mbind option_bind]. rewrite bool_decide_true by done. destruct Hb as [Hn _].
  unfold expand. cbv zeta. rewrite length_app, Hn. reflexivity.
Qed.

Lemma string4_in_mapped b : arr 16 b -> Is4In6 (Addr6 b) = true -> b = v4in6 ++ drop 12 b /\ arr 4 (drop 12 b).
Proof.
  intros [Hl Hr] Hb%bool_decide_eq_true. split; [by rewrite <- Hb, take_drop|]. split; [rewrite length_drop; lia|by apply Forall_drop].
Qed.

Lemma parse_string6 b : arr 16 b ->
  parseIPv6 (string6_loop 8 0 (longest_zeros (hextets b)).1 (longest_zeros (hextets b)).2 (hextets b)) = Some b.
Proof.
  intros [Hl Hb]. pose proof (hextets_words b Hb) as Hw. pose proof (hextets_length b 8 Hl) as Hh. pose proof (octets_hextets b 8 Hl Hb) as Ho.
  revert Hw Hh Ho. generalize (hextets b) as h. intros h Hw Hh <-. destruct (longest_zeros_spec h Hh) as [->|[Hse E]].
  - cbn [fst snd]. rewrite string6_plain by done. destruct h as [|w ws]; [done|]. unfold parseIPv6. cbv zeta.
    pose proof (groups_lead w ws [] Hw) as Hg. rewrite app_nil_r in Hg. rewrite Hg. cbn [andb].
    rewrite v6_groups by (done || lia). cbn [mbind option_bind app]. rewrite bool_decide_true by done.
    unfold expand. cbv zeta. by rewrite octets_length, Hh.
  - destruct (longest_zeros h) as [s e]. cbn [fst snd] in *. rewrite Hh in Hse. rewrite string6_elided by done.
    rewrite parse_elided; [|rewrite length_take, length_drop; lia|by apply Forall_take|by apply Forall_drop].
    f_equal. etransitivity; [|symmetry; exact (f_equal octets E)]. rewrite !octets_app, octets_zeros. do 3 f_equal. rewrite length_take, length_drop. lia.
Qed.

(** ** Texts of addresses and prefixes *)

(** The characters of an address. *)
Definition addr_char (c : Z) : Prop := 46 <= c <= 58 /\ c <> slash \/ 97 <= c <= 102.

Lemma chars_digit d : 0 <= d < 16 -> addr_char (hex_digit d).
Proof. intros Hd. unfold addr_char, hex_digit, slash. destruct (Z.ltb_spec d 10); lia. Qed.
Lemma chars_word x : word x -> Forall addr_char (string_hex x).
Proof.
  intros Hx. unfold string_hex. pose proof (Z.mod_pos_bound x 16). pose proof (Z.mod_pos_bound (x / 16) 16). pose proof (Z.mod_pos_bound (x / 256) 16).
  pose proof (Z.div_lt_upper_bound x 4096 16). pose proof (Z.div_pos x 4096).
  repeat case_match; cbn [app]; repeat (constructor; [apply chars_digit; lia|]); constructor.
Qed.
Lemma chars_octet x : byte_ok x -> Forall (fun c => 48 <= c <= 57) (decimal_octet x).
Proof.
  unfold byte_ok, decimal_octet. intros Hx. pose proof (Z.mod_pos_bound x 10). pose proof (Z.mod_pos_bound (x / 10) 10).
  pose proof (Z.div_lt_upper_bound x 100 10). pose proof (Z.div_pos x 100).
  repeat case_match; cbn [app]; repeat (constructor; [lia|]); constructor.
Qed.
Lemma chars_string4 b : bytes_ok b -> Forall addr_char (string4 b).
Proof.
  intros Hb. do 4 (destruct b as [|? b]; [constructor|]). destruct b; [|constructor]. repeat (apply Forall_cons in Hb as [? Hb]). unfold string4.
  assert (Ho : forall x, byte_ok x -> Forall addr_char (decimal_octet x)).
  { intros x Hx. eapply Forall_impl; [by apply chars_octet|]. unfold addr_char, slash. intros c; cbn. lia. }
  repeat (apply Forall_app; split; [auto; by repeat constructor; unfold addr_char, slash; lia|]). auto.
Qed.
Lemma chars_groups ws : Forall (fun x => word x) ws -> Forall addr_char (groups ws).
Proof.
  intros Hw. induction Hw as [|w ws Hx Hw IH]; [constructor|]. cbn [groups]. destruct ws; [by apply chars_word|].
  apply Forall_app; split; [by apply chars_word|]. constructor; [unfold addr_char, colon, slash; lia|exact IH].
Qed.

Lemma addr6_text b : arr 16 b -> Is4In6 (Addr6 b) = false ->
  exists ws ws', Forall (fun x => word x) ws /\ Forall (fun x => word x) ws' /\ (length ws = 8%nat /\ Addr_String (Addr6 b) = groups ws \/
    Addr_String (Addr6 b) = groups ws ++ [colon; colon] ++ groups ws').
Proof.
  intros [Hl Hb] Hm. pose proof (hextets_words b Hb) as Hw. pose proof (hextets_length b 8 Hl) as Hh. unfold Addr_String. rewrite Hm. cbv zeta.
  destruct (longest_zeros_spec _ Hh) as [->|[Hse _]].
  - exists (hextets b), []. split_and!; [done|constructor|]. left. split; [done|]. by apply string6_plain.
  - rewrite Hh in Hse. eexists _, _. rewrite string6_elided by done. split_and!; [..|right; reflexivity]; [by apply Forall_take|by apply Forall_drop].
Qed.

Lemma chars_addr a : addr_ok a -> IsValid a = true -> Forall addr_char (Addr_String a).
Proof.
  destruct a as [|b|b]; [done|..]; intros Ha _.
  - apply chars_string4, Ha.
  - destruct (Is4In6 (Addr6 b)) eqn:Em.
    + apply string4_in_mapped in Em as [_ [_ Hb]]; [|done]. unfold Addr_String. destruct (Is4In6 (Addr6 b)) eqn:Em'.
      * apply Forall_app; split; [by repeat constructor; unfold addr_char, slash; lia|by apply chars_string4].
      * destruct (addr6_text b Ha Em') as (ws & ws' & Hw & Hw' & [[_ E]|E]); unfold Addr_String in E; rewrite Em' in E; rewrite E;
          [by apply chars_groups|]. repeat (apply Forall_app; split); try (by apply chars_groups). by repeat constructor; unfold addr_char, slash, colon; lia.
    + destruct (addr6_text b Ha Em) as (ws & ws' & Hw & Hw' & [[_ ->]| ->]); [by apply chars_groups|].
      repeat (apply Forall_app; split); try (by apply chars_groups). by repeat constructor; unfold addr_char, slash, colon; lia.
Qed.

(** The first separator decides the family. *)
Lemma skip_digits p c s : Forall (fun x => x <> dot /\ x <> colon) p -> ParseAddr_at (p ++ c) s = ParseAddr_at c s.
Proof.
  intros Hp. induction Hp as [|x p [H1 H2] _ IH]; [done|]. cbn [app ParseAddr_at].
  by rewrite (proj2 (Z.eqb_neq _ _) H1), (proj2 (Z.eqb_neq _ _) H2).
Qed.
Lemma word_digits x : word x -> Forall (fun c => c <> dot /\ c <> colon) (string_hex x).
Proof.
  intros Hx. unfold string_hex. pose proof (Z.mod_pos_bound x 16). pose proof (Z.mod_pos_bound (x / 16) 16). pose proof (Z.mod_pos_bound (x / 256) 16).
  pose proof (Z.div_lt_upper_bound x 4096 16). pose proof (Z.div_pos x 4096).
  assert (Hd : forall d, 0 <= d < 16 -> hex_digit d <> dot /\ hex_digit d <> colon).
  { intros d Hd. unfold hex_digit, dot, colon. destruct (Z.ltb_spec d 10); lia. }
  repeat case_match; cbn [app]; repeat (constructor; [apply Hd; lia|]); constructor.
Qed.

Lemma colon_family c s : ParseAddr_at (colon :: c) s = Addr6 <$> parseIPv6 s.
Proof. done. Qed.

Lemma groups_family w ws c s : Forall (fun x => word x) (w :: ws) -> ws <> [] \/ (exists t, c = colon :: t) ->
  ParseAddr_at (groups (w :: ws) ++ c) s = Addr6 <$> parseIPv6 s.
Proof.
  intros Hw Hc. apply Forall_cons in Hw as [Hw _]. apply word_digits in Hw. destruct ws as [|w' ws].
  - destruct Hc as [|[t ->]]; [done|]. cbn [groups]. rewrite skip_digits by done. apply colon_family.
  - change (groups (w :: w' :: ws)) with (string_hex w ++ colon :: groups (w' :: ws)). rewrite <- app_assoc, skip_digits by done. apply colon_family.
Qed.

Lemma ParseAddr_String a : addr_ok a -> IsValid a = true -> ParseAddr (Addr_String a) = Some a.
Proof.
  destruct a as [|b|b]; [done|..]; intros Ha _; unfold ParseAddr.
  - cbn [Addr_String]. destruct Ha as [Hl Hb]. pose proof (parse_string4 b (conj Hl Hb)) as Hp. revert Hp. generalize (string4 b) at 1 3 as s. intros s Hp.
    do 5 (destruct b as [|? b]; try discriminate). apply Forall_cons in Hb as [Hx%chars_octet _]. unfold string4. rewrite skip_digits.
    + cbn [app ParseAddr_at]. change 46 with dot. rewrite Z.eqb_refl. by rewrite Hp.
    + eapply Forall_impl; [exact Hx|]. unfold dot, colon. intros c; cbn. lia.
  - destruct (Is4In6 (Addr6 b)) eqn:Em.
    + destruct (string4_in_mapped b Ha Em) as [Eb Hb]. assert (E : Addr_String (Addr6 b) = [58; 58; 102; 102; 102; 102; 58] ++ string4 (drop 12 b)) by (unfold Addr_String; by rewrite Em).
      rewrite E at 1. cbn [app]. rewrite colon_family, E, parse_mapped by done. by rewrite <- Eb.
    + assert (Hp : parseIPv6 (Addr_String (Addr6 b)) = Some b) by (unfold Addr_String; rewrite Em; by apply parse_string6).
      rewrite <- (fmap_Some_2 Addr6 _ _ Hp). generalize (Addr_String (Addr6 b)) at 2 3 as s. intros s.
      destruct (addr6_text b Ha Em) as (ws & ws' & Hw & Hw' & [[Hl ->]| ->]).
      * destruct ws as [|w [|w' ws]]; [done..|]. rewrite <- (app_nil_r (groups _)). apply groups_family; [done|by left].
      * destruct ws as [|w ws]; [apply colon_family|]. apply groups_family; [done|right]. eexists. done.
Qed.

(** A length, after the slash. *)
Definition length_text (n : nat) : bool :=
  let t := Itoa (Z.of_nat n) in
  forallb (fun c => negb (c =? slash)) t && bool_decide (Atoi t 0 = Some (Z.of_nat n)) &&
  match t with [] => false | c :: more => bool_decide (more = []) || negb ((c <? 49) || (57 <? c)) end.

Lemma length_texts : forallb length_text (seq 0 129) = true.
Proof. vm_compute. reflexivity. Qed.

Lemma last_slash_app a s : Forall (fun c => c <> slash) s -> last_slash (a ++ slash :: s) = Some (a, s).
Proof.
  intros Hs. assert (Hn : last_slash s = None).
  { induction Hs as [|c s Hc _ IH]; [done|]. cbn [last_slash]. by rewrite IH, (proj2 (Z.eqb_neq _ _) Hc). }
  induction a as [|c a IH]; cbn [app last_slash]; [by rewrite Hn, Z.eqb_refl|by rewrite IH].
Qed.

Lemma ParsePrefix_String p : prefix_ok p -> ParsePrefix (Prefix_String p) = Some p.
Proof.
  destruct p as [a n]. unfold prefix_ok, Prefix_String, PrefixIsValid. cbn [p_addr p_bits]. intros (Ha & Hv & Hn).
  rewrite (proj2 (Z.leb_le 0 n)) by lia. unfold ParsePrefix. change (text "/") with [slash]. cbn [app].
  assert (Ht : length_text (Z.to_nat n) = true).
  { apply (proj1 (List.forallb_forall _ _) length_texts). apply List.in_seq. destruct a; cbn [BitLen] in Hn; lia. }
  unfold length_text in Ht. rewrite Z2Nat.id in Ht by lia. revert Ht. generalize (Itoa n) as t. intros t [[Hs Ht]%andb_true_iff Hh]%andb_true_iff.
  rewrite last_slash_app. 2:{ apply List.Forall_forall. intros c Hc. apply (proj1 (List.forallb_forall _ _) Hs) in Hc. by apply negb_true_iff, Z.eqb_neq in Hc. }
  cbn [mbind option_bind]. rewrite bool_decide_false.
  2:{ intros Hc. apply (proj1 (Forall_forall _ _) (chars_addr a Ha Hv)) in Hc. unfold addr_char, percent in Hc. lia. }
  rewrite ParseAddr_String by done. cbn [mbind option_bind]. apply bool_decide_eq_true in Ht. destruct t as [|c more]; [done|].
  rewrite Ht. cbn [mbind option_bind]. rewrite (proj2 (Z.ltb_ge (BitLen a) n)) by lia.
  replace (negb (bool_decide (more = [])) && ((c <? 49) || (57 <? c))) with false by (destruct (bool_decide (more = [])), ((c <? 49) || (57 <? c)); done).
  unfold PrefixFrom. rewrite Hv. rewrite (proj2 (Z.leb_le 0 n)), (proj2 (Z.leb_le n (BitLen a))) by lia. done.
Qed.

(** ** The address the service listens on *)

Lemma cut_last_app c a s : Forall (fun x => x <> c) s -> cut_last c (a ++ c :: s) = Some (a, s).
Proof.
  intros Hs. assert (Hn : cut_last c s = None).
  { induction Hs as [|x s Hx _ IH]; [done|]. cbn [cut_last]. by rewrite IH, (proj2 (Z.eqb_neq _ _) Hx). }
  induction a as [|x a IH]; cbn [app cut_last]; [by rewrite Hn, Z.eqb_refl|by rewrite IH].
Qed.
Lemma cut_first_app c a s : Forall (fun x => x <> c) a -> cut_first c (a ++ c :: s) = Some (a, s).
Proof. intros Ha. induction Ha as [|x a Hx _ IH]; cbn [app cut_first]; [by rewrite Z.eqb_refl|]. by rewrite (proj2 (Z.eqb_neq _ _) Hx), IH. Qed.
Lemma cut_first_none c s : Forall (fun x => x <> c) s -> cut_first c s = None.
Proof. intros Hs. induction Hs as [|x s Hx _ IH]; [done|]. cbn [cut_first]. by rewrite (proj2 (Z.eqb_neq _ _) Hx), IH. Qed.

Lemma not_in c (s : bytes) : Forall (fun x => x <> c) s -> c ∉ s.
Proof. rewrite Forall_forall. intros Hs Hc. by apply (Hs c). Qed.

(** [net.JoinHostPort] of an address. *)
Definition JoinHostPort (a : Addr) (port : bytes) : bytes :=
  match a with
  | Addr6 _ => open_bracket :: Addr_String a ++ [close_bracket; colon] ++ port
  | _ => Addr_String a ++ colon :: port
  end.

Definition digits_only (s : bytes) : Prop := Forall (fun c => 48 <= c <= 57) s.

Lemma v4_chars b : bytes_ok b -> Forall (fun c => c = 46 \/ 48 <= c <= 57) (string4 b).
Proof.
  intros Hb. do 4 (destruct b as [|? b]; [constructor|]). destruct b; [|constructor]. repeat (apply Forall_cons in Hb as [? Hb]). unfold string4.
  assert (Ho : forall x, byte_ok x -> Forall (fun c => c = 46 \/ 48 <= c <= 57) (decimal_octet x)).
  { intros x Hx. eapply Forall_impl; [by apply chars_octet|]. intros c; cbn. lia. }
  repeat (apply Forall_app; split; [auto; by repeat constructor|]). auto.
Qed.

Lemma SplitHostPort_Join a port : addr_ok a -> IsValid a = true -> digits_only port -> SplitHostPort (JoinHostPort a port) = Some (Addr_String a).
Proof.
  intros Ha Hv Hp. pose proof (chars_addr a Ha Hv) as Hc. unfold SplitHostPort, JoinHostPort, digits_only in *.
  assert (Hpc : Forall (fun x => x <> colon) port) by (eapply Forall_impl; [exact Hp|]; unfold colon; intros c; cbn; lia).
  assert (Hpb : Forall (fun x => x <> close_bracket /\ x <> open_bracket) port) by (eapply Forall_impl; [exact Hp|]; unfold close_bracket, open_bracket; intros c; cbn; lia).
  assert (Hab : Forall (fun x => x <> close_bracket /\ x <> open_bracket) (Addr_String a)).
  { eapply Forall_impl; [exact Hc|]. unfold addr_char, close_bracket, open_bracket. intros c; cbn. lia. }
  assert (Hs : forall (P Q : Z -> Prop) s, Forall (fun x => P x /\ Q x) s -> Forall P s /\ Forall Q s).
  { intros P Q s Hpq. split; (eapply Forall_impl; [exact Hpq|]; by intros x [? ?]). }
  apply Hs in Hpb as [Hp1 Hp2]. apply Hs in Hab as [Ha1 Ha2].
  destruct a as [|b|b]; [done|..].
  - cbn [Addr_String] in *. rewrite cut_last_app by done. cbn [mbind option_bind].
    assert (Hn : Forall (fun x => x <> open_bracket /\ x <> close_bracket) (string4 b ++ colon :: port)).
    { apply Forall_app; split; [apply Forall_and; by split|]. constructor; [done|]. apply Forall_and; by split. }
    destruct (string4 b ++ colon :: port) as [|x rest] eqn:E; [by apply app_eq_nil in E as [_ ?]|].
    pose proof Hn as Hn'. apply Forall_cons in Hn' as [[Hx _] _]. rewrite (proj2 (Z.eqb_neq _ _) Hx). apply Hs in Hn as [Hn1 Hn2].
    rewrite !bool_decide_false; [done|by apply not_in..|]. apply not_in. eapply Forall_impl; [apply v4_chars, Ha|]. unfold colon. intros c; cbn. lia.
  - change (open_bracket :: Addr_String (Addr6 b) ++ [close_bracket; colon] ++ port) with ([open_bracket] ++ Addr_String (Addr6 b) ++ [close_bracket] ++ colon :: port).
    rewrite !app_assoc. rewrite cut_last_app by done. cbn [mbind option_bind]. rewrite <- !app_assoc. cbn [app]. rewrite Z.eqb_refl.
    rewrite cut_first_app by done. cbn [mbind option_bind]. rewrite bool_decide_true by done.
    rewrite !bool_decide_false; [done|by apply not_in|]. apply not_in. apply Forall_app; split; [done|]. by repeat constructor.
Qed.

Lemma not_unix a port : addr_ok a -> IsValid a = true -> strip (text "unix://") (JoinHostPort a port) = None.
Proof.
  intros Ha Hv. pose proof (chars_addr a Ha Hv) as Hc. unfold strip. rewrite bool_decide_false; [done|]. intros E. apply (f_equal head) in E.
  change (head (text "unix://")) with (Some 117) in E. unfold JoinHostPort in E.
  assert (Hd : forall t, head (take (length (text "unix://")) (Addr_String a ++ colon :: t)) <> Some 117).
  { intros t Ht. destruct (Addr_String a) as [|c s]; cbn in Ht; [done|]. apply Forall_cons in Hc as [Hc _]. injection Ht as ->. unfold addr_char, slash in Hc. lia. }
  destruct a as [|b|b]; [done|by apply Hd in E|done].
Qed.

(** The daemon refuses the unauthenticated service on every address that is not a
    loopback one, however it is written. *)
Theorem listen_guard a port : addr_ok a -> IsValid a = true -> digits_only port ->
  nonLoopbackAPI (JoinHostPort a port) = negb (IsLoopback a) /\ may_listen (JoinHostPort a port) false = IsLoopback a.
Proof.
  intros Ha Hv Hp. assert (E : nonLoopbackAPI (JoinHostPort a port) = negb (IsLoopback a)).
  { unfold nonLoopbackAPI, parseAPIListen. rewrite not_unix, SplitHostPort_Join by done. unfold ParseAddr_zone. rewrite cut_first_none.
    - rewrite ParseAddr_String by done. pose proof (ParseAddr_String a Ha Hv) as Hs. by destruct (Addr_String a).
    - eapply Forall_impl; [by apply chars_addr|]. unfold addr_char, percent. intros c; cbn. lia. }
  split; [done|]. unfold may_listen. rewrite E. by destruct (IsLoopback a).
Qed.

(** Every interface, and host names. *)
Lemma listen_any port : digits_only port -> may_listen (colon :: port) false = false.
Proof.
  intros Hp. unfold may_listen, nonLoopbackAPI, parseAPIListen. unfold strip. rewrite bool_decide_false by done.
  unfold SplitHostPort. change (colon :: port) with ([] ++ colon :: port). unfold digits_only in Hp.
  rewrite cut_last_app by (eapply Forall_impl; [exact Hp|]; unfold colon; intros c; cbn; lia). cbn [mbind option_bind app].
  change (colon =? open_bracket) with false. cbv iota. rewrite (bool_decide_false (colon ∈ [])) by apply not_elem_of_nil.
  assert (Hb : forall c, c = open_bracket \/ c = close_bracket -> c ∉ colon :: port).
  { unfold open_bracket, close_bracket. intros c Hc. apply not_in. constructor; [unfold colon; lia|]. eapply Forall_impl; [exact Hp|]. intros x; cbn. lia. }
  rewrite (bool_decide_false (open_bracket ∈ _)), (bool_decide_false (close_bracket ∈ _)) by auto. done.
Qed.

(** ** What a request means *)

Lemma parseSystemID_String id : arr 6 id -> parseSystemID (SystemID_String id) = Some id.
Proof.
  intros Hi. unfold parseSystemID. fold (undot (SystemID_String id)). rewrite undot_id, decode_octets by apply Hi. cbn [mbind option_bind].
  by rewrite (proj1 Hi).
Qed.

Lemma DecodeString_ok s b : DecodeString s = Some b -> bytes_ok b.
Proof.
  revert s b. fix IH 1. destruct s as [|x [|y s]]; intros b; cbn [DecodeString]; [intros [= <-]; constructor|done|].
  intros (u & Hu%hex_value_bounds & (v & Hv%hex_value_bounds & (r & Hr%IH & [= <-])%bind_Some)%bind_Some)%bind_Some.
  constructor; [unfold byte_ok; lia|done].
Qed.
Lemma parseSystemID_ok s id : parseSystemID s = Some id -> arr 6 id.
Proof.
  intros (raw & Hr%DecodeString_ok & Hc)%bind_Some. destruct (Nat.eqb_spec (length raw) 6); [|done]. injection Hc as <-. done.
Qed.

(** The numbers of a request are its operation's, unchanged. *)
Inductive means : request -> operation -> Prop :=
  | means_add_locator t p a : ParsePrefix t = Some p -> a = 0 \/ 128 <= a <= 255 ->
      means (AddLocatorRequest t a) (OpAddLocator (mkLocatorConfig p a))
  | means_delete_locator t p : ParsePrefix t = Some p -> means (DeleteLocatorRequest t) (OpDeleteLocator p)
  | means_add_algo a mt prio adv : 128 <= a <= 255 -> mt <= 255 -> prio <= 255 ->
      means (AddFlexAlgoRequest a mt prio adv) (OpAddFlexAlgo (mkFlexAlgoConfig a mt prio adv))
  | means_delete_algo a : 128 <= a <= 255 -> means (DeleteFlexAlgoRequest a) (OpDeleteFlexAlgo a)
  | means_add_prefix t p m : ParsePrefix t = Some p -> means (AddPrefixRequest t m) (OpAddPrefix (mkAdvertised p m))
  | means_delete_prefix t p : ParsePrefix t = Some p -> means (DeletePrefixRequest t) (OpDeletePrefix p)
  | means_overload on : means (SetOverloadRequest on) (OpSetOverload on)
  | means_clear_all name : means (ClearAdjacencyRequest name []) (OpClearAdjacency name None)
  | means_clear name t id : t <> [] -> parseSystemID t = Some id -> means (ClearAdjacencyRequest name t) (OpClearAdjacency name (Some id)).

(** uint32 fields. *)
Definition request_ok (q : request) : Prop :=
  match q with
  | AddLocatorRequest _ a | DeleteFlexAlgoRequest a | AddPrefixRequest _ a => u32_ok a
  | AddFlexAlgoRequest a mt prio _ => u32_ok a /\ u32_ok mt /\ u32_ok prio
  | _ => True
  end.

Lemma then_inl {A B} (r : A + Code) (f : A -> B + Code) b : then_ r f = inl b <-> exists a, r = inl a /\ f a = inl b.
Proof. destruct r as [a|c]; cbn; [|naive_solver]. split; [eauto|]. by intros (? & [= ->] & ?). Qed.
Lemma then_inr {A B} (r : A + Code) (f : A -> B + Code) c : then_ r f = inr c -> r = inr c \/ exists a, r = inl a /\ f a = inr c.
Proof. destruct r as [a|c']; cbn; [eauto|]. intros [= ->]. by left. Qed.
Lemma parsed_inl {A} (r : option A) a : parsed r = inl a <-> r = Some a.
Proof. destruct r; cbn; naive_solver. Qed.

Lemma flexAlgoNumber_inl v a : valid (flexAlgoNumber v) = inl a <-> a = v /\ 128 <= v <= 255.
Proof.
  unfold flexAlgoNumber. destruct (_ || _) eqn:E; cbn; [split; [done|lia]|]. rewrite u8_id by (unfold byte_ok; lia). split; [intros [= <-]; lia|by intros [-> _]].
Qed.
Lemma locatorAlgo_inl v a : valid (locatorAlgo v) = inl a <-> a = v /\ (v = 0 \/ 128 <= v <= 255).
Proof.
  unfold locatorAlgo. destruct (Z.eqb_spec v 0) as [->|].
  - cbn. split; [intros [= <-]; tauto|by intros [-> _]].
  - rewrite flexAlgoNumber_inl. intuition lia.
Qed.
Lemma uint8FromProto_inl v a : 0 <= v -> valid (uint8FromProto v) = inl a <-> a = v /\ v <= 255.
Proof.
  intros Hv. unfold uint8FromProto. destruct (Z.ltb_spec 255 v); cbn; [split; [done|lia]|]. rewrite u8_id by (unfold byte_ok; lia). split; [intros [= <-]; lia|by intros [-> _]].
Qed.

Lemma decode_means q op : request_ok q -> decode q = inl op <-> means q op.
Proof.
  intros Hq. destruct q as [t a|t|a mt prio adv|a|t m|t|on|name raw]; cbn [decode request_ok] in *;
    unfold decode_AddLocator, decode_DeleteLocator, decode_AddFlexAlgo, decode_DeleteFlexAlgo, decode_AddPrefix, decode_DeletePrefix, decode_ClearAdjacency.
  - rewrite then_inl. setoid_rewrite parsed_inl. setoid_rewrite then_inl. setoid_rewrite locatorAlgo_inl. split.
    + intros (p & Hp & a' & [-> Ha] & [= <-]). by constructor.
    + inversion 1; subst. eauto 10.
  - rewrite then_inl. setoid_rewrite parsed_inl. split; [intros (p & Hp & [= <-]); by constructor|inversion 1; subst; eauto].
  - destruct Hq as (_ & Hm & Hp). unfold u32_ok in *. rewrite then_inl. setoid_rewrite flexAlgoNumber_inl. setoid_rewrite then_inl. setoid_rewrite then_inl. split.
    + intros (? & [-> Ha] & ? & [-> Hm']%uint8FromProto_inl & ? & [-> Hp']%uint8FromProto_inl & [= <-]); [by constructor|lia..].
    + inversion 1; subst. eexists. split; [done|]. eexists. split; [by apply uint8FromProto_inl; [lia|]|].
      eexists. split; [by apply uint8FromProto_inl; [lia|]|done].
  - rewrite then_inl. setoid_rewrite flexAlgoNumber_inl. split; [intros (? & [-> Ha] & [= <-]); by constructor|inversion 1; subst; eauto].
  - rewrite then_inl. setoid_rewrite parsed_inl. split; [intros (p & Hp & [= <-]); by constructor|inversion 1; subst; eauto].
  - rewrite then_inl. setoid_rewrite parsed_inl. split; [intros (p & Hp & [= <-]); by constructor|inversion 1; subst; eauto].
  - split; [intros [= <-]; constructor|by inversion 1].
  - destruct raw as [|c raw]; [split; [intros [= <-]; constructor|by inversion 1; subst]|]. rewrite then_inl. setoid_rewrite parsed_inl. split.
    + intros (id & Hi & [= <-]). by constructor.
    + inversion 1; subst. eauto.
Qed.

Lemma decode_code q c : decode q = inr c -> c = CodeInvalidArgument.
Proof.
  assert (Hp : forall A (r : option A) c, parsed r = inr c -> c = CodeInvalidArgument) by (intros A [] c'; by intros [= <-]).
  assert (Hf : forall v c, valid (flexAlgoNumber v) = inr c -> c = CodeInvalidArgument) by (unfold flexAlgoNumber; intros v c'; case_match; by intros [= <-]).
  assert (Hl : forall v c, valid (locatorAlgo v) = inr c -> c = CodeInvalidArgument) by (unfold locatorAlgo; intros v c'; case_match; [done|apply Hf]).
  assert (Hu : forall v c, valid (uint8FromProto v) = inr c -> c = CodeInvalidArgument) by (unfold uint8FromProto; intros v c'; case_match; by intros [= <-]).
  destruct q as [| | | | | | |name [|c' raw]]; cbn [decode]; try done;
    unfold decode_AddLocator, decode_DeleteLocator, decode_AddFlexAlgo, decode_DeleteFlexAlgo, decode_AddPrefix, decode_DeletePrefix, decode_ClearAdjacency;
    repeat (intros [?|(? & _ & ?)]%then_inr; [eauto|revert select (_ = inr c)]); done.
Qed.

(** The operations the service offers, and a request for each. *)
Definition spell (op : operation) : option request :=
  match op with
  | OpAddLocator lc => Some (AddLocatorRequest (Prefix_String (LC_Prefix lc)) (LC_Algo lc))
  | OpDeleteLocator p => Some (DeleteLocatorRequest (Prefix_String p))
  | OpAddFlexAlgo fa => Some (AddFlexAlgoRequest (FC_Algo fa) (FC_MetricType fa) (FC_Priority fa) (FC_AdvertiseDefinition fa))
  | OpDeleteFlexAlgo a => Some (DeleteFlexAlgoRequest a)
  | OpAddPrefix ap => Some (AddPrefixRequest (Prefix_String (AP_Prefix ap)) (AP_Metric ap))
  | OpDeletePrefix p => Some (DeletePrefixRequest (Prefix_String p))
  | OpSetOverload on => Some (SetOverloadRequest on)
  | OpClearAdjacency name id => Some (ClearAdjacencyRequest name (match id with Some x => SystemID_String x | None => [] end))
  | _ => None
  end.

Definition expressible (op : operation) : Prop :=
  match op with
  | OpAddLocator lc => prefix_ok (LC_Prefix lc) /\ (LC_Algo lc = 0 \/ 128 <= LC_Algo lc <= 255)
  | OpDeleteLocator p | OpDeletePrefix p => prefix_ok p
  | OpAddFlexAlgo fa => 128 <= FC_Algo fa <= 255 /\ byte_ok (FC_MetricType fa) /\ byte_ok (FC_Priority fa)
  | OpDeleteFlexAlgo a => 128 <= a <= 255
  | OpAddPrefix ap => prefix_ok (AP_Prefix ap) /\ u32_ok (AP_Metric ap)
  | OpSetOverload _ => True
  | OpClearAdjacency _ id => match id with Some x => arr 6 x | None => True end
  | _ => False
  end.

Lemma id_not_nil id : arr 6 id -> SystemID_String id <> [].
Proof. intros [Hl _]. do 7 (destruct id as [|? id]; try discriminate). Qed.

Lemma spell_means op : expressible op -> exists q, spell op = Some q /\ request_ok q /\ means q op.
Proof.
  destruct op as [[p a]|p|[a mt prio adv]|a|[p m]|p|on|name [id|]| | | |]; cbn; try done; intros Ho; eexists; (split; [reflexivity|]);
    (split; [cbn; unfold byte_ok, u32_ok in *; intuition lia|]); constructor;
    try (apply ParsePrefix_String); try done; try (unfold byte_ok in *; lia); try tauto; [by apply id_not_nil|by apply parseSystemID_String].
Qed.

Lemma means_expressible q op : request_ok q -> means q op -> expressible op.
Proof.
  intros Hq Hm. destruct Hm; cbn in *; try done; try (by eapply ParsePrefix_ok).
  - split; [by eapply ParsePrefix_ok|done].
  - unfold byte_ok, u32_ok in *. lia.
  - split; [by eapply ParsePrefix_ok|done].
  - by eapply parseSystemID_ok.
Qed.

(** ** What a call answers *)

(** The loop runs the operation of the call. *)
Definition performed (t : call) : Prop := early t = None /\ offered t = Sent /\ drained t = false.

Definition given_up (c : Code) : Prop := c = CodeUnavailable \/ c = CodeCanceled \/ c = CodeDeadlineExceeded.

Lemma mgmt_performed {S A} t (f : S -> outcome (S * (A + callError))) s s' r :
  performed t -> mgmtOperation t f s = Ok (s', r) ->
  exists r0, f s = Ok (s', r0) /\ (r = r0 \/ awaited t <> Answered /\ exists e, r = inr e /\ given_up (toConnectError e)).
Proof.
  unfold mgmtOperation, mgmtOperationQueued, given_up. intros (-> & -> & ->) ([s1 qr] & ([s2 r0] & Hf & [= <- <-])%bind_Ok & [= <- <-])%bind_Ok. exists r0.
  split; [done|]. cbn [snd]. destruct (awaited t) as [|[]|[]]; [by left|right|right|by left|right]; (split; [done|]); eexists; (split; [reflexivity|]); cbn; tauto.
Qed.

Lemma mgmt_unperformed {S A} t (f : S -> outcome (S * (A + callError))) s s' r :
  ~ performed t -> mgmtOperation t f s = Ok (s', r) -> s' = s /\ exists e, r = inr e /\ given_up (toConnectError e).
Proof.
  unfold performed, mgmtOperation, mgmtOperationQueued, given_up. intros Hp ([s1 qr] & Hq & [= <- <-])%bind_Ok.
  destruct (early t) as [[]|]; [injection Hq as <- <-; split; [done|]; eexists; (split; [reflexivity|]); cbn; tauto..|].
  destruct (offered t) as [|[]|]; [|injection Hq as <- <-; split; [done|]; eexists; (split; [reflexivity|]); cbn; tauto..].
  destruct (drained t); [|by destruct Hp]. injection Hq as <- <-. split; [done|]. cbn [snd].
  destruct (awaited t) as [|[]|[]]; eexists; (split; [reflexivity|]); cbn; tauto.
Qed.

Lemma read_answered {S A B} t (v : S -> A) (f : A -> B) s : performed t -> awaited t = Answered -> listing v f t s = Ok (s, inl (f (v s))).
Proof. intros (E1 & E2 & E3) E4. unfold listing, mgmtOperation, mgmtOperationQueued. by rewrite E1, E2, E3, E4. Qed.

Lemma handle_request_eq {S} `{Api S} t q (s : S) : handle_request t q s = call_server t (decode q) s.
Proof. by destruct q. Qed.

Lemma request_answered {S} `{Api S} t q op s s' e : performed t -> awaited t = Answered -> decode q = inl op -> issue op s = Ok (s', e) ->
  handle_request t q s = Ok (s', match e with None => inl () | Some _ => inr CodeInvalidArgument end).
Proof.
  intros (E1 & E2 & E3) E4 Eq Ei. rewrite handle_request_eq, Eq. unfold call_server. unfold mgmtOperation, mgmtOperationQueued, run_op. rewrite E1, E2, E3, Ei.
  cbn. rewrite E4. by destruct e.
Qed.

(** C10: Every operation the service offers can be asked for, whatever its prefix,
    system ID or numbers: its texts and numbers, as the service prints them, are
    decoded to it.  A request is decoded to an operation only if each of its numbers
    is the operation's, so that none is truncated; every other is answered with
    InvalidArgument, and the server is not called.  A call that the loop runs leaves
    the server as the operation does, once: it is only answered with success if the
    server accepted it, and with InvalidArgument if the server refused it, and so it
    is if the answer was waited for.  A call that the loop does not run leaves the
    server as it was and is never answered with success. *)
Theorem request_answers {S : Type} `{Api S} :
  (forall op, expressible op -> exists q, spell op = Some q /\ decode q = inl op) /\
  (forall t q s s' r, request_ok q -> handle_request t q s = Ok (s', r) ->
    match decode q with
    | inr c => (forall op, ~ means q op) /\ c = CodeInvalidArgument /\ r = inr c /\ s' = s
    | inl op =>
        (forall op', means q op' <-> op' = op) /\ expressible op /\
        (performed t -> exists e, issue op s = Ok (s', e) /\
          (r = inl () -> e = None) /\ (r = inr CodeInvalidArgument -> is_Some e) /\
          (awaited t = Answered -> r = match e with None => inl () | Some _ => inr CodeInvalidArgument end)) /\
        (~ performed t -> s' = s /\ exists c, r = inr c /\ given_up c)
    end).
Proof.
  split.
  - intros op (q & Es & Hq & Hm)%spell_means. exists q. split; [done|]. by apply decode_means.
  - intros t q s s' r Hq. rewrite handle_request_eq. unfold call_server. pose proof (fun op => decode_means q op Hq) as Hd. destruct (decode q) as [op|c] eqn:Eq.
    + intros ([s1 r1] & Hr & [= <- <-])%bind_Ok. split_and!.
      * intros op'. rewrite <- Hd. naive_solver.
      * eapply means_expressible; [done|by apply Hd].
      * intros Hp. destruct (mgmt_performed _ _ _ _ _ Hp Hr) as (r0 & ([s2 e] & Hi & [= <- <-])%bind_Ok & Hr0). exists e. split; [done|].
        destruct Hr0 as [->|(Ha & e' & -> & Hg)]; [destruct e; cbn; naive_solver|].
        unfold respond, given_up in *. split_and!; [done| |done]. intros [= E]. rewrite E in Hg. by destruct Hg as [|[|]].
      * intros Hp. destruct (mgmt_unperformed _ _ _ _ _ Hp Hr) as (-> & e & -> & Hg). split; [done|]. by eexists.
    + intros [= <- <-]. split_and!; [|by eapply decode_code|done..]. intros op Hm%Hd. done.
Qed.

(** ** The transport of a circuit that is added *)

(** An operation that ran has answered by the time the instance is done. *)
Definition consistent (t : call) : Prop := awaited t = AwaitStopped false -> drained t = true.

(** The caller stopped waiting, and then the loop stopped without the operation. *)
Definition abandoned (t : call) : Prop := early t = None /\ offered t = Sent /\ drained t = true /\ exists e, awaited t = AwaitDone e.

(** C27: The transport handed to AddCircuit is closed exactly once if no circuit runs
    on it, and never if one does, whatever the caller's context and the instance's
    shutdown do to the call - but for one way: if the caller's context ends while the
    addition is queued and the instance then stops, the addition is drained without
    having run and nobody closes the transport. *)
Theorem transport_handed_over {S : Type} `{Api S} t k conn (s : S) s' closes r :
  consistent t -> AddCircuit t k conn (s, 0%nat) = Ok (s', closes, r) ->
  (performed t -> exists e, issue (OpAddCircuit k conn) s = Ok (s', e) /\ closes = match e with None => 0%nat | Some _ => 1%nat end) /\
  (~ performed t -> s' = s /\ r <> inl () /\ (abandoned t -> closes = 0%nat) /\ (~ abandoned t -> closes = 1%nat)).
Proof.
  unfold consistent, performed, abandoned, AddCircuit, mgmtOperationQueued. destruct t as [[e|] o d a]; cbn [early offered drained awaited].
  { intros _ [= <- <- <-]. split; [by intros [? _]|]. intros _. split_and!; try done. by intros [? _]. }
  intros Hc. destruct o as [|e|]; [|intros [= <- <- <-]; (split; [by intros (_ & ? & _)|]); intros _; split_and!; try done; by intros (_ & ? & _)..].
  destruct d; intros ([sc [b r0]] & ([s1 r1] & E1 & E2)%bind_Ok & E3)%bind_Ok.
  - injection E1 as <- <-. injection E2 as <- <- <-. cbn in E3. split; [by intros (_ & _ & ?)|]. intros _.
    destruct a as [|e|[|]]; injection E3 as <- <- <-; (split_and!; try done); try (by intros (_ & _ & _ & ? & ?)); intros Hn; exfalso; apply Hn; eauto 10.
  - apply bind_Ok in E1 as ([s2 e] & Hi & E1). injection E2 as <- <- <-. split; [|by intros []]. intros _. exists e.
    destruct e as [e|]; injection E1 as <- <-; destruct a as [|[]|[|]]; cbn in E3; injection E3 as <- <- <-; try (by specialize (Hc eq_refl)); done.
Qed.

(** ** A node behind the service *)

(** The orders in which the reads visit the maps of a node. *)
Record lookout (F : Type) : Type := mkLookout {
  at_levels : list Level;
  at_lsps : Node F -> visits;
  at_adjs : Node F -> nat -> Level -> list (SystemID * adjacency);
  at_routes : gmap Prefix RouteInfo -> list (Prefix * RouteInfo);
  at_algos : gmap Z FlexAlgoInfo -> list (Z * FlexAlgoInfo)
}.

Definition sees_all {F} (w : lookout F) : Prop :=
  forall n i l c, circuits (core n) !! i = Some c -> at_adjs F w n i l ≡ₚ map_to_list (adjs_at c l).

(** *** Locators *)

Lemma filter_all {A} (P : A -> Prop) `{forall x, Decision (P x)} l : Forall P l -> filter P l = l.
Proof. intros Hl. induction Hl as [|x l Hx _ IH]; [done|]. rewrite filter_cons_True by done. by rewrite IH. Qed.

Lemma elem_of_concat {A} (x : A) xs : x ∈ concat xs <-> exists l, l ∈ xs /\ x ∈ l.
Proof. setoid_rewrite list_elem_of_In. rewrite List.in_concat. naive_solver. Qed.

Lemma delete_found {A B} `{EqDecision B} (key : A -> B) k l i x :
  NoDup (key <$> l) -> list_find (fun y => key y = k) l = Some (i, x) -> delete i l = filter (fun y => key y <> k) l.
Proof.
  revert i. induction l as [|y l IH]; intros i Hn Hf; [done|]. cbn in Hn. apply NoDup_cons in Hn as [Hy Hn]. cbn in Hf. rewrite filter_cons.
  destruct (decide (key y = k)) as [Hk|Hk].
  - injection Hf as <- <-. rewrite decide_False by tauto. cbn. symmetry. apply filter_all, Forall_forall. intros z Hz Hzk. apply Hy.
    apply list_elem_of_fmap. exists z. split; [congruence|done].
  - destruct (list_find _ l) as [[j z]|] eqn:Ef; [|done]. injection Hf as <- ->. rewrite decide_True by done. cbn. f_equal. by apply IH.
Qed.

Lemma filter_fmap_iff {A B} (f : A -> B) (P : A -> Prop) (Q : B -> Prop) `{forall x, Decision (P x)} `{forall y, Decision (Q y)} l :
  Forall (fun x => P x <-> Q (f x)) l -> f <$> filter P l = filter Q (f <$> l).
Proof.
  intros Hl. induction Hl as [|x l Hx _ IH]; [done|]. cbn [fmap list_fmap]. rewrite !filter_cons.
  destruct (decide (P x)), (decide (Q (f x))); cbn; [by f_equal|tauto..|done].
Qed.

Lemma Prefix_String_inj p q : prefix_ok p -> prefix_ok q -> Prefix_String p = Prefix_String q -> p = q.
Proof. intros Hp%ParsePrefix_String Hq%ParsePrefix_String E. rewrite E in Hp. congruence. Qed.

Section Locators.
Context {F : Type} `{FIB F}.

Lemma locators_listed (n n' : Node F) : endXSIDs n' = endXSIDs n ->
  ListLocators n' = (fun lc => mkLocatorInfo (Masked (LC_Prefix lc)) (LC_Algo lc) (endSID lc) (endXSIDInfos n (Masked (LC_Prefix lc)))) <$> locators (routing n').
Proof using. intros E. unfold ListLocators, endXSIDInfos. by rewrite E. Qed.

Lemma unprogramSID_shown (n : Node F) a : locators (routing (unprogramSID n a)) = locators (routing n) /\ endXSIDs (unprogramSID n a) = endXSIDs n.
Proof using. unfold unprogramSID. repeat (case_match; cbn [fst snd]); done. Qed.

Lemma listed_locator_deleted (n : Node F) lc :
  Forall (fun lc => prefix_ok (LC_Prefix lc)) (locators (routing n)) -> NoDup ((fun lc => Masked (LC_Prefix lc)) <$> locators (routing n)) ->
  lc ∈ locators (routing n) ->
  exists n', DeleteLocator n (Masked (LC_Prefix lc)) = Ok (n', None) /\
    locatorToProto <$> ListLocators n' =
    filter (fun m' => om_prefix m' <> Prefix_String (Masked (LC_Prefix lc))) (locatorToProto <$> ListLocators n).
Proof using.
  intros Hok Hnd Hin. unfold DeleteLocator. rewrite Masked_idem.
  destruct (list_find (fun cur => Masked (LC_Prefix cur) = Masked (LC_Prefix lc)) (locators (routing n))) as [[i x]|] eqn:Ef.
  2:{ apply list_find_None in Ef. rewrite Forall_forall in Ef. by destruct (Ef lc Hin). }
  eexists. split; [reflexivity|]. set (n1 := set_locators n _). destruct (unprogramSID_shown n1 (endSID x)) as [El Ee].
  rewrite (locators_listed n (ask_regen _)) by exact Ee.
  assert (E1 : locators (routing (ask_regen (unprogramSID n1 (endSID x)))) = delete i (locators (routing n))) by exact El. rewrite E1.
  rewrite (delete_found (fun cur => Masked (LC_Prefix cur)) (Masked (LC_Prefix lc)) _ i x Hnd Ef), (locators_listed n n eq_refl).
  rewrite <- !list_fmap_compose. apply filter_fmap_iff. rewrite Forall_forall in *. intros cur Hc.
  cbn. assert (K : forall a, a ∈ locators (routing n) -> prefix_ok (Masked (LC_Prefix a))) by (intros a Ha; by apply Masked_ok, Hok).
  split; intros Hne E; apply Hne; [apply Prefix_String_inj; auto|by rewrite E].
Qed.
End Locators.

(** *** Adjacencies *)

(** An adjacency a listing shows. *)
Definition adjacent (c : circuit) (l : Level) (a : adjacency) : Prop :=
  if P2P (cfg c) then p2pAdj c = Some a /\ l ∈ levelSet_levels (a_levels a)
  else l ∈ cfg_levels (cfg c) /\ exists id, adjs_at c l !! id = Some a.

Lemma adjacencyInfos_adjacent c order now info : (forall l, order l ≡ₚ map_to_list (adjs_at c l)) ->
  info ∈ adjacencyInfos c order now <-> exists l a, adjacent c l a /\ info = infoFor c a l now.
Proof.
  intros Ho. unfold adjacencyInfos, adjacent. destruct (P2P (cfg c)).
  - destruct (p2pAdj c) as [a|]; [|split; [by intros ?%not_elem_of_nil|by intros (l & a & [? _] & _)]].
    rewrite list_elem_of_fmap. naive_solver.
  - rewrite list_elem_of_bind. setoid_rewrite list_elem_of_fmap. split.
    + intros (l & (a & -> & ([id a'] & -> & Ha)%list_elem_of_fmap) & Hl). exists l, a'. rewrite Ho in Ha. apply elem_of_map_to_list in Ha. naive_solver.
    + intros (l & a & [Hl [id Ha]] & ->). exists l. split; [|done]. exists a. split; [done|]. apply list_elem_of_fmap. exists (id, a). split; [done|].
      rewrite Ho. by apply elem_of_map_to_list.
Qed.

Lemma ListAdjacencies_adjacent s ls order adj_order now info :
  (forall i l c, circuits s !! i = Some c -> adj_order i l ≡ₚ map_to_list (adjs_at c l)) ->
  info ∈ ListAdjacencies s ls order adj_order now <->
  exists i c l a, circuits s !! i = Some c /\ adjacent c l a /\
    info = with_hostname (infoFor c a l now) (default [] (hostnameIndex ls order now !! a_systemID a)).
Proof.
  intros Ho. unfold ListAdjacencies. cbv zeta. rewrite elem_of_concat. setoid_rewrite elem_of_lookup_imap. split.
  - intros (xs & (i & c & -> & Hc) & Hx).
    apply list_elem_of_fmap in Hx as (info0 & -> & Hx). apply adjacencyInfos_adjacent in Hx as (l & a & Ha & ->); [|intros l; by apply Ho].
    by exists i, c, l, a.
  - intros (i & c & l & a & Hc & Ha & ->). eexists. split; [by exists i, c|]. apply list_elem_of_fmap. exists (infoFor c a l now).
    split; [done|]. apply adjacencyInfos_adjacent; [intros k; by apply Ho|]. eauto.
Qed.

(** What a drop leaves. *)
Lemma adjacent_dropped adj_order drop s i c now c' l a :
  (forall k m, adj_order k m ≡ₚ map_to_list m) -> circuits s !! i = Some c ->
  circuits (dropAdjacencies adj_order s i c drop now) !! i = Some c' -> cfg c' = cfg c /\ (adjacent c' l a <-> adjacent c l a /\ drop a = false).
Proof.
  intros Ho Hc Hc'. destruct (dropAdjacencies_sweeps adj_order Ho drop s i c now Hc) as (c1 & H1 & Ek & Ha & _).
  rewrite Hc' in H1. injection H1 as <-. split; [done|]. unfold adjacent. rewrite Ek. destruct (P2P (cfg c)).
  - rewrite Ha. destruct (p2pAdj c) as [b|]; cbn [kept]; [|split; [by intros [? _]|by intros [[? _] _]]].
    destruct (drop b) eqn:Ed; (split; [intros [E Hl]|intros [[E Hl] Hd]]); simplify_eq; naive_solver congruence.
  - split.
    + intros [Hl [id Hi]]. rewrite Ha in Hi by done. destruct (adjs_at c l !! id) as [b|] eqn:Eb; cbn [kept] in Hi; [|done].
      destruct (drop b) eqn:Ed; simplify_eq. eauto.
    + intros [[Hl [id Hi]] Hd]. split; [done|]. exists id. rewrite Ha, Hi by done. cbn [kept]. by rewrite Hd.
Qed.

Lemma SystemID_String_inj a b : arr 6 a -> arr 6 b -> SystemID_String a = SystemID_String b -> a = b.
Proof. intros Ha%parseSystemID_String Hb%parseSystemID_String E. rewrite E in Ha. congruence. Qed.

(** A listed adjacency, the host name apart. *)
Definition unnamed (m : AdjacencyMsg) : AdjacencyMsg :=
  mkAdjacencyMsg (am_interface m) (am_level m) (am_system_id m) (am_snpa m) (am_state m) (am_priority m) (am_holding_time m)
    (am_holding_remaining m) [] (am_restarting m) (am_suppressed m).

Section Node.
Context {F : Type} `{FIB F} (hmac : AuthAlgorithm -> bytes -> bytes -> bytes) (o : Oracle) (w : lookout F) (now : Z).
Context (fair_o : forall k m, adj_orders o k m ≡ₚ map_to_list m) (all_seen : sees_all w).

#[local] Instance node_api : Api (Node F) := fun op n => perform hmac o op now n.
#[local] Instance node_views : Views (Node F) := {
  view_global n := GetGlobal (core n) now;
  view_circuits n := ListCircuits (core n);
  view_adjacencies n := ListAdjacencies (core n) (at_levels F w) (at_lsps F w n) (at_adjs F w n) now;
  view_lsdb n := listLSDB (core n) (at_levels F w) (at_lsps F w n) now;
  view_routes n := ListRoutes n (at_routes F w);
  view_locators n := ListLocators n;
  view_flexAlgos n := ListFlexAlgos (core n) (at_lsps F w n) (at_algos F w) now
}.

Lemma listed_adjacency (n : Node F) m :
  m ∈ unnamed <$> (adjacencyToProto <$> view_adjacencies n) <->
  exists i c l a, circuits (core n) !! i = Some c /\ adjacent c l a /\ m = adjacencyToProto (infoFor c a l now).
Proof using all_seen.
  cbn [view_adjacencies node_views]. setoid_rewrite list_elem_of_fmap. setoid_rewrite list_elem_of_fmap.
  setoid_rewrite (ListAdjacencies_adjacent _ _ _ _ _ _ (all_seen n)). split.
  - intros (? & -> & ? & -> & i & c & l & a & Hc & Ha & ->). by exists i, c, l, a.
  - intros (i & c & l & a & Hc & Ha & ->). eexists. split; [|eexists; split; [reflexivity|by exists i, c, l, a]]. done.
Qed.

Definition ids_ok (n : Node F) : Prop := forall i c l a, circuits (core n) !! i = Some c -> adjacent c l a -> arr 6 (a_systemID a).

Lemma listed_adjacency_cleared (n : Node F) m :
  NoDup ((fun c => Name (cfg c)) <$> circuits (core n)) -> ids_ok n -> m ∈ adjacencyToProto <$> view_adjacencies n ->
  exists id n', arr 6 id /\ am_system_id m = SystemID_String id /\ issue (OpClearAdjacency (am_interface m) (Some id)) n = Ok (n', None) /\
    forall k, k ∈ unnamed <$> (adjacencyToProto <$> view_adjacencies n') <->
      k ∈ unnamed <$> (adjacencyToProto <$> view_adjacencies n) /\ ~ (am_interface k = am_interface m /\ am_system_id k = am_system_id m).
Proof using all_seen fair_o.
  intros Hnd Hids Hm. assert (Hu : unnamed m ∈ unnamed <$> (adjacencyToProto <$> view_adjacencies n)) by (apply list_elem_of_fmap; eauto).
  apply listed_adjacency in Hu as (i & c & l & a & Hc & Ha & Em). pose proof (f_equal am_interface Em) as Ei. pose proof (f_equal am_system_id Em) as Es.
  cbn in Ei, Es. rewrite Ei, Es. assert (Hid : arr 6 (a_systemID a)) by (by eapply Hids).
  assert (Hnth : forall j d, circuits (core n) !! j = Some d -> Name (cfg d) = Name (cfg c) -> j = i).
  { intros j d Hj Ed. eapply NoDup_lookup; [exact Hnd| |]; rewrite list_lookup_fmap, ?Hj, ?Hc; cbn; [done|by rewrite Ed]. }
  exists (a_systemID a). cbn [issue node_api perform]. unfold ClearAdjacency.
  destruct (circuitNamed (core n) (Name (cfg c))) as [[j d]|] eqn:Ef.
  2:{ apply list_find_None in Ef. rewrite Forall_forall in Ef. destruct (Ef c); [by eapply list_elem_of_lookup_2|done]. }
  apply list_find_Some in Ef as (Hj & Ed & _). assert (j = i) as -> by (by eapply Hnth). rewrite Hc in Hj. injection Hj as <-.
  eexists. split; [done|]. split; [done|]. split; [reflexivity|]. intros k. rewrite !listed_adjacency. cbn [core set_core]. unfold drop_on. rewrite Hc.
  set (drop := fun a0 => bool_decide (a_systemID a = a_systemID a0)).
  destruct (dropAdjacencies_sweeps (adj_orders o) fair_o drop (core n) i c now Hc) as (c' & Hc' & Ek & _ & Hj & _).
  pose proof (fun l a => adjacent_dropped (adj_orders o) drop (core n) i c now c' l a fair_o Hc Hc') as Hd. split.
  - intros (j' & d & l' & a' & Hj' & Ha' & ->). destruct (decide (j' = i)) as [->|Hne].
    + rewrite Hc' in Hj'. injection Hj' as <-. apply Hd in Ha' as [Ha' Hf%bool_decide_eq_false]. split.
      * exists i, c, l', a'. split_and!; [done..|]. unfold infoFor. by rewrite Ek.
      * cbn. intros [_ E]. apply Hf. symmetry. by eapply SystemID_String_inj; [eapply Hids| |].
    + rewrite Hj in Hj' by done. split; [by exists j', d, l', a'|]. cbn. intros [E _]. by apply Hne, (Hnth _ _ Hj').
  - intros [(j' & d & l' & a' & Hj' & Ha' & ->) Hk]. destruct (decide (j' = i)) as [->|Hne].
    + rewrite Hc in Hj'. injection Hj' as <-. exists i, c', l', a'. split; [done|]. split; [|unfold infoFor; by rewrite Ek]. apply Hd.
      split; [done|]. apply bool_decide_eq_false. intros E. apply Hk. cbn. by rewrite E.
    + exists j', d, l', a'. by rewrite Hj by done.
Qed.

(** C15: What a listing shows can be given back.  Of a node whose locators, circuits
    and neighbors are well formed: the prefix of a listed locator, given to
    DeleteLocator, is accepted, and the listing is then the one before without that
    locator; the interface and the system ID of a listed adjacency, given to
    ClearAdjacency, are accepted, and the listing then shows just the adjacencies of
    before that are of another interface or neighbor, each as it was (the host names
    apart, which come from the database). *)
Theorem listed_deletes (n : Node F) t :
  performed t -> awaited t = Answered ->
  Forall (fun lc => prefix_ok (LC_Prefix lc)) (locators (routing n)) -> NoDup ((fun lc => Masked (LC_Prefix lc)) <$> locators (routing n)) ->
  NoDup ((fun c => Name (cfg c)) <$> circuits (core n)) -> ids_ok n ->
  exists locs adjs, handle_ListLocators t n = Ok (n, inl locs) /\ handle_ListAdjacencies t n = Ok (n, inl adjs) /\
    (forall m, m ∈ locs -> exists n', handle_request t (DeleteLocatorRequest (om_prefix m)) n = Ok (n', inl ()) /\
      handle_ListLocators t n' = Ok (n', inl (filter (fun m' => om_prefix m' <> om_prefix m) locs))) /\
    (forall m, m ∈ adjs -> exists n' adjs', handle_request t (ClearAdjacencyRequest (am_interface m) (am_system_id m)) n = Ok (n', inl ()) /\
      handle_ListAdjacencies t n' = Ok (n', inl adjs') /\
      forall k, k ∈ unnamed <$> adjs' <->
        k ∈ unnamed <$> adjs /\ ~ (am_interface k = am_interface m /\ am_system_id k = am_system_id m)).
Proof using all_seen fair_o.
  intros Ht Ha Hl Hln Hc Hi. eexists _, _. split; [by apply read_answered|]. split; [by apply read_answered|]. split.
  - intros m (li & -> & (lc & -> & Hlc)%list_elem_of_fmap)%list_elem_of_fmap. cbn [om_prefix locatorToProto LI_Prefix].
    destruct (listed_locator_deleted n lc Hl Hln Hlc) as (n' & Hd & Hn'). exists n'. split.
    + apply (request_answered t _ (OpDeleteLocator (Masked (LC_Prefix lc))) n n' None Ht Ha); [|exact Hd]. apply decode_means; [done|]. constructor.
      apply ParsePrefix_String, Masked_ok. rewrite Forall_forall in Hl. by apply Hl.
    + unfold handle_ListLocators. rewrite read_answered by done. do 3 f_equal. exact Hn'.
  - intros m Hm. destruct (listed_adjacency_cleared n m Hc Hi Hm) as (id & n' & Hid & Es & Ho & Hk). exists n'. eexists. split.
    + apply (request_answered t _ (OpClearAdjacency (am_interface m) (Some id)) n n' None Ht Ha); [|exact Ho]. apply decode_means; [done|]. rewrite Es.
      constructor; [by apply id_not_nil|by apply parseSystemID_String].
    + split; [by apply read_answered|exact Hk].
Qed.
End Node.

(** ** The event stream *)

Lemma send_all_prefix wire sent evs out ok : send_all wire sent evs = (out, ok) ->
  exists k, (k <= length evs)%nat /\ out = sent ++ (eventToProto <$> take k evs) /\ ok = (k =? length evs)%nat /\ (ok = false -> wire (length out) = false).
Proof.
  revert sent. induction evs as [|ev evs IH]; intros sent; cbn [send_all].
  - intros [= <- <-]. exists 0%nat. split_and!; [done|by rewrite app_nil_r|done..].
  - destruct (wire (length sent)) eqn:Ew; [|intros [= <- <-]; exists 0%nat; split_and!; [lia|by rewrite app_nil_r|done..]].
    intros (k & Hk & -> & -> & Hw)%IH. exists (S k). split_and!; [cbn; lia| |done..]. by rewrite <- app_assoc.
Qed.

(** The loop over received events and how the channel ends. *)
Lemma stream_loop_sends wire sent evs tail_ :
  stream_loop wire sent ((Next <$> evs) ++ tail_) =
    let '(out, ok) := send_all wire sent evs in if ok then stream_loop wire out tail_ else (out, Some SendFailed).
Proof.
  revert sent. induction evs as [|ev evs IH]; intros sent; [done|]. cbn [fmap list_fmap app stream_loop send_all].
  destruct (wire (length sent)); [apply IH|done].
Qed.

Lemma send_all_app wire sent a b :
  send_all wire sent (a ++ b) = let '(out, ok) := send_all wire sent a in if ok then send_all wire out b else (out, false).
Proof. revert sent. induction a as [|ev a IH]; intros sent; [done|]. cbn [app send_all]. destruct (wire _); [apply IH|done]. Qed.

Lemma WatchEvent_sends wire (incl : bool) sub evs tail_ :
  handle_WatchEvent wire incl sub ((Next <$> evs) ++ tail_) =
    let '(out, ok) := send_all wire [] ((if incl then Initial sub else []) ++ evs) in if ok then stream_loop wire out tail_ else (out, Some SendFailed).
Proof.
  unfold handle_WatchEvent. rewrite send_all_app. destruct (send_all wire [] _) as [out [|]]; [|done]. apply stream_loop_sends.
Qed.

(** A client that keeps the routes it is told of by their text. *)
Definition client_play (m : gmap bytes RouteMsg) (e : EventMsg) : gmap bytes RouteMsg :=
  match e with
  | AdjacencyEventMsg _ => m
  | RouteEventMsg r false => <[rm_prefix r := r]> m
  | RouteEventMsg r true => delete (rm_prefix r) m
  end.
Definition client (es : list EventMsg) : gmap bytes RouteMsg := fold_left client_play es ∅.

Definition routed_ok (ev : Event) : Prop := match ev with AdjacencyChange _ => True | RouteChange r _ => prefix_ok (RI_Prefix r) end.

Lemma client_view evs p : Forall routed_ok evs -> prefix_ok p -> client (eventToProto <$> evs) !! Prefix_String p = routeToProto <$> replay evs ∅ !! p.
Proof.
  intros Hev. unfold client, replay. assert (H0 : forall q, prefix_ok q -> (∅ : gmap bytes RouteMsg) !! Prefix_String q = routeToProto <$> (∅ : view) !! q) by (intros q _; by rewrite !lookup_empty).
  revert p H0. generalize (∅ : gmap bytes RouteMsg) (∅ : view). induction Hev as [|ev evs Hev _ IH]; intros m v p Hm Hp; [by apply Hm|].
  cbn [fmap list_fmap fold_left]. apply IH; [|done]. clear p Hp. intros q Hq. destruct ev as [i|r [|]]; cbn [eventToProto client_play play routed_ok] in *; [by apply Hm|..];
    cbn [rm_prefix routeToProto].
  - destruct (decide (RI_Prefix r = q)) as [->|Hne]; [by rewrite !lookup_delete_eq|]. rewrite !lookup_delete_ne; [by apply Hm|done|].
    intros E. apply Hne. by apply Prefix_String_inj.
  - destruct (decide (RI_Prefix r = q)) as [->|Hne]; [by rewrite !lookup_insert_eq|]. rewrite !lookup_insert_ne; [by apply Hm|done|].
    intros E. apply Hne. by apply Prefix_String_inj.
Qed.

(** What the handler of subscription [k] has seen: the events it has received, and
    then the end of its context, if it has ended ([done]), or the end of the channel
    once that is closed and empty. *)
Definition seen {F} (done : option ctxError) (y : System (F := F)) (k : nat) (w : Subscription) : list stream_event :=
  (Next <$> default [] (received y !! k)) ++
  match done with
  | Some e => [StreamDone e]
  | None => if closed w && bool_decide (ch w = []) then [ChannelClosed (lagged w)] else []
  end.

(** The route a message tells of, up to what a change is not reported for. *)
Definition same_msg (a b : RouteMsg) : Prop :=
  rm_metric a = rm_metric b /\ rm_algorithm a = rm_algorithm b /\ rm_next_hops a = rm_next_hops b.

(** Where the messages are all taken, the stream ends as what it sees does. *)
Lemma WatchEvent_fate {F} wire (incl : bool) done (y : System (F := F)) k w sent fate :
  handle_WatchEvent wire incl w (seen done y k w) = (sent, fate) ->
  let all := (if incl then Initial w else []) ++ default [] (received y !! k) in
  sent `prefix_of` (eventToProto <$> all) /\
  if decide (length sent = length all)
  then sent = eventToProto <$> all /\
    fate = match done with
           | Some e => Some (EndContext e)
           | None => if closed w && bool_decide (ch w = []) then Some (if lagged w then EndCode CodeResourceExhausted else EndOk) else None
           end
  else fate = Some SendFailed /\ wire (length sent) = false.
Proof.
  intros He all. unfold seen in He. rewrite WatchEvent_sends in He. fold all in He. destruct (send_all wire [] all) as [out ok] eqn:Es.
  apply send_all_prefix in Es as (j & Hj & -> & -> & Hwire). cbn [app] in *.
  assert (Hpre : (eventToProto <$> take j all) `prefix_of` (eventToProto <$> all)).
  { exists (eventToProto <$> drop j all). by rewrite <- fmap_app, take_drop. }
  destruct (Nat.eqb_spec j (length all)) as [->|Hne].
  - rewrite take_ge in * by done.
    assert (sent = eventToProto <$> all) as -> by (destruct done; [by injection He|destruct (closed w && _); by injection He]).
    split; [done|]. rewrite decide_True by apply length_fmap. split; [done|].
    destruct done as [e|]; [by injection He|]. by destruct (closed w && bool_decide (ch w = [])); injection He.
  - injection He as <- <-. split; [done|]. rewrite decide_False; [by auto|]. rewrite length_fmap, length_take. lia.
Qed.

(** C14: However the loop and its subscribers run, from a loop with no route and no
    subscriber on, a watch stream sends the events of its subscription, the snapshot first if the client asked for it, in order and none
    left out, and stops before the end only where a send fails.  A client that asked
    for the snapshot and has been sent all there is knows the routing table: under the
    text of each well-formed prefix it holds the table's metric, algorithm and next
    hops, or nothing if the table has none, where what it was sent is well formed.  The subscription is the handler's own, which no one
    else ends.  So where no send has failed, the stream ends with the error of the
    context if that has ended; without an error only if the server has stopped; with
    ResourceExhausted only if at one moment of the run an event was reported while the
    channel was open and held [watcherBuffer] events; and it ends, in one way or the
    other, once the server has stopped and the channel is empty. *)
Theorem watch_streams {F : Type} `{FIB F} {T : Type} `{TentativeSet T} (table : F -> gmap Prefix (list NextHopInfo)) `{!FIBLaws F table}
    hmac (watcher_order : gset nat -> list nat) (x : Loop (F := F)) acts (y : System (F := F)) :
  (forall X, watcher_order X ≡ₚ elements X) -> rib (routing (node x)) = ∅ -> Forall act_fair acts ->
  proceed_all (T := T) hmac watcher_order (ready x) acts = Ok y ->
  forall k w wire incl done sent fate, subs (hub y) !! k = Some w -> k ∉ unsubscribes acts ->
    handle_WatchEvent wire incl w (seen done y k w) = (sent, fate) ->
    let all := (if incl : bool then Initial w else []) ++ default [] (received y !! k) in
    sent `prefix_of` (eventToProto <$> all) /\
    (sent <> eventToProto <$> all -> fate = Some SendFailed /\ wire (length sent) = false) /\
    (sent = eventToProto <$> all -> incl = true -> ch w = [] -> closed w = false -> Forall routed_ok all ->
       forall p, prefix_ok p -> option_Forall2 same_msg (client sent !! Prefix_String p) (routeToProto <$> rib (routing (node (loop y))) !! p)) /\
    (sent = eventToProto <$> all -> fate <> Some SendFailed /\ forall e, fate = Some (EndContext e) <-> done = Some e) /\
    (fate = Some EndOk -> stopped y = true) /\
    (forall c, fate = Some (EndCode c) -> c = CodeResourceExhausted /\
       overrun (T := T) hmac watcher_order (ready x) acts k /\ (watcherBuffer <= length (default [] (received y !! k)))%nat) /\
    (stopped y = true -> ch w = [] -> is_Some fate).
Proof.
  intros Hw Hx Ha Hr k w wire incl done sent fate Hk Hu He all.
  destruct (run_ok table hmac watcher_order Hw x Hx acts Ha y Hr) as [[_ Hy _] Hends]. destruct (Hends k w Hk) as [Hstop Hclosed].
  destruct (WatchEvent_fate _ _ _ _ _ _ _ _ He) as [Hpre Hfate]. fold all in Hpre, Hfate. destruct (decide _) as [El|El].
  2:{ destruct Hfate as [-> Hwire]. split_and!; [done|done| | |done|done|done]; intros E; apply (f_equal length) in E; by rewrite length_fmap in E. }
  destruct Hfate as [Es Ef]. split; [done|]. split; [done|]. split.
  { intros _ Hi Eh Ec Hok p Hp. rewrite Es, client_view by done.
    assert (Hv : replay all ∅ ≡ rib (routing (node (loop y)))).
    { pose proof (hub_live _ _ _ _ _ Hy k w Hk) as Hl. rewrite Ec in Hl. symmetry in Hl. apply negb_false_iff, bool_decide_eq_true in Hl.
      pose proof (hub_view _ _ _ _ _ Hy k w Hl Hk) as Hv. unfold told in Hv. rewrite Eh, app_nil_r in Hv. unfold all. by rewrite Hi. }
    specialize (Hv p). destruct (replay all ∅ !! p) as [a|], (rib (routing (node (loop y))) !! p) as [b|]; inversion Hv as [? ? Hab|]; subst; constructor.
    apply sameRoute_iff in Hab as (E1 & E2 & E3). unfold same_msg. cbn. by rewrite E1, E2, E3. }
  destruct done as [e|]; [subst fate; split_and!; [split; [done|]; intros e'; split; by intros [= ->]|done..]|].
  destruct (closed w) eqn:Ec; [|subst fate; split_and!; try done; by intros Hs%Hstop].
  destruct (bool_decide_reflect (ch w = [])) as [Eh|Eh]; [|subst fate; by split_and!]. cbn [andb] in Ef.
  pose proof (hub_lagged _ _ _ _ _ Hy k w Hk) as Hlag. unfold taken in Hlag. rewrite Eh, app_nil_r in Hlag.
  destruct (lagged w); subst fate; split_and!; try done.
  - intros c [= <-]. destruct (Hlag eq_refl) as (_ & Ho & Hn). done.
  - intros _. destruct (Hclosed eq_refl eq_refl) as [Hin|Hs]; [by destruct (Hu Hin)|done].
Qed.

(** ** A service at work *)

(** A server that refuses to delete the default route and notes what it is asked. *)
#[local] Instance notebook : Api (list operation) := fun op log =>
  mret (log ++ [op], match op with OpDeletePrefix p => if p_bits p =? 0 then Some Refusal else None | _ => None end).

Definition prompt : call := mkCall None Sent false Answered.

Definition ten_net : Prefix := mkPrefix (Addr4 [10; 1; 0; 0]) 16.

Lemma request_answers_witness :
  expressible (OpDeletePrefix ten_net) /\ request_ok (DeletePrefixRequest (text "10.1.0.0/16")) /\
  handle_request (S := list operation) prompt (DeletePrefixRequest (text "10.1.0.0/16")) [] = Ok ([OpDeletePrefix ten_net], inl ()) /\
  (exists q, spell (OpDeletePrefix ten_net) = Some q /\ decode q = inl (OpDeletePrefix ten_net)) /\
  match decode (DeletePrefixRequest (text "10.1.0.0/16")) with
  | inr _ => False
  | inl op => expressible op /\ (performed prompt -> exists e, issue op [] = Ok ([OpDeletePrefix ten_net], e) /\ (inl () = inl () :> () + Code -> e = None))
  end.
Proof.
  assert (He : expressible (OpDeletePrefix ten_net)).
  { repeat apply conj; try reflexivity; try (cbn; lia). repeat constructor; unfold byte_ok; lia. }
  assert (Hq : request_ok (DeletePrefixRequest (text "10.1.0.0/16"))) by exact I.
  assert (Hr : handle_request (S := list operation) prompt (DeletePrefixRequest (text "10.1.0.0/16")) [] = Ok ([OpDeletePrefix ten_net], inl ()))
    by (vm_compute; reflexivity).
  destruct (request_answers (S := list operation)) as [R1 R2]. specialize (R1 _ He). specialize (R2 prompt _ _ _ _ Hq Hr).
  split; [exact He|]. split; [exact Hq|]. split; [exact Hr|]. split; [exact R1|].
  assert (Ed : decode (DeletePrefixRequest (text "10.1.0.0/16")) = inl (OpDeletePrefix ten_net)) by (vm_compute; reflexivity).
  rewrite Ed in *. destruct R2 as (_ & E & P & _). split; [exact E|]. intros Hp. destruct (P Hp) as (e & Hi & Ho & _). exists e. exact (conj Hi Ho).
Defined.

(** A caller that gives up before the instance stops. *)
Definition gave_up : call := mkCall None Sent true (AwaitDone Canceled).

Lemma transport_handed_over_witness :
  let k := sample_cfg "eth0" false in
  consistent prompt /\ AddCircuit (Y := list operation) prompt k [] ([], 0%nat) = Ok ([OpAddCircuit k []], 0%nat, inl ()) /\
  (performed prompt -> exists e, issue (OpAddCircuit k []) ([] : list operation) = Ok ([OpAddCircuit k []], e) /\ 0%nat = match e with None => 0%nat | Some _ => 1%nat end) /\
  consistent gave_up /\ AddCircuit (Y := list operation) gave_up k [] ([], 0%nat) = Ok ([], 0%nat, inr (ErrContext Canceled)) /\
  (~ performed gave_up -> [] = [] :> list operation /\ inr (ErrContext Canceled) <> inl () :> unit + callError /\ (abandoned gave_up -> 0%nat = 0%nat) /\ (~ abandoned gave_up -> 0%nat = 1%nat)).
Proof.
  intros k. assert (C1 : consistent prompt) by (intros E; discriminate E). assert (C2 : consistent gave_up) by (intros E; discriminate E).
  assert (R1 : AddCircuit (Y := list operation) prompt k [] ([], 0%nat) = Ok ([OpAddCircuit k []], 0%nat, inl ())) by reflexivity.
  assert (R2 : AddCircuit (Y := list operation) gave_up k [] ([], 0%nat) = Ok ([], 0%nat, inr (ErrContext Canceled))) by reflexivity.
  destruct (transport_handed_over (S := list operation) prompt k [] _ _ _ _ C1 R1) as [P1 _].
  destruct (transport_handed_over (S := list operation) gave_up k [] _ _ _ _ C2 R2) as [_ P2].
  exact (conj C1 (conj R1 (conj P1 (conj C2 (conj R2 P2))))).
Defined.

(** A border router with two locators and a neighbor, listed and changed. *)
Definition site_node : Node kernel :=
  mkNode (set_circuits border [lan_circuit])
    (mkRIB [] [mkLocatorConfig (mkPrefix (Addr6 ([32; 1; 13; 184] ++ replicate 12 0)) 48) 0;
               mkLocatorConfig (mkPrefix (Addr6 ([252; 0; 0; 1] ++ replicate 12 0)) 48) 128] ∅ ∅ (∅, []) ∅ ∅ ∅ ∅ ∅ ∅ ∅ (Some (fun _ => true)) None [])
    [] None ∅ ∅ ∅ ∅ ∅ ∅ 0 0 0 0 0.

Definition map_lookout : lookout kernel :=
  mkLookout kernel [Level1; Level2] (fun n l => map_to_list (default ∅ (dbs (core n) !! l)))
    (fun n i l => match circuits (core n) !! i with Some c => map_to_list (adjs_at c l) | None => [] end) map_to_list map_to_list.

Lemma map_lookout_sees : sees_all map_lookout.
Proof. intros n i l c Hc. cbn. by rewrite Hc. Qed.

Lemma lan_neighbors i c l a : [lan_circuit] !! i = Some c -> adjacent c l a -> arr 6 (a_systemID a).
Proof.
  destruct i as [|i]; [|done]. intros [= <-] [_ [id Ha]]. unfold lan_circuit in Ha. rewrite adjs_at_put in Ha by done.
  destruct (decide _) as [_|_] in Ha; [injection Ha as <-; split; [done|repeat constructor; unfold byte_ok; lia]|].
  by destruct l.
Qed.

Definition site_service : call -> request -> Node kernel -> outcome (Node kernel * (unit + Code)) :=
  @handle_request _ (node_api (H := flaky_updates) (fun _ _ _ => []) map_orders 0).

Lemma listed_deletes_witness :
  exists locs adjs,
    handle_ListLocators (H0 := node_views map_lookout 0) prompt site_node = Ok (site_node, inl locs) /\
    handle_ListAdjacencies (H0 := node_views map_lookout 0) prompt site_node = Ok (site_node, inl adjs) /\
    (forall m, m ∈ locs -> exists n', site_service prompt (DeleteLocatorRequest (om_prefix m)) site_node = Ok (n', inl ()) /\
      handle_ListLocators (H0 := node_views map_lookout 0) prompt n' = Ok (n', inl (filter (fun m' => om_prefix m' <> om_prefix m) locs))) /\
    (forall m, m ∈ adjs -> exists n' adjs',
      site_service prompt (ClearAdjacencyRequest (am_interface m) (am_system_id m)) site_node = Ok (n', inl ()) /\
      handle_ListAdjacencies (H0 := node_views map_lookout 0) prompt n' = Ok (n', inl adjs') /\
      forall k, k ∈ unnamed <$> adjs' <->
        k ∈ unnamed <$> adjs /\ ~ (am_interface k = am_interface m /\ am_system_id k = am_system_id m)).
Proof.
  apply (listed_deletes (H := flaky_updates) (fun _ _ _ => []) map_orders map_lookout 0); [reflexivity|exact map_lookout_sees|..].
  - repeat split.
  - reflexivity.
  - repeat apply Forall_cons_2; try apply Forall_nil_2; (split; [split; [reflexivity|repeat constructor; unfold byte_ok; lia]|split; [reflexivity|cbn; lia]]).
  - cbn. repeat constructor; vm_compute; set_solver.
  - cbn. repeat constructor. set_solver.
  - exact lan_neighbors.
Defined.

(** The first subscriber of the border router receives all it was sent; then the
    server stops. *)
Definition border_reads : list act := border_acts ++ [Receiving 0; Receiving 0; Receiving 0].
Definition border_closes : list act := border_reads ++ border_stops.

(** A prefix of octets, checked. *)
Definition octets_within (n : nat) (b : bytes) : bool := (length b =? n)%nat && forallb (fun x => (0 <=? x) && (x <=? 255)) b.
Definition prefix_within (p : Prefix) : bool :=
  match p_addr p with
  | Addr4 b => octets_within 4 b && (0 <=? p_bits p) && (p_bits p <=? 32)
  | Addr6 b => octets_within 16 b && (0 <=? p_bits p) && (p_bits p <=? 128)
  | AddrZero => false
  end.
Lemma octets_within_arr n b : octets_within n b = true -> arr n b.
Proof.
  intros [Hl Hb]%andb_true_iff. split; [by apply Nat.eqb_eq|]. apply List.Forall_forall. intros x Hx.
  apply (proj1 (List.forallb_forall _ _) Hb) in Hx. unfold byte_ok. lia.
Qed.
Lemma prefix_within_ok p : prefix_within p = true -> prefix_ok p.
Proof.
  unfold prefix_within, prefix_ok. destruct (p_addr p) as [|b|b]; [done|..]; intros [[Ho Hl]%andb_true_iff Hr]%andb_true_iff; cbn [IsValid BitLen addr_ok];
    (split; [by apply octets_within_arr|split; [done|lia]]).
Qed.
Definition route_within (ev : Event) : bool := match ev with AdjacencyChange _ => true | RouteChange r _ => prefix_within (RI_Prefix r) end.
Lemma routes_within evs : forallb route_within evs = true -> Forall routed_ok evs.
Proof.
  intros Hf. apply List.Forall_forall. intros ev Hev. apply (proj1 (List.forallb_forall _ _) Hf) in Hev.
  destruct ev; [exact I|by apply prefix_within_ok].
Qed.

(** Of a stream: how much was sent, how it ended, whether the channel is closed, what
    it holds, and whether the routes sent are well formed. *)
Definition streamed (done : option ctxError) (y : System (F := kernel)) (k : nat) : option (nat * option stream_end * bool * nat * bool) :=
  (fun w => let '(sent, fate) := handle_WatchEvent (fun _ => true) true w (seen done y k w) in
     (length sent, fate, closed w, length (ch w), forallb route_within (Initial w ++ default [] (received y !! k)))) <$> subs (hub y) !! k.

Lemma streamed_some done y k n fate c h ok : streamed done y k = Some (n, fate, c, h, ok) ->
  exists w sent, subs (hub y) !! k = Some w /\ handle_WatchEvent (fun _ => true) true w (seen done y k w) = (sent, fate) /\
    length sent = n /\ closed w = c /\ length (ch w) = h /\ forallb route_within (Initial w ++ default [] (received y !! k)) = ok.
Proof.
  unfold streamed. destruct (subs (hub y) !! k) as [w|]; [|done]. cbn [fmap option_fmap option_map].
  destruct (handle_WatchEvent _ _ w _) as [sent f] eqn:E. intros [= <- <- <- <- <-]. by exists w, sent.
Qed.

(** A wire that takes everything. *)
Lemma send_all_open sent evs : send_all (fun _ => true) sent evs = (sent ++ (eventToProto <$> evs), true).
Proof. revert sent. induction evs as [|ev evs IH]; intros sent; cbn [send_all]; [by rewrite app_nil_r|]. rewrite IH. by rewrite <- app_assoc. Qed.
Lemma open_wire {F} done (y : System (F := F)) k w sent fate :
  handle_WatchEvent (fun _ => true) true w (seen done y k w) = (sent, fate) -> sent = eventToProto <$> Initial w ++ default [] (received y !! k).
Proof. unfold seen. rewrite WatchEvent_sends, send_all_open. destruct done; [|destruct (closed w && _)]; by intros [= <- _]. Qed.

Lemma first_kept : 0%nat ∉ unsubscribes border_reads /\ 0%nat ∉ unsubscribes border_closes.
Proof. split; change (0%nat ∉ [1%nat]); set_solver. Qed.

Lemma watch_streams_witness :
  exists y z w v sent sent' sent'', border_watch border_reads = Ok y /\ border_watch border_closes = Ok z /\
    subs (hub y) !! 0%nat = Some w /\ subs (hub z) !! 0%nat = Some v /\
    handle_WatchEvent (fun _ => true) true w (seen None y 0 w) = (sent, None) /\
    handle_WatchEvent (fun _ => true) true w (seen (Some Canceled) y 0 w) = (sent', Some (EndContext Canceled)) /\
    handle_WatchEvent (fun _ => true) true v (seen None z 0 v) = (sent'', Some EndOk) /\ (length sent, length sent', length sent'') = (8, 8, 8)%nat /\
    (forall p, prefix_ok p -> option_Forall2 same_msg (client sent !! Prefix_String p) (routeToProto <$> rib (routing (node (loop y))) !! p)) /\
    (Some (EndContext Canceled) = Some (EndContext Canceled) <-> Some Canceled = Some Canceled) /\
    stopped z = true.
Proof.
  destruct (ran (border_watch border_reads) (fun y => (streamed None y 0, streamed (Some Canceled) y 0))
    (Some (8, None, false, 0, true), Some (8, Some (EndContext Canceled), false, 0, true))%nat)
    as (y & E & [= F0 (w' & sent' & E1 & S1 & L1 & _)%streamed_some]); [vm_compute; reflexivity|].
  apply streamed_some in F0 as (w & sent & E0 & S0 & L0 & K0 & C0 & R0).
  rewrite E0 in E1. apply (inj Some) in E1. subst w'.
  destruct (ran (border_watch border_closes) (fun z => streamed None z 0) (Some (8, Some EndOk, true, 0, true))%nat)
    as (z & Ez & (v & sent'' & Ev & Sv & Lv & _)%streamed_some); [vm_compute; reflexivity|].
  apply routes_within in R0. apply nil_length_inv in C0.
  assert (Hw : forall X : gset nat, elements X ≡ₚ elements X) by (intros X; reflexivity).
  assert (Hp : Forall act_fair border_acts) by exact (proj1 (proj1 (Forall_app _ _ _) border_fair)).
  assert (Hs : Forall act_fair border_stops) by exact (proj2 (proj1 (Forall_app _ _ _) border_fair)).
  assert (Ha : Forall act_fair border_reads) by (apply Forall_app; split; [exact Hp|repeat constructor]).
  assert (Hc : Forall act_fair border_closes) by (apply Forall_app; exact (conj Ha Hs)).
  pose proof (watch_streams (H := flaky_updates) (T := tentSet) fst (FIBLaws0 := flaky_updates_laws) (fun _ _ _ => []) elements
    border_loop _ y Hw eq_refl Ha E) as Hg.
  pose proof (watch_streams (H := flaky_updates) (T := tentSet) fst (FIBLaws0 := flaky_updates_laws) (fun _ _ _ => []) elements
    border_loop _ z Hw eq_refl Hc Ez) as Hz.
  destruct (Hg 0%nat w _ true None sent None E0 (proj1 first_kept) S0) as (_ & _ & V0 & _).
  destruct (Hg 0%nat w _ true (Some Canceled) sent' _ E0 (proj1 first_kept) S1) as (_ & _ & _ & V1 & _).
  destruct (Hz 0%nat v _ true None sent'' _ Ev (proj2 first_kept) Sv) as (_ & _ & _ & _ & V2 & _).
  exists y, z, w, v, sent, sent', sent''.
  exact (conj E (conj Ez (conj E0 (conj Ev (conj S0 (conj S1 (conj Sv (conj (f_equal2 pair (f_equal2 pair L0 L1) Lv)
    (conj (V0 (open_wire _ _ _ _ _ _ S0) eq_refl C0 K0 R0) (conj (proj2 (V1 (open_wire _ _ _ _ _ _ S1)) Canceled) (V2 eq_refl))))))))))).
Defined.

(** ** A registry *)

#[local] Instance shelf : Vectors (metric -> list bytes -> option Z) := {
  sample v := v;
  Inc m vs v := fun m' vs' => if decide (m = m' /\ vs = vs') then Some (default 0 (v m' vs') + 1) else v m' vs';
  SetTo m vs n v := fun m' vs' => if decide (m = m' /\ vs = vs') then Some n else v m' vs';
  DeletePartialMatch m l x v := fun m' vs' => if decide (m = m' /\ label_value (labels m') vs' l = Some x) then None else v m' vs'
}.
#[local] Instance shelf_laws : VectorLaws (metric -> list bytes -> option Z).
Proof. by split. Qed.

Definition site_delete : outcome (Node kernel * option opError) :=
  deleteCircuit (H := flaky_updates) (fun _ _ _ => []) map_orders site_node "eth0" 0.
Definition crowded : metric -> list bytes -> option Z := fun _ _ => Some 7.
Definition elsewhere : list mcall := [CallFloodTx (text "eth1"); CallFIBPending 2].

Lemma metrics_follow_witness :
  exists n', site_delete = Ok (n', None) /\
    sample (report_all (calls_of (trace (core n')) ++ elsewhere) crowded) pduRx [text "eth0"; text "lsp"] = None /\
    sample (report_all elsewhere crowded) floodTx [text "eth1"] = fold_left (cell_step floodTx [text "eth1"]) elsewhere (Some 7).
Proof.
  destruct (ran site_delete (fun p => match p.2 with None => true | Some _ => false end) true) as ([n' e] & E & Ef); [vm_compute; reflexivity|].
  destruct e as [e|]; [discriminate Ef|]. destruct (metrics_follow (V := metric -> list bytes -> option Z)) as [M1 M2]. exists n'. split; [exact E|]. split.
  - apply (M2 kernel flaky_updates (fun _ _ _ => []) map_orders site_node n' "eth0"%string 0 elsewhere crowded pduRx [text "eth0"; text "lsp"] E eq_refl).
    repeat apply Forall_cons_2; try apply Forall_nil_2; vm_compute; discriminate.
  - exact (M1 elsewhere crowded floodTx [text "eth1"]).
Defined.

(** ** The client *)

(** What a command line can say: the metric types that have a name, the numbers that
    are decimal. *)
Definition spoken (op : operation) : Prop := expressible op /\ match op with OpAddFlexAlgo fa => 0 <= FC_MetricType fa <= 2 | _ => True end.
(** The flags of uint32. *)
Definition flags_ok (c : command) : Prop :=
  match c with PrefixAdd _ m => u32_ok m | LocatorAdd _ a => u32_ok a | FlexAlgoAdd _ _ prio _ => u32_ok prio | _ => True end.

Definition octets_all : list Z := Z.of_nat <$> seq 0 256.
Lemma octets_all_elem x : byte_ok x -> x ∈ octets_all.
Proof. intros Hx. apply list_elem_of_fmap. exists (Z.to_nat x). unfold byte_ok in Hx. rewrite Z2Nat.id, elem_of_seq by lia. split; [done|lia]. Qed.

Lemma octet_texts : forallb (fun x => bool_decide (parseUint8 (Itoa x) = Some x) &&
  bool_decide (parseMetricType (metricTypeStr x) = if x <=? 2 then Some x else None)) octets_all = true.
Proof. by vm_compute. Qed.
Lemma octet_text x : byte_ok x -> parseUint8 (Itoa x) = Some x /\ parseMetricType (metricTypeStr x) = if x <=? 2 then Some x else None.
Proof.
  intros Hx. pose proof octet_texts as H. rewrite forallb_forall in H. specialize (H x). rewrite <- list_elem_of_In in H.
  specialize (H (octets_all_elem x Hx)). apply andb_true_iff in H as [H1 H2]. split; [by apply bool_decide_eq_true_1 in H1|by apply bool_decide_eq_true_1 in H2].
Qed.

Lemma parseUint8_bound s a : parseUint8 s = Some a -> byte_ok a.
Proof.
  destruct s as [|c s]; [done|]. cbn [parseUint8]. intros (v & Hv%Atoi_nonneg & Ha)%bind_Some; [|lia].
  destruct (Z.ltb_spec 255 v); [done|]. injection Ha as <-. rewrite u8_id; unfold byte_ok; lia.
Qed.
Lemma parseMetricType_bound s a : parseMetricType s = Some a -> byte_ok a.
Proof. unfold parseMetricType. repeat case_bool_decide; intros [= <-]; by vm_compute. Qed.

(** The client and the service speak the same language: every operation that has a
    command line is sent as the request the service takes for it; what is sent fits
    its message; and of the metric types a table shows, exactly those with a name are
    taken back. *)
Theorem client_speaks :
  (forall op, spoken op -> exists c q, flags_ok c /\ request_of c = Some q /\ decode q = inl op) /\
  (forall c q, flags_ok c -> request_of c = Some q -> request_ok q) /\
  (forall x, byte_ok x -> parseMetricType (metricTypeStr x) = if x <=? 2 then Some x else None).
Proof.
  split_and!.
  - intros op [He Hs]. destruct (spell_means op He) as (q & Eq & Hq & Hm). assert (Hd : decode q = inl op) by by apply decode_means.
    destruct op as [[p a]|p|[a mt prio adv]|a|[p m]|p|on|name id| | | |]; cbn in Eq; simplify_eq Eq; cbn in *; try done; simplify_eq.
    + by exists (LocatorAdd (Prefix_String p) a); eexists.
    + by exists (LocatorDelete (Prefix_String p)); eexists.
    + destruct He as (Ha & Hmt & _). exists (FlexAlgoAdd (Itoa a) (metricTypeStr mt) prio adv). eexists. split; [apply Hq|]. cbn [request_of]; unfold request_FlexAlgoAdd.
      destruct (octet_text a) as [-> _]; [unfold byte_ok; lia|]. destruct (octet_text mt) as [_ ->]; [done|].
      destruct (Z.leb_spec mt 2); [|lia]. by split.
    + exists (FlexAlgoDelete (Itoa a)). eexists. split; [done|]. cbn [request_of]; unfold request_FlexAlgoDelete. destruct (octet_text a) as [-> _]; [unfold byte_ok; lia|]. by split.
    + by exists (PrefixAdd (Prefix_String p) m); eexists.
    + by exists (PrefixDelete (Prefix_String p)); eexists.
    + exists (OverloadSet (if on : bool then text "on" else text "off")). eexists. split; [done|]. by destruct on.
    + by exists (NeighborClear name (match id with Some x => SystemID_String x | None => [] end)); eexists.
  - intros [| | |arg| | |a mt prio adv|a] q Hf; cbn [request_of]; unfold request_Overload, request_FlexAlgoAdd, request_FlexAlgoDelete; try (by intros [= <-]).
    + by intros (on & _ & [= <-])%bind_Some.
    + intros (x & Hx%parseUint8_bound & (y & Hy%parseMetricType_bound & [= <-])%bind_Some)%bind_Some. unfold byte_ok in *. cbn in *. unfold u32_ok in *. lia.
    + intros (x & Hx%parseUint8_bound & [= <-])%bind_Some. cbn. unfold byte_ok, u32_ok in *. lia.
  - intros x Hx. by apply octet_text.
Qed.
