(* ===== verification/IfWatchSpec.v ===== *)
(** The interface watcher against the server: a re-read brings every circuit to what
    the host has, whatever events were lost, with any turns of the loop between its
    calls. *)

From stdpp Require Import sorting strings.
From S2P Require Import Prelude.
From S2P Require Import Netip.
From S2P Require Import Auth.
From S2P Require Import Circuit.
From S2P Require Import Restart.
From S2P Require Import Server.
From S2P Require Import Tent.
From S2P Require Import Rib.
From S2P Require Import EndX.
From S2P Require Import NodeLsp.
From S2P Require Import Loop.
From S2P Require Import Mutate.
From S2P Require Import Serve.
From S2P Require Import Netlink.
From S2P Require Import Query.
From S2P Require Import Reload.
From S2P Require Import IfWatch.
From S2P Require Import RibSpec.
From S2P Require Import RibSelect.
From S2P Require Import ServeSpec.
From S2P Require Import ReloadServe.
From S2P Require Import WatchFrame.
From S2P Require Import WatchHub.
Local Open Scope Z_scope.

(** ** The circuits of a node *)

Definition circuit_name (p : port_view) : string := Name (po_cfg p).

Definition at_name (name : string) (f : port_view -> port_view) (ps : list port_view) : list port_view :=
  (fun p => if bool_decide (circuit_name p = name) then f p else p) <$> ps.

Lemma at_name_other name f ps : name ∉ circuit_name <$> ps -> at_name name f ps = ps.
Proof.
  induction ps as [|p ps IH]; [done|]. unfold at_name. cbn [fmap list_fmap]. rewrite not_elem_of_cons. intros [Hne Hps].
  rewrite bool_decide_false by done. f_equal. by apply IH.
Qed.

Lemma at_name_id name f ps p : NoDup (circuit_name <$> ps) -> p ∈ ps -> circuit_name p = name -> f p = p -> at_name name f ps = ps.
Proof.
  induction ps as [|q ps IH]; intros Hd Hp Hn Hf; [by apply not_elem_of_nil in Hp|]. cbn [fmap list_fmap] in Hd. apply NoDup_cons in Hd as [Hq Hd].
  unfold at_name. cbn [fmap list_fmap]. apply elem_of_cons in Hp as [-> |Hp].
  - rewrite bool_decide_true, Hf by done. f_equal. apply at_name_other. by rewrite <- Hn.
  - rewrite bool_decide_false; [f_equal; by apply IH|]. intros Eq. apply Hq. rewrite Eq, <- Hn. by apply list_elem_of_fmap_2.
Qed.

(** The circuit an operation finds by its name is the only one it changes. *)
Lemma found_port cs name i c f g :
  NoDup (circuit_name <$> (port <$> cs)) -> list_find (fun c => Name (cfg c) = name) cs = Some (i, c) -> (forall c, port (g c) = f (port c)) ->
  port <$> alter g i cs = at_name name f (port <$> cs).
Proof.
  intros Hd Hf Hg. revert i Hf. induction cs as [|c1 cs IH]; intros i Hf; [done|]. cbn [fmap list_fmap] in Hd. apply NoDup_cons in Hd as [Hn Hd].
  cbn [list_find] in Hf. unfold at_name. cbn [fmap list_fmap]. fold (at_name name f (port <$> cs)). destruct (decide (Name (cfg c1) = name)) as [E|E].
  - injection Hf as <- <-. cbn. rewrite bool_decide_true by done. rewrite Hg, at_name_other; [done|]. change (circuit_name (port c1)) with (Name (cfg c1)) in Hn. by rewrite E in Hn.
  - apply fmap_Some in Hf as ([j c'] & Hf & [= -> ->]). cbn. rewrite bool_decide_false by done. f_equal. by apply IH.
Qed.

Lemma found_name cs name i c : list_find (fun c => Name (cfg c) = name) cs = Some (i, c) -> port c ∈ port <$> cs /\ Name (cfg c) = name /\ cs !! i = Some c.
Proof. intros (Hi & Hn & _)%list_find_Some. split; [apply list_elem_of_fmap; exists c; split; [done|by eapply list_elem_of_lookup_2]|done]. Qed.

(** What the pushes do to a circuit. *)
Definition with_link (down : bool) (p : port_view) : port_view := mkPort (po_cfg p) (po_pseudonodeID p) (po_extCircID p) down (po_detached p).
Definition with_addrs (v4 v6 : list Addr) (p : port_view) : port_view :=
  mkPort (with_addresses (po_cfg p) (sortedSet v4) (sortedSet v6)) (po_pseudonodeID p) (po_extCircID p) (po_linkDown p) (po_detached p).

Section Node.
Context {F : Type} `{FIB F} {T : Type} `{TentativeSet T}.
Context (hmac : AuthAlgorithm -> bytes -> bytes -> bytes).
Implicit Types n : Node F.

Definition ports n : list port_view := port <$> circuits (core n).
Definition subnets n (name : string) : list Prefix := default [] (circuitPrefixes n !! name).

Lemma resting_ports n n' : resting n' = resting n -> ports n' = ports n /\ circuitPrefixes n' = circuitPrefixes n.
Proof. intros [[_ E]%pair_eq Ep]%pair_eq. done. Qed.

Lemma rests_settle o (x : Loop) t x' : settle (T := T) hmac o x t = Ok x' -> resting (node x') = resting (node x).
Proof.
  unfold settle. intros (n & Hd%rests_drain & Hr)%bind_Ok. rewrite <- Hd. unfold recompute in Hr. cbn [node] in Hr.
  destruct (_ && _); [|by injection Hr as <-]. apply bind_Ok in Hr as ([s b] & Hu & [= <-]). apply resting_intro; [|done]. cbn [node core set_core set_routing].
  unfold updateRIB in Hu. cbv zeta in Hu. by apply bind_Ok in Hu as (x1 & _ & (x2 & _ & [= <- <-])%bind_Ok).
Qed.

(** Turns in which nobody manages the circuits. *)
Definition aside (t : Oracle * arm * moment) : Prop := match t.1.2 with OnOperation op => on_circuits op = false | _ => True end.

Lemma rests_run turns (x x' : Loop) : Forall aside turns -> run (T := T) hmac x turns = Ok x' -> resting (node x') = resting (node x).
Proof.
  intros Ha. revert x. induction Ha as [|[[o a] t] turns Ht _ IH]; intros x; [by intros [= <-]|]. cbn [run].
  intros (x1 & (x2 & Hh & Hs)%bind_Ok & ->%IH)%bind_Ok. rewrite (rests_settle _ _ _ _ Hs). by apply (rests_event hmac o x a (at_event t)).
Qed.

Lemma named_found n name : name ∈ circuit_name <$> ports n -> exists i c, circuitNamed (core n) name = Some (i, c).
Proof.
  intros (p & -> & (c & -> & Hc)%list_elem_of_fmap)%list_elem_of_fmap. unfold circuitNamed. destruct (list_find _ _) as [[i c']|] eqn:Ef; [by exists i, c'|].
  apply list_find_None in Ef. rewrite Forall_forall in Ef. by destruct (Ef c Hc).
Qed.

Lemma link_pushed o name up now n n' e :
  NoDup (circuit_name <$> ports n) -> name ∈ circuit_name <$> ports n -> perform hmac o (OpSetCircuitLinkState name up) now n = Ok (n', e) ->
  e = None /\ ports n' = at_name name (with_link (negb up)) (ports n) /\ circuitPrefixes n' = circuitPrefixes n.
Proof.
  intros Hd Hin. cbn [perform]. unfold SetCircuitLinkState, refuse, agree. cbv zeta. destruct (named_found n name Hin) as (i & c & Ef).
  rewrite Ef. unfold circuitNamed in Ef.
  destruct (Bool.eqb (linkDown c) (negb up)) eqn:Eb.
  - intros [= <- <-]. split; [done|]. split; [|done]. apply eqb_prop in Eb. destruct (found_name _ _ _ _ Ef) as (Hc & Hn & _).
    symmetry. apply (at_name_id _ _ _ (port c)); [done..|]. unfold with_link. cbn. by rewrite <- Eb.
  - pose proof (found_port _ _ _ _ (with_link (negb up)) (fun c => set_link c (negb up) (detached c)) Hd Ef (fun c => eq_refl)) as Hp.
    destruct (negb up) eqn:Eu.
    + intros [= <- <-]. split; [done|]. split; [|done]. unfold ports in *. cbn [core set_core]. rewrite <- Hp.
      pose proof (still_dropOn o (upd_circuit (core n) i (fun c => set_link c true (detached c))) i (fun _ => true) now) as [_ E]%pair_eq. exact E.
    + intros (n1 & H1 & [= <- <-])%bind_Ok. apply rests_core in H1; [|by apply stays_hellos]. apply resting_ports in H1 as [E1 E2]. by rewrite E1, E2.
Qed.

Lemma addrs_pushed o name v4 v6 conn now n n' e :
  NoDup (circuit_name <$> ports n) -> name ∈ circuit_name <$> ports n -> perform hmac o (OpSetCircuitAddresses name v4 v6 conn) now n = Ok (n', e) ->
  e = None /\ ports n' = at_name name (with_addrs v4 v6) (ports n) /\
  subnets n' name = maskedSet conn /\ (forall other, other <> name -> subnets n' other = subnets n other).
Proof.
  intros Hd Hin. cbn [perform]. unfold SetCircuitAddresses, refuse, agree. cbv zeta. destruct (named_found n name Hin) as (i & c & Ef).
  rewrite Ef. unfold circuitNamed in Ef. destruct (_ && _) eqn:Eb.
  - intros [= <- <-]. apply andb_true_iff in Eb as [[E4%bool_decide_eq_true E6%bool_decide_eq_true]%andb_true_iff Ep%bool_decide_eq_true].
    split; [done|]. split; [|done]. destruct (found_name _ _ _ _ Ef) as (Hc & Hn & _). symmetry. apply (at_name_id _ _ _ (port c)); [done..|].
    unfold with_addrs. cbn. rewrite <- E4, <- E6. unfold port. f_equal. by destruct (cfg c).
  - pose proof (found_port _ _ _ _ (with_addrs v4 v6) (fun c => set_cfg c (with_addresses (cfg c) (sortedSet v4) (sortedSet v6))) Hd Ef (fun c => eq_refl)) as Hp.
    intros (n1 & H1 & [= <- <-])%bind_Ok. apply rests_core in H1; [|by apply stays_hellos]. apply resting_ports in H1 as [E1 E2].
    split; [done|]. split; [etransitivity; [exact E1|exact Hp]|]. unfold subnets. change (circuitPrefixes (ask_regen n1)) with (circuitPrefixes n1). rewrite E2.
    unfold setCircuitPrefixes. cbn [circuitPrefixes set_routing set_circuitPrefixes set_core].
    split; [destruct (maskedSet conn); by rewrite ?lookup_delete_eq, ?lookup_insert_eq|].
    intros other Hne. destruct (maskedSet conn); by rewrite ?lookup_delete_ne, ?lookup_insert_ne.
Qed.
End Node.

(** ** A re-read *)

(** A circuit that follows its interface. *)
Definition follow (h : Host) (p : port_view) : port_view :=
  match host_link h (circuit_name p) with
  | inl a => with_addrs (interfaceAddrs h (circuit_name p)).1 (interfaceAddrs h (circuit_name p)).2 (with_link (negb (linkUp a)) p)
  | inr LinkNotFoundError => with_link true p
  | inr _ => p
  end.

Definition follow_subnets (h : Host) (name : string) (old : list Prefix) : list Prefix :=
  match host_link h name with inl _ => maskedSet (connectedPrefixes h name) | inr _ => old end.

Definition unread (h : Host) (name : string) : list logged :=
  match host_link h name with inl _ | inr LinkNotFoundError => [] | inr _ => [LogWarn "resync interface state" name] end.

Lemma follow_name h p : circuit_name (follow h p) = circuit_name p.
Proof. unfold follow. destruct (host_link h _) as [a|[]]; reflexivity. Qed.

Lemma at_name_names name f ps : (forall p, circuit_name (f p) = circuit_name p) -> circuit_name <$> at_name name f ps = circuit_name <$> ps.
Proof. intros Hf. unfold at_name. rewrite <- list_fmap_compose. apply list_fmap_ext. intros _ p _. cbn. by case_bool_decide. Qed.

Lemma at_name_twice name f g ps : (forall p, circuit_name (f p) = circuit_name p) -> at_name name g (at_name name f ps) = at_name name (fun p => g (f p)) ps.
Proof.
  intros Hf. unfold at_name. rewrite <- list_fmap_compose. apply list_fmap_ext. intros _ p _. cbn.
  destruct (decide (circuit_name p = name)) as [E|E]; [by rewrite (bool_decide_true _ E), Hf, (bool_decide_true _ E)|by rewrite !(bool_decide_false _ E)].
Qed.

Lemma at_name_ext name f g ps : (forall p, circuit_name p = name -> f p = g p) -> at_name name f ps = at_name name g ps.
Proof. intros Hf. apply list_fmap_ext. intros _ p _. case_bool_decide; [by apply Hf|done]. Qed.

Section Resync.
Context {F : Type} `{FIB F} {T : Type} `{TentativeSet T} (hmac : AuthAlgorithm -> bytes -> bytes -> bytes).
Context (before_call : nat -> list (Oracle * arm * moment)) (at_call : nat -> Oracle * moment).
Context (nobody_else : forall i, Forall aside (before_call i)).

Abbreviation api := (served_api (T := T) hmac before_call at_call).
Implicit Types y : Served (F := F).

Definition its_ports y : list port_view := ports (node (served y)).
Definition its_subnets y : string -> list Prefix := subnets (node (served y)).

Lemma issued op y y' e :
  @issue _ api op y = Ok (y', e) -> exists n n1 o now, perform hmac o op now n = Ok (n1, e) /\
    resting n = resting (node (served y)) /\ resting (node (served y')) = resting n1.
Proof using nobody_else.
  unfold issue, served_api. destruct (at_call (calls_made y)) as [o t].
  intros (x & Hr%rests_run & ([n e'] & Hp & (x2 & Hs%rests_settle & [= <- <-])%bind_Ok)%bind_Ok)%bind_Ok; [|apply nobody_else].
  exists (node x), n, o, (at_event t). split; [exact Hp|]. split; [exact Hr|exact Hs].
Qed.

Lemma resting_known (n n' : Node F) : resting n' = resting n -> ports n' = ports n /\ subnets n' = subnets n.
Proof using. intros [E1 E2]%resting_ports. split; [done|]. unfold subnets. by rewrite E2. Qed.

Lemma applyLink_ok name up y y' l :
  NoDup (circuit_name <$> its_ports y) -> name ∈ circuit_name <$> its_ports y -> @applyLinkEvent _ api name up y = Ok (y', l) ->
  l = [] /\ its_ports y' = at_name name (with_link (negb up)) (its_ports y) /\ its_subnets y' = its_subnets y.
Proof using nobody_else.
  unfold its_ports, its_subnets. intros Hd Hin ([y1 e] & (n & n1 & o & now & Hp & [E1 S1]%resting_known & [E2 S2]%resting_known)%issued & [= <- <-])%bind_Ok.
  rewrite <- E1 in Hd, Hin. apply link_pushed in Hp as (-> & Ep & Es); [|done..]. rewrite E2, S2, Ep, E1. unfold subnets in *. by rewrite Es, S1.
Qed.

Lemma applyAddr_ok h name y y' l :
  NoDup (circuit_name <$> its_ports y) -> name ∈ circuit_name <$> its_ports y -> @applyAddrEvent _ api h name y = Ok (y', l) ->
  l = [] /\ its_ports y' = at_name name (with_addrs (interfaceAddrs h name).1 (interfaceAddrs h name).2) (its_ports y) /\
  its_subnets y' name = maskedSet (connectedPrefixes h name) /\ (forall other, other <> name -> its_subnets y' other = its_subnets y other).
Proof using nobody_else.
  unfold its_ports, its_subnets, applyAddrEvent. destruct (interfaceAddrs h name) as [v4 v6].
  intros Hd Hin ([y1 e] & (n & n1 & o & now & Hp & [E1 S1]%resting_known & [E2 S2]%resting_known)%issued & [= <- <-])%bind_Ok.
  rewrite <- E1 in Hd, Hin. apply addrs_pushed in Hp as (-> & Ep & Es & Eo); [|done..]. rewrite E2, S2, Ep, E1, <- S1. done.
Qed.

Lemma resync_circuit_ok h name y y' l :
  NoDup (circuit_name <$> its_ports y) -> name ∈ circuit_name <$> its_ports y -> @resync_circuit _ api h name y = Ok (y', l) ->
  l = unread h name /\ its_ports y' = at_name name (follow h) (its_ports y) /\
  its_subnets y' name = follow_subnets h name (its_subnets y name) /\ (forall other, other <> name -> its_subnets y' other = its_subnets y other).
Proof using nobody_else.
  intros Hd Hin. unfold resync_circuit, unread, follow_subnets. destruct (host_link h name) as [a|e] eqn:Eh.
  - intros ([y1 l1] & (-> & Ep1 & Es1)%applyLink_ok & ([y2 l2] & H2 & [= <- <-])%bind_Ok)%bind_Ok; [|done..].
    assert (En : circuit_name <$> its_ports y1 = circuit_name <$> its_ports y) by (rewrite Ep1; by apply at_name_names).
    rewrite <- En in Hd, Hin. apply applyAddr_ok in H2 as (-> & Ep2 & Es2 & Eo2); [|done..]. split; [done|].
    split; [|split; [done|intros other Hne; by rewrite Eo2, Es1]]. rewrite Ep2, Ep1, at_name_twice by done.
    apply at_name_ext. intros p Hp. unfold follow. by rewrite Hp, Eh.
  - destruct e; try (intros [= <- <-]; split; [done|]; split; [|done];
      symmetry; etransitivity; [apply (at_name_ext _ _ id); intros p Hp; unfold follow; by rewrite Hp, Eh|];
      unfold at_name; rewrite <- list_fmap_id; apply list_fmap_ext; intros _ p _; by case_bool_decide).
    intros (-> & Ep & Es)%applyLink_ok; [|done..]. split; [done|]. split; [|by rewrite Es].
    rewrite Ep. apply at_name_ext. intros p Hp. unfold follow. by rewrite Hp, Eh.
Qed.

Lemma resync_circuits_ok h names y y' l :
  NoDup (circuit_name <$> its_ports y) -> NoDup names -> names ⊆ circuit_name <$> its_ports y -> @resync_circuits _ api h names y = Ok (y', l) ->
  l = names ≫= unread h /\
  its_ports y' = (fun p => if bool_decide (circuit_name p ∈ names) then follow h p else p) <$> its_ports y /\
  (forall name, its_subnets y' name = if bool_decide (name ∈ names) then follow_subnets h name (its_subnets y name) else its_subnets y name).
Proof using nobody_else.
  intros Hd Hn. revert y y' l Hd. induction Hn as [|name names Hn0 _ IH]; intros y y' l Hd Hin; cbn [resync_circuits].
  { intros [= <- <-]. split; [done|]. split; [|done]. symmetry. etransitivity; [|apply list_fmap_id]. by apply list_fmap_ext. }
  intros ([y1 l1] & (-> & Ep1 & Es1 & Eo1)%resync_circuit_ok & ([y2 l2] & H2 & [= <- <-])%bind_Ok)%bind_Ok; [|done|by apply Hin; left].
  assert (En : circuit_name <$> its_ports y1 = circuit_name <$> its_ports y) by (rewrite Ep1; apply at_name_names, follow_name).
  apply IH in H2 as (-> & Ep2 & Es2); [|by rewrite En|rewrite En; intros x Hx; apply Hin; by right]. split; [done|]. split.
  - rewrite Ep2, Ep1. unfold at_name. rewrite <- list_fmap_compose. apply list_fmap_ext. intros _ p _. cbn.
    destruct (decide (circuit_name p = name)) as [E|E].
    + rewrite (bool_decide_true _ E), follow_name, E, (bool_decide_false _ Hn0), bool_decide_true by (by left). done.
    + rewrite (bool_decide_false _ E), (bool_decide_ext (circuit_name p ∈ name :: names) (circuit_name p ∈ names)); [done|].
      rewrite elem_of_cons. naive_solver.
  - intros other. rewrite Es2. destruct (decide (other = name)) as [-> |Hne].
    + rewrite (bool_decide_false _ Hn0), Es1, bool_decide_true by (by left). done.
    + rewrite Eo1 by done. rewrite (bool_decide_ext (other ∈ name :: names) (other ∈ names)); [done|]. rewrite elem_of_cons. naive_solver.
Qed.

Lemma follow_again h p : follow h (follow h p) = follow h p.
Proof using. unfold follow at 1. rewrite follow_name. unfold follow. destruct (host_link h _) as [a|[]]; reflexivity. Qed.

(** C17: The re-read of the watcher repairs whatever event was lost: when it returns,
    each circuit of the server is as its interface is - down when the interface is
    down or gone, and with the interface's addresses and subnets when there is one -
    and an interface that could not be read is left alone and logged.  This holds
    with any turns of the loop between its calls, housekeeping, hellos and other
    operations included, as long as nobody else manages the circuits meanwhile; and
    a second re-read changes nothing. *)
Theorem resync_repairs h y y' l :
  NoDup (circuit_name <$> its_ports y) ->
  @resyncAll _ api (fun y => Some (ListCircuits (core (node (served y))))) h y = Ok (y', l) ->
  its_ports y' = follow h <$> its_ports y /\
  (forall name, name ∈ circuit_name <$> its_ports y -> its_subnets y' name = follow_subnets h name (its_subnets y name)) /\
  (forall name, name ∉ circuit_name <$> its_ports y -> its_subnets y' name = its_subnets y name) /\
  l = (circuit_name <$> its_ports y) ≫= unread h /\
  follow h <$> its_ports y' = its_ports y'.
Proof using nobody_else.
  intros Hd. unfold resyncAll, ListCircuits.
  assert (En : ci_Interface <$> (circuit_info <$> circuits (core (node (served y)))) = circuit_name <$> its_ports y)
    by (unfold its_ports, ports; by rewrite <- !list_fmap_compose).
  rewrite En. intros (Hl & Ep & Es)%resync_circuits_ok; [|done..].
  assert (Ef : its_ports y' = follow h <$> its_ports y).
  { rewrite Ep. apply list_fmap_ext. intros j p Hp. rewrite bool_decide_true; [done|]. apply list_elem_of_fmap_2. by eapply list_elem_of_lookup_2. }
  split; [done|]. split; [intros name Hn; by rewrite Es, bool_decide_true|]. split; [intros name Hn; by rewrite Es, bool_decide_false|]. split; [done|].
  rewrite Ef, <- list_fmap_compose. apply list_fmap_ext. intros _ p _. apply follow_again.
Qed.
End Resync.

(** ** A host whose events were lost

    One interface got addresses, the other was removed; the loop ticks between the
    calls. *)
Definition lost_circuit (name : string) : circuit :=
  newCircuit (mkCircuitConfig name (mkTransport [2; 0; 0; 0; 0; 9] 1500) false true true None (3 * Second) 10 10 [] [] [] None None [] AuthMD5 0 []) 2 2.

Definition lost_loop : Loop (F := kernel) :=
  mkLoop (set_core (node border_loop) (set_circuits (core (node border_loop)) [border_circuit; lost_circuit "eth1"])) false.

Definition lost_host : Host :=
  mkHost (fun s => if bool_decide (s = "eth0"%string) then inl (mkLinkAttrs s OperUnknown true) else inr LinkNotFoundError) (fun _ => None)
    (fun s => if bool_decide (s = "eth0"%string) then
       Some [mkIPNet [10; 1; 0; 1] (CIDRMask 24 32); mkIPNet ([254; 128] ++ replicate 13 0 ++ [1]) (CIDRMask 64 128)] else None).

Definition lost_between (i : nat) : list (Oracle * arm * moment) := [(map_orders, OnTick, at_time (Z.of_nat i * Second))].
Definition lost_calls (i : nat) : Oracle * moment := (map_orders, at_time (Z.of_nat i * Second + 5)).

Definition lost_resync : outcome (Served (F := kernel) * list logged) :=
  resyncAll (H := served_api (H := flaky_updates) (T := tentSet) (fun _ _ _ => []) lost_between lost_calls)
    (fun y => Some (ListCircuits (core (node (served y))))) lost_host (mkServed lost_loop 0).

(** The addresses, whether the link is down; the subnets. *)
Definition lost_view (y : Served (F := kernel)) : list (list Addr * list Addr * bool) * list Prefix :=
  ((fun p => (IPv4Addrs (po_cfg p), IPv6Addrs (po_cfg p), po_linkDown p)) <$> its_ports y, its_subnets y "eth0").

Lemma resync_repairs_witness :
  exists y l, lost_resync = Ok (y, l) /\
    lost_view y = ([([Addr4 [10; 1; 0; 1]], [Addr6 ([254; 128] ++ replicate 13 0 ++ [1])], false); ([], [], true)], [mkPrefix (Addr4 [10; 1; 0; 0]) 24]) /\
    l = [] /\ its_ports y = follow lost_host <$> its_ports (mkServed lost_loop 0).
Proof.
  destruct (ran lost_resync (fun r => (lost_view r.1, r.2)) (([([Addr4 [10; 1; 0; 1]], [Addr6 ([254; 128] ++ replicate 13 0 ++ [1])], false); ([], [], true)],
    [mkPrefix (Addr4 [10; 1; 0; 0]) 24]), [])) as ([y l] & E & Ef); [vm_compute; reflexivity|].
  assert (Ha : forall i, Forall aside (lost_between i)) by (intros i; repeat constructor).
  assert (Hd : NoDup (circuit_name <$> its_ports (mkServed lost_loop 0))) by (apply (bool_decide_unpack _); vm_compute; exact I).
  destruct (resync_repairs (H := flaky_updates) (T := tentSet) (fun _ _ _ => []) lost_between lost_calls Ha lost_host (mkServed lost_loop 0) y l Hd E)
    as (Hp & _). apply pair_eq in Ef as [Ev El]. exists y, l. exact (conj E (conj Ev (conj El Hp))).
Defined.
