(* ===== verification/NetlinkSpec.v ===== *)
(** The forwarding table of netlink_linux.go against what rtnetlink documents: what
    each method does to the kernel's routes, and what it never touches. *)

From stdpp Require Import strings.
From S2P Require Import Prelude.
From S2P Require Import Netip.
From S2P Require Import Rib.
From S2P Require Import Netlink.
Local Open Scope Z_scope.

(** ** A network and its prefix *)

Lemma octet_of_ones n : 0 <= n <= 8 -> (mask_octet n 255 =? 255) = (n =? 8) /\ octet_ones 8 (mask_octet n 255) = Some n.
Proof.
  intros Hn. assert (Hc : n = 0 \/ n = 1 \/ n = 2 \/ n = 3 \/ n = 4 \/ n = 5 \/ n = 6 \/ n = 7 \/ n = 8) by lia.
  by repeat (destruct Hc as [-> |Hc]; [by vm_compute|]); subst; vm_compute.
Qed.

Lemma mask_octet_sat n x : n <= 0 \/ 8 <= n -> mask_octet n x = if n <=? 0 then 0 else x.
Proof. intros Hn. unfold mask_octet. destruct (n <=? 0) eqn:E; [done|]. assert (E2 : (8 <=? n) = true) by lia. by rewrite E2. Qed.

Lemma mask_none m n : n <= 0 -> forallb (Z.eqb 0) (mask_bytes n (replicate m 255)) = true.
Proof.
  revert n. induction m as [|m IH]; intros n Hn; [done|]. cbn [replicate mask_bytes forallb].
  rewrite mask_octet_sat by lia. assert (E : (n <=? 0) = true) by lia. rewrite E. apply IH. lia.
Qed.

Lemma mask_length m n : 0 <= n <= 8 * Z.of_nat m -> simpleMaskLength (mask_bytes n (replicate m 255)) = Some n.
Proof.
  revert n. induction m as [|m IH]; intros n Hn; cbn [replicate mask_bytes simpleMaskLength]; [f_equal; lia|].
  destruct (Z.le_gt_cases n 8) as [H8|H8].
  - destruct (octet_of_ones n ltac:(lia)) as [-> ->]. rewrite mask_none by lia. destruct (n =? 8) eqn:E; [|done].
    apply Z.eqb_eq in E as ->. rewrite IH by lia. done.
  - rewrite mask_octet_sat by lia. assert (E : (n <=? 0) = false) by lia. rewrite E. cbn. rewrite IH by lia. cbn. f_equal. lia.
Qed.

Lemma Mask_ones_CIDR ones bits : bits = 32 \/ bits = 128 -> 0 <= ones <= bits -> Mask_ones (CIDRMask ones bits) = ones.
Proof.
  intros Hb Ho. unfold CIDRMask, Mask_ones. assert (E1 : negb (bits =? 32) && negb (bits =? 128) = false) by (destruct Hb; subst; done).
  assert (E2 : (ones <? 0) || (bits <? ones) = false) by lia. rewrite E1, E2, mask_length; [done|]. destruct Hb; subst; vm_compute Z.to_nat; lia.
Qed.

(** A prefix the forwarding table can hold: in range, an address of the family's
    length, and not an IPv4 prefix written as IPv6. *)
Definition routable (p : Prefix) : Prop :=
  0 <= p_bits p <= BitLen (p_addr p) /\ p_addr p <> AddrZero /\ addr_ok (p_addr p) /\ Is4In6 (p_addr (Masked p)) = false.

Lemma Masked_routable p : routable p -> Masked p = mkPrefix (mask_addr (p_bits p) (p_addr p)) (p_bits p).
Proof.
  intros (Hb & Hz & _). unfold Masked. assert (E : (p_bits p <? 0) || (BitLen (p_addr p) <? p_bits p) || negb (IsValid (p_addr p)) = false); [|by rewrite E].
  destruct (p_addr p); [done|..]; cbn in *; lia.
Qed.

(** What is written for a prefix reads back as the prefix, masked. *)
Lemma IPNet_roundtrip p : routable p -> ipNetToPrefix (prefixToIPNet p) = Some (Masked p).
Proof.
  intros Hp. pose proof (Masked_routable p Hp) as Hm. destruct Hp as (Hb & Hz & Ha & H46). rewrite Hm in H46. cbn [p_addr] in H46.
  unfold ipNetToPrefix, prefixToIPNet. rewrite Hm. cbn [IP Mask p_addr].
  destruct (p_addr p) as [|b|b]; [done|..]; cbn [mask_addr addr_bytes addr_ok BitLen] in *; destruct Ha as [Hl _];
    unfold AddrFromSlice; rewrite length_mask_bytes, Hl; cbn [Nat.eqb option_map].
  - cbn [Unmap]. rewrite Mask_ones_CIDR by (auto with lia). unfold PrefixFrom. cbn [IsValid BitLen andb].
    assert (E : (0 <=? p_bits p) && (p_bits p <=? 32) = true) by lia. by rewrite E.
  - unfold Unmap. rewrite H46, Mask_ones_CIDR by (auto with lia). unfold PrefixFrom. cbn [IsValid BitLen andb].
    assert (E : (0 <=? p_bits p) && (p_bits p <=? 128) = true) by lia. by rewrite E.
Qed.

(** ** The kernel

    A route is known to the kernel by its table, its network and its metric; the
    metric of an IPv6 route that was given none is [IP6_RT_PRIO_USER]. *)

Abbreviation rkey := (Z * option IPNet * Z)%type.
Definition rkey_of (r : Route) : rkey := (Table r, Dst r, Priority r).

(** The family of a network: package nl, [GetIPFamily]. *)
Definition family_of (d : IPNet) : Family :=
  if (length (IP d) <=? 4)%nat || Is4In6 (Addr6 (IP d)) then FAMILY_V4 else FAMILY_V6.

Definition IP6_RT_PRIO_USER : Z := 1024.
Definition stored (r : Route) : Route :=
  mkRoute (Dst r) (Protocol r) (Table r)
    (if (Priority r =? 0) && bool_decide (family_of <$> Dst r = Some FAMILY_V6) then IP6_RT_PRIO_USER else Priority r)
    (LinkIndex r) (Gw r) (MultiPath r) (Encap r).

(** Whether a request to delete names a route: what it leaves out matches anything. *)
Definition names (req r : Route) : bool :=
  bool_decide (Table req = Table r) && bool_decide (Dst req = Dst r) &&
  ((Protocol req =? 0) || (Protocol req =? Protocol r)) && ((Priority req =? 0) || (Priority req =? Priority r)) &&
  ((LinkIndex req =? 0) || (LinkIndex req =? LinkIndex r)) &&
  (bool_decide (Gw req = []) || bool_decide (Gw req = Gw r)) && (bool_decide (MultiPath req = []) || bool_decide (MultiPath req = MultiPath r)).

(** A route as a listing gives it: the library may leave out the network of a
    default route. *)
Definition listed (r x : Route) : Prop :=
  x = r \/ exists d, Dst r = Some d /\ Mask_ones (Mask d) = 0 /\
    x = mkRoute None (Protocol r) (Table r) (Priority r) (LinkIndex r) (Gw r) (MultiPath r) (Encap r).

Definition selects (f : Family) (filter : Route) (m : list Filter) (r : Route) : Prop :=
  (forall d, Dst r = Some d -> family_of d = f) /\
  (RT_FILTER_PROTOCOL ∈ m -> Protocol r = Protocol filter) /\ (RT_FILTER_TABLE ∈ m -> Table r = Table filter) /\
  (RT_FILTER_OIF ∈ m -> LinkIndex r = LinkIndex filter).

Definition ours (r : Route) : Prop := Protocol r = rtprotoISIS.
#[export] Instance ours_dec r : Decision (ours r).
Proof. unfold ours. apply _. Defined.

(** What rtnetlink documents.  [routes] and [links] are the kernel's tables; nothing
    else writes them meanwhile. *)
Class KernelLaws (K : Type) `{Kernel K} (routes : K -> gmap rkey Route) (links : K -> gmap string Link) : Prop := {
  routes_keyed k i r : routes k !! i = Some r -> i = rkey_of r /\ 0 <= Priority r;
  links_named k s l : links k !! s = Some l -> Link_Name l = s;
  link_found k s l : LinkByName k s = inl l -> links k !! s = Some l;
  link_missing k s e : LinkByName k s = inr e -> isLinkNotFound e = true -> links k !! s = None;
  list_sound k f r m xs : RouteListFiltered k f r m = inl xs -> forall x, x ∈ xs -> exists i y, routes k !! i = Some y /\ selects f r m y /\ listed y x;
  list_complete k f r m xs : RouteListFiltered k f r m = inl xs ->
    forall i y d, routes k !! i = Some y -> Dst y = Some d -> selects f r m y -> exists x, x ∈ xs /\ listed y x;
  replace_ok k r k' : RouteReplace k r = (k', None) -> routes k' = <[rkey_of (stored r) := stored r]> (routes k);
  replace_fails k r k' e : RouteReplace k r = (k', Some e) -> routes k' = routes k;
  replace_links k r : links (RouteReplace k r).1 = links k;
  (** of the routes the request names, the one of the least metric *)
  del_ok k r k' : RouteDel k r = (k', None) -> exists i y, routes k !! i = Some y /\ names r y = true /\
    (forall j z, routes k !! j = Some z -> names r z = true -> Priority y <= Priority z) /\ routes k' = delete i (routes k);
  del_missing k r k' e : RouteDel k r = (k', Some e) -> isNotExist e = true -> forall i y, routes k !! i = Some y -> names r y = false;
  del_fails k r k' e : RouteDel k r = (k', Some e) -> routes k' = routes k;
  del_links k r : links (RouteDel k r).1 = links k;
  add_link_ok k s k' : LinkAdd k s = (k', None) -> exists l, links k' = <[s := l]> (links k);
  add_link_fails k s k' e : LinkAdd k s = (k', Some e) -> links k' = links k;
  add_link_routes k s : routes (LinkAdd k s).1 = routes k;
  up_ok k l k' : LinkSetUp k l = (k', None) -> links k' = <[Link_Name l := mkLink (Link_Name l) (Link_Index l) true]> (links k);
  up_fails k l k' e : LinkSetUp k l = (k', Some e) -> links k' = links k;
  (** the kernel may add its own routes over the link *)
  up_routes k l i r : ours r \/ LinkIndex r <> Link_Index l -> routes (LinkSetUp k l).1 !! i = Some r <-> routes k !! i = Some r;
  (** a link takes the routes over it along *)
  del_link_ok k l k' : LinkDel k l = (k', None) -> links k' = delete (Link_Name l) (links k);
  del_link_missing k l k' e : LinkDel k l = (k', Some e) -> isLinkNotFound e = true -> links k' !! Link_Name l = None;
  del_link_shrinks k l : routes (LinkDel k l).1 ⊆ routes k;
  del_link_routes k l i r : LinkIndex r <> Link_Index l -> (forall h, h ∈ MultiPath r -> hop_LinkIndex h <> Link_Index l) ->
    routes k !! i = Some r -> routes (LinkDel k l).1 !! i = Some r
}.

(** ** Calls, by what they end with *)

Definition ends {K A} (m : call K A) (k : K) (Q : K -> A -> Prop) (E : K -> Prop) : Prop :=
  match m k with (k', inl a) => Q k' a | (k', inr _) => E k' end.

Section Ends.
Context {K : Type}.

Lemma ends_ret {A} (a : A) (k : K) (Q : K -> A -> Prop) E : Q k a -> ends (mret a) k Q E.
Proof. done. Qed.

Lemma ends_bind {A B} (m : call K A) (f : A -> call K B) k Q Q' (E : K -> Prop) :
  ends m k Q' E -> (forall k' a, Q' k' a -> ends (f a) k' Q E) -> ends (m ≫= f) k Q E.
Proof. unfold ends, mbind, call_bind. destruct (m k) as [k' [a|e]]; intros Hm Hf; [by apply Hf|done]. Qed.

Lemma ends_assoc {A B C} (m : call K A) (f : A -> call K B) (g : B -> call K C) k Q (E : K -> Prop) :
  ends ((m ≫= f) ≫= g) k Q E -> ends (m ≫= fun a => f a ≫= g) k Q E.
Proof. unfold ends, mbind, call_bind. by destruct (m k) as [k' [a|e]]. Qed.

Lemma ends_mono {A} (m : call K A) k Q Q' (E E' : K -> Prop) :
  ends m k Q' E' -> (forall k' a, Q' k' a -> Q k' a) -> (forall k', E' k' -> E k') -> ends m k Q E.
Proof. unfold ends. destruct (m k) as [k' [a|e]]; auto. Qed.

Lemma ends_reads {A} (f : K -> A + Errno) k (Q : K -> A -> Prop) (E : K -> Prop) :
  (forall a, f k = inl a -> Q k a) -> (forall e, f k = inr e -> E k) -> ends (reads f) k Q E.
Proof. unfold ends, reads. destruct (f k); eauto. Qed.

Lemma ends_writes (f : K -> K * option Errno) k (Q : K -> () -> Prop) (E : K -> Prop) :
  (forall k', f k = (k', None) -> Q k' ()) -> (forall k' e, f k = (k', Some e) -> E k') -> ends (writes f) k Q E.
Proof. unfold ends, writes. destruct (f k) as [k' [e|]]; [intros _ HE; by apply (HE k' e)|intros HQ _; by apply HQ]. Qed.

Lemma ends_unless (acc : Errno -> bool) (f : K -> K * option Errno) k (Q : K -> () -> Prop) (E : K -> Prop) :
  (forall k', f k = (k', None) -> Q k' ()) -> (forall k' e, f k = (k', Some e) -> if acc e then Q k' () else E k') ->
  ends (unless acc (writes f)) k Q E.
Proof.
  unfold ends, unless, writes. destruct (f k) as [k' [e|]]; intros HQ HE; [specialize (HE k' e eq_refl); by destruct (acc e)|by apply HQ].
Qed.

Lemma ends_catching {A} (acc : Errno -> bool) (f : K -> A + Errno) k (Q : K -> option A -> Prop) (E : K -> Prop) :
  (forall a, f k = inl a -> Q k (Some a)) -> (forall e, f k = inr e -> if acc e then Q k None else E k) ->
  ends (catching acc (reads f)) k Q E.
Proof. unfold ends, catching, reads. destruct (f k) as [a|e]; intros HQ HE; [by apply HQ|]. specialize (HE e eq_refl). by destruct (acc e). Qed.
End Ends.

Section Contract.
Context {K : Type} `{Kernel K} (routes : K -> gmap rkey Route) (links : K -> gmap string Link) `{!KernelLaws K routes links}.
Context (n : Z).
Implicit Types k : K.

(** From one state to another some routes for which [P] holds are gone, and nothing
    else has changed. *)
Definition loses (P : Route -> Prop) k k' : Prop :=
  forall i, routes k' !! i = routes k !! i \/ routes k' !! i = None /\ exists r, routes k !! i = Some r /\ P r.

Lemma loses_same P k k' : routes k' = routes k -> loses P k k'.
Proof. intros E i. left. by rewrite E. Qed.

Lemma loses_trans P k1 k2 k3 : loses P k1 k2 -> loses P k2 k3 -> loses P k1 k3.
Proof.
  intros H1 H2 i. destruct (H2 i) as [E|(E & r & Hr & Hp)].
  - destruct (H1 i) as [E'|(E' & ?)]; [left|right]; by rewrite E, E'.
  - destruct (H1 i) as [E'|(E' & ?)]; [|congruence]. right. split; [done|]. exists r. by rewrite <- E'.
Qed.

Lemma loses_delete (P : Route -> Prop) k k' i r : routes k !! i = Some r -> P r -> routes k' = delete i (routes k) -> loses P k k'.
Proof.
  intros Hi Hp E j. rewrite E. destruct (decide (j = i)) as [-> |Hne]; [|left; by rewrite lookup_delete_ne].
  right. rewrite lookup_delete_eq. split; [done|by exists r].
Qed.

Lemma loses_back P k k' i r : loses P k k' -> routes k' !! i = Some r -> routes k !! i = Some r.
Proof. intros Hl Hr. destruct (Hl i) as [E|[E _]]; congruence. Qed.

Lemma bool_decide_refl {A} `{EqDecision A} (x : A) : bool_decide (x = x) = true.
Proof. by apply bool_decide_eq_true. Qed.

Lemma names_refl r : names r r = true.
Proof. unfold names. by rewrite !bool_decide_refl, !Z.eqb_refl, !orb_true_r. Qed.

Lemma names_ours req r : names req r = true -> ours req -> Table r = Table req /\ Dst r = Dst req /\ ours r.
Proof.
  intros Hn Ho. unfold names in Hn. repeat rewrite andb_true_iff in Hn. destruct Hn as ((((((H1 & H2) & H3) & _) & _) & _) & _).
  apply bool_decide_eq_true in H1, H2. split; [done|]. split; [done|]. unfold ours in *. rewrite Ho in H3. by apply Z.eqb_eq in H3.
Qed.

Lemma names_metric req r : names req r = true -> Priority req <> 0 -> Priority r = Priority req.
Proof.
  intros Hn Hp. unfold names in Hn. repeat rewrite andb_true_iff in Hn. destruct Hn as ((((_ & H4) & _) & _) & _).
  apply orb_true_iff in H4 as [H4|H4]; apply Z.eqb_eq in H4; congruence.
Qed.

Lemma names_key req r : names req r = true -> Table r = Table req /\ Dst r = Dst req.
Proof. intros Hn. unfold names in Hn. repeat rewrite andb_true_iff in Hn. destruct Hn as ((((((H1 & H2) & _) & _) & _) & _) & _). by apply bool_decide_eq_true in H1, H2. Qed.

(** ** Withdrawals *)

(** The route to a network that is ours. *)
Definition ours_to (d : IPNet) (r : Route) : Prop := ours r /\ Table r = n /\ Dst r = Some d.

(** What a deletion that returns no error did: it took the route of the least metric
    the request names, or there was none to take. *)
Definition taken (req : Route) k k' : Prop :=
  links k' = links k /\
  ((exists i y, routes k !! i = Some y /\ names req y = true /\
      (forall j z, routes k !! j = Some z -> names req z = true -> Priority y <= Priority z) /\ routes k' = delete i (routes k)) \/
   routes k' = routes k /\ (forall i y, routes k !! i = Some y -> names req y = false)).

Lemma deletes req k :
  ends (unless isNotExist (writes (fun k => RouteDel k req))) k (fun k' _ => taken req k k') (fun k' => links k' = links k /\ routes k' = routes k).
Proof.
  pose proof (del_links k req) as Hl. apply ends_unless.
  - intros k' E. rewrite E in Hl. destruct (del_ok _ _ _ E) as (i & y & Hy). split; [done|]. left. by exists i, y.
  - intros k' e E. rewrite E in Hl. pose proof (del_fails _ _ _ _ E) as Er. destruct (isNotExist e) eqn:Ee; [|done].
    split; [done|]. right. split; [done|]. by apply (del_missing _ _ _ _ E Ee).
Qed.

Lemma taken_loses req k k' : ours req -> taken req k k' -> loses (fun r => ours r /\ Table r = Table req /\ Dst r = Dst req) k k'.
Proof.
  intros Ho [_ [(i & y & Hy & Hn & _ & E)|[E _]]]; [|by apply loses_same]. eapply loses_delete; [exact Hy| |exact E].
  by destruct (names_ours _ _ Hn Ho) as (T & D & O).
Qed.

(** It leaves nothing of its own metric. *)
Lemma taken_key req k k' :
  ours req -> taken req k k' -> (Priority req = 0 -> routes k !! rkey_of req = None \/ routes k !! rkey_of req = Some req) ->
  forall r, routes k' !! rkey_of req = Some r -> names req r = false.
Proof.
  intros Ho [_ [(i & y & Hy & Hn & Hmin & E)|[E Hnone]]] Hz r Hr; rewrite E in Hr; [|by apply (Hnone (rkey_of req))].
  destruct (names req r) eqn:Hnr; [|done]. exfalso. apply lookup_delete_Some in Hr as [Hne Hr]. apply Hne.
  destruct (names_ours _ _ Hn Ho) as (T & D & O). destruct (routes_keyed _ _ _ Hy) as [-> Hp]. unfold rkey_of. rewrite T, D. f_equal.
  destruct (decide (Priority req = 0)) as [E0|E0]; [|by apply names_metric].
  destruct (Hz E0) as [|Hreq]; [congruence|]. assert (r = req) as -> by congruence. specialize (Hmin _ _ Hr Hnr). lia.
Qed.

(** ** The device of the local SIDs *)

(** The device is there for some route of ours. *)
Definition dummy_used k : Prop :=
  forall l, links k !! srv6DummyDev = Some l -> exists i r, routes k !! i = Some r /\ ours r /\ LinkIndex r = Link_Index l.

(** A route the pruning of the device cannot take along: one that does not run over
    it, or is what keeps it. *)
Definition steady k (r : Route) : Prop :=
  forall l, links k !! srv6DummyDev = Some l ->
    LinkIndex r <> Link_Index l /\ (forall h, h ∈ MultiPath r -> hop_LinkIndex h <> Link_Index l) \/
    LinkIndex r = Link_Index l /\ ours r /\ exists d, Dst r = Some d /\ family_of d = FAMILY_V6.

Definition pruned k k' : Prop := routes k' ⊆ routes k /\ (forall i r, routes k !! i = Some r -> steady k r -> routes k' !! i = Some r).

Lemma pruned_same k k' : routes k' = routes k -> pruned k k'.
Proof. intros E. split; [by rewrite E|]. intros i r Hr _. by rewrite E. Qed.

Lemma prune_ok k : ends pruneSRv6Dummy k (fun k' _ => dummy_used k' /\ pruned k k') (fun k' => pruned k k').
Proof.
  unfold pruneSRv6Dummy. eapply (ends_bind _ _ _ _ (fun k' (found : option Link) => k' = k /\ links k !! srv6DummyDev = found)).
  { apply ends_catching; [intros l El%link_found; done|]. intros e E. destruct (isLinkNotFound e) eqn:Ee; [|by apply pruned_same].
    split; [done|]. by apply (link_missing _ _ _ E). }
  intros k' found [-> Hf]. destruct found as [l|]; [|apply ends_ret; split; [intros l Hl; congruence|by apply pruned_same]].
  eapply (ends_bind _ _ _ _ (fun k' rs => k' = k /\ RouteListFiltered k FAMILY_V6 (bare_route 0 (Link_Index l)) [RT_FILTER_PROTOCOL; RT_FILTER_OIF] = inl rs)).
  { apply ends_reads; [done|]. intros _ _. by apply pruned_same. }
  intros k' rs [-> Hrs]. destruct (0 <? length rs)%nat eqn:El.
  - apply ends_ret. split; [|by apply pruned_same]. intros l' Hl'. assert (l' = l) as -> by congruence. destruct rs as [|x rs]; [done|].
    destruct (list_sound _ _ _ _ _ Hrs x ltac:(by left)) as (i & y & Hy & (_ & Hp & _ & Ho) & _). exists i, y. split; [done|].
    split; [apply Hp; set_solver|apply Ho; set_solver].
  - assert (Hnil : rs = []) by (destruct rs; [done|discriminate]). subst rs.
    assert (Hpr : forall e k', LinkDel k l = (k', e) -> pruned k k').
    { intros e k' E. assert (k' = (LinkDel k l).1) as -> by (by rewrite E). split; [apply del_link_shrinks|]. intros i r Hr Hst. destruct (Hst l Hf) as [[Hi Hm]|(Hi & Ho & d & Hd & Hv)].
      - by apply del_link_routes.
      - exfalso. destruct (list_complete _ _ _ _ _ Hrs i r d Hr Hd) as (x & Hx & _); [|by apply not_elem_of_nil in Hx].
        split; [intros d' Hd'; congruence|]. split; [done|]. split; [set_solver|done]. }
    pose proof (links_named _ _ _ Hf) as Hn. apply ends_unless.
    + intros k' E. split; [|by eapply Hpr]. intros l' Hl'. by rewrite (del_link_ok _ _ _ E), Hn, lookup_delete_eq in Hl'.
    + intros k' e E. destruct (isLinkNotFound e) eqn:Ee; [|by eapply Hpr]. split; [|by eapply Hpr].
      intros l' Hl'. pose proof (del_link_missing _ _ _ _ E Ee) as Hm. congruence.
Qed.

(** ** Routes *)

(** The hop the kernel is given for a next hop: the index of its interface, the octets
    of its gateway. *)
Definition leads k (nh : NextHopInfo) (h : NexthopInfo) : Prop :=
  exists l, links k !! Interface nh = Some l /\ h = mkNexthopInfo (Link_Index l) (addr_bytes (Gateway nh)).

Definition key (p : Prefix) : rkey := (n, Some (prefixToIPNet p), routePriority).

Definition forwards (p : Prefix) (hops : list NexthopInfo) : Route :=
  match hops with
  | [h] => with_gateway (baseRoute n p) (hop_LinkIndex h) (hop_Gw h)
  | _ => with_multipath (baseRoute n p) hops
  end.

Lemma nexthop_ok nh k : ends (nexthop_info nh) k (fun k' h => k' = k /\ leads k nh h) (fun k' => k' = k).
Proof.
  unfold nexthop_info. eapply (ends_bind _ _ _ _ (fun k' l => k' = k /\ links k !! Interface nh = Some l)).
  { apply ends_reads; [|done]. by intros l El%link_found. }
  intros k' l [-> Hl]. apply ends_ret. split; [done|by exists l].
Qed.

Lemma multipath_ok nhs k : ends (multipath nhs) k (fun k' hs => k' = k /\ Forall2 (leads k) nhs hs) (fun k' => k' = k).
Proof.
  induction nhs as [|nh nhs IH]; cbn [multipath]; [by apply ends_ret|].
  eapply ends_bind; [apply nexthop_ok|]. intros k' h [-> Hh]. eapply ends_bind; [apply IH|]. intros k' hs [-> Hhs]. by apply ends_ret; auto.
Qed.

Lemma route_ok p nhs k :
  nhs <> [] -> ends (route n p nhs) k (fun k' r => k' = k /\ exists hops, Forall2 (leads k) nhs hops /\ r = forwards p hops) (fun k' => k' = k).
Proof.
  intros Hne. unfold route. destruct nhs as [|nh [|nh2 nhs]]; [done|..].
  - eapply ends_bind; [apply nexthop_ok|]. intros k' h [-> Hh]. apply ends_ret. split; [done|]. exists [h]. by repeat constructor.
  - eapply ends_bind; [apply multipath_ok|]. intros k' hs [-> Hhs]. apply ends_ret. split; [done|]. exists hs. split; [done|].
    apply Forall2_length in Hhs. by destruct hs as [|h [|h2 hs]].
Qed.

Lemma forwards_key p hops : stored (forwards p hops) = forwards p hops /\ rkey_of (forwards p hops) = key p.
Proof. by destruct hops as [|h [|h2 hops]]. Qed.

Lemma Update_ok p nhs k :
  nhs <> [] ->
  ends (netlink_Update n p nhs) k
    (fun k' _ => links k' = links k /\ exists hops, Forall2 (leads k) nhs hops /\ routes k' = <[key p := forwards p hops]> (routes k))
    (fun k' => links k' = links k /\ routes k' = routes k).
Proof.
  intros Hne. unfold netlink_Update. destruct nhs as [|nh nhs]; [done|].
  eapply ends_bind; [eapply ends_mono; [by apply (route_ok p (nh :: nhs))|intros k' r X; exact X|by intros k' ->]|].
  intros k' r (-> & hops & Hh & ->). destruct (forwards_key p hops) as [Es Ek]. pose proof (replace_links k (forwards p hops)) as Hl. apply ends_writes.
  - intros k' E. rewrite E in Hl. split; [done|]. exists hops. split; [done|]. by rewrite (replace_ok _ _ _ E), Es, Ek.
  - intros k' e E. rewrite E in Hl. split; [done|]. by apply (replace_fails _ _ _ _ E).
Qed.

Lemma Withdraw_ok p k :
  ends (netlink_Withdraw n p) k
    (fun k' _ => links k' = links k /\ loses (ours_to (prefixToIPNet p)) k k' /\ (forall r, routes k' !! key p = Some r -> ~ ours r))
    (fun k' => links k' = links k /\ routes k' = routes k).
Proof.
  eapply ends_mono; [apply deletes| |done]. intros k' [] Ht. split; [apply Ht|]. assert (Ho : ours (baseRoute n p)) by done.
  split; [exact (taken_loses _ _ _ Ho Ht)|]. intros r Hr Hor. pose proof (taken_key _ _ _ Ho Ht ltac:(done) r Hr) as Hn.
  destruct (routes_keyed _ _ _ Hr) as [Hk _]. injection Hk as K1 K2 K3. unfold names in Hn.
  rewrite <- K1, <- K2, <- K3, Hor in Hn. cbn -[Z.eqb bool_decide routePriority] in Hn. by rewrite !bool_decide_refl, !Z.eqb_refl, !orb_true_r in Hn.
Qed.

(** ** Local SIDs *)

Definition same_ours k k' : Prop := forall i r, ours r -> routes k' !! i = Some r <-> routes k !! i = Some r.

Lemma same_ours_trans k1 k2 k3 : same_ours k1 k2 -> same_ours k2 k3 -> same_ours k1 k3.
Proof. intros H1 H2 i r Hr. rewrite (H2 i r Hr). by apply H1. Qed.

Lemma same_ours_routes k k' : routes k' = routes k -> same_ours k k'.
Proof. intros E i r _. by rewrite E. Qed.

Definition device (dev : string) : string := if bool_decide (dev = ""%string) then srv6DummyDev else dev.

Definition sits k (dev : string) (l : Link) : Prop := links k !! device dev = Some l /\ (dev = ""%string -> Link_Up l = true).

Lemma dummy_found k :
  ends (found ← catching isLinkNotFound (reads (fun k => LinkByName k srv6DummyDev));
        match found with
        | Some link => mret link
        | None => _ ← unless isExist (writes (fun k => LinkAdd k srv6DummyDev)); reads (fun k => LinkByName k srv6DummyDev)
        end) k
    (fun k' l => same_ours k k' /\ links k' !! srv6DummyDev = Some l) (same_ours k).
Proof.
  assert (Hrefl : same_ours k k) by (by apply same_ours_routes).
  eapply (ends_bind _ _ _ _ (fun k' (found : option Link) => k' = k /\ forall l, found = Some l -> links k !! srv6DummyDev = Some l)).
  { apply ends_catching; [intros l El%link_found; split; [done|]; by intros ? [= <-]|]. intros e _. destruct (isLinkNotFound e); [by split|done]. }
  intros k' [l|] [-> Hl]; [apply ends_ret; split; [done|by apply Hl]|].
  eapply (ends_bind _ _ _ _ (fun k' _ => same_ours k k')).
  - pose proof (add_link_routes k srv6DummyDev) as Hr. apply ends_unless.
    + intros k' E. rewrite E in Hr. by apply same_ours_routes.
    + intros k' e E. rewrite E in Hr. destruct (isExist e); by apply same_ours_routes.
  - intros k' _ Hk. apply ends_reads; [|done]. intros l El%link_found. by split.
Qed.

Lemma localSIDDevice_ok dev k :
  ends (localSIDDevice dev) k (fun k' i => same_ours k k' /\ exists l, sits k' dev l /\ Link_Index l = i) (same_ours k).
Proof.
  assert (Hrefl : same_ours k k) by (by apply same_ours_routes).
  unfold localSIDDevice, sits, device. destruct (bool_decide (dev = ""%string)) eqn:Ed; cbn [negb].
  - apply ends_assoc. eapply ends_bind; [apply dummy_found|]. intros k2 l [Hs Hl].
    eapply (ends_bind _ _ _ _ (fun k3 _ => same_ours k k3 /\ links k3 !! srv6DummyDev = Some (mkLink (Link_Name l) (Link_Index l) true))).
    + destruct (Link_Up l) eqn:Eu; [apply ends_ret; split; [done|]; rewrite Hl; by destruct l; cbn in *; subst|].
      assert (Hk : forall k3 e, LinkSetUp k2 l = (k3, e) -> same_ours k k3).
      { intros k3 e E. eapply same_ours_trans; [exact Hs|]. intros i r Hr. assert (k3 = (LinkSetUp k2 l).1) as -> by (by rewrite E). apply up_routes. by left. }
      apply ends_writes; [|by eauto]. intros k3 E. split; [by eauto|]. by rewrite (up_ok _ _ _ E), (links_named _ _ _ Hl), lookup_insert_eq.
    + intros k3 _ [Hs3 Hl3]. apply ends_ret. split; [done|]. by eexists.
  - eapply (ends_bind _ _ _ _ (fun k' l => k' = k /\ links k !! dev = Some l)).
    { apply ends_reads; [by intros l El%link_found|done]. }
    intros k' l [-> Hl]. apply ends_ret. split; [done|]. exists l. split; [split; [done|]|done]. intros ->. by rewrite bool_decide_true in Ed.
Qed.

Definition sid_route (sid : LocalSID) (enc : SEG6LocalEncap) (i : Z) : Route :=
  stored (mkRoute (Some (sid_net (LS_SID sid))) rtprotoISIS n 0 i [] [] (Some enc)).

Lemma AddLocalSID_ok sid k :
  ends (netlink_AddLocalSID n sid) k
    (fun k' _ => exists enc dev l, sid_encap sid = Some (enc, dev) /\ sits k' dev l /\
       let r := sid_route sid enc (Link_Index l) in
       routes k' !! rkey_of r = Some r /\ (forall i x, ours x -> i <> rkey_of r -> routes k' !! i = Some x <-> routes k !! i = Some x))
    (same_ours k).
Proof.
  unfold netlink_AddLocalSID, localSIDRoute. destruct (sid_encap sid) as [[enc dev]|]; [|by apply same_ours_routes].
  eapply (ends_bind _ _ _ _ (fun k' r => same_ours k k' /\ exists l, sits k' dev l /\
    r = mkRoute (Some (sid_net (LS_SID sid))) rtprotoISIS n 0 (Link_Index l) [] [] (Some enc))).
  { eapply ends_bind; [apply localSIDDevice_ok|]. intros k' i (Hs & l & Hl & <-). apply ends_ret. split; [done|by exists l]. }
  intros k' r (Hs & l & Hl & ->). pose proof (replace_links k' (mkRoute (Some (sid_net (LS_SID sid))) rtprotoISIS n 0 (Link_Index l) [] [] (Some enc))) as Hk.
  apply ends_writes.
  - intros k2 E. rewrite E in Hk. cbn [fst] in Hk. exists enc, dev, l. split; [done|]. unfold sits in *. rewrite Hk. split; [done|]. cbv zeta.
    rewrite (replace_ok _ _ _ E). unfold sid_route. split; [by rewrite lookup_insert_eq|]. intros i x Hx Hi. rewrite lookup_insert_ne by done. by apply Hs.
  - intros k2 e E. eapply same_ours_trans; [exact Hs|]. apply same_ours_routes. by apply (replace_fails _ _ _ _ E).
Qed.

Lemma RemoveLocalSID_ok sid k :
  let req := mkRoute (Some (sid_net sid)) rtprotoISIS n 0 0 [] [] None in
  ends (netlink_RemoveLocalSID n sid) k
    (fun k' _ => dummy_used k' /\ exists k1, taken req k k1 /\ pruned k1 k')
    (fun k' => exists k1, (taken req k k1 \/ links k1 = links k /\ routes k1 = routes k) /\ pruned k1 k').
Proof.
  intros req. unfold netlink_RemoveLocalSID. eapply ends_bind.
  - eapply ends_mono; [apply deletes|intros k' a X; exact X|]. intros k' Hk. exists k'. split; [by right|by apply pruned_same].
  - intros k1 [] Ht. eapply ends_mono; [apply prune_ok| |].
    + intros k' [] [Hd Hp]. split; [done|by exists k1].
    + intros k' Hp. exists k1. split; [by left|done].
Qed.

(** Routes for which [P] holds may be gone; nothing else is, but what ran over a
    device that was pruned; and there is no new route. *)
Definition spares (P : Route -> Prop) k k' : Prop :=
  routes k' ⊆ routes k /\ (forall i r, routes k !! i = Some r -> ~ P r -> steady k r -> routes k' !! i = Some r).

Lemma spares_pruned P k k1 k' : links k1 = links k -> loses P k k1 -> pruned k1 k' -> spares P k k'.
Proof.
  intros Hl Hk [Hsub Hst]. split.
  - etransitivity; [exact Hsub|]. apply map_subseteq_spec. intros i r. by apply loses_back with P.
  - intros i r Hr Hp Hs. apply Hst; [|intros l; rewrite Hl; by apply Hs]. destruct (Hk i) as [E|(_ & r' & Hr' & Hp')]; [by rewrite E|congruence].
Qed.

(** ** The sweep *)

Definition reaped (keep : Prefix -> bool) (r : Route) : Prop := ours r /\ Table r = n /\ swept keep r = true.

Lemma sweep_routes_ok keep k0 rs k :
  Forall (fun x => swept keep x = true -> routes k0 !! rkey_of x = Some x /\ ours x /\ Table x = n) rs -> loses (reaped keep) k0 k ->
  ends (sweep_routes keep rs) k
    (fun k' _ => links k' = links k /\ loses (reaped keep) k0 k' /\ loses (reaped keep) k k' /\
       Forall (fun x => swept keep x = true -> routes k' !! rkey_of x = None) rs)
    (fun k' => links k' = links k /\ loses (reaped keep) k0 k').
Proof.
  intros Hrs. revert k. induction Hrs as [|x rs Hx _ IH]; intros k Hk; cbn [sweep_routes]; [apply ends_ret; split_and!; [done|done|by apply loses_same|done]|].
  eapply (ends_bind _ _ _ _ (fun k1 _ => links k1 = links k /\ loses (reaped keep) k0 k1 /\ loses (reaped keep) k k1 /\
    (swept keep x = true -> routes k1 !! rkey_of x = None))).
  - destruct (swept keep x) eqn:Es; [|apply ends_ret; split_and!; [done|done|by apply loses_same|done]].
    destruct (Hx eq_refl) as (Hx0 & Ho & Ht). eapply ends_mono; [apply deletes| |].
    + intros k1 [] Hd. assert (Hl : loses (reaped keep) k k1).
      { intros i. destruct (taken_loses _ _ _ Ho Hd i) as [E|(E & r & Hr & Hor & T & D)]; [by left|right]. split; [done|]. exists r. split; [done|].
        split; [done|]. split; [congruence|]. unfold swept in *. by rewrite D. }
      split; [apply Hd|]. split; [by eapply loses_trans|]. split; [done|]. intros _. destruct (routes k1 !! rkey_of x) as [r|] eqn:Er; [|done].
      exfalso. pose proof (loses_back _ _ _ _ _ Hl Er) as Er'. pose proof (loses_back _ _ _ _ _ Hk Er') as Er0. assert (r = x) as -> by congruence.
      pose proof (taken_key _ _ _ Ho Hd ltac:(intros _; by right) x Er) as Hn. by rewrite names_refl in Hn.
    + intros k1 [Hl Hr]. split; [done|]. eapply loses_trans; [exact Hk|by apply loses_same].
  - intros k1 _ (Hl & Hk1 & Hk1' & Hnone). eapply ends_mono; [by apply IH| |].
    + intros k2 [] (Hl2 & Hk2 & Hk2' & Hall). split; [by rewrite Hl2|]. split; [done|]. split; [by eapply loses_trans|]. constructor; [|done].
      intros Es. destruct (Hk2' (rkey_of x)) as [E|[E _]]; [rewrite E; by apply Hnone|done].
    + intros k2 [Hl2 Hk2]. by rewrite Hl2.
Qed.

(** Nothing of ours is left in the table that is not wanted, a default route apart. *)
Definition clean (keep : Prefix -> bool) (f : Family) k : Prop :=
  forall i r d, routes k !! i = Some r -> ours r -> Table r = n -> Dst r = Some d -> family_of d = f -> Mask_ones (Mask d) <> 0 -> swept keep r = false.

Lemma sweep_family_ok keep f k :
  ends (sweep_family n keep f) k
    (fun k' _ => links k' = links k /\ loses (reaped keep) k k' /\ clean keep f k') (fun k' => links k' = links k /\ loses (reaped keep) k k').
Proof.
  assert (Hrefl : loses (reaped keep) k k) by (by apply loses_same). unfold sweep_family.
  eapply (ends_bind _ _ _ _ (fun k' rs => k' = k /\ RouteListFiltered k f (bare_route n 0) [RT_FILTER_PROTOCOL; RT_FILTER_TABLE] = inl rs)).
  { by apply ends_reads. }
  intros k' rs [-> Hrs]. eapply ends_mono; [apply (sweep_routes_ok keep k); [|done]| |done].
  - apply Forall_forall. intros x Hx Hsw. destruct (list_sound _ _ _ _ _ Hrs x Hx) as (i & y & Hy & (_ & Hp & Ht & _) & Hxy).
    destruct (routes_keyed _ _ _ Hy) as [-> _]. destruct Hxy as [-> |(d & _ & _ & ->)]; [|done].
    split; [done|]. split; [apply Hp; set_solver|apply Ht; set_solver].
  - intros k' [] (Hl & Hk & _ & Hall). split; [done|]. split; [done|]. intros i r d Hr Ho Ht Hd Hf Hm. destruct (swept keep r) eqn:Es; [|done]. exfalso.
    pose proof (loses_back _ _ _ _ _ Hk Hr) as Hr0. destruct (list_complete _ _ _ _ _ Hrs i r d Hr0 Hd) as (x & Hx & Hrx).
    { split; [by intros d' [= <-]%(eq_trans (eq_sym Hd))|]. split; [done|]. split; [done|set_solver]. }
    destruct Hrx as [-> |(d' & Hd' & Hm' & _)]; [|congruence]. rewrite Forall_forall in Hall. destruct (routes_keyed _ _ _ Hr) as [-> _].
    by rewrite (Hall r Hx Es) in Hr.
Qed.

Lemma clean_sub keep f k k' : routes k' ⊆ routes k -> clean keep f k -> clean keep f k'.
Proof. intros Hs Hc i r d Hr. apply (Hc i). by eapply lookup_weaken. Qed.

Lemma Sweep_ok keep k :
  ends (netlink_Sweep n keep) k
    (fun k' _ => dummy_used k' /\ (forall f, clean keep f k') /\ spares (reaped keep) k k') (fun k' => spares (reaped keep) k k').
Proof.
  unfold netlink_Sweep. eapply ends_bind.
  { eapply ends_mono; [apply sweep_family_ok|intros k' a X; exact X|]. intros k' [Hl Hk]. eapply spares_pruned; [exact Hl|exact Hk|by apply pruned_same]. }
  intros k1 [] (Hl1 & Hk1 & Hc1). eapply ends_bind.
  { eapply ends_mono; [apply sweep_family_ok|intros k' a X; exact X|]. intros k' [Hl Hk].
    eapply spares_pruned; [by rewrite Hl|by eapply loses_trans|by apply pruned_same]. }
  intros k2 [] (Hl2 & Hk2 & Hc2). assert (Hl : links k2 = links k) by (by rewrite Hl2). assert (Hk : loses (reaped keep) k k2) by (by eapply loses_trans).
  eapply ends_mono; [apply prune_ok| |intros k' Hp; by eapply spares_pruned].
  intros k' [] [Hd Hp]. split; [done|]. split; [|by eapply spares_pruned]. intros f. apply clean_sub with k2; [apply Hp|].
  destruct f; [|done]. apply clean_sub with k1; [|done]. apply map_subseteq_spec. intros i r. by eapply loses_back.
Qed.

(** ** The contract of fib.go *)

(** What holds after a call of the interface, when it returned no error and when it
    did. *)
Definition after (r : K * bool) (Q E : K -> Prop) : Prop := if r.2 then Q r.1 else E r.1.

Lemma after_ends (m : call K ()) k (Q : K -> () -> Prop) E : ends m k Q E -> after (answer (m k)) (fun k' => Q k' ()) E.
Proof. unfold ends, after, answer. by destruct (m k) as [k' [[]|e]]. Qed.

Lemma after_success r Q E : after r Q E -> r.2 = true -> Q r.1.
Proof. unfold after. destruct r as [k' []]; [done|discriminate]. Qed.

Lemma key_inj p q : routable p -> routable q -> key p = key q -> Masked p = Masked q.
Proof. intros Hp Hq E. unfold key in E. assert (Ed : prefixToIPNet p = prefixToIPNet q) by congruence. apply (inj Some). by rewrite <- (IPNet_roundtrip p Hp), <- (IPNet_roundtrip q Hq), Ed. Qed.

Lemma swept_prefix keep r p : routable p -> Dst r = Some (prefixToIPNet p) -> swept keep r = negb (keep (Masked p)).
Proof. intros Hp Hd. unfold swept. by rewrite Hd, IPNet_roundtrip. Qed.

Lemma ones_prefix p : routable p -> Mask_ones (Mask (prefixToIPNet p)) = p_bits p.
Proof.
  intros (Hb & Hz & _). unfold prefixToIPNet. cbn [Mask]. apply Mask_ones_CIDR; [|done]. destruct (p_addr p); [done|by left|by right].
Qed.

Definition sid_key (sid : Addr) (metric : Z) : rkey := (n, Some (sid_net sid), metric).

Lemma taken_sid sid k k1 :
  taken (mkRoute (Some (sid_net sid)) rtprotoISIS n 0 0 [] [] None) k k1 ->
  links k1 = links k /\ loses (ours_to (sid_net sid)) k k1 /\
  ((forall i r, routes k !! i = Some r -> ~ ours_to (sid_net sid) r) /\ routes k1 = routes k \/
   exists m r, routes k !! sid_key sid m = Some r /\ ours r /\ routes k1 = delete (sid_key sid m) (routes k) /\
     forall i x, routes k !! i = Some x -> ours_to (sid_net sid) x -> m <= Priority x).
Proof.
  set (req := mkRoute _ _ _ _ _ _ _ _). assert (Ho : ours req) by done. intros Ht. split; [apply Ht|].
  split; [exact (taken_loses _ _ _ Ho Ht)|]. destruct Ht as [_ [(i & y & Hy & Hn & Hmin & E)|[Er Hnone]]].
  - right. destruct (names_ours _ _ Hn Ho) as (T & D & O). destruct (routes_keyed _ _ _ Hy) as [-> _]. unfold rkey_of in *. rewrite T, D in *.
    exists (Priority y), y. split; [done|]. split; [done|]. split; [done|]. intros j x Hx (Ox & Tx & Dx). apply (Hmin j x Hx).
    unfold names. cbn -[Z.eqb bool_decide]. by rewrite Tx, Dx, Ox, !bool_decide_refl, !Z.eqb_refl, !orb_true_r.
  - left. split; [|exact Er]. intros j x Hx (Ox & Tx & Dx). pose proof (Hnone j x Hx) as Hn. unfold names in Hn. cbn -[Z.eqb bool_decide] in Hn.
    by rewrite Tx, Dx, Ox, !bool_decide_refl, !Z.eqb_refl, !orb_true_r in Hn.
Qed.

(** C16: The Linux forwarding table keeps the contract of the interface, as far as
    the kernel keeps its own.  [Update] replaces the one kernel route of a prefix by
    one over the links and gateways it was given, [Withdraw] leaves no route of ours
    there, and both change nothing else; two prefixes share a kernel route only if
    they mask to the same prefix.  [Sweep] leaves no route of ours in the table
    whose prefix is not wanted (a default route apart) and adds none.
    [AddLocalSID] leaves the SID on the link it names or, where it names no circuit,
    on the device of the SIDs, which is up; no other route of ours changes.
    [RemoveLocalSID] takes one route of ours to the SID's address where there is one,
    that of the least metric, so that a route learned to the same address goes
    before the SID.  After a [Sweep] or a [RemoveLocalSID] the device of the SIDs is
    only there if some route of ours uses it.  Beside those it was to remove, these
    two calls take routes only with the device they prune: a route that does not
    run over the device, and an IPv6 route of ours that does, stay; a foreign route
    or one of another family over a pruned device may go with it.  A call that
    returns an error has changed no other route than this allows, and an [Update], a
    [Withdraw] or an [AddLocalSID] that does has changed no route of ours. *)
Theorem netlink_contract k :
  let _ := NetlinkFIB n in
  (forall p q, routable p -> routable q -> key p = key q -> Masked p = Masked q) /\
  (forall p nhs, nhs <> [] -> after (Update k p nhs)
     (fun k' => exists hops, Forall2 (leads k) nhs hops /\ routes k' = <[key p := forwards p hops]> (routes k))
     (fun k' => routes k' = routes k)) /\
  (forall p, after (Withdraw k p)
     (fun k' => loses (ours_to (prefixToIPNet p)) k k' /\ (forall r, routes k' !! key p = Some r -> ~ ours r))
     (fun k' => routes k' = routes k)) /\
  (forall keep, after (Sweep k keep)
     (fun k' => dummy_used k' /\ spares (reaped keep) k k' /\
        (forall i r p, routes k' !! i = Some r -> ours r -> Table r = n -> Dst r = Some (prefixToIPNet p) -> routable p -> p_bits p <> 0 -> keep (Masked p) = true))
     (spares (reaped keep) k)) /\
  (forall sid, after (AddLocalSID k sid)
     (fun k' => exists enc dev l, sid_encap sid = Some (enc, dev) /\ sits k' dev l /\
        let r := sid_route sid enc (Link_Index l) in
        routes k' !! rkey_of r = Some r /\ (forall i x, ours x -> i <> rkey_of r -> routes k' !! i = Some x <-> routes k !! i = Some x))
     (same_ours k)) /\
  (forall sid, after (RemoveLocalSID k sid)
     (fun k' => dummy_used k' /\
        ((forall i r, routes k !! i = Some r -> ~ ours_to (sid_net sid) r) /\ spares (fun _ => False) k k' \/
         exists m r, routes k !! sid_key sid m = Some r /\ ours r /\ routes k' !! sid_key sid m = None /\
           (forall i x, routes k !! i = Some x -> ours_to (sid_net sid) x -> m <= Priority x) /\ spares (fun x => x = r) k k'))
     (spares (ours_to (sid_net sid)) k)).
Proof.
  cbv zeta. split_and!.
  - apply key_inj.
  - intros p nhs Hne. apply after_ends with (Q := fun k' _ => _). eapply ends_mono; [by apply Update_ok|by intros k' _ [_ ?]|by intros k' [_ ?]].
  - intros p. apply after_ends with (Q := fun k' _ => _). eapply ends_mono; [apply Withdraw_ok|by intros k' _ [_ ?]|by intros k' [_ ?]].
  - intros keep. apply after_ends with (Q := fun k' _ => _). eapply ends_mono; [apply Sweep_ok| |done]. intros k' _ (Hd & Hc & Hs). split; [done|].
    split; [done|]. intros i r p Hr Ho Ht Hp Hrt Hb. pose proof (Hc (family_of (prefixToIPNet p)) i r _ Hr Ho Ht Hp eq_refl) as Hsw.
    rewrite ones_prefix, (swept_prefix keep r p Hrt Hp) in Hsw by done. by apply negb_false_iff, Hsw.
  - intros sid. apply after_ends with (Q := fun k' _ => _). apply AddLocalSID_ok.
  - intros sid. apply after_ends with (Q := fun k' _ => _). eapply ends_mono; [apply RemoveLocalSID_ok| |].
    + intros k' _ (Hd & k1 & Ht & Hp). destruct (taken_sid _ _ _ Ht) as (Hl & _ & Hcase). split; [done|].
      destruct Hcase as [[Hnone E]|(m & r & Hr & Hor & E & Hmin)]; [left|right].
      * split; [done|]. eapply spares_pruned; [done|by apply loses_same|done].
      * exists m, r. split; [done|]. split; [done|]. split; [|split; [done|]].
        -- destruct (routes k' !! sid_key sid m) as [z|] eqn:Ez; [|done]. assert (Hz : routes k1 !! sid_key sid m = Some z) by (eapply lookup_weaken; [exact Ez|apply Hp]).
           by rewrite E, lookup_delete_eq in Hz.
        -- eapply spares_pruned; [done| |done]. by eapply loses_delete.
    + intros k' (k1 & [Ht|[Hl E]] & Hp); [destruct (taken_sid _ _ _ Ht) as (Hl & Hk & _)|]; eapply spares_pruned; eauto using loses_same.
Qed.
End Contract.

(** ** A kernel

    It does all it is asked, of the least metric first; the links and routes it was
    given under another name than their own are not there. *)
Record box : Type := mkBox { b_routes : gmap rkey Route; b_links : gmap string Link }.

Definition box_routes (k : box) : gmap rkey Route := filter (fun ir => ir.1 = rkey_of ir.2 /\ 0 <= Priority ir.2) (b_routes k).
Definition box_links (k : box) : gmap string Link := filter (fun sl => Link_Name sl.2 = sl.1) (b_links k).

Fixpoint least (xs : list (rkey * Route)) : option (rkey * Route) :=
  match xs with
  | [] => None
  | x :: xs => match least xs with Some y => Some (if Priority y.2 <? Priority x.2 then y else x) | None => Some x end
  end.

Definition selectsb (f : Family) (filter : Route) (m : list Filter) (r : Route) : bool :=
  (match Dst r with Some d => bool_decide (family_of d = f) | None => true end) &&
  (bool_decide (RT_FILTER_PROTOCOL ∉ m) || (Protocol r =? Protocol filter)) && (bool_decide (RT_FILTER_TABLE ∉ m) || (Table r =? Table filter)) &&
  (bool_decide (RT_FILTER_OIF ∉ m) || (LinkIndex r =? LinkIndex filter)).

Definition over (i : Z) (r : Route) : bool := (LinkIndex r =? i) || existsb (fun h => hop_LinkIndex h =? i) (MultiPath r).

#[export] Instance BoxKernel : Kernel box := {
  LinkByName k s := match box_links k !! s with Some l => inl l | None => inr LinkNotFoundError end;
  RouteListFiltered k f r m := inl (List.filter (selectsb f r m) (map_to_list (box_routes k)).*2);
  RouteReplace k r := if 0 <=? Priority r then (mkBox (<[rkey_of (stored r) := stored r]> (b_routes k)) (b_links k), None) else (k, Some OtherErrno);
  RouteDel k r :=
    match least (List.filter (fun iy => names r iy.2) (map_to_list (box_routes k))) with
    | Some (i, _) => (mkBox (delete i (b_routes k)) (b_links k), None)
    | None => (k, Some ESRCH)
    end;
  LinkAdd k s := if bool_decide (is_Some (box_links k !! s)) then (k, Some EEXIST)
    else (mkBox (b_routes k) (<[s := mkLink s (map_fold (fun _ l => Z.max (1 + Link_Index l)) 1 (b_links k)) false]> (b_links k)), None);
  LinkSetUp k l := (mkBox (b_routes k) (<[Link_Name l := mkLink (Link_Name l) (Link_Index l) true]> (b_links k)), None);
  LinkDel k l := (mkBox (filter (fun ir => over (Link_Index l) ir.2 = false) (b_routes k)) (delete (Link_Name l) (b_links k)), None)
}.

Lemma least_spec xs :
  match least xs with Some x => x ∈ xs /\ (forall y, y ∈ xs -> Priority x.2 <= Priority y.2) | None => xs = [] end.
Proof.
  induction xs as [|x xs IH]; [done|]. cbn [least]. destruct (least xs) as [y|].
  - destruct IH as [Hy Hm]. destruct (Priority y.2 <? Priority x.2) eqn:E; (split; [set_solver|]); intros z [-> |Hz]%elem_of_cons;
      try specialize (Hm z Hz); lia.
  - subst. split; [by left|]. intros y [-> |Hy]%elem_of_cons; [lia|by apply not_elem_of_nil in Hy].
Qed.

Lemma selectsb_spec f r m y : selectsb f r m y = true <-> selects f r m y.
Proof.
  unfold selectsb, selects. rewrite !andb_true_iff, !orb_true_iff, !bool_decide_eq_true, !Z.eqb_eq.
  destruct (Dst y) as [d|]; rewrite ?bool_decide_eq_true; destruct (decide (RT_FILTER_PROTOCOL ∈ m)), (decide (RT_FILTER_TABLE ∈ m)), (decide (RT_FILTER_OIF ∈ m)); naive_solver.
Qed.

Lemma box_keyed k i r : box_routes k !! i = Some r -> i = rkey_of r /\ 0 <= Priority r.
Proof. by intros [_ ?]%map_lookup_filter_Some. Qed.

Lemma box_insert k r links : 0 <= Priority r -> box_routes (mkBox (<[rkey_of r := r]> (b_routes k)) links) = <[rkey_of r := r]> (box_routes k).
Proof. intros Hr. unfold box_routes. cbn [b_routes]. by rewrite map_filter_insert_True. Qed.

Lemma box_delete k i links : box_routes (mkBox (delete i (b_routes k)) links) = delete i (box_routes k).
Proof. unfold box_routes. cbn [b_routes]. by rewrite map_filter_delete. Qed.

Lemma box_link k r l : box_links (mkBox r (<[Link_Name l := l]> (b_links k))) = <[Link_Name l := l]> (box_links k).
Proof. unfold box_links. cbn [b_links]. by rewrite map_filter_insert_True. Qed.

Lemma box_named k r : forall i y, (i, y) ∈ List.filter (fun iy => names r iy.2) (map_to_list (box_routes k)) <-> box_routes k !! i = Some y /\ names r y = true.
Proof. intros i y. rewrite list_elem_of_In, filter_In, <- list_elem_of_In, elem_of_map_to_list. done. Qed.

Lemma box_del k r :
  match RouteDel k r with
  | (k', None) => exists i y, box_routes k !! i = Some y /\ names r y = true /\
      (forall j z, box_routes k !! j = Some z -> names r z = true -> Priority y <= Priority z) /\ box_routes k' = delete i (box_routes k)
  | (k', Some e) => k' = k /\ (forall i y, box_routes k !! i = Some y -> names r y = false)
  end.
Proof.
  cbn [RouteDel BoxKernel]. pose proof (box_named k r) as Hn. pose proof (least_spec (List.filter (fun iy => names r iy.2) (map_to_list (box_routes k)))) as Hl.
  destruct (least _) as [[i y]|].
  - destruct Hl as [[Hy Ny]%Hn Hm]. exists i, y. split; [done|]. split; [done|]. split; [|by apply box_delete].
    intros j z Hz Nz. apply (Hm (j, z)). by apply Hn.
  - split; [done|]. intros i y Hy. destruct (names r y) eqn:E; [|done]. exfalso. assert (Hi : (i, y) ∈ []) by (rewrite <- Hl; by apply Hn). by apply not_elem_of_nil in Hi.
Qed.

Lemma box_del_links k r : box_links (RouteDel k r).1 = box_links k.
Proof. cbn [RouteDel BoxKernel]. by destruct (least _) as [[i y]|]. Qed.

Lemma box_list k f r m xs : RouteListFiltered k f r m = inl xs -> forall y, y ∈ xs <-> (exists i, box_routes k !! i = Some y) /\ selects f r m y.
Proof.
  cbn [RouteListFiltered BoxKernel]. intros [= <-] y. rewrite list_elem_of_In, filter_In, <- list_elem_of_In, selectsb_spec, list_elem_of_fmap. split.
  - intros [([i z] & -> & Hz%elem_of_map_to_list) Hs]. split; [by exists i|done].
  - intros [[i Hi] Hs]. split; [|done]. exists (i, y). split; [done|]. by apply elem_of_map_to_list.
Qed.

#[export] Instance box_laws : KernelLaws box box_routes box_links.
Proof.
  split.
  - apply box_keyed.
  - intros k s l. by intros [_ ?]%map_lookup_filter_Some.
  - intros k s l. cbn. destruct (box_links k !! s); congruence.
  - intros k s e. cbn. destruct (box_links k !! s); congruence.
  - intros k f r m xs Hxs x Hx. apply (box_list k f r m xs Hxs) in Hx as [[i Hi] Hs]. exists i, x. split; [done|]. split; [done|by left].
  - intros k f r m xs Hxs i y d Hy _ Hs. exists y. split; [|by left]. apply (box_list k f r m xs Hxs). split; [by exists i|done].
  - intros k r k'. cbn. destruct (0 <=? Priority r) eqn:E; [|done]. intros [= <-]. apply box_insert. unfold stored, IP6_RT_PRIO_USER. cbn [Priority].
    destruct (_ && _); lia.
  - intros k r k' e. cbn. destruct (0 <=? Priority r); [done|congruence].
  - intros k r. cbn. by destruct (0 <=? Priority r).
  - intros k r k' E. pose proof (box_del k r) as Hd. by rewrite E in Hd.
  - intros k r k' e E _. pose proof (box_del k r) as Hd. rewrite E in Hd. apply Hd.
  - intros k r k' e E. pose proof (box_del k r) as Hd. rewrite E in Hd. by destruct Hd as [-> _].
  - apply box_del_links.
  - intros k s k'. cbn. case_bool_decide; [done|]. intros [= <-]. eexists. apply (box_link k (b_routes k) (mkLink s _ false)).
  - intros k s k' e. cbn. case_bool_decide; congruence.
  - intros k s. cbn. by case_bool_decide.
  - intros k l k' [= <-]. apply (box_link k (b_routes k) (mkLink (Link_Name l) (Link_Index l) true)).
  - done.
  - done.
  - intros k l k' [= <-]. unfold box_links. cbn [b_links]. by rewrite map_filter_delete.
  - done.
  - intros k l. apply map_subseteq_spec. intros i r [[Hr _]%map_lookup_filter_Some Hk]%map_lookup_filter_Some. by apply map_lookup_filter_Some.
  - intros k l i r Hi Hm [Hr Hk]%map_lookup_filter_Some. apply map_lookup_filter_Some. split; [|done]. cbn [LinkDel BoxKernel fst b_routes].
    apply map_lookup_filter_Some. split; [done|]. cbn [snd]. unfold over. apply orb_false_iff. split; [by apply Z.eqb_neq|].
    apply not_true_is_false. intros (h & Hh & E)%existsb_exists. apply Z.eqb_eq in E. by apply (Hm h); [apply list_elem_of_In|].
Qed.

(** A host of two interfaces: a route over both, a SID, a learned route to the
    address of the SID.  Removing the SID takes the learned route, removing it again
    the SID and its device; the sweep takes the rest and leaves the route the kernel
    has of its own. *)
Definition host_routes : list Route :=
  [mkRoute (Some (mkIPNet [192; 0; 2; 0] (CIDRMask 24 32))) 2 254 0 2 [] [] None].
Definition host : box :=
  mkBox (list_to_map ((fun r => (rkey_of r, r)) <$> host_routes)) (list_to_map ((fun l => (Link_Name l, l)) <$> [mkLink "eth0" 2 true; mkLink "eth1" 3 true])).

Definition ten8 : Prefix := mkPrefix (Addr4 [10; 1; 0; 0]) 8.
Definition two_hops : list NextHopInfo := [mkNextHop "eth0" (Addr4 [192; 0; 2; 1]); mkNextHop "eth1" (Addr4 [198; 51; 100; 1])].
Definition host_sid : Addr := Addr6 [252; 0; 0; 0; 0; 0; 0; 0; 0; 0; 0; 0; 0; 0; 0; 1].
Definition learned : list NextHopInfo := [mkNextHop "eth1" (Addr6 [254; 128; 0; 0; 0; 0; 0; 0; 0; 0; 0; 0; 0; 0; 0; 7])].

Definition host_updated : box := (answer (netlink_Update 254 ten8 two_hops host)).1.
Definition host_with_sid : box := (answer (netlink_AddLocalSID 254 (mkLocalSID host_sid BehaviorEnd 0 AddrZero "") host_updated)).1.
Definition host_learned : box := (answer (netlink_Update 254 (mkPrefix host_sid 128) learned host_with_sid)).1.
Definition host_once : box := (answer (netlink_RemoveLocalSID 254 host_sid host_learned)).1.
Definition host_twice : box := (answer (netlink_RemoveLocalSID 254 host_sid host_once)).1.

Definition host_swept : box := (answer (netlink_Sweep 254 (fun _ => false) host_twice)).1.

Definition metrics (k : box) : list Z := omap (fun ir => if bool_decide (ours ir.2) then Some (Priority ir.2) else None) (map_to_list (box_routes k)).

Lemma netlink_contract_witness :
  (metrics host_updated, metrics host_once, metrics host_twice) = ([115], [115; 1024], [115]) /\
  (bool_decide (is_Some (box_links host_once !! srv6DummyDev)), bool_decide (is_Some (box_links host_twice !! srv6DummyDev))) = (true, false) /\
  (exists hops, Forall2 (leads box_links host) two_hops hops /\ box_routes host_updated = <[key 254 ten8 := forwards 254 ten8 hops]> (box_routes host)) /\
  dummy_used box_routes box_links host_twice /\
  (metrics host_swept, size (box_routes host_swept)) = ([], 1%nat) /\
  dummy_used box_routes box_links host_swept /\ spares box_routes box_links (reaped 254 (fun _ => false)) host_twice host_swept.
Proof.
  destruct (netlink_contract box_routes box_links 254 host) as (_ & Hu & _).
  destruct (netlink_contract box_routes box_links 254 host_once) as (_ & _ & _ & _ & _ & Hr).
  destruct (netlink_contract box_routes box_links 254 host_twice) as (_ & _ & _ & Hs & _).
  split; [vm_compute; reflexivity|]. split; [vm_compute; reflexivity|]. split; [|split; [|split]].
  - apply (after_success _ _ _ (Hu ten8 two_hops ltac:(discriminate))). vm_compute. reflexivity.
  - pose proof (after_success _ _ _ (Hr host_sid) ltac:(vm_compute; reflexivity)) as (Hd & _). exact Hd.
  - vm_compute. reflexivity.
  - pose proof (after_success _ _ _ (Hs (fun _ => false)) ltac:(vm_compute; reflexivity)) as (Hd & Hk & _). exact (conj Hd Hk).
Defined.
